(* ===== verification/_CoqProject ===== *)
-Q . S2P
Prelude.v
Riscv.v
Mem.v
Random.v
Spinlock.v
Harts.v
Kalloc.v
Pagetable.v
PtSpec.v
PtRange.v
PtFree.v
PtProps.v
Kvm.v
Uvm.v
UvmSpec.v
UvmFault.v
UvmCopy.v
UvmProps.v
Block.v
Bio.v
BioSpec.v
Cache.v
Log.v
LogSpec.v
LogTrans.v
LogProps.v
Fs.v
FsSpec.v
FsFile.v
FsInode.v
FsTable.v
FsData.v
FsDir.v
FsInst.v
FsProps.v
Proc.v
Lottery.v
ProcSpec.v
ProcProps.v
Sleep.v
Kern.v
Console.v
File.v
Sysproc.v
Exec.v
Sysfile.v
Trap.v
KernLaws.v
Ring.v
PipeSpec.v
KernProps.v
ConsoleSpec.v
ConsoleProps.v
Asm.v
AsmProps.v
Virtio.v
VirtioSpec.v
VirtioProps.v
Grep.v
GrepProps.v
Ulib.v
UlibProps.v
Utils.v
Umalloc.v
UmallocSpec.v
UmallocProps.v
Sh.v
ShSpec.v
ShPrint.v
ShProps.v
ShRun.v
ShRunProps.v
Mkfs.v
MkfsSpec.v
MkfsImage.v
MkfsBuild.v
MkfsProps.v
MkfsBoot.v
