(* ===== verification/Prelude.v ===== *)
(** * A verification of DEISO xv6 (RISC-V)

    xv6 is a small Unix-like system; this variant adds lazily filled and
    memory-mapped user memory, copy on write and a lottery scheduler.  The
    development translates the C and assembly of src/kernel, the main programs of
    src/user and src/mkfs into functions over explicit states and proves what makes
    each part correct.

    ** The program and how its parts interact

    A page allocator (kalloc.c) with reference counts gives physical pages to
    page tables (pagetable.c) and to user memory (uvm.c), which fills pages on
    the first access, from zeros or from a file, and shares them copy on write.
    Processes (proc.c) own user memory and open files; a lottery scheduler picks
    who runs, through a context switch in assembly (swtch.S).  The disk driver
    (virtio_disk.c) transfers blocks for the buffer cache (bio.c); the log
    (log.c) makes groups of block writes atomic; files, directories and paths
    (fs.c) are built on it.  Pipes, the console and inodes are files to processes
    (file.c, pipe.c, console.c); system calls (syscall.c, sysproc.c, sysfile.c,
    exec.c) reach all of them from the trap handler (trap.c), which is entered
    and left through the trampoline (trampoline.S).  Spin locks and sleep locks
    (spinlock.c, sleeplock.c) protect everything shared.  The image of the file
    system is made by mkfs on the host; user programs, the shell (sh.c) first of all,
    use the system calls through a small library (ulib.c, printf.c, umalloc.c).

    ** How code becomes definitions

    C integers are [Z] with the wrap-around of their width written out ([wrap],
    [swrap], [u8] .. [u64]).  Physical memory is a map from addresses to bytes
    ([Mem]); tables of structures are maps from indices to records, and a pointer
    into a table is an index.  Code with effects is in the monad [M S]: a function
    from the state to an [outcome], the answer with the new state, a [panic],
    [hang] (the code never comes back) or [undef] (undefined behaviour in C).
    [wp m Q s] says that [m] started in [s] returns, with [Q]: all
    specifications are of total correctness.  A component embeds in a larger
    state by a [Lens] and [zoom].

    What one component promises another is a class, so that clients are proved
    against it: [BlockOps] and [BlockLaws] (bio.c and log.c for fs.c, discharged
    in FsInst), [InodeOps] and [InodeLaws] (fs.c for user memory, discharged in
    KernLaws), [FileOps] (file.c for proc.c), [TrapOps] (trap.c for proc.c).
    What is outside the sources is a class or an argument as well: [Linker], the
    symbols of the linker script; [Hardware], the registers of the devices;
    [Switch], what other processes do while one is switched out; the page-table
    translation of the assembly model; the disk device.

    ** The files

    - Prelude: integers, the monad, its [wp], loops, lenses, lists.
    - Riscv: riscv.h, memlayout.h.  Mem: memory and string.c.  Random: random.c.
    - Spinlock: spinlock.c and sleeplock.c on the locks of one hart.  Harts: the lines
      of acquire and release of several harts, as a transition system.
    - Kalloc: kalloc.c, its invariant and theorems.
    - Pagetable: pagetable.c.  PtSpec, PtRange, PtFree: a page table as a tree of
      pages and the effect of each operation on its leaves.  PtProps: theorems.
    - Uvm: uvm.c.  UvmSpec: areas.  UvmFault: page faults.  UvmCopy: the memory a
      process sees, and the theorems.  UvmProps: a concrete process.
    - Block, Bio: buf.h, bio.c.  BioSpec, Cache: the cache invariant.
    - Log: log.c.  LogSpec, LogTrans, LogProps: recovery and transactions.
    - Fs: fs.c, fs.h.  FsSpec (blocks), FsFile (block map), FsInode (dinodes),
      FsTable (inode table), FsData (contents), FsDir (directories, paths), FsInst
      (over bio.c and log.c), FsProps (theorems).
    - Proc: proc.c, proc.h.  Lottery, ProcSpec, ProcProps: scheduling, wakeup.
      Sleep: sleep and wakeup as interleaved steps.
    - Kern: the state of the whole kernel.  Console: console.c, uart.c, printf.c,
      plic.c.  File: file.c, pipe.c.  Sysproc: syscall.c, sysproc.c.  Exec: exec.c.
      Sysfile: sysfile.c.  Trap: trap.c and the system call table.
    - KernLaws: fs.c satisfies [InodeLaws].  Ring: ring buffers, of pipes, of
      the console and of the disk driver.  PipeSpec, KernProps: pipes and mapped files
      in the whole kernel.  ConsoleSpec, ConsoleProps: the line discipline, numbers as
      text.
    - Asm: trampoline.S, swtch.S, kernelvec.S, entry.S, start.c as instruction
      lists.  AsmProps: what they keep.
    - Virtio: virtio_disk.c.  VirtioSpec, VirtioProps: interleaved with the device.
    - Kvm: kvmmap and kvminit, the address space of the kernel.
    - Grep: user/grep.c.  GrepProps: patterns as languages.
    - Ulib: user/ulib.c and user/printf.c.  UlibProps: their lemmas.  Utils:
      user/wc.c and user/cat.c.
    - Umalloc: user/umalloc.c on the memory of a program.  UmallocSpec: the ring of
      free blocks.  UmallocProps: theorems.
    - Sh: the parser of user/sh.c on the text of a line.  ShSpec: what each parsing
      function consumes.  ShPrint: printing commands back, in every way the grammar
      allows.  ShProps: theorems.  ShRun: runcmd and main as trees of system calls,
      and a small model of processes that runs them.  ShRunProps: theorems.
    - Mkfs: mkfs/mkfs.c on an image of sectors.  MkfsSpec: the image while it is
      built.  MkfsImage: files.  MkfsBuild: main.  MkfsProps: the finished image in
      the terms of FsSpec.  MkfsBoot: the kernel on it.

    Definitions have the names of the functions; loops have names of their own
    ([copyout_loop]).

    ** What the theorems show

    - Memory: [kinit], [kalloc] and [kfree] keep the allocator's invariant, a page
      is handed out once, and freed when its last reference goes.  Page tables
      translate what was mapped and nothing else; ranges are cloned and freed
      without losing or leaking pages.
    - User memory: areas made for ranges that do not wrap around never overlap; page
      faults do not change what a process sees and map the page with the permission
      asked for; [copyin] and [copyout] read and write exactly the named bytes.
    - Storage: the cache answers the disk's contents; after a crash at any moment
      of a commit, a transaction is there as a whole or not at all, also when
      recovery itself crashes; [writei] and [readi] are a store and a load of file
      contents; directories are maps from names to inodes; path walks follow them.
      The disk driver, under any interleaving with a device that reports no errors,
      refines atomic block transfers, never panics and loses no wakeup, interrupt or
      notification.
    - Processes: line by line, at most one hart owns a lock; the scheduler runs the
      holder of the ticket drawn; no wakeup is lost between [sleep] and [wakeup].
    - Input and output: a pipe is a queue of bytes; the console is a line editor;
      printed numbers fit their buffer and are the number.
    - Assembly: traps, context switches and interrupts give back every register;
      the timer handler moves its deadline and nothing else.
    - Boot: [kinit] and [kvminit] leave an address space in which no page is both
      writable and executable and every kernel stack has a guard page; the file
      system mounts the image mkfs leaves, with every file in it.
    - User programs: [malloc] and [free] keep the ring of free blocks and never hand
      out memory in use; the matcher of grep decides the language of the pattern, and
      grep writes exactly the matching lines; the parser of the shell answers for
      every line and inverts printing; running a command makes the processes, pipes
      and redirections it says, and a session does so line by line.

    ** Bounds and fuel

    Loops with a bound in the source run that often ([for_]).  Other loops take
    fuel, and the theorems prove that it is enough: a list of [NBUF] buffers is
    walked in [NBUF + 1] steps; [blocks_fuel n] is more than the blocks [n] bytes
    can touch; a copy of [n] bytes has at most [n] rounds, each at least a byte; the
    search for a free range moves past one of [VMA_SIZE] areas at a time; a
    descriptor chain has at most [NUM] entries, and so has the used ring; the parser
    of the shell calls itself at most four times for every character; a program that
    reads a file needs a round for every byte at most.  Loops that wait for a device
    or another process take the fuel as an argument: the theorems hold for every fuel
    with which the wait ends, and say when it does ([tx_live]).

    ** Not modelled

    - Memory ordering and fences: steps are sequentially consistent; in the sequential
      models critical sections under a spin lock are atomic, which Harts justifies.
    - In the sequential models other processes act only where the code gives up
      the processor ([Switch]); interleavings are modelled in Harts, Sleep and
      VirtioProps.  The disk device acts also inside critical sections of its driver;
      a device that reports an error makes the handler panic and is left out.
    - The TLB, and accessors of control registers the code only passes through.
    - main.c (calls of the initialisations in order), kernel.ld and ramdisk.c
      (not linked).
    - The other user programs hand their arguments to one or two system calls or are
      tests; the main functions of grep, wc and cat open their files in turn.
    - In the shell, memory for the commands is assumed to be there; what a system
      call does to other processes is the small model of ShRun, not the kernel model.
      There the programs a shell starts take nothing from the text the shell itself
      reads, although they share its descriptor 0 and the offset in the file.
*)

From stdpp Require Export base gmap strings list numbers fin_maps.
From Stdlib Require Export Lia ZArith.

#[global] Open Scope Z_scope.

(** ** Machine integers

    A C integer of width [w] is a [Z]; unsigned arithmetic reduces modulo
    [2^w], and a conversion to a signed type takes the two's-complement
    representative. *)

Definition wrap (w x : Z) : Z := x mod 2 ^ w.
Definition swrap (w x : Z) : Z := (x + 2 ^ (w - 1)) mod 2 ^ w - 2 ^ (w - 1).

Abbreviation u8 := (wrap 8).
Abbreviation u16 := (wrap 16).
Abbreviation u32 := (wrap 32).
Abbreviation u64 := (wrap 64).
Abbreviation s8 := (swrap 8).
Abbreviation s16 := (swrap 16).
Abbreviation s32 := (swrap 32).

(** C's truth value of an integer. *)
Definition truthy (x : Z) : bool := negb (x =? 0).

Definition b2z (b : bool) : Z := if b then 1 else 0.

Lemma wrap_bound w x : 0 <= w → 0 <= wrap w x < 2 ^ w.
Proof. intros; apply Z.mod_pos_bound; lia. Qed.

Lemma wrap_small w x : 0 <= x < 2 ^ w → wrap w x = x.
Proof. apply Z.mod_small. Qed.

Lemma wrap_wrap w x : wrap w (wrap w x) = wrap w x.
Proof.
  unfold wrap. destruct (decide (2 ^ w = 0)) as [E|E].
  - rewrite E, !Z.mod_0_r. done.
  - by rewrite Z.mod_mod.
Qed.

Lemma swrap_bound w x : 1 <= w → - 2 ^ (w - 1) <= swrap w x < 2 ^ (w - 1).
Proof.
  intros Hw. unfold swrap.
  pose proof (Z.mod_pos_bound (x + 2 ^ (w - 1)) (2 ^ w) ltac:(lia)).
  assert (2 ^ w = 2 * 2 ^ (w - 1)) by (rewrite <- Z.pow_succ_r by lia; f_equal; lia).
  lia.
Qed.

Lemma swrap_small w x : 1 <= w → - 2 ^ (w - 1) <= x < 2 ^ (w - 1) → swrap w x = x.
Proof.
  intros Hw Hx. unfold swrap.
  assert (2 ^ w = 2 * 2 ^ (w - 1)) by (rewrite <- Z.pow_succ_r by lia; f_equal; lia).
  rewrite Z.mod_small; lia.
Qed.

(** ** Outcomes and the kernel monad

    A kernel function run by one hart from state [s] either returns a value
    and a new state, calls [panic] (which never returns), waits for ever when
    no other thread runs ([Hang]: it spins on a held lock or calls [sleep]),
    or does something the C standard leaves undefined ([Undef]: an array
    access out of range, a null dereference, a signed overflow). *)

Inductive outcome (A : Type) : Type :=
  | Ok (a : A)
  | Panic (msg : string)
  | Hang
  | Undef.
Arguments Ok {A} a.
Arguments Panic {A} msg.
Arguments Hang {A}.
Arguments Undef {A}.

Definition M (S A : Type) : Type := S → outcome (A * S).

Definition ret {S A} (a : A) : M S A := λ s, Ok (a, s).
Definition bind {S A B} (m : M S A) (k : A → M S B) : M S B :=
  λ s, match m s with
       | Ok (a, s') => k a s'
       | Panic msg => Panic msg
       | Hang => Hang
       | Undef => Undef
       end.
Definition panic {S A} (msg : string) : M S A := λ _, Panic msg.
Definition hang {S A} : M S A := λ _, Hang.
Definition undef {S A} : M S A := λ _, Undef.
Definition getS {S} : M S S := λ s, Ok (s, s).
Definition gets {S A} (f : S → A) : M S A := λ s, Ok (f s, s).
Definition modify {S} (f : S → S) : M S unit := λ s, Ok (tt, f s).

Declare Scope kernel_scope.
Delimit Scope kernel_scope with K.
Notation "'let!' x ':=' m 'in' k" := (bind m (λ x, k))
  (at level 10, x pattern, m at level 200, k at level 200,
   format "'[v' 'let!'  x  ':='  m  'in' '/' k ']'") : kernel_scope.
Notation "m ;; k" := (bind m (λ _, k))
  (at level 100, k at level 200, right associativity, format "'[v' m  ;; '/' k ']'") : kernel_scope.
#[global] Open Scope kernel_scope.

(** [assert_def b]: the execution is defined only when [b] holds. *)
Definition assert_def {S} (b : bool) : M S unit := if b then ret tt else undef.

(** Signed [int] arithmetic: overflow is undefined. *)
Definition int_ok (x : Z) : bool := (- 2 ^ 31 <=? x) && (x <? 2 ^ 31).
Definition as_int {S} (x : Z) : M S Z := assert_def (int_ok x) ;; ret x.

(** *** Loops

    [for_ n i step body] runs [body] at [i], [i + step], ..., [n] times;
    [body] answers [Some r] to return [r] from the enclosing function (or to
    [break]) and [None] to go on. *)

Fixpoint for_ {S R} (n : nat) (i step : Z) (body : Z → M S (option R))
    : M S (option R) :=
  match n with
  | O => ret None
  | Datatypes.S n' =>
      let! r := body i in
      match r with
      | Some x => ret (Some x)
      | None => for_ n' (i + step) step body
      end
  end.

(** Number of iterations of [for (x = lo; x < hi; x += step)]. *)
Definition iters (lo hi step : Z) : nat := Z.to_nat ((hi - lo + step - 1) / step).

(** ** Total correctness

    [wp m Q s]: run from [s], [m] returns (no panic, no hang, no undefined
    behaviour) and its result and final state satisfy [Q]. *)

Definition wp {S A} (m : M S A) (Q : A → S → Prop) (s : S) : Prop :=
  match m s with
  | Ok (a, s') => Q a s'
  | _ => False
  end.

Section WP.
Context {S : Type}.

Lemma wp_ret {A} (a : A) Q (s : S) : Q a s → wp (ret a) Q s.
Proof. done. Qed.

Lemma wp_bind {A B} (m : M S A) (k : A → M S B) Q (s : S) :
  wp m (λ a s', wp (k a) Q s') s → wp (bind m k) Q s.
Proof. unfold wp, bind. by destruct (m s) as [[]| | |]. Qed.

Lemma wp_mono {A} (m : M S A) (P Q : A → S → Prop) s :
  wp m P s → (∀ a s', P a s' → Q a s') → wp m Q s.
Proof. unfold wp. destruct (m s) as [[]| | |]; auto. Qed.

Lemma wp_step {A B} (m : M S A) (k : A → M S B) P Q (s : S) :
  wp m P s → (∀ a s', P a s' → wp (k a) Q s') → wp (bind m k) Q s.
Proof. intros Hm Hk. apply wp_bind. eapply wp_mono; eauto. Qed.

Lemma wp_and {A} (m : M S A) (P Q : A → S → Prop) s :
  wp m P s → wp m Q s → wp m (λ a s', P a s' ∧ Q a s') s.
Proof. unfold wp. destruct (m s) as [[]| | |]; auto. Qed.

Lemma wp_eq {A} (m : M S A) a s' Q (s : S) : m s = Ok (a, s') → Q a s' → wp m Q s.
Proof. unfold wp. by intros ->. Qed.

Lemma wp_gets {A} (f : S → A) Q (s : S) : Q (f s) s → wp (gets f) Q s.
Proof. done. Qed.

Lemma wp_getS Q (s : S) : Q s s → wp getS Q s.
Proof. done. Qed.

Lemma wp_modify (f : S → S) Q (s : S) : Q tt (f s) → wp (modify f) Q s.
Proof. done. Qed.

Lemma wp_assert_def b Q (s : S) : b = true → Q tt s → wp (assert_def b) Q s.
Proof. by intros -> ?. Qed.

Lemma wp_as_int x Q (s : S) : - 2 ^ 31 <= x < 2 ^ 31 → Q x s → wp (as_int x) Q s.
Proof.
  intros Hx HQ. apply wp_bind, wp_assert_def; [|done].
  unfold int_ok. apply andb_true_iff. split; [apply Z.leb_le|apply Z.ltb_lt]; lia.
Qed.

(** The run of a computation that satisfies a [wp]. *)
Lemma wp_run {A} (m : M S A) Q (s : S) :
  wp m Q s ↔ ∃ a s', m s = Ok (a, s') ∧ Q a s'.
Proof.
  unfold wp. destruct (m s) as [[a s']| | |]; split.
  1: eauto. 1: by intros (? & ? & [= <- <-] & ?).
  all: by (intros (? & ? & ? & ?) || intros []).
Qed.

(** Some answer and state satisfy the postcondition. *)
Lemma wp_exists {A} (m : M S A) Q (s : S) : wp m Q s → ∃ a s', Q a s'.
Proof. unfold wp. destruct (m s) as [[a s']| | |]; [eauto|done..]. Qed.

(** The answer and the final state of a run, for concrete executions. *)
Definition answer {A} (m : M S A) (s : S) : option A :=
  match m s with Ok (a, _) => Some a | _ => None end.
Definition after {A} (m : M S A) (s : S) : S :=
  match m s with Ok (_, s') => s' | _ => s end.

Lemma wp_answer {A} (m : M S A) Q s a : wp m Q s → answer m s = Some a → Q a (after m s).
Proof. unfold wp, answer, after. destruct (m s) as [[a' s']| | |]; try done. by intros ? [= ->]. Qed.

(** The loop rule: [I k] holds before the [k]-th of [n] iterations, [R r]
    when the body leaves the loop with [Some r]. *)
Lemma wp_for {R} (I : nat → S → Prop) (Q : option R → S → Prop)
    n i step (body : Z → M S (option R)) s :
  I 0%nat s →
  (∀ k s, (k < n)%nat → I k s →
     wp (body (i + Z.of_nat k * step))
        (λ r s', match r with None => I (Datatypes.S k) s' | Some _ => Q r s' end) s) →
  (∀ s, I n s → Q None s) →
  wp (for_ n i step body) Q s.
Proof.
  revert I i s. induction n as [|n IH]; intros I i s H0 Hstep Hend; simpl.
  { by apply wp_ret, Hend. }
  eapply wp_step.
  { pose proof (Hstep 0%nat s ltac:(lia) H0) as H.
    by rewrite Z.add_0_r in H. }
  intros [r|] s' H; simpl in H.
  { by apply wp_ret. }
  apply (IH (λ k, I (Datatypes.S k))); [done| |done].
  intros k s1 Hk HI. pose proof (Hstep (Datatypes.S k) s1 ltac:(lia) HI) as H1.
  replace (i + step + Z.of_nat k * step) with (i + Z.of_nat (Datatypes.S k) * step) by lia.
  done.
Qed.
End WP.

(** ** Lenses

    A component's functions run on the component's own state; a client whose
    state contains it lifts them with [zoom]. *)

Class Lens (S T : Type) := {
  view : S → T;
  set : T → S → S;
  view_set : ∀ t s, view (set t s) = t;
  set_view : ∀ s, set (view s) s = s;
  set_set : ∀ t t' s, set t (set t' s) = set t s
}.

Definition zoom {S T A} `{Lens S T} (m : M T A) : M S A :=
  λ s, match m (view s) with
       | Ok (a, t) => Ok (a, set t s)
       | Panic msg => Panic msg
       | Hang => Hang
       | Undef => Undef
       end.

Lemma wp_zoom {S T A} `{Lens S T} (m : M T A) (Q : A → S → Prop) s :
  wp m (λ a t, Q a (set t s)) (view s) → wp (zoom m) Q s.
Proof. unfold wp, zoom. by destruct (m (view s)) as [[]| | |]. Qed.

(** ** Lists *)

(** Pigeonhole: distinct integers below [n] are at most [n]. *)
Lemma NoDup_Z_length (l : list Z) n :
  0 <= n → NoDup l → (∀ x, x ∈ l → 0 <= x < n) → Z.of_nat (length l) <= n.
Proof.
  intros Hn Hnd Hl.
  assert (l ⊆+ seqZ 0 n) as H%submseteq_length.
  { apply NoDup_submseteq; [done|]. intros x Hx. apply elem_of_seqZ. rewrite Z.add_0_l. auto. }
  rewrite length_seqZ in H. lia.
Qed.

(** ** Automation *)

Create HintDb kernel.
#[export] Hint Resolve wp_ret wp_gets wp_modify : kernel.

(** [wp_go] symbolically runs the primitive computations at the head. *)
Ltac wp_go :=
  repeat first
    [ progress cbv beta iota
    | apply wp_ret | apply wp_gets | apply wp_getS | apply wp_modify
    | apply wp_bind ].

Ltac bool_to_prop :=
  repeat match goal with
    | H : (_ && _) = true |- _ => apply andb_true_iff in H; destruct H
    | H : (_ || _) = false |- _ => apply orb_false_iff in H; destruct H
    | H : (_ && _) = false |- _ => apply andb_false_iff in H; destruct H
    | H : (_ || _) = true |- _ => apply orb_true_iff in H; destruct H
    | H : negb _ = true |- _ => apply negb_true_iff in H
    | H : negb _ = false |- _ => apply negb_false_iff in H
    | H : (_ <=? _) = true |- _ => apply Z.leb_le in H
    | H : (_ <=? _) = false |- _ => apply Z.leb_gt in H
    | H : (_ <? _) = true |- _ => apply Z.ltb_lt in H
    | H : (_ <? _) = false |- _ => apply Z.ltb_ge in H
    | H : (_ =? _) = true |- _ => apply Z.eqb_eq in H
    | H : (_ =? _) = false |- _ => apply Z.eqb_neq in H
    end.

(** Case analysis on the boolean tests of the code. *)
Ltac case_test :=
  match goal with
  | |- context [if ?b then _ else _] =>
      let E := fresh "E" in destruct b eqn:E; bool_to_prop
  end.

Ltac case_tests := repeat case_test; subst; try done; try lia.
