(* ===== verification/Riscv.v ===== *)
(** * The architecture macros of kernel/riscv.h and kernel/memlayout.h

    Page rounding, page-table-entry encoding and the Sv39 index extraction,
    with their arithmetic characterisations. *)

From S2P Require Import Prelude.

(** ** Constants *)

Abbreviation PGSIZE := 4096.
Abbreviation PGSHIFT := 12.
Abbreviation PTE_V := 1.
Abbreviation PTE_R := 2.
Abbreviation PTE_W := 4.
Abbreviation PTE_X := 8.
Abbreviation PTE_U := 16.
Abbreviation MAXVA := 274877906944.      (* 1L << (9 + 9 + 9 + 12 - 1) *)
Abbreviation KERNBASE := 2147483648.     (* 0x80000000L *)
Abbreviation PHYSTOP := 2281701376.      (* KERNBASE + 128*1024*1024 *)
Abbreviation TRAMPOLINE := (MAXVA - PGSIZE).
Abbreviation TRAPFRAME := (TRAMPOLINE - PGSIZE).
Abbreviation START_VMAS_ADDR := (TRAPFRAME / 2).

(** ** Macros *)

Definition PGROUNDUP (sz : Z) : Z := Z.land (u64 (sz + PGSIZE - 1)) (Z.lnot (PGSIZE - 1)).
Definition PGROUNDDOWN (a : Z) : Z := Z.land a (Z.lnot (PGSIZE - 1)).
Definition PA2PTE (pa : Z) : Z := u64 (Z.shiftl (Z.shiftr pa 12) 10).
Definition PTE2PA (pte : Z) : Z := u64 (Z.shiftl (Z.shiftr pte 10) 12).
Definition PTE_FLAGS (pte : Z) : Z := Z.land pte 1023.
Definition PXSHIFT (level : Z) : Z := PGSHIFT + 9 * level.
Definition PX (level va : Z) : Z := Z.land (Z.shiftr va (PXSHIFT level)) 511.
Definition KSTACK (p : Z) : Z := TRAMPOLINE - (p + 1) * 2 * PGSIZE.

(** A page-aligned address. *)
Definition aligned (a : Z) : Prop := a mod PGSIZE = 0.

(** ** Rounding *)

Lemma land_lnot_ones a n : 0 <= n → Z.land a (Z.lnot (Z.ones n)) = a - a mod 2 ^ n.
Proof.
  intros Hn. rewrite <- Z.ldiff_land, Z.ldiff_ones_r by done.
  rewrite Z.shiftr_div_pow2, Z.shiftl_mul_pow2 by done.
  pose proof (Z.div_mod a (2 ^ n) ltac:(apply Z.pow_nonzero; lia)). lia.
Qed.

Lemma PGROUNDDOWN_eq a : PGROUNDDOWN a = a - a mod PGSIZE.
Proof. apply (land_lnot_ones a 12). lia. Qed.

Lemma PGROUNDUP_eq a :
  0 <= a → a + PGSIZE <= 2 ^ 64 → PGROUNDUP a = (a + PGSIZE - 1) - (a + PGSIZE - 1) mod PGSIZE.
Proof.
  intros. unfold PGROUNDUP. rewrite wrap_small by lia. apply (land_lnot_ones _ 12). lia.
Qed.

Ltac page_arith :=
  unfold aligned in *;
  rewrite ?PGROUNDDOWN_eq in *;
  repeat match goal with
    | |- context [?a mod PGSIZE] =>
        lazymatch goal with
        | _ : a = PGSIZE * (a / PGSIZE) + a mod PGSIZE |- _ => fail
        | _ => pose proof (Z.div_mod a PGSIZE ltac:(lia));
               pose proof (Z.mod_pos_bound a PGSIZE ltac:(lia))
        end
    | _ : context [?a mod PGSIZE] |- _ =>
        lazymatch goal with
        | _ : a = PGSIZE * (a / PGSIZE) + a mod PGSIZE |- _ => fail
        | _ => pose proof (Z.div_mod a PGSIZE ltac:(lia));
               pose proof (Z.mod_pos_bound a PGSIZE ltac:(lia))
        end
    end; lia.

Lemma aligned_mul a : aligned a ↔ ∃ k, a = k * PGSIZE.
Proof.
  unfold aligned. rewrite Z.mod_divide by lia. unfold Z.divide. done.
Qed.

Lemma PGROUNDDOWN_aligned a : aligned (PGROUNDDOWN a).
Proof. apply aligned_mul. exists (a / PGSIZE). page_arith. Qed.

Lemma PGROUNDDOWN_le a : PGROUNDDOWN a <= a < PGROUNDDOWN a + PGSIZE.
Proof. page_arith. Qed.

Lemma PGROUNDDOWN_id a : aligned a → PGROUNDDOWN a = a.
Proof. intros. page_arith. Qed.

Lemma PGROUNDUP_aligned a : 0 <= a → a + PGSIZE <= 2 ^ 64 → aligned (PGROUNDUP a).
Proof.
  intros. rewrite PGROUNDUP_eq by lia. apply aligned_mul.
  exists ((a + PGSIZE - 1) / PGSIZE). page_arith.
Qed.

Lemma PGROUNDUP_le a : 0 <= a → a + PGSIZE <= 2 ^ 64 → a <= PGROUNDUP a < a + PGSIZE.
Proof. intros. rewrite PGROUNDUP_eq by lia. page_arith. Qed.

Lemma PGROUNDUP_id a : 0 <= a → a + PGSIZE <= 2 ^ 64 → aligned a → PGROUNDUP a = a.
Proof.
  intros H1 H2 [k ->]%aligned_mul. rewrite PGROUNDUP_eq by lia.
  replace (k * PGSIZE + PGSIZE - 1) with (PGSIZE - 1 + k * PGSIZE) by lia.
  rewrite Z.mod_add by lia. rewrite Z.mod_small by lia. lia.
Qed.

(** Two distinct aligned addresses are a page apart. *)
Lemma aligned_apart a b : aligned a → aligned b → a < b → a + PGSIZE <= b.
Proof. intros [i ->]%aligned_mul [j ->]%aligned_mul. lia. Qed.

Lemma aligned_add a b : aligned a → aligned b → aligned (a + b).
Proof. rewrite !aligned_mul. intros [i ->] [j ->]. exists (i + j). lia. Qed.

Lemma aligned_scale k : aligned (k * PGSIZE).
Proof. apply aligned_mul. eauto. Qed.

Lemma PGROUNDDOWN_off a b : aligned a → a <= b < a + PGSIZE → PGROUNDDOWN b = a.
Proof.
  intros Ha Hb. pose proof (PGROUNDDOWN_aligned b). pose proof (PGROUNDDOWN_le b).
  destruct (Z.lt_trichotomy a (PGROUNDDOWN b)) as [L|[L|L]]; [|lia|].
  - pose proof (aligned_apart _ _ Ha H L). lia.
  - pose proof (aligned_apart _ _ H Ha L). lia.
Qed.

(** ** Page-table indices *)

Lemma PX_eq l va : 0 <= l → PX l va = (va / 2 ^ (12 + 9 * l)) mod 512.
Proof.
  intros. unfold PX, PXSHIFT. rewrite Z.shiftr_div_pow2 by lia.
  apply (Z.land_ones _ 9). lia.
Qed.

Lemma PX_bound l va : 0 <= PX l va < 512.
Proof.
  unfold PX. rewrite (Z.land_ones _ 9) by lia. apply Z.mod_pos_bound. lia.
Qed.

(** ** Page-table entries *)

Lemma lor_add a b n : 0 <= n → a mod 2 ^ n = 0 → 0 <= b < 2 ^ n → Z.lor a b = a + b.
Proof.
  intros Hn Ha Hb.
  rewrite <- Z.lxor_lor; [symmetry; apply Z.add_nocarry_lxor|].
  all: apply Z.bits_inj'; intros i Hi; rewrite Z.land_spec, Z.bits_0.
  all: destruct (decide (i < n)).
  1,3: rewrite <- (Z.mod_pow2_bits_low a n i) by lia; by rewrite Ha, Z.bits_0.
  all: rewrite <- (Z.mod_small b (2 ^ n)) by lia;
       rewrite Z.mod_pow2_bits_high by lia; apply andb_false_r.
Qed.

(** A physical page: its address fits the 44-bit page number of Sv39. *)
Definition paddr (pa : Z) : Prop := 0 <= pa < 2 ^ 56 ∧ aligned pa.

Lemma PA2PTE_eq pa : paddr pa → PA2PTE pa = (pa / PGSIZE) * 1024.
Proof.
  intros [Hpa _]. unfold PA2PTE.
  rewrite Z.shiftr_div_pow2, Z.shiftl_mul_pow2 by lia.
  change (2 ^ 12) with PGSIZE. change (2 ^ 10) with 1024.
  apply wrap_small.
  pose proof (Z.div_mod pa PGSIZE ltac:(lia)).
  pose proof (Z.mod_pos_bound pa PGSIZE ltac:(lia)). lia.
Qed.

Lemma PTE_fields pa f :
  paddr pa → 0 <= f < 1024 →
  Z.lor (PA2PTE pa) f = PA2PTE pa + f ∧ PTE2PA (Z.lor (PA2PTE pa) f) = pa ∧
  PTE_FLAGS (Z.lor (PA2PTE pa) f) = f ∧ 0 <= Z.lor (PA2PTE pa) f < 2 ^ 64.
Proof.
  intros Hpa Hf.
  assert (Z.lor (PA2PTE pa) f = PA2PTE pa + f) as E.
  { apply (lor_add _ _ 10); [lia| |lia]. rewrite PA2PTE_eq by done.
    apply Z.mod_mul. lia. }
  rewrite E, PA2PTE_eq by done. destruct Hpa as [Hpa Hal].
  pose proof (Z.div_mod pa PGSIZE ltac:(lia)). unfold aligned in Hal.
  split_and!; [done| | |lia|lia].
  - unfold PTE2PA. rewrite Z.shiftr_div_pow2, Z.shiftl_mul_pow2 by lia.
    change (2 ^ 10) with 1024. change (2 ^ 12) with PGSIZE.
    rewrite Z.div_add_l, (Z.div_small f) by lia. rewrite wrap_small; lia.
  - unfold PTE_FLAGS. rewrite (Z.land_ones _ 10) by lia. change (2 ^ 10) with 1024.
    rewrite Z.add_comm, Z.mod_add by lia. by apply Z.mod_small.
Qed.

Lemma PTE2PA_mk pa f : paddr pa → 0 <= f < 1024 → PTE2PA (Z.lor (PA2PTE pa) f) = pa.
Proof. intros. by apply PTE_fields. Qed.

Lemma PTE_FLAGS_mk pa f : paddr pa → 0 <= f < 1024 → PTE_FLAGS (Z.lor (PA2PTE pa) f) = f.
Proof. intros. by apply PTE_fields. Qed.

Lemma PTE_mk_bound pa f : paddr pa → 0 <= f < 1024 → 0 <= Z.lor (PA2PTE pa) f < 2 ^ 64.
Proof. intros. by apply PTE_fields. Qed.

(** The flag bits of an entry are those of its low ten bits. *)
Lemma land_flags pte m : 0 <= m < 1024 → Z.land pte m = Z.land (PTE_FLAGS pte) m.
Proof.
  intros Hm. unfold PTE_FLAGS. rewrite <- Z.land_assoc. f_equal.
  rewrite Z.land_comm, (Z.land_ones _ 10) by lia. symmetry. by apply Z.mod_small.
Qed.
