(* ===== verification/Mem.v ===== *)
(** * Byte memory and the string routines of kernel/string.c

    Memory is a finite map from addresses to bytes; an address never written
    reads as zero (RAM the model has not touched, and zero-initialised
    globals).  Each routine of string.c is the loop of the source. *)

From S2P Require Import Prelude.

Abbreviation mem := (gmap Z Z).

(** ** Loads and stores *)

Definition ldb (m : mem) (a : Z) : Z := u8 (default 0 (m !! a)).
Definition stb (m : mem) (a v : Z) : mem := <[a := u8 v]> m.

(** Little-endian access to [n] bytes. *)
Fixpoint ld (n : nat) (m : mem) (a : Z) : Z :=
  match n with
  | O => 0
  | S n' => ldb m a + 256 * ld n' m (a + 1)
  end.
Fixpoint st (n : nat) (m : mem) (a v : Z) : mem :=
  match n with
  | O => m
  | S n' => st n' (stb m a v) (a + 1) (v / 256)
  end.

Abbreviation ld32 := (ld 4).
Abbreviation st32 := (st 4).
Abbreviation ld64 := (ld 8).
Abbreviation st64 := (st 8).

(** ** kernel/string.c *)

Fixpoint memset_loop (n : nat) (m : mem) (dst i c : Z) : mem :=
  match n with
  | O => m
  | S n' => memset_loop n' (stb m (dst + i) c) dst (i + 1) c
  end.
Definition memset (m : mem) (dst c n : Z) : mem := memset_loop (Z.to_nat n) m dst 0 c.

Fixpoint memcmp_loop (n : nat) (m : mem) (s1 s2 : Z) : Z :=
  match n with
  | O => 0
  | S n' => if negb (ldb m s1 =? ldb m s2) then ldb m s1 - ldb m s2
            else memcmp_loop n' m (s1 + 1) (s2 + 1)
  end.
Definition memcmp (m : mem) (v1 v2 n : Z) : Z := memcmp_loop (Z.to_nat n) m v1 v2.

(** [while(n-- > 0) *d++ = *s++;] *)
Fixpoint copy_up (n : nat) (m : mem) (d s : Z) : mem :=
  match n with
  | O => m
  | S n' => copy_up n' (stb m d (ldb m s)) (d + 1) (s + 1)
  end.
(** [while(n-- > 0) *--d = *--s;] *)
Fixpoint copy_down (n : nat) (m : mem) (d s : Z) : mem :=
  match n with
  | O => m
  | S n' => copy_down n' (stb m (d - 1) (ldb m (s - 1))) (d - 1) (s - 1)
  end.
Definition memmove (m : mem) (dst src n : Z) : mem :=
  if n =? 0 then m
  else if (src <? dst) && (dst <? src + n)
  then copy_down (Z.to_nat n) m (dst + n) (src + n)
  else copy_up (Z.to_nat n) m dst src.

Fixpoint strncmp_loop (n : nat) (m : mem) (p q : Z) : Z :=
  match n with
  | O => 0
  | S n' => if truthy (ldb m p) && (ldb m p =? ldb m q)
            then strncmp_loop n' m (p + 1) (q + 1)
            else ldb m p - ldb m q
  end.
Definition strncmp (m : mem) (p q n : Z) : Z := strncmp_loop (Z.to_nat n) m p q.

(** The two loops of [strncpy]: copy up to and including the NUL, then pad. *)
Fixpoint strncpy_copy (n : nat) (m : mem) (s t : Z) : mem * nat * Z :=
  match n with
  | O => (m, O, s)
  | S n' =>
      let m' := stb m s (ldb m t) in
      if truthy (ldb m t) then strncpy_copy n' m' (s + 1) (t + 1)
      else (m', n', s + 1)
  end.
Definition strncpy (m : mem) (s t n : Z) : mem :=
  let '(m', n', s') := strncpy_copy (Z.to_nat n) m s t in
  memset_loop n' m' s' 0 0.

(** [while(--n > 0 && ( *s++ = *t++) != 0);] answers the final [s]. *)
Fixpoint safestrcpy_copy (n : nat) (m : mem) (s t : Z) : mem * Z :=
  match n with
  | O => (m, s)
  | S n' =>
      let m' := stb m s (ldb m t) in
      if truthy (ldb m t) then safestrcpy_copy n' m' (s + 1) (t + 1)
      else (m', s + 1)
  end.
Definition safestrcpy (m : mem) (s t n : Z) : mem :=
  if n <=? 0 then m
  else let '(m', s') := safestrcpy_copy (Z.to_nat (n - 1)) m s t in stb m' s' 0.

(** [for(n = 0; s[n]; n++);] with fuel; [None] when the fuel runs out. *)
Fixpoint strlen_loop (fuel : nat) (m : mem) (s n : Z) : option Z :=
  match fuel with
  | O => None
  | S fuel' => if truthy (ldb m (s + n)) then strlen_loop fuel' m s (n + 1) else Some n
  end.
Definition strlen (fuel : nat) (m : mem) (s : Z) : option Z := strlen_loop fuel m s 0.

(** ** Facts about loads and stores *)

Lemma ldb_bound m a : 0 <= ldb m a < 256.
Proof. apply (wrap_bound 8). lia. Qed.

Lemma u8_ldb m a : u8 (ldb m a) = ldb m a.
Proof. apply wrap_wrap. Qed.

Lemma ldb_stb m a v b : ldb (stb m a v) b = if b =? a then u8 v else ldb m b.
Proof.
  unfold ldb, stb. destruct (Z.eqb_spec b a) as [->|Hne].
  - rewrite lookup_insert_eq. apply wrap_wrap.
  - by rewrite lookup_insert_ne by done.
Qed.

Lemma ldb_stb_eq m a v : ldb (stb m a v) a = u8 v.
Proof. by rewrite ldb_stb, Z.eqb_refl. Qed.

Lemma ldb_stb_ne m a v b : a ≠ b → ldb (stb m a v) b = ldb m b.
Proof. intros. rewrite ldb_stb. by destruct (Z.eqb_spec b a). Qed.

Lemma ld_ext n m m' a :
  (∀ b, a <= b < a + Z.of_nat n → ldb m' b = ldb m b) → ld n m' a = ld n m a.
Proof.
  revert a. induction n as [|n IH]; intros a H; simpl; [done|].
  rewrite H by lia. rewrite IH; [done|]. intros b Hb. apply H. lia.
Qed.

Lemma ld_bound n m a : 0 <= ld n m a < 256 ^ Z.of_nat n.
Proof.
  revert a. induction n as [|n IH]; intros a; [simpl; lia|].
  rewrite Nat2Z.inj_succ, Z.pow_succ_r by lia. cbn [ld].
  pose proof (ldb_bound m a). pose proof (IH (a + 1)). lia.
Qed.

Lemma ld64_bound m a : 0 <= ld64 m a < 2 ^ 64.
Proof. pose proof (ld_bound 8 m a). lia. Qed.

Lemma ldb_st_out n m a v b :
  ¬ (a <= b < a + Z.of_nat n) → ldb (st n m a v) b = ldb m b.
Proof.
  revert m a v. induction n as [|n IH]; intros m a v H; simpl; [done|].
  rewrite IH by lia. apply ldb_stb_ne. lia.
Qed.

Lemma ld_st n m a v : ld n (st n m a v) a = v mod 256 ^ Z.of_nat n.
Proof.
  revert m a v. induction n as [|n IH]; intros m a v.
  { simpl. by rewrite Z.mod_1_r. }
  rewrite Nat2Z.inj_succ, Z.pow_succ_r by lia. cbn [ld st].
  rewrite IH, ldb_st_out by lia. rewrite ldb_stb_eq.
  unfold wrap. change (2 ^ 8) with 256.
  rewrite Z.rem_mul_r by (try apply Z.pow_nonzero; lia). lia.
Qed.

Lemma ld64_st64 m a v : 0 <= v < 2 ^ 64 → ld64 (st64 m a v) a = v.
Proof. intros. rewrite ld_st. apply Z.mod_small. lia. Qed.

Lemma ld_st_out n k m a v b :
  (a + Z.of_nat n <= b ∨ b + Z.of_nat k <= a) → ld k (st n m a v) b = ld k m b.
Proof. intros H. apply ld_ext. intros c Hc. apply ldb_st_out. lia. Qed.

(** ** Specifications of the string routines *)

Lemma memset_loop_ldb n m dst i c a :
  ldb (memset_loop n m dst i c) a =
  if (dst + i <=? a) && (a <? dst + i + Z.of_nat n) then u8 c else ldb m a.
Proof.
  revert m i. induction n as [|n IH]; intros m i; simpl.
  { case_tests. }
  rewrite IH, ldb_stb. case_tests.
Qed.

Lemma memset_ldb m dst c n a :
  0 <= n →
  ldb (memset m dst c n) a =
  if (dst <=? a) && (a <? dst + n) then u8 c else ldb m a.
Proof.
  intros. unfold memset. rewrite memset_loop_ldb.
  replace (dst + 0) with dst by lia. by rewrite Z2Nat.id by lia.
Qed.

Lemma memset_out m dst c n a :
  0 <= n → ¬ (dst <= a < dst + n) → ldb (memset m dst c n) a = ldb m a.
Proof. intros. rewrite memset_ldb by done. case_tests. Qed.

Lemma memset_in m dst c n a :
  dst <= a < dst + n → ldb (memset m dst c n) a = u8 c.
Proof. intros. rewrite memset_ldb by lia. case_tests. Qed.

(** A zero-filled range reads as zero words. *)
Lemma ld_zero k m a :
  (∀ b, a <= b < a + Z.of_nat k → ldb m b = 0) → ld k m a = 0.
Proof.
  revert a. induction k as [|k IH]; intros a H; simpl; [done|].
  rewrite H by lia. rewrite IH; [done|]. intros b Hb. apply H. lia.
Qed.

Lemma copy_up_ldb n m d s a :
  (d <= s ∨ s + Z.of_nat n <= d) →
  ldb (copy_up n m d s) a =
  if (d <=? a) && (a <? d + Z.of_nat n) then ldb m (s + (a - d)) else ldb m a.
Proof.
  revert m d s. induction n as [|n IH]; intros m d s H; simpl.
  { case_tests. }
  rewrite IH by lia. rewrite !ldb_stb, u8_ldb.
  replace (s + 1 + (a - (d + 1))) with (s + (a - d)) by lia.
  case_tests.
  all: repeat (f_equal; try lia).
Qed.

Lemma copy_down_ldb n m d s a :
  s <= d →
  ldb (copy_down n m d s) a =
  if (d - Z.of_nat n <=? a) && (a <? d) then ldb m (s + (a - d)) else ldb m a.
Proof.
  revert m d s. induction n as [|n IH]; intros m d s H; simpl.
  { case_tests. }
  rewrite IH by lia. rewrite !ldb_stb, u8_ldb.
  replace (s - 1 + (a - (d - 1))) with (s + (a - d)) by lia.
  case_tests.
  all: repeat (f_equal; try lia).
Qed.

Lemma memmove_ldb m dst src n a :
  0 <= n →
  ldb (memmove m dst src n) a =
  if (dst <=? a) && (a <? dst + n) then ldb m (src + (a - dst)) else ldb m a.
Proof.
  intros Hn. unfold memmove. destruct (Z.eqb_spec n 0) as [->|Hn0].
  { case_tests. }
  case_test.
  { rewrite copy_down_ldb by lia. rewrite Z2Nat.id by lia.
    replace (dst + n - n) with dst by lia.
    by replace (src + n + (a - (dst + n))) with (src + (a - dst)) by lia. }
  all: rewrite copy_up_ldb; rewrite Z2Nat.id by lia; done || lia.
Qed.

Lemma memmove_out m dst src n a :
  0 <= n → ¬ (dst <= a < dst + n) → ldb (memmove m dst src n) a = ldb m a.
Proof. intros. rewrite memmove_ldb by done. case_tests. Qed.

(** *** C strings *)

(** [cstr m s l]: at [s] the memory holds the non-NUL bytes [l] and a NUL. *)
Fixpoint cstr (m : mem) (s : Z) (l : list Z) : Prop :=
  match l with
  | [] => ldb m s = 0
  | b :: l' => b ≠ 0 ∧ ldb m s = b ∧ cstr m (s + 1) l'
  end.

Lemma strlen_loop_cstr fuel m s n l :
  cstr m (s + n) l → (length l < fuel)%nat →
  strlen_loop fuel m s n = Some (n + Z.of_nat (length l)).
Proof.
  revert n l. induction fuel as [|fuel IH]; intros n l Hl Hf; [lia|]. simpl.
  destruct l as [|b l]; simpl in Hl.
  - rewrite Hl. simpl. f_equal. lia.
  - destruct Hl as (Hb & -> & Hl). unfold truthy. rewrite (proj2 (Z.eqb_neq b 0)) by done.
    simpl. rewrite (IH _ l); [f_equal; simpl; lia| |simpl in Hf; lia].
    by rewrite Z.add_assoc.
Qed.

(** [strncmp] answers zero exactly when the two strings agree up to the first
    NUL or the [n]-th byte. *)
Fixpoint same_upto (n : nat) (m : mem) (p q : Z) : Prop :=
  match n with
  | O => True
  | S n' => ldb m p = ldb m q ∧ (ldb m p ≠ 0 → same_upto n' m (p + 1) (q + 1))
  end.

Lemma strncmp_loop_zero n m p q : strncmp_loop n m p q = 0 ↔ same_upto n m p q.
Proof.
  revert p q. induction n as [|n IH]; intros p q; simpl; [done|].
  unfold truthy. case_test; simpl; [rewrite IH|..]; intuition (try congruence; try lia).
Qed.

Lemma memcmp_loop_zero n m p q :
  memcmp_loop n m p q = 0 ↔ ∀ i, 0 <= i < Z.of_nat n → ldb m (p + i) = ldb m (q + i).
Proof.
  revert p q. induction n as [|n IH]; intros p q; simpl; [by split; [lia|]|].
  case_test.
  - split; [lia|]. intros H. specialize (H 0). rewrite !Z.add_0_r in H. lia.
  - rewrite IH. split; intros H i Hi.
    + destruct (decide (i = 0)) as [->|]; [by rewrite !Z.add_0_r|].
      specialize (H (i - 1) ltac:(lia)).
      by replace (p + 1 + (i - 1)) with (p + i) in H by lia;
         replace (q + 1 + (i - 1)) with (q + i) in H by lia.
    + specialize (H (i + 1) ltac:(lia)).
      by replace (p + (i + 1)) with (p + 1 + i) in H by lia;
         replace (q + (i + 1)) with (q + 1 + i) in H by lia.
Qed.

Lemma cstr_ext m m' s l :
  (∀ a, s <= a <= s + Z.of_nat (length l) → ldb m' a = ldb m a) →
  cstr m s l → cstr m' s l.
Proof.
  revert s. induction l as [|b l IH]; intros s He; simpl.
  - rewrite He by (simpl; lia). done.
  - intros (? & ? & ?). rewrite He by (simpl; lia). split_and!; [done..|].
    apply IH; [|done]. intros a Ha. apply He. simpl. lia.
Qed.

Lemma cstr_byte m s l : cstr m s l → Forall (λ b, 0 < b < 256) l.
Proof.
  revert s. induction l as [|b l IH]; intros s; simpl; [done|].
  intros (? & <- & ?). constructor; [|eauto]. pose proof (ldb_bound m s). lia.
Qed.

(** Byte [i] of the string [l] followed by zeros. *)
Definition padded (l : list Z) (i : Z) : Z := default 0 (l !! Z.to_nat i).

Lemma padded_cons b l i : 0 < i → padded (b :: l) i = padded l (i - 1).
Proof.
  intros. unfold padded. replace (Z.to_nat i) with (S (Z.to_nat (i - 1))) by lia. done.
Qed.

Lemma padded_nil i : padded [] i = 0.
Proof. unfold padded. by rewrite lookup_nil. Qed.

Lemma padded_ge l i : Z.of_nat (length l) <= i → padded l i = 0.
Proof. intros. unfold padded. rewrite lookup_ge_None_2 by lia. done. Qed.

(** One byte of a copied string: the rest of the string is still there. *)
Lemma cstr_step m s t b l v :
  cstr m t (b :: l) → (s < t ∨ t + Z.of_nat (length l) + 1 < s) → cstr (stb m s v) (t + 1) l.
Proof.
  intros (_ & _ & Hl) Hd. eapply cstr_ext; [|done]. intros a Ha.
  apply ldb_stb_ne. lia.
Qed.

(** What the copying loop of [strncpy] (and of [safestrcpy]) has written. *)
Definition copied (m m' : mem) (s s' : Z) (l : list Z) : Prop :=
  ∀ a, ldb m' a = if (s <=? a) && (a <? s') then padded l (a - s) else ldb m a.

Lemma copied_nul m s : copied m (stb m s 0) s (s + 1) [].
Proof. intros a. rewrite ldb_stb, padded_nil. case_tests. Qed.

Lemma copied_cons m m' s s' b l :
  0 <= b < 256 → s + 1 <= s' →
  copied (stb m s b) m' (s + 1) s' l → copied m m' s s' (b :: l).
Proof.
  intros Hb Hs H a. rewrite H, ldb_stb. case_tests.
  - rewrite padded_cons by lia. f_equal. lia.
  - rewrite Z.sub_diag. apply (wrap_small 8 b). lia.
Qed.

Lemma strncpy_copy_spec n m s t l m' n' s' :
  cstr m t l → (s + Z.of_nat n <= t ∨ t + Z.of_nat (length l) + 1 <= s) →
  strncpy_copy n m s t = (m', n', s') →
  s' = s + Z.min (Z.of_nat n) (Z.of_nat (length l) + 1) ∧
  s' + Z.of_nat n' = s + Z.of_nat n ∧ copied m m' s s' l.
Proof.
  revert m s t l. induction n as [|n IH]; intros m s t l Hl Hd; cbn [strncpy_copy].
  { intros [= <- <- <-]. split_and!; [lia|lia|]. intros a. case_tests. }
  destruct l as [|b l].
  - simpl in Hl. rewrite Hl. simpl. intros [= <- <- <-].
    split_and!; [lia|lia|]. by apply copied_nul.
  - assert (ldb m t = b ∧ b ≠ 0) as [Hv Hb] by (by destruct Hl as (? & ? & ?)).
    rewrite Hv. unfold truthy. rewrite (proj2 (Z.eqb_neq b 0)) by done. intros H.
    cbn [length] in *. apply (IH _ _ _ l) in H as (-> & Hn' & Hc); [|by eapply cstr_step; [done|lia]|lia].
    split_and!; [lia|lia|].
    apply copied_cons; [rewrite <- Hv; apply ldb_bound|lia|done].
Qed.

Lemma strncpy_ldb m s t n l a :
  0 <= n → cstr m t l → (s + n <= t ∨ t + Z.of_nat (length l) + 1 <= s) →
  ldb (strncpy m s t n) a =
  if (s <=? a) && (a <? s + n) then padded l (a - s) else ldb m a.
Proof.
  intros Hn Hl Hd. unfold strncpy.
  destruct (strncpy_copy (Z.to_nat n) m s t) as [[m' n'] s'] eqn:E.
  apply (strncpy_copy_spec _ _ _ _ l) in E as (-> & Hn' & Hc); [|done|lia].
  rewrite memset_loop_ldb, Hc. change (u8 0) with 0.
  case_tests. symmetry. apply padded_ge. lia.
Qed.

Lemma safestrcpy_copy_spec n m s t l m' s' :
  cstr m t l → (s + Z.of_nat n <= t ∨ t + Z.of_nat (length l) + 1 <= s) →
  safestrcpy_copy n m s t = (m', s') →
  s' = s + Z.min (Z.of_nat n) (Z.of_nat (length l) + 1) ∧ copied m m' s s' l.
Proof.
  revert m s t l. induction n as [|n IH]; intros m s t l Hl Hd; cbn [safestrcpy_copy].
  { intros [= <- <-]. split_and!; [lia|]. intros a. case_tests. }
  destruct l as [|b l].
  - simpl in Hl. rewrite Hl. simpl. intros [= <- <-].
    split_and!; [lia|]. by apply copied_nul.
  - assert (ldb m t = b ∧ b ≠ 0) as [Hv Hb] by (by destruct Hl as (? & ? & ?)).
    rewrite Hv. unfold truthy. rewrite (proj2 (Z.eqb_neq b 0)) by done. intros H.
    cbn [length] in *. apply (IH _ _ _ l) in H as (-> & Hc); [|by eapply cstr_step; [done|lia]|lia].
    split_and!; [lia|].
    apply copied_cons; [rewrite <- Hv; apply ldb_bound|lia|done].
Qed.

(** [safestrcpy] leaves at the destination the longest prefix of the source
    that fits with its terminating NUL, and touches nothing outside. *)
Lemma safestrcpy_cstr m s t n l :
  0 < n → cstr m t l → (s + n <= t ∨ t + Z.of_nat (length l) + 1 <= s) →
  cstr (safestrcpy m s t n) s (take (Z.to_nat (n - 1)) l) ∧
  ∀ a, ¬ (s <= a < s + n) → ldb (safestrcpy m s t n) a = ldb m a.
Proof.
  intros Hn Hl Hd. unfold safestrcpy. rewrite (proj2 (Z.leb_gt n 0)) by lia.
  destruct (safestrcpy_copy (Z.to_nat (n - 1)) m s t) as [m' s'] eqn:E.
  pose proof (cstr_byte _ _ _ Hl) as Hb.
  apply (safestrcpy_copy_spec _ _ _ _ l) in E as (-> & Hc); [|done|lia].
  rewrite Z2Nat.id in * by lia.
  set (k := Z.min (n - 1) (Z.of_nat (length l) + 1)) in *.
  assert (∀ i, 0 <= i <= k → ldb (stb m' (s + k) 0) (s + i) =
            if i <? k then padded l i else 0) as Hr.
  { intros i Hi. rewrite ldb_stb, Hc. replace (s + i - s) with i by lia.
    change (u8 0) with 0. case_tests. }
  split.
  - clear Hc Hl Hd. revert Hr.
    assert (∀ j l0, l0 = drop j l → (j <= length l)%nat → Z.of_nat j <= k →
      (∀ i, 0 <= i <= k → ldb (stb m' (s + k) 0) (s + i) = if i <? k then padded l i else 0) →
      cstr (stb m' (s + k) 0) (s + Z.of_nat j) (take (Z.to_nat (n - 1) - j) l0)) as G.
    { intros j l0. revert j. induction l0 as [|b l0 IH]; intros j Hj Hjl Hjk Hr.
      - rewrite take_nil. simpl. rewrite Hr by lia. case_test; [|done].
        apply padded_ge. apply (f_equal length) in Hj. rewrite length_drop in Hj. simpl in Hj. lia.
      - assert (l !! j = Some b) as Hlj.
        { rewrite <- (Nat.add_0_r j), <- lookup_drop, <- Hj. done. }
        pose proof (lookup_lt_Some _ _ _ Hlj).
        destruct (decide (Z.of_nat j < n - 1)) as [Hlt|Hge].
        + replace (Z.to_nat (n - 1) - j)%nat with (S (Z.to_nat (n - 1) - S j)) by lia.
          cbn [take cstr]. eapply Forall_lookup_1 in Hb as Hbb; [|done]. cbv beta in Hbb.
          split_and!; [lia| |].
          * rewrite Hr by lia. rewrite (proj2 (Z.ltb_lt _ _)) by lia.
            unfold padded. by rewrite Nat2Z.id, Hlj.
          * replace (s + Z.of_nat j + 1) with (s + Z.of_nat (S j)) by lia.
            apply IH; [|lia|lia|done].
            rewrite (drop_S l b j) in Hj by done. by injection Hj.
        + replace (Z.to_nat (n - 1) - j)%nat with O by lia. simpl.
          rewrite Hr by lia. case_test; [lia|done]. }
    intros Hr. specialize (G O l). rewrite Nat.sub_0_r, Z.add_0_r in G.
    apply G; done || lia.
  - intros a Ha. rewrite ldb_stb_ne by lia. rewrite Hc. case_tests.
Qed.

(** Conversion unfolds the byte loops last. *)
(** *** Kernel buffers

    [memmove] between memory and a buffer of the kernel that is not in the
    modelled memory (a stack variable, a disk buffer), given by its bytes. *)

Fixpoint put_bytes (m : mem) (a : Z) (bs : list Z) : mem :=
  match bs with
  | [] => m
  | b :: bs' => put_bytes (stb m a b) (a + 1) bs'
  end.
Definition get_bytes (m : mem) (a : Z) (n : nat) : list Z := (λ i, ldb m (a + Z.of_nat i)) <$> seq 0 n.

Lemma put_bytes_ldb bs m a x :
  ldb (put_bytes m a bs) x =
  if (a <=? x) && (x <? a + Z.of_nat (length bs)) then u8 (nth (Z.to_nat (x - a)) bs 0) else ldb m x.
Proof.
  revert m a. induction bs as [|b bs IH]; intros m a; simpl.
  - case_tests.
  - rewrite IH, ldb_stb. destruct (Z.eqb_spec x a) as [->|].
    + rewrite (proj2 (Z.leb_gt _ _)) by lia. rewrite Z.leb_refl, Z.sub_diag. simpl.
      rewrite (proj2 (Z.ltb_lt _ _)) by lia. done.
    + destruct (Z.leb_spec a x), (Z.leb_spec (a + 1) x); try lia; simpl; [|done].
      replace (a + Z.of_nat (S (length bs))) with (a + 1 + Z.of_nat (length bs)) by lia.
      case_test; [|done]. replace (Z.to_nat (x - a)) with (S (Z.to_nat (x - (a + 1)))) by lia. done.
Qed.

Lemma put_bytes_out bs m a x :
  ¬ (a <= x < a + Z.of_nat (length bs)) → ldb (put_bytes m a bs) x = ldb m x.
Proof. intros. rewrite put_bytes_ldb. case_tests. Qed.

Lemma get_bytes_length m a n : length (get_bytes m a n) = n.
Proof. unfold get_bytes. by rewrite length_fmap, length_seq. Qed.

Lemma get_bytes_lookup m a n i : (i < n)%nat → get_bytes m a n !! i = Some (ldb m (a + Z.of_nat i)).
Proof. intros Hi. unfold get_bytes. rewrite list_lookup_fmap, lookup_seq_lt by done. done. Qed.

(** What was stored is read back. *)
Lemma get_put_bytes m a bs :
  Forall (λ b, 0 <= b < 256) bs → get_bytes (put_bytes m a bs) a (length bs) = bs.
Proof.
  intros Hb. apply list_eq. intros i. destruct (decide (i < length bs)%nat) as [Hi|Hi].
  - rewrite get_bytes_lookup by done. destruct (lookup_lt_is_Some_2 bs i Hi) as [b Eb].
    rewrite put_bytes_ldb. rewrite (proj2 (andb_true_iff _ _)) by (split; [apply Z.leb_le|apply Z.ltb_lt]; lia).
    replace (Z.to_nat (a + Z.of_nat i - a)) with i by lia. rewrite (nth_lookup_Some _ _ _ _ Eb), Eb.
    f_equal. apply wrap_small. rewrite Forall_lookup in Hb. apply (Hb _ _ Eb).
  - rewrite !lookup_ge_None_2; [done|lia|rewrite get_bytes_length; lia].
Qed.

Strategy 1000 [memset memset_loop memmove copy_up copy_down strncpy safestrcpy ld st].
