(* ===== verification/Random.v ===== *)
(** * The random number generator of kernel/random.c

    Four 32-bit linear-feedback registers combined by exclusive or.  The
    scheduler draws its lottery tickets from it. *)

From S2P Require Import Prelude.

Record rng := mkRng { z1 : Z; z2 : Z; z3 : Z; z4 : Z }.

Definition srand (seed : Z) : rng := mkRng (u32 seed) (u32 seed) (u32 seed) (u32 seed).

(** One register: [b = ((z << p) ^ z) >> s; z = ((z & mask) << q) ^ b]. *)
Definition lfsr (p s mask q z : Z) : Z :=
  let b := Z.shiftr (Z.lxor (u32 (Z.shiftl z p)) z) s in
  Z.lxor (u32 (Z.shiftl (Z.land z mask) q)) b.

Definition rand (r : rng) : Z * rng :=
  let r' := mkRng (lfsr 6 13 4294967294 18 (z1 r))
                  (lfsr 2 27 4294967288 2 (z2 r))
                  (lfsr 13 21 4294967280 7 (z3 r))
                  (lfsr 3 12 4294967168 13 (z4 r)) in
  (Z.lxor (Z.lxor (Z.lxor (z1 r') (z2 r')) (z3 r')) (z4 r'), r').

(** ** Widths *)

Definition is_u32 (x : Z) : Prop := 0 <= x < 2 ^ 32.

Definition rng_ok (r : rng) : Prop :=
  is_u32 (z1 r) ∧ is_u32 (z2 r) ∧ is_u32 (z3 r) ∧ is_u32 (z4 r).

Lemma u32_bits x : is_u32 x ↔ 0 <= x ∧ ∀ i, 32 <= i → Z.testbit x i = false.
Proof.
  unfold is_u32. split.
  - intros H. split; [lia|]. intros i Hi.
    rewrite <- (Z.mod_small x (2 ^ 32)) by lia. apply Z.mod_pow2_bits_high. lia.
  - intros [H0 H]. split; [done|].
    destruct (decide (x = 0)) as [->|]; [lia|].
    apply Z.log2_lt_pow2; [lia|]. destruct (Z.lt_ge_cases (Z.log2 x) 32); [done|].
    pose proof (Z.bit_log2 x ltac:(lia)) as Hb. by rewrite H in Hb.
Qed.

Lemma lxor_u32 x y : is_u32 x → is_u32 y → is_u32 (Z.lxor x y).
Proof.
  rewrite !u32_bits. intros [Hx Hx'] [Hy Hy']. split.
  - apply Z.lxor_nonneg. lia.
  - intros i Hi. rewrite Z.lxor_spec, Hx', Hy' by done. done.
Qed.

Lemma shiftr_u32 x n : 0 <= n → is_u32 x → is_u32 (Z.shiftr x n).
Proof.
  rewrite !u32_bits. intros Hn [Hx Hx']. split.
  - by apply Z.shiftr_nonneg.
  - intros i Hi. rewrite Z.shiftr_spec by lia. apply Hx'. lia.
Qed.

Lemma wrap_u32 x : is_u32 (u32 x).
Proof. apply (wrap_bound 32). lia. Qed.

Lemma lfsr_u32 p s mask q z : 0 <= s → is_u32 z → is_u32 (lfsr p s mask q z).
Proof.
  intros Hs Hz. apply lxor_u32; [apply wrap_u32|].
  apply shiftr_u32; [done|]. apply lxor_u32; [apply wrap_u32|done].
Qed.

(** ** Bits of one step *)

Lemma u32_testbit x i : 0 <= i → Z.testbit (u32 x) i = (i <? 32) && Z.testbit x i.
Proof.
  intros Hi. unfold wrap. destruct (Z.ltb_spec i 32); simpl.
  - apply Z.mod_pow2_bits_low. lia.
  - apply Z.mod_pow2_bits_high. lia.
Qed.

(** Bit [i] of a register after a step whose mask clears the [k] low bits. *)
Lemma lfsr_testbit p s k q z i :
  0 <= p → 0 <= s → 0 <= q → 0 <= k <= 32 → is_u32 z → 0 <= i < 32 →
  Z.testbit (lfsr p s (2 ^ 32 - 2 ^ k) q z) i =
  xorb ((k + q <=? i) && Z.testbit z (i - q))
       (xorb ((i + s <? 32) && (p <=? i + s) && Z.testbit z (i + s - p)) (Z.testbit z (i + s))).
Proof.
  intros Hp Hs Hq Hk Hz Hi. unfold lfsr.
  rewrite Z.lxor_spec, u32_testbit, Z.shiftl_spec, Z.land_spec by lia.
  rewrite Z.shiftr_spec, Z.lxor_spec, u32_testbit, Z.shiftl_spec by lia.
  rewrite (proj2 (Z.ltb_lt i 32)) by lia. simpl. f_equal.
  - destruct (Z.leb_spec (k + q) i).
    + replace (2 ^ 32 - 2 ^ k) with (Z.ones (32 - k) * 2 ^ k).
      * rewrite Z.mul_pow2_bits, Z.testbit_ones by lia.
        destruct (Z.leb_spec 0 (i - q - k)); [|lia].
        destruct (Z.ltb_spec (i - q - k) (32 - k)); [|lia]. apply andb_true_r.
      * rewrite Z.ones_equiv. unfold Z.pred. rewrite Z.mul_add_distr_r, <- Z.pow_add_r by lia.
        replace (32 - k + k) with 32 by lia. lia.
    + replace (2 ^ 32 - 2 ^ k) with (Z.ones (32 - k) * 2 ^ k).
      * rewrite Z.mul_pow2_bits, Z.testbit_ones by lia.
        destruct (Z.leb_spec 0 (i - q - k)); [lia|]. apply andb_false_r.
      * rewrite Z.ones_equiv. unfold Z.pred. rewrite Z.mul_add_distr_r, <- Z.pow_add_r by lia.
        replace (32 - k + k) with 32 by lia. lia.
  - f_equal. destruct (Z.ltb_spec (i + s) 32); [|done]. simpl.
    destruct (Z.leb_spec p (i + s)); [done|]. apply Z.testbit_neg_r. lia.
Qed.

(** ** Non-degeneracy

    A register whose significant bits (those the mask keeps) are all zero
    would stay constant for ever.  A step never reaches such a state. *)

Lemma lfsr_alive_bits p s k q z :
  0 < p <= s → 0 <= q → 0 <= k → k + q + s = 32 → is_u32 z →
  (∀ i, k <= i < 32 → Z.testbit (lfsr p s (2 ^ 32 - 2 ^ k) q z) i = false) →
  ∀ j, k <= j < 32 → Z.testbit z j = false.
Proof.
  intros Hp Hq Hk Hsum Hz H j.
  induction j as [j IH] using (well_founded_induction (Z.lt_wf k)). intros Hj.
  destruct (decide (j < 32 - q)) as [Hlow|Hhigh].
  - specialize (H (j + q) ltac:(lia)). rewrite lfsr_testbit in H by lia || done.
    replace (j + q - q) with j in H by lia.
    rewrite (proj2 (Z.leb_le (k + q) (j + q))) in H by lia.
    rewrite (proj2 (Z.ltb_ge (j + q + s) 32)) in H by lia. simpl in H.
    rewrite (proj2 (proj1 (u32_bits z) Hz) (j + q + s)) in H by lia.
    by rewrite !xorb_false_r in H.
  - specialize (H (j - s) ltac:(lia)). rewrite lfsr_testbit in H by lia || done.
    replace (j - s + s) with j in H by lia.
    rewrite (proj2 (Z.leb_gt (k + q) (j - s))) in H by lia.
    rewrite (proj2 (Z.ltb_lt j 32)) in H by lia.
    rewrite (proj2 (Z.leb_le p j)) in H by lia. simpl in H.
    rewrite (IH (j - p)) in H by lia. by rewrite !xorb_false_l in H.
Qed.

Lemma pow2_le_bit k z :
  0 <= k <= 32 → is_u32 z → 2 ^ k <= z ↔ ∃ i, k <= i < 32 ∧ Z.testbit z i = true.
Proof.
  intros Hk Hz. split.
  - intros H. assert (0 < 2 ^ k) by lia. exists (Z.log2 z). split.
    + split; [by apply Z.log2_le_pow2; lia|].
      apply Z.log2_lt_pow2; [lia|]. apply Hz.
    + apply Z.bit_log2. lia.
  - intros (i & Hi & Hb). destruct (Z.lt_ge_cases z (2 ^ k)); [|lia].
    rewrite <- (Z.mod_small z (2 ^ k)) in Hb by (destruct Hz; lia).
    by rewrite Z.mod_pow2_bits_high in Hb by lia.
Qed.

Lemma lfsr_alive p s k q z :
  0 < p <= s → 0 <= q → 0 <= k → k + q + s = 32 → is_u32 z →
  2 ^ k <= z → 2 ^ k <= lfsr p s (2 ^ 32 - 2 ^ k) q z.
Proof.
  intros Hp Hq Hk Hsum Hz Hlive.
  assert (is_u32 (lfsr p s (2 ^ 32 - 2 ^ k) q z)) as Hz' by (apply lfsr_u32; lia || done).
  destruct (Z.lt_ge_cases (lfsr p s (2 ^ 32 - 2 ^ k) q z) (2 ^ k)) as [Hlt|]; [|lia].
  exfalso. apply pow2_le_bit in Hlive as (i & Hi & Hb); [|lia|done].
  erewrite (lfsr_alive_bits p s k q z) in Hb; [done|lia..|done| |done].
  intros j Hj. destruct (Z.testbit (lfsr p s (2 ^ 32 - 2 ^ k) q z) j) eqn:E; [|done].
  assert (2 ^ k <= lfsr p s (2 ^ 32 - 2 ^ k) q z) by (apply pow2_le_bit; eauto with lia). lia.
Qed.

(** Every register is alive: none of the four has lost its significant bits. *)
Definition rng_alive (r : rng) : Prop :=
  rng_ok r ∧ 2 <= z1 r ∧ 8 <= z2 r ∧ 16 <= z3 r ∧ 128 <= z4 r.

Lemma rand_bound r : rng_ok r → 0 <= (rand r).1 < 2 ^ 32.
Proof.
  intros (? & ? & ? & ?). simpl. do 3 (apply lxor_u32; [|apply lfsr_u32; lia || done]).
  apply lfsr_u32; lia || done.
Qed.

(** Starting from registers that fit 32 bits and are
    not degenerate, [rand] returns a 32-bit value, keeps the registers 32-bit
    and never degenerates: the significant bits of no register become all
    zero, so the generator cannot get stuck. *)
Theorem rand_stays_alive r :
  rng_alive r → 0 <= (rand r).1 < 2 ^ 32 ∧ rng_alive (rand r).2.
Proof.
  intros (Hok & H1 & H2 & H3 & H4). split; [by apply rand_bound|].
  destruct Hok as (? & ? & ? & ?). split.
  - split_and!; apply lfsr_u32; lia || done.
  - split_and!.
    + apply (lfsr_alive 6 13 1 18); lia || done.
    + apply (lfsr_alive 2 27 3 2); lia || done.
    + apply (lfsr_alive 13 21 4 7); lia || done.
    + apply (lfsr_alive 3 12 7 13); lia || done.
Qed.

(** The seed of [cpuinit] gives a live generator. *)
Lemma rand_stays_alive_witness :
  rng_alive (srand 12345) ∧ rng_alive (rand (srand 12345)).2.
Proof.
  assert (rng_alive (srand 12345)) as H by (vm_compute; intuition congruence).
  split; [exact H|]. apply (rand_stays_alive (srand 12345) H).
Defined.
