(* ===== verification/Spinlock.v ===== *)
(** * Spin locks and sleep locks (kernel/spinlock.c, kernel/sleeplock.c)

    The part of the machine state the locks use: the executing hart, its
    interrupt-enable bit, the [cpus] array and the spin locks.  [acquire] on a
    lock that another hart holds spins: with no other hart running it never
    returns ([Hang]).  [sleep] likewise. *)

From S2P Require Import Prelude Random.

(** ** State *)

(** A spin lock is named by the string [initlock] gives it and an index. *)
Abbreviation lockid := (string * Z)%type.

(** [struct spinlock]; the [name] field is the key the lock is stored under. *)
Record spinlock := mkSpinlock { locked : Z; lk_cpu : option Z }.

(** [struct cpu], without the register save area [context] of [swtch]. *)
Record cpu := mkCpu { c_proc : option Z; c_rng : rng; noff : Z; intena : bool }.

Record lockst := mkLockst {
  tp : Z;                          (* hart id, in register tp *)
  sie : bool;                      (* SSTATUS_SIE of this hart *)
  cpus : list cpu;
  locks : gmap lockid spinlock;
  wakeups : list lockid            (* channels passed to wakeup(), latest first *)
}.

Definition free_lock : spinlock := mkSpinlock 0 None.

(** A lock never initialised is a zero-filled global: a free lock. *)
Definition lock_of (l : lockst) (id : lockid) : spinlock := default free_lock (locks l !! id).

Definition set_sie (b : bool) (l : lockst) : lockst :=
  mkLockst (tp l) b (cpus l) (locks l) (wakeups l).
Definition set_cpus (c : list cpu) (l : lockst) : lockst :=
  mkLockst (tp l) (sie l) c (locks l) (wakeups l).
Definition set_lock (id : lockid) (k : spinlock) (l : lockst) : lockst :=
  mkLockst (tp l) (sie l) (cpus l) (<[id := k]> (locks l)) (wakeups l).

(** ** kernel/spinlock.c *)

Definition initlock (id : lockid) : M lockst unit := modify (set_lock id free_lock).

(** riscv.h: the S-mode interrupt-enable bit. *)
Definition intr_get : M lockst bool := gets sie.
Definition intr_on : M lockst unit := modify (set_sie true).
Definition intr_off : M lockst unit := modify (set_sie false).

Definition cpuid : M lockst Z := gets tp.

(** [&cpus[cpuid()]]: indexing outside [cpus] is undefined. *)
Definition mycpu : M lockst cpu := λ l,
  match cpus l !! Z.to_nat (tp l) with
  | Some c => if 0 <=? tp l then Ok (c, l) else Undef
  | None => Undef
  end.
Definition set_mycpu (c : cpu) : M lockst unit :=
  modify (λ l, set_cpus (<[Z.to_nat (tp l) := c]> (cpus l)) l).

Definition push_off : M lockst unit :=
  let! old := intr_get in
  intr_off ;;
  let! c := mycpu in
  set_mycpu (mkCpu (c_proc c) (c_rng c) (noff c + 1)
                   (if noff c =? 0 then old else intena c)).

Definition pop_off : M lockst unit :=
  let! c := mycpu in
  let! on := intr_get in
  if (on : bool) then panic "pop_off - interruptible"
  else if noff c <? 1 then panic "pop_off"
  else
    set_mycpu (mkCpu (c_proc c) (c_rng c) (noff c - 1) (intena c)) ;;
    if (noff c - 1 =? 0) && intena c then intr_on else ret tt.

Definition holding (id : lockid) : M lockst bool :=
  let! l := getS in
  let! _ := mycpu in
  let k := lock_of l id in
  ret (truthy (locked k) && bool_decide (lk_cpu k = Some (tp l))).

(** [__sync_lock_test_and_set(&lk->locked, 1)]: the old value, and the lock after it. *)
Definition test_and_set (k : spinlock) : Z * spinlock := (locked k, mkSpinlock 1 (lk_cpu k)).

Definition acquire (id : lockid) : M lockst unit :=
  push_off ;;
  let! h := holding id in
  if (h : bool) then panic "acquire"
  else
    let! l := getS in
    let '(old, k) := test_and_set (lock_of l id) in
    modify (set_lock id k) ;;
    if truthy old then hang
    else modify (λ l, set_lock id (mkSpinlock (locked (lock_of l id)) (Some (tp l))) l).

Definition release (id : lockid) : M lockst unit :=
  let! h := holding id in
  if negb h then panic "release"
  else
    modify (λ l, set_lock id (mkSpinlock (locked (lock_of l id)) None) l) ;;
    modify (λ l, set_lock id (mkSpinlock 0 (lk_cpu (lock_of l id))) l) ;;
    pop_off.

(** ** What sleep and wakeup do to this state

    [sleep] gives the processor to another thread; in a run of one thread it
    never comes back.  [wakeup] acts on the process table (see [Proc]); here
    it records the channel. *)

Definition sleep_forever {A} (chan : lockid) (lk : lockid) : M lockst A := hang.
Definition wakeup_chan (chan : lockid) : M lockst unit :=
  modify (λ l, mkLockst (tp l) (sie l) (cpus l) (locks l) (chan :: wakeups l)).

(** ** kernel/sleeplock.c

    A sleep lock's own fields; its internal spin lock is the lock [id] of the
    lock table. *)

Record sleeplock := mkSleeplock { sl_locked : Z; sl_pid : Z }.

Definition initsleeplock (id : lockid) : M lockst sleeplock :=
  initlock id ;; ret (mkSleeplock 0 0).

Definition acquiresleep (pid : Z) (id : lockid) (lk : sleeplock) : M lockst sleeplock :=
  acquire id ;;
  if truthy (sl_locked lk) then sleep_forever id id
  else release id ;; ret (mkSleeplock 1 pid).

Definition releasesleep (id : lockid) (lk : sleeplock) : M lockst sleeplock :=
  acquire id ;;
  wakeup_chan id ;;
  release id ;;
  ret (mkSleeplock 0 0).

Definition holdingsleep (pid : Z) (id : lockid) (lk : sleeplock) : M lockst bool :=
  acquire id ;;
  release id ;;
  ret (truthy (sl_locked lk) && (sl_pid lk =? pid)).

(** ** Equivalence of lock states

    Balanced [acquire]/[release] pairs restore everything but [intena] of a
    hart outside every critical section (where it is dead) and the trace of
    wakeups. *)

Definition cpu_eqv (c c' : cpu) : Prop :=
  c_proc c = c_proc c' ∧ c_rng c = c_rng c' ∧ noff c = noff c' ∧
  (0 < noff c → intena c = intena c').

Record lk_eqv (l l' : lockst) : Prop := mk_lk_eqv {
  eqv_tp : tp l = tp l';
  eqv_sie : sie l = sie l';
  eqv_cpus : Forall2 cpu_eqv (cpus l) (cpus l');
  eqv_locks : ∀ id, lock_of l id = lock_of l' id
}.

#[export] Instance lockst_equiv : Equiv lockst := lk_eqv.

#[export] Instance cpu_eqv_equivalence : Equivalence cpu_eqv.
Proof.
  split.
  - by intros c.
  - intros c c' (? & ? & En & H). split_and!; [done..|]. intros. symmetry. apply H. lia.
  - intros a b c (? & ? & E1 & H1) (? & ? & E2 & H2). split_and!; try congruence.
    intros. rewrite H1 by done. apply H2. lia.
Qed.

#[export] Instance lockst_equivalence : Equivalence (≡@{lockst}).
Proof.
  split.
  - by intros l.
  - intros l l' []. split; by symmetry || (intros; symmetry; auto).
  - intros a b c [] []. split; try congruence.
    etrans; eauto.
Qed.

(** ** Well-formed harts and lockable locks *)

(** The executing hart exists, its nesting depth is not negative and inside a
    critical section its interrupts are off. *)
Definition hart_ok (l : lockst) : Prop :=
  0 <= tp l ∧ ∃ c, cpus l !! Z.to_nat (tp l) = Some c ∧ 0 <= noff c ∧
                   (0 < noff c → sie l = false).

Definition lockable (id : lockid) (l : lockst) : Prop :=
  hart_ok l ∧ lock_of l id = free_lock.

#[export] Instance hart_ok_proper : Proper ((≡) ==> iff) hart_ok.
Proof.
  assert (∀ l l', l ≡ l' → hart_ok l → hart_ok l') as G.
  { intros l l' [Htp Hsie Hc _] (H0 & c & Hl & Hn & Hs).
    rewrite Htp in *. split; [done|].
    eapply Forall2_lookup_l in Hc as (c' & Hl' & (_ & _ & En & _)); [|done].
    exists c'. rewrite <- En, <- Hsie. done. }
  intros l l' E. split; apply G; [done|by symmetry].
Qed.

#[export] Instance lock_of_proper : Proper ((≡) ==> eq ==> eq) lock_of.
Proof. intros l l' E id _ <-. apply (eqv_locks _ _ E). Qed.

#[export] Instance lockable_proper id : Proper ((≡) ==> iff) (lockable id).
Proof. intros l l' E. unfold lockable. by rewrite E. Qed.

Lemma lock_of_set id k l id' :
  lock_of (set_lock id k l) id' = if decide (id = id') then k else lock_of l id'.
Proof.
  unfold lock_of. simpl. case_decide as E; subst.
  - by rewrite lookup_insert_eq.
  - by rewrite lookup_insert_ne.
Qed.

Lemma set_lock_twice id k k' l : set_lock id k' (set_lock id k l) = set_lock id k' l.
Proof. unfold set_lock. simpl. by rewrite insert_insert_eq. Qed.

(** The hart state inside one more level of [push_off]. *)
Definition enter (l : lockst) : lockst :=
  match cpus l !! Z.to_nat (tp l) with
  | Some c => set_cpus (<[Z.to_nat (tp l) :=
                mkCpu (c_proc c) (c_rng c) (noff c + 1)
                      (if noff c =? 0 then sie l else intena c)]> (cpus l)) (set_sie false l)
  | None => l
  end.

Definition acquired (id : lockid) (l : lockst) : lockst :=
  set_lock id (mkSpinlock 1 (Some (tp l))) (enter l).

Lemma mycpu_run l c :
  0 <= tp l → cpus l !! Z.to_nat (tp l) = Some c → mycpu l = Ok (c, l).
Proof. intros H0 Hc. unfold mycpu. rewrite Hc. by rewrite (proj2 (Z.leb_le _ _)). Qed.

Lemma push_off_run l : hart_ok l → push_off l = Ok (tt, enter l).
Proof.
  intros (H0 & c & Hc & _). unfold push_off, bind, intr_get, intr_off, gets, modify.
  rewrite (mycpu_run (set_sie false l) c) by done.
  unfold enter. rewrite Hc. reflexivity.
Qed.

Lemma enter_tp l : tp (enter l) = tp l.
Proof. unfold enter. by destruct (cpus l !! _). Qed.

Lemma enter_lock l id : lock_of (enter l) id = lock_of l id.
Proof. unfold enter. by destruct (cpus l !! _). Qed.

Lemma enter_cpu l :
  hart_ok l → ∃ c, cpus (enter l) !! Z.to_nat (tp l) = Some c ∧ 0 < noff c ∧ sie (enter l) = false.
Proof.
  intros (H0 & c & Hc & Hn & _). unfold enter. rewrite Hc. simpl.
  eexists. rewrite list_lookup_insert_eq by (by eapply lookup_lt_Some).
  split_and!; [done|simpl; lia|done].
Qed.

Lemma enter_hart_ok l : hart_ok l → hart_ok (enter l).
Proof.
  intros H. pose proof (enter_cpu l H) as (c & Hc & Hn & Hs). destruct H as [H0 _].
  split; [by rewrite enter_tp|]. exists c. rewrite enter_tp.
  split_and!; [done|lia|done].
Qed.

Lemma acquire_run id l : lockable id l → acquire id l = Ok (tt, acquired id l).
Proof.
  intros [Hh Hl]. unfold acquire, bind. rewrite push_off_run by done.
  pose proof (enter_hart_ok l Hh) as (H0 & c & Hc & _).
  unfold holding, bind, getS. rewrite (mycpu_run _ c) by done.
  rewrite enter_lock, Hl. simpl. rewrite enter_lock, Hl. simpl.
  unfold modify, acquired. rewrite lock_of_set, decide_True, set_lock_twice by done. simpl. by rewrite enter_tp.
Qed.

Lemma acquired_hart_ok id l : hart_ok l → hart_ok (acquired id l).
Proof. intros H. apply (enter_hart_ok l H). Qed.

Lemma acquired_lock id id' l :
  lock_of (acquired id l) id' =
  if decide (id = id') then mkSpinlock 1 (Some (tp l)) else lock_of l id'.
Proof. unfold acquired. rewrite lock_of_set, enter_lock. done. Qed.

(** Another free lock can be taken inside a critical section. *)
Lemma acquired_lockable id id' l :
  id ≠ id' → lockable id' l → lockable id' (acquired id l).
Proof.
  intros Hne [Hh Hl]. split; [by apply acquired_hart_ok|].
  rewrite acquired_lock. by rewrite decide_False.
Qed.

(** Leaving a critical section: whatever the section did, if it left the lock
    state as it found it, [release] brings back the state before [acquire]. *)
Lemma release_run id l l2 :
  lockable id l → l2 ≡ acquired id l → ∃ l3, release id l2 = Ok (tt, l3) ∧ l3 ≡ l.
Proof.
  intros [(H0 & c & Hc & Hn & Hs) Hl] [Htp Hsie Hcpus Hlocks].
  assert (tp l2 = tp l) as Htp' by (rewrite Htp; apply enter_tp). clear Htp.
  pose proof (Hlocks id) as Hlk. rewrite acquired_lock, decide_True in Hlk by done.
  unfold acquired, enter in Hcpus, Hsie. rewrite Hc in Hcpus, Hsie. simpl in Hcpus, Hsie.
  assert (∃ c2, cpus l2 !! Z.to_nat (tp l) = Some c2 ∧
            cpu_eqv c2 (mkCpu (c_proc c) (c_rng c) (noff c + 1)
                          (if noff c =? 0 then sie l else intena c))) as (c2 & Hc2 & E2).
  { eapply Forall2_lookup_r; [done|]. apply list_lookup_insert_eq. by eapply lookup_lt_Some. }
  destruct E2 as (Ep & Er & En & Ei). simpl in *. specialize (Ei ltac:(lia)).
  unfold release, holding, bind, getS, modify.
  rewrite (mycpu_run l2 c2) by (rewrite ?Htp'; done).
  rewrite Hlk, Htp'. simpl. rewrite bool_decide_eq_true_2 by done. simpl.
  rewrite lock_of_set, decide_True, set_lock_twice by done. simpl. change (mkSpinlock 0 None) with free_lock.
  unfold pop_off, bind. rewrite (mycpu_run _ c2) by (simpl; rewrite ?Htp'; done).
  unfold intr_get, gets. simpl. rewrite Hsie. simpl.
  rewrite (proj2 (Z.ltb_ge (noff c2) 1)) by lia.
  set (b := (noff c2 - 1 =? 0) && intena c2).
  set (l3 := set_cpus (<[Z.to_nat (tp l) := mkCpu (c_proc c2) (c_rng c2) (noff c2 - 1) (intena c2)]> (cpus l2))
               (set_lock id free_lock l2)).
  exists (if b then set_sie true l3 else l3).
  split. { unfold set_mycpu, modify. simpl. rewrite Htp'. fold l3. by destruct b. }
  assert (cpus l3 = <[Z.to_nat (tp l) := mkCpu (c_proc c2) (c_rng c2) (noff c2 - 1) (intena c2)]> (cpus l2))
    as Ec3 by done.
  assert (Forall2 cpu_eqv (cpus l3) (cpus l)) as Hcp.
  { rewrite Ec3. replace (cpus l) with (<[Z.to_nat (tp l) := c]> (cpus l)) by (by apply list_insert_id).
    replace (<[Z.to_nat (tp l) := c]> (cpus l)) with
      (<[Z.to_nat (tp l) := c]> (<[Z.to_nat (tp l) :=
          mkCpu (c_proc c) (c_rng c) (noff c + 1) (if noff c =? 0 then sie l else intena c)]> (cpus l)))
      by (apply list_insert_insert_eq).
    apply Forall2_insert; [done|]. split_and!; simpl; [done|done|lia|].
    intros. rewrite Ei. destruct (Z.eqb_spec (noff c) 0); [lia|done]. }
  assert (∀ id', lock_of l3 id' = lock_of l id') as Hlk3.
  { intros id'. change (lock_of l3 id') with (lock_of (set_lock id free_lock l2) id').
    rewrite lock_of_set, Hlocks, acquired_lock.
    case_decide; subst; [by rewrite Hl|done]. }
  assert (sie (if b then set_sie true l3 else l3) = sie l) as Hsie3.
  { unfold b. rewrite Ei. destruct (Z.eqb_spec (noff c) 0) as [E|E].
    - rewrite (proj2 (Z.eqb_eq _ _)) by lia. simpl. destruct (sie l); simpl; congruence.
    - rewrite (proj2 (Z.eqb_neq _ _)) by lia. simpl. rewrite Hs by lia. done. }
  destruct b; (split; [by rewrite <- Htp'|by rewrite Hsie3|done|done]).
Qed.

(** ** Rules for clients whose state contains the lock state *)

Section Rules.
Context {S : Type} `{Lens S lockst}.

Lemma wp_acquire id (Q : unit → S → Prop) s :
  lockable id (view s) → Q tt (set (acquired id (view s)) s) → wp (zoom (acquire id)) Q s.
Proof. intros Hl HQ. unfold wp, zoom. by rewrite acquire_run. Qed.

Lemma wp_release id l (Q : unit → S → Prop) s :
  lockable id l → view s ≡ acquired id l →
  (∀ l', l' ≡ l → Q tt (set l' s)) → wp (zoom (release id)) Q s.
Proof.
  intros Hl He HQ. destruct (release_run id l _ Hl He) as (l' & E & He').
  unfold wp, zoom. rewrite E. by apply HQ.
Qed.
End Rules.

Lemma wakeup_chan_eqv c l :
  mkLockst (tp l) (sie l) (cpus l) (locks l) (c :: wakeups l) ≡ l.
Proof. by split. Qed.

Lemma acquiresleep_run pid id lk l :
  lockable id l → sl_locked lk = 0 →
  ∃ l', acquiresleep pid id lk l = Ok (mkSleeplock 1 pid, l') ∧ l' ≡ l.
Proof.
  intros Hl Hk. unfold acquiresleep, bind. rewrite acquire_run by done. rewrite Hk. simpl.
  destruct (release_run id l (acquired id l) Hl (reflexivity _)) as (l' & E & He).
  unfold truthy; simpl. rewrite E. eauto.
Qed.

Lemma releasesleep_run id lk l :
  lockable id l → ∃ l', releasesleep id lk l = Ok (mkSleeplock 0 0, l') ∧ l' ≡ l.
Proof.
  intros Hl. unfold releasesleep, bind. rewrite acquire_run by done. unfold wakeup_chan, modify.
  destruct (release_run id l _ Hl (wakeup_chan_eqv id (acquired id l))) as (l' & E & He).
  rewrite E. eauto.
Qed.

Lemma holdingsleep_run pid id lk l :
  lockable id l →
  ∃ l', holdingsleep pid id lk l = Ok (truthy (sl_locked lk) && (sl_pid lk =? pid), l') ∧ l' ≡ l.
Proof.
  intros Hl. unfold holdingsleep, bind. rewrite acquire_run by done.
  destruct (release_run id l (acquired id l) Hl (reflexivity _)) as (l' & E & He).
  rewrite E. eauto.
Qed.
