(* ===== verification/Harts.v ===== *)
(** * Several harts and their spin locks (kernel/spinlock.c)

    Each hart executes [acquire] and [release] one access to shared memory at a time,
    interleaved with the others.  The atomic exchange is the only line that reads and
    writes the lock word at once; who owns a lock is kept apart from the lock word, and
    no line asks for it.  [acquire] and [release] of Spinlock are these lines without
    interference. *)

From S2P Require Import Prelude Random Spinlock.

(** ** Lines *)

(** Where a hart is: outside, at a line of [acquire] or [release], or in a panic. *)
Inductive pc :=
  | Out
  | AqPush (id : lockid)      (* acquire: push_off() *)
  | AqLocked (id : lockid)    (* holding: reads lk->locked *)
  | AqCpu (id : lockid)       (* holding: reads lk->cpu *)
  | AqSwap (id : lockid)      (* the exchange, until it answers 0 *)
  | AqSet (id : lockid)       (* lk->cpu = mycpu() *)
  | RlLocked (id : lockid)    (* release, holding: reads lk->locked *)
  | RlCpu (id : lockid)       (* holding: reads lk->cpu *)
  | RlClear (id : lockid)     (* lk->cpu = 0 *)
  | RlStore (id : lockid)     (* __sync_lock_release(&lk->locked) *)
  | RlPop (id : lockid)       (* pop_off() *)
  | PanicAcquire (id : lockid)
  | PanicRelease (id : lockid)
  | PanicPop (id : lockid).

(** [h_held]: the locks a hart has taken with an exchange that answered 0 and not given
    back.  It records what happened; no line depends on it. *)
Record harts := mkHarts {
  h_sie : nat → bool;
  h_cpus : list cpu;
  h_locks : gmap lockid spinlock;
  h_pc : nat → pc;
  h_held : nat → list lockid
}.

Definition put {A} (f : nat → A) (h : nat) (v : A) : nat → A := λ k, if decide (k = h) then v else f k.

(** What hart [h] sees, and the state after it has acted. *)
Definition on (h : nat) (s : harts) : lockst := mkLockst (Z.of_nat h) (h_sie s h) (h_cpus s) (h_locks s) [].
Definition back (h : nat) (l : lockst) (p : pc) (held : list lockid) (s : harts) : harts :=
  mkHarts (put (h_sie s) h (sie l)) (cpus l) (locks l) (put (h_pc s) h p) (put (h_held s) h held).

Definition without (id : lockid) (held : list lockid) : list lockid := filter (λ i, i ≠ id) held.

(** The line hart [h] is at. *)
Definition exec_line (h : nat) (s : harts) : option harts :=
  let l := on h s in
  let held := h_held s h in
  match h_pc s h with
  | Out | PanicAcquire _ | PanicRelease _ | PanicPop _ => None
  | AqPush id => match push_off l with Ok (_, l') => Some (back h l' (AqLocked id) held s) | _ => None end
  | AqLocked id => Some (back h l (if truthy (locked (lock_of l id)) then AqCpu id else AqSwap id) held s)
  | AqCpu id => Some (back h l (if bool_decide (lk_cpu (lock_of l id) = Some (tp l)) then PanicAcquire id else AqSwap id) held s)
  | AqSwap id =>
      let '(old, k) := test_and_set (lock_of l id) in
      if truthy old then Some (back h (set_lock id k l) (AqSwap id) held s)
      else Some (back h (set_lock id k l) (AqSet id) (id :: held) s)
  | AqSet id => Some (back h (set_lock id (mkSpinlock (locked (lock_of l id)) (Some (tp l))) l) Out held s)
  | RlLocked id => Some (back h l (if truthy (locked (lock_of l id)) then RlCpu id else PanicRelease id) held s)
  | RlCpu id => Some (back h l (if bool_decide (lk_cpu (lock_of l id) = Some (tp l)) then RlClear id else PanicRelease id) held s)
  | RlClear id => Some (back h (set_lock id (mkSpinlock (locked (lock_of l id)) None) l) (RlStore id) held s)
  | RlStore id => Some (back h (set_lock id (mkSpinlock 0 (lk_cpu (lock_of l id))) l) (RlPop id) (without id held) s)
  | RlPop id =>
      match pop_off l with
      | Ok (_, l') => Some (back h l' Out held s)
      | Panic _ => Some (back h l (PanicPop id) held s)
      | _ => None
      end
  end.

(** Outside, a hart calls [acquire] or [release] of any lock, and turns interrupts on
    or off when [noff] is 0. *)
Inductive step : harts → harts → Prop :=
  | step_exec h s s' : (h < length (h_cpus s))%nat → exec_line h s = Some s' → step s s'
  | step_acquire h id s : (h < length (h_cpus s))%nat → h_pc s h = Out → step s (back h (on h s) (AqPush id) (h_held s h) s)
  | step_release h id s : (h < length (h_cpus s))%nat → h_pc s h = Out → step s (back h (on h s) (RlLocked id) (h_held s h) s)
  | step_intr h b c s : h_cpus s !! h = Some c → noff c = 0 → h_pc s h = Out → step s (back h (set_sie b (on h s)) Out (h_held s h) s).

(** At boot no lock is held and every hart is outside critical sections. *)
Definition initial (n : nat) (r : rng) : harts :=
  mkHarts (λ _, false) (replicate n (mkCpu None r 0 false)) ∅ (λ _, Out) (λ _, []).

(** ** The invariant *)

(** [push_off] without a lock: before the exchange and after the store. *)
Definition extra (p : pc) : Z :=
  match p with AqLocked _ | AqCpu _ | AqSwap _ | PanicAcquire _ | RlPop _ | PanicPop _ => 1 | _ => 0 end.

(** The owner has not written [lk->cpu] yet, or has cleared it. *)
Definition midway (p : pc) (id : lockid) : bool :=
  match p with AqSet i | RlStore i => bool_decide (i = id) | _ => false end.

Definition pc_ok (p : pc) (held : list lockid) : Prop :=
  match p with
  | AqSet id | RlClear id | RlStore id | PanicAcquire id => id ∈ held
  | AqSwap id | PanicRelease id => id ∉ held
  | PanicPop _ => False
  | _ => True
  end.

Abbreviation lock s id := (default free_lock (h_locks s !! id)).

Record inv (s : harts) : Prop := {
  i_hart : ∀ h c, h_cpus s !! h = Some c →
    noff c = Z.of_nat (length (h_held s h)) + extra (h_pc s h) ∧ (0 < noff c → h_sie s h = false);
  i_nodup : ∀ h, NoDup (h_held s h);
  i_pc : ∀ h, pc_ok (h_pc s h) (h_held s h);
  i_lock : ∀ h id, id ∈ h_held s h → lock s id = mkSpinlock 1 (if midway (h_pc s h) id then None else Some (Z.of_nat h));
  i_excl : ∀ h h' id, id ∈ h_held s h → id ∈ h_held s h' → h = h';
  i_free : ∀ id, lock s id = free_lock ∨ ∃ h, id ∈ h_held s h
}.

Lemma here_eq {A} (f : nat → A) h v : put f h v h = v.
Proof. unfold put. by rewrite decide_True. Qed.
Lemma here_ne {A} (f : nat → A) h v k : k ≠ h → put f h v k = f k.
Proof. intros. unfold put. by rewrite decide_False. Qed.

Lemma initial_inv n r : inv (initial n r).
Proof.
  split; simpl; try done; [..|by left].
  - intros h c [-> _]%lookup_replicate. done.
  - constructor.
  - by intros h id ?%elem_of_nil.
  - by intros h h' id ?%elem_of_nil.
Qed.

(** ** Every line keeps it *)

(** What a line of hart [h] may do to the locks, given the locks it owns after it. *)
Record locks_ok (s : harts) (h : nat) (l : lockst) (p : pc) (held : list lockid) : Prop := {
  lo_mine : ∀ id, id ∈ held → lock_of l id = mkSpinlock 1 (if midway p id then None else Some (Z.of_nat h));
  lo_other : ∀ h' id, h' ≠ h → id ∈ h_held s h' → lock_of l id = lock s id ∧ id ∉ held;
  lo_free : ∀ id, lock_of l id = free_lock ∨ ∃ h', id ∈ put (h_held s) h held h'
}.

Lemma back_inv s h l p held c :
  inv s → (h < length (h_cpus s))%nat → cpus l = <[h := c]> (h_cpus s) →
  noff c = Z.of_nat (length held) + extra p → (0 < noff c → sie l = false) →
  NoDup held → pc_ok p held → locks_ok s h l p held → inv (back h l p held s).
Proof.
  intros Hi Hlt Hc Hn Hs Hnd Hp [L1 L2 L3]. split; simpl.
  - rewrite Hc. intros k ck. destruct (decide (k = h)) as [->|Hne].
    + rewrite list_lookup_insert_eq, !here_eq by done. by intros [= <-].
    + rewrite list_lookup_insert_ne, !here_ne by done. apply (i_hart _ Hi).
  - intros k. unfold put. case_decide; [done|apply (i_nodup _ Hi)].
  - intros k. unfold put. case_decide; [done|apply (i_pc _ Hi)].
  - intros k id. destruct (decide (k = h)) as [->|Hne].
    + rewrite !here_eq. apply L1.
    + rewrite !here_ne by done. intros Hin.
      transitivity (lock s id); [by eapply L2|by apply (i_lock _ Hi)].
  - intros k k' id. unfold put. do 2 case_decide; subst; [done| | |by apply (i_excl _ Hi)].
    + intros Hin Hin'. by destruct (L2 k' id) as [_ []].
    + intros Hin Hin'. by destruct (L2 k id) as [_ []].
  - apply L3.
Qed.

(** A line that leaves the locks and what the hart owns alone. *)
Lemma same_locks s h l p :
  inv s → (∀ id, lock_of l id = lock s id) → (∀ id, id ∈ h_held s h → midway p id = midway (h_pc s h) id) →
  locks_ok s h l p (h_held s h).
Proof.
  intros Hi E Hm.
  assert (∀ k, put (h_held s) h (h_held s h) k = h_held s k) as Ep.
  { intros k. unfold put. case_decide; by subst. }
  split.
  - intros id Hin. rewrite E, Hm by done. by apply (i_lock _ Hi).
  - intros k id Hne Hin. split; [apply E|]. intros Hin'. apply Hne. by eapply (i_excl _ Hi).
  - intros id. rewrite E. setoid_rewrite Ep. apply (i_free _ Hi).
Qed.

Lemma move_inv s h p :
  inv s → (h < length (h_cpus s))%nat → extra p = extra (h_pc s h) → pc_ok p (h_held s h) →
  (∀ id, id ∈ h_held s h → midway p id = midway (h_pc s h) id) → inv (back h (on h s) p (h_held s h) s).
Proof.
  intros Hi Hlt He Hp Hm. destruct (lookup_lt_is_Some_2 _ _ Hlt) as [c Hc].
  destruct (i_hart _ Hi _ _ Hc) as [Hn Hs].
  eapply (back_inv _ _ _ _ _ c); try done.
  - symmetry. by apply list_insert_id.
  - by rewrite He.
  - apply (i_nodup _ Hi).
  - by apply same_locks.
Qed.

(** A line that writes one lock, which no other hart owns. *)
Lemma write_locks s h id k p held :
  inv s → (∀ h', h' ≠ h → id ∉ h_held s h') →
  (∀ id', id' ≠ id → id' ∈ held ↔ id' ∈ h_held s h) →
  (∀ id', id' ≠ id → id' ∈ held → midway p id' = midway (h_pc s h) id') →
  (id ∈ held → k = mkSpinlock 1 (if midway p id then None else Some (Z.of_nat h))) →
  (id ∉ held → k = free_lock) →
  locks_ok s h (set_lock id k (on h s)) p held.
Proof.
  intros Hi Ho Hh Hm Hin Hout.
  assert (∀ id', lock_of (on h s) id' = lock s id') as E by done.
  assert (∀ id' k, id' ≠ id → id' ∈ put (h_held s) h held k ↔ id' ∈ h_held s k) as Ep.
  { intros id' k' Hne. unfold put. case_decide; subst; [by apply Hh|done]. }
  split; intros id'; setoid_rewrite lock_of_set.
  - intros Hid'. case_decide; subst; [by apply Hin|]. rewrite E, Hm by done.
    apply (i_lock _ Hi). by apply Hh.
  - intros id2 Hne Hid2. rewrite decide_False by (intros ->; by eapply Ho). split; [done|].
    intros Hid. apply Hne. eapply (i_excl _ Hi); [done|]. apply Hh; [|done].
    intros ->. by eapply Ho.
  - case_decide; subst; [|setoid_rewrite Ep; [apply (i_free _ Hi)|done]].
    destruct (decide (id' ∈ held)) as [H1|H1]; [|left; by apply Hout].
    right. exists h. by rewrite here_eq.
Qed.

Lemma write_inv s h id k p held :
  inv s → (h < length (h_cpus s))%nat →
  Z.of_nat (length held) + extra p = Z.of_nat (length (h_held s h)) + extra (h_pc s h) →
  NoDup held → pc_ok p held → locks_ok s h (set_lock id k (on h s)) p held →
  inv (back h (set_lock id k (on h s)) p held s).
Proof.
  intros Hi Hlt He Hnd Hp Hl. destruct (lookup_lt_is_Some_2 _ _ Hlt) as [c Hc].
  destruct (i_hart _ Hi _ _ Hc) as [Hn Hs].
  eapply (back_inv _ _ _ _ _ c); try done; [|lia].
  symmetry. by apply list_insert_id.
Qed.

(** A lock is free, or marked and owned by one hart. *)
Lemma lock_cases s id :
  inv s → (lock s id = free_lock ∧ ∀ h, id ∉ h_held s h) ∨ ∃ h, id ∈ h_held s h ∧ locked (lock s id) = 1.
Proof.
  intros Hi. destruct (i_free _ Hi id) as [E|[h Hh]].
  - left. split; [done|]. intros h Hh. by rewrite (i_lock _ Hi _ _ Hh) in E.
  - right. exists h. by rewrite (i_lock _ Hi _ _ Hh).
Qed.

(** [lk->cpu] names a hart only while it owns the lock. *)
Lemma cpu_held s h id : inv s → lk_cpu (lock s id) = Some (Z.of_nat h) → id ∈ h_held s h.
Proof.
  intros Hi. destruct (i_free _ Hi id) as [->|[h' Hh']]; [done|].
  rewrite (i_lock _ Hi _ _ Hh'). simpl. case_match; [done|]. by intros [= ->%Nat2Z.inj].
Qed.

Lemma held_other s h id : inv s → id ∈ h_held s h → ∀ h', h' ≠ h → id ∉ h_held s h'.
Proof. intros Hi Hin h' Hne Hin'. apply Hne. by eapply (i_excl _ Hi). Qed.

Lemma on_ok s h : inv s → (h < length (h_cpus s))%nat → hart_ok (on h s).
Proof.
  intros Hi Hlt. destruct (lookup_lt_is_Some_2 _ _ Hlt) as [c Hc].
  destruct (i_hart _ Hi _ _ Hc) as [Hn Hs]. split; [simpl; lia|]. exists c. simpl. rewrite Nat2Z.id.
  split_and!; [done| |done]. destruct (h_pc s h); simpl in *; lia.
Qed.

Lemma push_inv s h id :
  inv s → (h < length (h_cpus s))%nat → h_pc s h = AqPush id →
  inv (back h (enter (on h s)) (AqLocked id) (h_held s h) s).
Proof.
  intros Hi Hlt Hp. destruct (lookup_lt_is_Some_2 _ _ Hlt) as [c Hc].
  destruct (i_hart _ Hi _ _ Hc) as [Hn Hs]. rewrite Hp in Hn. simpl in Hn.
  eapply back_inv; try done.
  - unfold enter. simpl. by rewrite Nat2Z.id, Hc.
  - simpl. lia.
  - intros _. unfold enter. simpl. by rewrite Nat2Z.id, Hc.
  - apply (i_nodup _ Hi).
  - apply same_locks; [done|intros; apply enter_lock|by rewrite Hp].
Qed.

(** [pop_off] in a critical section. *)
Lemma pop_off_inside l c :
  0 <= tp l → cpus l !! Z.to_nat (tp l) = Some c → 0 < noff c → sie l = false →
  ∃ l', pop_off l = Ok (tt, l') ∧ locks l' = locks l ∧ (noff c ≠ 1 → sie l' = false) ∧
        cpus l' = <[Z.to_nat (tp l) := mkCpu (c_proc c) (c_rng c) (noff c - 1) (intena c)]> (cpus l).
Proof.
  intros H0 Hc Hn Hs. unfold pop_off, bind. rewrite (mycpu_run l c) by done.
  unfold intr_get, gets. rewrite Hs. simpl. rewrite (proj2 (Z.ltb_ge _ _)) by lia.
  unfold set_mycpu, modify. destruct ((noff c - 1 =? 0) && intena c) eqn:Eb; eexists; split_and!; try done.
  bool_to_prop. intros. lia.
Qed.

Lemma pop_inv s h id :
  inv s → (h < length (h_cpus s))%nat → h_pc s h = RlPop id →
  ∃ l', pop_off (on h s) = Ok (tt, l') ∧ inv (back h l' Out (h_held s h) s).
Proof.
  intros Hi Hlt Hp. destruct (lookup_lt_is_Some_2 _ _ Hlt) as [c Hc].
  destruct (i_hart _ Hi _ _ Hc) as [Hn Hs]. rewrite Hp in Hn. simpl in Hn.
  destruct (pop_off_inside (on h s) c) as (l' & E & El & Es & Ec); simpl; rewrite ?Nat2Z.id; [lia|done|lia|apply Hs; lia|].
  exists l'. split; [done|]. simpl in Ec. rewrite Nat2Z.id in Ec.
  eapply back_inv; try done.
  - simpl. lia.
  - intros H. apply Es. simpl in H. lia.
  - apply (i_nodup _ Hi).
  - apply same_locks; [done| |by rewrite Hp]. intros id'. unfold lock_of. by rewrite El.
Qed.

Lemma swap_inv s h id :
  inv s → (h < length (h_cpus s))%nat → h_pc s h = AqSwap id →
  let k := mkSpinlock 1 (lk_cpu (lock s id)) in
  if truthy (locked (lock s id)) then inv (back h (set_lock id k (on h s)) (AqSwap id) (h_held s h) s)
  else inv (back h (set_lock id k (on h s)) (AqSet id) (id :: h_held s h) s).
Proof.
  intros Hi Hlt Hp k. pose proof (i_pc _ Hi h) as Hok. rewrite Hp in Hok. simpl in Hok.
  destruct (lock_cases s id Hi) as [[E Hno]|(h' & Hh' & E)].
  - unfold k. rewrite E. simpl. apply write_inv; try done.
    + rewrite Hp. simpl. lia.
    + constructor; [done|apply (i_nodup _ Hi)].
    + simpl. by left.
    + apply write_locks; try done.
      * intros. rewrite elem_of_cons. naive_solver.
      * intros id' Hne _. rewrite Hp. simpl. by rewrite bool_decide_eq_false_2.
      * intros _. simpl. by rewrite bool_decide_eq_true_2.
      * intros Hn. destruct Hn. by left.
  - rewrite E. simpl. apply write_inv; try done; [by rewrite Hp|apply (i_nodup _ Hi)|].
    apply same_locks; [done| |by rewrite Hp]. intros id'. rewrite lock_of_set. case_decide; [subst|done].
    unfold k. destruct (lock s id') as [x y]. simpl in *. by subst.
Qed.

(** The lines that write a lock the hart owns. *)
Lemma own_inv s h id k p :
  inv s → (h < length (h_cpus s))%nat → id ∈ h_held s h → extra (h_pc s h) = 0 → extra p = 0 →
  (∀ id', id' ≠ id → midway p id' = midway (h_pc s h) id') → pc_ok p (h_held s h) →
  k = mkSpinlock 1 (if midway p id then None else Some (Z.of_nat h)) →
  inv (back h (set_lock id k (on h s)) p (h_held s h) s).
Proof.
  intros Hi Hlt Hin He Hp Hm Hok Hk. apply write_inv; try done; [lia|apply (i_nodup _ Hi)|].
  apply write_locks; try done; [by apply held_other|]. intros ? ? _. by apply Hm.
Qed.

Lemma length_without id held : NoDup held → id ∈ held → length held = S (length (without id held)).
Proof.
  unfold without. induction 1 as [|x l Hx Hnd IH]; [by intros ?%elem_of_nil|].
  rewrite filter_cons. intros [->|Hin]%elem_of_cons.
  - rewrite decide_False by naive_solver. simpl. f_equal. clear IH Hnd. induction l as [|y l IH]; [done|].
    apply not_elem_of_cons in Hx as [Hy Hx]. rewrite filter_cons_True by done. simpl. by rewrite <- IH.
  - rewrite decide_True by (by intros ->). simpl. by rewrite IH.
Qed.

Lemma store_inv s h id :
  inv s → (h < length (h_cpus s))%nat → h_pc s h = RlStore id →
  inv (back h (set_lock id (mkSpinlock 0 (lk_cpu (lock s id))) (on h s)) (RlPop id) (without id (h_held s h)) s).
Proof.
  intros Hi Hlt Hp. pose proof (i_pc _ Hi h) as Hin. rewrite Hp in Hin. simpl in Hin.
  rewrite (i_lock _ Hi _ _ Hin), Hp. simpl. rewrite bool_decide_eq_true_2 by done.
  pose proof (i_nodup _ Hi h) as Hnd. unfold without.
  assert (∀ id', id' ∈ filter (λ i, i ≠ id) (h_held s h) ↔ id' ≠ id ∧ id' ∈ h_held s h) as Ef.
  { intros id'. by rewrite list_elem_of_filter. }
  apply write_inv; try done.
  - rewrite Hp. simpl. rewrite (length_without id (h_held s h)) by done. unfold without. lia.
  - by apply NoDup_filter.
  - apply write_locks; try done; [by apply held_other|..].
    + intros. rewrite Ef. naive_solver.
    + intros id' Hne _. rewrite Hp. simpl. by rewrite bool_decide_eq_false_2.
    + by intros [? _]%Ef.
Qed.

Lemma exec_inv s h :
  inv s → (h < length (h_cpus s))%nat →
  match h_pc s h with
  | Out | PanicAcquire _ | PanicRelease _ | PanicPop _ => exec_line h s = None
  | _ => ∃ s', exec_line h s = Some s' ∧ inv s'
  end.
Proof.
  intros Hi Hlt. pose proof (i_pc _ Hi h) as Hok. unfold exec_line. simpl.
  destruct (h_pc s h) as [|id|id|id|id|id|id|id|id|id|id|id|id|id] eqn:Hp; try done; simpl in Hok;
    change (lock_of (on h s) id) with (lock s id).
  - rewrite push_off_run by (by apply on_ok). eexists. split; [done|]. by apply push_inv.
  - eexists. split; [done|]. destruct (lock_cases s id Hi) as [[-> Hno]|(h' & Hh' & ->)]; simpl;
      (apply move_inv; rewrite ?Hp; simpl; auto).
  - eexists. split; [done|]. case_bool_decide as E; (apply move_inv; rewrite ?Hp; simpl; auto).
    + by apply cpu_held.
    + intros Hin. by rewrite (i_lock _ Hi _ _ Hin), Hp in E.
  - pose proof (swap_inv s h id Hi Hlt Hp) as H. simpl in H. case_match; eauto.
  - eexists. split; [done|]. apply own_inv; rewrite ?Hp; simpl; auto.
    + intros id' Hne. by rewrite bool_decide_eq_false_2.
    + by rewrite (i_lock _ Hi _ _ Hok).
  - eexists. split; [done|]. destruct (lock_cases s id Hi) as [[-> Hno]|(h' & Hh' & ->)]; simpl;
      (apply move_inv; rewrite ?Hp; simpl; auto).
  - eexists. split; [done|]. case_bool_decide as E; (apply move_inv; rewrite ?Hp; simpl; auto).
    + by apply cpu_held.
    + intros Hin. by rewrite (i_lock _ Hi _ _ Hin), Hp in E.
  - eexists. split; [done|]. apply own_inv; rewrite ?Hp; simpl; auto.
    + intros id' Hne. by rewrite bool_decide_eq_false_2.
    + by rewrite (i_lock _ Hi _ _ Hok), bool_decide_eq_true_2.
  - eexists. split; [done|]. by apply store_inv.
  - destruct (pop_inv s h id Hi Hlt Hp) as (l' & -> & ?). eauto.
Qed.

Lemma intr_inv s h b c :
  inv s → h_cpus s !! h = Some c → noff c = 0 → h_pc s h = Out →
  inv (back h (set_sie b (on h s)) Out (h_held s h) s).
Proof.
  intros Hi Hc Hn Hp. destruct (i_hart _ Hi _ _ Hc) as [Hn' _]. rewrite Hp in Hn'.
  eapply (back_inv _ _ _ _ _ c); try done; [by eapply lookup_lt_Some| |lia|apply (i_nodup _ Hi)|].
  - symmetry. by apply list_insert_id.
  - apply same_locks; [done..|by rewrite Hp].
Qed.

Lemma step_inv s s' : inv s → step s s' → inv s'.
Proof.
  intros Hi Hst. inversion Hst as [h ? ? Hlt E|h id ? Hlt Hp|h id ? Hlt Hp|h b c ? Hc Hn Hp]; subst.
  - pose proof (exec_inv s h Hi Hlt) as H. destruct (h_pc s h); try congruence; destruct H as (? & ? & ?); congruence.
  - by apply move_inv; rewrite ?Hp.
  - by apply move_inv; rewrite ?Hp.
  - by eapply intr_inv.
Qed.

Lemma reachable_inv n r s : rtc step (initial n r) s → inv s.
Proof. intros H. pose proof (initial_inv n r) as H0. revert H0. induction H; eauto using step_inv. Qed.

(** ** Alone, the lines are [acquire] and [release] of Spinlock *)

Abbreviation lines h := (rtc (λ a b, exec_line h a = Some b)).

Lemma on_back h l p held s : tp l = Z.of_nat h → wakeups l = [] → on h (back h l p held s) = l.
Proof. unfold on, back. simpl. rewrite here_eq. destruct l. simpl. by intros -> ->. Qed.

(** What hart [h] sees, where it is and what it owns. *)
Definition sees (h : nat) (s : harts) (l : lockst) (p : pc) (held : list lockid) : Prop :=
  on h s = l ∧ h_pc s h = p ∧ h_held s h = held.

Lemma line_then h s l p held (P : harts → Prop) :
  exec_line h s = Some (back h l p held s) → tp l = Z.of_nat h → wakeups l = [] →
  (∀ s1, sees h s1 l p held → ∃ s2, lines h s1 s2 ∧ P s2) → ∃ s2, lines h s s2 ∧ P s2.
Proof.
  intros E Ht Hw H. destruct (H (back h l p held s)) as (s2 & H1 & H2).
  { split; [by apply on_back|]. split; apply here_eq. }
  exists s2. split; [|done]. by eapply rtc_l.
Qed.

Lemma acquire_lines h s id held :
  lockable id (on h s) → sees h s (on h s) (AqPush id) held →
  ∃ s', lines h s s' ∧ sees h s' (acquired id (on h s)) Out (id :: held).
Proof.
  intros [Hh Hl] (_ & Hp & Hd). set (l := on h s) in *.
  assert (wakeups (enter l) = []) as Hw by (unfold enter; by destruct (cpus l !! _)).
  pose proof (enter_tp l) as Ht. pose proof (enter_lock l id) as He. rewrite Hl in He.
  eapply (line_then _ _ (enter l) (AqLocked id) held); [|done..|].
  { unfold exec_line. fold l. by rewrite Hp, push_off_run, Hd. }
  intros s1 (E1 & P1 & D1). eapply (line_then _ _ (enter l) (AqSwap id) held); [|done..|].
  { unfold exec_line. by rewrite E1, P1, D1, He. }
  intros s2 (E2 & P2 & D2).
  eapply (line_then _ _ (set_lock id (mkSpinlock 1 None) (enter l)) (AqSet id) (id :: held)); [|done..|].
  { unfold exec_line. by rewrite E2, P2, D2, He. }
  intros s3 (E3 & P3 & D3).
  eapply (line_then _ _ (acquired id l) Out (id :: held)); [|done..|eauto using rtc_refl].
  unfold exec_line. rewrite E3, P3, D3, lock_of_set, decide_True, set_lock_twice by done.
  simpl. unfold acquired. by rewrite Ht.
Qed.

Lemma pop_off_keeps l l' : pop_off l = Ok (tt, l') → tp l' = tp l ∧ wakeups l' = wakeups l.
Proof.
  unfold pop_off, bind, mycpu, intr_get, gets, set_mycpu, panic, intr_on, ret, modify.
  repeat case_match; simpl; intros; simplify_eq; done.
Qed.

Lemma release_lines h s id held l' :
  release id (on h s) = Ok (tt, l') → sees h s (on h s) (RlLocked id) held → (h < length (h_cpus s))%nat →
  ∃ s', lines h s s' ∧ sees h s' l' Out (without id held).
Proof.
  intros Hr (_ & Hp & Hd) Hlt. destruct (lookup_lt_is_Some_2 _ _ Hlt) as [c Hc].
  set (l := on h s) in *. unfold release, holding, bind, getS in Hr.
  rewrite (mycpu_run l c) in Hr by (unfold l; simpl; rewrite ?Nat2Z.id; lia || done). unfold ret, modify in Hr.
  destruct (truthy _) eqn:Et; [|done]. destruct (bool_decide _) eqn:Ec; [|done].
  cbn [andb negb] in Hr. rewrite lock_of_set, decide_True, set_lock_twice in Hr by done. cbn [lk_cpu] in Hr.
  eapply (line_then _ _ l (RlCpu id) held); [|done..|].
  { unfold exec_line. fold l. by rewrite Hp, Et, Hd. }
  intros s1 (E1 & P1 & D1). eapply (line_then _ _ l (RlClear id) held); [|done..|].
  { unfold exec_line. by rewrite E1, P1, D1, Ec. }
  intros s2 (E2 & P2 & D2).
  eapply (line_then _ _ (set_lock id (mkSpinlock (locked (lock_of l id)) None) l) (RlStore id) held); [|done..|].
  { unfold exec_line. by rewrite E2, P2, D2. }
  intros s3 (E3 & P3 & D3).
  eapply (line_then _ _ (set_lock id (mkSpinlock 0 None) l) (RlPop id) (without id held)); [|done..|].
  { unfold exec_line. by rewrite E3, P3, D3, lock_of_set, decide_True, set_lock_twice. }
  intros s4 (E4 & P4 & D4).
  assert (tp l' = Z.of_nat h ∧ wakeups l' = []) as [Ht Hw] by (by apply pop_off_keeps in Hr).
  eapply (line_then _ _ l' Out (without id held)); [|done..|eauto using rtc_refl].
  unfold exec_line. by rewrite E4, P4, D4, Hr.
Qed.

(** ** Mutual exclusion *)

(** C30 (safety).  Harts execute [acquire] and [release] line by line, in any
    interleaving, and may call them on any lock at any time.  In every reachable state:
    - no two harts own the same lock (each took it with an exchange that answered 0 and
      has not stored 0 yet);
    - a hart that owns a lock has interrupts off;
    - a lock word that is not 0 has an owner, so no lock is lost;
    - a hart spins only on a lock it does not own, [acquire] panics only on a lock the
      hart already owns, [release] only on one it does not, and [pop_off] never;
    - any other line a hart is at can be executed. *)
Theorem mutual_exclusion n r s h :
  rtc step (initial n r) s → (h < length (h_cpus s))%nat →
  (∀ h' id, h' ≠ h → id ∈ h_held s h → id ∉ h_held s h') ∧
  (h_held s h ≠ [] → h_sie s h = false) ∧
  (∀ id, locked (lock s id) ≠ 0 → ∃ h', id ∈ h_held s h') ∧
  match h_pc s h with
  | Out => True
  | PanicAcquire id => id ∈ h_held s h
  | PanicRelease id => id ∉ h_held s h
  | PanicPop _ => False
  | AqSwap id => (id ∉ h_held s h) ∧ (∃ s', exec_line h s = Some s')
  | _ => ∃ s', exec_line h s = Some s'
  end.
Proof.
  intros Hr Hlt. pose proof (reachable_inv _ _ _ Hr) as Hi.
  destruct (lookup_lt_is_Some_2 _ _ Hlt) as [c Hc]. destruct (i_hart _ Hi _ _ Hc) as [Hn Hs].
  split_and!.
  - intros h' id Hne Hin Hin'. apply Hne. by eapply (i_excl _ Hi).
  - intros Hne. apply Hs. destruct (h_held s h); [done|]. simpl in Hn. destruct (h_pc s h); simpl in *; lia.
  - intros id Hid. destruct (lock_cases s id Hi) as [[E _]|(h' & ? & _)]; [by rewrite E in Hid|eauto].
  - pose proof (i_pc _ Hi h) as Hp. pose proof (exec_inv s h Hi Hlt) as He.
    destruct (h_pc s h); try done; destruct He as (? & ? & _); eauto.
Qed.

(** Hart 0 takes the allocator's lock while hart 1 comes to the exchange; hart 1 spins. *)
Definition kmem_lock : lockid := ("kmem"%string, 0).
Definition turn (s : harts) (h : nat) : harts :=
  if decide (h < length (h_cpus s))%nat then default s (exec_line h s) else s.
Definition calls : harts :=
  let s := initial 2 (srand 1) in
  let s := back 0 (on 0 s) (AqPush kmem_lock) [] s in
  back 1 (on 1 s) (AqPush kmem_lock) [] s.
Definition demo : harts := fold_left turn [0; 1; 0; 1; 0; 1; 0; 1]%nat calls.

Lemma turn_steps s h : rtc step s (turn s h).
Proof.
  unfold turn. case_decide; [|done]. destruct (exec_line h s) eqn:E; [|done]. apply rtc_once. by eapply step_exec.
Qed.

Lemma demo_reached : rtc step (initial 2 (srand 1)) demo.
Proof.
  eapply rtc_l; [apply (step_acquire 0 kmem_lock); [simpl; lia|done]|].
  eapply rtc_l; [apply (step_acquire 1 kmem_lock); [simpl; lia|done]|].
  change (rtc step calls (fold_left turn [0; 1; 0; 1; 0; 1; 0; 1]%nat calls)).
  generalize calls. induction [0; 1; 0; 1; 0; 1; 0; 1]%nat as [|h l IH]; intros s; [done|].
  etrans; [apply (turn_steps s h)|apply IH].
Qed.

Lemma mutual_exclusion_witness :
  rtc step (initial 2 (srand 1)) demo ∧ kmem_lock ∈ h_held demo 0 ∧ (kmem_lock ∉ h_held demo 1) ∧
  h_pc demo 0 = Out ∧ h_pc demo 1 = AqSwap kmem_lock ∧ ∃ s', exec_line 1 demo = Some s'.
Proof.
  pose proof demo_reached as H. split; [exact H|].
  assert (kmem_lock ∈ h_held demo 0) as H0 by (vm_compute; left).
  assert (1 < length (h_cpus demo))%nat as L1 by (vm_compute; lia).
  destruct (mutual_exclusion 2 (srand 1) demo 1 H L1) as (Hx & _ & _ & Hp).
  assert (h_pc demo 1 = AqSwap kmem_lock) as E by (vm_compute; reflexivity). rewrite E in Hp.
  destruct Hp as [Hp1 Hp2].
  split; [exact H0|]. split; [exact Hp1|]. split; [vm_compute; reflexivity|]. split; [exact E|exact Hp2].
Defined.
