(* ===== verification/Kalloc.v ===== *)
(** * The physical page allocator (kernel/kalloc.c)

    A stack of free page numbers and a reference count per page, protected by
    the lock ["kmem"].  The state of the allocator, of the locks and of
    physical memory together form [machine], the state of every function of
    the memory subsystem. *)

From S2P Require Import Prelude Riscv Mem Random Spinlock.

(** ** The linker's symbols

    [end], [etext] and [trampoline] come from kernel.ld, which places the
    trampoline on the last page of the text section. *)

Class Linker := {
  kend : Z;
  etext : Z;
  trampoline : Z;
  linker_tramp : aligned trampoline ∧ KERNBASE <= trampoline ∧ etext = trampoline + PGSIZE;
  linker_end : etext <= kend <= PHYSTOP
}.

Abbreviation MAXPAGES := 557056.          (* PHYSTOP / PGSIZE *)

(** ** State *)

Record kmem := mkKmem { numfree : Z; refs : gmap Z Z; freelist : gmap Z Z }.

Record machine := mkMachine { m_lk : lockst; m_mem : mem; m_kmem : kmem }.

#[export] Program Instance machine_lk : Lens machine lockst := {|
  view := m_lk; set l s := mkMachine l (m_mem s) (m_kmem s) |}.
Solve All Obligations with by intros; repeat match goal with s : machine |- _ => destruct s end.

Definition set_mem (m : mem) (s : machine) : machine := mkMachine (m_lk s) m (m_kmem s).
Definition set_kmem (k : kmem) (s : machine) : machine := mkMachine (m_lk s) (m_mem s) k.

(** The C arrays, zero where never written. *)
Definition ref (k : kmem) (p : Z) : Z := default 0 (refs k !! p).
Definition fl (k : kmem) (i : Z) : Z := default 0 (freelist k !! i).

Definition LK_KMEM : lockid := ("kmem"%string, 0).

Definition in_array (i : Z) : bool := (0 <=? i) && (i <? MAXPAGES).

Definition memory_op (f : mem → mem) : M machine unit :=
  modify (λ s, set_mem (f (m_mem s)) s).
Definition set_refs (p r : Z) : M machine unit :=
  assert_def (in_array p) ;;
  modify (λ s, let k := m_kmem s in
               set_kmem (mkKmem (numfree k) (<[p := r]> (refs k)) (freelist k)) s).
Definition get_refs (p : Z) : M machine Z :=
  assert_def (in_array p) ;; gets (λ s, ref (m_kmem s) p).

(** ** kernel/kalloc.c *)

Section Code.
Context `{Linker}.

Definition krelease (pa : Z) : M machine unit :=
  memory_op (λ m, memset m pa 1 PGSIZE) ;;
  let! k := gets m_kmem in
  assert_def (in_array (numfree k)) ;;
  modify (set_kmem (mkKmem (u64 (numfree k + 1)) (refs k)
                      (<[numfree k := Z.shiftr pa PGSHIFT]> (freelist k)))).

(** [for (p = PGROUNDUP(pa_start); p + PGSIZE <= pa_end; p += PGSIZE)] *)
Definition freerange (pa_start pa_end : Z) : M machine unit :=
  let p := PGROUNDUP pa_start in
  for_ (Z.to_nat ((pa_end - p) / PGSIZE)) p PGSIZE (λ p, krelease p ;; ret (@None unit)) ;;
  ret tt.

Definition kinit : M machine unit :=
  zoom (initlock LK_KMEM) ;; freerange kend PHYSTOP.

Definition kalloc : M machine Z :=
  zoom (acquire LK_KMEM) ;;
  let! k := gets m_kmem in
  if numfree k =? 0 then zoom (release LK_KMEM) ;; ret 0
  else
    let n := u64 (numfree k - 1) in
    modify (set_kmem (mkKmem n (refs k) (freelist k))) ;;
    assert_def (in_array n) ;;
    let index := fl k n in
    zoom (release LK_KMEM) ;;
    set_refs index 1 ;;
    let pa := u64 (Z.shiftl index PGSHIFT) in
    memory_op (λ m, memset m pa 5 PGSIZE) ;;
    ret pa.

(** [(pa % PGSIZE) != 0 || (char* )pa < end || pa >= PHYSTOP] *)
Definition bad_page (pa : Z) : bool :=
  truthy (pa mod PGSIZE) || (pa <? kend) || (PHYSTOP <=? pa).

Definition kincref (pa : Z) : M machine unit :=
  if bad_page pa then panic "kincref" else
  zoom (acquire LK_KMEM) ;;
  let index := Z.shiftr pa PGSHIFT in
  let! r := get_refs index in
  let! r' := as_int (r + 1) in
  set_refs index r' ;;
  zoom (release LK_KMEM).

Definition kfree (pa : Z) : M machine unit :=
  if bad_page pa then panic "kfree" else
  zoom (acquire LK_KMEM) ;;
  let index := Z.shiftr pa PGSHIFT in
  let! r := get_refs index in
  let! r' := as_int (r - 1) in
  set_refs index r' ;;
  if r' <? 0 then panic "kfree: refs below 0" else
  (if r' =? 0 then krelease pa else ret tt) ;;
  zoom (release LK_KMEM).

Definition ksingleref (pa : Z) : M machine bool :=
  if bad_page pa then panic "ksingleref" else
  zoom (acquire LK_KMEM) ;;
  let index := Z.shiftr pa PGSHIFT in
  let! r := get_refs index in
  let single := r =? 1 in
  zoom (release LK_KMEM) ;;
  ret single.
End Code.

Lemma in_array_true i : 0 <= i < MAXPAGES → in_array i = true.
Proof. intros. unfold in_array. apply andb_true_iff. lia. Qed.

(** ** Invariant *)

Section Inv.
Context `{Linker}.

(** A page the allocator manages. *)
Definition managed (p : Z) : Prop := kend <= p * PGSIZE ∧ p * PGSIZE < PHYSTOP.

Definition on_freelist (k : kmem) (p : Z) : Prop := ∃ i, 0 <= i < numfree k ∧ fl k i = p.

(** The free stack holds exactly the managed pages without references, each
    once. *)
Record kmem_ok (k : kmem) : Prop := {
  ok_num : 0 <= numfree k;
  ok_free : ∀ p, on_freelist k p ↔ managed p ∧ ref k p = 0;
  ok_inj : ∀ i j, 0 <= i < numfree k → 0 <= j < numfree k → fl k i = fl k j → i = j;
  ok_refs : ∀ p, 0 <= ref k p < 2 ^ 31
}.

Lemma managed_array p : managed p → 0 <= p < MAXPAGES.
Proof.
  intros [H1 H2]. pose proof linker_end. destruct linker_tramp as (_ & ? & ?). lia.
Qed.

Lemma managed_in_array p : managed p → in_array p = true.
Proof. intros Hp%managed_array. by apply in_array_true. Qed.

Lemma managed_paddr p : managed p → paddr (p * PGSIZE).
Proof. intros Hp%managed_array. split; [lia|apply aligned_scale]. Qed.

Lemma managed_good p : managed p → bad_page (p * PGSIZE) = false.
Proof.
  intros [H1 H2]. unfold bad_page, truthy. rewrite Z.mod_mul by lia. simpl.
  apply orb_false_iff. split; [apply Z.ltb_ge|apply Z.leb_gt]; lia.
Qed.

Lemma managed_shift p : managed p → Z.shiftr (p * PGSIZE) PGSHIFT = p.
Proof. intros. rewrite Z.shiftr_div_pow2 by lia. apply Z.div_mul. lia. Qed.

Lemma managed_nonzero p : managed p → p * PGSIZE ≠ 0.
Proof. intros [H1 _]. pose proof linker_end. destruct linker_tramp as (_ & ? & ?). lia. Qed.

(** The free stack never outgrows its array: a managed page that is not on
    it leaves room for one more entry. *)
Lemma freelist_room k p : kmem_ok k → managed p → ¬ on_freelist k p → numfree k < MAXPAGES.
Proof.
  intros Hk Hp Hn.
  pose (l := fl k <$> seqZ 0 (numfree k)).
  assert (NoDup (p :: l)) as Hnd.
  { constructor.
    - intros (i & -> & Hi%elem_of_seqZ)%list_elem_of_fmap. apply Hn. exists i. split; [lia|done].
    - apply NoDup_fmap_2_strong; [|apply NoDup_seqZ].
      intros i j Hi%elem_of_seqZ Hj%elem_of_seqZ. apply (ok_inj _ Hk); lia. }
  assert (Z.of_nat (length (p :: l)) <= MAXPAGES) as Hlen.
  { apply NoDup_Z_length; [lia|done|]. intros q [->|Hq]%elem_of_cons.
    - by apply managed_array.
    - apply list_elem_of_fmap in Hq as (i & -> & Hi%elem_of_seqZ). apply managed_array.
      apply (ok_free _ Hk). exists i. split; [lia|done]. }
  subst l. simpl in Hlen. rewrite length_fmap, length_seqZ in Hlen.
  pose proof (ok_num _ Hk). lia.
Qed.
End Inv.

(** ** Specifications *)

Definition in_page (p a : Z) : bool := (p * PGSIZE <=? a) && (a <? p * PGSIZE + PGSIZE).

Lemma in_page_iff p a : in_page p a = true ↔ p * PGSIZE <= a < p * PGSIZE + PGSIZE.
Proof. unfold in_page. rewrite andb_true_iff, Z.leb_le, Z.ltb_lt. done. Qed.

Lemma in_page_div p a : in_page p a = (a / PGSIZE =? p).
Proof.
  apply eq_true_iff_eq. rewrite in_page_iff, Z.eqb_eq.
  pose proof (Z.div_mod a PGSIZE ltac:(lia)). pose proof (Z.mod_pos_bound a PGSIZE ltac:(lia)).
  lia.
Qed.

Lemma in_page_ne p q a : p ≠ q → in_page p a = true → in_page q a = false.
Proof. rewrite !in_page_div. intros ? ->%Z.eqb_eq. by apply Z.eqb_neq. Qed.

Section Spec.
Context `{Linker}.

(** The result of [kalloc]: 0 and nothing changed when no page is free, or
    the address of a page that had no reference and now has one. *)
Definition alloc_post (s : machine) (pa : Z) (s' : machine) : Prop :=
  m_lk s' ≡ m_lk s ∧ kmem_ok (m_kmem s') ∧
  ((pa = 0 ∧ numfree (m_kmem s) = 0 ∧ m_mem s' = m_mem s ∧ m_kmem s' = m_kmem s) ∨
   ∃ p, pa = p * PGSIZE ∧ managed p ∧ ref (m_kmem s) p = 0 ∧
     numfree (m_kmem s') = numfree (m_kmem s) - 1 ∧
     (∀ q, ref (m_kmem s') q = if q =? p then 1 else ref (m_kmem s) q) ∧
     (∀ a, ldb (m_mem s') a = if in_page p a then 5 else ldb (m_mem s) a)).

(** The effect of [kfree] on a page with references. *)
Definition free_post (p : Z) (s s' : machine) : Prop :=
  m_lk s' ≡ m_lk s ∧ kmem_ok (m_kmem s') ∧
  (∀ q, ref (m_kmem s') q = if q =? p then ref (m_kmem s) q - 1 else ref (m_kmem s) q) ∧
  numfree (m_kmem s') = numfree (m_kmem s) + b2z (ref (m_kmem s) p =? 1) ∧
  (∀ a, ldb (m_mem s') a = if (ref (m_kmem s) p =? 1) && in_page p a
                           then 1 else ldb (m_mem s) a).

Lemma ref_insert k n f p r q :
  ref (mkKmem n (<[p := r]> (refs k)) f) q = if q =? p then r else ref k q.
Proof.
  unfold ref. simpl. destruct (Z.eqb_spec q p) as [->|].
  - by rewrite lookup_insert_eq. - by rewrite lookup_insert_ne.
Qed.

Lemma fl_insert k n i v :
  default 0 (<[i := v]> (freelist k) !! n) = if n =? i then v else fl k n.
Proof.
  unfold fl. destruct (Z.eqb_spec n i) as [->|].
  - by rewrite lookup_insert_eq. - by rewrite lookup_insert_ne.
Qed.

Lemma set_refs_run p r s :
  managed p →
  set_refs p r s = Ok (tt, set_kmem (mkKmem (numfree (m_kmem s)) (<[p := r]> (refs (m_kmem s)))
                                       (freelist (m_kmem s))) s).
Proof. intros Hp. unfold set_refs, bind. by rewrite managed_in_array. Qed.

Lemma get_refs_run p s : managed p → get_refs p s = Ok (ref (m_kmem s) p, s).
Proof. intros Hp. unfold get_refs, bind. by rewrite managed_in_array. Qed.

Lemma krelease_run p s :
  managed p → 0 <= numfree (m_kmem s) < MAXPAGES →
  krelease (p * PGSIZE) s =
  Ok (tt, mkMachine (m_lk s) (memset (m_mem s) (p * PGSIZE) 1 PGSIZE)
            (mkKmem (numfree (m_kmem s) + 1) (refs (m_kmem s))
               (<[numfree (m_kmem s) := p]> (freelist (m_kmem s))))).
Proof.
  intros Hp Hn. unfold krelease, memory_op, bind, modify, gets. simpl.
  rewrite in_array_true by lia. simpl. rewrite managed_shift by done. rewrite wrap_small by lia. done.
Qed.

(** Taking the top of the free stack. *)
Lemma pop_ok k :
  kmem_ok k → 0 < numfree k →
  managed (fl k (numfree k - 1)) ∧ ref k (fl k (numfree k - 1)) = 0 ∧
  kmem_ok (mkKmem (numfree k - 1) (<[fl k (numfree k - 1) := 1]> (refs k)) (freelist k)).
Proof.
  intros Hk Hn. set (p := fl k (numfree k - 1)).
  assert (managed p ∧ ref k p = 0) as [Hm Hr].
  { apply (ok_free _ Hk). exists (numfree k - 1). split; [lia|done]. }
  split_and!; [done|done|].
  assert (∀ q, ref (mkKmem (numfree k - 1) (<[p := 1]> (refs k)) (freelist k)) q
               = if q =? p then 1 else ref k q) as Href.
  { intros q. apply ref_insert. }
  split.
  - simpl. lia.
  - intros q. rewrite Href. destruct (Z.eqb_spec q p) as [->|Hne].
    + split; [|lia]. intros (i & Hi & Hf). simpl in Hi.
      change (fl _ i) with (fl k i) in Hf.
      pose proof (ok_inj _ Hk i (numfree k - 1) ltac:(lia) ltac:(lia) Hf). lia.
    + rewrite <- (ok_free _ Hk). split; intros (i & Hi & Hf); simpl in *.
      * exists i. split; [lia|done].
      * exists i. split; [|done]. change (fl _ i) with (fl k i) in Hf.
        destruct (decide (i = numfree k - 1)) as [->|]; [done|simpl; lia].
  - intros i j Hi Hj. simpl in *. apply (ok_inj _ Hk); lia.
  - intros q. rewrite Href. pose proof (ok_refs _ Hk q). case_tests.
Qed.

(** Pushing a page whose last reference goes away. *)
Lemma push_ok k p :
  kmem_ok k → managed p → ref k p = 1 →
  numfree k < MAXPAGES ∧
  kmem_ok (mkKmem (numfree k + 1) (<[p := 0]> (refs k)) (<[numfree k := p]> (freelist k))).
Proof.
  intros Hk Hm Hr.
  assert (¬ on_freelist k p) as Hnf by (rewrite (ok_free _ Hk); intros []; lia).
  split; [by eapply freelist_room|].
  set (k' := mkKmem _ _ _).
  assert (∀ q, ref k' q = if q =? p then 0 else ref k q) as Href by (intros; apply ref_insert).
  assert (∀ i, fl k' i = if i =? numfree k then p else fl k i) as Hfl
    by (intros i; apply fl_insert).
  pose proof (ok_num _ Hk) as Hn0.
  split.
  - simpl. lia.
  - intros q. rewrite Href. split.
    + intros (i & Hi & <-). simpl in Hi. rewrite Hfl.
      destruct (Z.eqb_spec i (numfree k)) as [->|]; [by rewrite Z.eqb_refl|].
      destruct (Z.eqb_spec (fl k i) p) as [->|]; [done|].
      apply (ok_free _ Hk). exists i. split; [lia|done].
    + intros [Hq Hq0]. destruct (Z.eqb_spec q p) as [->|].
      * exists (numfree k). rewrite Hfl, Z.eqb_refl. simpl. split; [lia|done].
      * destruct (proj2 (ok_free _ Hk q)) as (i & Hi & <-); [done|].
        exists i. rewrite Hfl. simpl. split; [lia|]. case_tests.
  - intros i j Hi Hj. rewrite !Hfl. simpl in *.
    case_test; case_test; intros; subst; try lia.
    + exfalso. apply Hnf. exists j. split; [lia|done].
    + exfalso. apply Hnf. exists i. split; [lia|done].
    + apply (ok_inj _ Hk); lia.
  - intros q. rewrite Href. pose proof (ok_refs _ Hk q). case_tests.
Qed.

Lemma kalloc_spec s :
  kmem_ok (m_kmem s) → lockable LK_KMEM (m_lk s) → wp kalloc (alloc_post s) s.
Proof.
  intros Hk Hl. unfold kalloc. apply wp_bind, wp_acquire; [done|]. apply wp_bind, wp_gets. simpl.
  destruct (Z.eqb_spec (numfree (m_kmem s)) 0) as [E|E].
  { apply wp_bind, (wp_release _ (m_lk s)); [done|done|]. intros l' He. apply wp_ret.
    split_and!; [done|done|]. by left. }
  pose proof (ok_num _ Hk) as Hn.
  destruct (pop_ok _ Hk ltac:(lia)) as (Hm & Hr & Hk').
  assert (numfree (m_kmem s) <= MAXPAGES) as Hmax.
  { destruct (decide (numfree (m_kmem s) - 1 < MAXPAGES)); [lia|].
    apply (freelist_room _ (fl (m_kmem s) (numfree (m_kmem s) - 1))) in Hk'; [simpl in Hk'; lia|done|].
    rewrite (ok_free _ Hk'). unfold ref. simpl. rewrite lookup_insert_eq. simpl. lia. }
  rewrite (wrap_small 64) by lia.
  apply wp_bind, wp_modify. apply wp_bind, wp_assert_def; [apply in_array_true; lia|].
  apply wp_bind, (wp_release _ (m_lk s)); [done|done|]. intros l' He.
  eapply wp_bind, wp_eq; [by apply set_refs_run|]. simpl. apply wp_bind, wp_modify, wp_ret.
  rewrite (Z.shiftl_mul_pow2 _ 12) by lia. change (2 ^ 12) with PGSIZE.
  set (p := fl (m_kmem s) (numfree (m_kmem s) - 1)) in *.
  pose proof (managed_array _ Hm). rewrite (wrap_small 64) by lia.
  split_and!; [done|done|]. right. exists p.
  split_and!; [done|done|done|done| |].
  - intros q. apply ref_insert.
  - intros a. apply memset_ldb. lia.
Qed.

Lemma kfree_spec p s :
  kmem_ok (m_kmem s) → lockable LK_KMEM (m_lk s) → managed p → 0 < ref (m_kmem s) p →
  wp (kfree (p * PGSIZE)) (λ _ s', free_post p s s') s.
Proof.
  intros Hk Hl Hm Hr. unfold kfree. rewrite managed_good by done.
  apply wp_bind, wp_acquire; [done|]. rewrite managed_shift by done.
  eapply wp_bind, wp_eq; [by apply get_refs_run|]. simpl. pose proof (ok_refs _ Hk p).
  apply wp_bind, wp_as_int; [lia|].
  eapply wp_bind, wp_eq; [by apply set_refs_run|]. simpl.
  rewrite (proj2 (Z.ltb_ge _ _)) by lia.
  destruct (Z.eqb_spec (ref (m_kmem s) p - 1) 0) as [E|E].
  - destruct (push_ok (m_kmem s) p) as [Hroom Hk']; [done|done|lia|].
    eapply wp_bind, wp_eq.
    { apply krelease_run; [done|]. simpl. pose proof (ok_num _ Hk). lia. }
    simpl. apply (wp_release _ (m_lk s)); [done|done|]. intros l' He.
    rewrite E in *. unfold free_post. replace (ref (m_kmem s) p =? 1) with true by (symmetry; apply Z.eqb_eq; lia).
    split_and!; [done|done| |done|].
    + intros q. simpl. rewrite ref_insert. case_tests.
    + intros a. simpl. by rewrite memset_ldb by lia.
  - apply wp_bind, wp_ret. apply (wp_release _ (m_lk s)); [done|done|]. intros l' He.
    unfold free_post. replace (ref (m_kmem s) p =? 1) with false by (symmetry; apply Z.eqb_neq; lia).
    assert (∀ q, ref (mkKmem (numfree (m_kmem s)) (<[p := ref (m_kmem s) p - 1]> (refs (m_kmem s)))
                  (freelist (m_kmem s))) q = if q =? p then ref (m_kmem s) q - 1 else ref (m_kmem s) q) as Hq.
    { intros q. rewrite ref_insert. case_tests. }
    split_and!; [done| |done|simpl; lia|done].
    split; simpl.
    + apply Hk.
    + intros q. rewrite Hq. change (on_freelist _ q) with (on_freelist (m_kmem s) q).
      rewrite (ok_free _ Hk). case_tests.
    + apply Hk.
    + intros q. rewrite Hq. pose proof (ok_refs _ Hk q). case_tests.
Qed.

(** A change of one positive reference count to another keeps the invariant. *)
Lemma recount_ok k p r :
  kmem_ok k → 0 < ref k p → 0 < r < 2 ^ 31 →
  kmem_ok (mkKmem (numfree k) (<[p := r]> (refs k)) (freelist k)).
Proof.
  intros Hk Hp Hr. split; simpl.
  - apply Hk.
  - intros q. rewrite ref_insert. change (on_freelist _ q) with (on_freelist k q).
    rewrite (ok_free _ Hk). case_tests.
  - apply Hk.
  - intros q. rewrite ref_insert. pose proof (ok_refs _ Hk q). case_tests.
Qed.

Definition incref_post (p : Z) (s s' : machine) : Prop :=
  m_lk s' ≡ m_lk s ∧ kmem_ok (m_kmem s') ∧ m_mem s' = m_mem s ∧
  numfree (m_kmem s') = numfree (m_kmem s) ∧
  (∀ q, ref (m_kmem s') q = if q =? p then ref (m_kmem s) q + 1 else ref (m_kmem s) q).

Lemma kincref_spec p s :
  kmem_ok (m_kmem s) → lockable LK_KMEM (m_lk s) → managed p →
  0 < ref (m_kmem s) p < 2 ^ 31 - 1 →
  wp (kincref (p * PGSIZE)) (λ _ s', incref_post p s s') s.
Proof.
  intros Hk Hl Hm Hr. unfold kincref. rewrite managed_good by done.
  apply wp_bind, wp_acquire; [done|]. rewrite managed_shift by done.
  eapply wp_bind, wp_eq; [by apply get_refs_run|]. simpl.
  apply wp_bind, wp_as_int; [lia|].
  eapply wp_bind, wp_eq; [by apply set_refs_run|]. simpl.
  apply (wp_release _ (m_lk s)); [done|done|]. intros l' He.
  split_and!; [done| |done|done|].
  - apply recount_ok; done || lia.
  - intros q. simpl. rewrite ref_insert. case_tests.
Qed.

Lemma ksingleref_spec p s :
  lockable LK_KMEM (m_lk s) → managed p →
  wp (ksingleref (p * PGSIZE))
     (λ b s', b = (ref (m_kmem s) p =? 1) ∧ m_lk s' ≡ m_lk s ∧
              m_mem s' = m_mem s ∧ m_kmem s' = m_kmem s) s.
Proof.
  intros Hl Hm. unfold ksingleref. rewrite managed_good by done.
  apply wp_bind, wp_acquire; [done|]. rewrite managed_shift by done.
  eapply wp_bind, wp_eq; [by apply get_refs_run|]. simpl.
  apply wp_bind, (wp_release _ (m_lk s)); [done|done|]. intros l' He. by apply wp_ret.
Qed.

(** *** Boot *)

Definition boot_kmem : kmem := mkKmem 0 ∅ ∅.
Definition first_page : Z := (kend + PGSIZE - 1) / PGSIZE.

Lemma kend_range : KERNBASE < kend <= PHYSTOP.
Proof. destruct linker_tramp as (_ & ? & ?). pose proof linker_end. lia. Qed.

Lemma PGROUNDUP_kend : PGROUNDUP kend = first_page * PGSIZE.
Proof.
  pose proof kend_range. rewrite PGROUNDUP_eq by lia. unfold first_page.
  pose proof (Z.div_mod (kend + PGSIZE - 1) PGSIZE ltac:(lia)). lia.
Qed.

Lemma first_page_managed p : managed p ↔ first_page <= p < MAXPAGES.
Proof.
  unfold managed, first_page.
  pose proof (Z.div_mod (kend + PGSIZE - 1) PGSIZE ltac:(lia)).
  pose proof (Z.mod_pos_bound (kend + PGSIZE - 1) PGSIZE ltac:(lia)). lia.
Qed.

(** The allocator after [k] iterations of the loop of [freerange]. *)
Definition filling (s : machine) (k : nat) (s' : machine) : Prop :=
  m_lk s' = m_lk s ∧ refs (m_kmem s') = refs (m_kmem s) ∧
  numfree (m_kmem s') = Z.of_nat k ∧
  (∀ i, 0 <= i < Z.of_nat k → fl (m_kmem s') i = first_page + i) ∧
  (∀ a, ¬ managed (a / PGSIZE) → ldb (m_mem s') a = ldb (m_mem s) a).

Lemma freerange_spec s :
  m_kmem s = boot_kmem →
  wp (freerange kend PHYSTOP) (λ _ s', filling s (Z.to_nat (MAXPAGES - first_page)) s') s.
Proof.
  intros Hk. unfold freerange. rewrite PGROUNDUP_kend.
  pose proof kend_range.
  assert (0 <= first_page) by (unfold first_page; apply Z.div_pos; lia).
  replace ((PHYSTOP - first_page * PGSIZE) / PGSIZE) with (MAXPAGES - first_page).
  2:{ replace (PHYSTOP - first_page * PGSIZE) with ((MAXPAGES - first_page) * PGSIZE) by lia.
      by rewrite Z.div_mul. }
  apply wp_bind, (wp_for (λ k s', filling s k s')).
  - split_and!; [done|done|by rewrite Hk|lia|done].
  - intros k s1 Hlt (Hlk & Hr & Hn & Hf & Hmem). apply wp_bind.
    assert (managed (first_page + Z.of_nat k)) as Hman by (apply first_page_managed; lia).
    replace (first_page * PGSIZE + Z.of_nat k * PGSIZE) with ((first_page + Z.of_nat k) * PGSIZE) by lia.
    eapply wp_eq; [apply krelease_run; [done|lia]|].
    apply wp_ret. split_and!; [done|done|simpl; lia| |].
    + intros i Hi. unfold fl. simpl. rewrite fl_insert, Hn. case_tests. apply Hf. lia.
    + intros a Ha. simpl. rewrite memset_out; [by apply Hmem|lia|]. intros Hin. apply Ha.
      assert (in_page (first_page + Z.of_nat k) a = true) as E by (apply in_page_iff; lia).
      rewrite in_page_div in E. by apply Z.eqb_eq in E as ->.
  - intros s' Hs'. by apply wp_ret.
Qed.

Lemma filling_ok s s' k :
  m_kmem s = boot_kmem → filling s k s' → Z.of_nat k = Z.max 0 (MAXPAGES - first_page) →
  kmem_ok (m_kmem s').
Proof.
  intros H0 (_ & Hr & Hn & Hf & _) Hk.
  assert (∀ q, ref (m_kmem s') q = 0) as Href.
  { intros q. unfold ref. by rewrite Hr, H0. }
  split.
  - lia.
  - intros p. rewrite first_page_managed, Href. split.
    + intros (i & Hi & <-). rewrite Hn in Hi. rewrite Hf by lia. lia.
    + intros [Hp _]. exists (p - first_page). rewrite Hn, Hf by lia. lia.
  - rewrite Hn. intros i j Hi Hj. rewrite !Hf by lia. lia.
  - intros p. rewrite Href. lia.
Qed.

(** What [kinit] leaves: the lock, the free pages, and every other page as it was. *)
Definition kinit_post (s s' : machine) : Prop :=
  m_lk s' = set_lock LK_KMEM free_lock (m_lk s) ∧ kmem_ok (m_kmem s') ∧ numfree (m_kmem s') = MAXPAGES - first_page ∧
  (∀ p, ref (m_kmem s') p = 0) ∧ (∀ a, ¬ managed (a / PGSIZE) → ldb (m_mem s') a = ldb (m_mem s) a).

Lemma kinit_spec s :
  m_kmem s = boot_kmem → first_page <= MAXPAGES → wp kinit (λ _ s', kinit_post s s') s.
Proof.
  intros Hk Hf. unfold kinit. apply wp_bind, wp_zoom, wp_modify.
  eapply wp_mono; [by apply freerange_spec|]. intros [] s' Hs. cbv beta in Hs.
  assert (kmem_ok (m_kmem s')) as Hok by (eapply filling_ok; [|done|]; [done|lia]).
  destruct Hs as (Hl & Hr & Hn & _ & Hm). split_and!; [done|done|rewrite Hn; lia| |done].
  intros p. simpl in Hr. rewrite Hk in Hr. unfold ref. by rewrite Hr.
Qed.
End Spec.

(** ** Properties *)

Section Props.
Context `{Linker}.

(** C14 (functional).  Called with the lock free, [kalloc] returns.  Either
    it answers 0, changing nothing, and then every managed page is
    referenced; or it answers the address of a managed page that had no
    reference and now has exactly one, fills it with the byte 5, and leaves
    every other page, every other count and the lock state as they were. *)
Theorem kalloc_correct s :
  kmem_ok (m_kmem s) → lockable LK_KMEM (m_lk s) →
  wp kalloc (λ pa s', alloc_post s pa s' ∧
                      (pa = 0 → ∀ p, managed p → 0 < ref (m_kmem s) p)) s.
Proof.
  intros Hk Hl. eapply wp_mono; [by apply kalloc_spec|]. intros pa s' Hp. split; [done|].
  intros -> p Hm. destruct Hp as (_ & _ & [(_ & Hn & _)|(q & E & Hq & _)]).
  - pose proof (ok_refs _ Hk p). destruct (decide (ref (m_kmem s) p = 0)) as [E|]; [|lia].
    destruct (proj2 (ok_free _ Hk p) (conj Hm E)) as (i & Hi & _). lia.
  - by apply managed_nonzero in Hq.
Qed.

(** [kfree] of a managed page with [r > 0] references
    returns and drops one reference.  The page goes back to the free stack,
    filled with the byte 1, exactly when that was the last one; the stack
    never overflows its array, and nothing else changes. *)
Theorem kfree_correct p s :
  kmem_ok (m_kmem s) → lockable LK_KMEM (m_lk s) → managed p → 0 < ref (m_kmem s) p →
  wp (kfree (p * PGSIZE)) (λ _ s', free_post p s s') s.
Proof. apply kfree_spec. Qed.

(** Freeing a page that is already free panics instead of
    putting it on the free stack twice; freeing an address that is not a
    managed page panics too. *)
Theorem kfree_rejects pa s :
  kmem_ok (m_kmem s) → lockable LK_KMEM (m_lk s) →
  (bad_page pa = true → kfree pa s = Panic "kfree") ∧
  (∀ p, pa = p * PGSIZE → managed p → on_freelist (m_kmem s) p →
     kfree pa s = Panic "kfree: refs below 0").
Proof.
  intros Hk Hl. split.
  - intros Hb. unfold kfree. by rewrite Hb.
  - intros p -> Hm [_ Hr]%(ok_free _ Hk). unfold kfree. rewrite managed_good by done.
    unfold bind at 1, zoom. rewrite acquire_run by done. simpl.
    rewrite managed_shift by done. unfold bind. rewrite get_refs_run by done. simpl.
    rewrite Hr. simpl. rewrite set_refs_run by done. done.
Qed.

(** [kinit] puts every whole page between [end] and
    [PHYSTOP] on the free stack once: the allocator's invariant holds and
    all managed pages are free. *)
Theorem kinit_establishes s :
  m_kmem s = boot_kmem → first_page <= MAXPAGES →
  wp kinit (λ _ s', kmem_ok (m_kmem s') ∧ numfree (m_kmem s') = MAXPAGES - first_page ∧
                    (∀ p, managed p → on_freelist (m_kmem s') p)) s.
Proof.
  intros Hk Hf. eapply wp_mono; [by apply kinit_spec|]. intros [] s' (_ & Hok & Hn & Hr & _).
  split_and!; [done|done|]. intros p Hm. by apply (ok_free _ Hok).
Qed.
End Props.

(** *** A concrete platform and machine *)

#[export] Program Instance demo_linker : Linker := {|
  kend := PHYSTOP - 16 * PGSIZE - 100; etext := KERNBASE + 8 * PGSIZE; trampoline := KERNBASE + 7 * PGSIZE |}.
Next Obligation. done. Qed.
Next Obligation. done. Qed.

Definition demo_lk : lockst := mkLockst 0 true [mkCpu None (srand 1) 0 false] ∅ [].

(** Sixteen free pages, the last one on top of the stack. *)
Definition demo_stack : gmap Z Z := list_to_map (zip (seqZ 0 16) (seqZ (MAXPAGES - 16) 16)).
Definition demo_machine : machine := mkMachine demo_lk ∅ (mkKmem 16 ∅ demo_stack).

Lemma demo_lockable id : lockable id demo_lk.
Proof. split; [|done]. split; [done|]. eexists. split_and!; done. Qed.

Lemma demo_ok : kmem_ok (m_kmem demo_machine).
Proof.
  assert (∀ i, 0 <= i < 16 → fl (m_kmem demo_machine) i = MAXPAGES - 16 + i) as Hfl.
  { assert (Forall (λ i, fl (m_kmem demo_machine) i = MAXPAGES - 16 + i) (seqZ 0 16)) as Hall by (by repeat constructor).
    intros i Hi. rewrite Forall_forall in Hall. apply Hall, elem_of_seqZ. lia. }
  split; simpl.
  - lia.
  - intros p. unfold managed. simpl. split.
    + intros (i & Hi & <-). simpl in Hi. rewrite Hfl by done. split; [lia|done].
    + intros [Hp _]. exists (p - (MAXPAGES - 16)). simpl. rewrite Hfl by lia. lia.
  - intros i j Hi Hj. rewrite !Hfl by lia. lia.
  - intros p. unfold ref. simpl. rewrite lookup_empty. simpl. lia.
Qed.

Lemma kalloc_correct_witness :
  wp kalloc (λ pa s', alloc_post demo_machine pa s' ∧
     (pa = 0 → ∀ p, managed p → 0 < ref (m_kmem demo_machine) p)) demo_machine ∧
  match kalloc demo_machine with
  | Ok (pa, s') => (pa =? PHYSTOP - PGSIZE) && (numfree (m_kmem s') =? 15) = true
  | _ => False
  end.
Proof.
  split; [|vm_compute; reflexivity].
  apply (kalloc_correct demo_machine demo_ok). apply demo_lockable.
Defined.

(** The last page of memory allocated once. *)
Definition demo_used : machine :=
  mkMachine demo_lk ∅ (mkKmem 15 {[MAXPAGES - 1 := 1]} demo_stack).

Lemma demo_used_ok : kmem_ok (m_kmem demo_used).
Proof. apply (pop_ok _ demo_ok). done. Qed.

Lemma kfree_correct_witness :
  0 < ref (m_kmem demo_used) (MAXPAGES - 1) ∧
  wp (kfree ((MAXPAGES - 1) * PGSIZE)) (λ _ s', free_post (MAXPAGES - 1) demo_used s') demo_used.
Proof.
  split; [reflexivity|].
  apply (kfree_correct (MAXPAGES - 1) demo_used demo_used_ok (demo_lockable _)); done.
Defined.

Lemma kfree_rejects_witness :
  kfree ((MAXPAGES - 1) * PGSIZE) demo_machine = Panic "kfree: refs below 0" ∧
  kfree (KERNBASE + 7 * PGSIZE) demo_machine = Panic "kfree".
Proof.
  split.
  - apply (kfree_rejects ((MAXPAGES - 1) * PGSIZE) demo_machine demo_ok (demo_lockable _)) with (MAXPAGES - 1);
      [done|done|]. by exists 15.
  - apply (kfree_rejects (KERNBASE + 7 * PGSIZE) demo_machine demo_ok (demo_lockable _)). done.
Defined.

Lemma kinit_establishes_witness :
  wp kinit (λ _ s', kmem_ok (m_kmem s') ∧ numfree (m_kmem s') = MAXPAGES - first_page ∧
                    (∀ p, managed p → on_freelist (m_kmem s') p))
     (mkMachine demo_lk ∅ boot_kmem).
Proof. apply (kinit_establishes (mkMachine demo_lk ∅ boot_kmem) eq_refl). done. Defined.
