(* ===== verification/Pagetable.v ===== *)
(** * Page tables (kernel/pagetable.c)

    Sv39 three-level page tables in physical memory.  A page-table page is
    512 little-endian 64-bit entries; a [pagetable_t] is the physical address
    of the root page and a [pte_t*] the physical address of an entry (0 is
    the null pointer). *)

From S2P Require Import Prelude Riscv Mem Random Spinlock Kalloc.

(** ** Code *)

Definition load64 (a : Z) : M machine Z := gets (λ s, ld64 (m_mem s) a).
Definition store64 (a v : Z) : M machine unit := memory_op (λ m, st64 m a v).
Definition memsetM (dst c n : Z) : M machine unit := memory_op (λ m, memset m dst c n).

(** [pte & bit] as a condition. *)
Definition has (pte bit : Z) : bool := truthy (Z.land pte bit).

(** [pte & ~bit] on [uint64]. *)
Definition clear (pte bit : Z) : Z := Z.ldiff pte bit.

(** [&pagetable[i]] *)
Definition entry (pagetable i : Z) : Z := pagetable + 8 * i.

(** The range check of the functions that take [[vastart, vaend)]. *)
Definition bad_range (vastart vaend : Z) : bool :=
  (MAXVA <? vaend) || (vaend <? vastart) || truthy (vastart mod PGSIZE) || truthy (vaend mod PGSIZE).

Section Code.
Context `{Linker}.

Definition pgt_new : M machine Z :=
  let! pagetable := kalloc in
  if pagetable =? 0 then ret 0
  else memsetM pagetable 0 PGSIZE ;; ret pagetable.

(** Recursive in C: [depth] bounds the nesting of page tables. *)
Fixpoint pgt_free (depth : nat) (pagetable : Z) : M machine unit :=
  match depth with
  | O => undef
  | S depth' =>
      for_ 512 0 1 (λ i,
        let! pte := load64 (entry pagetable i) in
        if has pte PTE_V && negb (has pte (Z.lor PTE_R (Z.lor PTE_W PTE_X)))
        then pgt_free depth' (PTE2PA pte) ;; store64 (entry pagetable i) 0 ;; ret (@None unit)
        else if has pte PTE_V then panic "pgt_free: leaf"
        else ret None) ;;
      kfree pagetable
  end.

(** The loop of [pgt_walk] from [level] down to 1, then [&pagetable[PX(0, va)]]. *)
Fixpoint walk_loop (level : nat) (pagetable va : Z) (alloc : bool) : M machine Z :=
  match level with
  | O => ret (entry pagetable (PX 0 va))
  | S level' =>
      let pte := entry pagetable (PX (Z.of_nat level) va) in
      let! v := load64 pte in
      if has v PTE_V then walk_loop level' (PTE2PA v) va alloc
      else if negb alloc then ret 0
      else
        let! pt := kalloc in
        if pt =? 0 then ret 0
        else
          memsetM pt 0 PGSIZE ;;
          store64 pte (Z.lor (PA2PTE pt) PTE_V) ;;
          walk_loop level' pt va alloc
  end.

Definition pgt_walk (pagetable va : Z) (alloc : bool) : M machine Z :=
  if MAXVA <=? va then panic "walk" else walk_loop 2 pagetable va alloc.

Definition pgt_getpa (pagetable va : Z) : M machine Z :=
  if MAXVA <=? va then ret 0 else
  let! pte := pgt_walk pagetable va false in
  if pte =? 0 then ret 0 else
  let! v := load64 pte in
  if negb (has v PTE_V) || negb (has v PTE_U) then ret 0 else ret (PTE2PA v).

Definition pgt_map (pagetable va pa flags : Z) : M machine Z :=
  if (MAXVA <=? va) || truthy (va mod PGSIZE) || truthy (pa mod PGSIZE)
  then panic "pgt_map: Invalid addr" else
  let! pte := pgt_walk pagetable va true in
  if pte =? 0 then ret (-1) else
  let! v := load64 pte in
  if has v PTE_V then panic "pgt_map: remap" else
  store64 pte (Z.lor (Z.lor (Z.lor (PA2PTE pa) flags) PTE_V) PTE_U) ;;
  ret 0.

Definition pgt_clearubit (pagetable va : Z) : M machine unit :=
  let! pte := pgt_walk pagetable va false in
  if pte =? 0 then panic "pgt_clearubit" else
  let! v := load64 pte in
  store64 pte (clear v PTE_U).

Definition pgt_unmap_impl (pagetable vastart vaend : Z) (dealloc : bool) : M machine unit :=
  if bad_range vastart vaend then panic "pgt_unmap_impl: Invalid range" else
  for_ (iters vastart vaend PGSIZE) vastart PGSIZE (λ addr,
    let! pte := pgt_walk pagetable addr false in
    if pte =? 0 then ret (@None unit) else
    let! v := load64 pte in
    if negb (has v PTE_V) then ret None else
    if PTE_FLAGS v =? PTE_V then panic "uvmunmap: not a leaf" else
    (if dealloc then kfree (PTE2PA v) else ret tt) ;;
    store64 pte 0 ;;
    ret None) ;;
  ret tt.

Definition pgt_unmap (pagetable vastart vaend : Z) : M machine unit :=
  pgt_unmap_impl pagetable vastart vaend false.

Definition pgt_deallocunmap (pagetable vastart vaend : Z) : M machine unit :=
  pgt_unmap_impl pagetable vastart vaend true.

Definition pgt_allocmap (pagetable vastart vaend flags : Z) : M machine Z :=
  if bad_range vastart vaend then panic "pgt_allocmap: Invalid range" else
  let! r :=
    for_ (iters vastart vaend PGSIZE) vastart PGSIZE (λ addr,
      let! pa := kalloc in
      if pa =? 0 then pgt_deallocunmap pagetable vastart addr ;; ret (Some 0)
      else
        memsetM pa 0 PGSIZE ;;
        let! r := pgt_map pagetable addr pa flags in
        if truthy r then kfree pa ;; pgt_deallocunmap pagetable vastart addr ;; ret (Some 0)
        else ret None) in
  ret (default vaend r).

Definition pgt_clone (src dst vastart vaend : Z) : M machine Z :=
  if bad_range vastart vaend then panic "pgt_clone: Invalid range" else
  let! r :=
    for_ (iters vastart vaend PGSIZE) vastart PGSIZE (λ addr,
      let! srcpte := pgt_walk src addr false in
      if srcpte =? 0 then ret None else
      let! v := load64 srcpte in
      if negb (has v PTE_V) then ret None else
      let pa := PTE2PA v in
      let! dstpte := pgt_walk dst addr true in
      if dstpte =? 0 then pgt_deallocunmap dst vastart addr ;; ret (Some (-1)) else
      let! v := load64 srcpte in
      store64 srcpte (clear v PTE_W) ;;
      let! v := load64 srcpte in
      store64 dstpte v ;;
      kincref pa ;;
      ret None) in
  ret (default 0 r).

(** *** Kernel paging *)

Definition kvmmap (kernel_pagetable va pa sz flags : Z) : M machine unit :=
  if truthy (va mod PGSIZE) || truthy (pa mod PGSIZE) || truthy (sz mod PGSIZE) || (sz <=? 0)
  then panic "kvmmap: Invalid addr" else
  for_ (iters 0 sz PGSIZE) 0 PGSIZE (λ i,
    let! pte := pgt_walk kernel_pagetable (u64 (va + i)) true in
    if pte =? 0 then panic "kvmmap: walk" else
    let! v := load64 pte in
    if has v PTE_V then panic "kvmmap: remap" else
    store64 pte (Z.lor (Z.lor (PA2PTE (u64 (pa + i))) flags) PTE_V) ;;
    ret (@None unit)) ;;
  ret tt.

Abbreviation UART0 := 268435456.         (* 0x10000000L *)
Abbreviation VIRTIO0 := 268439552.       (* 0x10001000 *)
Abbreviation PLIC := 201326592.          (* 0x0c000000L *)
Abbreviation NPROC := 64.
Abbreviation PTE_RW := (Z.lor PTE_R PTE_W).
Abbreviation PTE_RX := (Z.lor PTE_R PTE_X).

(** Answers the new [kernel_pagetable]. *)
Definition kvminit : M machine Z :=
  let! kpt := pgt_new in
  if kpt =? 0 then panic "kernel pagetable = 0" else
  kvmmap kpt UART0 UART0 PGSIZE PTE_RW ;;
  kvmmap kpt VIRTIO0 VIRTIO0 PGSIZE PTE_RW ;;
  kvmmap kpt PLIC PLIC 4194304 PTE_RW ;;
  kvmmap kpt KERNBASE KERNBASE (etext - KERNBASE) PTE_RX ;;
  kvmmap kpt etext etext (PHYSTOP - etext) PTE_RW ;;
  kvmmap kpt TRAMPOLINE trampoline PGSIZE PTE_RX ;;
  for_ 64 0 1 (λ i,
    let! pa := kalloc in
    if pa =? 0 then panic "kvminit: kalloc" else
    kvmmap kpt (KSTACK i) pa PGSIZE PTE_RW ;;
    ret (@None unit)) ;;
  ret kpt.
End Code.
