(* ===== verification/PtSpec.v ===== *)
(** * What a page table is, and the specification of kernel/pagetable.c

    A page table in memory is described by a map [T] from the position of a
    page-table page, a pair (level, prefix of the virtual addresses it
    translates), to its physical page number.  [pt_ok] ties [T] to memory and
    to the allocator; [leaf] is the last-level entry of a virtual address. *)

From S2P Require Import Prelude Riscv Mem Random Spinlock Kalloc Pagetable.

Abbreviation tree := (gmap (Z * Z) Z).

(** ** Positions *)

(** The prefix of [va] at the table of level [l] on its path. *)
Definition kidx (l va : Z) : Z := va / 2 ^ (12 + 9 * (l + 1)).

Lemma kidx_div l va : 0 <= l → kidx (l + 1) va = kidx l va / 512.
Proof.
  intros. unfold kidx. rewrite Z.div_div by lia. f_equal.
  replace (12 + 9 * (l + 1 + 1)) with (12 + 9 * (l + 1) + 9) by lia.
  rewrite Z.pow_add_r by lia. done.
Qed.

Lemma kidx_PX l va : 0 <= l → kidx l va = kidx (l + 1) va * 512 + PX (l + 1) va.
Proof.
  intros. rewrite kidx_div, PX_eq by lia. unfold kidx.
  pose proof (Z.div_mod (va / 2 ^ (12 + 9 * (l + 1))) 512 ltac:(lia)). lia.
Qed.

Lemma kidx_root va : 0 <= va < MAXVA → kidx 2 va = 0.
Proof. intros. unfold kidx. apply Z.div_small. change (2 ^ (12 + 9 * (2 + 1))) with 549755813888. lia. Qed.

Lemma kidx0_PX va : va / PGSIZE = kidx 0 va * 512 + PX 0 va.
Proof.
  rewrite PX_eq by lia. unfold kidx. change (2 ^ (12 + 9 * (0 + 1))) with (PGSIZE * 512).
  change (2 ^ (12 + 9 * 0)) with PGSIZE. rewrite <- Z.div_div by lia.
  pose proof (Z.div_mod (va / PGSIZE) 512 ltac:(lia)). lia.
Qed.

Lemma kidx_nonneg l va : 0 <= l → 0 <= va → 0 <= kidx l va.
Proof. intros. apply Z.div_pos; lia. Qed.

(** ** The invariant *)

Section Inv.
Context `{Linker}.

Record pt_ok (m : mem) (k : kmem) (T : tree) (root : Z) : Prop := {
  pt_root : T !! (2, 0) = Some (root / PGSIZE) ∧ aligned root;
  pt_keys : ∀ l q p, T !! (l, q) = Some p → 0 <= l <= 2 ∧ 0 <= q ∧ (l = 2 → q = 0);
  pt_pages : ∀ x p, T !! x = Some p → managed p ∧ ref k p = 1;
  pt_inj : ∀ x y p, T !! x = Some p → T !! y = Some p → x = y;
  pt_up : ∀ l q p, T !! (l, q) = Some p → l < 2 → is_Some (T !! (l + 1, q / 512));
  pt_entry : ∀ l q p i, 0 < l → T !! (l, q) = Some p → 0 <= i < 512 →
    match T !! (l - 1, q * 512 + i) with
    | Some c => ld64 m (entry (p * PGSIZE) i) = Z.lor (PA2PTE (c * PGSIZE)) PTE_V
    | None => has (ld64 m (entry (p * PGSIZE) i)) PTE_V = false
    end
}.

(** The address of the last-level entry of [va], 0 when there is no
    last-level table for it. *)
Definition slot (T : tree) (va : Z) : Z :=
  match T !! (0, kidx 0 va) with
  | Some p => entry (p * PGSIZE) (PX 0 va)
  | None => 0
  end.

Definition leaf (m : mem) (T : tree) (va : Z) : Z :=
  match T !! (0, kidx 0 va) with
  | Some p => ld64 m (entry (p * PGSIZE) (PX 0 va))
  | None => 0
  end.

(** The page is one of the page-table pages. *)
Definition is_table (T : tree) (p : Z) : Prop := ∃ x, T !! x = Some p.

(** An entry lies inside its page. *)
Lemma entry_in_page p i b : 0 <= i < 512 → entry (p * PGSIZE) i <= b < entry (p * PGSIZE) i + 8 → in_page p b = true.
Proof. unfold entry. intros. apply in_page_iff. lia. Qed.

Lemma entry_page p i : 0 <= i < 512 → in_page p (entry (p * PGSIZE) i) = true.
Proof. intros. eapply entry_in_page; [done|]. unfold entry. lia. Qed.

Lemma managed_entry_nonzero p i : managed p → 0 <= i → entry (p * PGSIZE) i ≠ 0.
Proof. intros Hm Hi. pose proof (kend_range). destruct Hm. unfold entry. lia. Qed.

(** Entries of two different places do not overlap. *)
Lemma ld64_st64_entry m p i q j v :
  0 <= i < 512 → 0 <= j < 512 → (p, i) ≠ (q, j) →
  ld64 (st64 m (entry (p * PGSIZE) i) v) (entry (q * PGSIZE) j) = ld64 m (entry (q * PGSIZE) j).
Proof.
  intros Hi Hj Hne. apply ld_st_out. unfold entry. simpl.
  destruct (decide (p = q)) as [->|]; [|lia].
  assert (i ≠ j) by congruence. lia.
Qed.

(** The invariant only looks at the table pages and their counts. *)
Lemma ld64_page m m' p i :
  0 <= i < 512 → (∀ a, in_page p a = true → ldb m' a = ldb m a) →
  ld64 m' (entry (p * PGSIZE) i) = ld64 m (entry (p * PGSIZE) i).
Proof. intros Hi Hm. apply ld_ext. intros b Hb. apply Hm. by eapply entry_in_page. Qed.

Lemma pt_ok_ext m m' k k' T root :
  (∀ p a, is_table T p → in_page p a = true → ldb m' a = ldb m a) →
  (∀ p, is_table T p → ref k' p = ref k p) →
  pt_ok m k T root → pt_ok m' k' T root.
Proof.
  intros Hm Hr [R1 R2 R3 R4 R5 R6]. split; try done.
  - intros x p Hx. destruct (R3 _ _ Hx). rewrite Hr by (by exists x). done.
  - intros l q p i Hl Hp Hi. rewrite (ld64_page m m'); [by apply R6|done|].
    intros a Ha. eapply Hm; [by eexists|done].
Qed.

Lemma leaf_ext m m' T va :
  (∀ p a, is_table T p → in_page p a = true → ldb m' a = ldb m a) → leaf m' T va = leaf m T va.
Proof.
  intros Hm. unfold leaf. destruct (T !! _) as [p|] eqn:E; [|done].
  apply ld64_page; [apply PX_bound|]. intros a. apply Hm. by eexists.
Qed.

(** Interior entries decode to the child's address. *)
Lemma pt_child m k T root l q p i :
  pt_ok m k T root → 0 < l → T !! (l, q) = Some p → 0 <= i < 512 →
  match T !! (l - 1, q * 512 + i) with
  | Some c => has (ld64 m (entry (p * PGSIZE) i)) PTE_V = true ∧
              PTE2PA (ld64 m (entry (p * PGSIZE) i)) = c * PGSIZE ∧ managed c
  | None => has (ld64 m (entry (p * PGSIZE) i)) PTE_V = false
  end.
Proof.
  intros Hok Hl Hp Hi. pose proof (pt_entry _ _ _ _ Hok l q p i Hl Hp Hi) as E.
  destruct (T !! (l - 1, q * 512 + i)) as [c|] eqn:Ec; [|done].
  destruct (pt_pages _ _ _ _ Hok _ _ Ec) as [Hm _].
  pose proof (managed_paddr _ Hm) as Hpa. rewrite E. split_and!; [|by apply PTE2PA_mk|done].
  unfold has. rewrite land_flags, PTE_FLAGS_mk by done || lia. done.
Qed.

(** No table at a level, none below it on the same path. *)
Lemma pt_missing m k T root va l :
  pt_ok m k T root → 0 <= l < 2 → T !! (l, kidx l va) = None → T !! (0, kidx 0 va) = None.
Proof.
  intros Hok Hl Hn. destruct (decide (l = 0)) as [->|]; [done|].
  assert (l = 1) as -> by lia.
  destruct (T !! (0, kidx 0 va)) as [c|] eqn:E; [|done].
  destruct (pt_up _ _ _ _ Hok _ _ _ E) as [x Hx]; [lia|].
  rewrite <- kidx_div in Hx by lia. change (0 + 1) with 1 in Hx. congruence.
Qed.

(** ** Walking without allocation *)

Lemma walk_loop_false n m k T root va s p alloc :
  m_mem s = m → pt_ok m k T root → 0 <= va → alloc = false ∨ is_Some (T !! (0, kidx 0 va)) →
  T !! (Z.of_nat n, kidx (Z.of_nat n) va) = Some p →
  walk_loop n (p * PGSIZE) va alloc s = Ok (slot T va, s).
Proof.
  intros Hm Hok Hva Hal. revert p. induction n as [|n IH]; intros p Hp.
  - unfold slot. simpl. change (Z.of_nat 0) with 0 in Hp. by rewrite Hp.
  - cbn [walk_loop]. unfold bind, load64, gets. rewrite Hm.
    replace (Z.of_nat (S n)) with (Z.of_nat n + 1) in * by lia.
    pose proof (pt_keys _ _ _ _ Hok _ _ _ Hp) as [Hkey _].
    pose proof (pt_child _ _ _ _ (Z.of_nat n + 1) _ _ (PX (Z.of_nat n + 1) va) Hok ltac:(lia) Hp (PX_bound _ _)) as Hc.
    replace (Z.of_nat n + 1 - 1) with (Z.of_nat n) in Hc by lia.
    rewrite <- kidx_PX in Hc by lia.
    destruct (T !! (Z.of_nat n, kidx (Z.of_nat n) va)) as [c|] eqn:Ec.
    + destruct Hc as (-> & -> & _). by apply IH.
    + rewrite Hc. destruct Hal as [->|[x Hx]].
      2: { by rewrite (pt_missing _ _ _ _ va (Z.of_nat n) Hok) in Hx by (lia || done). }
      simpl. unfold ret, slot.
      rewrite (pt_missing _ _ _ _ va (Z.of_nat n) Hok) by (lia || done). done.
Qed.

Lemma root_page m k T root : pt_ok m k T root → root = root / PGSIZE * PGSIZE.
Proof.
  intros Hok. destruct (pt_root _ _ _ _ Hok) as [_ Hal]. unfold aligned in Hal.
  pose proof (Z.div_mod root PGSIZE ltac:(lia)). lia.
Qed.

Lemma pgt_walk_run T root va s alloc :
  pt_ok (m_mem s) (m_kmem s) T root → 0 <= va < MAXVA →
  alloc = false ∨ is_Some (T !! (0, kidx 0 va)) →
  pgt_walk root va alloc s = Ok (slot T va, s).
Proof.
  intros Hok Hva Hal. unfold pgt_walk. rewrite (proj2 (Z.leb_gt _ _)) by lia.
  rewrite (root_page _ _ _ _ Hok).
  eapply (walk_loop_false 2); [done|done|lia|done|].
  change (Z.of_nat 2) with 2. rewrite kidx_root by done. apply Hok.
Qed.

Lemma pgt_walk_false T root va s :
  pt_ok (m_mem s) (m_kmem s) T root → 0 <= va < MAXVA →
  pgt_walk root va false s = Ok (slot T va, s).
Proof. intros. apply pgt_walk_run; auto. Qed.
End Inv.

(** ** Growing a page table *)

Section Grow.
Context `{Linker}.

(** A page whose contents matter: every page outside the allocator, and
    the pages of the allocator with references. *)
Definition live (s : machine) (p : Z) : Prop := managed p → 0 < ref (m_kmem s) p.

(** From [s] to [s'] the page table [T] changed to [T'] by page-table pages
    that were free before, its last-level entries are now those of [L], the
    count of page [p] changed by [R p], and the pages live in both states
    that are not page-table pages have the contents they had. *)
Record grows (s : machine) (T : tree) (s' : machine) (T' : tree) (L R : Z → Z) : Prop := {
  g_sub : T ⊆ T';
  g_lk : m_lk s' ≡ m_lk s;
  g_kmem : kmem_ok (m_kmem s');
  g_new : ∀ x p, T' !! x = Some p → T !! x = None → ref (m_kmem s) p = 0;
  g_ref : ∀ p, ref (m_kmem s') p = ref (m_kmem s) p + R p ∨
               (ref (m_kmem s) p = 0 ∧ is_table T' p);
  g_mem : ∀ a, ¬ is_table T' (a / PGSIZE) → live s (a / PGSIZE) → live s' (a / PGSIZE) →
               ldb (m_mem s') a = ldb (m_mem s) a;
  g_leaf : ∀ va, leaf (m_mem s') T' va = L va
}.

Lemma grows_refl s T : kmem_ok (m_kmem s) → grows s T s T (leaf (m_mem s) T) (λ _, 0).
Proof. intros. split; eauto; [congruence|]. intros. left. lia. Qed.

Lemma is_table_sub T T' p : T ⊆ T' → is_table T p → is_table T' p.
Proof. intros Hs [x Hx]. exists x. by eapply lookup_weaken. Qed.

Lemma grows_ext s T s' T' L L' R R' :
  (∀ va, L va = L' va) → (∀ p, R p = R' p) → grows s T s' T' L R → grows s T s' T' L' R'.
Proof.
  intros E E' []. split; try done.
  - intros p. rewrite <- E'. done.
  - intros va. rewrite <- E. done.
Qed.

Lemma grows_trans s1 T1 s2 T2 s3 T3 L2 L3 R2 R3 :
  kmem_ok (m_kmem s1) → (∀ p, 0 <= R2 p) →
  grows s1 T1 s2 T2 L2 R2 → grows s2 T2 s3 T3 L3 R3 →
  grows s1 T1 s3 T3 L3 (λ p, R2 p + R3 p).
Proof.
  intros Hk HR G1 G2. split.
  - etrans; [apply (g_sub _ _ _ _ _ _ G1)|apply (g_sub _ _ _ _ _ _ G2)].
  - etrans; [apply (g_lk _ _ _ _ _ _ G2)|apply (g_lk _ _ _ _ _ _ G1)].
  - apply (g_kmem _ _ _ _ _ _ G2).
  - intros x p Hx Hn. destruct (T2 !! x) as [p2|] eqn:E.
    + assert (T3 !! x = Some p2) as E3 by (eapply lookup_weaken; [done|apply (g_sub _ _ _ _ _ _ G2)]).
      replace p with p2 by congruence. by eapply (g_new _ _ _ _ _ _ G1).
    + pose proof (g_new _ _ _ _ _ _ G2 _ _ Hx E). pose proof (HR p). pose proof (ok_refs _ Hk p).
      destruct (g_ref _ _ _ _ _ _ G1 p) as [Hr|[Hr _]]; lia.
  - intros p. pose proof (HR p). pose proof (ok_refs _ Hk p).
    destruct (g_ref _ _ _ _ _ _ G1 p) as [R1|[R1 R1']], (g_ref _ _ _ _ _ _ G2 p) as [R2'|[R2' R2'']].
    + left. lia.
    + right. split; [lia|done].
    + right. split; [done|]. eapply is_table_sub; [apply (g_sub _ _ _ _ _ _ G2)|done].
    + by right.
  - intros a Ha H1 H3.
    assert (¬ is_table T2 (a / PGSIZE)) as Ha2.
    { intros Hx. apply Ha. eapply is_table_sub; [apply (g_sub _ _ _ _ _ _ G2)|done]. }
    assert (live s2 (a / PGSIZE)) as H2.
    { intros Hm. specialize (H1 Hm). pose proof (HR (a / PGSIZE)).
      destruct (g_ref _ _ _ _ _ _ G1 (a / PGSIZE)) as [|[]]; lia. }
    rewrite (g_mem _ _ _ _ _ _ G2 a) by done. by apply (g_mem _ _ _ _ _ _ G1).
  - apply (g_leaf _ _ _ _ _ _ G2).
Qed.

(** The special case of a first step without new references. *)
Lemma grows_trans0 s1 T1 s2 T2 s3 T3 L2 L3 R3 :
  kmem_ok (m_kmem s1) → grows s1 T1 s2 T2 L2 (λ _, 0) → grows s2 T2 s3 T3 L3 R3 →
  grows s1 T1 s3 T3 L3 R3.
Proof.
  intros Hk G1 G2. eapply grows_ext; [| |by eapply grows_trans; [|..|exact G1|exact G2]]; [done|].
  intros. simpl. lia.
Qed.

(** The state after a table page [c] has been hung below entry [i] of the
    table page [p]. *)
Definition hang_table (m : mem) (p i c : Z) : mem :=
  st64 (memset m (c * PGSIZE) 0 PGSIZE) (entry (p * PGSIZE) i)
       (Z.lor (PA2PTE (c * PGSIZE)) PTE_V).

Lemma hang_table_out m p i c a :
  0 <= i < 512 → in_page p a = false → in_page c a = false →
  ldb (hang_table m p i c) a = ldb m a.
Proof.
  intros Hi Hp Hc. unfold hang_table. rewrite ldb_st_out.
  - rewrite memset_out; [done|lia|]. intros Ha.
    rewrite (proj2 (in_page_iff c a)) in Hc; [done|lia].
  - intros Ha. rewrite (entry_in_page p i a) in Hp; done.
Qed.

Lemma hang_table_entry m p i c :
  managed c → ld64 (hang_table m p i c) (entry (p * PGSIZE) i) = Z.lor (PA2PTE (c * PGSIZE)) PTE_V.
Proof.
  intros Hc. apply ld64_st64. apply PTE_mk_bound; [by apply managed_paddr|lia].
Qed.

Lemma hang_table_other m p i c q j :
  0 <= i < 512 → 0 <= j < 512 → (p, i) ≠ (q, j) → q ≠ c →
  ld64 (hang_table m p i c) (entry (q * PGSIZE) j) = ld64 m (entry (q * PGSIZE) j).
Proof.
  intros Hi Hj Hne Hqc. unfold hang_table. rewrite ld64_st64_entry by done.
  apply ld64_page; [done|]. intros a Ha. apply memset_out; [lia|].
  pose proof (in_page_ne _ _ _ Hqc Ha) as Hc. intros Hin.
  rewrite (proj2 (in_page_iff c a)) in Hc; [done|lia].
Qed.

Lemma hang_table_zero m p i c j :
  0 <= i < 512 → 0 <= j < 512 → p ≠ c → ld64 (hang_table m p i c) (entry (c * PGSIZE) j) = 0.
Proof.
  intros Hi Hj Hpc. unfold hang_table. rewrite ld64_st64_entry by (done || congruence).
  apply ld_zero. intros b Hb. apply memset_in. apply in_page_iff.
  by eapply entry_in_page.
Qed.

(** Adding the page [c] at entry [i] of the table at [(l, q)]. *)
Lemma hang_pt_ok m k k' T root l q p i c :
  pt_ok m k T root → T !! (l, q) = Some p → 0 < l → 0 <= i < 512 →
  T !! (l - 1, q * 512 + i) = None → managed c → ¬ is_table T c →
  ref k' c = 1 → (∀ p, is_table T p → ref k' p = ref k p) →
  pt_ok (hang_table m p i c) k' (<[(l - 1, q * 512 + i) := c]> T) root.
Proof.
  intros Hok Hp Hl Hi Hnone Hc Hct Hr1 Hr.
  set (x := (l - 1, q * 512 + i)) in *.
  assert (∀ y p, T !! y = Some p → y ≠ x ∧ p ≠ c) as Hold.
  { intros y p' Hy. split; [congruence|]. intros ->. apply Hct. by exists y. }
  destruct (pt_keys _ _ _ _ Hok _ _ _ Hp) as (Hl2 & Hq & _).
  split.
  - destruct (pt_root _ _ _ _ Hok) as [R1 R2]. split; [|done].
    rewrite lookup_insert_ne; [done|]. intros E. by destruct (Hold _ _ R1).
  - intros l' q' p'. destruct (decide (x = (l', q'))) as [E|E].
    + rewrite E, lookup_insert_eq. injection E as <- <-. intros [= <-]. lia.
    + rewrite lookup_insert_ne by done. apply (pt_keys _ _ _ _ Hok).
  - intros y p'. destruct (decide (x = y)) as [<-|].
    + rewrite lookup_insert_eq. by intros [= <-].
    + rewrite lookup_insert_ne by done. intros Hy. rewrite Hr by (by eexists).
      by eapply (pt_pages _ _ _ _ Hok).
  - intros y z p'. destruct (decide (x = y)) as [<-|], (decide (x = z)) as [<-|];
      rewrite ?lookup_insert_eq, ?lookup_insert_ne by done; try done.
    + intros [= <-] Hz. by destruct (Hold _ _ Hz).
    + intros Hy [= <-]. by destruct (Hold _ _ Hy).
    + apply (pt_inj _ _ _ _ Hok).
  - intros l' q' p'. destruct (decide (x = (l', q'))) as [E|E].
    + injection E as <- <-. intros _ _. replace (l - 1 + 1) with l by lia.
      replace ((q * 512 + i) / 512) with q by (rewrite Z.div_add_l, Z.div_small; lia).
      rewrite lookup_insert_ne; [eauto|]. intros E. by destruct (Hold _ _ Hp).
    + rewrite lookup_insert_ne by done. intros Hy Hlt.
      destruct (pt_up _ _ _ _ Hok _ _ _ Hy Hlt) as [z Hz].
      rewrite lookup_insert_ne; [eauto|]. intros E'. by destruct (Hold _ _ Hz).
  - intros l' q' p' j Hl' Hy Hj. destruct (decide (x = (l', q'))) as [E|E].
    + rewrite E, lookup_insert_eq in Hy. injection Hy as <-.
      rewrite hang_table_zero; [|done|done|by destruct (Hold _ _ Hp)].
      rewrite lookup_insert_ne by (unfold x in E; injection E; intros; subst; injection; lia).
      destruct (T !! (l' - 1, q' * 512 + j)) as [d|] eqn:Ed; [|done]. exfalso.
      injection E as <- <-.
      destruct (pt_up _ _ _ _ Hok _ _ _ Ed) as [z Hz]; [lia|].
      replace ((((q * 512 + i) * 512 + j) / 512)) with (q * 512 + i) in Hz
        by (rewrite Z.div_add_l, (Z.div_small j); lia).
      replace (l - 1 - 1 + 1) with (l - 1) in Hz by lia. by destruct (Hold _ _ Hz).
    + rewrite lookup_insert_ne in Hy by done.
      destruct (decide (x = (l' - 1, q' * 512 + j))) as [E2|E2].
      * assert (l' = l ∧ q' = q ∧ j = i) as (-> & -> & ->) by (injection E2; lia).
        assert (p' = p) as -> by congruence. rewrite E2, lookup_insert_eq.
        by apply hang_table_entry.
      * rewrite lookup_insert_ne by done. rewrite hang_table_other; [|done|done| |by destruct (Hold _ _ Hy)].
        { by apply (pt_entry _ _ _ _ Hok). }
        intros [= -> ->]. apply E2. by injection (pt_inj _ _ _ _ Hok _ _ _ Hp Hy) as <- <-.
Qed.

Lemma hang_leaf m k T root l q p i c va :
  pt_ok m k T root → T !! (l, q) = Some p → 0 < l → 0 <= i < 512 →
  T !! (l - 1, q * 512 + i) = None → ¬ is_table T c →
  leaf (hang_table m p i c) (<[(l - 1, q * 512 + i) := c]> T) va = leaf m T va.
Proof.
  intros Hok Hp Hl Hi Hnone Hct. unfold leaf.
  assert (∀ y p, T !! y = Some p → p ≠ c) as Hold.
  { intros y p' Hy ->. apply Hct. by exists y. }
  destruct (decide ((l - 1, q * 512 + i) = (0, kidx 0 va))) as [E|E].
  - rewrite <- E, lookup_insert_eq, Hnone. apply hang_table_zero; [done|apply PX_bound|by eapply Hold].
  - rewrite lookup_insert_ne by done. destruct (T !! (0, kidx 0 va)) as [p'|] eqn:E'; [|done].
    apply hang_table_other; [done|apply PX_bound| |by eapply Hold].
    intros [= -> ->]. pose proof (pt_inj _ _ _ _ Hok _ _ _ Hp E') as [= ->]. lia.
Qed.

Lemma hang_grows s s1 T root l q p i c :
  pt_ok (m_mem s) (m_kmem s) T root → alloc_post s (c * PGSIZE) s1 → managed c →
  T !! (l, q) = Some p → 0 < l → 0 <= i < 512 → T !! (l - 1, q * 512 + i) = None →
  let s2 := set_mem (hang_table (m_mem s1) p i c) s1 in
  let T' := <[(l - 1, q * 512 + i) := c]> T in
  grows s T s2 T' (leaf (m_mem s) T) (λ _, 0) ∧ pt_ok (m_mem s2) (m_kmem s2) T' root.
Proof.
  intros Hok (Hlk & Hk & [(E & _)|(c' & E & Hc & Hr0 & Hn & Hr & Hm)]) Hc' Hp Hl Hi Hnone s2 T'.
  { by apply managed_nonzero in Hc'. }
  assert (c' = c) as -> by lia. clear Hc'.
  assert (¬ is_table T c) as Hct.
  { intros [y Hy]. apply (pt_pages _ _ _ _ Hok) in Hy as [_ Hy]. lia. }
  assert (∀ a, in_page c a = false → ldb (m_mem s1) a = ldb (m_mem s) a) as Hout.
  { intros a Ha. by rewrite Hm, Ha. }
  assert (∀ y p, T !! y = Some p → p ≠ c) as Hold.
  { intros y p' Hy ->. apply Hct. by exists y. }
  assert (pt_ok (m_mem s1) (m_kmem s1) T root) as Hok1.
  { eapply pt_ok_ext; [| |exact Hok].
    - intros p' a [y Hy] Ha. apply Hout. eapply in_page_ne; [|done]. by eapply Hold.
    - intros p' [y Hy]. rewrite Hr. destruct (Z.eqb_spec p' c) as [->|]; [|done].
      by destruct (Hold _ _ Hy). }
  assert (∀ p', is_table T' p' ↔ p' = c ∨ is_table T p') as Htab.
  { intros p'. unfold is_table, T'. split.
    - intros [y Hy]. destruct (decide ((l - 1, q * 512 + i) = y)) as [<-|].
      + rewrite lookup_insert_eq in Hy. left. congruence.
      + rewrite lookup_insert_ne in Hy by done. eauto.
    - intros [->|[y Hy]].
      + eexists. apply lookup_insert_eq.
      + exists y. rewrite lookup_insert_ne; [done|]. congruence. }
  split.
  - split; simpl.
    + by apply insert_subseteq.
    + done.
    + done.
    + intros y p'. unfold T'. destruct (decide ((l - 1, q * 512 + i) = y)) as [<-|].
      * rewrite lookup_insert_eq. by intros [= <-].
      * rewrite lookup_insert_ne by done. congruence.
    + intros p'. rewrite Hr. destruct (Z.eqb_spec p' c) as [->|]; [|left; lia].
      right. split; [done|]. apply Htab. by left.
    + intros a Ha _ _. rewrite Htab in Ha. rewrite hang_table_out; [apply Hout|done|..].
      all: rewrite in_page_div; apply Z.eqb_neq; intros E'; apply Ha; rewrite E'.
      * by left.
      * right. by exists (l, q).
      * by left.
    + intros va. unfold T'. erewrite hang_leaf; [|done..].
      apply leaf_ext. intros p' a [y Hy] Ha. apply Hout. eapply in_page_ne; [|done]. by eapply Hold.
  - simpl. apply (hang_pt_ok _ (m_kmem s1)); try done.
    rewrite Hr, Z.eqb_refl. done.
Qed.

(** ** Walking with allocation *)

Definition walk_post (root va : Z) (s : machine) (T : tree) (a : Z) (s' : machine) : Prop :=
  ∃ T', grows s T s' T' (leaf (m_mem s) T) (λ _, 0) ∧ pt_ok (m_mem s') (m_kmem s') T' root ∧
    ((a = 0 ∧ numfree (m_kmem s') = 0) ∨ (a = slot T' va ∧ is_Some (T' !! (0, kidx 0 va)))).

(** The table pages that were added are on the path of [va], and every one of them
    came from the free pages. *)
Definition tables_added (va : Z) (s : machine) (T : tree) (s' : machine) (T' : tree) : Prop :=
  numfree (m_kmem s') + Z.of_nat (size T') = numfree (m_kmem s) + Z.of_nat (size T) ∧
  ∀ x, is_Some (T' !! x) → is_Some (T !! x) ∨ x = (0, kidx 0 va) ∨ x = (1, kidx 1 va).

(** The same, with the count of the table pages. *)
Definition walk_count_post (root va : Z) (s : machine) (T : tree) (a : Z) (s' : machine) : Prop :=
  ∃ T', grows s T s' T' (leaf (m_mem s) T) (λ _, 0) ∧ pt_ok (m_mem s') (m_kmem s') T' root ∧
    tables_added va s T s' T' ∧
    ((a = 0 ∧ numfree (m_kmem s') = 0 ∧ (T' !! (0, kidx 0 va) = None)) ∨
     (a = slot T' va ∧ is_Some (T' !! (0, kidx 0 va)))).

Lemma tables_added_refl va s T : tables_added va s T s T.
Proof. split; [done|]. by left. Qed.

Lemma hang_added (n : nat) (va : Z) (s : machine) (c : Z) (s1 : machine) (T : tree) :
  alloc_post s (c * PGSIZE) s1 → managed c → (n < 2)%nat → T !! (Z.of_nat n, kidx (Z.of_nat n) va) = None →
  numfree (m_kmem s1) + Z.of_nat (size (<[(Z.of_nat n, kidx (Z.of_nat n) va) := c]> T)) =
    numfree (m_kmem s) + Z.of_nat (size T) ∧
  ∀ x, is_Some (<[(Z.of_nat n, kidx (Z.of_nat n) va) := c]> T !! x) →
    is_Some (T !! x) ∨ x = (0, kidx 0 va) ∨ x = (1, kidx 1 va).
Proof.
  intros (_ & _ & [(E & _)|(p & _ & _ & _ & Hn & _)]) Hc Hlt Hnone; [by apply managed_nonzero in Hc|].
  split; [rewrite map_size_insert_None by done; lia|]. intros x [v Hx].
  apply lookup_insert_Some in Hx as [[<- _]|[_ Hx]]; [|left; eauto].
  right. assert (n = 0 ∨ n = 1)%nat as [->| ->] by lia; [by left|by right].
Qed.

Lemma walk_loop_true n va root s T p :
  pt_ok (m_mem s) (m_kmem s) T root → kmem_ok (m_kmem s) → lockable LK_KMEM (m_lk s) →
  T !! (Z.of_nat n, kidx (Z.of_nat n) va) = Some p →
  wp (walk_loop n (p * PGSIZE) va true) (walk_count_post root va s T) s.
Proof.
  revert s T p. induction n as [|n IH]; intros s T p Hok Hk Hl Hp.
  { change (Z.of_nat 0) with 0 in Hp. apply wp_ret. exists T.
    split_and!; [by apply grows_refl|done|apply tables_added_refl|]. right. unfold slot. rewrite Hp. eauto. }
  pose proof (pt_keys _ _ _ _ Hok _ _ _ Hp) as [Hn2 _].
  cbn [walk_loop]. apply wp_bind, wp_gets.
  replace (Z.of_nat (S n)) with (Z.of_nat n + 1) in * by lia.
  set (i := PX (Z.of_nat n + 1) va) in *.
  assert (0 <= i < 512) as Hi by apply PX_bound.
  pose proof (pt_child _ _ _ _ (Z.of_nat n + 1) _ _ i Hok ltac:(lia) Hp Hi) as Hc.
  pose proof (hang_grows s) as Hg. specialize Hg with (T := T) (i := i) (p := p).
  specialize (Hg) with (l := Z.of_nat n + 1) (q := kidx (Z.of_nat n + 1) va) (root := root).
  replace (Z.of_nat n + 1 - 1) with (Z.of_nat n) in Hc, Hg by lia.
  unfold i in Hc, Hg. rewrite <- kidx_PX in Hc, Hg by lia. fold i in Hc, Hg.
  destruct (T !! (Z.of_nat n, kidx (Z.of_nat n) va)) as [c|] eqn:Ec.
  { destruct Hc as (-> & -> & _). by apply IH. }
  rewrite Hc. simpl. eapply wp_step; [by apply kalloc_spec|].
  intros pa s1 Hpost. case_test.
  { apply wp_ret. destruct Hpost as (Hlk & Hk1 & [(_ & Hn & Em & Ek)|(p' & -> & Hm & _)]).
    - exists T. split_and!; [|by rewrite Em, Ek|unfold tables_added; rewrite Ek; auto|].
      2:{ left. rewrite Ek. split_and!; [done|done|]. by apply (pt_missing _ _ _ _ va (Z.of_nat n) Hok); [lia|]. }
      split; rewrite ?Em, ?Ek; try done; eauto; [congruence|]. intros. left. lia.
    - by apply managed_nonzero in Hm. }
  assert (∃ c, pa = c * PGSIZE ∧ managed c) as (c & -> & Hm).
  { destruct Hpost as (_ & _ & [(? & _)|(c & ? & ? & _)]); [done|eauto]. }
  destruct (Hg s1 c) as [G Hok2]; [done|done|done|done|lia|done|done|].
  destruct (hang_added n va s c s1 T) as [A1 A2]; [done|done|lia|done|].
  apply wp_bind, wp_modify, wp_bind, wp_modify.
  eapply wp_mono; [apply (IH _ (<[(Z.of_nat n, kidx (Z.of_nat n) va) := c]> T))|].
  - exact Hok2.
  - apply G.
  - simpl. rewrite (g_lk _ _ _ _ _ _ G). done.
  - apply lookup_insert_eq.
  - intros a s' (T' & G' & Hok' & [B1 B2] & Hres). exists T'. split_and!; [|done| |done].
    + eapply grows_ext; [| |by eapply grows_trans0; [|exact G|exact G']]; [|done].
      apply (g_leaf _ _ _ _ _ _ G).
    + split; [simpl in B1; lia|]. intros x [Hx|Hx]%B2; auto.
Qed.

Lemma pgt_walk_count T root va s :
  pt_ok (m_mem s) (m_kmem s) T root → kmem_ok (m_kmem s) → lockable LK_KMEM (m_lk s) →
  0 <= va < MAXVA →
  wp (pgt_walk root va true) (walk_count_post root va s T) s.
Proof.
  intros Hok Hk Hl Hva. unfold pgt_walk. rewrite (proj2 (Z.leb_gt _ _)) by lia.
  rewrite (root_page _ _ _ _ Hok). rewrite (root_page _ _ _ _ Hok) in Hok.
  apply walk_loop_true; [done..|].
  change (Z.of_nat 2) with 2. rewrite kidx_root by done.
  destruct (pt_root _ _ _ _ Hok) as [R _]. rewrite Z.div_mul in R by lia. done.
Qed.

Lemma pgt_walk_true T root va s :
  pt_ok (m_mem s) (m_kmem s) T root → kmem_ok (m_kmem s) → lockable LK_KMEM (m_lk s) →
  0 <= va < MAXVA →
  wp (pgt_walk root va true) (walk_post root va s T) s.
Proof.
  intros. eapply wp_mono; [by apply pgt_walk_count|]. intros a s' (T' & G & Hok & _ & Hr).
  exists T'. split_and!; [done..|]. destruct Hr as [(? & ? & _)|?]; auto.
Qed.
End Grow.

(** ** Changing a last-level entry *)

Section Leaf.
Context `{Linker}.

Lemma vpn_eq va va' :
  va' / PGSIZE = va / PGSIZE ↔ kidx 0 va' = kidx 0 va ∧ PX 0 va' = PX 0 va.
Proof.
  rewrite !kidx0_PX. pose proof (PX_bound 0 va). pose proof (PX_bound 0 va'). lia.
Qed.

Lemma slot_Some T va p : T !! (0, kidx 0 va) = Some p → slot T va = entry (p * PGSIZE) (PX 0 va).
Proof. unfold slot. by intros ->. Qed.

Lemma leaf_slot m T va p : T !! (0, kidx 0 va) = Some p → leaf m T va = ld64 m (slot T va).
Proof. intros E. rewrite (slot_Some _ _ _ E). unfold leaf. by rewrite E. Qed.

Lemma leaf_bound m T va : 0 <= leaf m T va < 2 ^ 64.
Proof. unfold leaf. destruct (T !! _); [apply ld64_bound|lia]. Qed.

Lemma leaf_store m k T root va v va' p :
  pt_ok m k T root → T !! (0, kidx 0 va) = Some p → 0 <= v < 2 ^ 64 →
  leaf (st64 m (slot T va) v) T va' = if va' / PGSIZE =? va / PGSIZE then v else leaf m T va'.
Proof.
  intros Hok Hp Hv. rewrite (slot_Some _ _ _ Hp). unfold leaf.
  destruct (Z.eqb_spec (va' / PGSIZE) (va / PGSIZE)) as [E|E].
  - apply vpn_eq in E as [-> ->]. rewrite Hp. by apply ld64_st64.
  - destruct (T !! (0, kidx 0 va')) as [p'|] eqn:E'; [|done].
    apply ld64_st64_entry; [apply PX_bound..|]. intros [= -> HPX].
    pose proof (pt_inj _ _ _ _ Hok _ _ _ Hp E') as [= HK]. apply E. by apply vpn_eq.
Qed.

(** A store to a last-level entry touches one table page only. *)
Lemma store_out m T va v p a :
  T !! (0, kidx 0 va) = Some p → in_page p a = false → ldb (st64 m (slot T va) v) a = ldb m a.
Proof.
  intros Hp Ha. rewrite (slot_Some _ _ _ Hp). apply ldb_st_out. intros Hb.
  rewrite (entry_in_page p (PX 0 va) a) in Ha; [done|apply PX_bound|done].
Qed.

Lemma pt_ok_store m k T root va v p :
  pt_ok m k T root → T !! (0, kidx 0 va) = Some p → pt_ok (st64 m (slot T va) v) k T root.
Proof.
  intros Hok Hp. destruct Hok as [R1 R2 R3 R4 R5 R6] eqn:E. split; try done.
  intros l q p' i Hl Hp' Hi. rewrite (slot_Some _ _ _ Hp), ld64_st64_entry; [by apply R6|apply PX_bound|done|].
  intros [= -> _]. pose proof (R4 _ _ _ Hp Hp') as [= <-]. lia.
Qed.

(** Replacing the entry of [va] by [v]. *)
Lemma grows_store s T s1 T1 L R root va v p :
  grows s T s1 T1 L R → pt_ok (m_mem s1) (m_kmem s1) T1 root →
  T1 !! (0, kidx 0 va) = Some p → 0 <= v < 2 ^ 64 →
  let s2 := set_mem (st64 (m_mem s1) (slot T1 va) v) s1 in
  grows s T s2 T1 (λ va', if va' / PGSIZE =? va / PGSIZE then v else L va') R ∧
  pt_ok (m_mem s2) (m_kmem s2) T1 root.
Proof.
  intros G Hok Hp Hv s2. split; [|by eapply pt_ok_store].
  destruct G as [G1 G2 G3 G4 G5 G6 G7]. split; try done.
  - intros a Ha Hl1 Hl2. change (m_mem s2) with (st64 (m_mem s1) (slot T1 va) v).
    erewrite store_out; [by apply G6|done|].
    rewrite in_page_div. apply Z.eqb_neq. intros E. apply Ha. rewrite E. by eexists.
  - intros va'. change (m_mem s2) with (st64 (m_mem s1) (slot T1 va) v).
    erewrite leaf_store by done. by rewrite G7.
Qed.

(** A page in use that is not a page-table page of [T] is not one of [T']. *)
Lemma grows_table s T s' T' L R p :
  grows s T s' T' L R → 0 < ref (m_kmem s) p → ¬ is_table T p → ¬ is_table T' p.
Proof.
  intros G Hr Ht [x Hx]. destruct (T !! x) as [p'|] eqn:E.
  - apply Ht. exists x. rewrite E. f_equal.
    pose proof (lookup_weaken _ _ _ _ E (g_sub _ _ _ _ _ _ G)). congruence.
  - pose proof (g_new _ _ _ _ _ _ G _ _ Hx E). lia.
Qed.

(** *** pgt_map *)

Definition mk_leaf (pa flags : Z) : Z := Z.lor (Z.lor (Z.lor (PA2PTE pa) flags) PTE_V) PTE_U.

Lemma lor_bound10 a b : 0 <= a < 1024 → 0 <= b < 1024 → 0 <= Z.lor a b < 1024.
Proof.
  intros Ha Hb. split; [apply Z.lor_nonneg; lia|].
  destruct (decide (Z.lor a b = 0)) as [->|]; [lia|].
  apply (Z.log2_lt_pow2 _ 10); [pose proof (proj2 (Z.lor_nonneg a b)); lia|].
  rewrite Z.log2_lor by lia. apply Z.max_lub_lt.
  - destruct (decide (a = 0)) as [->|]; [done|apply Z.log2_lt_pow2; lia].
  - destruct (decide (b = 0)) as [->|]; [done|apply Z.log2_lt_pow2; lia].
Qed.

Lemma mk_leaf_eq pa flags :
  mk_leaf pa flags = Z.lor (PA2PTE pa) (Z.lor (Z.lor flags PTE_V) PTE_U).
Proof. unfold mk_leaf. by rewrite !Z.lor_assoc. Qed.

Lemma mk_leaf_bound pa flags : paddr pa → 0 <= flags < 1024 → 0 <= mk_leaf pa flags < 2 ^ 64.
Proof. intros. rewrite mk_leaf_eq. apply PTE_mk_bound; [done|]. repeat apply lor_bound10; lia. Qed.

Lemma mk_leaf_pa pa flags : paddr pa → 0 <= flags < 1024 → PTE2PA (mk_leaf pa flags) = pa.
Proof. intros. rewrite mk_leaf_eq. apply PTE2PA_mk; [done|]. repeat apply lor_bound10; lia. Qed.

Lemma mk_leaf_flags pa flags :
  paddr pa → 0 <= flags < 1024 → PTE_FLAGS (mk_leaf pa flags) = Z.lor (Z.lor flags PTE_V) PTE_U.
Proof. intros. rewrite mk_leaf_eq. apply PTE_FLAGS_mk; [done|]. repeat apply lor_bound10; lia. Qed.

Definition map_post (root va pa flags : Z) (s : machine) (T : tree) (r : Z) (s' : machine) : Prop :=
  ∃ T', pt_ok (m_mem s') (m_kmem s') T' root ∧
    ((r = -1 ∧ grows s T s' T' (leaf (m_mem s) T) (λ _, 0) ∧ numfree (m_kmem s') = 0) ∨
     (r = 0 ∧ grows s T s' T' (λ va', if va' / PGSIZE =? va / PGSIZE then mk_leaf pa flags
                                      else leaf (m_mem s) T va') (λ _, 0))).

Lemma slot_nonzero m k T root va p :
  pt_ok m k T root → T !! (0, kidx 0 va) = Some p → slot T va ≠ 0.
Proof.
  intros Hok Hp. rewrite (slot_Some _ _ _ Hp). apply managed_entry_nonzero.
  - by eapply (pt_pages _ _ _ _ Hok). - apply PX_bound.
Qed.

Lemma pgt_map_spec T root va pa flags s :
  pt_ok (m_mem s) (m_kmem s) T root → kmem_ok (m_kmem s) → lockable LK_KMEM (m_lk s) →
  0 <= va < MAXVA → aligned va → paddr pa → 0 <= flags < 1024 →
  has (leaf (m_mem s) T va) PTE_V = false →
  wp (pgt_map root va pa flags) (map_post root va pa flags s T) s.
Proof.
  intros Hok Hk Hl Hva Hal Hpa Hf Hinv. unfold pgt_map.
  rewrite (proj2 (Z.leb_gt _ _)) by lia. unfold truthy.
  destruct Hpa as [Hpa Hpal]. rewrite Hal, Hpal. simpl.
  eapply wp_step; [by eapply pgt_walk_true|]. intros a s1 (T1 & G & Hok1 & [[-> Hn]|[-> [p Hp]]]).
  { simpl. apply wp_ret. exists T1. split; [done|]. by left. }
  rewrite (proj2 (Z.eqb_neq _ _)) by (by eapply slot_nonzero).
  apply wp_bind, wp_gets. rewrite <- (leaf_slot _ _ _ _ Hp), (g_leaf _ _ _ _ _ _ G), Hinv.
  apply wp_bind, wp_modify, wp_ret.
  destruct (grows_store _ _ _ _ _ _ _ va (mk_leaf pa flags) p G Hok1 Hp) as [G2 Hok2].
  { by apply mk_leaf_bound. }
  exists T1. split; [exact Hok2|]. right. split; [done|]. exact G2.
Qed.

(** Mapping an address that is already mapped is refused. *)
Lemma pgt_map_remap T root va pa flags s :
  pt_ok (m_mem s) (m_kmem s) T root → 0 <= va < MAXVA → aligned va → paddr pa →
  has (leaf (m_mem s) T va) PTE_V = true →
  pgt_map root va pa flags s = Panic "pgt_map: remap".
Proof.
  intros Hok Hva Hal [Hpa Hpal] Hv. unfold pgt_map.
  rewrite (proj2 (Z.leb_gt _ _)) by lia. unfold truthy. rewrite Hal, Hpal. simpl.
  assert (∃ p, T !! (0, kidx 0 va) = Some p) as [p Hp].
  { unfold leaf in Hv. destruct (T !! _); [eauto|done]. }
  unfold bind at 1. rewrite (pgt_walk_run T) by eauto.
  rewrite (proj2 (Z.eqb_neq _ _)) by (by eapply slot_nonzero).
  unfold bind, load64, gets. rewrite <- (leaf_slot _ _ _ _ Hp), Hv. done.
Qed.
End Leaf.
