(* ===== verification/PtRange.v ===== *)
(** * Specification of the operations on ranges of a page table
    (kernel/pagetable.c)

    Unmapping, allocating and cloning [[vastart, vaend)]: the effect on the
    last-level entries, on the reference counts of the pages they name and on
    the contents of every page. *)

From Stdlib Require Import ZifyBool.
From S2P Require Import Prelude Riscv Mem Random Spinlock Kalloc Pagetable PtSpec.

(** ** Pages named by a range *)

(** The entry is valid and names page [p]. *)
Definition points_to (v p : Z) : bool := has v PTE_V && (PTE2PA v =? p * PGSIZE).

(** How many of the [n] pages from [a] are mapped to page [p]. *)
Fixpoint maps (L : Z → Z) (a : Z) (n : nat) (p : Z) : Z :=
  match n with
  | O => 0
  | S n => maps L a n p + b2z (points_to (L (a + Z.of_nat n * PGSIZE)) p)
  end.

(** [va] lies in one of the [n] pages from [a]. *)
Definition in_range (a : Z) (n : nat) (va : Z) : bool :=
  (a / PGSIZE <=? va / PGSIZE) && (va / PGSIZE <? a / PGSIZE + Z.of_nat n).

Definition same_page (va va' : Z) : bool := va / PGSIZE =? va' / PGSIZE.

Lemma maps_nonneg L a n p : 0 <= maps L a n p.
Proof. induction n; simpl; [lia|]. unfold b2z. case_match; lia. Qed.

Lemma maps_mono L a n n' p : (n <= n')%nat → maps L a n p <= maps L a n' p.
Proof. induction 1; simpl; [lia|]. unfold b2z. case_match; lia. Qed.

Lemma maps_ext L L' a n p :
  (∀ i, 0 <= i < Z.of_nat n → L (a + i * PGSIZE) = L' (a + i * PGSIZE)) → maps L a n p = maps L' a n p.
Proof.
  induction n as [|n IH]; simpl; intros E; [done|]. rewrite IH, E; [done|lia|]. intros. apply E. lia.
Qed.

Lemma maps_zero L a n p :
  (∀ i, 0 <= i < Z.of_nat n → has (L (a + i * PGSIZE)) PTE_V = false) → maps L a n p = 0.
Proof.
  induction n as [|n IH]; simpl; intros E; [done|]. rewrite IH by (intros; apply E; lia).
  unfold points_to. rewrite E by lia. done.
Qed.

Lemma page_step a i : aligned a → (a + i * PGSIZE) / PGSIZE = a / PGSIZE + i.
Proof. intros _. rewrite Z.div_add by lia. done. Qed.

Lemma in_range_0 a va : in_range a 0 va = false.
Proof. unfold in_range. lia. Qed.

Lemma in_range_S a n va :
  in_range a (S n) va = in_range a n va || same_page va (a + Z.of_nat n * PGSIZE).
Proof. unfold in_range, same_page. rewrite Z.div_add by lia. lia. Qed.

Lemma in_range_next a n : in_range a n (a + Z.of_nat n * PGSIZE) = false.
Proof. unfold in_range. rewrite Z.div_add by lia. lia. Qed.

Lemma in_range_in a n i : in_range a n (a + i * PGSIZE) = (0 <=? i) && (i <? Z.of_nat n).
Proof. unfold in_range. rewrite Z.div_add by lia. lia. Qed.

Lemma in_range_true a n i : 0 <= i < Z.of_nat n → in_range a n (a + i * PGSIZE) = true.
Proof. rewrite in_range_in. lia. Qed.

(** The loop bounds of a range that passes the check. *)
Lemma good_range a n :
  aligned a → 0 <= a → a + Z.of_nat n * PGSIZE <= MAXVA →
  bad_range a (a + Z.of_nat n * PGSIZE) = false ∧ iters a (a + Z.of_nat n * PGSIZE) PGSIZE = n.
Proof.
  intros Ha H0 Hb. split.
  - unfold bad_range, truthy. rewrite Z.mod_add, Ha by lia. simpl. lia.
  - unfold iters. replace (a + Z.of_nat n * PGSIZE - a + PGSIZE - 1) with (PGSIZE - 1 + Z.of_nat n * PGSIZE) by lia.
    rewrite Z.div_add by lia. change ((PGSIZE - 1) / PGSIZE) with 0. lia.
Qed.

Section Unmap.
Context `{Linker}.

(** The valid entries of the range are leaves and, when the pages are to be
    released, name pages of the allocator that are not page-table pages. *)
Definition leaf_ok (T : tree) (dealloc : bool) (v : Z) : Prop :=
  has v PTE_V = true → PTE_FLAGS v ≠ PTE_V ∧
    (dealloc = true → ∃ p, PTE2PA v = p * PGSIZE ∧ managed p ∧ ¬ is_table T p).

Definition unmapped (L : Z → Z) (a : Z) (n : nat) (va : Z) : Z :=
  if in_range a n va && has (L va) PTE_V then 0 else L va.

Record shrinks (root : Z) (T : tree) (a : Z) (n : nat) (dealloc : bool) (s s' : machine) : Prop := {
  sh_lk : m_lk s' ≡ m_lk s;
  sh_kmem : kmem_ok (m_kmem s');
  sh_pt : pt_ok (m_mem s') (m_kmem s') T root;
  sh_leaf : ∀ va, leaf (m_mem s') T va = unmapped (leaf (m_mem s) T) a n va;
  sh_ref : ∀ p, ref (m_kmem s') p =
                ref (m_kmem s) p - if dealloc then maps (leaf (m_mem s) T) a n p else 0;
  sh_mem : ∀ x, ¬ is_table T (x / PGSIZE) → live s' (x / PGSIZE) →
    ldb (m_mem s') x = ldb (m_mem s) x;
  sh_num : numfree (m_kmem s) <= numfree (m_kmem s')
}.

(** Clearing the entry of [va]. *)
Lemma clear_entry s T root va p :
  pt_ok (m_mem s) (m_kmem s) T root → T !! (0, kidx 0 va) = Some p →
  let m' := st64 (m_mem s) (slot T va) 0 in
  pt_ok m' (m_kmem s) T root ∧
  (∀ va', leaf m' T va' = if same_page va' va then 0 else leaf (m_mem s) T va') ∧
  (∀ x, ¬ is_table T (x / PGSIZE) → ldb m' x = ldb (m_mem s) x).
Proof.
  intros Hok Hp m'. split_and!.
  - by eapply pt_ok_store.
  - intros va'. unfold m'. by erewrite leaf_store by done.
  - intros x Hx. unfold m'. erewrite store_out; [done|done|].
    rewrite in_page_div. apply Z.eqb_neq. intros E. apply Hx. rewrite E. by eexists.
Qed.

(** Releasing a page that is not a table page keeps the page table. *)
Lemma free_keeps s s' T root p :
  pt_ok (m_mem s) (m_kmem s) T root → free_post p s s' → ¬ is_table T p → managed p →
  pt_ok (m_mem s') (m_kmem s') T root ∧ (∀ va, leaf (m_mem s') T va = leaf (m_mem s) T va) ∧
  (∀ x, live s' (x / PGSIZE) → ldb (m_mem s') x = ldb (m_mem s) x).
Proof.
  intros Hok (Hlk & Hk & Hr & Hn & Hm) Hp Hpm.
  assert (∀ q a, is_table T q → in_page q a = true → ldb (m_mem s') a = ldb (m_mem s) a) as Hmem.
  { intros q a Hq Ha. rewrite Hm, (in_page_ne q p a), andb_false_r; [done| |done]. by intros ->. }
  split_and!.
  - eapply pt_ok_ext; [exact Hmem| |done]. intros q Hq. rewrite Hr.
    destruct (Z.eqb_spec q p) as [->|]; done.
  - intros va. by apply leaf_ext.
  - intros x Hx. rewrite Hm, in_page_div. pose proof (Hr (x / PGSIZE)) as Hrx.
    destruct (Z.eqb_spec (x / PGSIZE) p) as [E|]; [|by rewrite andb_false_r].
    rewrite E in *. specialize (Hx Hpm). rewrite (proj2 (Z.eqb_neq _ _)) by lia. done.
Qed.

Lemma shrinks_0 root T a dealloc s :
  pt_ok (m_mem s) (m_kmem s) T root → kmem_ok (m_kmem s) → shrinks root T a 0 dealloc s s.
Proof.
  intros. split; try done.
  - intros va. unfold unmapped. by rewrite in_range_0.
  - intros p. destruct dealloc; simpl; lia.
Qed.

(** A page of the range without a valid entry is left as it is. *)
Lemma shrinks_skip root T a n dealloc s s' :
  shrinks root T a n dealloc s s' →
  has (leaf (m_mem s) T (a + Z.of_nat n * PGSIZE)) PTE_V = false →
  (∀ va va', same_page va va' = true → leaf (m_mem s) T va = leaf (m_mem s) T va') →
  shrinks root T a (S n) dealloc s s'.
Proof.
  intros [] Hv Hpg. split; try done.
  - intros va. rewrite sh_leaf0. unfold unmapped. rewrite in_range_S.
    destruct (same_page va _) eqn:E; [|by rewrite orb_false_r].
    rewrite (Hpg _ _ E), Hv, !andb_false_r. done.
  - intros p. rewrite sh_ref0. simpl. unfold points_to. rewrite Hv. simpl. destruct dealloc; lia.
Qed.

Lemma leaf_page m T va va' : same_page va va' = true → leaf m T va = leaf m T va'.
Proof.
  unfold same_page. intros E%Z.eqb_eq. apply vpn_eq in E as [E1 E2]. unfold leaf. by rewrite E1, E2.
Qed.

Lemma unmapped_next L a n : unmapped L a n (a + Z.of_nat n * PGSIZE) = L (a + Z.of_nat n * PGSIZE).
Proof. unfold unmapped. by rewrite in_range_next. Qed.

(** The valid entry of the next page is cleared, after its page has been
    released when [dealloc]. *)
Lemma shrinks_clear root T a n dealloc s s1 s2 p :
  let va := a + Z.of_nat n * PGSIZE in
  shrinks root T a n dealloc s s1 → T !! (0, kidx 0 va) = Some p →
  has (leaf (m_mem s) T va) PTE_V = true →
  (if dealloc then ∃ q, PTE2PA (leaf (m_mem s) T va) = q * PGSIZE ∧ ¬ is_table T q ∧
                        managed q ∧ 0 < ref (m_kmem s1) q ∧ free_post q s1 s2
   else s2 = s1) →
  shrinks root T a (S n) dealloc s (set_mem (st64 (m_mem s2) (slot T va) 0) s2).
Proof.
  intros va Hsh Hp Hv Hd.
  assert (m_lk s2 ≡ m_lk s1 ∧ kmem_ok (m_kmem s2) ∧ pt_ok (m_mem s2) (m_kmem s2) T root ∧
          (∀ va, leaf (m_mem s2) T va = leaf (m_mem s1) T va) ∧
          (∀ q, ref (m_kmem s2) q = ref (m_kmem s1) q -
                  if dealloc then b2z (points_to (leaf (m_mem s) T va) q) else 0) ∧
          (∀ x, live s2 (x / PGSIZE) → ldb (m_mem s2) x = ldb (m_mem s1) x) ∧
          numfree (m_kmem s1) <= numfree (m_kmem s2)) as (Hlk & Hk & Hok & HL & Hr & Hm & Hn).
  { destruct dealloc; [|subst s2; destruct Hsh; split_and!; auto; lia].
    destruct Hd as (q & Epa & Hq & Hqm & Hpos & Hf). pose proof Hf as (? & ? & Hr & Hn & _).
    destruct (free_keeps _ _ _ _ _ (sh_pt _ _ _ _ _ _ _ Hsh) Hf Hq Hqm) as (? & ? & Hm).
    split_and!; try done.
    - intros q'. rewrite Hr. unfold points_to. rewrite Hv, Epa. simpl. unfold b2z. case_tests.
    - rewrite Hn. unfold b2z. case_match; lia. }
  destruct (clear_entry s2 T root va p Hok Hp) as (Hok' & HL' & Hm').
  destruct Hsh as [S1 S2 S3 S4 S5 S6 S7]. split; try done; simpl.
  - by rewrite Hlk.
  - intros va'. rewrite HL', HL, S4. unfold unmapped. rewrite in_range_S. fold va.
    destruct (same_page va' va) eqn:E; [|by rewrite orb_false_r].
    rewrite (leaf_page _ _ _ _ E), Hv, orb_true_r. done.
  - intros q. rewrite Hr, S5. simpl. fold va. destruct dealloc; lia.
  - intros x Hx Hlive. rewrite Hm', Hm, S6; [done|done|..|done|done].
    intros Hmg. specialize (Hlive Hmg). simpl in Hlive. rewrite Hr in Hlive.
    destruct dealloc; [|lia]. unfold b2z in Hlive. case_match; lia.
  - lia.
Qed.

Lemma pgt_unmap_impl_spec T root a n dealloc s :
  pt_ok (m_mem s) (m_kmem s) T root → kmem_ok (m_kmem s) → lockable LK_KMEM (m_lk s) →
  aligned a → 0 <= a → a + Z.of_nat n * PGSIZE <= MAXVA →
  (∀ i, 0 <= i < Z.of_nat n → leaf_ok T dealloc (leaf (m_mem s) T (a + i * PGSIZE))) →
  (dealloc = true → ∀ p, maps (leaf (m_mem s) T) a n p <= ref (m_kmem s) p) →
  wp (pgt_unmap_impl root a (a + Z.of_nat n * PGSIZE) dealloc)
     (λ _ s', shrinks root T a n dealloc s s') s.
Proof.
  intros Hok Hk Hl Ha H0 Hb Hleaf Hmaps. unfold pgt_unmap_impl.
  destruct (good_range a n Ha H0 Hb) as [-> ->].
  apply wp_bind, (wp_for (λ k s', shrinks root T a k dealloc s s')).
  { by apply shrinks_0. }
  2: { intros s' Hs'. by apply wp_ret. }
  intros k s1 Hkn Hs1. set (va := a + Z.of_nat k * PGSIZE).
  eapply wp_bind, wp_eq.
  { apply (pgt_walk_false T); [by apply Hs1|]. unfold va. lia. }
  assert (leaf (m_mem s1) T va = leaf (m_mem s) T va) as EL.
  { rewrite (sh_leaf _ _ _ _ _ _ _ Hs1). apply unmapped_next. }
  destruct (T !! (0, kidx 0 va)) as [p|] eqn:Hp.
  2: { unfold slot. rewrite Hp. simpl. apply wp_ret. apply shrinks_skip; [done|..|by intros; apply leaf_page].
       fold va. unfold leaf. by rewrite Hp. }
  rewrite (proj2 (Z.eqb_neq _ _)) by (eapply slot_nonzero; [by apply Hs1|done]).
  apply wp_bind, wp_gets. rewrite <- (leaf_slot _ _ _ _ Hp), EL.
  destruct (has (leaf (m_mem s) T va) PTE_V) eqn:Hv; simpl.
  2: { apply wp_ret. apply shrinks_skip; [done..|by intros; apply leaf_page]. }
  destruct (Hleaf (Z.of_nat k) ltac:(lia) Hv) as [Hfl Hpg].
  rewrite (proj2 (Z.eqb_neq _ _)) by done.
  pose proof (shrinks_clear root T a k dealloc s s1) as Hclear.
  destruct dealloc.
  - destruct (Hpg eq_refl) as (q & Epa & Hqm & Hqt). fold va in Epa. rewrite Epa.
    assert (0 < ref (m_kmem s1) q) as Hpos.
    { rewrite (sh_ref _ _ _ _ _ _ _ Hs1). pose proof (Hmaps eq_refl q) as Hq.
      pose proof (maps_mono (leaf (m_mem s) T) a (S k) n q ltac:(lia)) as Hmono. simpl in Hmono.
      fold va in Hmono. unfold points_to in Hmono. rewrite Hv, Epa, Z.eqb_refl in Hmono. simpl in Hmono. lia. }
    eapply wp_step; [apply kfree_spec; [by apply Hs1| |done|done]|].
    { by rewrite (sh_lk _ _ _ _ _ _ _ Hs1). }
    intros [] s2 Hf. apply wp_bind, wp_modify, wp_ret. by eapply Hclear; eauto 10.
  - apply wp_bind, wp_ret, wp_bind, wp_modify, wp_ret. by eapply Hclear.
Qed.
End Unmap.

(** ** Allocating a range *)

Section Alloc.
Context `{Linker}.

Definition zero_page (m : mem) (p : Z) : Prop := ∀ a, in_page p a = true → ldb m a = 0.

(** A released range undoes the references its entries hold. *)
Lemma grows_shrinks s T s1 T1 s2 L R root a n :
  grows s T s1 T1 L R → pt_ok (m_mem s1) (m_kmem s1) T1 root → kmem_ok (m_kmem s1) →
  shrinks root T1 a n true s1 s2 →
  grows s T s2 T1 (unmapped L a n) (λ p, R p - maps L a n p).
Proof.
  intros G Hok Hk [S1 S2 S3 S4 S5 S6 S7].
  assert (∀ p, maps (leaf (m_mem s1) T1) a n p = maps L a n p) as EL.
  { intros p. apply maps_ext. intros. apply (g_leaf _ _ _ _ _ _ G). }
  split.
  - apply G.
  - rewrite S1. apply G.
  - done.
  - apply G.
  - intros p. rewrite S5, EL. destruct (g_ref _ _ _ _ _ _ G p) as [E|]; [left; lia|by right].
  - intros x Hx Hl1 Hl2. rewrite S6; [|done|done]. apply (g_mem _ _ _ _ _ _ G); [done|done|].
    intros Hm. specialize (Hl2 Hm). rewrite S5, EL in Hl2. pose proof (maps_nonneg L a n (x / PGSIZE)). lia.
  - intros va. rewrite S4. unfold unmapped. by rewrite (g_leaf _ _ _ _ _ _ G).
Qed.

(** A page fresh from the allocator, cleared. *)
Lemma alloc_grows s s1 T root p :
  pt_ok (m_mem s) (m_kmem s) T root → kmem_ok (m_kmem s) → alloc_post s (p * PGSIZE) s1 → managed p →
  let s2 := set_mem (memset (m_mem s1) (p * PGSIZE) 0 PGSIZE) s1 in
  grows s T s2 T (leaf (m_mem s) T) (λ q, b2z (q =? p)) ∧ pt_ok (m_mem s2) (m_kmem s2) T root ∧
  ref (m_kmem s) p = 0 ∧ ref (m_kmem s2) p = 1 ∧ zero_page (m_mem s2) p ∧ ¬ is_table T p.
Proof.
  intros Hok Hk (Hlk & Hk1 & [(E & _)|(p' & E & Hp & Hr0 & Hn & Hr & Hm)]) Hp' s2.
  { by apply managed_nonzero in Hp'. }
  assert (p' = p) as -> by lia. clear Hp' E.
  assert (¬ is_table T p) as Hpt.
  { intros [y Hy]. apply (pt_pages _ _ _ _ Hok) in Hy as [_ Hy]. lia. }
  assert (∀ a, in_page p a = false → ldb (m_mem s2) a = ldb (m_mem s) a) as Hout.
  { intros a Ha. unfold s2. simpl. rewrite memset_out; [by rewrite Hm, Ha|lia|].
    intros Hin. rewrite (proj2 (in_page_iff p a)) in Ha; [done|lia]. }
  assert (∀ q a, is_table T q → in_page q a = true → ldb (m_mem s2) a = ldb (m_mem s) a) as Htab.
  { intros q a Hq Ha. apply Hout. eapply in_page_ne; [|done]. by intros ->. }
  split_and!; try done.
  - split; try done.
    + congruence.
    + intros q. left. simpl. rewrite Hr. unfold b2z. case_tests.
    + intros a Ha Hl _. apply Hout. rewrite in_page_div. apply Z.eqb_neq. intros E.
      rewrite E in Hl. specialize (Hl Hp). lia.
    + intros va. by apply leaf_ext.
  - eapply pt_ok_ext; [exact Htab| |done]. intros q Hq. simpl. rewrite Hr.
    destruct (Z.eqb_spec q p) as [->|]; done.
  - simpl. by rewrite Hr, Z.eqb_refl.
  - intros a Ha. unfold s2. simpl. rewrite memset_in; [done|]. by apply in_page_iff.
Qed.

(** A data page of a freshly allocated range. *)
Definition fresh_page (s s' : machine) (T' : tree) (flags v : Z) : Prop :=
  ∃ p, v = mk_leaf (p * PGSIZE) flags ∧ managed p ∧ ref (m_kmem s) p = 0 ∧
       ref (m_kmem s') p = 1 ∧ ¬ is_table T' p ∧ zero_page (m_mem s') p.

Definition filled (root : Z) (s : machine) (T : tree) (a : Z) (n : nat) (flags : Z)
    (s' : machine) (T' : tree) : Prop :=
  let L' := leaf (m_mem s') T' in
  grows s T s' T' L' (maps L' a n) ∧ pt_ok (m_mem s') (m_kmem s') T' root ∧
  (∀ va, in_range a n va = false → L' va = leaf (m_mem s) T va) ∧
  (∀ i, 0 <= i < Z.of_nat n → fresh_page s s' T' flags (L' (a + i * PGSIZE))).

Definition allocmap_post (root : Z) (s : machine) (T : tree) (a : Z) (n : nat) (flags r : Z)
    (s' : machine) : Prop :=
  ∃ T', (r = a + Z.of_nat n * PGSIZE ∧ filled root s T a n flags s' T') ∨
    (r = 0 ∧ pt_ok (m_mem s') (m_kmem s') T' root ∧
     ∃ k, (k < n)%nat ∧
       grows s T s' T' (λ va, if in_range a k va then 0 else leaf (m_mem s) T va) (λ _, 0)).

Lemma maps_absent L a n p :
  (∀ i, 0 <= i < Z.of_nat n → points_to (L (a + i * PGSIZE)) p = false) → maps L a n p = 0.
Proof.
  induction n as [|n IH]; simpl; intros E; [done|]. rewrite IH by (intros; apply E; lia).
  rewrite E by lia. done.
Qed.

(** Releasing the entries of a range takes back the references they hold. *)
Lemma undo_spec root s T s1 T1 L a n :
  grows s T s1 T1 L (maps L a n) → pt_ok (m_mem s1) (m_kmem s1) T1 root →
  kmem_ok (m_kmem s) → lockable LK_KMEM (m_lk s) →
  aligned a → 0 <= a → a + Z.of_nat n * PGSIZE <= MAXVA →
  (∀ va, in_range a n va = false → L va = leaf (m_mem s) T va) →
  (∀ va, in_range a n va = true → has (L va) PTE_V = false → L va = 0) →
  (∀ i, 0 <= i < Z.of_nat n → leaf_ok T1 true (L (a + i * PGSIZE))) →
  wp (pgt_deallocunmap root a (a + Z.of_nat n * PGSIZE))
     (λ _ s', pt_ok (m_mem s') (m_kmem s') T1 root ∧
        grows s T s' T1 (λ va, if in_range a n va then 0 else leaf (m_mem s) T va) (λ _, 0)) s1.
Proof.
  intros G Hok Hk Hl Ha H0 Hb Hout Hzero Hin.
  assert (∀ p, maps (leaf (m_mem s1) T1) a n p = maps L a n p) as EL.
  { intros p. apply maps_ext. intros. apply (g_leaf _ _ _ _ _ _ G). }
  eapply wp_mono; [apply (pgt_unmap_impl_spec T1)|]; try done.
  - apply G.
  - by rewrite (g_lk _ _ _ _ _ _ G).
  - intros i Hi. rewrite (g_leaf _ _ _ _ _ _ G). by apply Hin.
  - intros _ p. rewrite EL. pose proof (ok_refs _ Hk p).
    destruct (g_ref _ _ _ _ _ _ G p) as [E|[_ Ht]]; [lia|].
    rewrite maps_absent; [apply (ok_refs _ (g_kmem _ _ _ _ _ _ G))|]. intros i Hi.
    unfold points_to. destruct (has _ _) eqn:Hv; [simpl|done]. apply Z.eqb_neq. intros E.
    destruct (Hin i Hi Hv) as [_ (q & Eq & _ & Hq)]; [done|].
    assert (q = p) as -> by lia. done.
  - intros [] s' Hsh. split; [by apply Hsh|].
    eapply grows_ext; [| |by eapply grows_shrinks; [exact G|exact Hok|apply G|exact Hsh]].
    + intros va. unfold unmapped. destruct (in_range a n va) eqn:E; simpl; [|by apply Hout].
      destruct (has (L va) PTE_V) eqn:Hv; [done|]. by apply Hzero.
    + intros p. simpl. lia.
Qed.

Lemma grows_free s T s1 T1 s2 L R root p :
  grows s T s1 T1 L R → pt_ok (m_mem s1) (m_kmem s1) T1 root → free_post p s1 s2 →
  ¬ is_table T1 p → managed p →
  grows s T s2 T1 L (λ q, R q - b2z (q =? p)) ∧ pt_ok (m_mem s2) (m_kmem s2) T1 root.
Proof.
  intros G Hok Hf Hp Hm. destruct (free_keeps _ _ _ _ _ Hok Hf Hp Hm) as (Hok2 & HL & Hmem).
  destruct Hf as (Hlk & Hk & Hr & _). split; [|done]. split; try apply G; try done.
  - rewrite Hlk. apply G.
  - intros q. rewrite Hr. destruct (g_ref _ _ _ _ _ _ G q) as [E|[E Ht]].
    + left. unfold b2z. case_tests.
    + right. done.
  - intros a Ha H1 H2. rewrite Hmem by done. apply (g_mem _ _ _ _ _ _ G); [done|done|].
    intros Hmg. specialize (H2 Hmg). rewrite Hr in H2. case_match; lia.
  - intros va. rewrite HL. apply (g_leaf _ _ _ _ _ _ G).
Qed.

Lemma lor_VU flags : Z.lor (Z.lor flags PTE_V) PTE_U ≠ PTE_V.
Proof.
  intros E. assert (Z.testbit (Z.lor (Z.lor flags PTE_V) PTE_U) 4 = false) as Hb by (rewrite E; done).
  rewrite Z.lor_spec in Hb. by rewrite orb_true_r in Hb.
Qed.

Lemma mk_leaf_V pa flags : has (mk_leaf pa flags) PTE_V = true.
Proof.
  unfold has, truthy. apply negb_true_iff, Z.eqb_neq. intros E.
  assert (Z.testbit (Z.land (mk_leaf pa flags) PTE_V) 0 = false) as Hb by (rewrite E; done).
  unfold mk_leaf in Hb. rewrite Z.land_spec, !Z.lor_spec in Hb.
  change (Z.testbit PTE_V 0) with true in Hb. by rewrite orb_true_r in Hb.
Qed.

Lemma points_mk_leaf p flags q :
  managed p → 0 <= flags < 1024 → points_to (mk_leaf (p * PGSIZE) flags) q = (q =? p).
Proof.
  intros Hp Hf. unfold points_to. rewrite mk_leaf_V, mk_leaf_pa by (done || by apply managed_paddr). lia.
Qed.

Lemma fresh_leaf_ok s s' T' flags v :
  0 <= flags < 1024 → fresh_page s s' T' flags v → has v PTE_V = true ∧ leaf_ok T' true v.
Proof.
  intros Hf (p & -> & Hm & _ & _ & Ht & _). split; [apply mk_leaf_V|]. intros _.
  rewrite mk_leaf_flags, mk_leaf_pa by (done || by apply managed_paddr).
  split; [apply lor_VU|]. eauto.
Qed.

(** Fresh pages stay as they are while the page table grows. *)
Lemma fresh_grows s s1 T1 s2 T2 L R flags v :
  grows s1 T1 s2 T2 L R → (∀ p, 0 < ref (m_kmem s1) p → R p = 0) →
  fresh_page s s1 T1 flags v → fresh_page s s2 T2 flags v.
Proof.
  intros G HR (p & -> & Hm & H0 & H1 & Ht & Hz).
  assert (¬ is_table T2 p) as Ht2 by (eapply grows_table; [done|lia|done]).
  assert (ref (m_kmem s2) p = 1) as H2.
  { destruct (g_ref _ _ _ _ _ _ G p) as [E|[E _]]; [|lia]. rewrite HR in E by lia. lia. }
  exists p. split_and!; try done. intros a Ha.
  assert (a / PGSIZE = p) as E by (rewrite in_page_div in Ha; lia).
  rewrite (g_mem _ _ _ _ _ _ G), Hz; try done; rewrite E; [done|..]; intros _; lia.
Qed.

Lemma filled_0 root s T a flags :
  pt_ok (m_mem s) (m_kmem s) T root → kmem_ok (m_kmem s) → filled root s T a 0 flags s T.
Proof. intros. split_and!; [by apply grows_refl|done|done|]. intros i. lia. Qed.

(** One more page: [p] from the allocator, mapped at the next address. *)
Lemma filled_S root s T a k flags s1 T1 s2 s3 T3 p :
  let va := a + Z.of_nat k * PGSIZE in
  kmem_ok (m_kmem s) → 0 <= flags < 1024 → filled root s T a k flags s1 T1 →
  grows s1 T1 s2 T1 (leaf (m_mem s1) T1) (λ q, b2z (q =? p)) → managed p →
  ref (m_kmem s1) p = 0 → ref (m_kmem s2) p = 1 → zero_page (m_mem s2) p → ¬ is_table T1 p →
  pt_ok (m_mem s3) (m_kmem s3) T3 root →
  grows s2 T1 s3 T3 (λ va', if va' / PGSIZE =? va / PGSIZE then mk_leaf (p * PGSIZE) flags
                            else leaf (m_mem s2) T1 va') (λ _, 0) →
  filled root s T a (S k) flags s3 T3.
Proof.
  intros va Hk Hf (G1 & Hok1 & Hout & Hin) G2 Hp Hr1 Hr2 Hz Ht Hok3 G3.
  assert (∀ va', leaf (m_mem s3) T3 va' =
            if same_page va' va then mk_leaf (p * PGSIZE) flags else leaf (m_mem s1) T1 va') as HL.
  { intros va'. rewrite (g_leaf _ _ _ _ _ _ G3). unfold same_page. case_match; [done|].
    by rewrite (g_leaf _ _ _ _ _ _ G2). }
  assert (grows s1 T1 s3 T3 (leaf (m_mem s3) T3) (λ q, b2z (q =? p))) as G13.
  { eapply grows_ext; [| |eapply grows_trans; [apply G1| |exact G2|exact G3]].
    - intros va'. rewrite HL. unfold same_page. case_match; [done|]. by rewrite (g_leaf _ _ _ _ _ _ G2).
    - intros q. simpl. lia.
    - intros q. unfold b2z. case_match; lia. }
  assert (∀ q, maps (leaf (m_mem s3) T3) a (S k) q = maps (leaf (m_mem s1) T1) a k q + b2z (q =? p)) as Hmaps.
  { intros q. cbn [maps]. fold va. rewrite (HL va). unfold same_page at 1. rewrite Z.eqb_refl, points_mk_leaf by done.
    f_equal. apply maps_ext. intros i Hi. rewrite HL. unfold same_page, va. rewrite !Z.div_add by lia. case_tests. }
  assert (ref (m_kmem s) p = 0) as Hr.
  { pose proof (ok_refs _ Hk p). pose proof (maps_nonneg (leaf (m_mem s1) T1) a k p).
    destruct (g_ref _ _ _ _ _ _ G1 p) as [|[]]; lia. }
  split_and!.
  - eapply grows_ext; [done| |eapply grows_trans; [done| |exact G1|exact G13]].
    + intros q. simpl. by rewrite <- Hmaps.
    + intros q. apply maps_nonneg.
  - done.
  - intros va' Hva'. rewrite in_range_S in Hva'. fold va in Hva'. apply orb_false_iff in Hva' as [Hv1 Hv2].
    rewrite HL, Hv2. by apply Hout.
  - intros i Hi. destruct (decide (i = Z.of_nat k)) as [->|].
    + fold va. rewrite HL. unfold same_page. rewrite Z.eqb_refl.
      eapply (fresh_grows s s2); [exact G3|done|]. by exists p.
    + rewrite HL. unfold same_page, va. rewrite !Z.div_add by lia.
      rewrite (proj2 (Z.eqb_neq _ _)) by lia.
      eapply fresh_grows; [exact G13| |apply Hin; lia]. intros q Hq. unfold b2z. case_tests.
Qed.

Lemma fill_undo root s T s1 T1 s2 T2 a k flags :
  filled root s T a k flags s1 T1 → kmem_ok (m_kmem s) → lockable LK_KMEM (m_lk s) →
  aligned a → 0 <= a → a + Z.of_nat k * PGSIZE <= MAXVA → 0 <= flags < 1024 →
  grows s1 T1 s2 T2 (leaf (m_mem s1) T1) (λ _, 0) → pt_ok (m_mem s2) (m_kmem s2) T2 root →
  wp (pgt_deallocunmap root a (a + Z.of_nat k * PGSIZE))
     (λ _ s', pt_ok (m_mem s') (m_kmem s') T2 root ∧
        grows s T s' T2 (λ va, if in_range a k va then 0 else leaf (m_mem s) T va) (λ _, 0)) s2.
Proof.
  intros (G1 & Hok1 & Hout & Hin) Hk Hl Ha H0 Hb Hf G2 Hok2.
  assert (∀ i, 0 <= i < Z.of_nat k → has (leaf (m_mem s1) T1 (a + i * PGSIZE)) PTE_V = true ∧
            leaf_ok T2 true (leaf (m_mem s1) T1 (a + i * PGSIZE))) as Hfresh.
  { intros i Hi. eapply fresh_leaf_ok, fresh_grows; [done|exact G2|done|by apply Hin]. }
  eapply undo_spec with (L := leaf (m_mem s1) T1); try done.
  - eapply grows_ext; [| |eapply grows_trans; [done| |exact G1|exact G2]]; [done| |].
    + intros p. simpl. lia.
    + intros p. apply maps_nonneg.
  - intros va Hva Hv. exfalso. unfold in_range in Hva.
    destruct (Hfresh (va / PGSIZE - a / PGSIZE)) as [Hv' _]; [lia|].
    rewrite (leaf_page _ _ _ va), Hv in Hv'; [done|].
    unfold same_page. rewrite Z.div_add by lia. lia.
  - intros i Hi. by apply Hfresh.
Qed.

Lemma pgt_allocmap_spec T root a n flags s :
  pt_ok (m_mem s) (m_kmem s) T root → kmem_ok (m_kmem s) → lockable LK_KMEM (m_lk s) →
  aligned a → 0 <= a → a + Z.of_nat n * PGSIZE <= MAXVA → 0 <= flags < 1024 →
  (∀ i, 0 <= i < Z.of_nat n → has (leaf (m_mem s) T (a + i * PGSIZE)) PTE_V = false) →
  wp (pgt_allocmap root a (a + Z.of_nat n * PGSIZE) flags) (allocmap_post root s T a n flags) s.
Proof.
  intros Hok Hk Hl Ha H0 Hb Hf Hinv. unfold pgt_allocmap.
  destruct (good_range a n Ha H0 Hb) as [-> ->].
  apply wp_bind, (wp_for (λ k s', ∃ T', filled root s T a k flags s' T')).
  { exists T. by apply filled_0. }
  2: { intros s' [T' Hs']. apply wp_ret. exists T'. left. done. }
  intros k s1 Hkn [T1 F1]. set (va := a + Z.of_nat k * PGSIZE).
  pose proof F1 as (G1 & Hok1 & Hout & Hin). pose proof (g_kmem _ _ _ _ _ _ G1) as Hk1.
  assert (lockable LK_KMEM (m_lk s1)) as Hl1 by (by rewrite (g_lk _ _ _ _ _ _ G1)).
  eapply wp_step; [by apply kalloc_spec|]. intros pa s2 Hpost. case_test.
  { destruct Hpost as (Hlk & Hk2 & [(_ & _ & Em & Ek)|(p & -> & Hm & _)]).
    2: { by apply managed_nonzero in Hm. }
    eapply wp_step; [eapply (fill_undo root s T s1 T1 s2 T1); try done; [lia|..]|].
    - split; rewrite ?Em, ?Ek; try done; eauto; [congruence|]. intros. left. lia.
    - by rewrite Em, Ek.
    - intros [] s3 [Hok3 G3]. apply wp_ret. simpl. exists T1. right. eauto. }
  assert (∃ p, pa = p * PGSIZE ∧ managed p) as (p & -> & Hm).
  { destruct Hpost as (_ & _ & [(? & _)|(p & ? & ? & _)]); [done|eauto]. }
  destruct (alloc_grows s1 s2 T1 root p) as (G2 & Hok2 & Hr1 & Hr2 & Hz & Ht); [done..|].
  apply wp_bind, wp_modify. eapply wp_step.
  { eapply (pgt_map_spec T1); try done.
    - apply G2.
    - by rewrite (g_lk _ _ _ _ _ _ G2).
    - unfold va. lia.
    - unfold va, aligned. by rewrite Z.mod_add.
    - by apply managed_paddr.
    - rewrite (g_leaf _ _ _ _ _ _ G2), Hout by apply in_range_next. apply Hinv. lia. }
  intros r s3 (T3 & Hok3 & [(-> & G3 & _)|(-> & G3)]); simpl.
  2: { apply wp_ret. exists T3. by eapply filled_S. }
  assert (0 < ref (m_kmem s3) p ∧ ¬ is_table T3 p) as [Hr3 Ht3].
  { split; [|by eapply grows_table; [exact G3|lia|done]].
    destruct (g_ref _ _ _ _ _ _ G3 p) as [|[]]; lia. }
  eapply wp_step; [apply kfree_spec; [apply G3| |done|done]|].
  { by rewrite (g_lk _ _ _ _ _ _ G3), (g_lk _ _ _ _ _ _ G2). }
  intros [] s4 Hfree.
  destruct (grows_free s1 T1 s3 T3 s4 (leaf (m_mem s1) T1) (λ q, b2z (q =? p)) root p) as [G4 Hok4]; try done.
  { eapply grows_ext; [| |eapply grows_trans; [exact Hk1| |exact G2|exact G3]].
    - apply (g_leaf _ _ _ _ _ _ G2). - intros; simpl; lia. - intros q. unfold b2z. case_match; lia. }
  eapply wp_step; [eapply (fill_undo root s T s1 T1 s4 T3); try done; [lia|]|].
  - eapply grows_ext; [| |exact G4]; [done|]. intros; simpl; lia.
  - intros [] s5 [Hok5 G5]. apply wp_ret. simpl. exists T3. right. eauto.
Qed.
End Alloc.

(** ** Two page tables in one memory *)

Section Two.
Context `{Linker}.

Definition apart (A B : tree) : Prop := ∀ p, is_table A p → is_table B p → False.

(** A store to an entry of [A] does not concern [B]. *)
Lemma store_apart m k A B rA rB va v p :
  pt_ok m k A rA → pt_ok m k B rB → apart A B → A !! (0, kidx 0 va) = Some p → 0 <= v < 2 ^ 64 →
  let m' := st64 m (slot A va) v in
  pt_ok m' k A rA ∧ pt_ok m' k B rB ∧
  (∀ va', leaf m' A va' = if same_page va' va then v else leaf m A va') ∧
  (∀ va', leaf m' B va' = leaf m B va') ∧
  (∀ x, ¬ is_table A (x / PGSIZE) → ldb m' x = ldb m x).
Proof.
  intros HA HB Hap Hp Hv m'.
  assert (∀ x, ¬ is_table A (x / PGSIZE) → ldb m' x = ldb m x) as Hout.
  { intros x Hx. unfold m'. erewrite store_out; [done|done|].
    rewrite in_page_div. apply Z.eqb_neq. intros E. apply Hx. rewrite E. by eexists. }
  assert (∀ q a, is_table B q → in_page q a = true → ldb m' a = ldb m a) as HBm.
  { intros q a Hq Ha. apply Hout. rewrite in_page_div in Ha. apply Z.eqb_eq in Ha as ->. eauto. }
  split_and!.
  - by eapply pt_ok_store.
  - by eapply pt_ok_ext; [exact HBm| |].
  - intros va'. by eapply leaf_store.
  - intros va'. by apply leaf_ext.
  - done.
Qed.

(** Growing [B] does not concern [A]. *)
Lemma grows_apart s B s' B' L R A rA :
  grows s B s' B' L R → pt_ok (m_mem s) (m_kmem s) A rA → apart A B →
  (∀ p, is_table A p → R p = 0) →
  apart A B' ∧ pt_ok (m_mem s') (m_kmem s') A rA ∧ (∀ va, leaf (m_mem s') A va = leaf (m_mem s) A va).
Proof.
  intros G HA Hap HR.
  assert (∀ p, is_table A p → 0 < ref (m_kmem s) p) as Hpos.
  { intros p [x Hx]. apply (pt_pages _ _ _ _ HA) in Hx as [_ ->]. lia. }
  assert (apart A B') as Hap'.
  { intros p HpA HpB. revert HpB. eapply grows_table; [exact G|by apply Hpos|]. intros HB. by apply (Hap p). }
  assert (∀ p, is_table A p → ref (m_kmem s') p = ref (m_kmem s) p) as Href.
  { intros p Hp. pose proof (Hpos p Hp). destruct (g_ref _ _ _ _ _ _ G p) as [E|[]]; [|lia].
    rewrite HR in E by done. lia. }
  assert (∀ p a, is_table A p → in_page p a = true → ldb (m_mem s') a = ldb (m_mem s) a) as Hm.
  { intros p a Hp Ha. rewrite in_page_div in Ha. apply Z.eqb_eq in Ha. apply (g_mem _ _ _ _ _ _ G); rewrite Ha.
    - intros HB. by apply (Hap' p).
    - intros _. by apply Hpos.
    - intros _. rewrite Href by done. by apply Hpos. }
  split_and!; [done| |].
  - by eapply pt_ok_ext; [exact Hm| |].
  - intros va. by apply leaf_ext.
Qed.
End Two.

(** *** Dropping the write permission *)

Lemma ldiff_split v b : v = Z.ldiff v b + Z.land v b.
Proof.
  rewrite Z.add_nocarry_lxor, Z.lxor_lor; rewrite ?Z.lor_ldiff_and; try done.
  all: apply Z.bits_inj'; intros i Hi; rewrite !Z.land_spec, Z.ldiff_spec, Z.bits_0;
       by destruct (Z.testbit v i), (Z.testbit b i).
Qed.

Lemma clear_bound v b : 0 <= v < 2 ^ 64 → 0 <= b → 0 <= clear v b < 2 ^ 64.
Proof.
  intros Hv Hb. unfold clear. pose proof (ldiff_split v b).
  pose proof (proj2 (Z.land_nonneg v b)). pose proof (proj2 (Z.ldiff_nonneg v b)). lia.
Qed.

Lemma clear_has v b c : Z.land b c = 0 → has (clear v b) c = has v c.
Proof.
  intros E. unfold has, clear. f_equal. apply Z.bits_inj'. intros i Hi.
  rewrite !Z.land_spec, Z.ldiff_spec.
  assert (Z.testbit (Z.land b c) i = false) as Hb by (by rewrite E, Z.bits_0).
  rewrite Z.land_spec in Hb. by destruct (Z.testbit v i), (Z.testbit b i), (Z.testbit c i).
Qed.

Lemma clear_pa v : PTE2PA (clear v PTE_W) = PTE2PA v.
Proof.
  unfold PTE2PA, clear. rewrite Z.shiftr_ldiff. change (Z.shiftr PTE_W 10) with 0.
  by rewrite Z.ldiff_0_r.
Qed.

Lemma clear_flags v : PTE_FLAGS (clear v PTE_W) = clear (PTE_FLAGS v) PTE_W.
Proof.
  unfold PTE_FLAGS, clear. apply Z.bits_inj'. intros i Hi. rewrite !Z.land_spec, !Z.ldiff_spec, Z.land_spec.
  by destruct (Z.testbit v i), (Z.testbit PTE_W i), (Z.testbit 1023 i).
Qed.

Lemma clear_points v p : points_to (clear v PTE_W) p = points_to v p.
Proof. unfold points_to. by rewrite clear_pa, clear_has. Qed.

(** ** Cloning a range *)

Section Clone.
Context `{Linker}.

(** The entries of a cloned range: both tables share the pages of the
    source, without write permission. *)
Definition shared (L L0 : Z → Z) (a : Z) (n : nat) (va : Z) : Z :=
  if in_range a n va && has (L va) PTE_V then clear (L va) PTE_W else L0 va.

Record cloned (rs rd : Z) (s : machine) (Ts Td : tree) (a : Z) (n : nat) (s' : machine) (Td' : tree) : Prop := {
  c_src : pt_ok (m_mem s') (m_kmem s') Ts rs;
  c_dst : pt_ok (m_mem s') (m_kmem s') Td' rd;
  c_apart : apart Ts Td';
  c_sub : Td ⊆ Td';
  c_lk : m_lk s' ≡ m_lk s;
  c_kmem : kmem_ok (m_kmem s');
  c_new : ∀ x p, Td' !! x = Some p → Td !! x = None → ref (m_kmem s) p = 0;
  c_ref : ∀ p, ref (m_kmem s') p = ref (m_kmem s) p + maps (leaf (m_mem s) Ts) a n p ∨
               (ref (m_kmem s) p = 0 ∧ is_table Td' p);
  c_mem : ∀ x, live s (x / PGSIZE) → ¬ is_table Ts (x / PGSIZE) → ¬ is_table Td' (x / PGSIZE) →
               ldb (m_mem s') x = ldb (m_mem s) x;
  c_lsrc : ∀ va, leaf (m_mem s') Ts va = shared (leaf (m_mem s) Ts) (leaf (m_mem s) Ts) a n va;
  c_ldst : ∀ va, leaf (m_mem s') Td' va = shared (leaf (m_mem s) Ts) (leaf (m_mem s) Td) a n va
}.

Lemma cloned_0 rs rd s Ts Td a :
  pt_ok (m_mem s) (m_kmem s) Ts rs → pt_ok (m_mem s) (m_kmem s) Td rd → apart Ts Td →
  kmem_ok (m_kmem s) → cloned rs rd s Ts Td a 0 s Td.
Proof.
  intros. split; try done.
  - congruence.
  - intros p. left. simpl. lia.
  - intros va. unfold shared. by rewrite in_range_0.
  - intros va. unfold shared. by rewrite in_range_0.
Qed.

Lemma shared_skip L L0 a k va :
  (∀ va va', same_page va va' = true → L va = L va') →
  has (L (a + Z.of_nat k * PGSIZE)) PTE_V = false → shared L L0 a (S k) va = shared L L0 a k va.
Proof.
  intros Hpg Hv. unfold shared. rewrite in_range_S.
  destruct (same_page va _) eqn:E; [|by rewrite orb_false_r].
  rewrite (Hpg _ _ E), Hv, !andb_false_r. done.
Qed.

Lemma shared_S L L0 a k va :
  (∀ va va', same_page va va' = true → L va = L va') →
  has (L (a + Z.of_nat k * PGSIZE)) PTE_V = true →
  shared L L0 a (S k) va =
  if same_page va (a + Z.of_nat k * PGSIZE) then clear (L (a + Z.of_nat k * PGSIZE)) PTE_W
  else shared L L0 a k va.
Proof.
  intros Hpg Hv. unfold shared. rewrite in_range_S.
  destruct (same_page va _) eqn:E; [|by rewrite orb_false_r].
  by rewrite (Hpg _ _ E), Hv, orb_true_r.
Qed.

Lemma shared_next L L0 a k : shared L L0 a k (a + Z.of_nat k * PGSIZE) = L0 (a + Z.of_nat k * PGSIZE).
Proof. unfold shared. by rewrite in_range_next. Qed.

Lemma cloned_skip rs rd s Ts Td a k s' Td' :
  cloned rs rd s Ts Td a k s' Td' → has (leaf (m_mem s) Ts (a + Z.of_nat k * PGSIZE)) PTE_V = false →
  cloned rs rd s Ts Td a (S k) s' Td'.
Proof.
  intros [] Hv. split; try done.
  - intros p. simpl. unfold points_to. rewrite Hv. simpl. by rewrite Z.add_0_r.
  - intros va. rewrite shared_skip; [done|apply leaf_page|done].
  - intros va. rewrite shared_skip; [done|apply leaf_page|done].
Qed.

Lemma cloned_ref_le rs rd s Ts Td a k s' Td' p :
  cloned rs rd s Ts Td a k s' Td' → kmem_ok (m_kmem s) → ref (m_kmem s) p <= ref (m_kmem s') p.
Proof.
  intros C Hk. pose proof (maps_nonneg (leaf (m_mem s) Ts) a k p).
  pose proof (ok_refs _ (c_kmem _ _ _ _ _ _ _ _ _ C) p).
  destruct (c_ref _ _ _ _ _ _ _ _ _ C p) as [|[]]; lia.
Qed.

Lemma cloned_grows rs rd s Ts Td a k s1 Td1 s2 Td2 :
  kmem_ok (m_kmem s) → cloned rs rd s Ts Td a k s1 Td1 →
  grows s1 Td1 s2 Td2 (leaf (m_mem s1) Td1) (λ _, 0) → pt_ok (m_mem s2) (m_kmem s2) Td2 rd →
  cloned rs rd s Ts Td a k s2 Td2.
Proof.
  intros Hk C G Hok. pose proof (λ p, cloned_ref_le _ _ _ _ _ _ _ _ _ p C Hk) as Hle.
  destruct (grows_apart _ _ _ _ _ _ Ts rs G) as (Hap & Hsrc & HL); [apply C..|done|].
  assert (∀ p, ref (m_kmem s1) p = 0 → ref (m_kmem s) p = 0) as H0.
  { intros p Hp. pose proof (Hle p). pose proof (ok_refs _ Hk p). lia. }
  split; try done.
  - etrans; [apply C|apply G].
  - etrans; [apply G|apply C].
  - apply G.
  - intros x p Hx Hn. destruct (Td1 !! x) as [p1|] eqn:E.
    + pose proof (lookup_weaken _ _ _ _ E (g_sub _ _ _ _ _ _ G)).
      replace p with p1 by congruence. by eapply (c_new _ _ _ _ _ _ _ _ _ C).
    + apply H0. by eapply (g_new _ _ _ _ _ _ G).
  - intros p. destruct (g_ref _ _ _ _ _ _ G p) as [->|[Hp Ht]]; [|right; auto].
    rewrite Z.add_0_r. destruct (c_ref _ _ _ _ _ _ _ _ _ C p) as [|[? Ht]]; [by left|right].
    split; [done|]. eapply is_table_sub; [apply G|done].
  - intros x Hlive Hts Htd.
    assert (¬ is_table Td1 (x / PGSIZE)) as Htd1.
    { intros Ht. apply Htd. eapply is_table_sub; [apply G|done]. }
    assert (live s1 (x / PGSIZE)) as Hl1.
    { intros Hm. specialize (Hlive Hm). specialize (Hle (x / PGSIZE)). lia. }
    rewrite (g_mem _ _ _ _ _ _ G); [by apply (c_mem _ _ _ _ _ _ _ _ _ C)|done|done|]. intros Hm. specialize (Hl1 Hm).
    destruct (g_ref _ _ _ _ _ _ G (x / PGSIZE)) as [|[]]; lia.
  - intros va. rewrite HL. apply (c_lsrc _ _ _ _ _ _ _ _ _ C).
  - intros va. rewrite (g_leaf _ _ _ _ _ _ G). apply (c_ldst _ _ _ _ _ _ _ _ _ C).
Qed.

(** The body of the loop for a valid source entry, once the entry of the
    destination exists. *)
Lemma cloned_share rs rd s Ts Td a k s1 Td1 ps pd q s2 :
  let va := a + Z.of_nat k * PGSIZE in
  let v := leaf (m_mem s) Ts va in
  let m1 := st64 (m_mem s1) (slot Ts va) (clear v PTE_W) in
  let m2 := st64 m1 (slot Td1 va) (clear v PTE_W) in
  cloned rs rd s Ts Td a k s1 Td1 →
  Ts !! (0, kidx 0 va) = Some ps → Td1 !! (0, kidx 0 va) = Some pd →
  has v PTE_V = true → PTE2PA v = q * PGSIZE → 0 < ref (m_kmem s) q → ¬ is_table Ts q → ¬ is_table Td1 q →
  incref_post q (set_mem m2 s1) s2 →
  cloned rs rd s Ts Td a (S k) s2 Td1.
Proof.
  intros va v m1 m2 C Hps Hpd Hv Hq Hrq Hqs Hqd (Hlk & Hk & Hm & _ & Hr).
  assert (0 <= clear v PTE_W < 2 ^ 64) as Hcb by (apply clear_bound; [apply leaf_bound|lia]).
  pose proof (c_src _ _ _ _ _ _ _ _ _ C) as Os. pose proof (c_dst _ _ _ _ _ _ _ _ _ C) as Od.
  pose proof (c_apart _ _ _ _ _ _ _ _ _ C) as Hap.
  destruct (store_apart _ _ _ _ _ _ _ _ _ Os Od Hap Hps Hcb) as (Os1 & Od1 & Ls1 & Ld1 & Hm1).
  fold m1 in Os1, Od1, Ls1, Ld1, Hm1.
  destruct (store_apart m1 (m_kmem s1) Td1 Ts rd rs va (clear v PTE_W) pd)
    as (Od2 & Os2 & Ld2 & Ls2 & Hm2); try done.
  { intros p H1 H2. by apply (Hap p). }
  fold m2 in Os2, Od2, Ls2, Ld2, Hm2. simpl in Hm, Hr, Hlk.
  assert (∀ T, ¬ is_table T q → ∀ p, is_table T p → ref (m_kmem s2) p = ref (m_kmem s1) p) as Htab.
  { intros T HT p Hp. rewrite Hr. destruct (Z.eqb_spec p q) as [->|]; done. }
  destruct C as [C1 C2 C3 C4 C5 C6 C7 C8 C9 C10 C11]. split; rewrite ?Hm; try done.
  - eapply pt_ok_ext; [| |exact Os2]; [done|]. by apply Htab.
  - eapply pt_ok_ext; [| |exact Od2]; [done|]. by apply Htab.
  - by rewrite Hlk.
  - intros p. rewrite Hr. cbn [maps]. fold va. fold v. unfold points_to. rewrite Hv, Hq. simpl.
    destruct (Z.eqb_spec p q) as [->|Hne].
    + rewrite Z.eqb_refl. simpl. destruct (C8 q) as [->|[]]; [left; lia|lia].
    + rewrite (proj2 (Z.eqb_neq _ _)) by lia. simpl. rewrite Z.add_0_r. apply C8.
  - intros x Hx Hxs Hxd. rewrite Hm2, Hm1 by done. by apply C9.
  - intros va'. rewrite Ls2, Ls1, shared_S; [|apply leaf_page|done]. fold va v.
    case_match; [done|]. apply C10.
  - intros va'. rewrite Ld2, Ld1, shared_S; [|apply leaf_page|done]. fold va v.
    case_match; [done|]. apply C11.
Qed.

(** What a valid entry of the source must be for the range to be cloned:
    a leaf, whose page is in use and is not a page-table page. *)
Definition clonable (s : machine) (Ts Td : tree) (v : Z) : Prop :=
  has v PTE_V = true → PTE_FLAGS (clear v PTE_W) ≠ PTE_V ∧
    ∃ q, PTE2PA v = q * PGSIZE ∧ managed q ∧ 0 < ref (m_kmem s) q ∧ ¬ is_table Ts q ∧ ¬ is_table Td q.

(** The destination is as it was but for page-table pages, the counts are as
    they were; the source has lost the write permission of [k] pages. *)
Definition clone_undone (rs rd : Z) (s : machine) (Ts Td : tree) (a : Z) (k : nat) (s' : machine) (Td' : tree) : Prop :=
  pt_ok (m_mem s') (m_kmem s') Ts rs ∧ pt_ok (m_mem s') (m_kmem s') Td' rd ∧ apart Ts Td' ∧
  Td ⊆ Td' ∧ m_lk s' ≡ m_lk s ∧ kmem_ok (m_kmem s') ∧
  (∀ p, ref (m_kmem s') p = ref (m_kmem s) p ∨ (ref (m_kmem s) p = 0 ∧ is_table Td' p)) ∧
  (∀ x, live s (x / PGSIZE) → ¬ is_table Ts (x / PGSIZE) → ¬ is_table Td' (x / PGSIZE) →
        ldb (m_mem s') x = ldb (m_mem s) x) ∧
  (∀ va, leaf (m_mem s') Ts va = shared (leaf (m_mem s) Ts) (leaf (m_mem s) Ts) a k va) ∧
  (∀ va, leaf (m_mem s') Td' va =
         if in_range a k va && has (leaf (m_mem s) Ts va) PTE_V then 0 else leaf (m_mem s) Td va).

Definition clone_post (rs rd : Z) (s : machine) (Ts Td : tree) (a : Z) (n : nat) (r : Z) (s' : machine) : Prop :=
  ∃ Td', (r = 0 ∧ cloned rs rd s Ts Td a n s' Td') ∨
         (r = -1 ∧ ∃ k, (k < n)%nat ∧ clone_undone rs rd s Ts Td a k s' Td').

Lemma cloned_table rs rd s Ts Td a k s' Td' q :
  cloned rs rd s Ts Td a k s' Td' → 0 < ref (m_kmem s) q → ¬ is_table Td q → ¬ is_table Td' q.
Proof.
  intros C Hr Ht [x Hx]. destruct (Td !! x) as [p'|] eqn:E.
  - apply Ht. exists x. rewrite E. f_equal.
    pose proof (lookup_weaken _ _ _ _ E (c_sub _ _ _ _ _ _ _ _ _ C)). congruence.
  - pose proof (c_new _ _ _ _ _ _ _ _ _ C _ _ Hx E). lia.
Qed.

Lemma maps_shared L L0 a k p :
  (∀ i, 0 <= i < Z.of_nat k → has (L0 (a + i * PGSIZE)) PTE_V = false) →
  maps (shared L L0 a k) a k p = maps L a k p.
Proof.
  intros H0. assert (∀ k', (k' <= k)%nat → maps (shared L L0 a k) a k' p = maps L a k' p) as Hall; [|by apply Hall].
  induction k' as [|k' IH]; intros Hk'; [done|]. cbn [maps]. rewrite IH by lia. do 2 f_equal.
  unfold shared. rewrite in_range_true by lia. simpl. destruct (has (L _) PTE_V) eqn:Hv.
  - apply clear_points.
  - unfold points_to. rewrite Hv, H0 by lia. done.
Qed.

(** The pages a clonable range names are neither free nor page-table pages. *)
Lemma maps_data s Ts Td a k p :
  (∀ i, 0 <= i < Z.of_nat k → clonable s Ts Td (leaf (m_mem s) Ts (a + i * PGSIZE))) →
  (0 < ref (m_kmem s) p → ¬ is_table Ts p → ¬ is_table Td p → False) →
  maps (leaf (m_mem s) Ts) a k p = 0.
Proof.
  intros Hcl Hno. apply maps_absent. intros i Hi. unfold points_to.
  destruct (has _ _) eqn:Hv; [simpl|done]. apply Z.eqb_neq. intros E.
  destruct (Hcl i Hi Hv) as (_ & q & Eq & _ & Hq & Hqs & Hqd).
  assert (q = p) as -> by lia. by apply Hno.
Qed.

Lemma cloned_maps rs rd s Ts Td a k s1 Td1 p :
  cloned rs rd s Ts Td a k s1 Td1 →
  (∀ i, 0 <= i < Z.of_nat k → has (leaf (m_mem s) Td (a + i * PGSIZE)) PTE_V = false) →
  maps (leaf (m_mem s1) Td1) a k p = maps (leaf (m_mem s) Ts) a k p.
Proof.
  intros C Hd. etrans; [|by apply (maps_shared _ (leaf (m_mem s) Td))].
  apply maps_ext. intros. apply (c_ldst _ _ _ _ _ _ _ _ _ C).
Qed.

Lemma clone_shrinks rs rd s Ts Td a k s1 Td1 s2 :
  cloned rs rd s Ts Td a k s1 Td1 → kmem_ok (m_kmem s) →
  (∀ i, 0 <= i < Z.of_nat k → clonable s Ts Td (leaf (m_mem s) Ts (a + i * PGSIZE))) →
  (∀ i, 0 <= i < Z.of_nat k → has (leaf (m_mem s) Td (a + i * PGSIZE)) PTE_V = false) →
  shrinks rd Td1 a k true s1 s2 → clone_undone rs rd s Ts Td a k s2 Td1.
Proof.
  intros C Hk Hcl Hd [S1 S2 S3 S4 S5 S6 S7].
  assert (∀ p, ref (m_kmem s2) p = ref (m_kmem s) p ∨ (ref (m_kmem s) p = 0 ∧ is_table Td1 p)) as Hr2.
  { intros p. rewrite S5. erewrite cloned_maps by done.
    destruct (c_ref _ _ _ _ _ _ _ _ _ C p) as [->|[? ?]]; [left; lia|right; done]. }
  assert (∀ p, 0 < ref (m_kmem s) p → 0 < ref (m_kmem s2) p) as Hpos.
  { intros p Hp. destruct (Hr2 p) as [|[]]; lia. }
  assert (∀ p, is_table Ts p → ref (m_kmem s2) p = ref (m_kmem s1) p ∧ ¬ is_table Td1 p ∧ 0 < ref (m_kmem s2) p) as Hts.
  { intros p Hp. assert (¬ is_table Td1 p) as Hn by (intros ?; by apply (c_apart _ _ _ _ _ _ _ _ _ C p)).
    rewrite S5. erewrite cloned_maps by done. rewrite maps_data with (Td := Td) by done.
    destruct Hp as [x Hx]. destruct (pt_pages _ _ _ _ (c_src _ _ _ _ _ _ _ _ _ C) _ _ Hx) as [_ Hp1].
    split_and!; [lia|done|lia]. }
  assert (∀ p x, is_table Ts p → in_page p x = true → ldb (m_mem s2) x = ldb (m_mem s1) x) as Htm.
  { intros p x Hp Hx. rewrite in_page_div in Hx. apply Z.eqb_eq in Hx.
    apply S6; rewrite Hx; [by apply Hts|]. intros _. by apply Hts. }
  split_and!; try done.
  - eapply pt_ok_ext; [exact Htm| |apply C]. intros p Hp. by apply Hts.
  - apply C.
  - apply C.
  - rewrite S1. apply C.
  - intros x Hlive Hxs Hxd. rewrite S6; [by apply (c_mem _ _ _ _ _ _ _ _ _ C)|done|].
    intros Hm. by apply Hpos, Hlive.
  - intros va. rewrite (leaf_ext _ _ _ _ Htm). apply (c_lsrc _ _ _ _ _ _ _ _ _ C).
  - intros va. rewrite S4. unfold unmapped. rewrite (c_ldst _ _ _ _ _ _ _ _ _ C). unfold shared.
    destruct (in_range a k va) eqn:Hin; simpl; [|done].
    destruct (has (leaf (m_mem s) Ts va) PTE_V) eqn:Hv; [by rewrite clear_has, Hv|].
    unfold in_range in Hin. pose proof (Hd (va / PGSIZE - a / PGSIZE) ltac:(lia)) as Hd'.
    rewrite (leaf_page _ _ _ va) in Hd' by (unfold same_page; rewrite Z.div_add; lia). by rewrite Hd'.
Qed.

Lemma clone_undo rs rd s Ts Td a k s1 Td1 :
  cloned rs rd s Ts Td a k s1 Td1 → kmem_ok (m_kmem s) → lockable LK_KMEM (m_lk s) →
  aligned a → 0 <= a → a + Z.of_nat k * PGSIZE <= MAXVA →
  (∀ i, 0 <= i < Z.of_nat k → clonable s Ts Td (leaf (m_mem s) Ts (a + i * PGSIZE))) →
  (∀ i, 0 <= i < Z.of_nat k → has (leaf (m_mem s) Td (a + i * PGSIZE)) PTE_V = false) →
  wp (pgt_deallocunmap rd a (a + Z.of_nat k * PGSIZE))
     (λ _ s', clone_undone rs rd s Ts Td a k s' Td1) s1.
Proof.
  intros C Hk Hl Ha H0 Hb Hcl Hd.
  pose proof (c_ldst _ _ _ _ _ _ _ _ _ C) as HL.
  eapply wp_mono; [apply (pgt_unmap_impl_spec Td1)|]; try done.
  - apply C.
  - apply C.
  - by rewrite (c_lk _ _ _ _ _ _ _ _ _ C).
  - intros i Hi. rewrite HL. unfold shared. rewrite in_range_true by done. simpl.
    destruct (has (leaf (m_mem s) Ts _) PTE_V) eqn:Hv.
    2: { intros Hv'. by rewrite Hd in Hv'. }
    destruct (Hcl i Hi Hv) as (Hfl & q & Eq & Hqm & Hqr & Hqs & Hqd). intros _. split; [done|]. intros _.
    exists q. rewrite clear_pa. split_and!; [done|done|]. by eapply cloned_table.
  - intros _ p. erewrite cloned_maps by done. pose proof (ok_refs _ Hk p).
    destruct (c_ref _ _ _ _ _ _ _ _ _ C p) as [|[E Ht]]; [lia|].
    rewrite maps_data with (Td := Td); [|done|lia]. apply (ok_refs _ (c_kmem _ _ _ _ _ _ _ _ _ C)).
  - intros [] s2 Hsh. by eapply clone_shrinks.
Qed.

Lemma clone_share_spec rs rd s Ts Td a k n s2 Td2 ps pd q :
  let va := a + Z.of_nat k * PGSIZE in
  let v := leaf (m_mem s) Ts va in
  cloned rs rd s Ts Td a k s2 Td2 → kmem_ok (m_kmem s) → lockable LK_KMEM (m_lk s) → (k < n)%nat →
  Ts !! (0, kidx 0 va) = Some ps → Td2 !! (0, kidx 0 va) = Some pd →
  has v PTE_V = true → PTE2PA v = q * PGSIZE → managed q →
  0 < ref (m_kmem s) q → ¬ is_table Ts q → ¬ is_table Td q →
  ref (m_kmem s) q + maps (leaf (m_mem s) Ts) a n q < 2 ^ 31 →
  wp (let! v := load64 (slot Ts va) in
      store64 (slot Ts va) (clear v PTE_W) ;;
      let! v := load64 (slot Ts va) in
      store64 (slot Td2 va) v ;;
      kincref (q * PGSIZE) ;; ret (@None Z))
     (λ r s', r = None ∧ cloned rs rd s Ts Td a (S k) s' Td2) s2.
Proof.
  intros va v C2 Hk Hl Hkn Hps Hpd Hv Eq Hqm Hqr Hqs Hqd Hmax.
  apply wp_bind, wp_gets. rewrite <- (leaf_slot _ _ _ _ Hps).
  rewrite (c_lsrc _ _ _ _ _ _ _ _ _ C2), shared_next. fold va. fold v.
  apply wp_bind, wp_modify, wp_bind, wp_gets, wp_bind, wp_modify. cbn [m_mem set_mem].
  rewrite ld64_st64 by (apply clear_bound; [apply leaf_bound|lia]).
  eapply wp_step; [apply kincref_spec|].
  - apply C2.
  - simpl. by rewrite (c_lk _ _ _ _ _ _ _ _ _ C2).
  - done.
  - simpl. split; [pose proof (cloned_ref_le _ _ _ _ _ _ _ _ _ q C2 Hk); lia|].
    pose proof (maps_mono (leaf (m_mem s) Ts) a (S k) n q ltac:(lia)) as Hmono. cbn [maps] in Hmono.
    fold va in Hmono. fold v in Hmono. unfold points_to in Hmono.
    rewrite Hv, Eq, Z.eqb_refl in Hmono. simpl in Hmono.
    destruct (c_ref _ _ _ _ _ _ _ _ _ C2 q) as [|[]]; lia.
  - intros [] s3 Hinc. apply wp_ret. split; [done|].
    eapply (cloned_share _ _ s Ts Td a k s2 Td2); try done. by eapply cloned_table.
Qed.

Lemma pgt_clone_spec rs rd Ts Td a n s :
  pt_ok (m_mem s) (m_kmem s) Ts rs → pt_ok (m_mem s) (m_kmem s) Td rd → apart Ts Td →
  kmem_ok (m_kmem s) → lockable LK_KMEM (m_lk s) →
  aligned a → 0 <= a → a + Z.of_nat n * PGSIZE <= MAXVA →
  (∀ i, 0 <= i < Z.of_nat n → clonable s Ts Td (leaf (m_mem s) Ts (a + i * PGSIZE))) →
  (∀ i, 0 <= i < Z.of_nat n → has (leaf (m_mem s) Td (a + i * PGSIZE)) PTE_V = false) →
  (∀ p, ref (m_kmem s) p + maps (leaf (m_mem s) Ts) a n p < 2 ^ 31) →
  wp (pgt_clone rs rd a (a + Z.of_nat n * PGSIZE)) (clone_post rs rd s Ts Td a n) s.
Proof.
  intros Hs Hdst Hap Hk Hl Ha H0 Hb Hcl Hd Hmax. unfold pgt_clone.
  destruct (good_range a n Ha H0 Hb) as [-> ->].
  apply wp_bind, (wp_for (λ k s', ∃ Td', cloned rs rd s Ts Td a k s' Td')).
  { exists Td. by apply cloned_0. }
  2: { intros s' [T' Hs']. apply wp_ret. exists T'. left. done. }
  intros k s1 Hkn [Td1 C1]. set (va := a + Z.of_nat k * PGSIZE).
  eapply wp_bind, wp_eq.
  { apply (pgt_walk_false Ts rs); [by apply C1|]. unfold va. lia. }
  assert (leaf (m_mem s1) Ts va = leaf (m_mem s) Ts va) as EL.
  { rewrite (c_lsrc _ _ _ _ _ _ _ _ _ C1). apply shared_next. }
  destruct (Ts !! (0, kidx 0 va)) as [ps|] eqn:Hps.
  2: { unfold slot. rewrite Hps. simpl. apply wp_ret. exists Td1. apply cloned_skip; [done|].
       fold va. unfold leaf. by rewrite Hps. }
  rewrite (proj2 (Z.eqb_neq _ _)) by (eapply slot_nonzero; [by apply (c_src _ _ _ _ _ _ _ _ _ C1)|done]).
  apply wp_bind, wp_gets. rewrite <- (leaf_slot _ _ _ _ Hps), EL.
  destruct (has (leaf (m_mem s) Ts va) PTE_V) eqn:Hv; simpl.
  2: { apply wp_ret. exists Td1. by apply cloned_skip. }
  destruct (Hcl (Z.of_nat k) ltac:(lia) Hv) as (_ & q & Eq & Hqm & Hqr & Hqs & Hqd).
  fold va in Eq. eapply wp_step; [apply (pgt_walk_true Td1 rd)|].
  { apply C1. } { apply C1. } { by rewrite (c_lk _ _ _ _ _ _ _ _ _ C1). } { unfold va. lia. }
  intros d s2 (Td2 & G & Hok2 & Hres).
  pose proof (cloned_grows _ _ _ _ _ _ _ _ _ _ _ Hk C1 G Hok2) as C2.
  destruct Hres as [[-> _]|[-> [pd Hpd]]]; simpl.
  { eapply wp_step; [eapply clone_undo; [exact C2|..]; try done; [lia|..]|].
    - intros i Hi. apply Hcl. lia.
    - intros i Hi. apply Hd. lia.
    - intros [] s3 Hs3. apply wp_ret. simpl. exists Td2. right. eauto. }
  rewrite (proj2 (Z.eqb_neq _ _)) by (by eapply slot_nonzero).
  rewrite Eq. eapply wp_mono; [by eapply clone_share_spec|].
  intros r s3 [-> C3]. eauto.
Qed.
End Clone.
