(* ===== verification/PtFree.v ===== *)
(** * Creating, reading and destroying page tables (kernel/pagetable.c)

    [pgt_new], [pgt_getpa], [pgt_clearubit] and the recursive [pgt_free]:
    freeing a page table without mappings gives back exactly its page-table
    pages. *)

From Stdlib Require Import ZifyBool.
From S2P Require Import Prelude Riscv Mem Random Spinlock Kalloc Pagetable PtSpec PtRange.

#[local] Ltac Zify.zify_post_hook ::= Z.to_euclidean_division_equations.

Section Single.
Context `{Linker}.

(** A new page table: one zeroed page without valid entries. *)
Definition new_tree (root : Z) : tree := {[ (2, 0) := root / PGSIZE ]}.

Definition new_post (s : machine) (r : Z) (s' : machine) : Prop :=
  (r = 0 ∧ m_lk s' ≡ m_lk s ∧ m_mem s' = m_mem s ∧ m_kmem s' = m_kmem s ∧ numfree (m_kmem s) = 0) ∨
  (r ≠ 0 ∧ pt_ok (m_mem s') (m_kmem s') (new_tree r) r ∧ ref (m_kmem s) (r / PGSIZE) = 0 ∧
   grows s ∅ s' (new_tree r) (λ _, 0) (λ _, 0)).

Lemma new_tree_lookup r x p : new_tree r !! x = Some p → x = (2, 0) ∧ p = r / PGSIZE.
Proof. unfold new_tree. intros [<- <-]%lookup_singleton_Some. done. Qed.

Lemma new_tree_ok m k p :
  managed p → ref k p = 1 → zero_page m p → pt_ok m k (new_tree (p * PGSIZE)) (p * PGSIZE).
Proof.
  intros Hp Hr Hz. assert (p * PGSIZE / PGSIZE = p) as E by (by apply Z.div_mul).
  split.
  - unfold new_tree. rewrite lookup_singleton_eq. split; [done|]. apply Z.mod_mul. lia.
  - intros l q p' [[= -> ->] _]%new_tree_lookup. lia.
  - intros x p' [_ ->]%new_tree_lookup. by rewrite E.
  - intros x y p' [-> _]%new_tree_lookup [-> _]%new_tree_lookup. done.
  - intros l q p' [[= -> ->] _]%new_tree_lookup. lia.
  - intros l q p' i Hl [[= -> ->] ->]%new_tree_lookup Hi. unfold new_tree.
    rewrite lookup_singleton_ne by (intros [=]). rewrite E.
    unfold has. rewrite ld_zero; [done|]. intros b Hb. apply Hz. by eapply entry_in_page.
Qed.

Lemma leaf_new m r va : leaf m (new_tree r) va = 0.
Proof. unfold leaf, new_tree. by rewrite lookup_singleton_ne. Qed.

Lemma pgt_new_spec s :
  kmem_ok (m_kmem s) → lockable LK_KMEM (m_lk s) → wp pgt_new (new_post s) s.
Proof.
  intros Hk Hl. unfold pgt_new. eapply wp_step; [by apply kalloc_spec|].
  intros pa s1 (Hlk & Hk1 & Hres). case_test.
  - apply wp_ret. left. destruct Hres as [(_ & Hn & Em & Ek)|(p & -> & Hm & _)].
    + split_and!; congruence || done. + by apply managed_nonzero in Hm.
  - destruct Hres as [(? & _)|(p & -> & Hp & Hr0 & Hn & Hr & Hm)]; [done|].
    apply wp_bind, wp_modify, wp_ret. right.
    assert (p * PGSIZE / PGSIZE = p) as Ep by (by apply Z.div_mul).
    rewrite Ep. split_and!; [done| |done|].
    { apply new_tree_ok; [done|simpl; by rewrite Hr, Z.eqb_refl|].
      intros a Ha. simpl. rewrite memset_in; [done|]. by apply in_page_iff. }
    split; simpl; try done.
    + apply map_empty_subseteq.
    + intros x p' [_ ->]%new_tree_lookup _. by rewrite Ep.
    + intros q. rewrite Hr. destruct (Z.eqb_spec q p) as [->|]; [right|left; lia].
      split; [done|]. exists (2, 0). unfold new_tree. by rewrite lookup_singleton_eq, Ep.
    + intros a Ha Hlive _. rewrite memset_out; [|lia|].
      * rewrite Hm, in_page_div. case_tests. destruct Ha. exists (2, 0). unfold new_tree.
        by rewrite lookup_singleton_eq, Ep.
      * intros Hin. apply Ha. exists (2, 0). unfold new_tree. rewrite lookup_singleton_eq, Ep.
        f_equal. assert (in_page p a = true) as Hpa by (apply in_page_iff; lia).
        rewrite in_page_div in Hpa. lia.
    + intros va. apply leaf_new.
Qed.

(** [pgt_getpa] reads the last-level entry. *)
Definition lookup_pa (v : Z) : Z := if has v PTE_V && has v PTE_U then PTE2PA v else 0.

Lemma pgt_getpa_run T root va s :
  pt_ok (m_mem s) (m_kmem s) T root → 0 <= va →
  pgt_getpa root va s = Ok (if va <? MAXVA then lookup_pa (leaf (m_mem s) T va) else 0, s).
Proof.
  intros Hok Hva. unfold pgt_getpa. destruct (Z.leb_spec MAXVA va).
  { rewrite (proj2 (Z.ltb_ge _ _)) by lia. done. }
  rewrite (proj2 (Z.ltb_lt va _)) by lia. unfold bind at 1.
  rewrite (pgt_walk_false T) by (done || lia).
  destruct (T !! (0, kidx 0 va)) as [p|] eqn:Hp.
  - rewrite (proj2 (Z.eqb_neq _ _)) by (by eapply slot_nonzero).
    unfold bind, load64, gets. rewrite <- (leaf_slot _ _ _ _ Hp). unfold lookup_pa.
    by destruct (has _ PTE_V), (has _ PTE_U).
  - unfold slot, leaf. by rewrite Hp.
Qed.

Lemma pgt_clearubit_spec T root va s :
  pt_ok (m_mem s) (m_kmem s) T root → kmem_ok (m_kmem s) → 0 <= va < MAXVA →
  has (leaf (m_mem s) T va) PTE_V = true →
  wp (pgt_clearubit root va)
     (λ _ s', pt_ok (m_mem s') (m_kmem s') T root ∧ m_lk s' = m_lk s ∧ m_kmem s' = m_kmem s ∧
        grows s T s' T (λ va', if va' / PGSIZE =? va / PGSIZE then clear (leaf (m_mem s) T va) PTE_U
                               else leaf (m_mem s) T va') (λ _, 0)) s.
Proof.
  intros Hok Hk Hva Hv. unfold pgt_clearubit.
  eapply wp_bind, wp_eq; [by apply (pgt_walk_false T)|].
  destruct (T !! (0, kidx 0 va)) as [p|] eqn:Hp.
  2: { unfold leaf in Hv. by rewrite Hp in Hv. }
  rewrite (proj2 (Z.eqb_neq _ _)) by (by eapply slot_nonzero).
  apply wp_bind, wp_gets. rewrite <- (leaf_slot _ _ _ _ Hp). apply wp_modify.
  destruct (grows_store s T s T (leaf (m_mem s) T) (λ _, 0) root va (clear (leaf (m_mem s) T va) PTE_U) p)
    as [G2 Hok2]; [by apply grows_refl|done|done| |done].
  apply clear_bound; [apply leaf_bound|lia].
Qed.
End Single.

(** ** Freeing a page table *)

(** The position [x] lies in the subtree of the table [(l, q)]. *)
Fixpoint under (l : nat) (q : Z) (x : Z * Z) : Prop :=
  x = (Z.of_nat l, q) ∨
  match l with
  | O => False
  | S l' => ∃ i, 0 <= i < 512 ∧ under l' (q * 512 + i) x
  end.

Lemma under_level l q x : under l q x → 0 <= x.1 <= Z.of_nat l.
Proof.
  revert q. induction l as [|l IH]; intros q [->|Hx]; simpl; try lia; try done.
  destruct Hx as (i & _ & Hx). apply IH in Hx. lia.
Qed.

Lemma under_inj l q q' x : under l q x → under l q' x → q = q'.
Proof.
  revert q q'. induction l as [|l IH]; intros q q' [E|Hx] [E'|Hx']; try done; try congruence.
  - destruct Hx' as (i & _ & Hx%under_level). subst x. simpl in Hx. lia.
  - destruct Hx as (i & _ & Hx%under_level). subst x. simpl in Hx. lia.
  - destruct Hx as (i & Hi & Hx), Hx' as (i' & Hi' & Hx'). pose proof (IH _ _ Hx Hx'). lia.
Qed.

Section Free.
Context `{Linker} (T : tree).
Hypothesis T_keys : ∀ l q p, T !! (l, q) = Some p → 0 <= l.
Hypothesis T_inj : ∀ x y p, T !! x = Some p → T !! y = Some p → x = y.
Hypothesis T_up : ∀ l q p, T !! (l, q) = Some p → l < 2 → is_Some (T !! (l + 1, q / 512)).

Definition sub_page (l : nat) (q p : Z) : Prop := ∃ x, under l q x ∧ T !! x = Some p.

(** The tables of a subtree, whose valid entries are those of [T]. *)
Definition sub_ok (m : mem) (k : kmem) (l : nat) (q : Z) : Prop :=
  ∀ l' q' p, under l q (l', q') → T !! (l', q') = Some p →
    managed p ∧ ref k p = 1 ∧ ∀ i, 0 <= i < 512 →
      match T !! (l' - 1, q' * 512 + i) with
      | Some c => ld64 m (entry (p * PGSIZE) i) = Z.lor (PA2PTE (c * PGSIZE)) PTE_V
      | None => has (ld64 m (entry (p * PGSIZE) i)) PTE_V = false
      end.

(** The pages of [X] have been given back, nothing else has changed. *)
Definition given_back (X : Z → Prop) (s s' : machine) : Prop :=
  m_lk s' ≡ m_lk s ∧ kmem_ok (m_kmem s') ∧
  (∀ p, X p → ref (m_kmem s') p = 0) ∧ (∀ p, ¬ X p → ref (m_kmem s') p = ref (m_kmem s) p) ∧
  (∀ a, ¬ X (a / PGSIZE) → ldb (m_mem s') a = ldb (m_mem s) a).

(** The pages below the first [i] entries of the table [(l, q)]. *)
Definition below (l : nat) (q i p : Z) : Prop :=
  match l with
  | O => False
  | S l' => ∃ j, 0 <= j < i ∧ sub_page l' (q * 512 + j) p
  end.

Lemma under_absent l q x : (l < 2)%nat → T !! (Z.of_nat l, q) = None → under l q x → T !! x = None.
Proof.
  revert q. induction l as [|l IH]; intros q Hl Hn [->|Hx]; try done.
  destruct Hx as (i & Hi & Hx). apply (IH (q * 512 + i)); [lia| |done].
  destruct (T !! (Z.of_nat l, q * 512 + i)) as [c|] eqn:E; [|done].
  destruct (T_up _ _ _ E) as [z Hz]; [lia|].
  replace ((q * 512 + i) / 512) with q in Hz by (rewrite Z.div_add_l, Z.div_small; lia).
  replace (Z.of_nat l + 1) with (Z.of_nat (S l)) in Hz by lia. congruence.
Qed.

Lemma sub_page_inj l q q' p : sub_page l q p → sub_page l q' p → q = q'.
Proof.
  intros (x & Hx & E) (y & Hy & E'). rewrite (T_inj _ _ _ E' E) in Hy. by eapply under_inj.
Qed.

Lemma sub_page_iff l q p : T !! (Z.of_nat l, q) = Some p → ∀ p', sub_page l q p' ↔ p' = p ∨ below l q 512 p'.
Proof.
  intros Hp p'. split.
  - intros (x & Hx & E). destruct l as [|l], Hx as [->|Hx].
    1, 3: left; congruence. { done. }
    destruct Hx as (i & Hi & Hx). right. exists i. split; [done|]. by exists x.
  - intros [->|Hb].
    + exists (Z.of_nat l, q). split; [|done]. destruct l; by left.
    + destruct l as [|l]; [done|]. destruct Hb as (j & Hj & x & Hx & E).
      exists x. split; [|done]. right. eauto.
Qed.

Lemma below_ne l q i p p' : T !! (Z.of_nat l, q) = Some p → below l q i p' → p' ≠ p.
Proof.
  destruct l as [|l]; [done|]. intros Hp (j & _ & x & Hx%under_level & E) ->.
  rewrite <- (T_inj _ _ _ Hp E) in Hx. simpl in Hx. lia.
Qed.

Lemma sub_ok_ext m m' k k' l q :
  sub_ok m k l q → (∀ p, sub_page l q p → ref k' p = ref k p) →
  (∀ p a, sub_page l q p → in_page p a = true → ldb m' a = ldb m a) → sub_ok m' k' l q.
Proof.
  intros Hs Hr Hm l' q' p Hu Hp. destruct (Hs _ _ _ Hu Hp) as (? & ? & He).
  assert (sub_page l q p) as Hsp by (by exists (l', q')).
  split_and!; [done|by rewrite Hr|]. intros i Hi. rewrite (ld64_page m m'); [by apply He|done|].
  intros a. by apply Hm.
Qed.

Lemma sub_ok_child m k l q i : 0 <= i < 512 → sub_ok m k (S l) q → sub_ok m k l (q * 512 + i).
Proof. intros Hi Hs l' q' p Hu. apply Hs. right. eauto. Qed.

(** The invariant of the loop over the entries of the table page [p]. *)
Definition freeing (l : nat) (q p i : Z) (s s' : machine) : Prop :=
  m_lk s' ≡ m_lk s ∧ kmem_ok (m_kmem s') ∧
  (∀ p', below l q i p' → ref (m_kmem s') p' = 0) ∧
  (∀ p', ¬ below l q i p' → ref (m_kmem s') p' = ref (m_kmem s) p') ∧
  (∀ a, a / PGSIZE ≠ p → ¬ below l q i (a / PGSIZE) → ldb (m_mem s') a = ldb (m_mem s) a) ∧
  (∀ j, i <= j < 512 → ld64 (m_mem s') (entry (p * PGSIZE) j) = ld64 (m_mem s) (entry (p * PGSIZE) j)).

Lemma freeing_0 l q p s : kmem_ok (m_kmem s) → freeing l q p 0 s s.
Proof.
  intros Hk. split_and!; try done. intros p'. destruct l as [|l]; [done|].
  intros (j & Hj & _). lia.
Qed.

Lemma freeing_skip l q p i s s' :
  freeing l q p i s s' → 0 <= i → (l <= 2)%nat → T !! (Z.of_nat l - 1, q * 512 + i) = None →
  freeing l q p (i + 1) s s'.
Proof.
  intros (J1 & J2 & J3 & J4 & J5 & J6) Hi Hl Hn.
  assert (∀ p', below l q (i + 1) p' ↔ below l q i p') as Hb.
  { intros p'. destruct l as [|l]; [done|]. split; intros (j & Hj & Hs); [|exists j; split; [lia|done]].
    destruct (decide (j = i)) as [->|]; [|exists j; split; [lia|done]].
    destruct Hs as (x & Hx & E). rewrite (under_absent l (q * 512 + i)) in E; [done|lia| |done].
    by replace (Z.of_nat (S l) - 1) with (Z.of_nat l) in Hn by lia. }
  split_and!; try done.
  - intros p'. rewrite Hb. apply J3.
  - intros p'. rewrite Hb. apply J4.
  - intros a. rewrite Hb. apply J5.
  - intros j Hj. apply J6. lia.
Qed.

Lemma below_child l q i p : 0 <= i → below (S l) q (i + 1) p ↔ below (S l) q i p ∨ sub_page l (q * 512 + i) p.
Proof.
  intros Hi. split.
  - intros (j & Hj & Hs). destruct (decide (j = i)) as [->|]; [by right|].
    left. exists j. split; [lia|done].
  - intros [(j & Hj & Hs)|Hs]; eexists; (split; [|exact Hs]); lia.
Qed.

Lemma below_other l q i p : below (S l) q i p → ¬ sub_page l (q * 512 + i) p.
Proof. intros (j & Hj & Hs) Hs'. pose proof (sub_page_inj _ _ _ _ Hs Hs'). lia. Qed.

(** One child freed and its entry cleared. *)
Lemma freeing_child l q p i s s1 s2 :
  T !! (Z.of_nat (S l), q) = Some p → 0 <= i < 512 →
  freeing (S l) q p i s s1 → given_back (sub_page l (q * 512 + i)) s1 s2 →
  freeing (S l) q p (i + 1) s (set_mem (st64 (m_mem s2) (entry (p * PGSIZE) i) 0) s2).
Proof.
  intros Hp Hi (J1 & J2 & J3 & J4 & J5 & J6) (B1 & B2 & B3 & B4 & B5).
  assert (¬ sub_page l (q * 512 + i) p) as Hnp.
  { intros (x & Hx%under_level & E). rewrite <- (T_inj _ _ _ Hp E) in Hx. simpl in Hx. lia. }
  split_and!.
  - simpl. by rewrite B1.
  - done.
  - intros p' [Hb|Hs]%below_child; [|by apply B3|lia]. simpl.
    rewrite B4 by (by apply below_other). by apply J3.
  - intros p' Hn. rewrite below_child in Hn by lia. simpl. rewrite B4, J4; tauto.
  - intros a Ha Hn. rewrite below_child in Hn by lia. cbn [m_mem set_mem]. rewrite ldb_st_out.
    + rewrite B5, J5; tauto.
    + intros Hin. apply Ha. pose proof (entry_in_page p i a Hi Hin) as E. rewrite in_page_div in E. lia.
  - intros j Hj. cbn [m_mem set_mem]. rewrite ld64_st64_entry; [|done|lia|intros [=]; lia].
    rewrite <- J6 by lia. apply ld64_page; [lia|]. intros a Ha. apply B5.
    rewrite in_page_div in Ha. by apply Z.eqb_eq in Ha as ->.
Qed.

(** An entry that names a page table has the valid bit and no permission. *)
Lemma table_entry c :
  managed c → let v := Z.lor (PA2PTE (c * PGSIZE)) PTE_V in
  has v PTE_V = true ∧ has v (Z.lor PTE_R (Z.lor PTE_W PTE_X)) = false ∧ PTE2PA v = c * PGSIZE.
Proof.
  intros Hc v. pose proof (managed_paddr _ Hc). unfold v, has.
  rewrite !(land_flags (Z.lor _ _)), PTE_FLAGS_mk, PTE2PA_mk by done. done.
Qed.

Lemma pgt_free_sub l q p s :
  (l <= 2)%nat → T !! (Z.of_nat l, q) = Some p → sub_ok (m_mem s) (m_kmem s) l q →
  kmem_ok (m_kmem s) → lockable LK_KMEM (m_lk s) →
  wp (pgt_free (S l) (p * PGSIZE)) (λ _ s', given_back (sub_page l q) s s') s.
Proof.
  revert q p s. induction l as [l IH] using lt_wf_ind; intros q p s Hl2 Hp Hsub Hk Hl.
  destruct (Hsub (Z.of_nat l) q p) as (Hm & Hr1 & He); [destruct l; by left|done|].
  cbn [pgt_free]. apply wp_bind, (wp_for (λ k s', freeing l q p (Z.of_nat k) s s')).
  - by apply freeing_0.
  - intros k s1 Hk512 J. rewrite Z.mul_1_r, Z.add_0_l. set (i := Z.of_nat k) in *.
    replace (Z.of_nat (S k)) with (i + 1) by lia.
    pose proof J as (J1 & J2 & J3 & J4 & J5 & J6). apply wp_bind, wp_gets. rewrite J6 by lia.
    specialize (He i ltac:(lia)).
    destruct (T !! (Z.of_nat l - 1, q * 512 + i)) as [c|] eqn:Ec.
    2: { rewrite He. simpl. apply wp_ret. apply freeing_skip; [done|lia..|done]. }
    destruct l as [|l]; [by apply T_keys in Ec|].
    replace (Z.of_nat (S l) - 1) with (Z.of_nat l) in Ec by lia.
    assert (sub_ok (m_mem s) (m_kmem s) l (q * 512 + i)) as Hc by (apply sub_ok_child; [lia|done]).
    destruct (Hc (Z.of_nat l) (q * 512 + i) c) as (Hcm & _); [destruct l; by left|done|].
    destruct (table_entry c Hcm) as (E1 & E2 & E3). rewrite He, E1, E2, E3. simpl.
    eapply wp_step; [apply (IH l ltac:(lia) (q * 512 + i) c s1); [lia|done| |done|by rewrite J1]|].
    + eapply sub_ok_ext; [exact Hc|..].
      * intros p' Hp'. apply J4. intros Hb. by apply (below_other _ _ _ _ Hb).
      * intros p' a Hp' Ha. rewrite in_page_div in Ha. apply Z.eqb_eq in Ha. apply J5; rewrite Ha.
        -- eapply (below_ne (S l) q (i + 1)); [done|]. apply below_child; [lia|by right].
        -- intros Hb. by apply (below_other _ _ _ _ Hb).
    + intros [] s2 Hback. apply wp_bind, wp_modify, wp_ret. eapply freeing_child; [done|lia|done|done].
  - intros s1 (J1 & J2 & J3 & J4 & J5 & J6). change (Z.of_nat 512) with 512 in *.
    assert (¬ below l q 512 p) as Hnb by (intros Hb; by apply (below_ne _ _ _ _ _ Hp Hb)).
    assert (ref (m_kmem s1) p = 1) as Hr by (by rewrite J4).
    eapply wp_mono; [apply kfree_spec; [done|by rewrite J1|done|lia]|].
    intros [] s2 (F1 & F2 & F3 & F4 & F5). pose proof (sub_page_iff l q p Hp) as Hiff.
    split_and!; [by rewrite F1|done|..].
    + intros p' [->|Hb]%Hiff; rewrite F3; [rewrite Z.eqb_refl; lia|].
      rewrite (proj2 (Z.eqb_neq _ _)); [by apply J3|]. by eapply below_ne.
    + intros p' Hn. rewrite Hiff in Hn. rewrite F3, (proj2 (Z.eqb_neq _ _)), J4; tauto.
    + intros a Hn. rewrite Hiff in Hn. rewrite F5, in_page_div, (proj2 (Z.eqb_neq (a / _) _)), andb_false_r, J5; tauto.
Qed.
End Free.

Section FreeAll.
Context `{Linker}.

Lemma all_under m k T root x p : pt_ok m k T root → T !! x = Some p → under 2 0 x.
Proof.
  intros Hok. destruct x as [l q]. intros Hx.
  destruct (pt_keys _ _ _ _ Hok _ _ _ Hx) as (Hl & Hq & H2).
  destruct (decide (l = 2)) as [->|]; [left; by rewrite H2|right].
  destruct (pt_up _ _ _ _ Hok _ _ _ Hx) as [p1 Hp1]; [lia|].
  destruct (pt_keys _ _ _ _ Hok _ _ _ Hp1) as (_ & Hq1 & H21).
  destruct (decide (l = 1)) as [->|].
  { specialize (H21 eq_refl). exists q. split; [lia|]. left. f_equal; lia. }
  assert (l = 0) as -> by lia.
  destruct (pt_up _ _ _ _ Hok _ _ _ Hp1) as [p2 Hp2]; [lia|].
  destruct (pt_keys _ _ _ _ Hok _ _ _ Hp2) as (_ & _ & H22). specialize (H22 eq_refl).
  exists (q / 512). split; [lia|]. right. exists (q mod 512). split; [lia|]. left. f_equal; lia.
Qed.

(** Every last-level entry is the entry of some address. *)
Lemma leaf_at m k T root q p i :
  pt_ok m k T root → T !! (0, q) = Some p → 0 <= i < 512 →
  ∃ va, leaf m T va = ld64 m (entry (p * PGSIZE) i).
Proof.
  intros Hok Hp Hi. exists (q * 2097152 + i * PGSIZE).
  assert (kidx 0 (q * 2097152 + i * PGSIZE) = q) as Ek.
  { unfold kidx. change (2 ^ (12 + 9 * (0 + 1))) with 2097152. lia. }
  assert (PX 0 (q * 2097152 + i * PGSIZE) = i) as Ex.
  { rewrite PX_eq by lia. change (2 ^ (12 + 9 * 0)) with PGSIZE. lia. }
  unfold leaf. by rewrite Ek, Ex, Hp.
Qed.

(** Freeing a page table without valid leaves. *)
Lemma pgt_free_spec T root s :
  pt_ok (m_mem s) (m_kmem s) T root → kmem_ok (m_kmem s) → lockable LK_KMEM (m_lk s) →
  (∀ va, has (leaf (m_mem s) T va) PTE_V = false) →
  wp (pgt_free 3 root) (λ _ s', given_back (is_table T) s s') s.
Proof.
  intros Hok Hk Hl Hleaf. rewrite (root_page _ _ _ _ Hok).
  assert (∀ p, sub_page T 2 0 p ↔ is_table T p) as Hiff.
  { intros p. split; intros [x Hx]; [exists x; by apply Hx|]. exists x. split; [|done]. by eapply all_under. }
  eapply wp_mono; [apply (pgt_free_sub T) with (l := 2%nat) (q := 0)|].
  - intros l q p Hp. apply (pt_keys _ _ _ _ Hok) in Hp as [? _]. lia.
  - apply (pt_inj _ _ _ _ Hok).
  - apply (pt_up _ _ _ _ Hok).
  - lia.
  - apply Hok.
  - intros l' q' p Hu Hp. destruct (pt_pages _ _ _ _ Hok _ _ Hp). split_and!; [done|done|].
    intros i Hi. destruct (pt_keys _ _ _ _ Hok _ _ _ Hp) as (Hl' & Hq' & _).
    destruct (decide (l' = 0)) as [->|]; [|apply (pt_entry _ _ _ _ Hok); [lia|done|done]].
    destruct (T !! (0 - 1, q' * 512 + i)) as [c|] eqn:E; [apply (pt_keys _ _ _ _ Hok) in E as [? _]; lia|].
    pose proof (leaf_at _ _ _ _ _ _ _ Hok Hp Hi) as (va & <-). by apply Hleaf.
  - done.
  - done.
  - intros [] s' (B1 & B2 & B3 & B4 & B5). split_and!; [done|done|..].
    + intros p Hp. by apply B3, Hiff.
    + intros p Hp. apply B4. by rewrite Hiff.
    + intros a Ha. apply B5. by rewrite Hiff.
Qed.
End FreeAll.
