(* ===== verification/PtProps.v ===== *)
(** * Correctness of kernel/pagetable.c

    The properties of mapping, unmapping, allocating, cloning and freeing,
    with a machine of sixteen pages on which they are run. *)

From Stdlib Require Import ZifyBool.
From S2P Require Import Prelude Riscv Mem Random Spinlock Kalloc Pagetable PtSpec PtRange PtFree.

Section Props.
Context `{Linker}.

(** The translation of [va] that [pgt_getpa] answers. *)
Definition translate (m : mem) (T : tree) (va : Z) : Z :=
  if va <? MAXVA then lookup_pa (leaf m T va) else 0.

(** [pgt_map] of an unmapped page returns.  On success
    [pgt_getpa] answers [pa] for every address of that page and what it
    answered before for every other address.  It fails only when the
    allocator is empty, and then no translation has changed.  In both cases
    the only pages taken are new page-table pages. *)
Theorem pgt_map_correct T root va pa flags s :
  pt_ok (m_mem s) (m_kmem s) T root → kmem_ok (m_kmem s) → lockable LK_KMEM (m_lk s) →
  0 <= va < MAXVA → aligned va → paddr pa → 0 <= flags < 1024 →
  has (leaf (m_mem s) T va) PTE_V = false →
  wp (pgt_map root va pa flags) (λ r s', map_post root va pa flags s T r s' ∧
    ∀ va', 0 <= va' → pgt_getpa root va' s' =
      Ok (if (r =? 0) && same_page va' va then pa else translate (m_mem s) T va', s')) s.
Proof.
  intros Hok Hk Hl Hva Hal Hpa Hf Hinv. eapply wp_mono; [by apply pgt_map_spec|].
  intros r s' Hpost. split; [done|]. intros va' Hva'. destruct Hpost as (T' & Hok' & Hres).
  rewrite (pgt_getpa_run T') by done. f_equal. f_equal. unfold translate.
  destruct Hres as [(-> & G & _)|(-> & G)]; rewrite (g_leaf _ _ _ _ _ _ G); simpl; [done|].
  unfold same_page. destruct (Z.eqb_spec (va' / PGSIZE) (va / PGSIZE)) as [E|]; [|done].
  unfold lookup_pa. rewrite mk_leaf_V, mk_leaf_pa by done.
  assert (has (mk_leaf pa flags) PTE_U = true) as ->.
  { unfold has. rewrite land_flags, mk_leaf_flags by done || lia. unfold truthy.
    apply negb_true_iff, Z.eqb_neq. intros E0.
    assert (Z.testbit (Z.land (Z.lor (Z.lor flags PTE_V) PTE_U) PTE_U) 4 = false) as Hb by (by rewrite E0).
    rewrite Z.land_spec, Z.lor_spec in Hb. by rewrite orb_true_r in Hb. }
  simpl. unfold aligned in Hal. pose proof (Z.div_mod va PGSIZE). pose proof (Z.div_mod va' PGSIZE).
  pose proof (Z.mod_pos_bound va' PGSIZE). rewrite (proj2 (Z.ltb_lt _ _)); [done|].
  change MAXVA with (67108864 * PGSIZE) in *. lia.
Qed.

(** A page that is mapped is never mapped again: [pgt_map]
    panics, before any entry is written. *)
Theorem pgt_map_no_remap T root va pa flags s :
  pt_ok (m_mem s) (m_kmem s) T root → 0 <= va < MAXVA → aligned va → paddr pa →
  has (leaf (m_mem s) T va) PTE_V = true →
  pgt_map root va pa flags s = Panic "pgt_map: remap".
Proof. apply pgt_map_remap. Qed.

(** Unmapping a range clears its valid entries and no
    other; with [dealloc], the count of every page drops by the number of
    entries that named it, and a page that loses its last reference is
    free again; pages still in use keep their contents. *)
Theorem pgt_unmap_impl_correct T root a n dealloc s :
  pt_ok (m_mem s) (m_kmem s) T root → kmem_ok (m_kmem s) → lockable LK_KMEM (m_lk s) →
  aligned a → 0 <= a → a + Z.of_nat n * PGSIZE <= MAXVA →
  (∀ i, 0 <= i < Z.of_nat n → leaf_ok T dealloc (leaf (m_mem s) T (a + i * PGSIZE))) →
  (dealloc = true → ∀ p, maps (leaf (m_mem s) T) a n p <= ref (m_kmem s) p) →
  wp (pgt_unmap_impl root a (a + Z.of_nat n * PGSIZE) dealloc)
     (λ _ s', shrinks root T a n dealloc s s' ∧
              ∀ p, managed p → on_freelist (m_kmem s') p ↔ ref (m_kmem s') p = 0) s.
Proof.
  intros. eapply wp_mono; [by apply pgt_unmap_impl_spec|]. intros [] s' Hs. split; [done|].
  intros p Hp. rewrite (ok_free _ (sh_kmem _ _ _ _ _ _ _ Hs)). tauto.
Qed.

(** [pgt_allocmap] of an unmapped range returns.  On
    success every page of the range is mapped with the flags to a page of
    its own, zeroed, that was free before; on failure (answer 0) all data
    pages taken have been given back.  The rest of the page table and all
    pages in use are unchanged. *)
Theorem pgt_allocmap_correct T root a n flags s :
  pt_ok (m_mem s) (m_kmem s) T root → kmem_ok (m_kmem s) → lockable LK_KMEM (m_lk s) →
  aligned a → 0 <= a → a + Z.of_nat n * PGSIZE <= MAXVA → 0 <= flags < 1024 →
  (∀ i, 0 <= i < Z.of_nat n → has (leaf (m_mem s) T (a + i * PGSIZE)) PTE_V = false) →
  wp (pgt_allocmap root a (a + Z.of_nat n * PGSIZE) flags) (allocmap_post root s T a n flags) s.
Proof. apply pgt_allocmap_spec. Qed.

(** [pgt_allocmap] followed by [pgt_deallocunmap] of the
    same range leaks nothing: every count is what it was, but for new
    page-table pages, and the range is unmapped. *)
Theorem allocmap_dealloc_roundtrip T root a n flags s :
  pt_ok (m_mem s) (m_kmem s) T root → kmem_ok (m_kmem s) → lockable LK_KMEM (m_lk s) →
  aligned a → 0 < a → a + Z.of_nat n * PGSIZE <= MAXVA → 0 <= flags < 1024 →
  (∀ i, 0 <= i < Z.of_nat n → leaf (m_mem s) T (a + i * PGSIZE) = 0) →
  wp (let! r := pgt_allocmap root a (a + Z.of_nat n * PGSIZE) flags in
      if r =? 0 then ret tt else pgt_deallocunmap root a (a + Z.of_nat n * PGSIZE))
     (λ _ s', ∃ T', pt_ok (m_mem s') (m_kmem s') T' root ∧
                    grows s T s' T' (leaf (m_mem s) T) (λ _, 0)) s.
Proof.
  intros Hok Hk Hl Ha H0 Hb Hf Hz.
  assert (∀ k va, (k <= n)%nat → (if in_range a k va then 0 else leaf (m_mem s) T va) = leaf (m_mem s) T va) as HL.
  { intros k va Hkn. case_match eqn:E; [|done]. unfold in_range in E.
    rewrite <- (Hz (va / PGSIZE - a / PGSIZE)) by lia. apply leaf_page.
    unfold same_page. rewrite Z.div_add; lia. }
  eapply wp_step; [apply pgt_allocmap_spec; try done; [lia|]|].
  { intros i Hi. by rewrite Hz. }
  intros r s1 (T' & [(-> & F)|(-> & Hok' & k & Hk' & G)]).
  - rewrite (proj2 (Z.eqb_neq _ _)) by lia. pose proof F as (G & Hok' & _).
    eapply wp_mono; [eapply (fill_undo root s T s1 T' s1 T'); try done; [lia|]|].
    { apply grows_refl, G. }
    intros [] s' [Hok2 G2]. exists T'. split; [done|].
    eapply grows_ext; [| |exact G2]; [|done]. intros va. by apply HL.
  - simpl. apply wp_ret. exists T'. split; [done|].
    eapply grows_ext; [| |exact G]; [|done]. intros va. apply HL. lia.
Qed.

(** [pgt_clone] shares the mapped pages of a range copy on
    write: afterwards the source and the destination name the same pages
    with the same flags, without write permission, the count of each page
    has grown by the number of its entries, and no page has been copied or
    changed.  When a page-table page cannot be had, the destination is
    unmapped again and all counts are what they were. *)
Theorem pgt_clone_correct rs rd Ts Td a n s :
  pt_ok (m_mem s) (m_kmem s) Ts rs → pt_ok (m_mem s) (m_kmem s) Td rd → apart Ts Td →
  kmem_ok (m_kmem s) → lockable LK_KMEM (m_lk s) →
  aligned a → 0 <= a → a + Z.of_nat n * PGSIZE <= MAXVA →
  (∀ i, 0 <= i < Z.of_nat n → clonable s Ts Td (leaf (m_mem s) Ts (a + i * PGSIZE))) →
  (∀ i, 0 <= i < Z.of_nat n → has (leaf (m_mem s) Td (a + i * PGSIZE)) PTE_V = false) →
  (∀ p, ref (m_kmem s) p + maps (leaf (m_mem s) Ts) a n p < 2 ^ 31) →
  wp (pgt_clone rs rd a (a + Z.of_nat n * PGSIZE)) (clone_post rs rd s Ts Td a n) s.
Proof. apply pgt_clone_spec. Qed.

(** [pgt_free] of a page table without mappings returns (three
    levels of recursion suffice), gives back exactly its page-table pages
    and touches nothing else. *)
Theorem pgt_free_correct T root s :
  pt_ok (m_mem s) (m_kmem s) T root → kmem_ok (m_kmem s) → lockable LK_KMEM (m_lk s) →
  (∀ va, has (leaf (m_mem s) T va) PTE_V = false) →
  wp (pgt_free 3 root) (λ _ s', given_back (is_table T) s s') s.
Proof. apply pgt_free_spec. Qed.
End Props.

(** ** A concrete run

    [pgt_new], two pages mapped at 0 with [pgt_allocmap], then a second page
    table. *)

Definition demo_root : Z := (MAXPAGES - 1) * PGSIZE.
Definition demo_root2 : Z := (MAXPAGES - 6) * PGSIZE.
Abbreviation PTE_RW := 6.
Definition demo_s1 : machine := after pgt_new demo_machine.
Definition demo_s2 : machine := after (pgt_allocmap demo_root 0 (0 + Z.of_nat 2 * PGSIZE) PTE_RW) demo_s1.
Definition demo_s3 : machine := after pgt_new demo_s2.

Definition usable (s : machine) : Prop := kmem_ok (m_kmem s) ∧ lockable LK_KMEM (m_lk s).

Lemma grows_usable s T s' T' L R :
  grows s T s' T' L R → lockable LK_KMEM (m_lk s) → usable s'.
Proof. intros G Hl. split; [apply G|]. by rewrite (g_lk _ _ _ _ _ _ G). Qed.

Lemma demo_s1_ok : usable demo_s1 ∧ pt_ok (m_mem demo_s1) (m_kmem demo_s1) (new_tree demo_root) demo_root.
Proof.
  destruct (wp_answer _ _ _ demo_root (pgt_new_spec demo_machine demo_ok (demo_lockable _))) as [[? _]|(_ & Hok & _ & G)].
  - vm_compute. reflexivity.
  - done.
  - fold demo_s1 in Hok, G. split; [|exact Hok]. eapply grows_usable; [exact G|apply demo_lockable].
Qed.

Lemma demo_s2_ok : ∃ T, usable demo_s2 ∧ filled demo_root demo_s1 (new_tree demo_root) 0 2 PTE_RW demo_s2 T.
Proof.
  destruct demo_s1_ok as ([Hk Hl] & Hok).
  assert (answer (pgt_allocmap demo_root 0 (0 + Z.of_nat 2 * PGSIZE) PTE_RW) demo_s1 = Some 8192) as Ea
    by (vm_compute; reflexivity).
  destruct (wp_answer _ _ _ _ (pgt_allocmap_spec (new_tree demo_root) demo_root 0 2 PTE_RW demo_s1 Hok Hk Hl
    eq_refl ltac:(lia) ltac:(lia) ltac:(lia) ltac:(intros; by rewrite leaf_new)) Ea) as (T & [(_ & F)|(E & _)]);
    [|discriminate E].
  fold demo_s2 in F. exists T. split; [|exact F]. eapply grows_usable; [apply F|exact Hl].
Qed.

Lemma demo_s3_ok : ∃ T, usable demo_s3 ∧ pt_ok (m_mem demo_s3) (m_kmem demo_s3) T demo_root ∧
  pt_ok (m_mem demo_s3) (m_kmem demo_s3) (new_tree demo_root2) demo_root2 ∧ apart T (new_tree demo_root2) ∧
  (∀ va, leaf (m_mem demo_s3) T va = leaf (m_mem demo_s2) T va) ∧
  filled demo_root demo_s1 (new_tree demo_root) 0 2 PTE_RW demo_s2 T ∧
  grows demo_s2 ∅ demo_s3 (new_tree demo_root2) (λ _, 0) (λ _, 0).
Proof.
  destruct demo_s2_ok as (T & [Hk Hl] & F). exists T.
  destruct (wp_answer _ _ _ demo_root2 (pgt_new_spec demo_s2 Hk Hl)) as [[? _]|(_ & Hok & _ & G)].
  - vm_compute. reflexivity.
  - done.
  - fold demo_s3 in Hok, G. destruct (grows_apart _ _ _ _ _ _ T demo_root G) as (Hap & Hok1 & HL); [apply F| |done|].
    { intros p _ [x Hx]. by rewrite lookup_empty in Hx. }
    split_and!; try assumption. eapply grows_usable; [exact G|exact Hl].
Qed.

#[local] Opaque demo_s1 demo_s2 demo_s3.

Lemma pgt_map_correct_witness :
  wp (pgt_map demo_root PGSIZE (7 * PGSIZE) PTE_RW)
     (λ r s', map_post demo_root PGSIZE (7 * PGSIZE) PTE_RW demo_s1 (new_tree demo_root) r s' ∧
      ∀ va', 0 <= va' → pgt_getpa demo_root va' s' =
        Ok (if (r =? 0) && same_page va' PGSIZE then 7 * PGSIZE
            else translate (m_mem demo_s1) (new_tree demo_root) va', s')) demo_s1.
Proof.
  destruct demo_s1_ok as ([Hk Hl] & Hok).
  apply (pgt_map_correct (new_tree demo_root) demo_root PGSIZE (7 * PGSIZE) PTE_RW demo_s1 Hok Hk Hl);
    [lia|done|split; [lia|done]|lia|by rewrite leaf_new].
Defined.

Lemma pgt_map_no_remap_witness :
  pgt_map demo_root PGSIZE (7 * PGSIZE) PTE_RW demo_s2 = Panic "pgt_map: remap".
Proof.
  destruct demo_s2_ok as (T & [Hk Hl] & F). pose proof F as (G & Hok & _ & Hfresh).
  apply (pgt_map_no_remap T demo_root PGSIZE (7 * PGSIZE) PTE_RW demo_s2 Hok); [lia|done|split; [lia|done]|].
  eapply (fresh_leaf_ok demo_s1 demo_s2 T PTE_RW); [lia|]. apply (Hfresh 1). lia.
Defined.

Lemma pgt_unmap_impl_correct_witness :
  ∃ T, wp (pgt_unmap_impl demo_root 0 (0 + Z.of_nat 2 * PGSIZE) true)
       (λ _ s', shrinks demo_root T 0 2 true demo_s2 s' ∧
                ∀ p, managed p → on_freelist (m_kmem s') p ↔ ref (m_kmem s') p = 0) demo_s2.
Proof.
  destruct demo_s2_ok as (T & [Hk Hl] & F). pose proof F as (G & Hok & _ & Hfresh). exists T.
  apply (pgt_unmap_impl_correct T demo_root 0 2 true demo_s2 Hok Hk Hl); [done|lia|lia|..].
  - intros i Hi. eapply (fresh_leaf_ok demo_s1 demo_s2 T PTE_RW); [lia|]. by apply Hfresh.
  - intros _ p. destruct (g_ref _ _ _ _ _ _ G p) as [->|[Hr Ht]].
    + pose proof (ok_refs _ (proj1 (proj1 demo_s1_ok)) p). lia.
    + rewrite maps_absent; [apply (ok_refs _ Hk)|]. intros i Hi.
      destruct (Hfresh i Hi) as (q & -> & Hq & _ & _ & Hqt & _). rewrite points_mk_leaf by (done || lia).
      apply Z.eqb_neq. by intros ->.
Defined.

Lemma pgt_allocmap_correct_witness :
  wp (pgt_allocmap demo_root 0 (0 + Z.of_nat 2 * PGSIZE) PTE_RW)
     (allocmap_post demo_root demo_s1 (new_tree demo_root) 0 2 PTE_RW) demo_s1.
Proof.
  destruct demo_s1_ok as ([Hk Hl] & Hok).
  apply (pgt_allocmap_correct (new_tree demo_root) demo_root 0 2 PTE_RW demo_s1 Hok Hk Hl); [done|lia..|].
  intros. by rewrite leaf_new.
Defined.

Lemma allocmap_dealloc_roundtrip_witness :
  wp (let! r := pgt_allocmap demo_root PGSIZE (PGSIZE + Z.of_nat 2 * PGSIZE) PTE_RW in
      if r =? 0 then ret tt else pgt_deallocunmap demo_root PGSIZE (PGSIZE + Z.of_nat 2 * PGSIZE))
     (λ _ s', ∃ T', pt_ok (m_mem s') (m_kmem s') T' demo_root ∧
                    grows demo_s1 (new_tree demo_root) s' T' (leaf (m_mem demo_s1) (new_tree demo_root)) (λ _, 0)) demo_s1.
Proof.
  destruct demo_s1_ok as ([Hk Hl] & Hok).
  apply (allocmap_dealloc_roundtrip (new_tree demo_root) demo_root PGSIZE 2 PTE_RW demo_s1 Hok Hk Hl); [done|lia..|].
  intros. by rewrite leaf_new.
Defined.

Lemma pgt_free_correct_witness :
  wp (pgt_free 3 demo_root) (λ _ s', given_back (is_table (new_tree demo_root)) demo_s1 s') demo_s1.
Proof.
  destruct demo_s1_ok as ([Hk Hl] & Hok).
  apply (pgt_free_correct (new_tree demo_root) demo_root demo_s1 Hok Hk Hl).
  intros. by rewrite leaf_new.
Defined.

(** The data pages of the first page table as the second one is created. *)
Lemma demo_s3_data T i :
  filled demo_root demo_s1 (new_tree demo_root) 0 2 PTE_RW demo_s2 T →
  grows demo_s2 ∅ demo_s3 (new_tree demo_root2) (λ _, 0) (λ _, 0) →
  pt_ok (m_mem demo_s3) (m_kmem demo_s3) T demo_root →
  0 <= i < Z.of_nat 2 → ∃ q, leaf (m_mem demo_s2) T (0 + i * PGSIZE) = mk_leaf (q * PGSIZE) PTE_RW ∧
    managed q ∧ ref (m_kmem demo_s3) q = 1 ∧ ¬ is_table T q ∧ ¬ is_table (new_tree demo_root2) q.
Proof.
  intros (_ & _ & _ & Hfresh) G Hok Hi. destruct (Hfresh i Hi) as (q & E & Hm & _ & Hr & Ht & _).
  exists q. assert (¬ is_table (new_tree demo_root2) q) as Hn.
  { eapply grows_table; [exact G|lia|]. intros [x Hx]. by rewrite lookup_empty in Hx. }
  split_and!; [exact E|exact Hm| |exact Ht|exact Hn].
  destruct (g_ref _ _ _ _ _ _ G q) as [E3|[_ Hq]]; [rewrite E3, Hr; reflexivity|destruct (Hn Hq)].
Qed.

Lemma pgt_clone_correct_witness :
  ∃ T, wp (pgt_clone demo_root demo_root2 0 (0 + Z.of_nat 2 * PGSIZE))
          (clone_post demo_root demo_root2 demo_s3 T (new_tree demo_root2) 0 2) demo_s3.
Proof.
  destruct demo_s3_ok as (T & [Hk Hl] & Hok & Hok2 & Hap & HL & F & G). exists T.
  apply (pgt_clone_correct demo_root demo_root2 T (new_tree demo_root2) 0 2 demo_s3 Hok Hok2 Hap Hk Hl);
    [done|lia|lia|..].
  - intros i Hi _. rewrite HL. destruct (demo_s3_data T i F G Hok Hi) as (q & -> & Hm & Hr & Ht & Hn).
    rewrite clear_flags, mk_leaf_flags, mk_leaf_pa by (lia || by apply managed_paddr).
    split; [done|]. exists q. split_and!; [done|exact Hm|lia|exact Ht|exact Hn].
  - intros i Hi. by rewrite leaf_new.
  - intros p. cbn [maps]. pose proof (ok_refs _ Hk p).
    assert (ref (m_kmem demo_s3) p <= 1) as Hle; [|unfold b2z; repeat case_match; lia].
    assert (Forall (λ x, x.2 <= 1) (map_to_list (refs (m_kmem demo_s3)))) as Hall.
    { vm_compute. repeat constructor; discriminate. }
    unfold ref. destruct (refs (m_kmem demo_s3) !! p) as [r|] eqn:E; [|simpl; lia].
    apply elem_of_map_to_list in E. rewrite Forall_forall in Hall. apply (Hall _ E).
Defined.
