(* ===== verification/Kvm.v ===== *)
(** * The page table of the kernel (kernel/pagetable.c)

    What [kvminit] maps, and that the pages left after [kinit] are enough for it. *)

From Stdlib Require Import ZifyBool.
From S2P Require Import Prelude Riscv Mem Random Spinlock Kalloc Pagetable PtSpec PtRange PtFree.

(** Linear arithmetic with quotients and remainders. *)
Ltac div_lia := Z.to_euclidean_division_equations; lia.

#[local] Abbreviation UART0 := 268435456.
#[local] Abbreviation VIRTIO0 := 268439552.
#[local] Abbreviation PLIC := 201326592.
#[local] Abbreviation PTE_RW := (Z.lor PTE_R PTE_W).
#[local] Abbreviation PTE_RX := (Z.lor PTE_R PTE_X).

(** ** The plan of the kernel's address space *)

(** [r_pages] pages from [r_va], mapped to as many from [r_pa]. *)
Record region := mkRegion { r_va : Z; r_pa : Z; r_pages : nat; r_flags : Z }.

(** The entry [kvmmap] writes. *)
Definition kleaf (pa flags : Z) : Z := Z.lor (Z.lor (PA2PTE pa) flags) PTE_V.

Definition covers (r : region) (va : Z) : bool := in_range (r_va r) (r_pages r) va.
Definition region_leaf (r : region) (va : Z) : Z :=
  kleaf (r_pa r + (va / PGSIZE - r_va r / PGSIZE) * PGSIZE) (r_flags r).

(** The entry of [va]: that of the region it lies in, if any. *)
Fixpoint plan_leaf (rs : list region) (va : Z) : Z :=
  match rs with
  | [] => 0
  | r :: rs' => if covers r va then region_leaf r va else plan_leaf rs' va
  end.

(** The kernel stacks in the pages [stk], that of the last process first. *)
Fixpoint stack_regions (stk : list Z) : list region :=
  match stk with
  | [] => []
  | p :: stk' => mkRegion (KSTACK (Z.of_nat (length stk'))) (p * PGSIZE) 1 PTE_RW :: stack_regions stk'
  end.

Section Plan.
Context `{Linker}.

Definition device_regions : list region :=
  [ mkRegion PLIC PLIC 1024 PTE_RW; mkRegion VIRTIO0 VIRTIO0 1 PTE_RW; mkRegion UART0 UART0 1 PTE_RW ].
Definition image_regions : list region :=
  [ mkRegion TRAMPOLINE trampoline 1 PTE_RX;
    mkRegion etext etext (Z.to_nat ((PHYSTOP - etext) / PGSIZE)) PTE_RW;
    mkRegion KERNBASE KERNBASE (Z.to_nat ((etext - KERNBASE) / PGSIZE)) PTE_RX ].
Definition kernel_plan (stk : list Z) : list region := stack_regions stk ++ image_regions ++ device_regions.
End Plan.

(** The positions of the table pages the plan needs. *)
Definition kernel_tables : list (Z * Z) :=
  [(2, 0); (1, 0); (1, 2); (1, 255); (0, 96); (0, 97); (0, 128); (0, 131071)] ++ (pair 0 <$> seqZ 1024 64).

Definition on_plan (va : Z) : Prop := (0, kidx 0 va) ∈ kernel_tables ∧ (1, kidx 1 va) ∈ kernel_tables.

Lemma kernel_tables_0 q : (0, q) ∈ kernel_tables ↔ q ∈ [96; 97; 128; 131071] ∨ 1024 <= q < 1088.
Proof.
  unfold kernel_tables. rewrite elem_of_app, list_elem_of_fmap. split.
  - intros [Hq|(x & [= ->] & Hx%elem_of_seqZ)]; [|right; lia]. left. set_solver.
  - intros [Hq|Hq]; [left; set_solver|]. right. exists q. split; [done|]. apply elem_of_seqZ. lia.
Qed.

Lemma on_plan_intro va :
  (PLIC <= va < PLIC + 4194304 ∨ UART0 <= va < UART0 + 8192 ∨ KERNBASE <= va < PHYSTOP ∨ MAXVA - 1048576 <= va < MAXVA) → on_plan va.
Proof.
  intros Hva. split.
  - apply kernel_tables_0. unfold kidx. change (2 ^ (12 + 9 * (0 + 1))) with 2097152.
    rewrite !elem_of_cons, elem_of_nil. div_lia.
  - unfold kidx. change (2 ^ (12 + 9 * (1 + 1))) with 1073741824.
    assert (va / 1073741824 = 0 ∨ va / 1073741824 = 2 ∨ va / 1073741824 = 255) as [-> |[-> | ->]] by div_lia; unfold kernel_tables; set_solver.
Qed.

(** Fewer table pages than positions, while a position is free. *)
Lemma tables_bound (T : tree) x : (∀ y, is_Some (T !! y) → y ∈ kernel_tables) → x ∈ kernel_tables → T !! x = None → (size T < 72)%nat.
Proof.
  intros HT Hx Hn. rewrite <- (size_dom (D := gset (Z * Z))).
  assert (dom (D := gset (Z * Z)) T ⊂ list_to_set kernel_tables) as Hsub.
  { split.
    - intros y Hy%elem_of_dom. apply elem_of_list_to_set. auto.
    - intros Hs. assert (x ∈ dom (D := gset (Z * Z)) T) as Hx' by (by apply Hs, elem_of_list_to_set). apply elem_of_dom in Hx'. rewrite Hn in Hx'. by destruct Hx'. }
  apply subset_size in Hsub. eapply Nat.lt_le_trans; [exact Hsub|]. by vm_compute.
Qed.

(** ** The page table while it is built *)

Section Build.
Context `{Linker}.

(** Since [s0], a page table with the last-level entries [L] has been built at
    [root], and the pages [stk] taken for stacks; of the other memory only free
    pages were written. *)
Record building (s0 s : machine) (T : tree) (root : Z) (L : Z → Z) (stk : list Z) : Prop := {
  kb_pt : pt_ok (m_mem s) (m_kmem s) T root;
  kb_kmem : kmem_ok (m_kmem s);
  kb_lk : m_lk s ≡ m_lk s0;
  kb_leaf : ∀ va, leaf (m_mem s) T va = L va;
  kb_pos : ∀ x, is_Some (T !! x) → x ∈ kernel_tables;
  kb_free : numfree (m_kmem s) + Z.of_nat (size T) + Z.of_nat (length stk) = numfree (m_kmem s0);
  kb_stk : ∀ p, p ∈ stk → managed p ∧ ref (m_kmem s) p = 1 ∧ ¬ is_table T p;
  kb_nodup : NoDup stk;
  kb_mem : ∀ a, ¬ managed (a / PGSIZE) → ldb (m_mem s) a = ldb (m_mem s0) a
}.

Lemma building_ext s0 s T root L L' stk : (∀ va, L va = L' va) → building s0 s T root L stk → building s0 s T root L' stk.
Proof. intros E []. split; try done. intros va. by rewrite <- E. Qed.

Lemma kleaf_eq pa flags : kleaf pa flags = Z.lor (PA2PTE pa) (Z.lor flags PTE_V).
Proof. unfold kleaf. by rewrite Z.lor_assoc. Qed.

Lemma kleaf_bound pa flags : paddr pa → 0 <= flags < 1024 → 0 <= kleaf pa flags < 2 ^ 64.
Proof. intros. rewrite kleaf_eq. apply PTE_mk_bound; [done|]. apply lor_bound10; lia. Qed.

Lemma kleaf_pa pa flags : paddr pa → 0 <= flags < 1024 → PTE2PA (kleaf pa flags) = pa.
Proof. intros. rewrite kleaf_eq. apply PTE2PA_mk; [done|]. apply lor_bound10; lia. Qed.

Lemma kleaf_flags pa flags : paddr pa → 0 <= flags < 1024 → PTE_FLAGS (kleaf pa flags) = Z.lor flags PTE_V.
Proof. intros. rewrite kleaf_eq. apply PTE_FLAGS_mk; [done|]. apply lor_bound10; lia. Qed.

(** A step that extends the tables on a path of the plan and changes entries. *)
Lemma building_grows s0 s T root L stk va s1 T1 L1 :
  building s0 s T root L stk → on_plan va → grows s T s1 T1 L1 (λ _, 0) → pt_ok (m_mem s1) (m_kmem s1) T1 root →
  tables_added va s T s1 T1 → building s0 s1 T1 root L1 stk.
Proof.
  intros B [P0 P1] G Hok [A1 A2]. split.
  - done.
  - apply G.
  - etrans; [apply G|apply B].
  - apply G.
  - intros x [Hx|[-> | ->]]%A2; [by apply (kb_pos _ _ _ _ _ _ B)|done..].
  - pose proof (kb_free _ _ _ _ _ _ B). lia.
  - intros p Hp. destruct (kb_stk _ _ _ _ _ _ B p Hp) as (Hm & Hr & Ht). split_and!; [done| |].
    + destruct (g_ref _ _ _ _ _ _ G p) as [|[]]; lia.
    + apply (grows_table _ _ _ _ _ _ _ G); [lia|done].
  - apply B.
  - intros a Ha. rewrite (g_mem _ _ _ _ _ _ G a).
    + by apply (kb_mem _ _ _ _ _ _ B).
    + intros [x Hx]. apply Ha. by eapply (pt_pages _ _ _ _ Hok).
    + by intros ?.
    + by intros ?.
Qed.

(** One page of [kvmmap]. *)
Definition kvm_page (root va pa flags : Z) : M machine (option unit) :=
  let! pte := pgt_walk root va true in
  if pte =? 0 then panic "kvmmap: walk" else
  let! v := load64 pte in
  if has v PTE_V then panic "kvmmap: remap" else
  store64 pte (Z.lor (Z.lor (PA2PTE pa) flags) PTE_V) ;;
  ret (@None unit).

Lemma kvm_page_spec s0 s T root L stk va pa flags :
  building s0 s T root L stk → lockable LK_KMEM (m_lk s0) → 72 + Z.of_nat (length stk) <= numfree (m_kmem s0) →
  0 <= va < MAXVA → on_plan va → paddr pa → 0 <= flags < 1024 → has (L va) PTE_V = false →
  wp (kvm_page root va pa flags)
     (λ r s', r = None ∧ ∃ T', building s0 s' T' root (λ va', if same_page va' va then kleaf pa flags else L va') stk) s.
Proof.
  intros B Hl Hn Hva Hp Hpa Hf Hinv. unfold kvm_page.
  eapply wp_step; [apply (pgt_walk_count T); [apply B|apply B|by rewrite (kb_lk _ _ _ _ _ _ B)|done]|].
  intros a s1 (T1 & G & Hok1 & A & Hres). pose proof (building_grows _ _ _ _ _ _ _ _ _ _ B Hp G Hok1 A) as B1.
  destruct Hres as [(-> & Hz & Hnone)|[-> [p HpT]]].
  { pose proof (tables_bound T1 (0, kidx 0 va) (kb_pos _ _ _ _ _ _ B1) (proj1 Hp) Hnone). pose proof (kb_free _ _ _ _ _ _ B1). lia. }
  rewrite (proj2 (Z.eqb_neq _ _)) by (by eapply slot_nonzero).
  apply wp_bind, wp_gets. rewrite <- (leaf_slot _ _ _ _ HpT), (g_leaf _ _ _ _ _ _ G), (kb_leaf _ _ _ _ _ _ B), Hinv.
  apply wp_bind, wp_modify, wp_ret. split; [done|].
  destruct (grows_store _ _ _ _ _ _ _ va (kleaf pa flags) p G Hok1 HpT) as [G2 Hok2]; [by apply kleaf_bound|].
  exists T1. eapply building_ext; [|exact (building_grows _ _ _ _ _ _ _ _ _ _ B Hp G2 Hok2 A)].
  intros va'. unfold same_page. cbn beta. by rewrite (kb_leaf _ _ _ _ _ _ B).
Qed.

Definition region_ok (r : region) : Prop :=
  aligned (r_va r) ∧ aligned (r_pa r) ∧ (0 < r_pages r)%nat ∧ 0 <= r_va r ∧ 0 <= r_pa r ∧
  r_va r + Z.of_nat (r_pages r) * PGSIZE <= MAXVA ∧ r_pa r + Z.of_nat (r_pages r) * PGSIZE <= 2 ^ 56 ∧ 0 <= r_flags r < 1024 ∧
  ∀ va, r_va r <= va < r_va r + Z.of_nat (r_pages r) * PGSIZE → on_plan va.

Definition kvm_region (root : Z) (r : region) : M machine unit :=
  kvmmap root (r_va r) (r_pa r) (Z.of_nat (r_pages r) * PGSIZE) (r_flags r).

Lemma mod_aligned a : aligned a → truthy (a mod PGSIZE) = false.
Proof. intros ->. done. Qed.

Lemma kvmmap_spec s0 s T root L stk r :
  building s0 s T root L stk → lockable LK_KMEM (m_lk s0) → 72 + Z.of_nat (length stk) <= numfree (m_kmem s0) →
  region_ok r → (∀ va, covers r va = true → has (L va) PTE_V = false) →
  wp (kvm_region root r)
     (λ _ s', ∃ T', building s0 s' T' root (λ va, if covers r va then region_leaf r va else L va) stk) s.
Proof.
  destruct r as [va pa n flags]. unfold kvm_region, kvmmap, region_ok, covers, region_leaf. simpl.
  intros B Hl Hn (Hva & Hpa & Hpos & Hv0 & Hp0 & Hv1 & Hp1 & Hf & Hon) Hinv.
  rewrite !mod_aligned by (done || apply aligned_scale). rewrite (proj2 (Z.leb_gt _ _)) by lia. simpl.
  assert (iters 0 (Z.of_nat n * PGSIZE) PGSIZE = n) as -> by (unfold iters; div_lia).
  apply wp_bind, (wp_for (λ k s', ∃ T', building s0 s' T' root
    (λ va', if in_range va k va' then kleaf (pa + (va' / PGSIZE - va / PGSIZE) * PGSIZE) flags else L va') stk)).
  - exists T. eapply building_ext; [|exact B]. intros va'. by rewrite in_range_0.
  - intros k s1 Hk (T1 & B1). rewrite Z.add_0_l. rewrite !(wrap_small 64) by lia.
    assert (aligned (va + Z.of_nat k * PGSIZE) ∧ aligned (pa + Z.of_nat k * PGSIZE)) as [Ha1 Ha2] by (unfold aligned in *; rewrite !Z.mod_add by lia; done).
    eapply wp_mono.
    { apply (kvm_page_spec _ _ _ _ _ _ _ _ _ B1 Hl Hn); [lia|apply Hon; lia|split; [lia|done]|done|].
      rewrite in_range_next. apply Hinv. apply in_range_true. lia. }
    intros ? s2 (-> & T2 & B2). exists T2. eapply building_ext; [|exact B2]. intros va'. cbn beta. rewrite in_range_S.
    unfold same_page, in_range. rewrite Z.div_add by lia. destruct (Z.eqb_spec (va' / PGSIZE) (va / PGSIZE + Z.of_nat k)) as [E|E].
    + rewrite orb_true_r, E. do 2 f_equal. lia.
    + by rewrite orb_false_r.
  - intros s' Hs. by apply wp_ret.
Qed.

(** ** The stacks *)

(** A page for a stack. *)
Lemma building_alloc s0 s T root L stk pa s1 :
  building s0 s T root L stk → alloc_post s pa s1 → pa ≠ 0 →
  ∃ p, pa = p * PGSIZE ∧ managed p ∧ building s0 s1 T root L (p :: stk).
Proof.
  intros B (Hlk & Hk & [(? & _)|(p & -> & Hm & Hr0 & Hn & Hr & Hmem)]) Hpa; [done|]. exists p. split_and!; [done|done|].
  assert (¬ is_table T p) as Ht. { intros [x Hx]. destruct (pt_pages _ _ _ _ (kb_pt _ _ _ _ _ _ B) _ _ Hx). lia. }
  assert (∀ q a, is_table T q → in_page q a = true → ldb (m_mem s1) a = ldb (m_mem s) a) as Hsame.
  { intros q a Hq Ha. rewrite Hmem, (in_page_ne q p a); [done| |done]. by intros ->. }
  split.
  - eapply pt_ok_ext; [exact Hsame| |apply B]. intros q Hq. rewrite Hr. by destruct (Z.eqb_spec q p) as [-> |].
  - done.
  - etrans; [done|apply B].
  - intros va. rewrite (leaf_ext _ _ _ _ Hsame). apply (kb_leaf _ _ _ _ _ _ B).
  - apply (kb_pos _ _ _ _ _ _ B).
  - pose proof (kb_free _ _ _ _ _ _ B). cbn [length]. lia.
  - intros q [-> |Hq]%elem_of_cons; [by rewrite Hr, Z.eqb_refl|]. destruct (kb_stk _ _ _ _ _ _ B q Hq) as (Hq1 & Hq2 & Hq3).
    split_and!; [done| |done]. rewrite Hr. by destruct (Z.eqb_spec q p).
  - constructor; [|apply B]. intros Hin. destruct (kb_stk _ _ _ _ _ _ B p Hin) as (_ & ? & _). lia.
  - intros a Ha. rewrite Hmem, in_page_div. destruct (Z.eqb_spec (a / PGSIZE) p) as [<-|]; [done|]. by apply (kb_mem _ _ _ _ _ _ B).
Qed.

Lemma tables_size (T : tree) : (∀ x, is_Some (T !! x) → x ∈ kernel_tables) → (size T <= 72)%nat.
Proof.
  intros HT. rewrite <- (size_dom (D := gset (Z * Z))). transitivity (size (list_to_set (C := gset (Z * Z)) kernel_tables)); [|by vm_compute].
  apply subseteq_size. intros y Hy%elem_of_dom. apply elem_of_list_to_set. by apply HT.
Qed.

Lemma building_some s0 s T root L stk :
  building s0 s T root L stk → 72 + Z.of_nat (length stk) < numfree (m_kmem s0) → 0 < numfree (m_kmem s).
Proof. intros B Hn. pose proof (kb_free _ _ _ _ _ _ B). pose proof (tables_size T (kb_pos _ _ _ _ _ _ B)). lia. Qed.

(** ** The regions of the plan *)

Definition apart (r r' : region) : Prop :=
  r_va r + Z.of_nat (r_pages r) * PGSIZE <= r_va r' ∨ r_va r' + Z.of_nat (r_pages r') * PGSIZE <= r_va r.

Lemma covers_iff r va : aligned (r_va r) → covers r va = true ↔ r_va r <= va < r_va r + Z.of_nat (r_pages r) * PGSIZE.
Proof. unfold aligned, covers, in_range. rewrite andb_true_iff. div_lia. Qed.

Lemma plan_apart r rs va :
  aligned (r_va r) → Forall (λ r', aligned (r_va r')) rs → Forall (apart r) rs → covers r va = true → plan_leaf rs va = 0.
Proof.
  intros Hr Ha Hd Hc%covers_iff; [|done]. induction rs as [|r' rs IH]; [done|]. apply Forall_cons in Ha as [Ha Has], Hd as [Hd Hds]. simpl.
  destruct (covers r' va) eqn:E; [|auto]. apply covers_iff in E; [|done]. unfold apart in Hd. lia.
Qed.

Lemma plan_step s0 s T root rs stk r :
  building s0 s T root (plan_leaf rs) stk → lockable LK_KMEM (m_lk s0) → 72 + Z.of_nat (length stk) <= numfree (m_kmem s0) →
  region_ok r → Forall (λ r', aligned (r_va r')) rs → Forall (apart r) rs →
  wp (kvm_region root r) (λ _ s', ∃ T', building s0 s' T' root (plan_leaf (r :: rs)) stk) s.
Proof.
  intros B Hl Hn Hr Ha Hd. apply (kvmmap_spec _ _ T); [done..|]. intros va Hc. by rewrite (plan_apart r) by (done || apply Hr).
Qed.

(** The symbols of the linker, when a page is left to the allocator. *)
Lemma linker_facts :
  aligned etext ∧ aligned trampoline ∧ KERNBASE <= trampoline ∧ etext = trampoline + PGSIZE ∧ etext <= PHYSTOP ∧
  Z.of_nat (Z.to_nat ((PHYSTOP - etext) / PGSIZE)) * PGSIZE = PHYSTOP - etext ∧
  Z.of_nat (Z.to_nat ((etext - KERNBASE) / PGSIZE)) * PGSIZE = etext - KERNBASE.
Proof. destruct linker_tramp as (? & ? & ?). pose proof linker_end. unfold aligned in *. split_and!; (done || div_lia). Qed.

Lemma kmem_room k : kmem_ok k → 0 < numfree k → etext < PHYSTOP.
Proof.
  intros Hk Hn. destruct (proj1 (ok_free _ Hk (fl k 0))) as [Hm _]; [exists 0; split; [lia|done]|].
  destruct Hm. pose proof linker_end. lia.
Qed.

Lemma KSTACK_aligned i : aligned (KSTACK i).
Proof. unfold KSTACK. replace (TRAMPOLINE - (i + 1) * 2 * PGSIZE) with ((67108863 - (i + 1) * 2) * PGSIZE) by lia. apply aligned_scale. Qed.

Ltac region :=
  pose proof linker_facts as (? & ? & ? & ? & ? & ? & ?); unfold region_ok; cbn [r_va r_pa r_pages r_flags];
  split_and!; first [done | apply KSTACK_aligned | apply aligned_scale | unfold KSTACK in *; lia | intros; apply on_plan_intro; unfold KSTACK in *; lia].
Ltac apart :=
  pose proof linker_facts as (? & ? & ? & ? & ? & ? & ?); unfold image_regions, device_regions; cbn [app];
  rewrite ?Forall_cons, Forall_nil; unfold apart; cbn [r_va r_pa r_pages r_flags]; repeat apply conj; first [done | unfold KSTACK; lia].

Lemma stack_regions_in stk r : r ∈ stack_regions stk →
  ∃ i p, (i < length stk)%nat ∧ p ∈ stk ∧ r = mkRegion (KSTACK (Z.of_nat i)) (p * PGSIZE) 1 PTE_RW.
Proof.
  induction stk as [|p stk IH]; cbn [stack_regions]; [by intros ?%elem_of_nil|].
  intros [-> |Hr]%elem_of_cons; [exists (length stk), p; split_and!; [simpl; lia|left|done]|].
  destruct (IH Hr) as (i & q & Hi & Hq & E). exists i, q. split_and!; [simpl; lia|by right|done].
Qed.

Lemma plan_aligned stk : Forall (λ r, aligned (r_va r)) (kernel_plan stk).
Proof.
  unfold kernel_plan. apply Forall_app. split; [|apart]. apply Forall_forall. intros r (i & p & _ & _ & ->)%stack_regions_in.
  apply KSTACK_aligned.
Qed.

Lemma stack_ok stk p : (length stk < 64)%nat → managed p →
  let r := mkRegion (KSTACK (Z.of_nat (length stk))) (p * PGSIZE) 1 PTE_RW in region_ok r ∧ Forall (apart r) (kernel_plan stk).
Proof.
  intros Hlen Hp%managed_array r. unfold r. split; [region|]. apply Forall_app. split; [|apart].
  apply Forall_forall. intros r' (i & q & Hi & _ & ->)%stack_regions_in. unfold apart. cbn [r_va r_pages]. unfold KSTACK. lia.
Qed.

(** ** [kvminit] *)

Lemma pgt_new_count s : kmem_ok (m_kmem s) → lockable LK_KMEM (m_lk s) →
  wp pgt_new (λ r s', r ≠ 0 → numfree (m_kmem s') = numfree (m_kmem s) - 1) s.
Proof.
  intros Hk Hl. unfold pgt_new. eapply wp_step; [by apply kalloc_spec|]. intros pa s1 (_ & _ & Hres). case_test; [by apply wp_ret|].
  apply wp_bind, wp_modify, wp_ret. intros _. destruct Hres as [(? & _)|(p & _ & _ & _ & Hn & _)]; done.
Qed.

Lemma new_building s : kmem_ok (m_kmem s) → lockable LK_KMEM (m_lk s) → 0 < numfree (m_kmem s) →
  wp pgt_new (λ r s', r ≠ 0 ∧ building s s' (new_tree r) r (plan_leaf []) []) s.
Proof.
  intros Hk Hl Hn. eapply wp_mono; [apply wp_and; [by apply pgt_new_spec|by apply pgt_new_count]|].
  intros r s' [[(_ & _ & _ & _ & ?)|(Hr & Hok & Hr0 & G)] Hc]; [lia|]. split; [done|]. split; try done.
  - apply G.
  - apply G.
  - apply G.
  - intros x [p [-> _]%new_tree_lookup]. unfold kernel_tables. set_solver.
  - rewrite Hc by done. unfold new_tree. rewrite map_size_singleton. cbn [length]. lia.
  - intros p ?%elem_of_nil. done.
  - constructor.
  - intros a Ha. apply (g_mem _ _ _ _ _ _ G); [|by intros ?..]. intros [x Hx]. apply Ha. by eapply (pt_pages _ _ _ _ Hok).
Qed.

Lemma stacks_spec s0 s T root : building s0 s T root (plan_leaf (kernel_plan [])) [] → lockable LK_KMEM (m_lk s0) →
  136 <= numfree (m_kmem s0) →
  wp (for_ 64 0 1 (λ i,
        let! pa := kalloc in
        if pa =? 0 then panic "kvminit: kalloc" else
        kvmmap root (KSTACK i) pa PGSIZE PTE_RW ;;
        ret (@None unit)))
     (λ _ s', ∃ T' stk, length stk = 64%nat ∧ building s0 s' T' root (plan_leaf (kernel_plan stk)) stk) s.
Proof.
  intros B Hl Hn. apply (wp_for (λ k s', ∃ T' stk, length stk = k ∧ building s0 s' T' root (plan_leaf (kernel_plan stk)) stk)).
  - by exists T, [].
  - intros k s1 Hk (T1 & stk & <- & B1). eapply wp_step; [apply kalloc_spec; [apply B1|by rewrite (kb_lk _ _ _ _ _ _ B1)]|].
    intros pa s2 Hpost. pose proof (building_some _ _ _ _ _ _ B1 ltac:(lia)) as Hfree.
    destruct (Z.eqb_spec pa 0) as [-> |Hpa].
    { destruct Hpost as (_ & _ & [(_ & ? & _)|(p & E & Hm & _)]); [lia|]. by apply managed_nonzero in Hm. }
    destruct (building_alloc _ _ _ _ _ _ _ _ B1 Hpost Hpa) as (p & -> & Hm & B2). rewrite Z.add_0_l, Z.mul_1_r.
    destruct (stack_ok stk p Hk Hm) as [Hreg Hap].
    eapply wp_step; [apply (plan_step _ _ _ _ _ _ (mkRegion (KSTACK (Z.of_nat (length stk))) (p * PGSIZE) 1 PTE_RW) B2 Hl); [cbn [length]; lia|exact Hreg|apply plan_aligned|exact Hap]|].
    intros [] s3 (T3 & B3). apply wp_ret. by exists T3, (p :: stk).
  - done.
Qed.

Lemma kvminit_spec s : kmem_ok (m_kmem s) → lockable LK_KMEM (m_lk s) → 136 <= numfree (m_kmem s) →
  wp kvminit (λ root s', ∃ T stk, length stk = 64%nat ∧ building s s' T root (plan_leaf (kernel_plan stk)) stk) s.
Proof.
  intros Hk Hl Hn. pose proof (kmem_room _ Hk ltac:(lia)) as Hroom. pose proof linker_facts as (_ & _ & _ & _ & _ & Ed & Et).
  unfold kvminit. eapply wp_step; [apply new_building; [done|done|lia]|]. intros root s1 [Hr B].
  rewrite (proj2 (Z.eqb_neq _ _)) by done.
  eapply wp_step; [apply (plan_step _ _ _ _ _ _ (mkRegion UART0 UART0 1 PTE_RW) B Hl); [simpl; lia|region|apart|apart]|]. clear B. intros [] s2 (T2 & B).
  eapply wp_step; [apply (plan_step _ _ _ _ _ _ (mkRegion VIRTIO0 VIRTIO0 1 PTE_RW) B Hl); [simpl; lia|region|apart|apart]|]. clear B. intros [] s3 (T3 & B).
  eapply wp_step; [apply (plan_step _ _ _ _ _ _ (mkRegion PLIC PLIC 1024 PTE_RW) B Hl); [simpl; lia|region|apart|apart]|]. clear B. intros [] s4 (T4 & B).
  rewrite <- Ed, <- Et.
  eapply wp_step; [apply (plan_step _ _ _ _ _ _ (mkRegion KERNBASE KERNBASE (Z.to_nat ((etext - KERNBASE) / PGSIZE)) PTE_RX) B Hl); [simpl; lia|region|apart|apart]|]. clear B. intros [] s5 (T5 & B).
  eapply wp_step; [apply (plan_step _ _ _ _ _ _ (mkRegion etext etext (Z.to_nat ((PHYSTOP - etext) / PGSIZE)) PTE_RW) B Hl); [simpl; lia|region|apart|apart]|]. clear B. intros [] s6 (T6 & B).
  eapply wp_step; [apply (plan_step _ _ _ _ _ _ (mkRegion TRAMPOLINE trampoline 1 PTE_RX) B Hl); [simpl; lia|region|apart|apart]|]. clear B. intros [] s7 (T7 & B).
  eapply wp_step; [exact (stacks_spec _ _ _ _ B Hl Hn)|]. intros r s8 Hs. by apply wp_ret.
Qed.
End Build.

(** ** What the plan says of an address *)

Section Facts.
Context `{Linker}.

Lemma plan_case rs va : plan_leaf rs va = 0 ∨ ∃ r, r ∈ rs ∧ covers r va = true ∧ plan_leaf rs va = region_leaf r va.
Proof.
  induction rs as [|r rs IH]; simpl; [by left|]. destruct (covers r va) eqn:E.
  - right. exists r. split_and!; [left|done|done].
  - destruct IH as [-> |(r' & Hr & Hc & ->)]; [by left|]. right. exists r'. split_and!; [by right|done|done].
Qed.

(** The first region that covers the address, if those before it do not. *)
Lemma plan_skip rs rs' va : Forall (λ r, covers r va = false) rs → plan_leaf (rs ++ rs') va = plan_leaf rs' va.
Proof. induction 1 as [|r rs E _ IH]; simpl; [done|]. by rewrite E. Qed.

Lemma covers_false r va : aligned (r_va r) → ¬ r_va r <= va < r_va r + Z.of_nat (r_pages r) * PGSIZE → covers r va = false.
Proof. intros Ha Hn. destruct (covers r va) eqn:E; [|done]. by apply covers_iff in E. Qed.

Lemma covers_true r va : aligned (r_va r) → r_va r <= va < r_va r + Z.of_nat (r_pages r) * PGSIZE → covers r va = true.
Proof. intros Ha Hn. by apply covers_iff. Qed.

Lemma plan_stacks_below stk va : (length stk <= 64)%nat → va < MAXVA - 1048576 ∨ TRAMPOLINE <= va →
  plan_leaf (kernel_plan stk) va = plan_leaf (image_regions ++ device_regions) va.
Proof.
  intros Hlen Hva. apply plan_skip, Forall_forall. intros r (i & p & Hi & _ & ->)%stack_regions_in.
  apply covers_false; [apply KSTACK_aligned|]. cbn [r_va r_pages]. unfold KSTACK. lia.
Qed.

Definition page_of (va : Z) : Z := va / PGSIZE * PGSIZE.

Ltac at_region :=
  pose proof linker_facts as (? & ? & ? & ? & ? & ? & ?);
  repeat match goal with
  | |- context [covers ?r ?va] =>
      first [ rewrite (covers_false r va) by (first [done | unfold KSTACK; cbn [r_va r_pages]; lia])
            | rewrite (covers_true r va) by (first [done | unfold KSTACK; cbn [r_va r_pages]; lia]) ]
  end.

Lemma plan_devices stk va : (length stk <= 64)%nat → PLIC <= va < PLIC + 4194304 ∨ UART0 <= va < UART0 + 8192 →
  plan_leaf (kernel_plan stk) va = kleaf (page_of va) PTE_RW.
Proof.
  intros Hlen Hva. rewrite plan_stacks_below by lia. unfold image_regions, device_regions. cbn [app plan_leaf].
  unfold page_of. destruct (decide (va < PLIC + 4194304)); [|destruct (decide (va < VIRTIO0))]; at_region; unfold region_leaf; cbn [r_pa r_va r_flags]; f_equal; div_lia.
Qed.

Lemma plan_text stk va : (length stk <= 64)%nat → KERNBASE <= va < etext → plan_leaf (kernel_plan stk) va = kleaf (page_of va) PTE_RX.
Proof.
  intros Hlen Hva. pose proof linker_facts as (_ & _ & _ & _ & ? & _ & _). rewrite plan_stacks_below by lia. unfold image_regions, device_regions. cbn [app plan_leaf].
  at_region. unfold region_leaf, page_of. cbn [r_pa r_va r_flags]. f_equal. div_lia.
Qed.

Lemma plan_ram stk va : (length stk <= 64)%nat → etext <= va < PHYSTOP → plan_leaf (kernel_plan stk) va = kleaf (page_of va) PTE_RW.
Proof.
  intros Hlen Hva. rewrite plan_stacks_below by lia. unfold image_regions, device_regions. cbn [app plan_leaf].
  at_region. unfold region_leaf, page_of. cbn [r_pa r_va r_flags]. f_equal. unfold aligned in *. div_lia.
Qed.

Lemma plan_trampoline stk va : (length stk <= 64)%nat → TRAMPOLINE <= va < MAXVA → plan_leaf (kernel_plan stk) va = kleaf trampoline PTE_RX.
Proof.
  intros Hlen Hva. rewrite plan_stacks_below by lia. unfold image_regions, device_regions. cbn [app plan_leaf].
  at_region. unfold region_leaf. cbn [r_pa r_va r_flags]. f_equal. div_lia.
Qed.

Lemma plan_stack stk : (length stk <= 64)%nat → ∀ i p va, rev stk !! i = Some p →
  KSTACK (Z.of_nat i) <= va < KSTACK (Z.of_nat i) + PGSIZE → plan_leaf (kernel_plan stk) va = kleaf (p * PGSIZE) PTE_RW.
Proof.
  unfold kernel_plan. induction stk as [|q stk IH]; intros Hlen i p va Hi Hva; [done|]. cbn [rev length stack_regions app plan_leaf] in *.
  apply lookup_app_Some in Hi as [Hi|[Hge Hi]].
  - pose proof (lookup_lt_Some _ _ _ Hi) as Hlt. rewrite length_rev in Hlt. rewrite covers_false; [apply (IH ltac:(lia) i); done|apply KSTACK_aligned|].
    cbn [r_va r_pages]. unfold KSTACK in *. lia.
  - rewrite length_rev in *. apply list_lookup_singleton_Some in Hi as [Hi ->]. assert (i = length stk) as -> by lia.
    rewrite covers_true; [|apply KSTACK_aligned|cbn [r_va r_pages]; lia]. unfold region_leaf. cbn [r_pa r_va r_flags]. f_equal.
    pose proof (KSTACK_aligned (Z.of_nat (length stk))) as Ha. unfold aligned in Ha. div_lia.
Qed.

(** Every entry of the plan is one of these. *)
Definition in_plan (n : nat) (va : Z) : Prop :=
  PLIC <= va < PLIC + 4194304 ∨ UART0 <= va < UART0 + 8192 ∨ KERNBASE <= va < PHYSTOP ∨ TRAMPOLINE <= va < MAXVA ∨
  ∃ i, (i < n)%nat ∧ KSTACK (Z.of_nat i) <= va < KSTACK (Z.of_nat i) + PGSIZE.

Lemma plan_else stk va : plan_leaf (kernel_plan stk) va = 0 ∨ in_plan (length stk) va.
Proof.
  destruct (plan_case (kernel_plan stk) va) as [?|(r & Hr & Hc & _)]; [by left|right].
  pose proof (proj1 (Forall_forall _ _) (plan_aligned stk) r Hr) as Ha. apply (covers_iff r va Ha) in Hc. unfold in_plan.
  unfold kernel_plan in Hr. apply elem_of_app in Hr as [(i & p & Hi & _ & ->)%stack_regions_in|Hr].
  { do 4 right. exists i. split; [done|]. cbn [r_va r_pages] in Hc. lia. }
  pose proof linker_facts as (_ & _ & ? & ? & ? & Ed & Et). unfold image_regions, device_regions in Hr. cbn [app] in Hr.
  rewrite !elem_of_cons, elem_of_nil in Hr. destruct Hr as [-> |[-> |[-> |[-> |[-> |[-> |[]]]]]]]; cbn [r_va r_pages] in Hc; lia.
Qed.

(** Rights: every entry is readable by the kernel only, and none is writable and
    executable. *)
Definition sane (v : Z) : Prop := has v PTE_U = false ∧ (has v PTE_W = false ∨ has v PTE_X = false).

Lemma kleaf_sane pa flags : paddr pa → flags = PTE_RW ∨ flags = PTE_RX → sane (kleaf pa flags).
Proof.
  intros Hpa Hf. unfold sane, has. rewrite !(land_flags (kleaf pa flags)) by lia. rewrite kleaf_flags by (done || destruct Hf as [-> | ->]; done).
  destruct Hf as [-> | ->]; vm_compute; auto.
Qed.

Lemma plan_sane stk va : (∀ p, p ∈ stk → managed p) → sane (plan_leaf (kernel_plan stk) va).
Proof.
  intros Hm. destruct (plan_case (kernel_plan stk) va) as [-> |(r & Hr & Hc & ->)]; [vm_compute; auto|].
  pose proof (proj1 (Forall_forall _ _) (plan_aligned stk) r Hr) as Ha. apply (covers_iff r va Ha) in Hc. unfold region_leaf.
  assert (aligned (r_pa r) ∧ 0 <= r_pa r ∧ r_pa r + Z.of_nat (r_pages r) * PGSIZE <= 2 ^ 56 ∧ (r_flags r = PTE_RW ∨ r_flags r = PTE_RX)) as (P1 & P2 & P3 & P4).
  { unfold kernel_plan in Hr. apply elem_of_app in Hr as [(i & p & _ & Hp & ->)%stack_regions_in|Hr].
    - cbn [r_pa r_pages r_flags]. pose proof (managed_array _ (Hm p Hp)). split_and!; [apply aligned_scale|lia|lia|auto].
    - pose proof linker_facts as (? & ? & ? & ? & ? & Ed & Et). unfold image_regions, device_regions in Hr. cbn [app] in Hr.
      rewrite !elem_of_cons, elem_of_nil in Hr. destruct Hr as [-> |[-> |[-> |[-> |[-> |[-> |[]]]]]]]; cbn [r_pa r_pages r_flags]; split_and!; first [done|lia|auto]. }
  apply kleaf_sane; [|done]. unfold aligned in *. split.
  - div_lia.
  - unfold aligned. rewrite Z.mod_add by lia. done.
Qed.

(** ** The address space of the kernel *)

Record kernel_space (m : mem) (T : tree) (stacks : list Z) : Prop := {
  ks_devices : ∀ va, PLIC <= va < PLIC + 4194304 ∨ UART0 <= va < UART0 + 8192 → leaf m T va = kleaf (page_of va) PTE_RW;
  ks_text : ∀ va, KERNBASE <= va < etext → leaf m T va = kleaf (page_of va) PTE_RX;
  ks_ram : ∀ va, etext <= va < PHYSTOP → leaf m T va = kleaf (page_of va) PTE_RW;
  ks_trampoline : ∀ va, TRAMPOLINE <= va < MAXVA → leaf m T va = kleaf trampoline PTE_RX;
  ks_stack : ∀ i p va, stacks !! i = Some p → KSTACK (Z.of_nat i) <= va < KSTACK (Z.of_nat i) + PGSIZE →
    leaf m T va = kleaf (p * PGSIZE) PTE_RW;
  ks_guard : ∀ i va, 0 <= i < Z.of_nat (length stacks) → KSTACK i - PGSIZE <= va < KSTACK i → leaf m T va = 0;
  ks_else : ∀ va, leaf m T va = 0 ∨ in_plan (length stacks) va;
  ks_sane : ∀ va, sane (leaf m T va)
}.

Lemma building_space s0 s T root stk : length stk = 64%nat → building s0 s T root (plan_leaf (kernel_plan stk)) stk →
  kernel_space (m_mem s) T (rev stk).
Proof.
  intros Hlen B. pose proof (kb_leaf _ _ _ _ _ _ B) as E. split; try (intros; rewrite E).
  - apply plan_devices; [lia|done].
  - apply plan_text; [lia|done].
  - apply plan_ram; [lia|done].
  - apply plan_trampoline; [lia|done].
  - eapply plan_stack; [lia|done|done].
  - rewrite length_rev in *. destruct (plan_else stk va) as [?|P]; [done|]. exfalso. unfold in_plan, KSTACK in *.
    destruct P as [P|[P|[P|[P|(j & Hj & P)]]]]; lia.
  - rewrite length_rev. apply plan_else.
  - apply plan_sane. intros p Hp. by apply (kb_stk _ _ _ _ _ _ B).
Qed.

(** C8 (safety).  From memory as it is after power on, [kinit] and [kvminit] return, as
    soon as 136 pages are left behind the kernel: the kernel's page table maps devices
    and memory to themselves, the kernel's code read-only, the trampoline at the top,
    and 64 different pages of their own as kernel stacks, each with an unmapped guard
    page below; it maps nothing else, nothing for user mode, and no page both writable
    and executable.  The allocator is in order, and no byte of the kernel's own image
    has changed. *)
Theorem memory_boots s :
  m_kmem s = boot_kmem → hart_ok (m_lk s) → first_page + 136 <= MAXPAGES →
  wp (kinit ;; kvminit)
     (λ root s', ∃ T stacks,
        pt_ok (m_mem s') (m_kmem s') T root ∧ kernel_space (m_mem s') T stacks ∧
        length stacks = 64%nat ∧ NoDup stacks ∧ (∀ p, p ∈ stacks → managed p ∧ ref (m_kmem s') p = 1 ∧ ¬ is_table T p) ∧
        kmem_ok (m_kmem s') ∧ MAXPAGES - first_page - 136 <= numfree (m_kmem s') ∧ lockable LK_KMEM (m_lk s') ∧
        ∀ a, ¬ managed (a / PGSIZE) → ldb (m_mem s') a = ldb (m_mem s) a) s.
Proof.
  intros Hk Hh Hroom. eapply wp_step; [apply kinit_spec; [done|lia]|]. intros [] s1 (Hl & Hk1 & Hn & Hr & Hm).
  assert (lockable LK_KMEM (m_lk s1)) as Hl1.
  { rewrite Hl. split; [done|]. rewrite lock_of_set. by rewrite decide_True. }
  eapply wp_mono; [apply kvminit_spec; [done|done|lia]|]. intros root s2 (T & stk & Hlen & B). exists T, (rev stk).
  split_and!; [apply B|by eapply building_space|by rewrite length_rev|by apply NoDup_ListNoDup, NoDup_rev, NoDup_ListNoDup, B| |apply B| |by rewrite (kb_lk _ _ _ _ _ _ B)|].
  - intros p Hp%list_elem_of_In%in_rev%list_elem_of_In. by apply (kb_stk _ _ _ _ _ _ B).
  - pose proof (kb_free _ _ _ _ _ _ B). pose proof (tables_size T (kb_pos _ _ _ _ _ _ B)). lia.
  - intros a Ha. rewrite (kb_mem _ _ _ _ _ _ B) by done. by apply Hm.
Qed.
End Facts.

(** A kernel image of 256 pages. *)
Definition small_image : Linker.
Proof. refine {| kend := KERNBASE + 256 * PGSIZE; etext := KERNBASE + 8 * PGSIZE; trampoline := KERNBASE + 7 * PGSIZE |}; done. Defined.

Lemma memory_boots_witness :
  ∃ s, m_kmem s = boot_kmem ∧ @first_page small_image + 136 <= MAXPAGES ∧
    @wp machine Z (bind (@kinit small_image) (λ _, @kvminit small_image)) (λ root s', ∃ T stacks, @kernel_space small_image (m_mem s') T stacks ∧ length stacks = 64%nat) s.
Proof.
  exists (mkMachine demo_lk ∅ boot_kmem). split_and!; [done|done|].
  eapply wp_mono; [apply (@memory_boots small_image (mkMachine demo_lk ∅ boot_kmem)); [done|apply demo_lockable with (id := LK_KMEM)|done]|].
  intros root s' (T & stacks & _ & Hs & Hlen & _). by exists T, stacks.
Defined.
