(* ===== verification/Uvm.v ===== *)
(** * User virtual memory (kernel/uvm.c)

    A process's memory is a page table and a set of virtual memory areas
    (VMAs), filled lazily on page faults and shared copy on write.  The
    table [vmas] of the source is a map from indices to records; a
    [struct vma *] is an index, [None] the null pointer.  A [struct uvm]
    is passed and returned by the functions that change it. *)

From S2P Require Import Prelude Riscv Mem Random Spinlock Kalloc Pagetable.

Abbreviation MAP_PRIVATE := 0.
Abbreviation MAP_SHARED := 1.
Abbreviation VMA_SIZE := 50%nat.
Abbreviation MAX_VMAS := 1920%nat.      (* NPROC * 30 *)

Record vma := mkVma {
  v_used : bool;
  v_inode : option Z;                   (* struct inode *, an index of the inode table *)
  v_offset : Z;
  v_filesz : Z;
  v_start : Z;
  v_length : Z;
  v_perm : Z;
  v_flags : Z
}.

Definition vma0 : vma := mkVma false None 0 0 0 0 0 0.

Record uvm := mkUvm {
  pagetable : Z;
  uvm_vma : list (option Z);            (* struct vma *vma[VMA_SIZE] *)
  heap : option Z
}.

Definition uvm0 : uvm := mkUvm 0 (replicate VMA_SIZE None) None.

Definition set_vma_slot (i : nat) (v : option Z) (u : uvm) : uvm :=
  mkUvm (pagetable u) (<[i := v]> (uvm_vma u)) (heap u).

(** The state user memory lives in: the machine, the table of VMAs, and the
    rest of the kernel (the file system) behind an interface. *)
Record ust (K : Type) := mkUst { u_m : machine; u_vmas : gmap Z vma; u_k : K }.
Arguments mkUst {K} u_m u_vmas u_k.
Arguments u_m {K} u.
Arguments u_vmas {K} u.
Arguments u_k {K} u.

#[export] Program Instance ust_machine {K} : Lens (ust K) machine := {|
  view := u_m; set := λ m s, mkUst m (u_vmas s) (u_k s) |}.
Next Obligation. done. Qed.
Next Obligation. by intros ? []. Qed.
Next Obligation. done. Qed.

#[export] Program Instance ust_lk {K} : Lens (ust K) lockst := {|
  view s := m_lk (u_m s); set l s := set (set l (u_m s)) s |}.
Next Obligation. done. Qed.
Next Obligation. by intros ? [[]]. Qed.
Next Obligation. done. Qed.

(** What user memory needs of the file system (kernel/fs.c, kernel/log.c):
    reference counts and locks of inodes, transactions, and reading and
    writing file contents at a physical address. *)
Class InodeOps (K : Type) := {
  idup : Z → M (ust K) Z;
  iput : Z → M (ust K) unit;
  ilock : Z → M (ust K) unit;
  iunlock : Z → M (ust K) unit;
  begin_op : M (ust K) unit;
  end_op : M (ust K) unit;
  readi_kernel : Z → Z → Z → Z → M (ust K) Z;    (* readi(ip, 0, dst, off, n) *)
  writei_kernel : Z → Z → Z → Z → M (ust K) Z    (* writei(ip, 0, src, off, n) *)
}.

Definition LK_VMAS : lockid := ("lock_vmas"%string, 0).

(** [MIN] and [MAX] of the source. *)
Definition MIN (x y : Z) : Z := if y <? x then y else x.
Definition MAX (x y : Z) : Z := if x <? y then y else x.

Definition vma_at (t : gmap Z vma) (j : Z) : vma := default vma0 (t !! j).

(** The end of an area, [start + length] on [uint64]. *)
Definition v_end (v : vma) : Z := u64 (v_start v + v_length v).

(** The pages of an area, and of a range, overlap those of another. *)
Definition ranges_meet (s1 l1 s2 l2 : Z) : bool :=
  MAX (PGROUNDDOWN s1) (PGROUNDDOWN s2) <? MIN (PGROUNDUP (u64 (s1 + l1))) (PGROUNDUP (u64 (s2 + l2))).

Definition vma_intersect (v w : vma) : bool := ranges_meet (v_start v) (v_length v) (v_start w) (v_length w).

(** *** Searches: [for (int i = 0; i < VMA_SIZE; ++i)] *)

Fixpoint va2vma_loop (t : gmap Z vma) (l : list (option Z)) (va : Z) : option Z :=
  match l with
  | [] => None
  | Some j :: l' => if (v_start (vma_at t j) <=? va) && (va <? v_end (vma_at t j))
                    then Some j else va2vma_loop t l' va
  | None :: l' => va2vma_loop t l' va
  end.
Definition uvm_va2vma (t : gmap Z vma) (u : uvm) (va : Z) : option Z := va2vma_loop t (uvm_vma u) va.

Definition uvm_israngefree (t : gmap Z vma) (u : uvm) (vastart length : Z) : bool :=
  forallb (λ p, match p with
                | Some j => negb (ranges_meet vastart length (v_start (vma_at t j)) (v_length (vma_at t j)))
                | None => true
                end) (uvm_vma u).

(** The first end of an area above [prev], or [MAXVA]. *)
Definition next_end (t : gmap Z vma) (u : uvm) (prev : Z) : Z :=
  foldl (λ addr p, match p with
                   | Some j => let endvma := PGROUNDUP (v_end (vma_at t j)) in
                               if prev <? endvma then MIN addr endvma else addr
                   | None => addr
                   end) MAXVA (uvm_vma u).

(** The loop [while (1)] of [getfreevrange]; [None] when the fuel runs out. *)
Fixpoint getfreevrange_loop (fuel : nat) (t : gmap Z vma) (u : uvm) (addr length : Z) : option Z :=
  match fuel with
  | O => None
  | S fuel =>
      if uvm_israngefree t u addr length then Some addr else
      let addr' := PGROUNDUP (next_end t u addr) in
      if MAXVA <? u64 (addr' + length) then Some 0
      else getfreevrange_loop fuel t u addr' length
  end.

(** [length] is an [int], sign-extended where it meets a [uint64]. *)
Definition getfreevrange (t : gmap Z vma) (u : uvm) (length : Z) : option Z :=
  getfreevrange_loop (S VMA_SIZE) t u START_VMAS_ADDR (u64 length).

(** ** Operations *)

Section Code.
Context {K : Type} `{InodeOps K} `{Linker}.

Abbreviation U := (M (ust K)).

Definition mach {A} (m : M machine A) : U A := zoom m.
Definition lock_vmas : U unit := zoom (acquire LK_VMAS).
Definition unlock_vmas : U unit := zoom (release LK_VMAS).

Definition getv (j : Z) : U vma := gets (λ s, vma_at (u_vmas s) j).
Definition setv (j : Z) (v : vma) : U unit :=
  modify (λ s, mkUst (u_m s) (<[j := v]> (u_vmas s)) (u_k s)).
Definition set_used (b : bool) (v : vma) : vma :=
  mkVma b (v_inode v) (v_offset v) (v_filesz v) (v_start v) (v_length v) (v_perm v) (v_flags v).

Definition uvminit : U unit := zoom (initlock LK_VMAS).

(** The search for a free entry of [vmas] shared by [vmaalloc] and [vmadup]. *)
Definition take_vma : U (option Z) :=
  lock_vmas ;;
  let! r := for_ MAX_VMAS 0 1 (λ j,
    let! v := getv j in
    if v_used v then ret None else
    setv j (set_used true v) ;;
    unlock_vmas ;;
    ret (Some j)) in
  match r with
  | Some j => ret (Some j)
  | None => unlock_vmas ;; ret None
  end.

Definition vmaalloc (u : uvm) : U (option Z * uvm) :=
  match list_find (λ x, x = None) (uvm_vma u) with
  | None => ret (None, u)
  | Some (i, _) =>
      let! r := take_vma in
      match r with
      | Some j => ret (Some j, set_vma_slot i (Some j) u)
      | None => ret (None, u)
      end
  end.

Definition vma_init (j start length perm flags : Z) (inode : option Z) (offset filesz : Z) : U unit :=
  let! v := getv j in
  let! ino := match inode with Some ip => let! d := idup ip in ret (Some d) | None => ret None end in
  setv j (mkVma (v_used v) ino offset filesz start length perm flags).

Definition vmafree (j : Z) : U unit :=
  let! v := getv j in
  match v_inode v with
  | Some ip => begin_op ;; iput ip ;; end_op
  | None => ret tt
  end ;;
  lock_vmas ;;
  let! v := getv j in
  setv j (set_used false v) ;;
  unlock_vmas.

Definition vmadup (j : Z) : U (option Z) :=
  let! r := take_vma in
  match r with
  | None => ret None
  | Some i =>
      let! v := getv j in
      let! ino := match v_inode v with Some ip => let! d := idup ip in ret (Some d) | None => ret None end in
      setv i (mkVma true ino (v_offset v) (v_filesz v) (v_start v) (v_length v) (v_perm v) (v_flags v)) ;;
      ret (Some i)
  end.

(** *** User paging *)

Abbreviation PTE_RX := (Z.lor PTE_R PTE_X).
Abbreviation PTE_RWX := (Z.lor PTE_R (Z.lor PTE_W PTE_X)).

(** Answers the status and the new [struct uvm]. *)
Definition uvm_new (trapframe : Z) : M machine (Z * uvm) :=
  let! pt := pgt_new in
  let u := mkUvm pt (uvm_vma uvm0) None in
  if pt =? 0 then ret (-1, u) else
  let! r := pgt_map pt TRAMPOLINE trampoline PTE_RX in
  if truthy r then pgt_free 3 pt ;; ret (-1, uvm0) else
  pgt_clearubit pt TRAMPOLINE ;;
  let! r := pgt_map pt TRAPFRAME trapframe (Z.lor PTE_R PTE_W) in
  if truthy r then
    pgt_deallocunmap pt TRAMPOLINE (TRAMPOLINE + PGSIZE) ;;
    pgt_free 3 pt ;; ret (-1, uvm0)
  else
  pgt_clearubit pt TRAPFRAME ;;
  ret (0, u).

(** Write back one page of a shared area, [va] its page address. *)
Definition writeback (u : uvm) (v : vma) (ip addr length va : Z) : U (option unit) :=
  let! pa := mach (pgt_getpa (pagetable u) va) in
  if pa =? 0 then ret None else
  let va0 := MAX va addr in
  let va1 := MIN (u64 (va + PGSIZE)) (u64 (addr + length)) in
  let va1 := MIN va1 (u64 (v_start v + v_filesz v)) in
  if va1 <=? va0 then ret None else
  let pa0 := u64 (pa + (va0 - va)) in
  let len := va1 - va0 in
  let! w := writei_kernel ip pa0 (u32 (v_offset v + (va0 - v_start v))) (u32 len) in
  if negb (u64 w =? len) then panic "uvm_unmap: write error" else ret None.

Definition uvm_unmap (u : uvm) (addr length : Z) : U uvm :=
  let! t := gets u_vmas in
  match uvm_va2vma t u addr with
  | None => panic "uvm_unmap: not in vma!"
  | Some j =>
      let! v := getv j in
      if negb (addr =? v_start v) && negb (u64 (addr + length) =? v_end v)
      then panic "uvm_unmap: not a valid mode" else
      (if v_flags v =? MAP_SHARED then
         match v_inode v with
         | None => begin_op ;; panic "ilock"
         | Some ip =>
             begin_op ;; ilock ip ;;
             for_ (iters (PGROUNDDOWN addr) (PGROUNDUP (u64 (addr + length))) PGSIZE)
                  (PGROUNDDOWN addr) PGSIZE (writeback u v ip addr length) ;;
             iunlock ip ;; end_op
         end
       else ret tt) ;;
      if v_length v =? length then
        mach (pgt_deallocunmap (pagetable u) (PGROUNDDOWN addr) (PGROUNDUP (u64 (addr + length)))) ;;
        let u' := match list_find (λ x, x = Some j) (uvm_vma u) with
                  | Some (i, _) => set_vma_slot i None u
                  | None => u
                  end in
        vmafree j ;; ret u'
      else if addr =? v_start v then
        mach (pgt_deallocunmap (pagetable u) (PGROUNDDOWN addr) (PGROUNDDOWN (u64 (addr + length)))) ;;
        let! v := getv j in
        setv j (mkVma (v_used v) (v_inode v) (u32 (v_offset v + length)) (u32 (MAX (u64 (v_filesz v - length)) 0))
                      (u64 (v_start v + length)) (u64 (v_length v - length)) (v_perm v) (v_flags v)) ;;
        ret u
      else
        mach (pgt_deallocunmap (pagetable u) (PGROUNDUP addr) (PGROUNDUP (u64 (addr + length)))) ;;
        let! v := getv j in
        let len := u64 (v_length v - length) in
        setv j (mkVma (v_used v) (v_inode v) (v_offset v) (u32 (MIN (v_filesz v) len))
                      (v_start v) len (v_perm v) (v_flags v)) ;;
        ret u
  end.

(** The loop of [uvm_free], over the slots from [i]. *)
Fixpoint unmap_slots (n i : nat) (u : uvm) : U uvm :=
  match n with
  | O => ret u
  | S n' =>
      let! u' := match uvm_vma u !! i with
                 | Some (Some j) => let! v := getv j in uvm_unmap u (v_start v) (v_length v)
                 | _ => ret u
                 end in
      unmap_slots n' (S i) u'
  end.

Definition uvm_free (u : uvm) : U uvm :=
  let! u := unmap_slots VMA_SIZE 0 u in
  if pagetable u =? 0 then panic "uvm_free" else
  mach (pgt_unmap (pagetable u) TRAMPOLINE (TRAMPOLINE + PGSIZE)) ;;
  mach (pgt_unmap (pagetable u) TRAPFRAME (TRAPFRAME + PGSIZE)) ;;
  mach (pgt_free 3 (pagetable u)) ;;
  ret (mkUvm 0 (uvm_vma u) (heap u)).

(** Answers [addr], or [(uint64)-1]. *)
Definition uvm_map (u : uvm) (addr length perm flags : Z) (inode : option Z) (offset filesz : Z) : U (Z * uvm) :=
  if bool_decide (inode = None) && negb (flags =? MAP_PRIVATE) then ret (u64 (-1), u) else
  let! t := gets u_vmas in
  if negb (uvm_israngefree t u addr length) then ret (u64 (-1), u) else
  let! (r, u') := vmaalloc u in
  match r with
  | None => ret (u64 (-1), u')
  | Some j => vma_init j addr length perm flags inode offset filesz ;; ret (addr, u')
  end.

(** *** Page faults *)

(** Fill the page [pa] of a file-backed area from the file. *)
Definition fill_page (v : vma) (va pa : Z) : U unit :=
  match v_inode v with
  | None => ret tt
  | Some ip =>
      let eof := u64 (v_start v + v_filesz v) in
      if va <? eof then
        let readsz := MIN (eof - va) PGSIZE in
        ilock ip ;;
        let! r := readi_kernel ip pa (u32 (v_offset v + (va - v_start v))) readsz in
        iunlock ip ;;
        if negb (u64 r =? readsz) then panic "uvm_completemap: readi" else ret tt
      else ret tt
  end.

Definition uvm_completemap (u : uvm) (va missing_perm : Z) : U Z :=
  if truthy (va mod PGSIZE) || (MAXVA <=? va) then ret 0 else
  let! t := gets u_vmas in
  match uvm_va2vma t u va with
  | None => ret 0
  | Some j =>
      let! v := getv j in
      if Z.land (v_perm v) missing_perm =? 0 then ret 0 else
      let! pte := mach (pgt_walk (pagetable u) va true) in
      if pte =? 0 then ret 0 else
      let! e := mach (load64 pte) in
      if negb (has e PTE_V) then
        let! pa := mach kalloc in
        if pa =? 0 then ret 0 else
        mach (store64 pte (Z.lor (Z.lor (Z.lor (PA2PTE pa) (v_perm v)) PTE_V) PTE_U)) ;;
        mach (memsetM pa 0 PGSIZE) ;;
        fill_page v va pa ;;
        ret pa
      else if negb (has e PTE_U) then ret 0
      else if missing_perm =? PTE_W then
        let pa := PTE2PA e in
        let! single := mach (ksingleref pa) in
        if (single : bool) then
          let! e := mach (load64 pte) in
          mach (store64 pte (Z.lor e PTE_W)) ;; ret pa
        else
          let! pg := mach kalloc in
          if pg =? 0 then ret 0 else
          mach (memory_op (λ m, memmove m pg pa PGSIZE)) ;;
          let! e := mach (load64 pte) in
          mach (store64 pte (Z.lor (Z.lor (PA2PTE pg) (PTE_FLAGS e)) PTE_W)) ;;
          mach (kfree pa) ;;
          ret pg
      else panic "invalid pagefault"
  end.

Definition uvm_guaranteecomplete (u : uvm) (va minimum_perm : Z) : U Z :=
  let! pte := mach (pgt_walk (pagetable u) va false) in
  if pte =? 0 then uvm_completemap u va minimum_perm else
  let! e := mach (load64 pte) in
  if negb (has e PTE_V) || negb (has e minimum_perm) then uvm_completemap u va minimum_perm
  else ret (PTE2PA e).
(** *** The heap *)

(** [for] over the other areas of [uvm_growheap]: one of them meets the heap. *)
Definition heap_meets (t : gmap Z vma) (u : uvm) (h : Z) : bool :=
  existsb (λ p, match p with
                | Some j => negb (j =? h) && vma_intersect (vma_at t h) (vma_at t j)
                | None => false
                end) (uvm_vma u).

Definition set_length (len : Z) (v : vma) : vma :=
  mkVma (v_used v) (v_inode v) (v_offset v) (v_filesz v) (v_start v) len (v_perm v) (v_flags v).

(** [n] is an [int]. *)
Definition uvm_growheap (u : uvm) (n : Z) : U (Z * uvm) :=
  match heap u with
  | None => undef
  | Some h =>
      let! v := getv h in
      if 0 <? n then
        let ende := v_end v in
        if (u64 (ende + n) <? ende) || (TRAPFRAME <? u64 (ende + n)) then ret (-1, u) else
        setv h (set_length (u64 (v_length v + n)) v) ;;
        let! t := gets u_vmas in
        if heap_meets t u h then
          let! v := getv h in
          setv h (set_length (u64 (v_length v - n)) v) ;; ret (-1, u)
        else ret (0, u)
      else if n <? 0 then
        let! neg := as_int (- n) in
        if u64 (v_length v - PGSIZE) <? neg then ret (-1, u) else
        let! u' := uvm_unmap u (u64 (v_end v + n)) neg in
        ret (0, u')
      else ret (0, u)
  end.

(** *** Fork *)

(** The error exit of [uvm_dup]: the length passed is [start + length]. *)
Fixpoint undup_slots (n i : nat) (c : uvm) : U uvm :=
  match n with
  | O => ret c
  | S n' =>
      let! c' := match uvm_vma c !! i with
                 | Some (Some j) => let! v := getv j in uvm_unmap c (v_start v) (v_end v)
                 | _ => ret c
                 end in
      undup_slots n' (S i) c'
  end.

Fixpoint dup_slots (n i : nat) (p c : uvm) : U (Z * uvm) :=
  match n with
  | O => ret (0, c)
  | S n' =>
      match uvm_vma p !! i with
      | Some (Some j) =>
          let! d := vmadup j in
          let c := set_vma_slot i d c in
          match d with
          | None => let! c := undup_slots VMA_SIZE 0 c in ret (-1, c)
          | Some d =>
              let! v := getv j in
              let! r := mach (pgt_clone (pagetable p) (pagetable c) (PGROUNDDOWN (v_start v)) (PGROUNDUP (v_end v))) in
              if r <? 0 then
                vmafree d ;;
                lock_vmas ;; let! w := getv d in setv d (set_used false w) ;; unlock_vmas ;;
                let! c := undup_slots VMA_SIZE 0 c in ret (-1, c)
              else
                let c := if bool_decide (Some j = heap p) then mkUvm (pagetable c) (uvm_vma c) (Some d) else c in
                dup_slots n' (S i) p c
          end
      | _ => dup_slots n' (S i) p c
      end
  end.

(** Answers the status and the child's [struct uvm]. *)
Definition uvm_dup (p c : uvm) : U (Z * uvm) := dup_slots VMA_SIZE 0 p c.

(** *** Copying to and from user memory

    The kernel buffer is the list of its bytes. *)

Definition code2uvm (u : uvm) (src : list Z) : U uvm :=
  if PGSIZE <=? Z.of_nat (length src) then panic "code2uvm: more than a page" else
  let! (r, u) := vmaalloc u in
  match r with
  | None => undef
  | Some j =>
      vma_init j 0 PGSIZE PTE_RWX MAP_PRIVATE None 0 0 ;;
      let! pg := mach kalloc in
      assert_def (negb (pg =? 0)) ;;
      mach (memsetM pg 0 PGSIZE) ;;
      mach (pgt_map (pagetable u) 0 pg PTE_RWX) ;;
      mach (memory_op (λ m, put_bytes m pg src)) ;;
      ret u
  end.

(** The physical page of [va0], with write permission. *)
Definition writable_page (u : uvm) (va0 : Z) : U Z :=
  let! pte := mach (pgt_walk (pagetable u) va0 false) in
  if pte =? 0 then uvm_completemap u va0 PTE_W else
  let! e := mach (load64 pte) in
  if negb (has e PTE_V) || negb (has e PTE_W) then uvm_completemap u va0 PTE_W
  else ret (PTE2PA e).

(** [while (len > 0)]: every turn consumes bytes of [src]. *)
Fixpoint copyout_loop (fuel : nat) (u : uvm) (dstva : Z) (src : list Z) : U Z :=
  match fuel with
  | O => undef
  | S fuel' =>
      if (0 <? Z.of_nat (length src)) then
        let va0 := PGROUNDDOWN dstva in
        let! pa0 := writable_page u va0 in
        if pa0 =? 0 then ret (-1) else
        let n := Z.to_nat (MIN (PGSIZE - (dstva - va0)) (Z.of_nat (length src))) in
        mach (memory_op (λ m, put_bytes m (pa0 + (dstva - va0)) (take n src))) ;;
        copyout_loop fuel' u (u64 (va0 + PGSIZE)) (drop n src)
      else ret 0
  end.

Definition copyout (u : uvm) (dstva : Z) (src : list Z) : U Z :=
  let len := Z.of_nat (length src) in
  if (u64 (dstva + len) <? dstva) || (MAXVA <? u64 (dstva + len)) then ret (-1)
  else copyout_loop (S (length src)) u dstva src.

(** The physical page of [va0], for reading. *)
Definition readable_page (u : uvm) (va0 : Z) : U Z :=
  let! pa0 := mach (pgt_getpa (pagetable u) va0) in
  if pa0 =? 0 then uvm_completemap u va0 PTE_R else ret pa0.

(** Answers the status and the bytes copied to [dst]. *)
Fixpoint copyin_loop (fuel : nat) (u : uvm) (srcva len : Z) (dst : list Z) : U (Z * list Z) :=
  match fuel with
  | O => undef
  | S fuel' =>
      if 0 <? len then
        let va0 := PGROUNDDOWN srcva in
        let! pa0 := readable_page u va0 in
        if pa0 =? 0 then ret (-1, dst) else
        let n := MIN (PGSIZE - (srcva - va0)) len in
        let! bs := mach (gets (λ s, get_bytes (m_mem s) (pa0 + (srcva - va0)) (Z.to_nat n))) in
        copyin_loop fuel' u (u64 (va0 + PGSIZE)) (len - n) (dst ++ bs)
      else ret (0, dst)
  end.

Definition copyin (u : uvm) (srcva len : Z) : U (Z * list Z) :=
  copyin_loop (S (Z.to_nat len)) u srcva len [].

(** The bytes up to and including the first NUL. *)
Fixpoint upto_nul (bs : list Z) : list Z * bool :=
  match bs with
  | [] => ([], false)
  | b :: bs' => if b =? 0 then ([0], true) else let '(r, g) := upto_nul bs' in (b :: r, g)
  end.

Fixpoint copyinstr_loop (fuel : nat) (u : uvm) (srcva max : Z) (dst : list Z) : U (Z * list Z) :=
  match fuel with
  | O => undef
  | S fuel' =>
      if 0 <? max then
        let va0 := PGROUNDDOWN srcva in
        let! pa0 := readable_page u va0 in
        if pa0 =? 0 then ret (-1, dst) else
        let n := MIN (PGSIZE - (srcva - va0)) max in
        let! bs := mach (gets (λ s, get_bytes (m_mem s) (pa0 + (srcva - va0)) (Z.to_nat n))) in
        let '(r, got_null) := upto_nul bs in
        if got_null then ret (0, dst ++ r)
        else copyinstr_loop fuel' u (u64 (va0 + PGSIZE)) (max - n) (dst ++ r)
      else ret (-1, dst)
  end.

Definition copyinstr (u : uvm) (srcva max : Z) : U (Z * list Z) :=
  copyinstr_loop (S (Z.to_nat max)) u srcva max [].
End Code.
