(* ===== verification/UvmSpec.v ===== *)
(** * Virtual memory areas: the searches of kernel/uvm.c

    Areas of a process never share a page: [uvm_map] keeps that invariant,
    [getfreevrange] terminates and finds a free range when it answers one. *)

From Stdlib Require Import ZifyBool.
From S2P Require Import Prelude Riscv Mem Random Spinlock Kalloc Pagetable Uvm.

#[local] Ltac Zify.zify_post_hook ::= Z.to_euclidean_division_equations.

(** ** Areas *)

(** The pages [[lo, hi)] of a range that does not wrap around. *)
Definition plo (s : Z) : Z := PGROUNDDOWN s.
Definition phi (s l : Z) : Z := PGROUNDUP (u64 (s + l)).

Lemma MAX_eq x y : MAX x y = Z.max x y.
Proof. unfold MAX. case_match; lia. Qed.
Lemma MIN_eq x y : MIN x y = Z.min x y.
Proof. unfold MIN. case_match; lia. Qed.

Lemma ranges_meet_eq s1 l1 s2 l2 :
  ranges_meet s1 l1 s2 l2 = (Z.max (plo s1) (plo s2) <? Z.min (phi s1 l1) (phi s2 l2)).
Proof. unfold ranges_meet. by rewrite MAX_eq, MIN_eq. Qed.

Lemma ranges_meet_sym s1 l1 s2 l2 : ranges_meet s1 l1 s2 l2 = ranges_meet s2 l2 s1 l1.
Proof. rewrite !ranges_meet_eq. by rewrite Z.max_comm, Z.min_comm. Qed.

(** The slot [i] of [u] holds the area [j]. *)
Definition slot_is (u : uvm) (i : nat) (j : Z) : Prop := uvm_vma u !! i = Some (Some j).

(** *** Pages

    What the test of the code is meant to decide, without the wrap-around of its
    arithmetic: the pages that [l] bytes from [s] reach into; an empty range inside a
    page counts as on it. *)
Definition on_page (s l p : Z) : Prop := s / PGSIZE <= p ∧ p * PGSIZE < s + l.

(** Two ranges with a page in common. *)
Definition share (s1 l1 s2 l2 : Z) : Prop := ∃ p, on_page s1 l1 p ∧ on_page s2 l2 p.

(** The range ends below the last page of the 64-bit addresses. *)
Definition no_wrap (s l : Z) : Prop := 0 <= s ∧ 0 <= l ∧ s + l + PGSIZE <= 2 ^ 64.

(** Without wrap-around the test of the code is right. *)
Lemma ranges_meet_share s1 l1 s2 l2 : no_wrap s1 l1 → no_wrap s2 l2 → ranges_meet s1 l1 s2 l2 = true ↔ share s1 l1 s2 l2.
Proof.
  intros (? & ? & ?) (? & ? & ?). rewrite ranges_meet_eq. unfold plo, phi, share, on_page.
  rewrite !(wrap_small 64), !PGROUNDUP_eq, !PGROUNDDOWN_eq by lia. split.
  - intros Hlt%Z.ltb_lt. exists (Z.max (s1 / PGSIZE) (s2 / PGSIZE)). lia.
  - intros (p & [P1 P2] & Q1 & Q2). apply Z.ltb_lt. lia.
Qed.

Lemma share_sym s1 l1 s2 l2 : share s1 l1 s2 l2 ↔ share s2 l2 s1 l1.
Proof. unfold share. naive_solver. Qed.

(** An address of a range is on one of its pages. *)
Lemma on_page_in s l a : s <= a < s + l → on_page s l (a / PGSIZE).
Proof. intros Ha. unfold on_page. lia. Qed.

(** Every slot names a used entry of its own, and areas share no page. *)
Record areas_ok (t : gmap Z vma) (u : uvm) : Prop := {
  ar_len : length (uvm_vma u) = VMA_SIZE;
  ar_used : ∀ i j, slot_is u i j → v_used (vma_at t j) = true ∧ 0 <= j < Z.of_nat MAX_VMAS;
  ar_inj : ∀ i i' j, slot_is u i j → slot_is u i' j → i = i';
  ar_bound : ∀ i j, slot_is u i j → no_wrap (v_start (vma_at t j)) (v_length (vma_at t j));
  ar_apart : ∀ i i' j j', slot_is u i j → slot_is u i' j' → i ≠ i' →
    ¬ share (v_start (vma_at t j)) (v_length (vma_at t j)) (v_start (vma_at t j')) (v_length (vma_at t j'))
}.

Lemma israngefree_spec t u a l :
  uvm_israngefree t u a l = true ↔
  ∀ i j, slot_is u i j → ranges_meet a l (v_start (vma_at t j)) (v_length (vma_at t j)) = false.
Proof.
  unfold uvm_israngefree, slot_is. rewrite forallb_forall. setoid_rewrite <- list_elem_of_In.
  setoid_rewrite list_elem_of_lookup. split.
  - intros Hf i j Hi. specialize (Hf (Some j) (ex_intro _ i Hi)). simpl in Hf. by apply negb_true_iff in Hf.
  - intros Hf [j|] [i Hi]; [|done]. apply negb_true_iff. by eapply Hf.
Qed.

(** No area has a page in common with [l] bytes from [a]. *)
Definition range_free (t : gmap Z vma) (u : uvm) (a l : Z) : Prop :=
  ∀ i j, slot_is u i j → ¬ share a l (v_start (vma_at t j)) (v_length (vma_at t j)).

Lemma israngefree_true t u a l : areas_ok t u → no_wrap a l → uvm_israngefree t u a l = true ↔ range_free t u a l.
Proof.
  intros Ha Hw. rewrite israngefree_spec. unfold range_free. split; intros Hf i j Hi; specialize (Hf i j Hi);
    pose proof (ranges_meet_share a l _ _ Hw (ar_bound _ _ Ha i j Hi)) as Hm; destruct (ranges_meet _ _ _ _); naive_solver.
Qed.

(** An address of an area: what [uvm_va2vma] looks for. *)
Definition in_area (v : vma) (va : Z) : bool := (v_start v <=? va) && (va <? v_end v).

Lemma va2vma_Some t u va j :
  uvm_va2vma t u va = Some j → ∃ i, slot_is u i j ∧ in_area (vma_at t j) va = true.
Proof.
  unfold uvm_va2vma, slot_is. induction (uvm_vma u) as [|[k|] l IH]; simpl; [done|..].
  - case_match eqn:E.
    + intros [= ->]. by exists 0%nat.
    + intros (i & Hi & Ha)%IH. by exists (S i).
  - intros (i & Hi & Ha)%IH. by exists (S i).
Qed.

Lemma va2vma_None t u va :
  uvm_va2vma t u va = None ↔ ∀ i j, slot_is u i j → in_area (vma_at t j) va = false.
Proof.
  unfold uvm_va2vma, slot_is. induction (uvm_vma u) as [|[k|] l IH]; simpl.
  - split; [|done]. intros _ i j. by rewrite lookup_nil.
  - change ((v_start (vma_at t k) <=? va) && (va <? v_end (vma_at t k))) with (in_area (vma_at t k) va).
    destruct (in_area (vma_at t k) va) eqn:E.
    + split; [done|]. intros Hn. specialize (Hn 0%nat k eq_refl). congruence.
    + rewrite IH. split; intros Hn i j; [destruct i as [|i]; simpl; [by intros [= ->]|apply Hn]|apply (Hn (S i))].
  - rewrite IH. split; intros Hn i j; [destruct i as [|i]; simpl; [done|apply Hn]|apply (Hn (S i))].
Qed.

(** ** The search for a free range *)

Section Search.
Context (t : gmap Z vma) (u : uvm).
Hypothesis ends_ok : ∀ i j, slot_is u i j → 0 <= v_start (vma_at t j) ∧ v_end (vma_at t j) + PGSIZE <= 2 ^ 64.

Definition top (j : Z) : Z := PGROUNDUP (v_end (vma_at t j)).

Lemma top_aligned i j : slot_is u i j → aligned (top j) ∧ 0 <= top j < 2 ^ 64.
Proof.
  intros Hi. destruct (ends_ok _ _ Hi) as [_ He]. unfold top, v_end in *.
  pose proof (wrap_bound 64 (v_start (vma_at t j) + v_length (vma_at t j))).
  rewrite PGROUNDUP_eq by lia. unfold aligned. lia.
Qed.

(** [next_end] is the least of [MAXVA] and the ends above [prev]. *)
Lemma next_end_spec prev :
  (next_end t u prev = MAXVA ∨ ∃ i j, slot_is u i j ∧ next_end t u prev = top j ∧ prev < top j) ∧
  next_end t u prev <= MAXVA ∧ ∀ i j, slot_is u i j → prev < top j → next_end t u prev <= top j.
Proof.
  unfold next_end, slot_is. generalize (uvm_vma u) as l. intros l.
  induction l as [|p l IH] using rev_ind; simpl.
  { split_and!; [by left|lia|]. intros i j. by rewrite lookup_nil. }
  rewrite foldl_app. simpl. set (acc := foldl _ MAXVA l) in *. destruct IH as (I1 & I2 & I3).
  assert (∀ i j, l !! i = Some (Some j) → (l ++ [p]) !! i = Some (Some j)) as Hl.
  { intros. by apply lookup_app_l_Some. }
  assert (∀ i j, (l ++ [p]) !! i = Some (Some j) → l !! i = Some (Some j) ∨ p = Some j) as Hr.
  { intros i j [Hi|[_ Hi]]%lookup_app_Some; [by left|right].
    apply list_lookup_singleton_Some in Hi as [_ ?]. done. }
  destruct p as [k|].
  2: { split_and!; [|done|].
       - destruct I1 as [?|(i & j & ? & ?)]; [by left|right; eauto 10].
       - intros i j [?|?]%Hr; [eauto|done]. }
  fold (top k). destruct (Z.ltb_spec prev (top k)).
  - rewrite MIN_eq. split_and!.
    + destruct (Z.min_spec acc (top k)) as [[? ->]|[? ->]].
      * destruct I1 as [?|(i & j & ? & ?)]; [by left|right; eauto 10].
      * right. exists (length l), k. split_and!; [|done|done]. by apply list_lookup_middle.
    + lia.
    + intros i j [Hi|[= ->]]%Hr Hj; [pose proof (I3 _ _ Hi Hj); lia|lia].
  - split_and!; [|done|].
    + destruct I1 as [?|(i & j & ? & ?)]; [by left|right; eauto 10].
    + intros i j [Hi|[= ->]]%Hr Hj; [eauto|lia].
Qed.

(** The measure: how many areas end above [addr]. *)
Definition ends_above (a : Z) (p : option Z) : Prop :=
  match p with Some j => a < top j | None => False end.
#[local] Instance ends_above_dec a p : Decision (ends_above a p).
Proof. destruct p; simpl; apply _. Defined.

Definition above (addr : Z) : list (option Z) := filter (ends_above addr) (uvm_vma u).

Lemma above_le a b l :
  a <= b → (length (filter (ends_above b) l) <= length (filter (ends_above a) l))%nat.
Proof.
  intros Hab. induction l as [|p l IH]; [done|]. rewrite !filter_cons.
  repeat case_decide; simpl; try lia. destruct p; simpl in *; lia.
Qed.

Lemma above_shrinks a b i j :
  a < b → slot_is u i j → a < top j → top j <= b → (length (above b) < length (above a))%nat.
Proof.
  unfold above, slot_is. intros Hab. revert i. induction (uvm_vma u) as [|p l IH]; intros i Hi Ha Hb; [done|].
  rewrite !filter_cons. pose proof (above_le a b l ltac:(lia)). destruct i as [|i].
  - injection Hi as ->. repeat case_decide; simpl in *; lia.
  - simpl in Hi. specialize (IH _ Hi Ha Hb). repeat case_decide; simpl in *; try lia. destruct p; simpl in *; lia.
Qed.

(** [a] is an aligned address from which [len] bytes are free. *)
Definition fits (len a : Z) : Prop := aligned a ∧ uvm_israngefree t u a len = true.

(** No free range starts between a taken address and the next end. *)
Lemma no_fit_between len addr a :
  0 < len < 2 ^ 31 → 0 <= addr → uvm_israngefree t u addr len = false →
  addr <= a → a < next_end t u addr → ¬ fits len a.
Proof.
  intros Hlen Haddr Hnf Hle Hlt [Hal Hfree].
  destruct (next_end_spec addr) as (_ & Hmax & Hmin).
  rewrite israngefree_spec in Hfree.
  apply not_true_iff_false in Hnf. rewrite israngefree_spec in Hnf.
  apply Hnf. intros i j Hi. specialize (Hfree i j Hi). rewrite ranges_meet_eq in *.
  unfold plo, phi in *. fold (v_end (vma_at t j)) in *. fold (top j) in *.
  destruct (ends_ok _ _ Hi) as [Hs He]. rewrite (wrap_small 64 (addr + len)), PGROUNDUP_eq by lia.
  rewrite (wrap_small 64 (a + len)), PGROUNDUP_eq in Hfree by lia. rewrite !PGROUNDDOWN_eq in *.
  unfold aligned in Hal.
  apply Z.ltb_ge in Hfree. apply Z.ltb_ge. destruct (top_aligned _ _ Hi) as [Hta _]. unfold aligned in Hta.
  destruct (decide (addr < top j)) as [Htop|]; [specialize (Hmin _ _ Hi Htop)|]; lia.
Qed.

Definition found (len : Z) (r : Z) : Prop :=
  (r = 0 ∧ ∀ a, START_VMAS_ADDR <= a → a + len <= MAXVA → ¬ fits len a) ∨
  (fits len r ∧ START_VMAS_ADDR <= r ∧ r + len <= MAXVA ∧ ∀ a, START_VMAS_ADDR <= a < r → ¬ fits len a).

Lemma getfreevrange_loop_spec fuel addr len :
  0 < len < 2 ^ 31 → START_VMAS_ADDR <= addr → aligned addr → addr + len <= MAXVA →
  (length (above addr) < fuel)%nat →
  (∀ a, START_VMAS_ADDR <= a < addr → ¬ fits len a) →
  ∃ r, getfreevrange_loop fuel t u addr len = Some r ∧ found len r.
Proof.
  intros Hlen. revert addr. induction fuel as [|fuel IH]; intros addr Hs Hal Hm Hf Hno; [lia|].
  simpl. destruct (uvm_israngefree t u addr len) eqn:E.
  { exists addr. split; [done|]. right. split_and!; [by split|done..]. }
  change START_VMAS_ADDR with 137438949376 in *.
  pose proof (no_fit_between len addr) as Hbetween.
  destruct (next_end_spec addr) as (Hcase & Hmax & Hmin).
  assert (PGROUNDUP (next_end t u addr) = next_end t u addr ∧ addr < next_end t u addr) as [-> Hgt].
  { destruct Hcase as [->|(i & j & Hi & Hc & Hj)]; [split; [done|lia]|]. rewrite Hc in *. split; [|done].
    destruct (top_aligned _ _ Hi) as [Hta Htb]. apply PGROUNDUP_id; [lia|lia|done]. }
  assert (∀ a, 137438949376 <= a < next_end t u addr → ¬ fits len a) as Hno'.
  { intros a Ha. destruct (decide (a < addr)); [apply Hno; lia|]. apply Hbetween; lia || done. }
  rewrite (wrap_small 64) by lia. destruct (Z.ltb_spec MAXVA (next_end t u addr + len)) as [Hend|Hend].
  { exists 0. split; [done|]. left. split; [done|]. intros a Ha Hal'. apply Hno'. lia. }
  destruct Hcase as [Hc|(i & j & Hi & Hc & Hj)]; [lia|].
  apply IH; [lia| |lia| |done].
  - rewrite Hc. by apply (top_aligned i).
  - pose proof (above_shrinks addr (next_end t u addr) i j). lia.
Qed.
(** C19 (termination).  [getfreevrange] terminates within one turn per slot, and
    its answer is the lowest page-aligned address from [START_VMAS_ADDR] where
    [len] bytes are free below [MAXVA]; it answers 0 exactly when there is
    none. *)
Theorem getfreevrange_correct len :
  length (uvm_vma u) = VMA_SIZE → 0 < len < 2 ^ 31 →
  ∃ r, getfreevrange t u len = Some r ∧ found len r.
Proof.
  intros Hl Hlen. unfold getfreevrange. rewrite (wrap_small 64) by lia.
  change START_VMAS_ADDR with 137438949376. apply getfreevrange_loop_spec; try done; try lia.
  unfold above. pose proof (length_filter (ends_above 137438949376) (uvm_vma u)). lia.
Qed.
End Search.

(** ** Allocating an area *)

Section Map.
Context {K : Type} `{InodeOps K} `{Linker}.
Abbreviation lku s := (m_lk (u_m s)).

(** From [s] to [s'] the machine is the same but for the lock state, which
    is equivalent. *)
Definition same_machine (s s' : ust K) : Prop :=
  m_lk (u_m s') ≡ m_lk (u_m s) ∧ m_mem (u_m s') = m_mem (u_m s) ∧ m_kmem (u_m s') = m_kmem (u_m s).

Lemma same_machine_refl s : same_machine s s.
Proof. by split_and!. Qed.

Lemma same_machine_trans s1 s2 s3 : same_machine s1 s2 → same_machine s2 s3 → same_machine s1 s3.
Proof. intros (?&?&?) (?&?&?). split_and!; [by etrans|congruence..]. Qed.

(** The result of the search of the table: the first free entry, taken. *)
Definition taken (s : ust K) (r : option Z) (s' : ust K) : Prop :=
  same_machine s s' ∧ u_k s' = u_k s ∧
  match r with
  | Some j => 0 <= j < Z.of_nat MAX_VMAS ∧ v_used (vma_at (u_vmas s) j) = false ∧
              u_vmas s' = <[j := set_used true (vma_at (u_vmas s) j)]> (u_vmas s)
  | None => u_vmas s' = u_vmas s ∧ ∀ j, 0 <= j < Z.of_nat MAX_VMAS → v_used (vma_at (u_vmas s) j) = true
  end.

Lemma take_vma_spec s : lockable LK_VMAS (lku s) → wp take_vma (taken s) s.
Proof.
  intros Hl. unfold take_vma. apply wp_bind, wp_acquire; [done|].
  set (s1 := set (acquired LK_VMAS (view s)) s).
  apply wp_bind, (wp_for (λ k s', s' = s1 ∧ ∀ j, 0 <= j < Z.of_nat k → v_used (vma_at (u_vmas s) j) = true)).
  - split; [done|]. intros. lia.
  - intros k ? Hk [-> Hall]. rewrite Z.mul_1_r, Z.add_0_l. apply wp_bind, wp_gets.
    change (u_vmas s1) with (u_vmas s). destruct (v_used _) eqn:E.
    + apply wp_ret. split; [done|]. intros j Hj.
      destruct (decide (j = Z.of_nat k)) as [->|]; [done|]. apply Hall. lia.
    + apply wp_bind, wp_modify. apply wp_bind, (wp_release _ (lku s)); [done|done|]. intros l' He.
      apply wp_ret, wp_ret. split_and!; try done; lia.
  - intros ? [-> Hall]. apply wp_bind, (wp_release _ (lku s)); [done|done|]. intros l' He.
    apply wp_ret. by split_and!.
Qed.

Lemma find_free_slot u i x :
  list_find (λ x : option Z, x = None) (uvm_vma u) = Some (i, x) →
  uvm_vma u !! i = Some None ∧ ∀ i', (i' < i)%nat → uvm_vma u !! i' ≠ Some None.
Proof. intros (Hi & -> & Hf)%list_find_Some. split; [done|]. intros i' Hlt E. by apply (Hf i' None). Qed.

(** The test wraps around with a range that ends in the last page of the 64-bit
    addresses: it finds the range free although it contains every area. *)
Lemma israngefree_wraps t u : uvm_israngefree t u 0 (2 ^ 64 - 1) = true.
Proof.
  apply israngefree_spec. intros i j _. rewrite ranges_meet_eq. unfold phi at 1. rewrite Z.add_0_l.
  change (PGROUNDUP (u64 (2 ^ 64 - 1))) with 0. change (plo 0) with 0. lia.
Qed.

(** [uvm] after a slot has been filled. *)
Lemma slot_is_set u i j i' j' :
  (i < length (uvm_vma u))%nat →
  slot_is (set_vma_slot i (Some j) u) i' j' ↔ (i' = i ∧ j' = j) ∨ (i' ≠ i ∧ slot_is u i' j').
Proof.
  intros Hi. unfold slot_is, set_vma_slot. simpl. rewrite list_lookup_insert_Some. split.
  - intros [(-> & [= ->] & _)|[? ?]]; [by left|right; done].
  - intros [[-> ->]|[? ?]]; [left; done|right; done].
Qed.

Lemma vma_at_insert t j v k : vma_at (<[j := v]> t) k = if k =? j then v else vma_at t k.
Proof.
  unfold vma_at. destruct (Z.eqb_spec k j) as [->|]; [by rewrite lookup_insert_eq|by rewrite lookup_insert_ne].
Qed.

(** Filling a free slot with a fresh entry whose range is free. *)
Lemma areas_ok_add t u i j v :
  areas_ok t u → uvm_vma u !! i = Some None → v_used (vma_at t j) = false → 0 <= j < Z.of_nat MAX_VMAS →
  v_used v = true → no_wrap (v_start v) (v_length v) → range_free t u (v_start v) (v_length v) →
  areas_ok (<[j := v]> t) (set_vma_slot i (Some j) u).
Proof.
  intros [A1 A2 A3 A5 A4] Hi Hj Hjb Hv Hw Hfree.
  assert (i < length (uvm_vma u))%nat as Hil by (by eapply lookup_lt_Some).
  assert (∀ i' k, slot_is u i' k → k ≠ j) as Hne.
  { intros i' k Hk ->. apply A2 in Hk as [Hk _]. congruence. }
  split.
  - simpl. by rewrite length_insert.
  - intros i' k [[-> ->]|[Hii Hk]]%slot_is_set; [|..|done].
    + rewrite vma_at_insert, Z.eqb_refl. done.
    + rewrite vma_at_insert, (proj2 (Z.eqb_neq _ _)) by (by eapply Hne). by eapply A2.
  - intros i1 i2 k [[-> ->]|[H1 Hk1]]%slot_is_set [[-> ?]|[H2 Hk2]]%slot_is_set; try done.
    + by destruct (Hne _ _ Hk2). + subst. by destruct (Hne _ _ Hk1). + by eapply A3.
  - intros i' k [[-> ->]|[Hii Hk]]%slot_is_set; [|..|done].
    + by rewrite vma_at_insert, Z.eqb_refl.
    + rewrite vma_at_insert, (proj2 (Z.eqb_neq _ _)) by (by eapply Hne). by eapply A5.
  - intros i1 i2 k1 k2 [[-> ->]|[H1 Hk1]]%slot_is_set [[-> ->]|[H2 Hk2]]%slot_is_set Hii; try done.
    + rewrite !vma_at_insert, Z.eqb_refl, (proj2 (Z.eqb_neq _ _)) by (by eapply Hne).
      by apply (Hfree i2).
    + rewrite !vma_at_insert, Z.eqb_refl, (proj2 (Z.eqb_neq _ _)) by (by eapply Hne).
      rewrite share_sym. by apply (Hfree i1).
    + rewrite !vma_at_insert, !(proj2 (Z.eqb_neq _ _)) by (by eapply Hne). by eapply A4.
Qed.

(** *** What user memory relies on of the file system

    [file_ready s ip]: the inode is referenced and unlocked, so that the file
    system's operations on it return; [file_held s ip]: this process holds
    its lock; [file_data s ip]: the contents of the file; [rest_of]: the part of
    the state that is not the file system's. *)
Class InodeLaws := {
  rest : Type;
  rest_of : K → rest;
  file_ready : ust K → Z → Prop;
  file_held : ust K → Z → Prop;
  file_data : ust K → Z → list Z;
  file_user s s' ip : u_k s' = u_k s → m_lk (u_m s') ≡ m_lk (u_m s) →
    (file_ready s ip → file_ready s' ip) ∧ (file_held s ip → file_held s' ip) ∧ file_data s' ip = file_data s ip;
  file_kept (ip : Z) (s s' : ust K) : Prop :=
    u_vmas s' = u_vmas s ∧ rest_of (u_k s') = rest_of (u_k s) ∧
    ∀ ip', (ip' ≠ ip → file_ready s ip' → file_ready s' ip') ∧ file_data s' ip' = file_data s ip';
  idup_ok ip s : file_ready s ip →
    wp (idup ip) (λ r s', r = ip ∧ same_machine s s' ∧ file_kept ip s s') s;
  ilock_ok ip s : file_ready s ip →
    wp (ilock ip) (λ _ s', file_held s' ip ∧ same_machine s s' ∧ file_kept ip s s') s;
  iunlock_ok ip s : file_held s ip →
    wp (iunlock ip) (λ _ s', file_ready s' ip ∧ same_machine s s' ∧ file_kept ip s s') s;
  readi_ok ip dst off n s : file_held s ip → 0 <= off → 0 <= n → off + n <= Z.of_nat (length (file_data s ip)) →
    wp (readi_kernel ip dst off n)
       (λ r s', r = n ∧ file_held s' ip ∧ file_kept ip s s' ∧
          m_lk (u_m s') ≡ m_lk (u_m s) ∧ m_kmem (u_m s') = m_kmem (u_m s) ∧
          ∀ a, ldb (m_mem (u_m s')) a =
               if (dst <=? a) && (a <? dst + n) then u8 (nth (Z.to_nat (off + (a - dst))) (file_data s ip) 0)
               else ldb (m_mem (u_m s)) a) s
}.

Context `{InodeLaws}.

Definition inode_ready (s : ust K) (inode : option Z) : Prop :=
  match inode with Some ip => file_ready s ip | None => True end.

Lemma vma_init_spec j start length perm flags inode offset filesz s :
  inode_ready s inode →
  wp (vma_init j start length perm flags inode offset filesz)
     (λ _ s', same_machine s s' ∧
        u_vmas s' = <[j := mkVma (v_used (vma_at (u_vmas s) j)) inode offset filesz start length perm flags]> (u_vmas s) ∧
        rest_of (u_k s') = rest_of (u_k s) ∧ ∀ ip, file_data s' ip = file_data s ip) s.
Proof.
  intros Hr. unfold vma_init. apply wp_bind, wp_gets. destruct inode as [ip|]; simpl in *.
  - apply wp_bind. eapply wp_step; [by apply idup_ok|]. intros d s1 (-> & Hm & [Hv [Hrest Hd]]).
    apply wp_ret, wp_modify. simpl. split_and!; [done|by rewrite Hv|done|]. intros ip'.
    etrans; [|apply Hd]. by apply file_user.
  - apply wp_bind, wp_ret, wp_modify. split_and!; [done|done|done|]. intros ip'. by apply file_user.
Qed.

(** Why no area is made: anonymous memory that is not private, a page of another
    area, or no slot or no entry of the table left. *)
Definition map_refused (u : uvm) (addr : Z) (v : vma) (s : ust K) : Prop :=
  (v_inode v = None ∧ v_flags v ≠ MAP_PRIVATE) ∨ ¬ range_free (u_vmas s) u addr (v_length v) ∨
  (∀ i, uvm_vma u !! i ≠ Some None) ∨ (∀ j, 0 <= j < Z.of_nat MAX_VMAS → v_used (vma_at (u_vmas s) j) = true).

(** The answer of [uvm_map]: the area is new, in the first free slot and an unused
    entry, or nothing has changed. *)
Definition map_area_post (u : uvm) (addr : Z) (v : vma) (s : ust K) (r : Z) (u' : uvm) (s' : ust K) : Prop :=
  same_machine s s' ∧ areas_ok (u_vmas s') u' ∧
  ((r = addr ∧ range_free (u_vmas s) u addr (v_length v) ∧
    (∃ i j, uvm_vma u !! i = Some None ∧ (∀ i', (i' < i)%nat → uvm_vma u !! i' ≠ Some None) ∧ u' = set_vma_slot i (Some j) u ∧
       v_used (vma_at (u_vmas s) j) = false ∧ u_vmas s' = <[j := v]> (u_vmas s)) ∧
    rest_of (u_k s') = rest_of (u_k s) ∧ ∀ ip, file_data s' ip = file_data s ip) ∨
   (r = u64 (-1) ∧ u' = u ∧ u_vmas s' = u_vmas s ∧ u_k s' = u_k s ∧ map_refused u addr v s)).

Lemma uvm_map_spec u addr length perm flags inode offset filesz s :
  areas_ok (u_vmas s) u → lockable LK_VMAS (lku s) → inode_ready s inode → no_wrap addr length →
  wp (uvm_map u addr length perm flags inode offset filesz)
     (λ ru s', map_area_post u addr (mkVma true inode offset filesz addr length perm flags) s ru.1 ru.2 s') s.
Proof.
  intros Hok Hl Hr Hw. unfold uvm_map. set (v := mkVma true inode offset filesz addr length perm flags).
  assert (∀ s', same_machine s s' → u_vmas s' = u_vmas s → u_k s' = u_k s → map_refused u addr v s →
    map_area_post u addr v s (u64 (-1)) u s') as Hfail.
  { intros s' Hm Hv Hk Hw'. split_and!; [done|by rewrite Hv|]. by right. }
  destruct (bool_decide (inode = None) && _) eqn:Ef.
  { apply wp_ret, Hfail; [apply same_machine_refl|done|done|]. left. apply andb_true_iff in Ef as [E1%bool_decide_eq_true E2].
    split; [done|]. simpl. apply negb_true_iff in E2. by apply Z.eqb_neq. }
  clear Ef. apply wp_bind, wp_gets. pose proof (israngefree_true (u_vmas s) u addr length Hok Hw) as Hiff.
  destruct (uvm_israngefree (u_vmas s) u addr length) eqn:Hfree; simpl.
  2: { apply wp_ret, Hfail; [apply same_machine_refl|done|done|]. right. left. simpl. naive_solver. }
  assert (range_free (u_vmas s) u addr length) as Hrf by (by apply Hiff).
  unfold vmaalloc. destruct (list_find _ (uvm_vma u)) as [[i x]|] eqn:Ef.
  2: { apply wp_bind, wp_ret, wp_ret, Hfail; [apply same_machine_refl|done|done|]. right. right. left. intros i Hi.
       apply list_find_None in Ef. rewrite Forall_lookup in Ef. by destruct (Ef _ _ Hi). }
  apply find_free_slot in Ef as [Ef Efirst]. apply wp_bind. eapply wp_step; [by apply take_vma_spec|].
  intros [j|] s1 (Hm & Hk & Hres); simpl.
  2: { destruct Hres as [Hv Hall]. apply wp_ret, wp_ret, Hfail; [done|done|done|]. by right; right; right. }
  destruct Hres as (Hj & Hu & Ht). apply wp_ret. simpl.
  eapply wp_step; [apply vma_init_spec|].
  { destruct inode as [ip|]; [|done]. by apply (file_user s s1 ip Hk), Hr; apply Hm. }
  intros [] s2 (Hm2 & Hv2 & Hrest & Hdata). apply wp_ret. simpl.
  rewrite Ht, vma_at_insert, Z.eqb_refl, insert_insert_eq in Hv2. simpl in Hv2.
  split_and!; [by eapply same_machine_trans| |].
  - rewrite Hv2. by apply areas_ok_add.
  - left. split_and!; [done|done|by exists i, j|by rewrite Hrest, Hk|]. intros ip. rewrite Hdata. apply file_user; [done|apply Hm].
Qed.

(** C18 (invariant).  For a range that does not wrap around, [uvm_map] returns and
    keeps the areas of the process on pages of their own.  It either answers [addr],
    when no area reaches into a page of the range: then the first free slot names a
    table entry that was unused and holds exactly the area asked for, and no file has
    changed; or it answers -1 and has changed nothing, and then the area is anonymous
    and shared, the range has a page in common with an area, or no slot or entry is
    left. *)
Theorem uvm_map_correct u addr length perm flags inode offset filesz s :
  areas_ok (u_vmas s) u → lockable LK_VMAS (lku s) → inode_ready s inode → no_wrap addr length →
  wp (uvm_map u addr length perm flags inode offset filesz)
     (λ ru s', map_area_post u addr (mkVma true inode offset filesz addr length perm flags) s ru.1 ru.2 s') s.
Proof. apply uvm_map_spec. Qed.
End Map.
