(* ===== verification/UvmFault.v ===== *)
(** * Page faults and copy on write (kernel/uvm.c)

    [uvm_completemap] gives a page to an address of an area on its first
    access, and a private copy of a shared page on the first write. *)

From Stdlib Require Import ZifyBool.
From S2P Require Import Prelude Riscv Mem Random Spinlock Kalloc Pagetable PtSpec PtRange PtFree Uvm UvmSpec.

#[local] Opaque memset memmove st ld.

(** ** Writing to a data page *)

Section Data.
Context `{Linker}.

(** Writes to a page that was free in [s] and is no table page now. *)
Lemma grows_data s T s1 T1 L R root p m' :
  grows s T s1 T1 L R → pt_ok (m_mem s1) (m_kmem s1) T1 root →
  managed p → ref (m_kmem s) p = 0 → ¬ is_table T1 p →
  (∀ a, in_page p a = false → ldb m' a = ldb (m_mem s1) a) →
  let s2 := set_mem m' s1 in grows s T s2 T1 L R ∧ pt_ok (m_mem s2) (m_kmem s2) T1 root.
Proof.
  intros G Hok Hp Hr Ht Hm s2.
  assert (∀ q a, is_table T1 q → in_page q a = true → ldb m' a = ldb (m_mem s1) a) as Htab.
  { intros q a Hq Ha. apply Hm. eapply in_page_ne; [|done]. by intros ->. }
  split; [|by eapply pt_ok_ext; [exact Htab| |]].
  destruct G as [G1 G2 G3 G4 G5 G6 G7]. split; try done; simpl.
  - intros a Ha Hl1 Hl2. rewrite Hm; [by apply G6|]. rewrite in_page_div. apply Z.eqb_neq.
    intros E. rewrite E in Hl1. specialize (Hl1 Hp). lia.
  - intros va. rewrite <- G7. by apply leaf_ext.
Qed.

Lemma zero_memset m p : zero_page (memset m (p * PGSIZE) 0 PGSIZE) p.
Proof. intros a Ha. apply memset_in. by apply in_page_iff. Qed.

(** Only the lock state differs. *)
Lemma grows_same s T s1 T1 L R s2 :
  grows s T s1 T1 L R → m_lk s2 ≡ m_lk s1 → m_mem s2 = m_mem s1 → m_kmem s2 = m_kmem s1 →
  grows s T s2 T1 L R.
Proof.
  destruct s1 as [l1 m1 k1], s2 as [l2 m2 k2]. simpl. intros [] He -> ->. split; try done.
  simpl. rewrite He. done.
Qed.

(** A page fresh from the allocator. *)
Lemma grows_kalloc s T s1 T1 L R s2 root p :
  grows s T s1 T1 L R → pt_ok (m_mem s1) (m_kmem s1) T1 root → kmem_ok (m_kmem s) → (∀ q, 0 <= R q) →
  alloc_post s1 (p * PGSIZE) s2 → managed p →
  grows s T s2 T1 L (λ q, R q + b2z (q =? p)) ∧ pt_ok (m_mem s2) (m_kmem s2) T1 root ∧
  ref (m_kmem s) p = 0 ∧ ref (m_kmem s2) p = 1 ∧ ¬ is_table T1 p ∧
  (∀ a, in_page p a = false → ldb (m_mem s2) a = ldb (m_mem s1) a).
Proof.
  intros G Hok Hk HR (Hlk & Hk2 & [(E & _)|(p' & E & Hp & Hr0 & Hn & Hr & Hm)]) Hp'.
  { by apply managed_nonzero in Hp'. }
  assert (p' = p) as -> by lia. clear Hp' E.
  assert (¬ is_table T1 p) as Hpt.
  { intros [y Hy]. apply (pt_pages _ _ _ _ Hok) in Hy as [_ Hy]. lia. }
  assert (∀ a, in_page p a = false → ldb (m_mem s2) a = ldb (m_mem s1) a) as Hout.
  { intros a Ha. by rewrite Hm, Ha. }
  assert (∀ q a, is_table T1 q → in_page q a = true → ldb (m_mem s2) a = ldb (m_mem s1) a) as Htab.
  { intros q a Hq Ha. apply Hout. eapply in_page_ne; [|done]. by intros ->. }
  assert (grows s1 T1 s2 T1 (leaf (m_mem s1) T1) (λ q, b2z (q =? p))) as G2.
  { split; try done.
    - congruence.
    - intros q. left. rewrite Hr. unfold b2z. case_tests.
    - intros a Ha Hl _. apply Hout. rewrite in_page_div. apply Z.eqb_neq. intros E.
      rewrite E in Hl. specialize (Hl Hp). lia.
    - intros va. by apply leaf_ext. }
  assert (ref (m_kmem s) p = 0) as Hrs.
  { pose proof (ok_refs _ Hk p). specialize (HR p). destruct (g_ref _ _ _ _ _ _ G p) as [|[? _]]; lia. }
  split_and!; try done.
  - eapply grows_ext; [| |eapply grows_trans; [done| |exact G|exact G2]]; try done. apply (g_leaf _ _ _ _ _ _ G).
  - eapply pt_ok_ext; [exact Htab| |done]. intros q Hq. rewrite Hr. destruct (Z.eqb_spec q p) as [->|]; done.
  - by rewrite Hr, Z.eqb_refl.
Qed.
End Data.

(** ** The page fault *)

(** Name the machine a computation runs on. *)
Ltac at_machine m := lazymatch goal with |- wp ?f ?Q _ => change (wp f Q m) end.

Section Fault.
Context {K : Type} `{!InodeOps K} `{!Linker} `{!InodeLaws (K := K)}.
Abbreviation um s := (m_mem (u_m s)).
Abbreviation uk s := (m_kmem (u_m s)).

(** An area a page fault can be served in: no wrap-around, and when it is
    backed by a file, the file has the bytes. *)
Definition area_ok (s : ust K) (v : vma) : Prop :=
  0 <= v_start v ∧ 0 <= v_length v ∧ v_start v + v_length v <= MAXVA ∧ 0 <= v_perm v < 1024 ∧
  match v_inode v with
  | None => True
  | Some ip => file_ready s ip ∧ 0 <= v_offset v ∧ 0 <= v_filesz v < 2 ^ 32 ∧
               v_offset v + v_filesz v <= Z.of_nat (length (file_data s ip)) ∧
               v_offset v + v_filesz v < 2 ^ 32
  end.

(** The initial contents of an area: the bytes of the file, then zeros. *)
Definition init_byte (s : ust K) (v : vma) (va : Z) : Z :=
  match v_inode v with
  | None => 0
  | Some ip => if va <? v_start v + v_filesz v
               then u8 (nth (Z.to_nat (v_offset v + (va - v_start v))) (file_data s ip) 0) else 0
  end.

(** The table of areas, the locks, the files and the rest of the state are as before. *)
Definition files_kept (s s' : ust K) : Prop :=
  u_vmas s' = u_vmas s ∧ m_lk (u_m s') ≡ m_lk (u_m s) ∧ rest_of (u_k s') = rest_of (u_k s) ∧
  ∀ ip, (file_ready s ip → file_ready s' ip) ∧ file_data s' ip = file_data s ip.

Lemma files_kept_user s s' : 
  u_vmas s' = u_vmas s → u_k s' = u_k s → m_lk (u_m s') ≡ m_lk (u_m s) → files_kept s s'.
Proof. intros Hv Hk Hl. split_and!; [done|done|by rewrite Hk|]. intros ip. destruct (file_user s s' ip Hk Hl) as (? & _ & ?). done. Qed.

Lemma files_kept_trans s1 s2 s3 : files_kept s1 s2 → files_kept s2 s3 → files_kept s1 s3.
Proof.
  intros (V1 & L1 & R1 & F1) (V2 & L2 & R2 & F2). split_and!; [congruence|by rewrite L2|congruence|]. intros ip. destruct (F1 ip) as [G1 D1], (F2 ip) as [G2 D2].
  split; [auto|congruence].
Qed.

Lemma files_kept_grows s T m' T' L R : grows (u_m s) T m' T' L R → files_kept s (set m' s).
Proof. intros G. apply files_kept_user; [done|done|]. apply (g_lk _ _ _ _ _ _ G). Qed.

Lemma area_ok_kept s s' v : files_kept s s' → area_ok s v → area_ok s' v.
Proof.
  intros (_ & _ & _ & Hf) (? & ? & ? & ? & Hi). split_and!; try done; try lia. destruct (v_inode v) as [ip|]; [|done].
  destruct (Hf ip) as [Hr ->]. destruct Hi. split; auto.
Qed.

Lemma area_ok_user s s' v :
  area_ok s v → u_k s' = u_k s → m_lk (u_m s') ≡ m_lk (u_m s) → area_ok s' v.
Proof.
  intros (? & ? & ? & ? & Hi) Hk Hl. split_and!; try done; try lia. destruct (v_inode v) as [ip|]; [|done].
  destruct (file_user s s' ip Hk Hl) as (Hr & _ & ->). destruct Hi as (? & ?). split; [by apply Hr|done].
Qed.

Lemma init_byte_user s s' v va :
  u_k s' = u_k s → m_lk (u_m s') ≡ m_lk (u_m s) → init_byte s' v va = init_byte s v va.
Proof.
  intros Hk Hl. unfold init_byte. destruct (v_inode v) as [ip|]; [|done].
  by destruct (file_user s s' ip Hk Hl) as (_ & _ & ->).
Qed.

Lemma fill_page_spec v va p s :
  area_ok s v → in_area v va = true → aligned va → zero_page (um s) p → 
  wp (fill_page v va (p * PGSIZE))
     (λ _ s', files_kept s s' ∧ m_lk (u_m s') ≡ m_lk (u_m s) ∧ uk s' = uk s ∧
        (∀ a, in_page p a = false → ldb (um s') a = ldb (um s) a) ∧
        (∀ i, 0 <= i < PGSIZE → ldb (um s') (p * PGSIZE + i) = init_byte s v (va + i))) s.
Proof.
  intros (H0 & Hlen & Hend & _ & Hino) Hin Hal Hz. unfold fill_page, init_byte.
  assert (∀ i, 0 <= i < PGSIZE → ldb (um s) (p * PGSIZE + i) = 0) as Hzero.
  { intros i Hi. apply Hz, in_page_iff. lia. }
  destruct (v_inode v) as [ip|].
  2: { apply wp_ret. split; [by apply files_kept_user|by split_and!]. }
  destruct Hino as (Hr & Hoff & Hfs & Hdata & Hw).
  unfold in_area, v_end in Hin. rewrite (wrap_small 64) in * by lia.
  destruct (Z.ltb_spec va (v_start v + v_filesz v)) as [Hlt|Hge].
  2: { apply wp_ret. split; [by apply files_kept_user|]. split_and!; try done.
       intros i Hi. rewrite Hzero by done. rewrite (proj2 (Z.ltb_ge _ _)); [done|lia]. }
  eapply wp_step; [by apply ilock_ok|]. intros [] s1 (Hh & Hm1 & Hf1). pose proof (proj2 (proj2 (proj2 Hf1) ip)) as Hd1.
  rewrite MIN_eq. set (n := Z.min _ _). rewrite (wrap_small 32) by lia.
  eapply wp_step; [apply readi_ok; [done|lia|lia|rewrite Hd1; lia]|].
  intros r s2 (-> & Hh2 & Hf2 & Hl2 & Hk2 & Hmem).
  eapply wp_step; [by apply iunlock_ok|]. intros [] s3 (Hr3 & (Hl3 & Hm3 & Hk3) & Hf3).
  rewrite (wrap_small 64), Z.eqb_refl by lia. simpl. apply wp_ret. destruct Hm1 as (Hl1 & Hme1 & Hk1).
  split_and!.
  - destruct Hf1 as (V1 & R1 & F1), Hf2 as (V2 & R2 & F2), Hf3 as (V3 & R3 & F3).
    split_and!; [congruence|by rewrite Hl3, Hl2, Hl1|congruence|]. intros ip'.
    destruct (F1 ip') as [G1 D1], (F2 ip') as [G2 D2], (F3 ip') as [G3 D3]. split; [|congruence].
    destruct (decide (ip' = ip)) as [->|]; auto.
  - by rewrite Hl3, Hl2, Hl1.
  - congruence.
  - intros a Ha. rewrite Hm3, Hmem, Hme1. rewrite <- not_true_iff_false, in_page_iff in Ha. case_test; [lia|done..].
  - intros i Hi. rewrite Hm3, Hmem, Hme1, Hd1. unfold n in *. 
    destruct (Z.ltb_spec (va + i) (v_start v + v_filesz v)).
    + rewrite (proj2 (andb_true_iff _ _)) by lia. do 2 f_equal. lia.
    + rewrite (proj2 (andb_false_iff _ _)) by lia. by apply Hzero.
Qed.

(** The entry of the page of [va] replaced by [x]. *)
Definition upd (L : Z → Z) (va x : Z) (va' : Z) : Z := if same_page va' va then x else L va'.

(** The entry of a page copied on write. *)
Definition cow_entry (p e : Z) : Z := Z.lor (Z.lor (PA2PTE (p * PGSIZE)) (PTE_FLAGS e)) PTE_W.

(** The four ways a page fault ends: refused; a first access, served with a
    new page holding the initial contents; a write to a page nobody shares,
    which becomes writable; a write to a shared page, which is copied. *)
Definition fault_refused (T : tree) (s s' : ust K) (T' : tree) : Prop :=
  grows (u_m s) T (u_m s') T' (leaf (um s) T) (λ _, 0).

Definition fault_new (T : tree) (v : vma) (va : Z) (s : ust K) (r : Z) (s' : ust K) (T' : tree) : Prop :=
  ∃ p, r = p * PGSIZE ∧ managed p ∧ has (leaf (um s) T va) PTE_V = false ∧
    ref (uk s) p = 0 ∧ ref (uk s') p = 1 ∧ ¬ is_table T' p ∧
    grows (u_m s) T (u_m s') T' (upd (leaf (um s) T) va (mk_leaf (p * PGSIZE) (v_perm v))) (λ q, b2z (q =? p)) ∧
    ∀ i, 0 <= i < PGSIZE → ldb (um s') (p * PGSIZE + i) = init_byte s v (va + i).

Definition fault_own (T : tree) (va : Z) (s : ust K) (r : Z) (s' : ust K) (T' : tree) : Prop :=
  let e := leaf (um s) T va in
  has e PTE_V = true ∧ has e PTE_U = true ∧ r = PTE2PA e ∧ ref (uk s) (r / PGSIZE) = 1 ∧
  grows (u_m s) T (u_m s') T' (upd (leaf (um s) T) va (Z.lor e PTE_W)) (λ _, 0).

Definition fault_copy (T : tree) (va : Z) (s : ust K) (r : Z) (s' : ust K) (T' : tree) : Prop :=
  let e := leaf (um s) T va in
  ∃ p q, has e PTE_V = true ∧ has e PTE_U = true ∧ PTE2PA e = q * PGSIZE ∧ 1 < ref (uk s) q ∧ r = p * PGSIZE ∧ managed p ∧
    ref (uk s) p = 0 ∧ ref (uk s') p = 1 ∧ ¬ is_table T' p ∧
    grows (u_m s) T (u_m s') T' (upd (leaf (um s) T) va (cow_entry p e)) (λ x, b2z (x =? p) - b2z (x =? q)) ∧
    ∀ i, 0 <= i < PGSIZE → ldb (um s') (p * PGSIZE + i) = ldb (um s) (q * PGSIZE + i).

(** Why a fault in an area that grants the access is refused: memory is used up, or
    the page is not one for user mode. *)
Definition no_page (T : tree) (va : Z) (s s' : ust K) : Prop :=
  numfree (uk s') = 0 ∨ (has (leaf (um s) T va) PTE_V = true ∧ has (leaf (um s) T va) PTE_U = false).

Definition fault_post (u : uvm) (T : tree) (v : vma) (va : Z) (s : ust K) (r : Z) (s' : ust K) : Prop :=
  files_kept s s' ∧ ∃ T', pt_ok (um s') (uk s') T' (pagetable u) ∧
    ((r = 0 ∧ fault_refused T s s' T' ∧ no_page T va s s') ∨ fault_new T v va s r s' T' ∨
     fault_own T va s r s' T' ∨ fault_copy T va s r s' T').

(** A user entry names a data page. *)
Definition user_entry (T : tree) (k : kmem) (e : Z) : Prop :=
  has e PTE_V = true → has e PTE_U = true →
  ∃ q, PTE2PA e = q * PGSIZE ∧ managed q ∧ 0 < ref k q ∧ ¬ is_table T q.

(** The new page [p] is mapped and zeroed; the file is read into it. *)
Lemma fault_fill u T v va s T1 m4 p :
  area_ok s v → in_area v va = true → aligned va → has (leaf (um s) T va) PTE_V = false →
  managed p → ref (uk s) p = 0 → ref (m_kmem m4) p = 1 → ¬ is_table T1 p → zero_page (m_mem m4) p →
  grows (u_m s) T m4 T1 (upd (leaf (um s) T) va (mk_leaf (p * PGSIZE) (v_perm v))) (λ q, b2z (q =? p)) →
  pt_ok (m_mem m4) (m_kmem m4) T1 (pagetable u) →
  wp (fill_page v va (p * PGSIZE) ;; ret (p * PGSIZE)) (fault_post u T v va s) (set m4 s).
Proof.
  intros Hv Hin Hal Hinv Hm Hr0 Hr4 Ht Hzero G4 Hok4.
  eapply wp_step; [apply fill_page_spec; [|done|done|exact Hzero]|].
  { eapply area_ok_user; [done|done|]. apply (g_lk _ _ _ _ _ _ G4). }
  intros [] s5 (Hv5 & Hl5 & Hk5 & Hout5 & Hinit). apply wp_ret.
  cbn [u_m u_vmas set ust_machine] in Hl5, Hk5, Hout5.
  destruct (grows_data _ _ _ _ _ _ _ p (um s5) G4 Hok4 Hm Hr0 Ht Hout5) as [G5 Hok5].
  split; [exact (files_kept_trans _ _ _ (files_kept_grows _ _ _ _ _ _ G4) Hv5)|]. exists T1. split; [rewrite Hk5; exact Hok5|]. right. left. exists p.
  split_and!; [reflexivity|exact Hm|exact Hinv|exact Hr0|rewrite Hk5; exact Hr4|exact Ht|..].
  - exact (grows_same _ _ _ _ _ _ _ G5 Hl5 eq_refl Hk5).
  - intros i Hi. rewrite Hinit by done. apply init_byte_user; [done|]. apply (g_lk _ _ _ _ _ _ G4).
Qed.

Lemma completemap_new u T v va s T1 m1 p0 :
  area_ok s v → in_area v va = true → aligned va → kmem_ok (uk s) → lockable LK_KMEM (m_lk (u_m s)) →
  has (leaf (um s) T va) PTE_V = false →
  grows (u_m s) T m1 T1 (leaf (um s) T) (λ _, 0) → pt_ok (m_mem m1) (m_kmem m1) T1 (pagetable u) →
  T1 !! (0, kidx 0 va) = Some p0 →
  wp (let! pa := mach kalloc in
      if pa =? 0 then ret 0 else
      mach (store64 (slot T1 va) (Z.lor (Z.lor (Z.lor (PA2PTE pa) (v_perm v)) PTE_V) PTE_U)) ;;
      mach (memsetM pa 0 PGSIZE) ;; fill_page v va pa ;; ret pa)
     (fault_post u T v va s) (set m1 s).
Proof.
  intros Hv Hin Hal Hk Hl Hinv G1 Hok1 Hp0.
  apply wp_bind, wp_zoom. eapply wp_mono.
  { apply kalloc_spec; [apply G1|]. simpl. by rewrite (g_lk _ _ _ _ _ _ G1). }
  intros pa m2 Hpost. simpl. case_test.
  { apply wp_ret. destruct Hpost as (Hlk & Hk2 & [(_ & Hn & Em & Ek)|(p & -> & Hm & _)]).
    2: { by apply managed_nonzero in Hm. }
    simpl in *. pose proof (grows_same _ _ _ _ _ _ m2 G1 Hlk Em Ek) as G2.
    split; [exact (files_kept_grows _ _ _ _ _ _ G2)|]. exists T1. split; [simpl; by rewrite Em, Ek|].
    left. split_and!; [done|exact G2|]. left. simpl. by rewrite Ek. }
  assert (∃ p, pa = p * PGSIZE ∧ managed p) as (p & -> & Hm).
  { destruct Hpost as (_ & _ & [(? & _)|(p & ? & ? & _)]); [done|eauto]. }
  simpl in Hpost. destruct (grows_kalloc _ _ _ _ _ _ _ _ _ G1 Hok1 Hk (λ _, Z.le_refl 0) Hpost Hm)
    as (G2 & Hok2 & Hr0 & Hr1 & Ht & Hout).
  assert (0 <= v_perm v < 1024) as Hperm by apply Hv.
  assert (0 <= mk_leaf (p * PGSIZE) (v_perm v) < 2 ^ 64) as Hb by (apply mk_leaf_bound; [by apply managed_paddr|done]).
  destruct (grows_store _ _ _ _ _ _ _ va _ p0 G2 Hok2 Hp0 Hb) as [G3 Hok3].
  set (m3 := set_mem _ m2) in *.
  assert (∀ a, in_page p a = false → ldb (memset (m_mem m3) (p * PGSIZE) 0 PGSIZE) a = ldb (m_mem m3) a) as Hset.
  { intros a Ha. apply memset_out; [lia|]. rewrite <- not_true_iff_false, in_page_iff in Ha. lia. }
  destruct (grows_data _ _ _ _ _ _ _ p _ G3 Hok3 Hm Hr0 Ht Hset) as [G4 Hok4].
  set (m4 := set_mem _ m3) in *.
  apply wp_bind, wp_zoom, wp_modify. at_machine (set m3 s).
  apply wp_bind, wp_zoom, wp_modify. at_machine (set m4 s).
  apply (fault_fill u T v va s T1 m4 p); try done.
  apply (zero_memset (m_mem m3) p).
Qed.

Lemma lor_bound64 a b : 0 <= a < 2 ^ 64 → 0 <= b < 2 ^ 64 → 0 <= Z.lor a b < 2 ^ 64.
Proof.
  intros Ha Hb. split; [apply Z.lor_nonneg; lia|].
  rewrite <- (Z.mod_small a (2 ^ 64)), <- (Z.mod_small b (2 ^ 64)) by lia.
  rewrite <- !Z.land_ones, <- Z.land_lor_distr_l, Z.land_ones by lia. apply Z.mod_pos_bound. lia.
Qed.

Lemma PTE_FLAGS_bound e : 0 <= PTE_FLAGS e < 1024.
Proof. unfold PTE_FLAGS. rewrite (Z.land_ones _ 10) by lia. apply Z.mod_pos_bound. lia. Qed.

Lemma cow_entry_bound p e : managed p → 0 <= cow_entry p e < 2 ^ 64.
Proof.
  intros Hp. unfold cow_entry. apply lor_bound64; [|lia]. apply PTE_mk_bound; [by apply managed_paddr|].
  apply PTE_FLAGS_bound.
Qed.

Lemma completemap_own u T v va s T1 m1 p0 q :
  let e := leaf (um s) T va in
  has e PTE_V = true → has e PTE_U = true → PTE2PA e = q * PGSIZE → ref (uk s) q = 1 →
  grows (u_m s) T m1 T1 (leaf (um s) T) (λ _, 0) → pt_ok (m_mem m1) (m_kmem m1) T1 (pagetable u) →
  T1 !! (0, kidx 0 va) = Some p0 →
  wp (let! e := mach (load64 (slot T1 va)) in
      mach (store64 (slot T1 va) (Z.lor e PTE_W)) ;; ret (q * PGSIZE))
     (fault_post u T v va s) (set m1 s).
Proof.
  intros e HV HU Hq Hr G1 Hok1 Hp0. apply wp_bind, wp_zoom, wp_gets.
  change (view (set m1 s)) with m1.
  rewrite <- (leaf_slot _ _ _ _ Hp0), (g_leaf _ _ _ _ _ _ G1). fold e.
  apply wp_bind, wp_zoom, wp_modify, wp_ret.
  assert (0 <= Z.lor e PTE_W < 2 ^ 64) as Hb by (apply lor_bound64; [apply leaf_bound|lia]).
  destruct (grows_store _ _ _ _ _ _ _ va _ p0 G1 Hok1 Hp0 Hb) as [G2 Hok2].
  split; [exact (files_kept_grows _ _ _ _ _ _ G2)|]. exists T1.
  split; [done|]. right. right. left. split_and!; try done.
  by rewrite Z.div_mul.
Qed.

(** The bytes of the new page, after the entry has been stored. *)
Lemma copy_page_byte m2 T1 root va p0 p q x i :
  pt_ok (m_mem m2) (m_kmem m2) T1 root → T1 !! (0, kidx 0 va) = Some p0 → ¬ is_table T1 p → 0 <= i < PGSIZE →
  let mm := memmove (m_mem m2) (p * PGSIZE) (q * PGSIZE) PGSIZE in
  ldb (st64 mm (slot T1 va) x) (p * PGSIZE + i) = ldb (m_mem m2) (q * PGSIZE + i).
Proof.
  intros Hok Hp0 Ht Hi mm. erewrite store_out; [|done|].
  - unfold mm. rewrite memmove_ldb by lia. rewrite (proj2 (andb_true_iff _ _)) by lia. f_equal. lia.
  - apply (in_page_ne p); [|apply in_page_iff; lia]. intros ->. apply Ht. by eexists.
Qed.

Lemma completemap_copy u T v va s T1 m1 p0 q :
  let e := leaf (um s) T va in
  kmem_ok (uk s) → lockable LK_KMEM (m_lk (u_m s)) →
  has e PTE_V = true → has e PTE_U = true → PTE2PA e = q * PGSIZE → managed q → 1 < ref (uk s) q → ¬ is_table T q →
  grows (u_m s) T m1 T1 (leaf (um s) T) (λ _, 0) → pt_ok (m_mem m1) (m_kmem m1) T1 (pagetable u) →
  T1 !! (0, kidx 0 va) = Some p0 →
  wp (let! pg := mach kalloc in
      if pg =? 0 then ret 0 else
      mach (memory_op (λ m, memmove m pg (q * PGSIZE) PGSIZE)) ;;
      let! e := mach (load64 (slot T1 va)) in
      mach (store64 (slot T1 va) (Z.lor (Z.lor (PA2PTE pg) (PTE_FLAGS e)) PTE_W)) ;;
      mach (kfree (q * PGSIZE)) ;;
      ret pg)
     (fault_post u T v va s) (set m1 s).
Proof.
  intros e Hk Hl HV HU Hq Hqm Hr Hqt G1 Hok1 Hp0.
  apply wp_bind, wp_zoom. eapply wp_mono.
  { apply kalloc_spec; [apply G1|]. simpl. by rewrite (g_lk _ _ _ _ _ _ G1). }
  intros pa m2 Hpost. simpl. case_test.
  { apply wp_ret. destruct Hpost as (Hlk & Hk2 & [(_ & Hn & Em & Ek)|(p & -> & Hm & _)]).
    2: { by apply managed_nonzero in Hm. }
    simpl in *. pose proof (grows_same _ _ _ _ _ _ m2 G1 Hlk Em Ek) as G2.
    split; [exact (files_kept_grows _ _ _ _ _ _ G2)|]. exists T1. split; [simpl; by rewrite Em, Ek|].
    left. split_and!; [done|exact G2|]. left. simpl. by rewrite Ek. }
  assert (∃ p, pa = p * PGSIZE ∧ managed p) as (p & -> & Hm).
  { destruct Hpost as (_ & _ & [(? & _)|(p & ? & ? & _)]); [done|eauto]. }
  simpl in Hpost. destruct (grows_kalloc _ _ _ _ _ _ _ _ _ G1 Hok1 Hk (λ _, Z.le_refl 0) Hpost Hm)
    as (G2 & Hok2 & Hr0 & Hr1 & Ht & Hout).
  assert (q ≠ p) as Hqp by (intros ->; lia).
  set (mm := memmove (m_mem m2) (p * PGSIZE) (q * PGSIZE) PGSIZE).
  assert (∀ a, in_page p a = false → ldb mm a = ldb (m_mem m2) a) as Hmm.
  { intros a Ha. unfold mm. apply memmove_out; [lia|]. rewrite <- not_true_iff_false, in_page_iff in Ha. lia. }
  destruct (grows_data _ _ _ _ _ _ _ p mm G2 Hok2 Hm Hr0 Ht Hmm) as [G3 Hok3].
  set (m3 := set_mem mm m2) in *.
  destruct (grows_store _ _ _ _ _ _ _ va _ p0 G3 Hok3 Hp0 (cow_entry_bound p e Hm)) as [G4 Hok4].
  set (m4 := set_mem _ m3) in *.
  assert (¬ is_table T1 q ∧ ref (m_kmem m4) q = ref (uk s) q) as [Hqt1 Hrq].
  { split; [eapply grows_table; [exact G1|lia|done]|].
    destruct (g_ref _ _ _ _ _ _ G4 q) as [->|[]]; [|lia]. unfold b2z. rewrite (proj2 (Z.eqb_neq _ _)) by done. lia. }
  assert (¬ is_table T1 p) as Ht4 by done.
  apply wp_bind, wp_zoom, wp_modify. apply wp_bind, wp_zoom, wp_gets. cbn [m_mem set_mem].
  change (view (set m2 (set m1 s))) with m2. fold mm.
  change (view (set (set_mem mm m2) (set m2 (set m1 s)))) with m3.
  rewrite <- (leaf_slot _ _ _ _ Hp0), (g_leaf _ _ _ _ _ _ G3). fold e.
  apply wp_bind, wp_zoom, wp_modify. apply wp_bind, wp_zoom.
  at_machine m4. eapply wp_mono.
  { apply kfree_spec; [apply G4| |done|lia]. by rewrite (g_lk _ _ _ _ _ _ G4). }
  intros [] m5 Hfree. apply wp_ret.
  change (fault_post u T v va s (p * PGSIZE) (mkUst m5 (u_vmas s) (u_k s))).
  destruct (grows_free _ _ _ _ _ _ _ _ q G4 Hok4 Hfree Hqt1 Hqm) as [G5 Hok5].
  split; [exact (files_kept_grows _ _ _ _ _ _ G5)|]. exists T1.
  split; [done|]. right. right. right. exists p, q. split_and!; try done.
  - destruct Hfree as (_ & _ & Hrf & _). simpl. rewrite Hrf, (proj2 (Z.eqb_neq _ _)) by done. done.
  - intros i Hi. destruct Hfree as (_ & _ & _ & _ & Hmf). cbn [u_m].
    rewrite Hmf, (in_page_ne p q), andb_false_r by (done || (apply in_page_iff; lia)).
    change (m_mem m4) with (st64 mm (slot T1 va) (cow_entry p e)). unfold mm.
    rewrite (copy_page_byte m2 T1 (pagetable u) va p0 p q); try done. rewrite Hout.
    + assert ((q * PGSIZE + i) / PGSIZE = q) as Eq by (rewrite Z.div_add_l, Z.div_small; lia).
      apply (g_mem _ _ _ _ _ _ G1); rewrite Eq; [done|intros _; lia|]. intros _.
      destruct (g_ref _ _ _ _ _ _ G1 q) as [->|[]]; lia.
    + apply (in_page_ne q); [done|]. apply in_page_iff. lia.
Qed.

Lemma uvm_completemap_spec u T va perm s j :
  pt_ok (um s) (uk s) T (pagetable u) → kmem_ok (uk s) → lockable LK_KMEM (m_lk (u_m s)) → 0 <= va < MAXVA → aligned va →
  uvm_va2vma (u_vmas s) u va = Some j → area_ok s (vma_at (u_vmas s) j) → Z.land (v_perm (vma_at (u_vmas s) j)) perm ≠ 0 →
  user_entry T (uk s) (leaf (um s) T va) →
  (has (leaf (um s) T va) PTE_V = true → has (leaf (um s) T va) PTE_U = true → perm = PTE_W) →
  wp (uvm_completemap u va perm) (fault_post u T (vma_at (u_vmas s) j) va s) s.
Proof.
  intros Hok Hk Hl Hva Hal Ej Harea Hgr Hent Hperm. unfold uvm_completemap.
  unfold truthy. rewrite Hal, (proj2 (Z.leb_gt _ _)) by lia. cbn [negb orb Z.eqb].
  apply wp_bind, wp_gets. rewrite Ej.
  destruct (va2vma_Some _ _ _ _ Ej) as (_ & _ & Hin).
  apply wp_bind, wp_gets. set (v := vma_at (u_vmas s) j) in *.
  rewrite (proj2 (Z.eqb_neq _ _)) by done.
  apply wp_bind, wp_zoom. eapply wp_mono; [by apply (pgt_walk_true T)|].
  intros pte m1 (T1 & G1 & Hok1 & [[-> Hn]|[-> [p0 Hp0]]]); change (view s) with (u_m s) in G1.
  { apply wp_ret. split; [exact (files_kept_grows _ _ _ _ _ _ G1)|]. exists T1. split; [done|]. left. split_and!; [done|exact G1|by left]. }
  rewrite (proj2 (Z.eqb_neq _ _)) by (by eapply slot_nonzero).
  apply wp_bind, wp_zoom, wp_gets. change (view (set m1 s)) with m1.
  rewrite <- (leaf_slot _ _ _ _ Hp0), (g_leaf _ _ _ _ _ _ G1).
  at_machine (set m1 s). destruct (has (leaf (um s) T va) PTE_V) eqn:HV; simpl.
  2: { by eapply completemap_new. }
  destruct (has (leaf (um s) T va) PTE_U) eqn:HU; simpl.
  2: { apply wp_ret. split; [exact (files_kept_grows _ _ _ _ _ _ G1)|]. exists T1. split; [done|]. left. split_and!; [done|exact G1|by right]. }
  rewrite (Hperm eq_refl eq_refl). simpl.
  destruct (Hent HV HU) as (q & Hq & Hqm & Hqr & Hqt). rewrite Hq.
  apply wp_bind, wp_zoom. eapply wp_mono.
  { apply ksingleref_spec; [|done]. simpl. by rewrite (g_lk _ _ _ _ _ _ G1). }
  intros b m2 (-> & Hl2 & Em2 & Ek2). cbn [view ust_machine u_m] in Hl2, Em2, Ek2 |- *.
  assert (ref (m_kmem m1) q = ref (uk s) q) as Hrq.
  { destruct (g_ref _ _ _ _ _ _ G1 q) as [->|[]]; lia. }
  at_machine (set m2 s).
  assert (grows (u_m s) T m2 T1 (leaf (um s) T) (λ _, 0)) as G2 by (by eapply grows_same).
  assert (pt_ok (m_mem m2) (m_kmem m2) T1 (pagetable u)) as Hok2 by (by rewrite Em2, Ek2).
  destruct (Z.eqb_spec (ref (m_kmem m1) q) 1).
  - eapply completemap_own; try done. lia.
  - eapply completemap_copy; try done. lia.
Qed.
End Fault.
