(* ===== verification/UvmCopy.v ===== *)
(** * The memory a process sees (kernel/uvm.c)

    [ubyte] is the contents of a user address: the byte of the page mapped
    there, or what a page fault would put there.  Page faults do not change
    it; [copyout] changes exactly the addresses it is told to, and [copyin]
    answers it. *)

From Stdlib Require Import ZifyBool.
From S2P Require Import Prelude Riscv Mem Random Spinlock Kalloc Pagetable PtSpec PtRange PtFree Uvm UvmSpec UvmFault.

#[local] Opaque memset memmove st ld.

Section User.
Context {K : Type} `{!InodeOps K} `{!Linker} `{!InodeLaws (K := K)}.
Abbreviation um s := (m_mem (u_m s)).
Abbreviation uk s := (m_kmem (u_m s)).

(** What a valid entry [e] of a user page table names: no page-table page, a
    page in use; a user page is one of the allocator's, and a writable one
    has no other reference. *)
Definition page_entry (T : tree) (k : kmem) (e : Z) : Prop :=
  ∃ q, PTE2PA e = q * PGSIZE ∧ ¬ is_table T q ∧ (managed q → 0 < ref k q) ∧
       (has e PTE_U = true → managed q) ∧ (has e PTE_W = true → managed q ∧ ref k q = 1).

(** A well-formed user memory. *)
Record user_ok (u : uvm) (T : tree) (s : ust K) : Prop := {
  uo_pt : pt_ok (um s) (uk s) T (pagetable u);
  uo_kmem : kmem_ok (uk s);
  uo_lk : lockable LK_KMEM (m_lk (u_m s));
  uo_areas : areas_ok (u_vmas s) u;
  uo_area : ∀ i j, slot_is u i j → area_ok s (vma_at (u_vmas s) j);
  uo_entry : ∀ va, has (leaf (um s) T va) PTE_V = true → page_entry T (uk s) (leaf (um s) T va);
  uo_inj : ∀ va va', has (leaf (um s) T va) PTE_V = true → has (leaf (um s) T va') PTE_V = true →
    PTE2PA (leaf (um s) T va) = PTE2PA (leaf (um s) T va') → same_page va va' = true
}.

(** The byte at a mapped address. *)
Definition mapped_byte (s : ust K) (e va : Z) : Z := ldb (um s) (PTE2PA e + va mod PGSIZE).

Definition ubyte (s : ust K) (u : uvm) (T : tree) (va : Z) : option Z :=
  match uvm_va2vma (u_vmas s) u va with
  | None => None
  | Some j => let e := leaf (um s) T va in
              Some (if has e PTE_V then mapped_byte s e va else init_byte s (vma_at (u_vmas s) j) va)
  end.

Lemma page_of q i : 0 <= i < PGSIZE → (q * PGSIZE + i) / PGSIZE = q.
Proof. intros. rewrite Z.div_add_l, Z.div_small by lia. lia. Qed.

Lemma managed_table m k T root p : pt_ok m k T root → is_table T p → managed p.
Proof. intros Hok [x Hx]. by apply (pt_pages _ _ _ _ Hok) in Hx as [? _]. Qed.

(** A page an entry of [T] names stays no table page. *)
Lemma entry_page_stays u T (s s' : ust K) T' L' R q :
  user_ok u T s → grows (u_m s) T (u_m s') T' L' R → pt_ok (um s') (uk s') T' (pagetable u) →
  ¬ is_table T q → (managed q → 0 < ref (uk s) q) → ¬ is_table T' q.
Proof.
  intros Hu G Hok Ht Hr Ht'. pose proof (managed_table _ _ _ _ _ Hok Ht') as Hm.
  revert Ht'. eapply grows_table; [exact G|by apply Hr|done].
Qed.

(** An entry that has not changed keeps what it names. *)
Lemma entry_kept u T (s s' : ust K) T' L' R va :
  user_ok u T s → grows (u_m s) T (u_m s') T' L' R → pt_ok (um s') (uk s') T' (pagetable u) →
  has (leaf (um s) T va) PTE_V = true →
  (∀ q, PTE2PA (leaf (um s) T va) = q * PGSIZE → R q = 0) →
  page_entry T' (uk s') (leaf (um s) T va) ∧
  mapped_byte s' (leaf (um s) T va) va = mapped_byte s (leaf (um s) T va) va.
Proof.
  intros Hu G Hok HV HR. destruct (uo_entry _ _ _ Hu va HV) as (q & Eq & Ht & Hl & HU & HW).
  specialize (HR q Eq). pose proof (entry_page_stays _ _ _ _ _ _ _ _ Hu G Hok Ht Hl) as Ht'.
  assert (managed q → ref (uk s') q = ref (uk s) q) as Hr.
  { intros Hm. destruct (g_ref _ _ _ _ _ _ G q) as [->|[Hr _]]; [lia|]. specialize (Hl Hm). lia. }
  split.
  - exists q. split_and!; try done.
    + intros Hm. rewrite Hr by done. auto.
    + intros Hw. destruct (HW Hw) as [Hm H1]. split; [done|]. by rewrite Hr.
  - unfold mapped_byte. rewrite Eq. pose proof (Z.mod_pos_bound va PGSIZE ltac:(lia)).
    apply (g_mem _ _ _ _ _ _ G); rewrite page_of by lia; [done|done|]. intros Hm. rewrite Hr by done. auto.
Qed.

Lemma init_byte_kept (s s' : ust K) v va : files_kept s s' → init_byte s' v va = init_byte s v va.
Proof.
  intros (_ & _ & _ & Hf). unfold init_byte. destruct (v_inode v) as [ip|]; [|done]. by destruct (Hf ip) as [_ ->].
Qed.

(** The parts of a user memory a page fault does not touch. *)
Lemma user_grows u T (s s' : ust K) T' L' R :
  user_ok u T s → files_kept s s' → pt_ok (um s') (uk s') T' (pagetable u) →
  grows (u_m s) T (u_m s') T' L' R →
  (∀ va, has (L' va) PTE_V = true → page_entry T' (uk s') (L' va)) →
  (∀ va va', has (L' va) PTE_V = true → has (L' va') PTE_V = true →
     PTE2PA (L' va) = PTE2PA (L' va') → same_page va va' = true) →
  user_ok u T' s'.
Proof.
  intros Hu Hf Hok G He Hi. split.
  - done.
  - apply G.
  - rewrite (g_lk _ _ _ _ _ _ G). apply Hu.
  - rewrite (proj1 Hf). apply Hu.
  - intros i j Hs. rewrite (proj1 Hf). eapply area_ok_kept; [done|]. by eapply uo_area.
  - intros va. rewrite (g_leaf _ _ _ _ _ _ G). apply He.
  - intros va va'. rewrite !(g_leaf _ _ _ _ _ _ G). apply Hi.
Qed.

Lemma ubyte_grows u T (s s' : ust K) T' L' R va :
  files_kept s s' → grows (u_m s) T (u_m s') T' L' R →
  (∀ j, uvm_va2vma (u_vmas s) u va = Some j →
     (if has (L' va) PTE_V then mapped_byte s' (L' va) va else init_byte s (vma_at (u_vmas s) j) va) =
     (if has (leaf (um s) T va) PTE_V then mapped_byte s (leaf (um s) T va) va
      else init_byte s (vma_at (u_vmas s) j) va)) →
  ubyte s' u T' va = ubyte s u T va.
Proof.
  intros Hf G Hb. unfold ubyte. rewrite (proj1 Hf), (g_leaf _ _ _ _ _ _ G).
  destruct (uvm_va2vma (u_vmas s) u va) as [j|]; [|done]. f_equal. rewrite <- Hb by done.
  by rewrite (init_byte_kept s s').
Qed.

(** ** Other processes

    [isolated T T2 s]: the page tables of two processes share no table page,
    no table page of one is a data page of the other, and a page mapped in
    both has more than one reference. *)
Record isolated (T T2 : tree) (s : ust K) : Prop := {
  iso_apart : apart T T2;
  iso_tab1 : ∀ va q, has (leaf (um s) T va) PTE_V = true → PTE2PA (leaf (um s) T va) = q * PGSIZE → ¬ is_table T2 q;
  iso_tab2 : ∀ va q, has (leaf (um s) T2 va) PTE_V = true → PTE2PA (leaf (um s) T2 va) = q * PGSIZE → ¬ is_table T q;
  iso_share : ∀ va va2 q, has (leaf (um s) T va) PTE_V = true → has (leaf (um s) T2 va2) PTE_V = true →
    PTE2PA (leaf (um s) T va) = q * PGSIZE → PTE2PA (leaf (um s) T2 va2) = q * PGSIZE →
    managed q → 1 < ref (uk s) q
}.

(** Every other process keeps its memory and stays isolated. *)
Definition others_kept (T : tree) (s : ust K) (T' : tree) (s' : ust K) : Prop :=
  ∀ u2 T2, user_ok u2 T2 s → isolated T T2 s →
    user_ok u2 T2 s' ∧ isolated T' T2 s' ∧ ∀ va, ubyte s' u2 T2 va = ubyte s u2 T2 va.

Lemma others_kept_refl T s : others_kept T s T s.
Proof. by intros u2 T2 Hu Hi. Qed.

Lemma others_kept_trans T1 s1 T2 s2 T3 s3 :
  others_kept T1 s1 T2 s2 → others_kept T2 s2 T3 s3 → others_kept T1 s1 T3 s3.
Proof.
  intros H12 H23 u T Hu Hi. destruct (H12 u T Hu Hi) as (Hu2 & Hi2 & Hb2), (H23 u T Hu2 Hi2) as (Hu3 & Hi3 & Hb3).
  split_and!; try done. intros va. by rewrite Hb3.
Qed.

(** A change of the entries to pages they named before or to pages that were
    free, that gives up at most references to shared pages it no longer maps. *)
Definition fair_change (T : tree) (s : ust K) (L' R : Z → Z) : Prop :=
  (∀ va q, has (L' va) PTE_V = true → PTE2PA (L' va) = q * PGSIZE →
     (∃ va0, has (leaf (um s) T va0) PTE_V = true ∧ PTE2PA (leaf (um s) T va0) = q * PGSIZE) ∨
     (managed q ∧ ref (uk s) q = 0)) ∧
  (∀ q, R q = 0 ∨ (managed q ∧ ref (uk s) q = 0) ∨
     (R q = -1 ∧ 1 < ref (uk s) q ∧ (∃ va0, has (leaf (um s) T va0) PTE_V = true ∧ PTE2PA (leaf (um s) T va0) = q * PGSIZE) ∧
      ∀ va, has (L' va) PTE_V = true → PTE2PA (L' va) ≠ q * PGSIZE)).

Section Other.
Context (T : tree) (s s' : ust K) (T' : tree) (L' R : Z → Z) (root : Z) (u2 : uvm) (T2 : tree).
Hypothesis Hf : files_kept s s'.
Hypothesis Hok : pt_ok (um s') (uk s') T' root.
Hypothesis G : grows (u_m s) T (u_m s') T' L' R.
Hypothesis Hfair : fair_change T s L' R.
Hypothesis Hu2 : user_ok u2 T2 s.
Hypothesis Hiso : isolated T T2 s.

(** Pages in use that [T] does not have as table pages. *)
Lemma other_live q : ¬ is_table T q → (managed q → 0 < ref (uk s) q) →
  ¬ is_table T' q ∧ (managed q → 0 < ref (uk s') q) ∧
  ∀ a, a / PGSIZE = q → ldb (um s') a = ldb (um s) a.
Proof.
  intros Ht Hl.
  assert (¬ is_table T' q) as Ht'.
  { intros Ht'. pose proof (managed_table _ _ _ _ _ Hok Ht') as Hm. revert Ht'.
    eapply grows_table; [exact G|by apply Hl|done]. }
  assert (managed q → 0 < ref (uk s') q) as Hl'.
  { intros Hm. specialize (Hl Hm). destruct (g_ref _ _ _ _ _ _ G q) as [->|[]]; [|lia].
    destruct (proj2 Hfair q) as [->|[[_ ?]|(-> & ? & _)]]; lia. }
  split_and!; try done. intros a <-. by apply (g_mem _ _ _ _ _ _ G).
Qed.

Lemma other_table q : is_table T2 q → ¬ is_table T' q ∧ ref (uk s') q = ref (uk s) q ∧
  ∀ a, in_page q a = true → ldb (um s') a = ldb (um s) a.
Proof.
  intros Hq. destruct Hq as [x Hx]. destruct (pt_pages _ _ _ _ (uo_pt _ _ _ Hu2) _ _ Hx) as [Hm Hr].
  assert (is_table T2 q) as Hq by (by exists x).
  destruct (other_live q) as (H1 & H2 & H3); [intros Ht; by apply (iso_apart _ _ _ Hiso q)|lia|].
  split_and!; [done| |].
  - destruct (g_ref _ _ _ _ _ _ G q) as [->|[]]; [|lia].
    destruct (proj2 Hfair q) as [->|[[_ ?]|(_ & _ & (va0 & HV & E) & _)]]; [lia|lia|].
    by destruct (iso_tab1 _ _ _ Hiso va0 q HV E).
  - intros a Ha. apply H3. rewrite in_page_div in Ha. lia.
Qed.

Lemma other_leaf va : leaf (um s') T2 va = leaf (um s) T2 va.
Proof. apply leaf_ext. intros p a Hp. by apply other_table. Qed.

Lemma other_entry va :
  has (leaf (um s) T2 va) PTE_V = true →
  page_entry T2 (uk s') (leaf (um s) T2 va) ∧
  mapped_byte s' (leaf (um s) T2 va) va = mapped_byte s (leaf (um s) T2 va) va.
Proof.
  intros HV. destruct (uo_entry _ _ _ Hu2 va HV) as (q & Eq & Ht & Hl & HU & HW).
  destruct (other_live q (iso_tab2 _ _ _ Hiso va q HV Eq) Hl) as (H1 & H2 & H3). split.
  - exists q. split_and!; try done. intros Hw. destruct (HW Hw) as [Hm H0]. split; [done|].
    destruct (g_ref _ _ _ _ _ _ G q) as [->|[]]; [|lia].
    destruct (proj2 Hfair q) as [->|[[_ ?]|(_ & ? & _)]]; lia.
  - unfold mapped_byte. rewrite Eq. apply H3. apply page_of, Z.mod_pos_bound. lia.
Qed.

Lemma other_user : user_ok u2 T2 s'.
Proof.
  destruct Hu2 as [U1 U2 U3 U4 U5 U6 U7]. split.
  - eapply pt_ok_ext; [| |exact U1]; intros p; [intros a|]; intros Hp; by apply other_table.
  - apply G.
  - by rewrite (g_lk _ _ _ _ _ _ G).
  - by rewrite (proj1 Hf).
  - intros i j Hs. rewrite (proj1 Hf). eapply area_ok_kept; [done|]. by eapply U5.
  - intros va. rewrite other_leaf. intros HV. by apply other_entry.
  - intros va va'. rewrite !other_leaf. apply U7.
Qed.

Lemma other_isolated : isolated T' T2 s'.
Proof.
  split.
  - intros p Hp Hp2. by apply (proj1 (other_table p Hp2)).
  - intros va q. rewrite (g_leaf _ _ _ _ _ _ G). intros HV Eq Hq.
    destruct (proj1 Hfair va q HV Eq) as [(va0 & HV0 & E0)|[Hm Hr]].
    + by destruct (iso_tab1 _ _ _ Hiso va0 q HV0 E0).
    + destruct Hq as [x Hx]. destruct (pt_pages _ _ _ _ (uo_pt _ _ _ Hu2) _ _ Hx) as [_ ?]. lia.
  - intros va q. rewrite other_leaf. intros HV Eq.
    destruct (uo_entry _ _ _ Hu2 va HV) as (q' & Eq' & _ & Hl & _). assert (q' = q) as -> by lia.
    by apply (other_live q (iso_tab2 _ _ _ Hiso va q HV Eq)).
  - intros va va2 q. rewrite (g_leaf _ _ _ _ _ _ G), other_leaf. intros HV HV2 Eq Eq2 Hm.
    destruct (uo_entry _ _ _ Hu2 va2 HV2) as (q' & Eq' & _ & Hl & _). assert (q' = q) as -> by lia. specialize (Hl Hm).
    destruct (proj1 Hfair va q HV Eq) as [(va0 & HV0 & E0)|[_ ?]]; [|lia].
    pose proof (iso_share _ _ _ Hiso va0 va2 q HV0 HV2 E0 Eq2 Hm).
    destruct (g_ref _ _ _ _ _ _ G q) as [->|[]]; [|lia].
    destruct (proj2 Hfair q) as [->|[[_ ?]|(_ & _ & _ & Hno)]]; [lia|lia|]. by destruct (Hno va HV).
Qed.

Lemma other_ubyte va : ubyte s' u2 T2 va = ubyte s u2 T2 va.
Proof.
  unfold ubyte. rewrite (proj1 Hf), other_leaf. case_match; [|done]. f_equal. case_match eqn:HV.
  - by apply other_entry.
  - by apply init_byte_kept.
Qed.
End Other.

Lemma fair_others T s s' T' L' R root :
  files_kept s s' → pt_ok (um s') (uk s') T' root → grows (u_m s) T (u_m s') T' L' R → fair_change T s L' R →
  others_kept T s T' s'.
Proof.
  intros Hf Hok G Hfair u2 T2 Hu2 Hiso. split_and!.
  - by eapply other_user.
  - by eapply other_isolated.
  - intros va. by eapply other_ubyte.
Qed.

(** A refused page fault. *)
Lemma refused_user u T (s s' : ust K) T' :
  user_ok u T s → files_kept s s' → pt_ok (um s') (uk s') T' (pagetable u) → fault_refused T s s' T' →
  user_ok u T' s' ∧ ∀ va, ubyte s' u T' va = ubyte s u T va.
Proof.
  intros Hu Hf Hok G. split.
  - eapply user_grows; [done|done|done|exact G|..].
    + intros va HV. by apply (entry_kept _ _ _ _ _ _ _ _ Hu G Hok HV).
    + intros va va'. by apply (uo_inj _ _ _ Hu).
  - intros va. eapply ubyte_grows; [done|exact G|]. intros j Hj. case_match eqn:HV; [|done].
    by apply (entry_kept _ _ _ _ _ _ _ _ Hu G Hok HV).
Qed.

(** *** A served page fault *)

Lemma same_page_sym va va' : same_page va va' = same_page va' va.
Proof. unfold same_page. apply Z.eqb_sym. Qed.

Lemma upd_user u T (s s' : ust K) T' va x R p :
  user_ok u T s → files_kept s s' → pt_ok (um s') (uk s') T' (pagetable u) →
  grows (u_m s) T (u_m s') T' (upd (leaf (um s) T) va x) R →
  PTE2PA x = p * PGSIZE → has x PTE_V = true → page_entry T' (uk s') x →
  (∀ va', has (leaf (um s) T va') PTE_V = true → PTE2PA (leaf (um s) T va') = p * PGSIZE → same_page va' va = true) →
  (∀ va' q, same_page va' va = false → has (leaf (um s) T va') PTE_V = true →
     PTE2PA (leaf (um s) T va') = q * PGSIZE → R q = 0) →
  (∀ va' j, same_page va' va = true → uvm_va2vma (u_vmas s) u va' = Some j →
     ldb (um s') (p * PGSIZE + va' mod PGSIZE) =
     if has (leaf (um s) T va') PTE_V then mapped_byte s (leaf (um s) T va') va'
     else init_byte s (vma_at (u_vmas s) j) va') →
  user_ok u T' s' ∧ ∀ va', ubyte s' u T' va' = ubyte s u T va'.
Proof.
  intros Hu Hf Hok G Ex HV Hx Hp HR Hc. split.
  - eapply user_grows; [done|done|done|exact G|..]; unfold upd.
    + intros va' HV'. destruct (same_page va' va) eqn:E; [done|].
      apply (entry_kept _ _ _ _ _ _ _ _ Hu G Hok HV'). intros q. by apply HR.
    + intros va' va''. destruct (same_page va' va) eqn:E1, (same_page va'' va) eqn:E2; intros V1 V2 Epa.
      * unfold same_page in *. lia.
      * rewrite (Hp va'') in E2; [done|done|congruence].
      * rewrite (Hp va') in E1; [done|done|congruence].
      * by apply (uo_inj _ _ _ Hu).
  - intros va'. eapply ubyte_grows; [done|exact G|]. intros j Hj. unfold upd.
    destruct (same_page va' va) eqn:E.
    + rewrite HV. unfold mapped_byte at 1. rewrite Ex. by apply Hc.
    + case_match eqn:HV'; [|done]. apply (entry_kept _ _ _ _ _ _ _ _ Hu G Hok HV'). intros q. by apply HR.
Qed.

(** Two areas with addresses in one page are the same. *)
Lemma area_same_page u T s va va' j j' :
  user_ok u T s → uvm_va2vma (u_vmas s) u va = Some j → uvm_va2vma (u_vmas s) u va' = Some j' →
  same_page va va' = true → j = j'.
Proof.
  intros Hu (i & Hi & Ha)%va2vma_Some (i' & Hi' & Ha')%va2vma_Some Hs.
  destruct (decide (i = i')) as [->|Hne]; [unfold slot_is in *; congruence|].
  pose proof (ar_apart _ _ (uo_areas _ _ _ Hu) _ _ _ _ Hi Hi' Hne) as Hap.
  destruct (uo_area _ _ _ Hu _ _ Hi) as (A1 & A2 & A3 & _), (uo_area _ _ _ Hu _ _ Hi') as (B1 & B2 & B3 & _).
  exfalso. apply Hap. exists (va / PGSIZE). unfold same_page, in_area, v_end in *. rewrite !(wrap_small 64) in * by lia.
  split; [apply on_page_in; lia|]. replace (va / PGSIZE) with (va' / PGSIZE) by lia. apply on_page_in. lia.
Qed.

Lemma fresh_not_mapped u T s p va :
  user_ok u T s → managed p → ref (uk s) p = 0 → has (leaf (um s) T va) PTE_V = true →
  PTE2PA (leaf (um s) T va) ≠ p * PGSIZE.
Proof.
  intros Hu Hm Hr HV E. destruct (uo_entry _ _ _ Hu va HV) as (q & Eq & _ & Hl & _).
  assert (q = p) as -> by lia. specialize (Hl Hm). lia.
Qed.

Lemma page_offset va va' : aligned va → same_page va' va = true → va' = va + va' mod PGSIZE.
Proof.
  unfold aligned, same_page. intros Hal E%Z.eqb_eq. pose proof (Z.div_mod va PGSIZE). pose proof (Z.div_mod va' PGSIZE). lia.
Qed.

Lemma new_user u T v j va (s s' : ust K) r T' :
  user_ok u T s → files_kept s s' → pt_ok (um s') (uk s') T' (pagetable u) →
  aligned va → uvm_va2vma (u_vmas s) u va = Some j → v = vma_at (u_vmas s) j →
  fault_new T v va s r s' T' →
  user_ok u T' s' ∧ ∀ va', ubyte s' u T' va' = ubyte s u T va'.
Proof.
  intros Hu Hf Hok Hal Hj -> (p & -> & Hm & Hinv & Hr0 & Hr1 & Ht & G & Hc).
  assert (0 <= v_perm (vma_at (u_vmas s) j) < 1024) as Hperm.
  { destruct (va2vma_Some _ _ _ _ Hj) as (i & Hi & _). apply (uo_area _ _ _ Hu i j Hi). }
  pose proof (managed_paddr _ Hm) as Hpa.
  eapply upd_user; [done|done|done|exact G|by apply mk_leaf_pa|apply mk_leaf_V|..].
  - exists p. rewrite mk_leaf_pa by done. split_and!; try done. intros _. lia.
  - intros va' HV' Ep. by eapply fresh_not_mapped in HV'.
  - intros va' q _ HV' Eq. unfold b2z. destruct (Z.eqb_spec q p) as [->|]; [|done].
    by eapply fresh_not_mapped in HV'.
  - intros va' j' Hs Hj'. rewrite (leaf_page _ _ va' va) by done. rewrite Hinv.
    rewrite Hc by (apply Z.mod_pos_bound; lia). rewrite <- (page_offset va va') by done.
    by rewrite (area_same_page u T s va' va j' j).
Qed.

Lemma lorW_pa e : 0 <= e → PTE2PA (Z.lor e PTE_W) = PTE2PA e.
Proof.
  intros. unfold PTE2PA. rewrite Z.shiftr_lor. change (Z.shiftr PTE_W 10) with 0. by rewrite Z.lor_0_r.
Qed.

Lemma lorW_has e b : Z.land PTE_W b = 0 → has (Z.lor e PTE_W) b = has e b.
Proof. intros E. unfold has. by rewrite Z.land_lor_distr_l, E, Z.lor_0_r. Qed.

Lemma lorW_W e : has (Z.lor e PTE_W) PTE_W = true.
Proof.
  unfold has, truthy. apply negb_true_iff, Z.eqb_neq. intros E.
  assert (Z.testbit (Z.land (Z.lor e PTE_W) PTE_W) 2 = false) as Hb by (by rewrite E).
  rewrite Z.land_spec, Z.lor_spec in Hb. by rewrite orb_true_r in Hb.
Qed.

Lemma own_user u T va (s s' : ust K) r T' :
  user_ok u T s → files_kept s s' → pt_ok (um s') (uk s') T' (pagetable u) →
  fault_own T va s r s' T' →
  user_ok u T' s' ∧ ∀ va', ubyte s' u T' va' = ubyte s u T va'.
Proof.
  intros Hu Hf Hok (HV & HU & -> & Hr & G). set (e := leaf (um s) T va) in *.
  destruct (uo_entry _ _ _ Hu va HV) as (q & Eq & Ht & Hl & Hm & _). fold e in Eq, Hm. pose proof (Hm HU) as Hqm.
  assert (PTE2PA (Z.lor e PTE_W) = q * PGSIZE) as Ex by (rewrite lorW_pa; [done|apply leaf_bound]).
  rewrite Eq, Z.div_mul in Hr by lia.
  pose proof (entry_page_stays _ _ _ _ _ _ _ _ Hu G Hok Ht Hl) as Ht'.
  assert (ref (uk s') q = 1) as Hr'.
  { destruct (g_ref _ _ _ _ _ _ G q) as [->|[? _]]; lia. }
  eapply upd_user; [done|done|done|exact G|exact Ex|by rewrite lorW_has|..].
  - exists q. split_and!; try done. intros _. lia.
  - intros va' HV' Eq'. apply (uo_inj _ _ _ Hu); [done|done|]. unfold e in Eq. congruence.
  - done.
  - intros va' j Hs Hj. rewrite (leaf_page _ _ va' va) by done. fold e. rewrite HV. unfold mapped_byte. rewrite Eq.
    pose proof (Z.mod_pos_bound va' PGSIZE ltac:(lia)).
    apply (g_mem _ _ _ _ _ _ G); rewrite page_of by lia; [done|intros _; lia|intros _; lia].
Qed.

Lemma cow_fields p e :
  managed p → PTE2PA (cow_entry p e) = p * PGSIZE ∧
  has (cow_entry p e) PTE_V = has e PTE_V ∧ has (cow_entry p e) PTE_U = has e PTE_U ∧
  has (cow_entry p e) PTE_W = true.
Proof.
  intros Hm. pose proof (managed_paddr _ Hm) as Hpa. pose proof (PTE_FLAGS_bound e) as Hb.
  assert (∀ b, 0 <= b < 1024 → has (Z.lor (PA2PTE (p * PGSIZE)) (PTE_FLAGS e)) b = has e b) as Hh.
  { intros b Hbb. unfold has. rewrite land_flags, PTE_FLAGS_mk by done. by rewrite <- land_flags. }
  unfold cow_entry. split_and!.
  - rewrite lorW_pa; [by apply PTE2PA_mk|]. by apply PTE_mk_bound.
  - rewrite lorW_has by done. apply Hh. lia.
  - rewrite lorW_has by done. apply Hh. lia.
  - apply lorW_W.
Qed.

Lemma copy_user u T va (s s' : ust K) r T' :
  user_ok u T s → files_kept s s' → pt_ok (um s') (uk s') T' (pagetable u) → fault_copy T va s r s' T' →
  user_ok u T' s' ∧ ∀ va', ubyte s' u T' va' = ubyte s u T va'.
Proof.
  intros Hu Hf Hok (p & q & HV & HU & Eq & Hrq & -> & Hm & Hr0 & Hr1 & Ht & G & Hc).
  set (e := leaf (um s) T va) in *. destruct (cow_fields p e Hm) as (Ep & EV & EU & EW).
  eapply upd_user; [done|done|done|exact G|exact Ep|by rewrite EV|..].
  - exists p. split_and!; try done. intros _. lia.
  - intros va' HV' Ep'. by eapply fresh_not_mapped in HV'.
  - intros va' x Hs HV' Ex. unfold b2z.
    destruct (Z.eqb_spec x p) as [->|]; [by eapply fresh_not_mapped in HV'|].
    destruct (Z.eqb_spec x q) as [->|]; [|done].
    rewrite (uo_inj _ _ _ Hu va' va) in Hs; [done|done|done|]. unfold e in Eq. congruence.
  - intros va' j Hs Hj. rewrite (leaf_page _ _ va' va) by done. fold e. rewrite HV. unfold mapped_byte. rewrite Eq.
    apply Hc. apply Z.mod_pos_bound. lia.
Qed.

(** A page fault is a fair change. *)
Lemma fault_fair u T v va (s s' : ust K) r T' :
  user_ok u T s → 0 <= v_perm v < 1024 →
  (r = 0 ∧ fault_refused T s s' T') ∨ fault_new T v va s r s' T' ∨ fault_own T va s r s' T' ∨ fault_copy T va s r s' T' →
  ∃ L' R, grows (u_m s) T (u_m s') T' L' R ∧ fair_change T s L' R.
Proof.
  intros Hu Hperm [(_ & G)|[Hnew|[Hown|Hcopy]]].
  - eexists _, _. split; [exact G|]. split; [eauto|by left].
  - destruct Hnew as (p & _ & Hm & _ & Hr0 & _ & _ & G & _). eexists _, _. split; [exact G|]. split.
    + intros va' q HV Eq. unfold upd in *. destruct (same_page va' va); [|by left; eauto]. right.
      rewrite mk_leaf_pa in Eq by (done || by apply managed_paddr). by assert (q = p) as -> by lia.
    + intros q. unfold b2z. destruct (Z.eqb_spec q p) as [->|]; [right; left; done|by left].
  - destruct Hown as (HV & _ & _ & _ & G). eexists _, _. split; [exact G|]. split; [|by left].
    intros va' q HV' Eq. left. unfold upd in *. destruct (same_page va' va); [|by eauto].
    rewrite lorW_pa in Eq by apply leaf_bound. eauto.
  - destruct Hcopy as (p & q & HV & _ & Eq & Hrq & _ & Hm & Hr0 & _ & _ & G & _).
    destruct (cow_fields p (leaf (um s) T va) Hm) as (Ep & _). eexists _, _. split; [exact G|]. split.
    + intros va' x HV' Ex. unfold upd in *. destruct (same_page va' va); [|by left; eauto]. right.
      assert (x = p) as -> by lia. done.
    + intros x. unfold b2z. destruct (Z.eqb_spec x p) as [->|]; [right; left; done|].
      destruct (Z.eqb_spec x q) as [->|]; [|by left]. right. right. split_and!; [done|lia|by eauto|].
      intros va' HV' Ex. unfold upd in *. destruct (same_page va' va) eqn:E; [lia|].
      rewrite (uo_inj _ _ _ Hu va' va) in E; [done|done|done|congruence].
Qed.

(** The flags of the entry after a fault: those of the area when the page is new,
    and write permission on top of the old ones when it was there. *)
Definition fault_flags (v : vma) (e : Z) : Z :=
  if has e PTE_V then Z.lor (PTE_FLAGS e) PTE_W else Z.lor (Z.lor (v_perm v) PTE_V) PTE_U.

(** Why a fault is not served. *)
Definition unserved (u : uvm) (va perm : Z) (s : ust K) (T : tree) (s' : ust K) : Prop :=
  va mod PGSIZE ≠ 0 ∨
  match uvm_va2vma (u_vmas s) u va with
  | None => True
  | Some j => Z.land (v_perm (vma_at (u_vmas s) j)) perm = 0 ∨ no_page T va s s'
  end.

(** What a page fault at [va] leaves: the same memory for the process and the others
    and, when it is served, an entry for user mode with the permission asked for and
    exactly the flags of the area, or the old ones with write permission. *)
Definition served (u : uvm) (va perm : Z) (s : ust K) (T : tree) (r : Z) (s' : ust K) : Prop :=
  ∃ T', user_ok u T' s' ∧ files_kept s s' ∧ others_kept T s T' s' ∧ (∀ va', ubyte s' u T' va' = ubyte s u T va') ∧
    (r = 0 → unserved u va perm s T s') ∧
    (r ≠ 0 → let e := leaf (um s') T' va in
       has e PTE_V = true ∧ has e PTE_U = true ∧ PTE2PA e = r ∧ has e perm = true ∧
       ∃ j, uvm_va2vma (u_vmas s) u va = Some j ∧ PTE_FLAGS e = fault_flags (vma_at (u_vmas s) j) (leaf (um s) T va)).

Lemma mk_leaf_perm pa flags perm : Z.land flags perm ≠ 0 → has (mk_leaf pa flags) perm = true.
Proof.
  intros Hp. unfold has, truthy, mk_leaf. apply negb_true_iff, Z.eqb_neq. rewrite !Z.land_lor_distr_l.
  rewrite !Z.lor_eq_0_iff. tauto.
Qed.

Lemma flags_lorW e : PTE_FLAGS (Z.lor e PTE_W) = Z.lor (PTE_FLAGS e) PTE_W.
Proof. unfold PTE_FLAGS. by rewrite Z.land_lor_distr_l. Qed.

Lemma flags_cow p e : managed p → PTE_FLAGS (cow_entry p e) = Z.lor (PTE_FLAGS e) PTE_W.
Proof.
  intros Hp. unfold cow_entry. rewrite flags_lorW, PTE_FLAGS_mk; [done|by apply managed_paddr|apply PTE_FLAGS_bound].
Qed.

Lemma mk_leaf_U pa flags : paddr pa → 0 <= flags < 1024 → has (mk_leaf pa flags) PTE_U = true.
Proof.
  intros. unfold has. rewrite land_flags, mk_leaf_flags by (done || lia). unfold truthy.
  apply negb_true_iff, Z.eqb_neq. intros E.
  assert (Z.testbit (Z.land (Z.lor (Z.lor flags PTE_V) PTE_U) PTE_U) 4 = false) as Hb by (by rewrite E).
  rewrite Z.land_spec, Z.lor_spec in Hb. by rewrite orb_true_r in Hb.
Qed.

(** The three ways a fault is served. *)
Lemma served_new u T v j va perm s s' r T' :
  user_ok u T s → aligned va → files_kept s s' → pt_ok (um s') (uk s') T' (pagetable u) → others_kept T s T' s' →
  uvm_va2vma (u_vmas s) u va = Some j → v = vma_at (u_vmas s) j → area_ok s v → Z.land (v_perm v) perm ≠ 0 →
  fault_new T v va s r s' T' → served u va perm s T r s'.
Proof.
  intros Hu Hal Hf Hok Hoth Ej Ev Harea Hp Hnew. exists T'. destruct (new_user u T v j va s s' r T') as [Hu' Hb]; try done.
  destruct Hnew as (p & -> & Hm & HV & _ & _ & _ & G & _). pose proof (managed_paddr _ Hm) as Hpa.
  assert (0 <= v_perm v < 1024) by apply Harea. apply managed_nonzero in Hm as Hnz. split_and!; try done. intros _.
  rewrite (g_leaf _ _ _ _ _ _ G). unfold upd, same_page. rewrite Z.eqb_refl.
  split_and!; [apply mk_leaf_V|by apply mk_leaf_U|by apply mk_leaf_pa|by apply mk_leaf_perm|].
  exists j. split; [done|]. unfold fault_flags. rewrite HV, mk_leaf_flags by done. by subst v.
Qed.

Lemma served_own u T j va perm s s' r T' :
  user_ok u T s → files_kept s s' → pt_ok (um s') (uk s') T' (pagetable u) → others_kept T s T' s' →
  uvm_va2vma (u_vmas s) u va = Some j →
  (has (leaf (um s) T va) PTE_V = true → has (leaf (um s) T va) PTE_U = true → perm = PTE_W) →
  fault_own T va s r s' T' → served u va perm s T r s'.
Proof.
  intros Hu Hf Hok Hoth Ej Hperm Hown. exists T'. destruct (own_user u T va s s' r T') as [Hu' Hb]; try done.
  destruct Hown as (HV & HU & -> & Hr & G). destruct (uo_entry _ _ _ Hu va HV) as (q & Eq & _ & _ & Hm & _).
  assert (PTE2PA (leaf (um s) T va) ≠ 0) as Hnz by (rewrite Eq; by apply managed_nonzero, Hm).
  split_and!; try done. intros _. rewrite (g_leaf _ _ _ _ _ _ G). unfold upd, same_page. rewrite Z.eqb_refl.
  rewrite (Hperm HV HU), (lorW_has _ PTE_V), (lorW_has _ PTE_U) by done.
  split_and!; [done|done|apply lorW_pa, leaf_bound|apply lorW_W|].
  exists j. split; [done|]. unfold fault_flags. by rewrite HV, flags_lorW.
Qed.

Lemma served_copy u T j va perm s s' r T' :
  user_ok u T s → files_kept s s' → pt_ok (um s') (uk s') T' (pagetable u) → others_kept T s T' s' →
  uvm_va2vma (u_vmas s) u va = Some j →
  (has (leaf (um s) T va) PTE_V = true → has (leaf (um s) T va) PTE_U = true → perm = PTE_W) →
  fault_copy T va s r s' T' → served u va perm s T r s'.
Proof.
  intros Hu Hf Hok Hoth Ej Hperm Hcopy. exists T'. destruct (copy_user u T va s s' r T') as [Hu' Hb]; try done.
  destruct Hcopy as (p & q & HV & HU & _ & _ & -> & Hm & _ & _ & _ & G & _). apply managed_nonzero in Hm as Hnz.
  split_and!; try done. intros _. destruct (cow_fields p (leaf (um s) T va) Hm) as (Ep & EV & EU & EW).
  rewrite (g_leaf _ _ _ _ _ _ G). unfold upd, same_page. rewrite Z.eqb_refl, EV, EU, (Hperm HV HU).
  split_and!; try done. exists j. split; [done|]. unfold fault_flags. by rewrite HV, flags_cow.
Qed.

Lemma completemap_served u T va perm s :
  user_ok u T s → 0 <= va →
  (has (leaf (um s) T va) PTE_V = true → has (leaf (um s) T va) PTE_U = true → perm = PTE_W) →
  wp (uvm_completemap u va perm) (served u va perm s T) s.
Proof.
  intros Hu Hva Hperm.
  assert (unserved u va perm s T s → served u va perm s T 0 s) as Hnone.
  { intros Hw. exists T. by split_and!. }
  unfold unserved in Hnone. destruct (decide (va mod PGSIZE = 0)) as [Hal|Hal].
  2: { unfold uvm_completemap, truthy. rewrite (proj2 (Z.eqb_neq _ _)) by done. apply wp_ret, Hnone. by left. }
  destruct (uvm_va2vma (u_vmas s) u va) as [j|] eqn:Ej.
  2: { unfold uvm_completemap. case_match; [by apply wp_ret, Hnone; right|]. apply wp_bind, wp_gets. rewrite Ej. apply wp_ret, Hnone. by right. }
  set (v := vma_at (u_vmas s) j) in *.
  destruct (va2vma_Some _ _ _ _ Ej) as (i & Hi & Hin). pose proof (uo_area _ _ _ Hu i j Hi) as Harea. fold v in Harea, Hin.
  assert (va < MAXVA) as Hmax.
  { unfold in_area, v_end in Hin. destruct Harea as (? & ? & ? & _). rewrite (wrap_small 64) in Hin by lia. apply andb_true_iff in Hin as [_ Hin%Z.ltb_lt]. lia. }
  destruct (decide (Z.land (v_perm v) perm = 0)) as [Hp|Hp].
  { unfold uvm_completemap. case_match; [by apply wp_ret, Hnone; right; left|]. apply wp_bind, wp_gets. rewrite Ej.
    apply wp_bind, wp_gets. fold v. rewrite Hp. simpl. apply wp_ret, Hnone. right. by left. }
  eapply wp_mono.
  { apply (uvm_completemap_spec u T va perm s j); [apply Hu|apply Hu|apply Hu|done|done|done|done|done| |done].
    intros HV HU. destruct (uo_entry _ _ _ Hu va HV) as (q & Eq & Ht & Hl & Hm & _). exists q. split_and!; auto. }
  intros r s'. fold v. intros (Hf & T' & Hok & Hres).
  assert (others_kept T s T' s') as Hoth.
  { destruct (fault_fair u T v va s s' r T' Hu) as (L' & R & G & Hfair); [apply Harea|by intuition|]. by eapply fair_others. }
  destruct Hres as [(-> & G & Hno)|[Hnew|[Hown|Hcopy]]].
  - exists T'. destruct (refused_user u T s s' T' Hu Hf Hok G). split_and!; try done. intros _. unfold unserved. rewrite Ej. auto.
  - by eapply served_new.
  - by eapply served_own.
  - by eapply served_copy.
Qed.

(** ** Copying *)

(** The memory [f] after the bytes [bs] have been written at [a]. *)
Definition written (bs : list Z) (a : Z) (f : Z → option Z) (va : Z) : option Z :=
  if (a <=? va) && (va <? a + Z.of_nat (length bs))
  then (λ _, u8 (nth (Z.to_nat (va - a)) bs 0)) <$> f va else f va.

Lemma written_nil a f va : written [] a f va = f va.
Proof. unfold written. simpl. case_match; [lia|done]. Qed.

Lemma written_ext bs a f g va : f va = g va → written bs a f va = written bs a g va.
Proof. unfold written. by intros ->. Qed.

Lemma written_app bs bs' a f va :
  written bs' (a + Z.of_nat (length bs)) (written bs a f) va = written (bs ++ bs') a f va.
Proof.
  unfold written. rewrite length_app.
  destruct (Z.leb_spec a va); simpl.
  2: { rewrite (proj2 (Z.leb_gt (a + _) va)) by lia. done. }
  destruct (Z.ltb_spec va (a + Z.of_nat (length bs))); simpl.
  - rewrite (proj2 (Z.leb_gt (a + _) va)), (proj2 (Z.ltb_lt va (a + Z.of_nat (length bs + length bs')))) by lia. simpl.
    by rewrite app_nth1 by lia.
  - rewrite (proj2 (Z.leb_le (a + _) va)) by lia. simpl.
    replace (a + Z.of_nat (length bs + length bs')) with (a + Z.of_nat (length bs) + Z.of_nat (length bs')) by lia.
    case_match; [|done]. rewrite app_nth2 by lia.
    replace (Z.to_nat (va - a) - length bs)%nat with (Z.to_nat (va - (a + Z.of_nat (length bs)))) by lia. done.
Qed.

(** A write inside the page mapped at [va0] is outside the page table. *)
Lemma write_tables u T (s : ust K) va0 o bs p a :
  user_ok u T s → has (leaf (um s) T va0) PTE_V = true → 0 <= o → o + Z.of_nat (length bs) <= PGSIZE →
  is_table T p → in_page p a = true → ldb (put_bytes (um s) (PTE2PA (leaf (um s) T va0) + o) bs) a = ldb (um s) a.
Proof.
  intros Hu HV Ho Hlen Hp Ha. destruct (uo_entry _ _ _ Hu va0 HV) as (q & Eq & Ht & _). apply put_bytes_out. rewrite Eq.
  assert (in_page q a = false) as Hq by (eapply in_page_ne; [|done]; by intros ->).
  rewrite <- not_true_iff_false, in_page_iff in Hq. lia.
Qed.

Lemma write_leaf u T (s : ust K) va0 o bs va :
  user_ok u T s → has (leaf (um s) T va0) PTE_V = true → 0 <= o → o + Z.of_nat (length bs) <= PGSIZE →
  leaf (put_bytes (um s) (PTE2PA (leaf (um s) T va0) + o) bs) T va = leaf (um s) T va.
Proof. intros. apply leaf_ext. intros p a Hp Ha. by eapply write_tables. Qed.

(** A write inside the page mapped at [va0]. *)
Lemma write_user u T (s : ust K) va0 o bs :
  user_ok u T s → aligned va0 → has (leaf (um s) T va0) PTE_V = true →
  0 <= o → o + Z.of_nat (length bs) <= PGSIZE →
  let m' := put_bytes (um s) (PTE2PA (leaf (um s) T va0) + o) bs in
  let s' := set (set_mem m' (u_m s)) s in
  user_ok u T s' ∧ files_kept s s' ∧ ∀ va, ubyte s' u T va = written bs (va0 + o) (ubyte s u T) va.
Proof.
  intros Hu Hal HV Ho Hlen m' s'. destruct (uo_entry _ _ _ Hu va0 HV) as (q & Eq & Ht & Hl & _).
  assert (∀ a, in_page q a = false → ldb m' a = ldb (um s) a) as Hout.
  { intros a Ha. apply put_bytes_out. rewrite Eq. rewrite <- not_true_iff_false, in_page_iff in Ha. lia. }
  assert (∀ p a, is_table T p → in_page p a = true → ldb m' a = ldb (um s) a) as Htab by (intros; by eapply write_tables).
  assert (∀ va, leaf m' T va = leaf (um s) T va) as HL by (intros; by eapply write_leaf).
  assert (files_kept s s') as Hf by (by apply files_kept_user).
  split_and!; [|done..|].
  - destruct Hu as [U1 U2 U3 U4 U5 U6 U7]. split; simpl; try done.
    + by eapply pt_ok_ext; [exact Htab| |].
    + intros i j Hi. eapply area_ok_kept; [exact Hf|]. by eapply U5.
    + intros va. rewrite HL. apply U6.
    + intros va va'. rewrite !HL. apply U7.
  - intros va. unfold written, ubyte. change (u_vmas s') with (u_vmas s). change (um s') with m'. rewrite HL.
    destruct (uvm_va2vma (u_vmas s) u va) as [j|]; [|by case_match]. simpl.
    rewrite (init_byte_kept s s') by done. unfold mapped_byte. change (um s') with m'.
    pose proof (Z.mod_pos_bound va PGSIZE ltac:(lia)).
    destruct (same_page va va0) eqn:Es.
    + rewrite (leaf_page _ _ va va0 Es), HV. pose proof (page_offset va0 va Hal Es) as Eva.
      set (i := va mod PGSIZE) in *. set (pa := PTE2PA (leaf (um s) T va0)) in *.
      unfold m'. rewrite put_bytes_ldb.
      replace ((va0 + o <=? va) && (va <? va0 + o + Z.of_nat (length bs)))
        with ((pa + o <=? pa + i) && (pa + i <? pa + o + Z.of_nat (length bs))) by lia.
      replace (va - (va0 + o)) with (pa + i - (pa + o)) by lia. by case_match.
    + replace ((va0 + o <=? va) && (va <? va0 + o + Z.of_nat (length bs))) with false.
      2: { unfold same_page, aligned in *. pose proof (Z.div_mod va PGSIZE). pose proof (Z.div_mod va0 PGSIZE). lia. }
      destruct (has (leaf (um s) T va) PTE_V) eqn:HV'; [|done]. f_equal. apply Hout. rewrite in_page_div.
      destruct (uo_entry _ _ _ Hu va HV') as (q' & Eq' & _). rewrite Eq', page_of by lia.
      apply Z.eqb_neq. intros ->. rewrite (uo_inj _ _ _ Hu va va0) in Es; [done|done|done|congruence].
Qed.

(** A write to a page of [T] concerns no other process when the page is
    writable, for then nobody shares it. *)
Lemma write_others u T (s : ust K) va0 o bs :
  user_ok u T s → has (leaf (um s) T va0) PTE_V = true → has (leaf (um s) T va0) PTE_W = true →
  0 <= o → o + Z.of_nat (length bs) <= PGSIZE →
  let m' := put_bytes (um s) (PTE2PA (leaf (um s) T va0) + o) bs in
  others_kept T s T (set (set_mem m' (u_m s)) s).
Proof.
  intros Hu HV HW Ho Hlen m' u2 T2 Hu2 Hiso. set (s' := set _ s).
  destruct (uo_entry _ _ _ Hu va0 HV) as (q & Eq & Ht & _ & _ & Hw). destruct (Hw HW) as [Hm Hr].
  assert (∀ a, in_page q a = false → ldb m' a = ldb (um s) a) as Hout.
  { intros a Ha. apply put_bytes_out. rewrite Eq. rewrite <- not_true_iff_false, in_page_iff in Ha. lia. }
  assert (∀ X, ¬ is_table X q → ∀ p a, is_table X p → in_page p a = true → ldb m' a = ldb (um s) a) as Htab.
  { intros X HX p a Hp Ha. apply Hout. eapply in_page_ne; [|done]. by intros ->. }
  pose proof (iso_tab1 _ _ _ Hiso va0 q HV Eq) as Ht2.
  assert (∀ va, leaf m' T va = leaf (um s) T va) as HL by (intros; by eapply leaf_ext, Htab).
  assert (∀ va, leaf m' T2 va = leaf (um s) T2 va) as HL2 by (intros; by eapply leaf_ext, Htab).
  assert (files_kept s s') as Hf by (by apply files_kept_user).
  split_and!.
  - destruct Hu2 as [U1 U2 U3 U4 U5 U6 U7]. split; simpl; try done.
    + by eapply pt_ok_ext; [exact (Htab T2 Ht2)| |].
    + intros i j Hi. eapply area_ok_kept; [exact Hf|]. by eapply U5.
    + intros va. rewrite HL2. apply U6.
    + intros va va'. rewrite !HL2. apply U7.
  - destruct Hiso as [I1 I2 I3 I4]. split; simpl; try done.
    + intros va x. rewrite HL. apply I2.
    + intros va x. rewrite HL2. apply I3.
    + intros va va2 x. rewrite HL, HL2. apply I4.
  - intros va. unfold ubyte. change (u_vmas s') with (u_vmas s). change (um s') with m'. rewrite HL2.
    case_match; [|done]. f_equal. case_match eqn:HV2; [|by apply init_byte_kept].
    unfold mapped_byte. change (um s') with m'. apply Hout.
    destruct (uo_entry _ _ _ Hu2 va HV2) as (q2 & Eq2 & _). rewrite Eq2, in_page_div, page_of by (apply Z.mod_pos_bound; lia).
    apply Z.eqb_neq. intros ->. pose proof (iso_share _ _ _ Hiso va0 va q HV HV2 Eq Eq2 Hm). lia.
Qed.

(** The page [copyout] writes to. *)
Definition got_page (u : uvm) (va perm : Z) (s : ust K) (T : tree) (r : Z) (s' : ust K) : Prop :=
  ∃ T', user_ok u T' s' ∧ files_kept s s' ∧ others_kept T s T' s' ∧ (∀ va', ubyte s' u T' va' = ubyte s u T va') ∧
    (r ≠ 0 → has (leaf (um s') T' va) PTE_V = true ∧ PTE2PA (leaf (um s') T' va) = r ∧
             (perm = PTE_W → has (leaf (um s') T' va) PTE_W = true)).

Lemma served_got u va perm s T r s' : served u va perm s T r s' → got_page u va perm s T r s'.
Proof.
  intros (T' & Hu & Hf & Ho & Hb & _ & Hr). exists T'. split_and!; try done; try apply Hf.
  intros Hn. destruct (Hr Hn) as (? & ? & ? & HW & _). split_and!; [done|done|]. by intros ->.
Qed.

Lemma got_here u va perm s T r :
  user_ok u T s →
  (r ≠ 0 → has (leaf (um s) T va) PTE_V = true ∧ PTE2PA (leaf (um s) T va) = r ∧
           (perm = PTE_W → has (leaf (um s) T va) PTE_W = true)) →
  got_page u va perm s T r s.
Proof. intros Hu Hr. exists T. by split_and!. Qed.

Lemma writable_page_spec u T va0 s :
  user_ok u T s → 0 <= va0 < MAXVA → wp (writable_page u va0) (got_page u va0 PTE_W s T) s.
Proof.
  intros Hu Hva. unfold writable_page. apply wp_bind, wp_zoom.
  eapply wp_eq; [by apply (pgt_walk_false T); [apply Hu|]|]. rewrite set_view.
  assert (wp (uvm_completemap u va0 PTE_W) (got_page u va0 PTE_W s T) s) as Hfault.
  { eapply wp_mono; [by apply completemap_served; [exact Hu|lia|]|]. intros r s'. apply served_got. }
  destruct (T !! (0, kidx 0 va0)) as [p|] eqn:Hp.
  2: { unfold slot. rewrite Hp. exact Hfault. }
  rewrite (proj2 (Z.eqb_neq _ _)) by (eapply slot_nonzero; [apply Hu|done]).
  apply wp_bind, wp_zoom, wp_gets. rewrite set_view. change (view s) with (u_m s). rewrite <- (leaf_slot _ _ _ _ Hp).
  destruct (has (leaf (um s) T va0) PTE_V) eqn:HV; simpl; [|exact Hfault].
  destruct (has (leaf (um s) T va0) PTE_W) eqn:HW; simpl; [|exact Hfault].
  apply wp_ret. by apply got_here.
Qed.

Lemma readable_page_spec u T va0 s :
  user_ok u T s → 0 <= va0 → wp (readable_page u va0) (got_page u va0 PTE_R s T) s.
Proof.
  intros Hu Hva. unfold readable_page. apply wp_bind, wp_zoom.
  eapply wp_eq; [by apply (pgt_getpa_run T); [apply Hu|]|]. rewrite set_view.
  destruct (Z.ltb_spec va0 MAXVA).
  2: { simpl. unfold uvm_completemap. rewrite (proj2 (Z.leb_le _ _)), orb_true_r by lia.
       apply wp_ret. by apply got_here. }
  unfold lookup_pa. change (m_mem (view s)) with (um s).
  destruct (has (leaf (um s) T va0) PTE_V && has (leaf (um s) T va0) PTE_U) eqn:E.
  - apply andb_true_iff in E as [HV HU]. destruct (uo_entry _ _ _ Hu va0 HV) as (q & Eq & _ & _ & Hm & _).
    pose proof (Hm HU) as Hqm. rewrite Eq, (proj2 (Z.eqb_neq _ _)) by (by apply managed_nonzero).
    apply wp_ret. by apply got_here.
  - simpl. eapply wp_mono; [apply completemap_served; [exact Hu|lia|]|intros r s'; apply served_got].
    intros HV HU. by rewrite HV, HU in E.
Qed.

Lemma PGROUNDDOWN_facts a :
  0 <= a → aligned (PGROUNDDOWN a) ∧ 0 <= PGROUNDDOWN a <= a ∧ a < PGROUNDDOWN a + PGSIZE.
Proof.
  intros. rewrite PGROUNDDOWN_eq. unfold aligned. pose proof (Z.div_mod a PGSIZE). pose proof (Z.mod_pos_bound a PGSIZE).
  split_and!; try lia. replace (a - a mod PGSIZE) with (a / PGSIZE * PGSIZE) by lia. by apply Z.mod_mul.
Qed.

(** The outcome of [copyout]: all the bytes, or an error after [k] of them. *)
Definition copied_out (u : uvm) (dstva : Z) (src : list Z) (s : ust K) (T : tree) (r : Z) (s' : ust K) : Prop :=
  ∃ T' k, user_ok u T' s' ∧ files_kept s s' ∧ others_kept T s T' s' ∧
    ((r = 0 ∧ k = length src) ∨ (r = -1 ∧ (k < length src)%nat)) ∧
    ∀ va, ubyte s' u T' va = written (take k src) dstva (ubyte s u T) va.

Lemma copyout_loop_spec fuel u T dstva src s :
  user_ok u T s → (length src < fuel)%nat → 0 <= dstva → dstva + Z.of_nat (length src) <= MAXVA →
  wp (copyout_loop fuel u dstva src) (copied_out u dstva src s T) s.
Proof.
  revert T dstva src s. induction fuel as [|fuel IH]; intros T dstva src s Hu Hfuel Hd Hm; [lia|].
  cbn [copyout_loop]. destruct (Z.ltb_spec 0 (Z.of_nat (length src))) as [Hlen|Hlen].
  2: { apply wp_ret. exists T, 0%nat. destruct src; [|simpl in *; lia]. split_and!; try done; [by left|].
       intros va. by rewrite written_nil. }
  destruct (PGROUNDDOWN_facts dstva Hd) as (Hal & Hle & Hlt). set (va0 := PGROUNDDOWN dstva) in *.
  eapply wp_step; [apply writable_page_spec; [done|lia]|]. intros pa s1 (T1 & Hu1 & Hf1 & Ho1 & Hb1 & Hpa). case_test.
  { apply wp_ret. exists T1, 0%nat. split_and!; try done; try apply Hf1; [right; split; [done|lia]|].
    intros va. rewrite Hb1. by rewrite written_nil. }
  destruct (Hpa E) as (HV & Epa & HW). clear Hpa. specialize (HW eq_refl). rewrite MIN_eq.
  set (n := Z.to_nat _). assert (Z.of_nat n = Z.min (PGSIZE - (dstva - va0)) (Z.of_nat (length src))) as En by lia.
  assert (length (take n src) = n) as Ht by (rewrite length_take; lia).
  destruct (write_user u T1 s1 va0 (dstva - va0) (take n src)) as (Hu2 & Hf2 & Hb2); [done|done|done|lia|lia|].
  pose proof (write_others u T1 s1 va0 (dstva - va0) (take n src) Hu1 HV HW ltac:(lia) ltac:(lia)) as Ho2.
  cbv zeta in Ho2. rewrite Epa in Hu2, Hf2, Hb2, Ho2. replace (va0 + (dstva - va0)) with dstva in Hb2 by lia.
  apply wp_bind, wp_zoom, wp_modify.
  match type of Hu2 with user_ok _ _ ?st => at_machine st; set (s2 := st) in * end.
  clearbody s2.
  assert (va0 + PGSIZE <= MAXVA) as Hva0.
  { unfold aligned in Hal. pose proof (Z.div_mod va0 PGSIZE). change MAXVA with (67108864 * PGSIZE) in *. lia. }
  rewrite (wrap_small 64) by lia.
  eapply wp_mono; [apply (IH T1); [done| |lia|]; rewrite length_drop; lia|].
  intros r s' (T' & k & Hu' & Hf' & Ho' & Hr & Hb'). rewrite length_drop in Hr.
  exists T', (n + k)%nat. split; [done|]. split; [by do 2 (eapply files_kept_trans; [done|])|].
  split; [by do 2 (eapply others_kept_trans; [done|])|]. split; [lia|].
  intros va. rewrite Hb', <- take_take_drop, <- written_app, Ht.
  destruct (decide (n = length src)) as [Hn|Hn].
  - rewrite (drop_ge src n), take_nil, !written_nil by lia. rewrite Hb2. by apply written_ext.
  - replace (va0 + PGSIZE) with (dstva + Z.of_nat n) by lia. apply written_ext. rewrite Hb2. by apply written_ext.
Qed.

(** [bs] are the contents of the memory [f] from [a], where there is memory. *)
Definition reads (bs : list Z) (a : Z) (f : Z → option Z) : Prop :=
  ∀ i b, (i < length bs)%nat → f (a + Z.of_nat i) = Some b → bs !! i = Some b.

Lemma reads_app bs bs' a f :
  reads bs a f → reads bs' (a + Z.of_nat (length bs)) f → reads (bs ++ bs') a f.
Proof.
  intros H1 H2 i b Hi Hf. rewrite length_app in Hi. destruct (decide (i < length bs)%nat) as [Hlt|].
  - rewrite lookup_app_l by done. by apply H1.
  - rewrite lookup_app_r by lia. apply H2; [lia|].
    replace (a + Z.of_nat (length bs) + Z.of_nat (i - length bs)) with (a + Z.of_nat i) by lia. done.
Qed.

(** Reading inside the page mapped at [va0]. *)
Lemma read_user u T (s : ust K) va0 o n :
  aligned va0 → has (leaf (um s) T va0) PTE_V = true → 0 <= o → o + Z.of_nat n <= PGSIZE →
  reads (get_bytes (um s) (PTE2PA (leaf (um s) T va0) + o) n) (va0 + o) (ubyte s u T).
Proof.
  intros Hal HV Ho Hn i b. rewrite get_bytes_length. intros Hi. unfold ubyte.
  assert (same_page (va0 + o + Z.of_nat i) va0 = true ∧ (va0 + o + Z.of_nat i) mod PGSIZE = o + Z.of_nat i) as [Hs Hmod].
  { unfold aligned, same_page in *. replace (va0 + o + Z.of_nat i) with (va0 / PGSIZE * PGSIZE + (o + Z.of_nat i))
      by (pose proof (Z.div_mod va0 PGSIZE); lia).
    rewrite page_of, Z.add_comm, Z.mod_add, Z.mod_small by lia. lia. }
  case_match; [|done]. rewrite (leaf_page _ _ _ va0 Hs), HV. unfold mapped_byte. rewrite Hmod. intros [= <-].
  rewrite get_bytes_lookup by done. do 2 f_equal. lia.
Qed.

Definition copied_in (u : uvm) (srcva len : Z) (s : ust K) (T : tree) (r : Z) (bs : list Z) (s' : ust K) : Prop :=
  ∃ T', user_ok u T' s' ∧ files_kept s s' ∧ others_kept T s T' s' ∧ (∀ va, ubyte s' u T' va = ubyte s u T va) ∧
    ((r = 0 ∧ Z.of_nat (length bs) = len) ∨ (r = -1 ∧ Z.of_nat (length bs) < len)) ∧
    reads bs srcva (ubyte s u T).

Lemma copyin_loop_spec fuel u T srcva len dst s :
  user_ok u T s → (Z.to_nat len < fuel)%nat → 0 <= srcva → 0 <= len → srcva + len < 2 ^ 64 →
  wp (copyin_loop fuel u srcva len dst)
     (λ rb s', ∃ bs, rb.2 = dst ++ bs ∧ copied_in u srcva len s T rb.1 bs s') s.
Proof.
  revert T srcva len dst s. induction fuel as [|fuel IH]; intros T srcva len dst s Hu Hfuel Hs Hl Hw; [lia|].
  cbn [copyin_loop]. destruct (Z.ltb_spec 0 len) as [Hlen|Hlen].
  2: { apply wp_ret. exists []. rewrite app_nil_r. split; [done|]. exists T. split_and!; try done; [left; simpl; lia|].
       intros i b Hi. simpl in Hi. lia. }
  destruct (PGROUNDDOWN_facts srcva Hs) as (Hal & Hle & Hlt). set (va0 := PGROUNDDOWN srcva) in *.
  eapply wp_step; [apply readable_page_spec; [done|lia]|]. intros pa s1 (T1 & Hu1 & Hf1 & Ho1 & Hb1 & Hpa). case_test.
  { apply wp_ret. exists []. rewrite app_nil_r. split; [done|]. exists T1.
    split_and!; try done; try apply Hf1; [right; simpl; lia|]. intros i b Hi. simpl in Hi. lia. }
  destruct (Hpa E) as (HV & Epa & _). clear Hpa. rewrite MIN_eq. set (n := Z.min _ _).
  apply wp_bind, wp_zoom, wp_gets. rewrite set_view. change (m_mem (view s1)) with (um s1).
  pose proof (read_user u T1 s1 va0 (srcva - va0) (Z.to_nat n) Hal HV ltac:(lia) ltac:(lia)) as Hrd.
  rewrite Epa in Hrd. replace (va0 + (srcva - va0)) with srcva in Hrd by lia.
  set (bs1 := get_bytes _ _ _) in *. assert (length bs1 = Z.to_nat n) as Hb by apply get_bytes_length.
  pose proof (wrap_bound 64 (va0 + PGSIZE) ltac:(lia)).
  assert (n < len → u64 (va0 + PGSIZE) = srcva + n) as Hnext by (intros; rewrite wrap_small; lia).
  eapply wp_mono; [apply (IH T1); [done|lia|lia|lia|]|].
  { destruct (decide (n < len)) as [Hn|]; [rewrite (Hnext Hn); lia|lia]. }
  intros [r ds] s' (bs & -> & T' & Hu' & Hf' & Ho' & Hb' & Hr & Hrd'). simpl in *.
  exists (bs1 ++ bs). split; [by rewrite app_assoc|]. exists T'.
  split; [done|]. split; [by eapply files_kept_trans|]. split; [by eapply others_kept_trans|].
  split; [intros va; by rewrite Hb'|].
  split; [rewrite length_app; lia|].
  apply reads_app; [intros i b Hi Hf; apply Hrd; [done|by rewrite Hb1]|].
  intros i b Hi. destruct (decide (n < len)) as [Hn|]; [|lia].
  replace (srcva + Z.of_nat (length bs1)) with (u64 (va0 + PGSIZE)) by (rewrite (Hnext Hn); lia).
  intros Hf. apply Hrd'; [done|by rewrite Hb1].
Qed.

(** ** Properties *)

(** C4 (refinement).  A page fault handled by [uvm_completemap], on a page that is not
    present or by a write to one that is, is invisible to the process and to every
    process isolated from it: no byte of any user memory changes, and the reference
    counts stay right.  When the answer is not 0 the page is mapped for the user at
    that physical address with the permission asked for; its flags are exactly those
    of the area if the page is new, and the old ones with write permission otherwise.
    The answer is 0 only if the address is not that of a page of an area that grants
    the access, the page is not one for user mode, or memory is used up.  Fresh pages
    hold the file's bytes or zeros, shared pages are copied before they become
    writable. *)
Theorem page_fault_correct u T va perm s :
  user_ok u T s → 0 <= va →
  (has (leaf (um s) T va) PTE_V = true → has (leaf (um s) T va) PTE_U = true → perm = PTE_W) →
  wp (uvm_completemap u va perm) (served u va perm s T) s.
Proof. apply completemap_served. Qed.

(** C2 (functional).  [copyout] returns; it refuses ranges that wrap around or
    end above [MAXVA] without any effect, and otherwise writes the bytes, or
    a prefix of them when it answers -1.  The process sees exactly those
    addresses changed, and no other process sees any change: pages shared
    copy on write are copied first. *)
Theorem copyout_correct u T dstva src s :
  user_ok u T s → 0 <= dstva < 2 ^ 64 → Z.of_nat (length src) < 2 ^ 64 →
  wp (copyout u dstva src)
     (λ r s', if dstva + Z.of_nat (length src) <=? MAXVA then copied_out u dstva src s T r s'
              else r = -1 ∧ s' = s) s.
Proof.
  intros Hu Hd Hlen. unfold copyout. destruct (Z.leb_spec (dstva + Z.of_nat (length src)) MAXVA) as [Hm|Hm].
  - rewrite (wrap_small 64) by lia. rewrite (proj2 (Z.ltb_ge _ _)), (proj2 (Z.ltb_ge _ _)) by lia. cbn [orb].
    apply copyout_loop_spec; [done|lia|lia|done].
  - assert ((u64 (dstva + Z.of_nat (length src)) <? dstva) || (MAXVA <? u64 (dstva + Z.of_nat (length src))) = true) as ->.
    { destruct (decide (dstva + Z.of_nat (length src) < 2 ^ 64)); [rewrite (wrap_small 64); lia|].
      unfold wrap. rewrite <- (Z.mod_add _ (-1)) by lia. rewrite Z.mod_small; lia. }
    by apply wp_ret.
Qed.

(** C16 (functional).  [copyin] returns the bytes the process has at those
    addresses, all of them or, with -1, a proper prefix, and changes no user
    memory. *)
Theorem copyin_correct u T srcva len s :
  user_ok u T s → 0 <= srcva → 0 <= len → srcva + len < 2 ^ 64 →
  wp (copyin u srcva len) (λ rb s', copied_in u srcva len s T rb.1 rb.2 s') s.
Proof.
  intros Hu Hs Hl Hw. unfold copyin. eapply wp_mono; [apply copyin_loop_spec; [done|lia|done..]|].
  intros rb s' (bs & -> & Hc). done.
Qed.

(** C17 (roundtrip).  What [copyout] stored in areas of the process, [copyin]
    reads back. *)
Theorem copyout_copyin u T va bs s :
  user_ok u T s → 0 <= va → va + Z.of_nat (length bs) <= MAXVA → Forall (λ b, 0 <= b < 256) bs →
  (∀ i, 0 <= i < Z.of_nat (length bs) → is_Some (ubyte s u T (va + i))) →
  wp (let! r := copyout u va bs in let! rb := copyin u va (Z.of_nat (length bs)) in ret (r, rb))
     (λ x _, x.1 = 0 → x.2.1 = 0 → x.2.2 = bs) s.
Proof.
  intros Hu Hva Hm Hb Hmem. unfold copyout. rewrite (wrap_small 64) by lia.
  rewrite (proj2 (Z.ltb_ge _ _)), (proj2 (Z.ltb_ge _ _)) by lia. cbn [orb].
  eapply wp_step; [apply copyout_loop_spec; [done|lia|lia|done]|].
  intros r s1 (T1 & k & Hu1 & _ & _ & Hr & Hw). unfold copyin.
  eapply wp_step; [apply copyin_loop_spec; [done|lia|lia|lia|lia]|].
  intros [r2 b2] s2 (bs2 & E2 & T2 & _ & _ & _ & _ & Hr2 & Hrd). apply wp_ret. simpl in *. subst b2. intros -> ->.
  destruct Hr as [[_ ->]|[? _]]; [|done]. destruct Hr2 as [[_ Hlen]|[? _]]; [|done].
  rewrite take_ge in Hw by lia. apply list_eq. intros i. destruct (decide (i < length bs)%nat) as [Hi|].
  2: { rewrite !lookup_ge_None_2 by lia. done. }
  destruct (lookup_lt_is_Some_2 bs i Hi) as [b Eb]. rewrite Eb. apply Hrd; [lia|]. rewrite Hw. unfold written.
  destruct (Hmem (Z.of_nat i) ltac:(lia)) as [x ->]. replace (_ && _) with true by lia. simpl.
  replace (Z.to_nat (va + Z.of_nat i - va)) with i by lia. rewrite (nth_lookup_Some _ _ _ _ Eb). f_equal.
  apply wrap_small. rewrite Forall_lookup in Hb. apply (Hb _ _ Eb).
Qed.

(** [copyout] does not look at [PTE_U]: a page the user may not access but
    that is mapped writable, the trapframe for one, is written all the same. *)
Theorem copyout_ignores_U u T dstva src s :
  user_ok u T s → 0 <= dstva → dstva < MAXVA → src ≠ [] → dstva mod PGSIZE + Z.of_nat (length src) <= PGSIZE →
  has (leaf (um s) T dstva) PTE_V = true → has (leaf (um s) T dstva) PTE_W = true →
  has (leaf (um s) T dstva) PTE_U = false →
  wp (copyout u dstva src)
     (λ r s', r = 0 ∧ um s' = put_bytes (um s) (PTE2PA (leaf (um s) T dstva) + dstva mod PGSIZE) src) s.
Proof.
  intros Hu H0 Hm Hne Hlen HV HW HU. unfold copyout.
  assert (dstva + Z.of_nat (length src) <= MAXVA) as Hend.
  { pose proof (Z.div_mod dstva PGSIZE). pose proof (Z.mod_pos_bound dstva PGSIZE).
    change MAXVA with (67108864 * PGSIZE) in *. lia. }
  rewrite (wrap_small 64) by lia. rewrite (proj2 (Z.ltb_ge _ _)), (proj2 (Z.ltb_ge _ _)) by lia.
  destruct (PGROUNDDOWN_facts dstva H0) as (Hal & Hle & Hlt).
  assert (leaf (um s) T (PGROUNDDOWN dstva) = leaf (um s) T dstva) as EL.
  { apply leaf_page. unfold same_page. rewrite PGROUNDDOWN_eq in *. pose proof (Z.div_mod dstva PGSIZE).
    replace (dstva - dstva mod PGSIZE) with (dstva / PGSIZE * PGSIZE) by lia. rewrite Z.div_mul by lia. lia. }
  assert (0 < Z.of_nat (length src)) as Hpos by (destruct src; simpl; [done|lia]).
  cbn [copyout_loop orb]. rewrite (proj2 (Z.ltb_lt 0 _)) by lia. unfold writable_page.
  apply wp_bind, wp_bind, wp_zoom. eapply wp_eq; [by apply (pgt_walk_false T); [apply Hu|lia]|]. rewrite set_view.
  destruct (T !! (0, kidx 0 (PGROUNDDOWN dstva))) as [p|] eqn:Hp.
  2: { rewrite <- EL in HV. unfold leaf in HV. by rewrite Hp in HV. }
  rewrite (proj2 (Z.eqb_neq _ _)) by (eapply slot_nonzero; [apply Hu|done]).
  apply wp_bind, wp_zoom, wp_gets. rewrite set_view. change (view s) with (u_m s).
  rewrite <- (leaf_slot _ _ _ _ Hp), EL, HV, HW. simpl. apply wp_ret.
  destruct (uo_entry _ _ _ Hu dstva HV) as (q & Eq & _ & _ & _ & Hw). destruct (Hw HW) as [Hqm _].
  rewrite Eq, (proj2 (Z.eqb_neq _ _)) by (by apply managed_nonzero).
  rewrite MIN_eq, Z.min_r, Nat2Z.id by (rewrite PGROUNDDOWN_eq; lia).
  rewrite take_ge, drop_ge by lia. apply wp_bind, wp_zoom, wp_modify.
  destruct (length src) eqn:El; [lia|]. cbn [copyout_loop]. apply wp_ret. split; [done|]. simpl.
  do 2 f_equal. rewrite PGROUNDDOWN_eq. lia.
Qed.
End User.
