(* ===== verification/UvmProps.v ===== *)
(** * A process to run the properties of user memory on

    A file system of finite lists of bytes, which satisfies what user memory
    relies on, and a process with one area of three pages, two of them present. *)

From Stdlib Require Import ZifyBool.
From S2P Require Import Prelude Riscv Mem Random Spinlock Kalloc Pagetable PtSpec PtRange PtFree PtProps Uvm UvmSpec UvmFault UvmCopy.

#[local] Opaque memset memmove st ld.

(** ** Files as lists of bytes *)

Abbreviation files := (gmap Z (list Z)).

Definition contents (s : ust files) (ip : Z) : list Z := default [] (u_k s !! ip).

Definition demo_readi (ip dst off n : Z) : M (ust files) Z :=
  let! d := gets (λ s, contents s ip) in
  let bs := take (Z.to_nat n) (drop (Z.to_nat off) d) in
  zoom (memory_op (λ m, put_bytes m dst bs)) ;;
  ret (Z.of_nat (length bs)).

#[export] Instance demo_inodes : InodeOps files := {|
  idup ip := ret ip; iput _ := ret tt; ilock _ := ret tt; iunlock _ := ret tt;
  begin_op := ret tt; end_op := ret tt;
  readi_kernel := demo_readi; writei_kernel _ _ _ n := ret n |}.

#[export] Program Instance demo_inode_laws : InodeLaws (K := files) := {|
  rest := unit; rest_of _ := tt; file_ready _ _ := True; file_held _ _ := True; file_data := contents |}.
Next Obligation. intros s s' ip Hk _. split_and!; try done. unfold contents. by rewrite Hk. Qed.
Next Obligation. intros ip s _. apply wp_ret. by split_and!. Qed.
Next Obligation. intros ip s _. apply wp_ret. by split_and!. Qed.
Next Obligation. intros ip s _. apply wp_ret. by split_and!. Qed.
Next Obligation.
  intros ip dst off n s _ Hoff Hn Hlen. unfold demo_readi. apply wp_bind, wp_gets, wp_bind, wp_zoom, wp_modify, wp_ret.
  assert (length (take (Z.to_nat n) (drop (Z.to_nat off) (contents s ip))) = Z.to_nat n) as El.
  { rewrite length_take, length_drop. lia. }
  rewrite El. split_and!; try done; [lia|]. intros a. simpl. rewrite put_bytes_ldb, El, Z2Nat.id by lia.
  destruct ((dst <=? a) && (a <? dst + n)) eqn:E; [|done]. f_equal.
  assert (Z.to_nat (a - dst) < Z.to_nat n)%nat as Hlt by lia.
  rewrite !nth_lookup, lookup_take_lt, lookup_drop by done.
  do 3 f_equal. lia.
Qed.

(** ** A process with one area of three pages at address 0, the third not present *)

#[local] Opaque demo_root demo_s1 demo_s2.

Definition demo_area : vma := mkVma true None 0 0 0 12288 PTE_RW MAP_PRIVATE.
Definition demo_vmas : gmap Z vma := {[ 0 := demo_area ]}.
Definition demo_uvm : uvm := mkUvm demo_root (Some 0 :: replicate 49 None) (Some 0).
Definition demo_ust : ust files := mkUst demo_s2 demo_vmas ∅.

Lemma demo_slot i j : slot_is demo_uvm i j → i = 0%nat ∧ j = 0.
Proof.
  unfold slot_is. destruct i as [|i]; [by intros [= ->]|].
  change (replicate 49 (@None Z) !! i = Some (Some j) → S i = 0%nat ∧ j = 0).
  intros [[=] _]%lookup_replicate.
Qed.

Lemma demo_areas_ok : areas_ok demo_vmas demo_uvm.
Proof.
  split.
  - reflexivity.
  - intros i j [-> ->]%demo_slot. split; [reflexivity|]. lia.
  - intros i i' j [-> _]%demo_slot [-> _]%demo_slot. done.
  - intros i j [-> ->]%demo_slot. change (vma_at demo_vmas 0) with demo_area. unfold no_wrap. cbn [demo_area v_start v_length]. lia.
  - intros i i' j j' [-> _]%demo_slot [-> _]%demo_slot. done.
Qed.

(** The pages a call of [pgt_allocmap] fills belong to their entries only. *)
Section Filled.
Context {LK : Linker}.

Lemma filled_entries root r s s' T a n va :
  a mod PGSIZE = 0 → filled root s (new_tree r) a n PTE_RW s' T →
  has (leaf (m_mem s') T va) PTE_V = true →
  ∃ i p, 0 <= i < Z.of_nat n ∧ same_page va (a + i * PGSIZE) = true ∧
    leaf (m_mem s') T va = mk_leaf (p * PGSIZE) PTE_RW ∧
    managed p ∧ ref (m_kmem s') p = 1 ∧ ¬ is_table T p.
Proof.
  intros Ha (G & Hok & Hout & Hin) HV. destruct (in_range a n va) eqn:E.
  2: { rewrite Hout, leaf_new in HV by done. done. }
  unfold in_range in E.
  destruct (Hin (va / PGSIZE - a / PGSIZE) ltac:(lia)) as (p & Ep & Hm & _ & Hr & Ht & _).
  assert (same_page va (a + (va / PGSIZE - a / PGSIZE) * PGSIZE) = true) as Hs.
  { unfold same_page. rewrite Z.div_add by lia. lia. }
  exists (va / PGSIZE - a / PGSIZE), p. split; [lia|]. split; [exact Hs|]. rewrite (leaf_page _ _ _ _ Hs).
  split; [exact Ep|]. split; [exact Hm|]. split; [exact Hr|exact Ht].
Qed.

Lemma filled_distinct root s s' T T' a :
  filled root s T a 2 PTE_RW s' T' →
  PTE2PA (leaf (m_mem s') T' (a + 0 * PGSIZE)) ≠ PTE2PA (leaf (m_mem s') T' (a + 1 * PGSIZE)).
Proof.
  intros (G & Hok & Hout & Hin). destruct (Hin 0 ltac:(lia)) as (p & Ep & Hm & Hr0 & Hr & Ht & _).
  destruct (Hin 1 ltac:(lia)) as (p' & Ep' & Hm' & _). pose proof (g_ref _ _ _ _ _ _ G p) as Hg.
  cbn [maps] in Hg. change (Z.of_nat 0) with 0 in Hg. change (Z.of_nat 1) with 1 in Hg.
  assert (0 <= PTE_RW < 1024) as Hf by done. rewrite Ep, Ep' in *.
  rewrite !mk_leaf_pa by first [exact Hf | by apply managed_paddr]. intros E. assert (p' = p) as -> by lia.
  rewrite !points_mk_leaf, Z.eqb_refl in Hg by first [exact Hf | exact Hm]. simpl in Hg.
  destruct Hg as [Hg|[_ Hg]]; [lia|by destruct Ht].
Qed.

Lemma filled_user {K} {IO : InodeOps K} {IL : InodeLaws} root r s0 (u : uvm) (s : ust K) T :
  filled root s0 (new_tree r) 0 2 PTE_RW (u_m s) T → root = pagetable u →
  kmem_ok (m_kmem (u_m s)) → lockable LK_KMEM (m_lk (u_m s)) → areas_ok (u_vmas s) u →
  (∀ i j, slot_is u i j → area_ok s (vma_at (u_vmas s) j)) → user_ok u T s.
Proof.
  intros F -> Hk Hl Ha Har. pose proof F as (G & Hok & _). assert (0 <= PTE_RW < 1024) as Hf by done.
  split; [exact Hok|exact Hk|exact Hl|exact Ha|exact Har|..].
  - intros va HV. destruct (filled_entries _ _ _ _ _ 0 2 va eq_refl F HV) as (i & p & _ & _ & E & Hm & Hr & Ht).
    exists p. rewrite E, mk_leaf_pa by first [exact Hf | by apply managed_paddr]. split_and!; try done; intros; lia.
  - intros va va' HV HV' Epa.
    destruct (filled_entries _ _ _ _ _ 0 2 va eq_refl F HV) as (i & p & Hi & Hs & _).
    destruct (filled_entries _ _ _ _ _ 0 2 va' eq_refl F HV') as (i' & p' & Hi' & Hs' & _).
    rewrite (leaf_page _ _ _ _ Hs), (leaf_page _ _ _ _ Hs') in Epa. pose proof (filled_distinct _ _ _ _ _ _ F) as Hd.
    assert (i = i') as ->.
    { assert (i = 0 ∨ i = 1) as [-> | ->] by lia; assert (i' = 0 ∨ i' = 1) as [-> | ->] by lia; congruence. }
    unfold same_page in *. lia.
Qed.

End Filled.

Lemma demo_user_ok : ∃ T, user_ok demo_uvm T demo_ust ∧
  filled demo_root demo_s1 (new_tree demo_root) 0 2 PTE_RW demo_s2 T.
Proof.
  destruct demo_s2_ok as (T & [Hk Hl] & F). exists T. split; [|exact F].
  apply (filled_user demo_root demo_root demo_s1 demo_uvm demo_ust T F eq_refl Hk Hl demo_areas_ok).
  intros i j [-> ->]%demo_slot. change (vma_at (u_vmas demo_ust) 0) with demo_area.
  unfold area_ok. simpl. lia.
Qed.

(** A state whose table of areas holds the area of the process, for the calls
    that do not touch memory. *)
Definition demo_ust0 : ust files := mkUst demo_machine demo_vmas ∅.

Lemma getfreevrange_correct_witness : ∃ r, getfreevrange demo_vmas demo_uvm 4096 = Some r ∧ found demo_vmas demo_uvm 4096 r.
Proof.
  apply (getfreevrange_correct demo_vmas demo_uvm); [|reflexivity|lia].
  intros i j [-> ->]%demo_slot. vm_compute. split; discriminate.
Defined.

Lemma uvm_map_correct_witness :
  wp (uvm_map demo_uvm 16384 4096 PTE_RW MAP_PRIVATE None 0 0)
     (λ ru s', map_area_post demo_uvm 16384 (mkVma true None 0 0 16384 4096 PTE_RW MAP_PRIVATE) demo_ust0 ru.1 ru.2 s')
     demo_ust0.
Proof.
  apply (uvm_map_correct demo_uvm 16384 4096 PTE_RW MAP_PRIVATE None 0 0 demo_ust0 demo_areas_ok); [apply demo_lockable|exact I|unfold no_wrap; lia].
Defined.

Lemma page_fault_correct_witness :
  (∃ T, wp (uvm_completemap demo_uvm 8192 PTE_W) (served demo_uvm 8192 PTE_W demo_ust T) demo_ust) ∧
  match uvm_completemap demo_uvm 8192 PTE_W demo_ust with Ok (r, _) => negb (r =? 0) | _ => false end = true.
Proof.
  split; [|vm_compute; reflexivity]. destruct demo_user_ok as (T & Hu & F). exists T.
  apply (page_fault_correct demo_uvm T 8192 PTE_W demo_ust Hu); [lia|intros _ _; exact eq_refl].
Defined.

Lemma copyout_correct_witness :
  ∃ T, wp (copyout demo_uvm 4094 [1; 2; 3; 4])
          (λ r s', if 4094 + Z.of_nat (length [1; 2; 3; 4]) <=? MAXVA
                   then copied_out demo_uvm 4094 [1; 2; 3; 4] demo_ust T r s' else r = -1 ∧ s' = demo_ust) demo_ust.
Proof.
  destruct demo_user_ok as (T & Hu & F). exists T.
  apply (copyout_correct demo_uvm T 4094 [1; 2; 3; 4] demo_ust Hu); simpl; lia.
Defined.

Lemma copyin_correct_witness :
  ∃ T, wp (copyin demo_uvm 4094 4) (λ rb s', copied_in demo_uvm 4094 4 demo_ust T rb.1 rb.2 s') demo_ust.
Proof.
  destruct demo_user_ok as (T & Hu & F). exists T.
  apply (copyin_correct demo_uvm T 4094 4 demo_ust Hu); lia.
Defined.

Lemma copyout_copyin_witness :
  wp (let! r := copyout demo_uvm 4094 [1; 2; 3; 4] in
      let! rb := copyin demo_uvm 4094 (Z.of_nat (length [1; 2; 3; 4])) in ret (r, rb))
     (λ x _, x.1 = 0 → x.2.1 = 0 → x.2.2 = [1; 2; 3; 4]) demo_ust.
Proof.
  destruct demo_user_ok as (T & Hu & F).
  apply (copyout_copyin demo_uvm T 4094 [1; 2; 3; 4] demo_ust Hu); [lia|simpl; lia|repeat constructor; lia|].
  intros i Hi. simpl in Hi. unfold ubyte.
  replace (uvm_va2vma (u_vmas demo_ust) demo_uvm (4094 + i)) with (Some 0); [eauto|].
  assert (i = 0 ∨ i = 1 ∨ i = 2 ∨ i = 3) as [-> | [-> | [-> | ->]]] by lia; vm_compute; reflexivity.
Defined.
