(* ===== verification/Block.v ===== *)
(** * Disk blocks as byte lists

    The [data] array of a buffer is a list of [BSIZE] bytes.  The kernel reads
    and writes it through pointers to structures of little-endian integers:
    [get n] and [put n] are the access to an [n]-byte field, [sub] and [splice]
    the [memmove] of a run of bytes out of and into a block. *)

From S2P Require Import Prelude.

Abbreviation block := (list Z).

Definition BSIZE : Z := 1024.

(** ** Runs of bytes *)

Definition sub (bs : list Z) (off n : Z) : list Z := take (Z.to_nat n) (drop (Z.to_nat off) bs).

Definition splice (bs : list Z) (off : Z) (new : list Z) : list Z :=
  take (Z.to_nat off) bs ++ new ++ drop (Z.to_nat off + length new) bs.

(** [new] lies within [bs] at [off]. *)
Definition fits_in (bs : list Z) (off : Z) (new : list Z) : Prop :=
  0 <= off ∧ off + Z.of_nat (length new) <= Z.of_nat (length bs).

Lemma length_splice bs off new : fits_in bs off new → length (splice bs off new) = length bs.
Proof. intros [H0 H1]. unfold splice. rewrite !length_app, length_take, length_drop. lia. Qed.

Lemma length_sub bs off n :
  0 <= off → 0 <= n → off + n <= Z.of_nat (length bs) → length (sub bs off n) = Z.to_nat n.
Proof. intros. unfold sub. rewrite length_take, length_drop. lia. Qed.

Lemma lookup_splice bs off new i :
  fits_in bs off new →
  splice bs off new !! i =
  if decide (off <= Z.of_nat i < off + Z.of_nat (length new))
  then new !! (i - Z.to_nat off)%nat else bs !! i.
Proof.
  intros [H0 H1]. unfold splice. case_decide as E.
  - rewrite lookup_app_r by (rewrite length_take; lia).
    rewrite length_take, lookup_app_l by lia. f_equal. lia.
  - destruct (decide (Z.of_nat i < off)).
    + rewrite lookup_app_l by (rewrite length_take; lia). apply lookup_take_lt. lia.
    + rewrite lookup_app_r by (rewrite length_take; lia).
      rewrite length_take, lookup_app_r by lia. rewrite lookup_drop. f_equal. lia.
Qed.

Lemma lookup_sub bs off n i :
  0 <= off → sub bs off n !! i = if decide (Z.of_nat i < n) then bs !! (Z.to_nat off + i)%nat else None.
Proof.
  intros. unfold sub. case_decide.
  - rewrite lookup_take_lt, lookup_drop by lia. done.
  - apply lookup_take_ge. lia.
Qed.

Lemma sub_splice bs off new :
  fits_in bs off new → sub (splice bs off new) off (Z.of_nat (length new)) = new.
Proof.
  intros [H0 H1]. unfold sub, splice. rewrite Nat2Z.id, drop_app_length' by (rewrite length_take; lia).
  apply take_app_length.
Qed.

Lemma sub_splice_out bs off new off' n :
  fits_in bs off new → 0 <= off' → off' + n <= off ∨ off + Z.of_nat (length new) <= off' →
  sub (splice bs off new) off' n = sub bs off' n.
Proof.
  intros Hf H0 Hd. apply list_eq. intros i. rewrite !lookup_sub by done. case_decide; [|done].
  rewrite lookup_splice by done. rewrite decide_False; [done|lia].
Qed.

Lemma splice_sub bs off n :
  0 <= off → 0 <= n → off + n <= Z.of_nat (length bs) → splice bs off (sub bs off n) = bs.
Proof.
  intros. apply list_eq. intros i.
  rewrite lookup_splice by (split; [done|rewrite length_sub by done; lia]).
  rewrite length_sub by done. case_decide; [|done]. rewrite lookup_sub by done.
  rewrite decide_True by lia. f_equal. lia.
Qed.

(** A run within a run. *)
Lemma sub_sub bs off n off' n' :
  0 <= off → 0 <= off' → 0 <= n' → off' + n' <= n → sub (sub bs off n) off' n' = sub bs (off + off') n'.
Proof.
  intros. apply list_eq. intros i. rewrite !lookup_sub by lia. case_decide; [|done].
  rewrite decide_True by lia. f_equal. lia.
Qed.

Lemma splice_all bs new : length new = length bs → splice bs 0 new = new.
Proof. intros E. unfold splice. rewrite drop_ge by lia. simpl. by rewrite app_nil_r. Qed.

Lemma sub_all bs n : Z.of_nat (length bs) = n → sub bs 0 n = bs.
Proof. intros. unfold sub. rewrite drop_0. apply take_ge. lia. Qed.

(** ** Little-endian fields *)

Fixpoint le (n : nat) (v : Z) : list Z :=
  match n with O => [] | S n' => v mod 256 :: le n' (v / 256) end.
Fixpoint unle (bs : list Z) : Z :=
  match bs with [] => 0 | b :: bs' => b + 256 * unle bs' end.

Lemma length_le n v : length (le n v) = n.
Proof. revert v. induction n; intros; simpl; auto. Qed.

Lemma unle_le n v : unle (le n v) = v mod 256 ^ Z.of_nat n.
Proof.
  revert v. induction n as [|n IH]; intros v; [simpl; by rewrite Z.mod_1_r|].
  rewrite Nat2Z.inj_succ, Z.pow_succ_r by lia. cbn [le unle]. rewrite IH.
  rewrite Z.rem_mul_r by (try apply Z.pow_nonzero; lia). lia.
Qed.

Lemma le_bytes n v : Forall (λ b, 0 <= b < 256) (le n v).
Proof.
  revert v. induction n as [|n IH]; intros v; simpl; constructor; [|done].
  pose proof (Z.mod_pos_bound v 256). lia.
Qed.

Lemma unle_bound bs :
  Forall (λ b, 0 <= b < 256) bs → 0 <= unle bs < 256 ^ Z.of_nat (length bs).
Proof.
  induction 1 as [|b bs Hb _ IH]; [simpl; lia|].
  rewrite length_cons, Nat2Z.inj_succ, Z.pow_succ_r by lia. cbn [unle]. lia.
Qed.

Definition get (n : nat) (bs : list Z) (off : Z) : Z := unle (sub bs off (Z.of_nat n)).
Definition put (n : nat) (bs : list Z) (off v : Z) : list Z := splice bs off (le n v).

(** [uint], [int], [short] and [ushort] fields. *)
Abbreviation get_u32 := (get 4).
Definition get_i32 (bs : list Z) (off : Z) : Z := s32 (get 4 bs off).
Abbreviation put_32 := (put 4).
Abbreviation get_u16 := (get 2).
Definition get_i16 (bs : list Z) (off : Z) : Z := s16 (get 2 bs off).
Abbreviation put_16 := (put 2).

Lemma fits_le bs off n v :
  0 <= off → off + Z.of_nat n <= Z.of_nat (length bs) → fits_in bs off (le n v).
Proof. intros. split; [done|]. by rewrite length_le. Qed.

Lemma length_put n bs off v :
  0 <= off → off + Z.of_nat n <= Z.of_nat (length bs) → length (put n bs off v) = length bs.
Proof. intros. by apply length_splice, fits_le. Qed.

Lemma get_put n bs off v :
  0 <= off → off + Z.of_nat n <= Z.of_nat (length bs) → get n (put n bs off v) off = v mod 256 ^ Z.of_nat n.
Proof.
  intros. unfold get, put. pose proof (sub_splice bs off (le n v) ltac:(by apply fits_le)) as E.
  rewrite length_le in E. rewrite E. apply unle_le.
Qed.

Lemma get_put_out n k bs off v off' :
  0 <= off → off + Z.of_nat n <= Z.of_nat (length bs) → 0 <= off' →
  off' + Z.of_nat k <= off ∨ off + Z.of_nat n <= off' →
  get k (put n bs off v) off' = get k bs off'.
Proof.
  intros. unfold get, put. rewrite sub_splice_out; [done|by apply fits_le|done|by rewrite length_le].
Qed.

(** A field of a part of a block. *)
Lemma get_sub n bs off len off' :
  0 <= off → 0 <= off' → off' + Z.of_nat n <= len → get n (sub bs off len) off' = get n bs (off + off').
Proof. intros. unfold get. rewrite sub_sub; [done|lia..]. Qed.

Lemma swrap_mod w x : 1 <= w → swrap w (x mod 2 ^ w) = swrap w x.
Proof. intros. unfold swrap. by rewrite Zplus_mod_idemp_l. Qed.

Lemma get_put_i32 bs off v :
  0 <= off → off + 4 <= Z.of_nat (length bs) → - 2 ^ 31 <= v < 2 ^ 31 → get_i32 (put_32 bs off v) off = v.
Proof.
  intros. unfold get_i32. rewrite get_put by done. change (256 ^ Z.of_nat 4) with (2 ^ 32).
  rewrite swrap_mod by lia. by apply swrap_small.
Qed.

Lemma get_put_u32 bs off v :
  0 <= off → off + 4 <= Z.of_nat (length bs) → 0 <= v < 2 ^ 32 → get_u32 (put_32 bs off v) off = v.
Proof. intros. rewrite get_put by done. by apply Z.mod_small. Qed.

Lemma get_put_i16 bs off v :
  0 <= off → off + 2 <= Z.of_nat (length bs) → - 2 ^ 15 <= v < 2 ^ 15 → get_i16 (put_16 bs off v) off = v.
Proof.
  intros. unfold get_i16. rewrite get_put by done. change (256 ^ Z.of_nat 2) with (2 ^ 16).
  rewrite swrap_mod by lia. by apply swrap_small.
Qed.

(** Bytes stay bytes. *)
Definition bytes (bs : list Z) : Prop := Forall (λ b, 0 <= b < 256) bs.

Lemma bytes_splice bs off new : bytes bs → bytes new → bytes (splice bs off new).
Proof.
  intros. unfold splice, bytes. rewrite !Forall_app. split_and!; [by apply Forall_take|done|by apply Forall_drop].
Qed.

Lemma bytes_sub bs off n : bytes bs → bytes (sub bs off n).
Proof. intros. by apply Forall_take, Forall_drop. Qed.

Lemma bytes_put n bs off v : bytes bs → bytes (put n bs off v).
Proof. intros. apply bytes_splice; [done|]. apply le_bytes. Qed.

Lemma get_bound n bs off :
  bytes bs → 0 <= off → off + Z.of_nat n <= Z.of_nat (length bs) → 0 <= get n bs off < 256 ^ Z.of_nat n.
Proof.
  intros Hb H0 H1. unfold get. pose proof (unle_bound (sub bs off (Z.of_nat n)) (bytes_sub _ _ _ Hb)) as H.
  rewrite length_sub in H by lia. by rewrite Nat2Z.id in H.
Qed.

(** ** On-disk structures (fs.h) *)

(** [struct superblock] (fs.h). *)
Record superblock := mkSb {
  sb_magic : Z; sb_size : Z; sb_nblocks : Z; sb_ninodes : Z; sb_nlog : Z;
  sb_logstart : Z; sb_inodestart : Z; sb_bmapstart : Z
}.
