(* ===== verification/Bio.v ===== *)
(** * The buffer cache (kernel/bio.c)

    [bcache.buf] is a table of [NBUF] buffers, entry [NBUF] is [bcache.head]:
    [prev] and [next] are the doubly linked list of the source.  The disk
    driver is used through its contract, [disk_rw]: it transfers one block
    between the buffer and the disk (see [Virtio]).  The disk also keeps the
    history of its writes, which is what a crash leaves. *)

From S2P Require Import Prelude Random Spinlock Block.

Definition NBUF : nat := 30.
Definition HEAD : Z := 30.
Definition ROOTDEV : Z := 1.
Definition zero_block : block := replicate 1024 0.

(** [struct buf] (buf.h). *)
Record buf := mkBuf {
  b_valid : Z; b_disk : Z; b_dev : Z; b_blockno : Z; b_lock : sleeplock; b_refcnt : Z;
  b_prev : Z; b_next : Z; b_data : block
}.

(** A disk of [d_size] blocks: its contents, and the writes that led there,
    latest first. *)
Record disk := mkDisk { d_size : Z; d_img : gmap Z block; d_writes : list (Z * block) }.

Definition dread (d : disk) (n : Z) : block := default zero_block (d_img d !! n).
Definition dwrite (n : Z) (bs : block) (d : disk) : disk :=
  mkDisk (d_size d) (<[n := bs]> (d_img d)) ((n, bs) :: d_writes d).

(** The state bio.c uses: the locks, the pid of the running process, the
    cache and the disk. *)
Record bst := mkBst { bs_lk : lockst; bs_pid : Z; bufs : gmap Z buf; bs_disk : disk }.

#[export] Program Instance bst_lk : Lens bst lockst := {|
  view s := bs_lk s;
  set l s := mkBst l (bs_pid s) (bufs s) (bs_disk s)
|}.
Next Obligation. done. Qed.
Next Obligation. by intros []. Qed.
Next Obligation. done. Qed.

Definition LK_BCACHE : lockid := ("bcache"%string, 0).
Definition LK_BUF (b : Z) : lockid := ("buffer"%string, b).

Definition buf0 : buf := mkBuf 0 0 0 0 (mkSleeplock 0 0) 0 0 0 zero_block.
Definition buf_at (t : gmap Z buf) (b : Z) : buf := default buf0 (t !! b).
Definition upd (b : Z) (f : buf → buf) (t : gmap Z buf) : gmap Z buf := <[b := f (buf_at t b)]> t.

Definition set_valid (v : Z) (x : buf) : buf :=
  mkBuf v (b_disk x) (b_dev x) (b_blockno x) (b_lock x) (b_refcnt x) (b_prev x) (b_next x) (b_data x).
Definition set_ident (dev blockno : Z) (x : buf) : buf :=
  mkBuf (b_valid x) (b_disk x) dev blockno (b_lock x) (b_refcnt x) (b_prev x) (b_next x) (b_data x).
Definition set_block (k : sleeplock) (x : buf) : buf :=
  mkBuf (b_valid x) (b_disk x) (b_dev x) (b_blockno x) k (b_refcnt x) (b_prev x) (b_next x) (b_data x).
Definition set_refcnt (r : Z) (x : buf) : buf :=
  mkBuf (b_valid x) (b_disk x) (b_dev x) (b_blockno x) (b_lock x) r (b_prev x) (b_next x) (b_data x).
Definition set_prev (p : Z) (x : buf) : buf :=
  mkBuf (b_valid x) (b_disk x) (b_dev x) (b_blockno x) (b_lock x) (b_refcnt x) p (b_next x) (b_data x).
Definition set_next (n : Z) (x : buf) : buf :=
  mkBuf (b_valid x) (b_disk x) (b_dev x) (b_blockno x) (b_lock x) (b_refcnt x) (b_prev x) n (b_data x).
Definition set_bdata (d : block) (x : buf) : buf :=
  mkBuf (b_valid x) (b_disk x) (b_dev x) (b_blockno x) (b_lock x) (b_refcnt x) (b_prev x) (b_next x) d.

Definition set_bufs (t : gmap Z buf) (s : bst) : bst := mkBst (bs_lk s) (bs_pid s) t (bs_disk s).
Definition set_disk (d : disk) (s : bst) : bst := mkBst (bs_lk s) (bs_pid s) (bufs s) d.

(** [b->field] and [b->field = v]. *)
Definition getb {A} (f : buf → A) (b : Z) : M bst A := gets (λ s, f (buf_at (bufs s) b)).
Definition setb (b : Z) (f : buf → buf) : M bst unit := modify (λ s, set_bufs (upd b f (bufs s)) s).

(** What [virtio_disk_rw(b, write)] does.  A request outside the disk is
    answered with an error status, on which the driver panics. *)
Definition disk_rw (b : Z) (write : bool) : M bst unit :=
  let! s := getS in
  let x := buf_at (bufs s) b in
  if (0 <=? b_blockno x) && (b_blockno x <? d_size (bs_disk s)) then
    if write then modify (set_disk (dwrite (b_blockno x) (b_data x) (bs_disk s)))
    else setb b (set_bdata (dread (bs_disk s) (b_blockno x)))
  else panic "virtio_disk_intr status".

(** ** The functions of bio.c *)

Definition binit : M bst unit :=
  zoom (initlock LK_BCACHE) ;;
  setb HEAD (set_prev HEAD) ;;
  setb HEAD (set_next HEAD) ;;
  let! _ := for_ (R := unit) NBUF 0 1 (λ b,
    let! n := getb b_next HEAD in
    setb b (set_next n) ;;
    setb b (set_prev HEAD) ;;
    let! k := zoom (initsleeplock (LK_BUF b)) in
    setb b (set_block k) ;;
    let! n := getb b_next HEAD in
    setb n (set_prev b) ;;
    setb HEAD (set_next b) ;;
    ret None) in
  ret tt.

(** The first loop of [bget]: along [next] to the buffer of the block.
    [None]: the list does not lead back to the head. *)
Fixpoint find_cached (fuel : nat) (t : gmap Z buf) (b dev blockno : Z) : option (option Z) :=
  match fuel with
  | O => None
  | S fuel' =>
      if b =? HEAD then Some None
      else if (b_dev (buf_at t b) =? dev) && (b_blockno (buf_at t b) =? blockno) then Some (Some b)
      else find_cached fuel' t (b_next (buf_at t b)) dev blockno
  end.

(** The second loop: along [prev] to an unused buffer. *)
Fixpoint find_unused (fuel : nat) (t : gmap Z buf) (b : Z) : option (option Z) :=
  match fuel with
  | O => None
  | S fuel' =>
      if b =? HEAD then Some None
      else if b_refcnt (buf_at t b) =? 0 then Some (Some b)
      else find_unused fuel' t (b_prev (buf_at t b))
  end.

Definition lock_buf (b : Z) : M bst unit :=
  let! k := getb b_lock b in
  let! pid := gets bs_pid in
  let! k' := zoom (acquiresleep pid (LK_BUF b) k) in
  setb b (set_block k').

Definition holding_buf (b : Z) : M bst bool :=
  let! k := getb b_lock b in
  let! pid := gets bs_pid in
  zoom (holdingsleep pid (LK_BUF b) k).

Definition bget (dev blockno : Z) : M bst Z :=
  zoom (acquire LK_BCACHE) ;;
  let! t := gets bufs in
  match find_cached (S NBUF) t (b_next (buf_at t HEAD)) dev blockno with
  | None => hang
  | Some (Some b) =>
      setb b (λ x, set_refcnt (u32 (b_refcnt x + 1)) x) ;;
      zoom (release LK_BCACHE) ;;
      lock_buf b ;;
      ret b
  | Some None =>
      match find_unused (S NBUF) t (b_prev (buf_at t HEAD)) with
      | None => hang
      | Some (Some b) =>
          setb b (set_ident dev blockno) ;;
          setb b (set_valid 0) ;;
          setb b (set_refcnt 1) ;;
          zoom (release LK_BCACHE) ;;
          lock_buf b ;;
          ret b
      | Some None => panic "bget: no buffers"
      end
  end.

Definition bread (dev blockno : Z) : M bst Z :=
  let! b := bget dev blockno in
  let! valid := getb b_valid b in
  (if truthy valid then ret tt
   else disk_rw b false ;; setb b (set_valid 1)) ;;
  ret b.

Definition bwrite (b : Z) : M bst unit :=
  let! h := holding_buf b in
  if negb h then panic "bwrite" else disk_rw b true.

Definition brelse (b : Z) : M bst unit :=
  let! h := holding_buf b in
  if negb h then panic "brelse"
  else
    let! k := getb b_lock b in
    let! k' := zoom (releasesleep (LK_BUF b) k) in
    setb b (set_block k') ;;
    zoom (acquire LK_BCACHE) ;;
    setb b (λ x, set_refcnt (u32 (b_refcnt x - 1)) x) ;;
    let! r := getb b_refcnt b in
    (if r =? 0 then
       let! n := getb b_next b in
       let! p := getb b_prev b in
       setb n (set_prev p) ;;
       setb p (set_next n) ;;
       let! hn := getb b_next HEAD in
       setb b (set_next hn) ;;
       setb b (set_prev HEAD) ;;
       setb hn (set_prev b) ;;
       setb HEAD (set_next b)
     else ret tt) ;;
    zoom (release LK_BCACHE).

Definition bpin (b : Z) : M bst unit :=
  zoom (acquire LK_BCACHE) ;;
  setb b (λ x, set_refcnt (u32 (b_refcnt x + 1)) x) ;;
  zoom (release LK_BCACHE).

Definition bunpin (b : Z) : M bst unit :=
  zoom (acquire LK_BCACHE) ;;
  setb b (λ x, set_refcnt (u32 (b_refcnt x - 1)) x) ;;
  zoom (release LK_BCACHE).
