(* ===== verification/BioSpec.v ===== *)
(** * The buffer cache is a cache of the disk

    The linked list is a permutation of the buffers ([bio_ok]); no block is
    cached twice; an unused valid buffer agrees with the disk.  [lblk] is the
    contents of a block as clients of the cache see it: [bread] answers it
    and neither [bread] nor [brelse] change it. *)

From Stdlib Require Import ZifyBool.
From S2P Require Import Prelude Random Spinlock Block Bio.

(** ** The doubly linked list *)

Lemma buf_at_upd b f t c : buf_at (upd b f t) c = if decide (b = c) then f (buf_at t b) else buf_at t c.
Proof.
  unfold upd, buf_at at 1. case_decide as E.
  - subst. by rewrite lookup_insert_eq.
  - by rewrite lookup_insert_ne.
Qed.

Lemma buf_at_upd_eq b f t : buf_at (upd b f t) b = f (buf_at t b).
Proof. by rewrite buf_at_upd, decide_True. Qed.

Lemma buf_at_upd_ne b f t c : b ≠ c → buf_at (upd b f t) c = buf_at t c.
Proof. intros. by rewrite buf_at_upd, decide_False. Qed.

(** [x] and [y] are neighbours in [L]. *)
Fixpoint adj (L : list Z) (x y : Z) : Prop :=
  match L with
  | [] => False
  | a :: L' => match L' with [] => False | b :: _ => (x = a ∧ y = b) ∨ adj L' x y end
  end.

Lemma adj_cons a b L x y : adj (a :: b :: L) x y ↔ (x = a ∧ y = b) ∨ adj (b :: L) x y.
Proof. done. Qed.

Lemma adj_app A p B x y : adj (A ++ p :: B) x y ↔ adj (A ++ [p]) x y ∨ adj (p :: B) x y.
Proof.
  induction A as [|a [|a' A] IH].
  - simpl app. change (adj [p] x y) with False. tauto.
  - simpl app in *. rewrite !adj_cons. change (adj [p] x y) with False. tauto.
  - simpl app in *. rewrite !adj_cons, IH. tauto.
Qed.

Lemma adj_l A p x y : adj (A ++ [p]) x y → x ∈ A.
Proof.
  induction A as [|a [|a' A] IH]; simpl app in *.
  - done.
  - rewrite adj_cons. intros [[-> _]|[]]. set_solver.
  - rewrite adj_cons. intros [[-> _]|H]; set_solver.
Qed.

Lemma adj_r A p x y : adj (p :: A) x y → y ∈ A.
Proof.
  revert p. induction A as [|a A IH]; intros p; [done|]. rewrite adj_cons.
  intros [[_ ->]|H]; set_solver.
Qed.

(** The list through [prev] and [next] holds the buffers [l], in order from
    [head.next]. *)
Definition linked (t : gmap Z buf) (l : list Z) : Prop :=
  ∀ x y, adj (HEAD :: l ++ [HEAD]) x y → b_next (buf_at t x) = y ∧ b_prev (buf_at t y) = x.

Lemma linked_ext t t' l :
  (∀ i, b_next (buf_at t' i) = b_next (buf_at t i) ∧ b_prev (buf_at t' i) = b_prev (buf_at t i)) →
  linked t l → linked t' l.
Proof. intros He Hl x y Ha. destruct (He x) as [-> _], (He y) as [_ ->]. by apply Hl. Qed.

(** Unlinking [b], as [brelse] does it. *)
Definition unlinked (b : Z) (t : gmap Z buf) : gmap Z buf :=
  let n := b_next (buf_at t b) in
  let p := b_prev (buf_at t b) in
  upd p (set_next n) (upd n (set_prev p) t).

(** Linking [b] in front, as [brelse] and [binit] do it. *)
Definition pushed (b : Z) (t : gmap Z buf) : gmap Z buf :=
  let hn := b_next (buf_at t HEAD) in
  upd HEAD (set_next b) (upd hn (set_prev b) (upd b (set_prev HEAD) (upd b (set_next hn) t))).

Lemma next_upd_prev t n p i : b_next (buf_at (upd n (set_prev p) t) i) = b_next (buf_at t i).
Proof. rewrite buf_at_upd. case_decide; subst; done. Qed.
Lemma prev_upd_next t n p i : b_prev (buf_at (upd n (set_next p) t) i) = b_prev (buf_at t i).
Proof. rewrite buf_at_upd. case_decide; subst; done. Qed.
Lemma next_upd t b n i :
  b_next (buf_at (upd b (set_next n) t) i) = if decide (b = i) then n else b_next (buf_at t i).
Proof. rewrite buf_at_upd. case_decide; subst; done. Qed.
Lemma prev_upd t b p i :
  b_prev (buf_at (upd b (set_prev p) t) i) = if decide (b = i) then p else b_prev (buf_at t i).
Proof. rewrite buf_at_upd. case_decide; subst; done. Qed.

(** The neighbours of a buffer of the list. *)
Lemma around l1 b l2 : ∃ A p n B,
  HEAD :: (l1 ++ b :: l2) ++ [HEAD] = A ++ p :: b :: n :: B ∧ HEAD :: (l1 ++ l2) ++ [HEAD] = A ++ p :: n :: B.
Proof.
  destruct (exists_last (l := HEAD :: l1) ltac:(done)) as (A & p & E1).
  destruct (l2 ++ [HEAD]) as [|n B] eqn:E2; [by destruct l2|].
  exists A, p, n, B. rewrite <- !app_assoc, !app_comm_cons, E1, E2, <- !app_assoc. simpl. rewrite E2. done.
Qed.

Lemma linked_unlinked t l1 b l2 :
  linked t (l1 ++ b :: l2) → NoDup (HEAD :: l1 ++ b :: l2) → linked (unlinked b t) (l1 ++ l2).
Proof.
  intros Hl Hnd. destruct (around l1 b l2) as (A & p & n & B & E1 & E2). unfold linked in *. rewrite E1 in Hl. rewrite E2.
  assert (b_next (buf_at t p) = b ∧ b_prev (buf_at t b) = p) as [Hpn Hbp].
  { apply Hl. rewrite adj_app, !adj_cons. tauto. }
  assert (b_next (buf_at t b) = n ∧ b_prev (buf_at t n) = b) as [Hbn Hnp].
  { apply Hl. rewrite adj_app, !adj_cons. tauto. }
  assert (b ∉ HEAD :: (l1 ++ l2) ++ [HEAD]) as Hb.
  { apply NoDup_cons in Hnd as [Hh Hnd]. apply NoDup_app in Hnd as (_ & Hd & Hnd). apply NoDup_cons in Hnd as [Hb _].
    intros [->|[[Hx|Hx]%elem_of_app|Hx]%elem_of_app]%elem_of_cons; [set_solver..|]. set_solver. }
  rewrite E2 in Hb. intros x y Ha. unfold unlinked. rewrite Hbn, Hbp, next_upd, prev_upd_next, prev_upd, next_upd_prev.
  rewrite adj_app, adj_cons in Ha.
  assert ((x = p ∧ y = n) ∨ (adj (A ++ p :: b :: n :: B) x y ∧ x ≠ b ∧ y ≠ b)) as [[-> ->]|(Ho & Hxb & Hyb)].
  { rewrite adj_app, !adj_cons. destruct Ha as [Ha|[Ha|Ha]]; [right|by left|right].
    - pose proof (adj_l _ _ _ _ Ha). destruct A as [|a A']; [done|]. pose proof (adj_r (A' ++ [p]) a x y Ha). set_solver.
    - pose proof (adj_r _ _ _ _ Ha). assert (x ∈ n :: B); [|set_solver].
      destruct (exists_last (l := n :: B) ltac:(done)) as (B' & q & EB). rewrite EB in Ha |- *.
      pose proof (adj_l _ _ _ _ Ha). set_solver. }
  { by rewrite !decide_True. }
  destruct (Hl x y Ho) as [Hx Hy]. rewrite !decide_False by congruence. done.
Qed.

Lemma linked_pushed t l b :
  linked t l → NoDup (HEAD :: b :: l) → linked (pushed b t) (b :: l).
Proof.
  intros Hl Hnd. unfold linked in *. destruct (l ++ [HEAD]) as [|n B] eqn:E; [by destruct l|].
  rewrite <- app_comm_cons, E. assert (b_next (buf_at t HEAD) = n ∧ b_prev (buf_at t n) = HEAD) as [Hn Hp].
  { apply Hl. rewrite adj_cons. tauto. }
  apply NoDup_cons in Hnd as [Hh Hnd]. apply NoDup_cons in Hnd as [Hb Hnd].
  intros x y. unfold pushed. rewrite Hn, !next_upd, !prev_upd_next, !prev_upd, !next_upd_prev, !next_upd, !prev_upd_next.
  rewrite !adj_cons. assert (b ∉ n :: B) as HbB by (rewrite <- E; set_solver).
  intros [[-> ->]|[[-> ->]|Ha]].
  - rewrite decide_True by done. split; [done|]. rewrite decide_False by set_solver. by rewrite decide_True.
  - rewrite decide_False by set_solver. rewrite !decide_True by done. done.
  - assert (x ∈ l) as Hx by (eapply (adj_l l HEAD x y); by rewrite E).
    assert (y ∈ n :: B) as Hy by (apply adj_r in Ha; set_solver).
    destruct (Hl x y ltac:(rewrite adj_cons; tauto)) as [Hxy Hyx].
    assert (HEAD ≠ x) by (intros <-; apply Hh, elem_of_cons; by right).
    assert (b ≠ x ∧ b ≠ y) as [? ?] by (split; congruence).
    assert (n ≠ y) by (intros <-; congruence). rewrite !decide_False by done. done.
Qed.

(** The loops of [bget] visit the buffers in list order and in reverse. *)
Definition is_block (t : gmap Z buf) (dev blockno b : Z) : bool :=
  (b_dev (buf_at t b) =? dev) && (b_blockno (buf_at t b) =? blockno).
Definition unused (t : gmap Z buf) (b : Z) : bool := b_refcnt (buf_at t b) =? 0.

Lemma find_cached_from t l dev blockno x fuel :
  (∀ a b, adj (x :: l ++ [HEAD]) a b → b_next (buf_at t a) = b) → HEAD ∉ l → (length l < fuel)%nat →
  find_cached fuel t (b_next (buf_at t x)) dev blockno = Some (List.find (is_block t dev blockno) l).
Proof.
  revert x fuel. induction l as [|z l IH]; intros x [|fuel] Hl Hh Hf; simpl in Hf; try lia.
  - rewrite (Hl x HEAD) by (simpl; tauto). done.
  - rewrite (Hl x z) by (simpl; tauto). cbn [find_cached List.find].
    rewrite (proj2 (Z.eqb_neq z HEAD)) by set_solver. unfold is_block at 1. case_match; [done|].
    apply IH; [|set_solver|lia]. intros a b Ha. apply Hl. simpl app. rewrite adj_cons. by right.
Qed.

Lemma find_unused_from t l y fuel :
  (∀ a b, adj (HEAD :: l ++ [y]) a b → b_prev (buf_at t b) = a) → HEAD ∉ l → (length l < fuel)%nat →
  find_unused fuel t (b_prev (buf_at t y)) = Some (List.find (unused t) (rev l)).
Proof.
  revert y fuel. induction l as [|z l IH] using rev_ind;
    intros y [|fuel] Hl Hh Hf; rewrite ?length_app in Hf; simpl in Hf; try lia.
  - rewrite (Hl HEAD y) by (simpl; tauto). done.
  - rewrite (Hl z y) by (rewrite <- app_assoc; apply (adj_app (HEAD :: l)); rewrite adj_cons; tauto).
    rewrite rev_app_distr. cbn [find_unused rev app List.find].
    rewrite (proj2 (Z.eqb_neq z HEAD)) by set_solver. unfold unused at 1. case_match; [done|].
    apply IH; [|set_solver|lia]. intros a b Ha. apply Hl.
    rewrite <- app_assoc. apply (adj_app (HEAD :: l)). by left.
Qed.

(** ** The invariant of the cache *)

Abbreviation bf s b := (buf_at (bufs s) b).

(** [l] is the list in the order of use.  Device 0 is the one no block is
    read from: buffers never used carry it. *)
Record bio_ok (s : bst) (l : list Z) : Prop := {
  bio_linked : linked (bufs s) l;
  bio_perm : l ≡ₚ seqZ 0 (Z.of_nat NBUF);
  bio_ref : ∀ b, b ∈ l → 0 <= b_refcnt (bf s b) < 2 ^ 32;
  bio_uniq : ∀ b c, b ∈ l → c ∈ l → b_dev (bf s b) ≠ 0 → b_dev (bf s b) = b_dev (bf s c) →
    b_blockno (bf s b) = b_blockno (bf s c) → b = c;
  bio_used : ∀ b, b ∈ l → b_refcnt (bf s b) = 0 → sl_locked (b_lock (bf s b)) = 0;
  bio_clean : ∀ b, b ∈ l → b_refcnt (bf s b) = 0 → b_valid (bf s b) ≠ 0 →
    b_data (bf s b) = dread (bs_disk s) (b_blockno (bf s b));
  bio_range : ∀ b, b ∈ l → b_valid (bf s b) ≠ 0 →
    b_dev (bf s b) = ROOTDEV ∧ 0 <= b_blockno (bf s b) < d_size (bs_disk s);
  bio_size : ∀ b, b ∈ l → length (b_data (bf s b)) = 1024%nat;
  bio_disk : ∀ n, length (dread (bs_disk s) n) = 1024%nat;
  bio_lk : lockable LK_BCACHE (bs_lk s);
  bio_lks : ∀ b, b ∈ l → lockable (LK_BUF b) (bs_lk s)
}.

Lemma bio_NoDup s l : bio_ok s l → NoDup (HEAD :: l).
Proof.
  intros Hs. pose proof (bio_perm _ _ Hs) as Hp. apply NoDup_cons. rewrite Hp. split.
  - rewrite elem_of_seqZ. unfold HEAD, NBUF. lia.
  - apply NoDup_seqZ.
Qed.

Lemma bio_length s l : bio_ok s l → length l = NBUF.
Proof. intros Hs. rewrite (Permutation_length (bio_perm _ _ Hs)), length_seqZ. lia. Qed.

Lemma is_block_spec t dev n b : is_block t dev n b = true ↔ b_dev (buf_at t b) = dev ∧ b_blockno (buf_at t b) = n.
Proof. unfold is_block. lia. Qed.

Lemma find_some_1 (f : Z → bool) l b : List.find f l = Some b → b ∈ l ∧ f b = true.
Proof. intros [H1 H2]%find_some. by apply list_elem_of_In in H1. Qed.

Lemma find_none_1 (f : Z → bool) l b : List.find f l = None → b ∈ l → f b = false.
Proof. intros H Hb. apply (find_none _ _ H). by apply list_elem_of_In. Qed.

(** The buffer of a block, whichever way one looks for it. *)
Definition holder (t : gmap Z buf) (dev n : Z) : option Z :=
  List.find (is_block t dev n) (seqZ 0 (Z.of_nat NBUF)).

Lemma holder_Some s l dev n b :
  bio_ok s l → dev ≠ 0 → holder (bufs s) dev n = Some b ↔ b ∈ l ∧ b_dev (bf s b) = dev ∧ b_blockno (bf s b) = n.
Proof.
  intros Hs Hd. unfold holder. split.
  - intros [H1 H2]%find_some_1. by rewrite is_block_spec in H2; rewrite (bio_perm _ _ Hs).
  - intros (Hb & <- & <-). destruct (List.find _ _) as [c|] eqn:E.
    + apply find_some_1 in E as [Hc Ec]. rewrite <- (bio_perm _ _ Hs) in Hc. apply is_block_spec in Ec as [E1 E2].
      f_equal. symmetry. by eapply bio_uniq.
    + rewrite (bio_perm _ _ Hs) in Hb. pose proof (find_none_1 _ _ _ E Hb) as Ef.
      assert (is_block (bufs s) (b_dev (bf s b)) (b_blockno (bf s b)) b = true) by (by apply is_block_spec). congruence.
Qed.

Lemma holder_find s l dev n :
  bio_ok s l → dev ≠ 0 → List.find (is_block (bufs s) dev n) l = holder (bufs s) dev n.
Proof.
  intros Hs Hd. destruct (holder (bufs s) dev n) as [b|] eqn:E.
  - apply (holder_Some s l) in E as (Hb & E1 & E2); [|done..]. destruct (List.find _ l) as [c|] eqn:Ef.
    + apply find_some_1 in Ef as [Hc [E3 E4]%is_block_spec]. f_equal. eapply bio_uniq; try done; congruence.
    + apply (find_none_1 _ _ b) in Ef; [|done]. assert (is_block (bufs s) dev n b = true) by (by apply is_block_spec). congruence.
  - destruct (List.find _ l) as [c|] eqn:Ef; [|done]. apply find_some_1 in Ef as [Hc Ec].
    rewrite (bio_perm _ _ Hs) in Hc. pose proof (find_none_1 _ _ _ E Hc). congruence.
Qed.

(** The contents of block [n] of the root device as the cache shows it. *)
Definition lblk (s : bst) (n : Z) : block :=
  match holder (bufs s) ROOTDEV n with
  | Some b => if truthy (b_valid (bf s b)) then b_data (bf s b) else dread (bs_disk s) n
  | None => dread (bs_disk s) n
  end.

(** The block is cached at [b]: what its contents are. *)
Lemma lblk_held s l b :
  bio_ok s l → b ∈ l → b_dev (bf s b) = ROOTDEV → b_valid (bf s b) ≠ 0 →
  lblk s (b_blockno (bf s b)) = b_data (bf s b).
Proof.
  intros Hs Hb Hd Hv. unfold lblk. rewrite (proj2 (holder_Some s l ROOTDEV _ b Hs ltac:(done))) by done.
  unfold truthy. rewrite (proj2 (Z.eqb_neq _ _)); done.
Qed.

Lemma lblk_length s l n : bio_ok s l → length (lblk s n) = 1024%nat.
Proof.
  intros Hs. unfold lblk. destruct (holder _ _ _) as [b|] eqn:E; [|by eapply bio_disk].
  apply (holder_Some s l) in E as (Hb & _); [|done..]. case_match; [by eapply bio_size|by eapply bio_disk].
Qed.

(** ** [bread] *)

Lemma lock_buf_run b s :
  lockable (LK_BUF b) (bs_lk s) → sl_locked (b_lock (bf s b)) = 0 →
  ∃ lk, lk ≡ bs_lk s ∧
    lock_buf b s = Ok (tt, mkBst lk (bs_pid s) (upd b (set_block (mkSleeplock 1 (bs_pid s))) (bufs s)) (bs_disk s)).
Proof.
  intros Hl Hk. unfold lock_buf, bind, getb, gets, zoom.
  destruct (acquiresleep_run (bs_pid s) (LK_BUF b) _ _ Hl Hk) as (l' & E & He). simpl in *. rewrite E. eauto.
Qed.

(** What [bget] leaves in the buffer it answers. *)
Definition taken (dev n pid : Z) (s : bst) (b : Z) : buf :=
  let x := bf s b in
  if is_block (bufs s) dev n b
  then set_block (mkSleeplock 1 pid) (set_refcnt (b_refcnt x + 1) x)
  else set_block (mkSleeplock 1 pid) (set_refcnt 1 (set_valid 0 (set_ident dev n x))).

(** The buffer [bget] answers: the one of the block, or else the least
    recently used of the unused ones. *)
Definition chosen (dev n : Z) (s : bst) (l : list Z) (b : Z) : Prop :=
  b ∈ l ∧ (is_block (bufs s) dev n b = true ∨
           (holder (bufs s) dev n = None ∧ List.find (unused (bufs s)) (rev l) = Some b)).

(** Block [n] can be taken: its buffer is not locked, or there is an unused
    one to recycle. *)
Definition takeable (dev n : Z) (s : bst) (l : list Z) : Prop :=
  (∀ b, b ∈ l → is_block (bufs s) dev n b = true → sl_locked (b_lock (bf s b)) = 0 ∧ b_refcnt (bf s b) + 1 < 2 ^ 32) ∧
  ((∃ b, b ∈ l ∧ is_block (bufs s) dev n b = true) ∨ ∃ b, b ∈ l ∧ b_refcnt (bf s b) = 0).

Lemma find_unused_some s l :
  (∃ b, b ∈ l ∧ b_refcnt (bf s b) = 0) → ∃ b, List.find (unused (bufs s)) (rev l) = Some b ∧ b ∈ l ∧ b_refcnt (bf s b) = 0.
Proof.
  intros (b & Hb & E). destruct (List.find _ _) as [c|] eqn:Ef.
  - apply find_some_1 in Ef as [Hc Eu]. exists c. split_and!; [done| |unfold unused in Eu; lia].
    rewrite list_elem_of_In, <- in_rev, <- list_elem_of_In in Hc. done.
  - apply (find_none_1 _ _ b) in Ef; [unfold unused in Ef; lia|].
    by rewrite list_elem_of_In, <- in_rev, <- list_elem_of_In.
Qed.

Lemma bget_spec dev n s l :
  bio_ok s l → dev ≠ 0 → takeable dev n s l →
  wp (bget dev n) (λ b s', chosen dev n s l b ∧ bs_lk s' ≡ bs_lk s ∧ bs_pid s' = bs_pid s ∧ bs_disk s' = bs_disk s ∧
    bf s' b = taken dev n (bs_pid s) s b ∧ ∀ c, c ≠ b → bf s' c = bf s c) s.
Proof.
  intros Hs Hd [Hfree Hex]. pose proof (bio_NoDup _ _ Hs) as [Hh _]%NoDup_cons. pose proof (bio_length _ _ Hs) as Hlen.
  unfold bget. apply wp_bind, wp_acquire; [apply (bio_lk _ _ Hs)|]. apply wp_bind, wp_gets. cbn [bufs set bst_lk].
  rewrite (find_cached_from _ l), (holder_find s l), (find_unused_from _ l);
    [|intros a b Ha; by apply (bio_linked _ _ Hs)|done|lia|done|done|intros a b Ha; by apply (bio_linked _ _ Hs)|done|lia].
  destruct (holder (bufs s) dev n) as [b|] eqn:E.
  - apply (holder_Some s l) in E as (Hb & E1 & E2); [|done..].
    assert (is_block (bufs s) dev n b = true) as Eb by (by apply is_block_spec).
    destruct (Hfree b Hb Eb) as [Hk Hr].
    apply wp_bind, wp_modify. apply wp_bind, (wp_release _ (bs_lk s)); [apply (bio_lk _ _ Hs)|done|]. intros lk Hlk.
    match goal with |- wp _ _ ?st => destruct (lock_buf_run b st) as (lk' & Hlk' & Er) end.
    { simpl. rewrite Hlk. by apply (bio_lks _ _ Hs). }
    { simpl. by rewrite buf_at_upd_eq. }
    apply wp_bind. eapply wp_eq; [exact Er|]. apply wp_ret. simpl. split_and!; [split; auto|by rewrite Hlk'|done|done|..].
    + rewrite !buf_at_upd_eq. unfold taken. rewrite Eb. simpl. pose proof (bio_ref _ _ Hs b Hb).
      rewrite (wrap_small 32) by lia. done.
    + intros c Hc. by rewrite !buf_at_upd_ne by done.
  - destruct Hex as [(b & Hb & Eb)|Hex].
    { rewrite (bio_perm _ _ Hs) in Hb. pose proof (find_none_1 _ _ _ E Hb). congruence. }
    destruct (find_unused_some s l Hex) as (b & Ef & Hb & Er0). rewrite Ef.
    assert (is_block (bufs s) dev n b = false) as Eb.
    { rewrite (bio_perm _ _ Hs) in Hb. apply (find_none_1 _ _ _ E Hb). }
    do 3 apply wp_bind, wp_modify. apply wp_bind, (wp_release _ (bs_lk s)); [apply (bio_lk _ _ Hs)|done|]. intros lk Hlk.
    match goal with |- wp _ _ ?st => destruct (lock_buf_run b st) as (lk' & Hlk' & Er) end.
    { simpl. rewrite Hlk. by apply (bio_lks _ _ Hs). }
    { simpl. rewrite !buf_at_upd_eq. simpl. by apply (bio_used _ _ Hs). }
    apply wp_bind. eapply wp_eq; [exact Er|]. apply wp_ret. simpl. split_and!; [split; auto|by rewrite Hlk'|done|done|..].
    + rewrite !buf_at_upd_eq. unfold taken. rewrite Eb. done.
    + intros c Hc. by rewrite !buf_at_upd_ne by done.
Qed.

(** The invariant after a change of one buffer [b], its links apart. *)
Record buf_ok (s : bst) (l : list Z) (b : Z) (x : buf) : Prop := {
  bk_links : b_next x = b_next (bf s b) ∧ b_prev x = b_prev (bf s b);
  bk_ref : 0 <= b_refcnt x < 2 ^ 32;
  bk_uniq : b_dev x ≠ 0 → ∀ c, c ∈ l → c ≠ b → b_dev (bf s c) = b_dev x → b_blockno (bf s c) ≠ b_blockno x;
  bk_used : b_refcnt x = 0 → sl_locked (b_lock x) = 0;
  bk_clean : b_refcnt x = 0 → b_valid x ≠ 0 → b_data x = dread (bs_disk s) (b_blockno x);
  bk_range : b_valid x ≠ 0 → b_dev x = ROOTDEV ∧ 0 <= b_blockno x < d_size (bs_disk s);
  bk_size : length (b_data x) = 1024%nat
}.

Lemma bio_ok_upd s s' l b :
  bio_ok s l → bs_lk s' ≡ bs_lk s → bs_disk s' = bs_disk s → (∀ c, c ≠ b → bf s' c = bf s c) →
  buf_ok s l b (bf s' b) → bio_ok s' l.
Proof.
  intros Hs Hlk Hdk Ho Hx. assert (∀ c, bf s' c = bf s c ∨ c = b) as Hc.
  { intros c. destruct (decide (c = b)); auto. }
  split.
  - eapply linked_ext; [|apply (bio_linked _ _ Hs)]. intros i. destruct (Hc i) as [-> | ->]; [done|]. apply (bk_links _ _ _ _ Hx).
  - apply (bio_perm _ _ Hs).
  - intros c Hcl. destruct (Hc c) as [-> | ->]; [by apply (bio_ref _ _ Hs)|apply (bk_ref _ _ _ _ Hx)].
  - intros c d Hcl Hdl. destruct (decide (c = b)) as [->|Hcb], (decide (d = b)) as [->|Hdb]; [done|..].
    + rewrite (Ho d) by done. intros H0 E1 E2. destruct (bk_uniq _ _ _ _ Hx H0 d Hdl Hdb); done.
    + rewrite (Ho c) by done. intros H0 E1 E2. destruct (bk_uniq _ _ _ _ Hx ltac:(congruence) c Hcl Hcb); done.
    + rewrite !Ho by done. by apply (bio_uniq _ _ Hs).
  - intros c Hcl. destruct (Hc c) as [-> | ->]; [by apply (bio_used _ _ Hs)|apply (bk_used _ _ _ _ Hx)].
  - intros c Hcl. rewrite Hdk. destruct (Hc c) as [-> | ->]; [by apply (bio_clean _ _ Hs)|apply (bk_clean _ _ _ _ Hx)].
  - intros c Hcl. rewrite Hdk. destruct (Hc c) as [-> | ->]; [by apply (bio_range _ _ Hs)|apply (bk_range _ _ _ _ Hx)].
  - intros c Hcl. destruct (Hc c) as [-> | ->]; [by apply (bio_size _ _ Hs)|apply (bk_size _ _ _ _ Hx)].
  - rewrite Hdk. apply (bio_disk _ _ Hs).
  - rewrite Hlk. apply (bio_lk _ _ Hs).
  - intros c Hcl. rewrite Hlk. by apply (bio_lks _ _ Hs).
Qed.

(** The process has buffer [b], of block [n], in its hands. *)
Definition in_hand (s : bst) (b n : Z) : Prop :=
  b_dev (bf s b) = ROOTDEV ∧ b_blockno (bf s b) = n ∧ b_valid (bf s b) ≠ 0 ∧
  b_lock (bf s b) = mkSleeplock 1 (bs_pid s) ∧ 0 < b_refcnt (bf s b).

(** What stays the same for the rest of the system. *)
Definition same_env (s s' : bst) : Prop :=
  bs_lk s' ≡ bs_lk s ∧ bs_pid s' = bs_pid s ∧ bs_disk s' = bs_disk s.

(** After [bread]. *)
Record got (n : Z) (s : bst) (l : list Z) (b : Z) (s' : bst) : Prop := {
  got_chosen : chosen ROOTDEV n s l b;
  got_ok : bio_ok s' l;
  got_env : same_env s s';
  got_other : ∀ c, c ≠ b → bf s' c = bf s c;
  got_hand : in_hand s' b n;
  got_refcnt : b_refcnt (bf s' b) = if is_block (bufs s) ROOTDEV n b then b_refcnt (bf s b) + 1 else 1;
  got_lblk : ∀ m, lblk s' m = lblk s m
}.

(** The valid buffer of block [m]. *)
Definition cached (s : bst) (l : list Z) (m b : Z) : Prop :=
  b ∈ l ∧ b_dev (bf s b) = ROOTDEV ∧ b_blockno (bf s b) = m ∧ b_valid (bf s b) ≠ 0.

Lemma same_block s l b c :
  bio_ok s l → b ∈ l → c ∈ l → b_dev (bf s b) = ROOTDEV → b_dev (bf s c) = ROOTDEV →
  b_blockno (bf s b) = b_blockno (bf s c) → b = c.
Proof. intros Hs Hb Hc E1 E2 E. apply (bio_uniq _ _ Hs b c Hb Hc); [by rewrite E1|congruence|done]. Qed.

Lemma lblk_cached s l m b : bio_ok s l → cached s l m b → lblk s m = b_data (bf s b).
Proof. intros Hs (Hb & Hd & <- & Hv). by eapply lblk_held. Qed.

Lemma lblk_cases s l m :
  bio_ok s l → (∃ b, cached s l m b) ∨ ((∀ b, ¬ cached s l m b) ∧ lblk s m = dread (bs_disk s) m).
Proof.
  intros Hs. unfold lblk. destruct (holder (bufs s) ROOTDEV m) as [b|] eqn:E.
  - apply (holder_Some s l) in E as (Hb & E1 & E2); [|done..]. unfold truthy.
    destruct (Z.eqb_spec (b_valid (bf s b)) 0) as [E0|E0]; [right|left; by exists b]. split; [|done].
    intros c (Hc & E3 & E4 & Hv). assert (c = b) as ->; [|done]. eapply same_block; [done..|]; congruence.
  - right. split; [|done]. intros c (Hc & E3 & E4 & Hv).
    rewrite (proj2 (holder_Some s l ROOTDEV m c Hs ltac:(done))) in E; done.
Qed.

(** A block keeps its contents when the buffer that changed does not hold it
    with other contents than the disk, before and after. *)
Lemma lblk_other s s' l b m :
  bio_ok s l → bio_ok s' l → bs_disk s' = bs_disk s → (∀ c, c ≠ b → bf s' c = bf s c) →
  (cached s l m b → b_data (bf s b) = dread (bs_disk s) m) →
  (cached s' l m b → b_data (bf s' b) = dread (bs_disk s) m) →
  lblk s' m = lblk s m.
Proof.
  intros Hs Hs' Hd Ho Hb Hb'.
  assert (∀ c, c ≠ b → cached s' l m c ↔ cached s l m c) as Hc by (intros c Hc; unfold cached; by rewrite Ho).
  destruct (lblk_cases s' l m Hs') as [(c & C')|(N' & ->)].
  - rewrite (lblk_cached _ _ _ _ Hs' C'). destruct (decide (c = b)) as [->|Hcb].
    + rewrite Hb' by done. destruct (lblk_cases s l m Hs) as [(c & C)|(_ & ->)]; [|done].
      rewrite (lblk_cached _ _ _ _ Hs C). destruct (decide (c = b)) as [->|Hcb]; [by rewrite Hb|].
      apply Hc in C; [|done]. destruct C as (? & ? & ? & _), C' as (? & ? & ? & _).
      destruct Hcb. apply (same_block s' l c b Hs'); congruence.
    + rewrite Ho by done. apply Hc in C'; [|done]. by rewrite (lblk_cached _ _ _ _ Hs C').
  - rewrite Hd. destruct (lblk_cases s l m Hs) as [(c & C)|(_ & ->)]; [|done].
    rewrite (lblk_cached _ _ _ _ Hs C). destruct (decide (c = b)) as [->|Hcb]; [by rewrite Hb|].
    apply Hc in C; [|done]. by destruct (N' c).
Qed.

(** A change of a buffer that keeps what it says of the disk. *)
Lemma lblk_same s s' l b m :
  bio_ok s l → bio_ok s' l → bs_disk s' = bs_disk s → (∀ c, c ≠ b → bf s' c = bf s c) →
  b_dev (bf s' b) = b_dev (bf s b) → b_blockno (bf s' b) = b_blockno (bf s b) →
  b_valid (bf s' b) = b_valid (bf s b) → b_data (bf s' b) = b_data (bf s b) → lblk s' m = lblk s m.
Proof.
  intros Hs Hs' Hd Ho E1 E2 E3 E4.
  assert (∀ c, cached s' l m c ↔ cached s l m c) as Hc.
  { intros c. unfold cached. destruct (decide (c = b)) as [->|Hcb]; [by rewrite E1, E2, E3|by rewrite Ho]. }
  destruct (lblk_cases s' l m Hs') as [(c & C')|(N' & ->)].
  - rewrite (lblk_cached _ _ _ _ Hs' C'). apply Hc in C'. rewrite (lblk_cached _ _ _ _ Hs C').
    destruct (decide (c = b)) as [->|Hcb]; [done|by rewrite Ho].
  - rewrite Hd. destruct (lblk_cases s l m Hs) as [(c & C%Hc)|(_ & ->)]; [by destruct (N' c)|done].
Qed.

Lemma chosen_other s l n b c :
  bio_ok s l → chosen ROOTDEV n s l b → c ∈ l → c ≠ b → b_dev (bf s c) = ROOTDEV → b_blockno (bf s c) ≠ n.
Proof.
  intros Hs [Hb Hch] Hc Hne Hd E. assert (holder (bufs s) ROOTDEV n = Some c) as Eh by (by apply (holder_Some s l)).
  destruct Hch as [[E1 E2]%is_block_spec|[E0 _]]; [|congruence].
  destruct Hne. eapply same_block; try done; congruence.
Qed.

(** The buffer after [bread], whether or not the disk was read. *)
Definition loaded (n : Z) (s : bst) (b : Z) (y : buf) : Prop :=
  let x := taken ROOTDEV n (bs_pid s) s b in
  y = (if truthy (b_valid x) then x else set_valid 1 (set_bdata (dread (bs_disk s) n) x)).

Lemma taken_fields n s b :
  let x := taken ROOTDEV n (bs_pid s) s b in
  b_dev x = ROOTDEV ∧ b_blockno x = n ∧ b_lock x = mkSleeplock 1 (bs_pid s) ∧
  b_next x = b_next (bf s b) ∧ b_prev x = b_prev (bf s b) ∧ b_data x = b_data (bf s b) ∧
  b_refcnt x = (if is_block (bufs s) ROOTDEV n b then b_refcnt (bf s b) + 1 else 1) ∧
  b_valid x = (if is_block (bufs s) ROOTDEV n b then b_valid (bf s b) else 0).
Proof.
  simpl. unfold taken. destruct (is_block _ _ _ _) eqn:E; [|done]. apply is_block_spec in E as [E1 E2]. done.
Qed.

Lemma loaded_fields n s b y :
  loaded n s b y →
  b_dev y = ROOTDEV ∧ b_blockno y = n ∧ b_lock y = mkSleeplock 1 (bs_pid s) ∧ b_valid y ≠ 0 ∧
  b_next y = b_next (bf s b) ∧ b_prev y = b_prev (bf s b) ∧
  b_refcnt y = (if is_block (bufs s) ROOTDEV n b then b_refcnt (bf s b) + 1 else 1) ∧
  b_data y = (if is_block (bufs s) ROOTDEV n b && truthy (b_valid (bf s b)) then b_data (bf s b) else dread (bs_disk s) n).
Proof.
  unfold loaded. destruct (taken_fields n s b) as (E1 & E2 & E3 & E4 & E5 & E6 & E7 & E8).
  cbv zeta. unfold truthy at 1. destruct (Z.eqb_spec (b_valid (taken ROOTDEV n (bs_pid s) s b)) 0) as [E|E];
    intros ->; simpl; split_and!; try done; rewrite E8 in E.
  - destruct (is_block _ _ _ _); [|done]. unfold truthy. rewrite (proj2 (Z.eqb_eq _ _)); done.
  - rewrite E6. destruct (is_block _ _ _ _); [|done]. unfold truthy. rewrite (proj2 (Z.eqb_neq _ _)); done.
Qed.

Lemma loaded_ok n s l b y :
  bio_ok s l → takeable ROOTDEV n s l → 0 <= n < d_size (bs_disk s) → chosen ROOTDEV n s l b → loaded n s b y →
  buf_ok s l b y.
Proof.
  intros Hs [Hfree _] Hn Hch Hy. destruct (loaded_fields _ _ _ _ Hy) as (E1 & E2 & E3 & E4 & E5 & E6 & E7 & E8).
  pose proof Hch as [Hb _]. pose proof (bio_ref _ _ Hs b Hb).
  assert (0 < b_refcnt y < 2 ^ 32) as Hr.
  { rewrite E7. destruct (is_block _ _ _ _) eqn:E; [|lia]. destruct (Hfree b Hb E). lia. }
  split; [done|lia| |lia|lia|by rewrite E1, E2|].
  - intros _ c Hc Hcb Hd. rewrite E2. rewrite E1 in Hd. by eapply chosen_other.
  - rewrite E8. case_match; [by eapply bio_size|by eapply bio_disk].
Qed.

Lemma loaded_lblk n s l b s' :
  bio_ok s l → bio_ok s' l → chosen ROOTDEV n s l b → bs_disk s' = bs_disk s →
  (∀ c, c ≠ b → bf s' c = bf s c) → loaded n s b (bf s' b) → ∀ m, lblk s' m = lblk s m.
Proof.
  intros Hs Hs' Hch Hd Ho Hy m. destruct (loaded_fields _ _ _ _ Hy) as (E1 & E2 & E3 & E4 & E5 & E6 & E7 & E8).
  destruct Hch as [Hb Hch].
  assert (cached s' l n b) as C' by done.
  destruct (is_block (bufs s) ROOTDEV n b) eqn:Eb; simpl in E8.
  - apply is_block_spec in Eb as [F1 F2]. destruct (decide (m = n)) as [->|Hmn].
    + rewrite (lblk_cached _ _ _ _ Hs' C'), E8. unfold lblk.
      rewrite (proj2 (holder_Some s l ROOTDEV n b Hs ltac:(done))) by done. done.
    + apply (lblk_other s s' l b); try done; intros (_ & _ & ? & _); congruence.
  - assert (b_refcnt (bf s b) = 0) as Hr.
    { destruct Hch as [?|[_ Hf]]; [congruence|]. apply find_some_1 in Hf as [_ Hu]. unfold unused in Hu. lia. }
    apply (lblk_other s s' l b); try done.
    + intros (_ & _ & <- & Hv). by apply (bio_clean _ _ Hs).
    + intros (_ & _ & <- & _). by rewrite E8, E2.
Qed.

Lemma bread_spec n s l :
  bio_ok s l → 0 <= n < d_size (bs_disk s) → takeable ROOTDEV n s l → wp (bread ROOTDEV n) (got n s l) s.
Proof.
  intros Hs Hn Ht. unfold bread. eapply wp_step; [by apply (bget_spec ROOTDEV n s l)|].
  intros b s1 (Hch & Hlk & Hpid & Hdk & Hb & Ho). apply wp_bind, wp_gets. rewrite Hb.
  set (x := taken ROOTDEV n (bs_pid s) s b) in *.
  eapply wp_step with (P := λ _ s2, bs_lk s2 ≡ bs_lk s ∧ bs_pid s2 = bs_pid s ∧ bs_disk s2 = bs_disk s ∧
    (∀ c, c ≠ b → bf s2 c = bf s c) ∧ loaded n s b (bf s2 b)).
  - unfold loaded. fold x. destruct (truthy (b_valid x)) eqn:Ev; [apply wp_ret; by rewrite Hb|].
    destruct (taken_fields n s b) as (_ & E2 & _). fold x in E2.
    unfold disk_rw. apply wp_bind, wp_bind, wp_getS. rewrite Hb, E2, Hdk. replace (_ && _) with true by lia.
    apply wp_modify, wp_modify. simpl. split_and!; try done.
    + intros c Hc. rewrite !buf_at_upd_ne by done. by apply Ho.
    + rewrite !buf_at_upd_eq. by rewrite Hb.
  - intros _ s2 (Hlk2 & Hpid2 & Hdk2 & Ho2 & Hy). apply wp_ret.
    pose proof (loaded_ok _ _ _ _ _ Hs Ht Hn Hch Hy) as Hok.
    assert (bio_ok s2 l) as Hs2 by (by apply (bio_ok_upd s s2 l b)).
    destruct (loaded_fields _ _ _ _ Hy) as (E1 & E2 & E3 & E4 & E5 & E6 & E7 & E8).
    split; try done.
    + split_and!; try done; [by rewrite E3, Hpid2|].
      destruct (bk_ref _ _ _ _ Hok). destruct (decide (b_refcnt (bf s2 b) = 0)) as [E0|]; [|lia].
      pose proof (bk_used _ _ _ _ Hok E0) as Hu. rewrite E3 in Hu. done.
    + by apply (loaded_lblk n s l b).
Qed.

(** ** The other operations *)

(** The fields of a buffer other than its links. *)
Definition core (x : buf) : Z * Z * Z * sleeplock * Z * block :=
  (b_valid x, b_dev x, b_blockno x, b_lock x, b_refcnt x, b_data x).

Lemma core_fields x y :
  core x = core y → b_valid x = b_valid y ∧ b_dev x = b_dev y ∧ b_blockno x = b_blockno y ∧ b_lock x = b_lock y ∧
  b_refcnt x = b_refcnt y ∧ b_data x = b_data y.
Proof. unfold core. intros [=]. done. Qed.

(** Only the order changed. *)
Lemma bio_ok_order s s' l l' :
  bio_ok s l → linked (bufs s') l' → l' ≡ₚ l → bs_lk s' ≡ bs_lk s → bs_disk s' = bs_disk s →
  (∀ c, c ∈ l → core (bf s' c) = core (bf s c)) → bio_ok s' l'.
Proof.
  intros Hs Hl Hp Hlk Hd Hc.
  assert (∀ c, c ∈ l' → c ∈ l) as Hin by (intros c; by rewrite Hp).
  split; try (intros b Hb%Hin; destruct (core_fields _ _ (Hc b Hb)) as (E1 & E2 & E3 & E4 & E5 & E6)).
  - done.
  - rewrite Hp. apply (bio_perm _ _ Hs).
  - rewrite E5. by apply (bio_ref _ _ Hs).
  - intros b c Hb%Hin Hcl%Hin. destruct (core_fields _ _ (Hc b Hb)) as (_ & E2 & E3 & _).
    destruct (core_fields _ _ (Hc c Hcl)) as (_ & F2 & F3 & _). rewrite E2, E3, F2, F3. by apply (bio_uniq _ _ Hs).
  - rewrite E4, E5. by apply (bio_used _ _ Hs).
  - rewrite E1, E3, E5, E6, Hd. by apply (bio_clean _ _ Hs).
  - rewrite E1, E2, E3, Hd. by apply (bio_range _ _ Hs).
  - rewrite E6. by apply (bio_size _ _ Hs).
  - intros n. rewrite Hd. by apply (bio_disk _ _ Hs).
  - rewrite Hlk. apply (bio_lk _ _ Hs).
  - rewrite Hlk. by apply (bio_lks _ _ Hs).
Qed.

Lemma find_ext (f g : Z → bool) l : (∀ x, x ∈ l → f x = g x) → List.find f l = List.find g l.
Proof.
  induction l as [|a l IH]; intros Hfg; simpl; [done|]. rewrite Hfg by set_solver.
  case_match; [done|]. apply IH. set_solver.
Qed.

Lemma lblk_core s s' m :
  bs_disk s' = bs_disk s → (∀ c, 0 <= c < 30 → core (bf s' c) = core (bf s c)) → lblk s' m = lblk s m.
Proof.
  intros Hd Hc. unfold lblk.
  assert (holder (bufs s') ROOTDEV m = holder (bufs s) ROOTDEV m) as ->.
  { apply find_ext. intros x Hx%elem_of_seqZ. destruct (core_fields _ _ (Hc x Hx)) as (_ & E2 & E3 & _).
    unfold is_block. by rewrite E2, E3. }
  destruct (holder (bufs s) ROOTDEV m) as [b|] eqn:E; rewrite Hd; [|done].
  apply find_some_1 in E as [Hb%elem_of_seqZ _]. destruct (core_fields _ _ (Hc b Hb)) as (-> & _ & _ & _ & _ & ->). done.
Qed.

(** The client changes the contents of a buffer it holds. *)
Definition bdata (b : Z) : M bst block := getb b_data b.
Definition bset (b : Z) (bs : block) : M bst unit := setb b (set_bdata bs).

Lemma bset_spec b n bs s l :
  bio_ok s l → b ∈ l → in_hand s b n → length bs = 1024%nat →
  wp (bset b bs) (λ _ s', bio_ok s' l ∧ same_env s s' ∧ bf s' b = set_bdata bs (bf s b) ∧
    (∀ c, c ≠ b → bf s' c = bf s c) ∧ ∀ m, lblk s' m = if m =? n then bs else lblk s m) s.
Proof.
  intros Hs Hb (E1 & E2 & E3 & E4 & E5) Hlen. apply wp_modify. set (s' := set_bufs _ s).
  assert (bf s' b = set_bdata bs (bf s b)) as Eb by apply buf_at_upd_eq.
  assert (∀ c, c ≠ b → bf s' c = bf s c) as Ho by (intros c Hc; by apply buf_at_upd_ne).
  assert (bio_ok s' l) as Hs'.
  { apply (bio_ok_upd s s' l b); try done. rewrite Eb. split; simpl; try done; try lia.
    - by apply (bio_ref _ _ Hs).
    - intros _ c Hc Hcb Ed E. destruct Hcb. apply (same_block s l c b Hs); congruence.
    - by apply (bio_range _ _ Hs). }
  split_and!; try done. intros m. destruct (Z.eqb_spec m n) as [->|Hmn].
  - rewrite (lblk_cached s' l n b) by (try done; unfold cached; by rewrite Eb). by rewrite Eb.
  - apply (lblk_other s s' l b); try done; unfold cached; rewrite ?Eb; simpl; intros (_ & _ & ? & _); congruence.
Qed.

Lemma holding_buf_run b s :
  lockable (LK_BUF b) (bs_lk s) →
  ∃ lk, lk ≡ bs_lk s ∧
    holding_buf b s = Ok (truthy (sl_locked (b_lock (bf s b))) && (sl_pid (b_lock (bf s b)) =? bs_pid s), set lk s).
Proof.
  intros Hl. unfold holding_buf, bind, getb, gets, zoom.
  destruct (holdingsleep_run (bs_pid s) (LK_BUF b) (b_lock (bf s b)) _ Hl) as (lk & E & He). simpl in *. rewrite E. eauto.
Qed.

Lemma wp_holding_buf b n s l Q :
  bio_ok s l → b ∈ l → in_hand s b n → (∀ lk, lk ≡ bs_lk s → Q true (set lk s)) → wp (holding_buf b) Q s.
Proof.
  intros Hs Hb (_ & _ & _ & E & _) HQ. destruct (holding_buf_run b s (bio_lks _ _ Hs b Hb)) as (lk & He & Er).
  eapply wp_eq; [exact Er|]. rewrite E. simpl. rewrite Z.eqb_refl. by apply HQ.
Qed.

Lemma dread_dwrite n bs d m : dread (dwrite n bs d) m = if m =? n then bs else dread d m.
Proof.
  unfold dread, dwrite. simpl. destruct (Z.eqb_spec m n) as [->|]; [by rewrite lookup_insert_eq|by rewrite lookup_insert_ne].
Qed.

(** [bwrite] makes the disk agree with the buffer. *)
Lemma bwrite_spec b n s l :
  bio_ok s l → b ∈ l → in_hand s b n →
  wp (bwrite b) (λ _ s', bio_ok s' l ∧ bs_lk s' ≡ bs_lk s ∧ bs_pid s' = bs_pid s ∧ bufs s' = bufs s ∧
    bs_disk s' = dwrite n (b_data (bf s b)) (bs_disk s) ∧ ∀ m, lblk s' m = lblk s m) s.
Proof.
  intros Hs Hb Hh. unfold bwrite. eapply wp_bind, wp_holding_buf; [done..|]. intros lk Hlk. simpl negb. cbv iota.
  destruct Hh as (E1 & E2 & E3 & E4 & E5). unfold disk_rw. apply wp_bind, wp_getS. simpl.
  destruct (bio_range _ _ Hs b Hb E3) as [_ Hr]. replace (_ && _) with true by lia. apply wp_modify. simpl.
  rewrite E2 in *. set (s' := set_disk _ _).
  assert (∀ c, c ∈ l → b_valid (bf s c) ≠ 0 → b_blockno (bf s c) = n → c = b) as Hu.
  { intros c Hc Hv En. destruct (bio_range _ _ Hs c Hc Hv) as [Ed _]. apply (same_block s l c b Hs); congruence. }
  assert (bio_ok s' l) as Hs'.
  { destruct Hs. split; simpl; try done; rewrite ?Hlk; try done.
    - intros c Hc Hr0 Hv. rewrite dread_dwrite. destruct (Z.eqb_spec (b_blockno (bf s c)) n) as [En|]; [|by auto].
      rewrite (Hu c) in Hr0 by done. lia.
    - intros m. rewrite dread_dwrite. case_match; auto.
    - intros c Hc. rewrite Hlk. auto. }
  split_and!; try done. intros m.
  destruct (lblk_cases s' l m Hs') as [(c & C')|(N' & ->)].
  - rewrite (lblk_cached _ _ _ _ Hs' C'), (lblk_cached s l m c Hs C'). done.
  - simpl. rewrite dread_dwrite. destruct (Z.eqb_spec m n) as [->|Hmn]; [by destruct (N' b)|].
    destruct (lblk_cases s l m Hs) as [(c & C)|(_ & ->)]; [by destruct (N' c)|done].
Qed.

(** A change of the reference count of a buffer that stays in use. *)
Definition recounted (b r : Z) (s : bst) (l : list Z) (s' : bst) : Prop :=
  bio_ok s' l ∧ same_env s s' ∧ bf s' b = set_refcnt r (bf s b) ∧ (∀ c, c ≠ b → bf s' c = bf s c) ∧
  ∀ m, lblk s' m = lblk s m.

Lemma recount b r s l lk :
  bio_ok s l → b ∈ l → 0 < b_refcnt (bf s b) → 0 < r < 2 ^ 32 → lk ≡ bs_lk s →
  recounted b r s l (set lk (set_bufs (upd b (set_refcnt r) (bufs s)) s)).
Proof.
  intros Hs Hb H0 Hr Hlk. set (s' := set lk _).
  assert (bf s' b = set_refcnt r (bf s b)) as Eb by apply buf_at_upd_eq.
  assert (∀ c, c ≠ b → bf s' c = bf s c) as Ho by (intros c Hc; by apply buf_at_upd_ne).
  assert (bio_ok s' l) as Hs'.
  { apply (bio_ok_upd s s' l b); try done. rewrite Eb. split; simpl; try done; try lia.
    - intros Hd c Hc Hcb Ed E. destruct Hcb. apply (bio_uniq _ _ Hs); congruence.
    - by apply (bio_range _ _ Hs).
    - by apply (bio_size _ _ Hs). }
  split_and!; try done. intros m. apply (lblk_same s s' l b); try done; by rewrite Eb.
Qed.

Lemma bpin_spec b s l :
  bio_ok s l → b ∈ l → 0 < b_refcnt (bf s b) → b_refcnt (bf s b) + 1 < 2 ^ 32 →
  wp (bpin b) (λ _ s', recounted b (b_refcnt (bf s b) + 1) s l s') s.
Proof.
  intros Hs Hb H0 H1. unfold bpin. apply wp_bind, wp_acquire; [apply (bio_lk _ _ Hs)|]. apply wp_bind, wp_modify.
  apply (wp_release _ (bs_lk s)); [apply (bio_lk _ _ Hs)|done|]. intros lk Hlk.
  pose proof (recount b (b_refcnt (bf s b) + 1) s l lk Hs Hb H0 ltac:(lia) Hlk) as Hr. unfold upd in *.
  rewrite <- (wrap_small 32 (b_refcnt (bf s b) + 1)) in Hr at 2 by lia. exact Hr.
Qed.

Lemma bunpin_spec b s l :
  bio_ok s l → b ∈ l → 1 < b_refcnt (bf s b) →
  wp (bunpin b) (λ _ s', recounted b (b_refcnt (bf s b) - 1) s l s') s.
Proof.
  intros Hs Hb H1. pose proof (bio_ref _ _ Hs b Hb) as Hr0.
  unfold bunpin. apply wp_bind, wp_acquire; [apply (bio_lk _ _ Hs)|]. apply wp_bind, wp_modify.
  apply (wp_release _ (bs_lk s)); [apply (bio_lk _ _ Hs)|done|]. intros lk Hlk.
  pose proof (recount b (b_refcnt (bf s b) - 1) s l lk Hs Hb ltac:(lia) ltac:(lia) Hlk) as Hr. unfold upd in *.
  rewrite <- (wrap_small 32 (b_refcnt (bf s b) - 1)) in Hr at 2 by lia. exact Hr.
Qed.

(** *** [brelse] *)

(** The buffer, unlocked and with one reference less. *)
Definition dropped (x : buf) : buf := set_refcnt (b_refcnt x - 1) (set_block (mkSleeplock 0 0) x).

(** The order of use after [brelse]. *)
Definition order_after (b : Z) (s : bst) (l l' : list Z) : Prop :=
  if b_refcnt (bf s b) =? 1 then ∃ l1 l2, l = l1 ++ b :: l2 ∧ l' = b :: l1 ++ l2 else l' = l.

Lemma core_next i v t c : core (buf_at (upd i (set_next v) t) c) = core (buf_at t c).
Proof. rewrite buf_at_upd. case_decide; subst; done. Qed.

Lemma core_prev i v t c : core (buf_at (upd i (set_prev v) t) c) = core (buf_at t c).
Proof. rewrite buf_at_upd. case_decide; subst; done. Qed.

Lemma core_unlinked b t c : core (buf_at (unlinked b t) c) = core (buf_at t c).
Proof. unfold unlinked. by rewrite core_next, core_prev. Qed.

Lemma core_pushed b t c : core (buf_at (pushed b t) c) = core (buf_at t c).
Proof. unfold pushed. by rewrite core_next, !core_prev, core_next. Qed.

(** What the code of [brelse] does to the links of the last user's buffer. *)
Lemma relink_run b s :
  (let! n := getb b_next b in
   let! p := getb b_prev b in
   setb n (set_prev p) ;;
   setb p (set_next n) ;;
   let! hn := getb b_next HEAD in
   setb b (set_next hn) ;;
   setb b (set_prev HEAD) ;;
   setb hn (set_prev b) ;;
   setb HEAD (set_next b)) s = Ok (tt, set_bufs (pushed b (unlinked b (bufs s))) s).
Proof. reflexivity. Qed.

Record released (b : Z) (s : bst) (s' : bst) : Prop := {
  rel_env : same_env s s';
  rel_b : core (bf s' b) = core (dropped (bf s b));
  rel_other : ∀ c, c ≠ b → core (bf s' c) = core (bf s c);
  rel_lblk : ∀ m, lblk s' m = lblk s m
}.

Lemma dropped_ok b n s l :
  bio_ok s l → b ∈ l → in_hand s b n → (b_refcnt (bf s b) = 1 → b_data (bf s b) = dread (bs_disk s) n) →
  buf_ok s l b (dropped (bf s b)).
Proof.
  intros Hs Hb (E1 & E2 & E3 & E4 & E5) Hc. pose proof (bio_ref _ _ Hs b Hb). split; simpl; try done; try lia.
  - intros _ c Hcl Hcb Ed E. destruct Hcb. apply (same_block s l c b Hs); congruence.
  - intros. rewrite E2. apply Hc. lia.
  - by apply (bio_range _ _ Hs).
  - by apply (bio_size _ _ Hs).
Qed.

Lemma dropped_state b n s l t lk :
  bio_ok s l → b ∈ l → in_hand s b n → (b_refcnt (bf s b) = 1 → b_data (bf s b) = dread (bs_disk s) n) →
  lk ≡ bs_lk s → buf_at t b = dropped (bf s b) → (∀ c, c ≠ b → buf_at t c = bf s c) →
  let t' := if b_refcnt (bf s b) =? 1 then pushed b (unlinked b t) else t in
  let s' := mkBst lk (bs_pid s) t' (bs_disk s) in
  ∃ l', bio_ok s' l' ∧ order_after b s l l' ∧ released b s s'.
Proof.
  intros Hs Hb Hh Hc Hlk Eb Ho t' s'. set (s1 := mkBst lk (bs_pid s) t (bs_disk s)).
  assert (bio_ok s1 l) as Hs1.
  { apply (bio_ok_upd s s1 l b); try done. simpl. rewrite Eb. by eapply dropped_ok. }
  assert (∀ m, lblk s1 m = lblk s m) as Hl1.
  { intros m. apply (lblk_same s s1 l b); try done; simpl; by rewrite Eb. }
  assert (∀ c, core (bf s' c) = core (bf s1 c)) as Hcore.
  { intros c. simpl. unfold t'. case_match; [|done]. by rewrite core_pushed, core_unlinked. }
  assert (∃ l', bio_ok s' l' ∧ order_after b s l l') as (l' & Hs' & Hord).
  { unfold order_after. unfold s', t'. destruct (Z.eqb_spec (b_refcnt (bf s b)) 1) as [E|E]; [|by exists l].
    apply list_elem_of_split in Hb as (l1 & l2 & ->). pose proof (bio_NoDup _ _ Hs) as Hnd.
    exists (b :: l1 ++ l2). split; [|by eauto]. apply (bio_ok_order s1 _ (l1 ++ b :: l2)); try done.
    - simpl. apply linked_pushed; [by apply linked_unlinked; [apply (bio_linked _ _ Hs1)|]|].
      rewrite <- Permutation_middle in Hnd. done.
    - apply Permutation_middle. }
  exists l'. split_and!; [done|done|]. split; try done.
  - rewrite Hcore. simpl. by rewrite Eb.
  - intros c Hcb. rewrite Hcore. simpl. by rewrite Ho.
  - intros m. rewrite <- Hl1. by apply lblk_core.
Qed.

Lemma brelse_spec b n s l :
  bio_ok s l → b ∈ l → in_hand s b n → (b_refcnt (bf s b) = 1 → b_data (bf s b) = dread (bs_disk s) n) →
  wp (brelse b) (λ _ s', ∃ l', bio_ok s' l' ∧ order_after b s l l' ∧ released b s s') s.
Proof.
  intros Hs Hb Hh Hc. pose proof (bio_ref _ _ Hs b Hb) as Hr.
  unfold brelse. eapply wp_bind, wp_holding_buf; [done..|]. intros lk1 Hlk1. simpl negb. cbv iota.
  apply wp_bind, wp_gets. destruct (releasesleep_run (LK_BUF b) (b_lock (bf s b)) lk1) as (lk2 & Er & Hlk2).
  { rewrite Hlk1. by apply (bio_lks _ _ Hs). }
  apply wp_bind. unfold zoom at 1. eapply wp_eq; [simpl; by rewrite Er|]. apply wp_bind, wp_modify.
  assert (lockable LK_BCACHE lk2) as Hl2 by (rewrite Hlk2, Hlk1; apply (bio_lk _ _ Hs)).
  apply wp_bind, wp_acquire; [done|]. apply wp_bind, wp_modify. apply wp_bind, wp_gets.
  cbn [bufs set bst_lk set_bufs]. rewrite buf_at_upd_eq. cbn [b_refcnt set_refcnt]. rewrite buf_at_upd_eq. cbn [b_refcnt set_block].
  pose proof Hh as (_ & _ & _ & _ & E5). rewrite (wrap_small 32) by lia.
  set (t := upd b _ (upd b _ (bufs s))).
  assert (buf_at t b = dropped (bf s b)) as Eb.
  { unfold t. rewrite !buf_at_upd_eq. unfold dropped. cbn [b_refcnt set_block]. rewrite (wrap_small 32) by lia. done. }
  assert (∀ c, c ≠ b → buf_at t c = bf s c) as Ho by (intros c Hcb; unfold t; by rewrite !buf_at_upd_ne).
  assert ((b_refcnt (bf s b) - 1 =? 0) = (b_refcnt (bf s b) =? 1)) as -> by lia.
  pose proof (λ lk Hlk, dropped_state b n s l t lk Hs Hb Hh Hc Hlk Eb Ho) as Hfin. cbv zeta in Hfin.
  destruct (b_refcnt (bf s b) =? 1); apply wp_bind; [eapply wp_eq; [apply relink_run|]|apply wp_ret];
    (apply (wp_release _ lk2); [done|done|]; intros lk3 Hlk3; apply Hfin; by rewrite Hlk3, Hlk2).
Qed.
