(* ===== verification/Cache.v ===== *)
(** * Buffers held, pinned and changed

    The cache as the log uses it.  [H] lists the buffers the process holds
    with their block numbers, [P] the blocks pinned by the log, [U] the blocks
    whose buffer differs from the disk without being pinned.  Every reference
    count is accounted for, so that [bget] finds a buffer as long as fewer
    than [NBUF] blocks are held or pinned. *)

From Stdlib Require Import ZifyBool.
From S2P Require Import Prelude Random Spinlock Block Bio BioSpec.

Definition is_locked (s : bst) (b : Z) : bool := truthy (sl_locked (b_lock (bf s b))).
Definition pinned (s : bst) (P : list Z) (b : Z) : bool :=
  bool_decide (b_dev (bf s b) = ROOTDEV ∧ b_blockno (bf s b) ∈ P).

Record cache_ok (s : bst) (l : list Z) (H : list (Z * Z)) (U P : list Z) : Prop := {
  co_bio : bio_ok s l;
  co_refs : ∀ b, b ∈ l → b_refcnt (bf s b) = b2z (pinned s P b) + b2z (is_locked s b);
  co_nodup : NoDup H.*1;
  co_held : ∀ b n, (b, n) ∈ H → b ∈ l ∧ in_hand s b n;
  co_locked : ∀ b, b ∈ l → is_locked s b = true → b ∈ H.*1;
  co_clean : ∀ b, b ∈ l → b_valid (bf s b) ≠ 0 → b_blockno (bf s b) ∉ P → b_blockno (bf s b) ∉ U →
    b_data (bf s b) = dread (bs_disk s) (b_blockno (bf s b));
  co_dirty : ∀ n, n ∈ U → n ∈ H.*2;
  co_pinned : ∀ n, n ∈ P → ∃ b, cached s l n b;
  co_P : NoDup P
}.
Arguments co_bio {_ _ _ _ _}.
Arguments co_refs {_ _ _ _ _}.
Arguments co_nodup {_ _ _ _ _}.
Arguments co_held {_ _ _ _ _}.
Arguments co_locked {_ _ _ _ _}.
Arguments co_clean {_ _ _ _ _}.
Arguments co_dirty {_ _ _ _ _}.
Arguments co_pinned {_ _ _ _ _}.
Arguments co_P {_ _ _ _ _}.

Definition cache (s : bst) (H : list (Z * Z)) (U P : list Z) : Prop := ∃ l, cache_ok s l H U P.

Lemma in_snd (H : list (Z * Z)) n : n ∈ H.*2 ↔ ∃ b, (b, n) ∈ H.
Proof.
  rewrite list_elem_of_fmap. split.
  - intros ([b m] & -> & Hin). by exists b.
  - intros (b & Hin). by exists (b, n).
Qed.

Lemma in_fst (H : list (Z * Z)) b : b ∈ H.*1 ↔ ∃ n, (b, n) ∈ H.
Proof.
  rewrite list_elem_of_fmap. split.
  - intros ([c m] & -> & Hin). by exists m.
  - intros (n & Hin). by exists (b, n).
Qed.

Lemma held_locked s l H U P b n : cache_ok s l H U P → (b, n) ∈ H → is_locked s b = true.
Proof. intros Hc Hin. destruct (co_held Hc b n Hin) as (_ & _ & _ & _ & E & _). unfold is_locked. by rewrite E. Qed.

Lemma held_cached s l H U P b n : cache_ok s l H U P → (b, n) ∈ H → cached s l n b.
Proof. intros Hc Hin. by destruct (co_held Hc b n Hin) as (? & ? & ? & ? & _). Qed.

Lemma held_inj s l H U P b c n : cache_ok s l H U P → (b, n) ∈ H → (c, n) ∈ H → b = c.
Proof.
  intros Hc Hb Hcn. destruct (held_cached _ _ _ _ _ _ _ Hc Hb) as (? & ? & ? & _), (held_cached _ _ _ _ _ _ _ Hc Hcn) as (? & ? & ? & _).
  eapply same_block; try done; [apply Hc|congruence].
Qed.

(** The contents of a held block are those of its buffer. *)
Lemma held_data s l H U P b n : cache_ok s l H U P → (b, n) ∈ H → b_data (bf s b) = lblk s n.
Proof. intros Hc Hin. symmetry. eapply lblk_cached; [apply Hc|by eapply held_cached]. Qed.

(** A block neither pinned nor changed is on the disk as the cache shows it. *)
Lemma clean_lblk s H U P n : cache s H U P → n ∉ P → n ∉ U → lblk s n = dread (bs_disk s) n.
Proof.
  intros [l Hc] Hp Hu. pose proof (co_bio Hc) as Hb.
  destruct (lblk_cases s l n Hb) as [(b & C)|(_ & ->)]; [|done].
  rewrite (lblk_cached _ _ _ _ Hb C). destruct C as (Hl & _ & <- & Hv). by apply (co_clean Hc).
Qed.

(** [U] may be weakened to other held blocks. *)
Lemma cache_weaken s l H U U' P :
  cache_ok s l H U P → (∀ n, n ∈ U → n ∈ U') → (∀ n, n ∈ U' → n ∈ H.*2) → cache_ok s l H U' P.
Proof. intros [] HU HU'. split; try done. intros b Hb Hv Hp Hu. apply co_clean0; try done. auto. Qed.

(** ** There is a buffer *)

Lemma NoDup_length_le (l k : list Z) : NoDup l → (∀ x, x ∈ l → x ∈ k) → (length l <= length k)%nat.
Proof. intros Hnd Hin. by apply submseteq_length, NoDup_submseteq. Qed.

Lemma free_buffer s l H U P :
  cache_ok s l H U P → (length H + length P < NBUF)%nat → ∃ b, b ∈ l ∧ b_refcnt (bf s b) = 0.
Proof.
  intros Hc Hlen. pose proof (co_bio Hc) as Hb.
  destruct (decide (Exists (λ b, b_refcnt (bf s b) = 0) l)) as [He|Hne].
  { apply Exists_exists in He as (b & Hin & E). eauto. }
  exfalso. assert (∀ b, b ∈ l → is_locked s b = true ∨ pinned s P b = true) as Hall.
  { intros b Hin. destruct (is_locked s b) eqn:E1, (pinned s P b) eqn:E2; auto. destruct Hne. apply Exists_exists.
    exists b. split; [done|]. rewrite (co_refs Hc) by done. by rewrite E1, E2. }
  set (l1 := filter (λ b, is_locked s b = true) l). set (l2 := filter (λ b, is_locked s b ≠ true) l).
  assert (length l = (length l1 + length l2)%nat) as E.
  { rewrite <- length_app. apply Permutation_length. unfold l1, l2. symmetry. apply filter_app_complement. }
  pose proof (bio_NoDup _ _ Hb) as [_ Hnd]%NoDup_cons.
  assert (length l1 <= length H.*1)%nat as H1.
  { apply NoDup_length_le; [by apply NoDup_filter|]. intros b [E1 Hin]%list_elem_of_filter. by apply (co_locked Hc). }
  assert (∀ b, b ∈ l2 → b ∈ l ∧ b_dev (bf s b) = ROOTDEV ∧ b_blockno (bf s b) ∈ P) as H2.
  { intros b [E1 Hin]%list_elem_of_filter. destruct (Hall b Hin) as [|Hp]; [done|]. by apply bool_decide_eq_true in Hp. }
  assert (length ((λ b, b_blockno (bf s b)) <$> l2) <= length P)%nat as H3.
  { apply NoDup_length_le.
    - apply NoDup_fmap_2_strong; [|by apply NoDup_filter]. intros b c Hb2 Hc2 Eq.
      destruct (H2 b Hb2) as (? & ? & _), (H2 c Hc2) as (? & ? & _). by eapply same_block.
    - intros n (b & -> & Hin)%list_elem_of_fmap. by apply H2. }
  rewrite length_fmap in H1. rewrite length_fmap in H3. pose proof (bio_length _ _ Hb). lia.
Qed.

(** ** The operations *)

(** The rest of the state is as it was, up to the balance of locks. *)
Lemma same_env_refl s : same_env s s.
Proof. done. Qed.

Lemma same_env_trans s1 s2 s3 : same_env s1 s2 → same_env s2 s3 → same_env s1 s3.
Proof. intros (? & ? & ?) (E & ? & ?). split_and!; [by rewrite E|congruence|congruence]. Qed.

Lemma pinned_core s s' P b : core (bf s' b) = core (bf s b) → pinned s' P b = pinned s P b.
Proof. intros (_ & E1 & E2 & _)%core_fields. unfold pinned. by rewrite E1, E2. Qed.

Lemma locked_core s s' b : core (bf s' b) = core (bf s b) → is_locked s' b = is_locked s b.
Proof. intros (_ & _ & _ & E & _)%core_fields. unfold is_locked. by rewrite E. Qed.

Lemma in_hand_core s s' b n :
  core (bf s' b) = core (bf s b) → bs_pid s' = bs_pid s → in_hand s b n → in_hand s' b n.
Proof. intros (E1 & E2 & E3 & E4 & E5 & _)%core_fields Ep. unfold in_hand. by rewrite E1, E2, E3, E4, E5, Ep. Qed.

Lemma cached_core s s' l l' b n :
  core (bf s' b) = core (bf s b) → (b ∈ l → b ∈ l') → cached s l n b → cached s' l' n b.
Proof. intros (E1 & E2 & E3 & _)%core_fields Hl. unfold cached. rewrite E1, E2, E3. naive_solver. Qed.

Lemma bread_cache n s H U P :
  cache s H U P → n ∉ H.*2 → 0 <= n < d_size (bs_disk s) → n ∈ P ∨ (length H + length P < NBUF)%nat →
  wp (bread ROOTDEV n) (λ b s', cache s' ((b, n) :: H) U P ∧ same_env s s' ∧ ∀ m, lblk s' m = lblk s m) s.
Proof.
  intros [l Hc] Hn Hr Hlen. pose proof (co_bio Hc) as Hb.
  assert (∀ b, b ∈ l → is_block (bufs s) ROOTDEV n b = true → is_locked s b = false) as Hfree.
  { intros b Hin [E1 E2]%is_block_spec. destruct (is_locked s b) eqn:E; [|done]. destruct Hn.
    apply (co_locked Hc) in E; [|done]. apply in_fst in E as (m & Hm).
    destruct (co_held Hc b m Hm) as (_ & _ & E3 & _). apply in_snd. exists b. congruence. }
  eapply wp_mono; [apply bread_spec; [done|done|]|].
  { split; [|destruct Hlen as [Hp|Hlen]; [left|right; by eapply free_buffer]].
    2: { destruct (co_pinned Hc n Hp) as (b & Hin & E1 & E2 & _). exists b. split; [done|]. by apply is_block_spec. }
    intros b Hin Eb. pose proof (Hfree b Hin Eb) as El. split.
    - unfold is_locked, truthy in El. lia.
    - rewrite (co_refs Hc) by done. unfold b2z. repeat case_match; lia. }
  intros b s' [[Hbl Hch] Hok Henv Ho Hhand Hrc Hl]. split_and!; [|done|done]. exists l.
  assert (is_locked s b = false) as Elb.
  { destruct Hch as [Eb|[_ Ef]]; [by apply Hfree|]. apply find_some_1 in Ef as [_ Eu]. unfold unused in Eu.
    unfold is_locked. rewrite (bio_used _ _ Hb b Hbl) by lia. done. }
  assert (b ∉ H.*1) as HbH. { intros (m & Hm)%in_fst. pose proof (held_locked _ _ _ _ _ _ _ Hc Hm). congruence. }
  pose proof Hhand as (F1 & F2 & F3 & F4 & F5). destruct Henv as (Hlk & Hpid & Hdk).
  split; try done.
  - intros c Hcl. destruct (decide (c = b)) as [->|Hcb].
    + assert (is_locked s' b = true) as -> by (unfold is_locked; by rewrite F4).
      rewrite Hrc. destruct (is_block (bufs s) ROOTDEV n b) eqn:Eb.
      * rewrite (co_refs Hc) by done. rewrite Elb. apply is_block_spec in Eb as [E1 E2].
        assert (pinned s' P b = pinned s P b) as ->; [|simpl; lia]. unfold pinned. by rewrite F1, F2, E1, E2.
      * assert (pinned s' P b = false) as ->; [|done]. apply bool_decide_eq_false. rewrite F2. intros [_ Hp].
        destruct Hch as [?|[Eh _]]; [congruence|]. destruct (co_pinned Hc n Hp) as (c & Hcl' & E1 & E2 & _).
        rewrite (proj2 (holder_Some s l ROOTDEV n c Hb ltac:(done))) in Eh; done.
    + rewrite Ho by done. rewrite (pinned_core s), (locked_core s) by (by rewrite Ho). by apply (co_refs Hc).
  - simpl. apply NoDup_cons. split; [done|apply (co_nodup Hc)].
  - intros c m [[= -> ->]|Hin]%elem_of_cons; [done|]. destruct (co_held Hc c m Hin) as [Hcl Hh]. split; [done|].
    apply (in_hand_core s); [|done|done]. rewrite Ho; [done|]. intros ->. apply HbH, in_fst. eauto.
  - intros c Hcl El. simpl. destruct (decide (c = b)) as [->|Hcb]; [by left|right].
    apply (co_locked Hc); [done|]. by rewrite <- (locked_core s s') by (by rewrite Ho).
  - intros c Hcl Hv Hp Hu. rewrite Hdk. destruct (decide (c = b)) as [->|Hcb].
    + rewrite F2 in *. rewrite <- (lblk_cached s' l n b Hok), Hl by done. by apply (clean_lblk s H U P); [by exists l|..].
    + rewrite Ho in * by done. by apply (co_clean Hc).
  - intros m Hm%(co_dirty Hc). simpl. by right.
  - intros m Hm. destruct (co_pinned Hc m Hm) as (c & C). destruct (decide (c = b)) as [->|Hcb].
    + assert (m = n) as ->; [|by exists b]. destruct C as (_ & E1 & E2 & Hv). destruct Hch as [[_ E]%is_block_spec|[_ Ef]]; [congruence|].
      apply find_some_1 in Ef as [_ Eu]. unfold unused in Eu. rewrite (co_refs Hc) in Eu by done.
      assert (pinned s P b = true) as Ep by (apply bool_decide_eq_true; by rewrite E2). rewrite Ep, Elb in Eu. done.
    + exists c. apply (cached_core s s' l l); [by rewrite Ho|done|done].
  - apply (co_P Hc).
Qed.

(** The other operations change one held buffer [b], of block [n]. *)
Record changes (s s' : bst) (l' : list Z) (H' : list (Z * Z)) (U U' P P' : list Z) (b n : Z) (l : list Z) (H : list (Z * Z)) : Prop := {
  ch_bio : bio_ok s' l';
  ch_perm : l' ≡ₚ l;
  ch_pid : bs_pid s' = bs_pid s;
  ch_other : ∀ c, c ≠ b → core (bf s' c) = core (bf s c);
  ch_same : b_valid (bf s' b) = b_valid (bf s b) ∧ b_dev (bf s' b) = b_dev (bf s b) ∧ b_blockno (bf s' b) = b_blockno (bf s b);
  ch_refs : b_refcnt (bf s' b) = b2z (bool_decide (n ∈ P')) + b2z (is_locked s' b);
  ch_P : ∀ m, m ≠ n → m ∈ P' ↔ m ∈ P;
  ch_nodup : NoDup P' ∧ NoDup H'.*1;
  ch_H : ∀ c m, c ≠ b → (c, m) ∈ H' ↔ (c, m) ∈ H;
  ch_Hb : is_locked s' b = true → b ∈ H'.*1;
  ch_hand : ∀ m, (b, m) ∈ H' → in_hand s' b m;
  ch_disk : ∀ m, m ≠ n → dread (bs_disk s') m = dread (bs_disk s) m;
  ch_U : ∀ m, m ≠ n → m ∈ U → m ∈ U';
  ch_clean : n ∉ P' → n ∉ U' → b_data (bf s' b) = dread (bs_disk s') n;
  ch_dirty : ∀ m, m ∈ U' → m ∈ H'.*2
}.
Arguments ch_bio {_ _ _ _ _ _ _ _ _ _ _ _}.
Arguments ch_perm {_ _ _ _ _ _ _ _ _ _ _ _}.
Arguments ch_pid {_ _ _ _ _ _ _ _ _ _ _ _}.
Arguments ch_other {_ _ _ _ _ _ _ _ _ _ _ _}.
Arguments ch_same {_ _ _ _ _ _ _ _ _ _ _ _}.
Arguments ch_refs {_ _ _ _ _ _ _ _ _ _ _ _}.
Arguments ch_P {_ _ _ _ _ _ _ _ _ _ _ _}.
Arguments ch_nodup {_ _ _ _ _ _ _ _ _ _ _ _}.
Arguments ch_H {_ _ _ _ _ _ _ _ _ _ _ _}.
Arguments ch_Hb {_ _ _ _ _ _ _ _ _ _ _ _}.
Arguments ch_hand {_ _ _ _ _ _ _ _ _ _ _ _}.
Arguments ch_disk {_ _ _ _ _ _ _ _ _ _ _ _}.
Arguments ch_U {_ _ _ _ _ _ _ _ _ _ _ _}.
Arguments ch_clean {_ _ _ _ _ _ _ _ _ _ _ _}.
Arguments ch_dirty {_ _ _ _ _ _ _ _ _ _ _ _}.

Lemma cache_change s s' l l' H H' U U' P P' b n :
  cache_ok s l H U P → (b, n) ∈ H → changes s s' l' H' U U' P P' b n l H → cache_ok s' l' H' U' P'.
Proof.
  intros Hc Hbn Ch. destruct (co_held Hc b n Hbn) as (Hbl & E1 & E2 & E3 & E4 & E5).
  destruct (ch_same Ch) as (F1 & F2 & F3).
  pose proof (ch_other Ch) as Ho.
  assert (∀ c, c ∈ l' → c ∈ l) as Hl by (intros c; by rewrite (ch_perm Ch)).
  assert (∀ c, c ∈ l → c ∈ l') as Hl' by (intros c; by rewrite (ch_perm Ch)).
  assert (∀ c, c ∈ l → c ≠ b → b_dev (bf s c) = ROOTDEV → b_blockno (bf s c) ≠ n) as Hne.
  { intros c Hcl Hcb Ed E. destruct Hcb. apply (same_block s l c b (co_bio Hc)); congruence. }
  split; try apply Ch.
  - intros c Hcl%Hl. destruct (decide (c = b)) as [->|Hcb].
    + rewrite (ch_refs Ch). do 2 f_equal. apply bool_decide_ext. rewrite F2, F3, E2. naive_solver.
    + destruct (core_fields _ _ (Ho c Hcb)) as (_ & G2 & G3 & _ & -> & _). rewrite (co_refs Hc) by done.
      rewrite (locked_core s s') by auto. do 2 f_equal. apply bool_decide_ext. rewrite G2, G3.
      pose proof (λ Ed, ch_P Ch _ (Hne c Hcl Hcb Ed)). naive_solver.
  - intros c m Hin. destruct (decide (c = b)) as [->|Hcb].
    + split; [auto|]. by apply (ch_hand Ch).
    + rewrite (ch_H Ch) in Hin by done. destruct (co_held Hc c m Hin) as [Hcl Hh].
      split; [auto|]. apply (in_hand_core s); [auto|apply (ch_pid Ch)|done].
  - intros c Hcl%Hl El. destruct (decide (c = b)) as [->|Hcb]; [by apply (ch_Hb Ch)|].
    rewrite (locked_core s s') in El by auto. apply (co_locked Hc) in El; [|done].
    apply in_fst in El as (m & Hm). apply in_fst. exists m. by apply (ch_H Ch).
  - intros c Hcl%Hl. destruct (decide (c = b)) as [->|Hcb].
    + rewrite F3, E2. intros _. apply (ch_clean Ch).
    + destruct (core_fields _ _ (Ho c Hcb)) as (-> & _ & -> & _ & _ & ->). intros Hv Hp Hu.
      destruct (bio_range _ _ (co_bio Hc) c Hcl Hv) as [Ed _]. pose proof (Hne c Hcl Hcb Ed) as Hn.
      rewrite (ch_disk Ch) by done. apply (co_clean Hc); try done.
      * by rewrite <- (ch_P Ch).
      * intros Hu0. by apply Hu, (ch_U Ch).
  - intros m Hm. destruct (decide (m = n)) as [->|Hmn].
    + exists b. split_and!; [auto|congruence..].
    + apply (ch_P Ch) in Hm; [|done]. destruct (co_pinned Hc m Hm) as (c & C).
      exists c. apply (cached_core s s' l l'); auto. apply Ho. intros ->. by destruct C as (_ & _ & ? & _); congruence.
Qed.

(** Changing the contents. *)
Lemma bset_cache b n bs s H U P :
  cache s H U P → (b, n) ∈ H → length bs = 1024%nat →
  wp (bset b bs) (λ _ s', cache s' H (n :: U) P ∧ same_env s s' ∧ ∀ m, lblk s' m = if m =? n then bs else lblk s m) s.
Proof.
  intros [l Hc] Hbn Hlen. destruct (co_held Hc b n Hbn) as (Hbl & Hh).
  eapply wp_mono; [by apply (bset_spec b n bs s l); [apply Hc|..]|].
  intros [] s' (Hok & (Hlk & Hpid & Hdk) & Eb & Ho & Hl). split_and!; try done. exists l.
  pose proof Hh as (E1 & E2 & E3 & E4 & E5).
  apply (cache_change s s' l l H H U (n :: U) P P b n Hc Hbn). split; try done; rewrite ?Eb; try done.
  - intros c Hcb. by rewrite Ho.
  - unfold is_locked. rewrite Eb. simpl. rewrite (co_refs Hc) by done. do 2 f_equal.
    apply bool_decide_ext. rewrite E2. naive_solver.
  - split; apply Hc.
  - intros _. apply in_fst. eauto.
  - intros m Hm. destruct (co_held Hc b m Hm) as (_ & G). unfold in_hand. rewrite Eb, Hpid. done.
  - by rewrite Hdk.
  - intros m _ Hm. by right.
  - intros _ []. by left.
  - intros m [->|Hm]%elem_of_cons; [apply in_snd; eauto|]. by apply (co_dirty Hc).
Qed.

Lemma bdata_cache b n s H U P Q :
  cache s H U P → (b, n) ∈ H → Q (lblk s n) s → wp (bdata b) Q s.
Proof. intros [l Hc] Hbn HQ. apply wp_gets. by erewrite held_data. Qed.

Lemma held_refs s l H U P b n :
  cache_ok s l H U P → (b, n) ∈ H → b_refcnt (bf s b) = b2z (bool_decide (n ∈ P)) + 1.
Proof.
  intros Hc Hbn. destruct (co_held Hc b n Hbn) as (Hbl & E1 & E2 & _).
  rewrite (co_refs Hc), (held_locked _ _ _ _ _ _ _ Hc Hbn) by done. simpl. do 2 f_equal.
  apply bool_decide_ext. rewrite E2. naive_solver.
Qed.

(** Writing a buffer to disk: it is clean again. *)
Lemma bwrite_cache b n s H U P :
  cache s H (n :: U) P → (b, n) ∈ H → n ∉ U →
  wp (bwrite b) (λ _ s', cache s' H U P ∧ bs_lk s' ≡ bs_lk s ∧ bs_pid s' = bs_pid s ∧
    bs_disk s' = dwrite n (lblk s n) (bs_disk s) ∧ ∀ m, lblk s' m = lblk s m) s.
Proof.
  intros [l Hc] Hbn HnU. destruct (co_held Hc b n Hbn) as (Hbl & Hh).
  eapply wp_mono; [by apply (bwrite_spec b n s l); [apply Hc|..]|].
  intros [] s' (Hok & Hlk & Hpid & Hbf & Hdk & Hl). rewrite (held_data _ _ _ _ _ _ _ Hc Hbn) in Hdk.
  split_and!; try done. exists l. pose proof Hh as (E1 & E2 & E3 & E4 & E5).
  apply (cache_change s s' l l H H (n :: U) U P P b n Hc Hbn). split; try done; rewrite ?Hbf; try done.
  - unfold is_locked. rewrite Hbf. fold (is_locked s b).
    by rewrite (held_refs _ _ _ _ _ _ _ Hc Hbn), (held_locked _ _ _ _ _ _ _ Hc Hbn).
  - split; apply Hc.
  - intros _. apply in_fst. eauto.
  - intros m Hm. destruct (co_held Hc b m Hm) as (_ & G). unfold in_hand. by rewrite Hbf, Hpid.
  - intros m Hm. rewrite Hdk, dread_dwrite. by rewrite (proj2 (Z.eqb_neq _ _)).
  - intros m Hmn [->|Hm]%elem_of_cons; done.
  - intros _ _. rewrite Hdk, dread_dwrite, Z.eqb_refl. by eapply held_data.
  - intros m Hm. apply (co_dirty Hc). by right.
Qed.

Lemma recounted_cache b n r s l s' H U U' P P' :
  cache_ok s l H U P → (b, n) ∈ H → recounted b r s l s' → r = b2z (bool_decide (n ∈ P')) + 1 →
  (∀ m, m ≠ n → m ∈ P' ↔ m ∈ P) → NoDup P' → (∀ m, m ≠ n → m ∈ U → m ∈ U') → (∀ m, m ∈ U' → m ∈ U) →
  (n ∉ P' → n ∉ U' → lblk s n = dread (bs_disk s) n) → cache_ok s' l H U' P'.
Proof.
  intros Hc Hbn (Hok & (Hlk & Hpid & Hdk) & Eb & Ho & Hl) Hr HP Hnd HU HU' Hcl.
  apply (cache_change s s' l l H H U U' P P' b n Hc Hbn). split; try done; rewrite ?Eb; try done.
  - intros c Hcb. by rewrite Ho.
  - unfold is_locked. rewrite Eb. simpl. fold (is_locked s b). by rewrite (held_locked _ _ _ _ _ _ _ Hc Hbn), Hr.
  - split; [done|apply Hc].
  - intros _. apply in_fst. eauto.
  - intros m Hm. destruct (co_held Hc b m Hm) as (_ & G1 & G2 & G3 & G4 & G5). unfold in_hand. rewrite Eb, Hpid. simpl.
    split_and!; try done. rewrite Hr. unfold b2z. case_match; lia.
  - by rewrite Hdk.
  - intros H1 H2. simpl. rewrite Hdk. rewrite (held_data _ _ _ _ _ _ _ Hc Hbn). auto.
  - intros m Hm. apply (co_dirty Hc). auto.
Qed.

(** The log pins a changed block. *)
Lemma bpin_cache b n s H U P :
  cache s H (n :: U) P → (b, n) ∈ H → n ∉ P →
  wp (bpin b) (λ _ s', cache s' H U (P ++ [n]) ∧ same_env s s' ∧ ∀ m, lblk s' m = lblk s m) s.
Proof.
  intros [l Hc] Hbn HnP. destruct (co_held Hc b n Hbn) as (Hbl & Hh). pose proof Hh as (_ & _ & _ & _ & E5).
  pose proof (held_refs _ _ _ _ _ _ _ Hc Hbn) as Er. rewrite bool_decide_eq_false_2 in Er by done. simpl in Er.
  eapply wp_mono; [apply (bpin_spec b s l); [apply Hc|done|done|lia]|].
  intros [] s' Hrec. pose proof Hrec as (_ & Henv & _ & _ & Hl). split_and!; try done. exists l.
  eapply (recounted_cache b n _ s l s' H (n :: U) U P (P ++ [n]) Hc Hbn Hrec).
  - rewrite bool_decide_eq_true_2 by (apply elem_of_app; right; by left). simpl. lia.
  - intros m Hm. rewrite elem_of_app, list_elem_of_singleton. naive_solver.
  - apply NoDup_app. split_and!; [apply Hc| |apply NoDup_singleton]. intros m Hm ->%list_elem_of_singleton. done.
  - intros m Hm [->|?]%elem_of_cons; done.
  - intros m Hm. by right.
  - intros []. apply elem_of_app. right. by left.
Qed.

(** Absorption: the block is pinned already. *)
Lemma pinned_cache n s H U P : cache s H (n :: U) P → n ∈ P → cache s H U P.
Proof.
  intros [l Hc] Hn. exists l. destruct Hc as [C1 C2 C3 C4 C5 C6 C7 C8 C9]. split; try done.
  - intros b Hb Hv Hp Hu. apply C6; try done. intros [E|?]%elem_of_cons; [by rewrite E in Hp|done].
  - intros m Hm. apply C7. by right.
Qed.

(** The block is on disk: it need not be pinned any more. *)
Lemma bunpin_cache b n s H U P1 P2 :
  cache s H U (P1 ++ n :: P2) → (b, n) ∈ H → lblk s n = dread (bs_disk s) n →
  wp (bunpin b) (λ _ s', cache s' H U (P1 ++ P2) ∧ same_env s s' ∧ ∀ m, lblk s' m = lblk s m) s.
Proof.
  intros [l Hc] Hbn Hd. destruct (co_held Hc b n Hbn) as (Hbl & Hh).
  pose proof (held_refs _ _ _ _ _ _ _ Hc Hbn) as Er. rewrite bool_decide_eq_true_2 in Er by set_solver. simpl in Er.
  eapply wp_mono; [apply (bunpin_spec b s l); [apply Hc|done|lia]|].
  intros [] s' Hrec. pose proof Hrec as (_ & Henv & _ & _ & Hl). split_and!; try done. exists l.
  pose proof (co_P Hc) as Hnd. rewrite <- Permutation_middle in Hnd. apply NoDup_cons in Hnd as [HnP Hnd].
  eapply (recounted_cache b n _ s l s' H U U _ (P1 ++ P2) Hc Hbn Hrec); try done.
  - rewrite bool_decide_eq_false_2 by done. simpl. lia.
  - set_solver.
Qed.

Lemma brelse_cache b n s H1 H2 U P :
  cache s (H1 ++ (b, n) :: H2) U P → n ∉ U →
  wp (brelse b) (λ _ s', cache s' (H1 ++ H2) U P ∧ same_env s s' ∧ ∀ m, lblk s' m = lblk s m) s.
Proof.
  intros [l Hc] HnU. assert ((b, n) ∈ H1 ++ (b, n) :: H2) as Hbn by set_solver.
  destruct (co_held Hc b n Hbn) as (Hbl & Hh). pose proof Hh as (E1 & E2 & E3 & E4 & E5).
  pose proof (held_refs _ _ _ _ _ _ _ Hc Hbn) as Er.
  eapply wp_mono; [apply (brelse_spec b n s l); [apply Hc|done|done|]|].
  { intros E. rewrite Er in E. rewrite <- E2. apply (co_clean Hc); try done; rewrite E2; try done.
    intros Hp. rewrite bool_decide_eq_true_2 in E by done. simpl in E. lia. }
  intros [] s' (l' & Hok & Hord & [Henv Eb Ho Hl]). split_and!; try done. exists l'.
  destruct Henv as (Hlk & Hpid & Hdk). apply core_fields in Eb as (G1 & G2 & G3 & G4 & G5 & G6). simpl in *.
  pose proof (co_nodup Hc) as Hnd. rewrite fmap_app, fmap_cons, <- Permutation_middle in Hnd. simpl in Hnd.
  apply NoDup_cons in Hnd as [HbH Hnd]. rewrite <- fmap_app in HbH, Hnd.
  assert (is_locked s' b = false) as Elk by (unfold is_locked; by rewrite G4).
  apply (cache_change s s' l l' (H1 ++ (b, n) :: H2) (H1 ++ H2) U U P P b n Hc Hbn). split; try done.
  - rewrite (bio_perm _ _ Hok). symmetry. apply (bio_perm _ _ (co_bio Hc)).
  - rewrite G5, Er, Elk. simpl. lia.
  - split; [apply Hc|done].
  - intros c m Hcb. rewrite !elem_of_app, elem_of_cons. naive_solver.
  - congruence.
  - intros m Hm. destruct HbH. apply in_fst. eauto.
  - by rewrite Hdk.
  - intros HP _. rewrite G6, Hdk, <- E2. apply (co_clean Hc); try done; by rewrite E2.
  - intros m Hm. apply (co_dirty Hc) in Hm as Hm2. rewrite fmap_app, fmap_cons in Hm2. rewrite fmap_app.
    simpl in Hm2. rewrite elem_of_app, elem_of_cons in Hm2. rewrite elem_of_app.
    destruct Hm2 as [?|[->|?]]; [by left|done|by right].
Qed.

(** ** Reading and changing the disk

    [d] became [d'] by the block writes [ws], latest first. *)
Definition replay (ws : list (Z * block)) (d : disk) : disk := foldr (λ w, dwrite w.1 w.2) d ws.

(** [C] holds of the disk at every moment from [d] to [d']: a crash leaves a
    disk that satisfies it. *)
Definition throughout (C : disk → Prop) (d d' : disk) : Prop :=
  ∃ ws, d' = replay ws d ∧ ∀ ws1 ws2, ws = ws1 ++ ws2 → C (replay ws2 d).

Lemma replay_app ws1 ws2 d : replay (ws1 ++ ws2) d = replay ws1 (replay ws2 d).
Proof. apply foldr_app. Qed.

Lemma replay_size ws d : d_size (replay ws d) = d_size d.
Proof. induction ws; simpl; done. Qed.

Lemma throughout_refl (C : disk → Prop) d : C d → throughout C d d.
Proof. intros HC. exists []. split; [done|]. intros ws1 ws2 [_ ->]%symmetry%app_nil. done. Qed.

Lemma throughout_write (C : disk → Prop) d n bs : C d → C (dwrite n bs d) → throughout C d (dwrite n bs d).
Proof.
  intros H0 H1. exists [(n, bs)]. split; [done|]. intros [|w ws1] ws2 E; simpl in E; subst; [done|].
  injection E as _ E. symmetry in E. apply app_nil in E as [_ ->]. done.
Qed.

Lemma throughout_trans (C : disk → Prop) d1 d2 d3 :
  throughout C d1 d2 → throughout C d2 d3 → throughout C d1 d3.
Proof.
  intros (ws1 & -> & H1) (ws2 & -> & H2). exists (ws2 ++ ws1). split; [by rewrite replay_app|].
  intros w1 w2 E. apply app_eq_app in E as (k & [[-> ->]|[-> ->]]).
  - rewrite replay_app. by eapply H2.
  - by eapply H1.
Qed.

Lemma throughout_mono (C C' : disk → Prop) d d' :
  (∀ x, C x → C' x) → throughout C d d' → throughout C' d d'.
Proof. intros Hm (ws & -> & HC). exists ws. split; [done|]. intros. by eapply Hm, HC. Qed.

Lemma throughout_end (C : disk → Prop) d d' : throughout C d d' → C d ∧ C d' ∧ d_size d' = d_size d.
Proof.
  intros (ws & -> & HC). split_and!; [|by apply (HC [] ws)|apply replay_size].
  apply (HC ws []). by rewrite app_nil_r.
Qed.

(** The lock state matters as far as the locks of the cache are free. *)
Definition cache_locks (lk : lockst) : Prop :=
  lockable LK_BCACHE lk ∧ ∀ b, 0 <= b < 30 → lockable (LK_BUF b) lk.

#[export] Instance cache_locks_proper : Proper ((≡) ==> iff) cache_locks.
Proof. intros lk lk' E. unfold cache_locks. by setoid_rewrite E. Qed.

Lemma cache_locks_of s H U P : cache s H U P → cache_locks (bs_lk s).
Proof.
  intros [l Hc]. pose proof (co_bio Hc) as Hb. split; [apply (bio_lk _ _ Hb)|]. intros b Hr. apply (bio_lks _ _ Hb).
  rewrite (bio_perm _ _ Hb). by apply elem_of_seqZ.
Qed.

Lemma cache_relock s lk H U P : cache s H U P → cache_locks lk → cache (set lk s) H U P.
Proof.
  intros [l Hc] [L1 L2]. exists l. destruct Hc as [C1 C2 C3 C4 C5 C6 C7 C8 C9]. split; try done.
  destruct C1 as [B1 B2 B3 B4 B5 B6 B7 B8 B9 B10 B11]. split; try done. intros b Hb. apply L2.
  rewrite B2 in Hb. by apply elem_of_seqZ in Hb.
Qed.

Lemma cache_lk s lk H U P : lk ≡ bs_lk s → cache s H U P → cache (set lk s) H U P.
Proof. intros Hlk Hc. apply cache_relock; [done|]. rewrite Hlk. by eapply cache_locks_of. Qed.

(** Holding another spin lock. *)
Lemma cache_acquired s id H U P :
  cache s H U P → id.1 ≠ "bcache"%string → id.1 ≠ "buffer"%string → cache (set (acquired id (bs_lk s)) s) H U P.
Proof.
  intros Hc N1 N2. apply cache_relock; [done|]. destruct (cache_locks_of _ _ _ _ Hc) as [L1 L2].
  split; [|intros b Hb]; apply acquired_lockable; auto; intros ->; done.
Qed.
