(* ===== verification/Log.v ===== *)
(** * The write-ahead log (kernel/log.c)

    [struct log] is the record [log], its [lh] the fields [lh_n] and
    [lh_block].  The on-disk header is block [start]: the count at offset 0 and
    the block numbers from offset 4, all [int]s. *)

From S2P Require Import Prelude Random Spinlock Block Bio BioSpec.

Definition MAXOPBLOCKS : Z := 10.
Definition LOGSIZE : Z := MAXOPBLOCKS * 3.

Record log := mkLog {
  lg_start : Z; lg_size : Z; lg_outstanding : Z; lg_committing : Z; lg_dev : Z;
  lh_n : Z; lh_block : list Z
}.

Record lst := mkLst { l_b : bst; l_log : log }.

#[export] Program Instance lst_b : Lens lst bst := {|
  view s := l_b s;
  set b s := mkLst b (l_log s)
|}.
Next Obligation. done. Qed.
Next Obligation. by intros []. Qed.
Next Obligation. done. Qed.

#[export] Program Instance lst_lk : Lens lst lockst := {|
  view s := bs_lk (l_b s);
  set l s := mkLst (set l (l_b s)) (l_log s)
|}.
Next Obligation. done. Qed.
Next Obligation. by intros [[] ?]. Qed.
Next Obligation. done. Qed.

Definition LK_LOG : lockid := ("log"%string, 0).

Definition log0 : log := mkLog 0 0 0 0 0 0 (replicate (Z.to_nat LOGSIZE) 0).

Definition getl {A} (f : log → A) : M lst A := gets (λ s, f (l_log s)).
Definition setl (f : log → log) : M lst unit := modify (λ s, mkLst (l_b s) (f (l_log s))).

Definition set_place (start size dev : Z) (g : log) : log :=
  mkLog start size (lg_outstanding g) (lg_committing g) dev (lh_n g) (lh_block g).
Definition set_outstanding (x : Z) (g : log) : log :=
  mkLog (lg_start g) (lg_size g) x (lg_committing g) (lg_dev g) (lh_n g) (lh_block g).
Definition set_committing (x : Z) (g : log) : log :=
  mkLog (lg_start g) (lg_size g) (lg_outstanding g) x (lg_dev g) (lh_n g) (lh_block g).
Definition set_n (x : Z) (g : log) : log :=
  mkLog (lg_start g) (lg_size g) (lg_outstanding g) (lg_committing g) (lg_dev g) x (lh_block g).
Definition set_blocks (l : list Z) (g : log) : log :=
  mkLog (lg_start g) (lg_size g) (lg_outstanding g) (lg_committing g) (lg_dev g) (lh_n g) l.

(** [log.lh.block[i]]; indexing outside the array is undefined. *)
Definition get_block (i : Z) : M lst Z := λ s,
  match lh_block (l_log s) !! Z.to_nat i with
  | Some x => if 0 <=? i then Ok (x, s) else Undef
  | None => Undef
  end.
Definition set_block_no (i v : Z) : M lst unit := λ s,
  if (0 <=? i) && (i <? Z.of_nat (length (lh_block (l_log s)))) then
    setl (λ g, set_blocks (<[Z.to_nat i := v]> (lh_block g)) g) s
  else Undef.

(** [bread(log.dev, ...)]: the [int] arguments become [uint]. *)
Definition log_bread (bno : Z) : M lst Z :=
  let! dev := getl lg_dev in zoom (bread (u32 dev) (u32 bno)).

(** Copy committed blocks from log to their home location. *)
Definition install_one (recovering : Z) (tail : Z) : M lst (option unit) :=
  let! start := getl lg_start in
  let! lbuf := log_bread (start + tail + 1) in
  let! bno := get_block tail in
  let! dbuf := log_bread bno in
  let! d := zoom (bdata lbuf) in
  zoom (bset dbuf d) ;;
  zoom (bwrite dbuf) ;;
  (if recovering =? 0 then zoom (bunpin dbuf) else ret tt) ;;
  zoom (brelse lbuf) ;;
  zoom (brelse dbuf) ;;
  ret None.

Definition install_trans (recovering : Z) : M lst unit :=
  let! n := getl lh_n in
  let! _ := for_ (Z.to_nat n) 0 1 (install_one recovering) in
  ret tt.

(** Read the log header from disk into the in-memory log header. *)
Definition read_head : M lst unit :=
  let! start := getl lg_start in
  let! b := log_bread start in
  let! d := zoom (bdata b) in
  setl (set_n (get_i32 d 0)) ;;
  let! _ := for_ (R := unit) (Z.to_nat (get_i32 d 0)) 0 1 (λ i,
    set_block_no i (get_i32 d (4 + 4 * i)) ;; ret None) in
  zoom (brelse b).

(** Write in-memory log header to disk: the point of commit. *)
Definition write_head : M lst unit :=
  let! start := getl lg_start in
  let! b := log_bread start in
  let! n := getl lh_n in
  let! d := zoom (bdata b) in
  zoom (bset b (put_32 d 0 n)) ;;
  let! _ := for_ (R := unit) (Z.to_nat n) 0 1 (λ i,
    let! x := get_block i in
    let! d := zoom (bdata b) in
    zoom (bset b (put_32 d (4 + 4 * i) x)) ;; ret None) in
  zoom (bwrite b) ;;
  zoom (brelse b).

Definition recover_from_log : M lst unit :=
  read_head ;;
  install_trans 1 ;;
  setl (set_n 0) ;;
  write_head.

Definition initlog (dev : Z) (sb : superblock) : M lst unit :=
  if BSIZE <=? 4 + 4 * LOGSIZE then panic "initlog: too big logheader"
  else
    zoom (initlock LK_LOG) ;;
    setl (set_place (s32 (sb_logstart sb)) (s32 (sb_nlog sb)) dev) ;;
    recover_from_log.

(** The loop of [begin_op] waits with [sleep]; run alone it never ends. *)
Definition begin_op : M lst unit :=
  zoom (acquire LK_LOG) ;;
  let! g := gets l_log in
  if truthy (lg_committing g) then zoom (sleep_forever LK_LOG LK_LOG)
  else if LOGSIZE <? lh_n g + (lg_outstanding g + 1) * MAXOPBLOCKS then zoom (sleep_forever LK_LOG LK_LOG)
  else
    setl (set_outstanding (lg_outstanding g + 1)) ;;
    zoom (release LK_LOG).

(** Copy modified blocks from cache to log. *)
Definition write_log_one (tail : Z) : M lst (option unit) :=
  let! start := getl lg_start in
  let! to := log_bread (start + tail + 1) in
  let! bno := get_block tail in
  let! from := log_bread bno in
  let! d := zoom (bdata from) in
  zoom (bset to d) ;;
  zoom (bwrite to) ;;
  zoom (brelse from) ;;
  zoom (brelse to) ;;
  ret None.

Definition write_log : M lst unit :=
  let! n := getl lh_n in
  let! _ := for_ (Z.to_nat n) 0 1 write_log_one in
  ret tt.

Definition commit : M lst unit :=
  let! n := getl lh_n in
  if 0 <? n then
    write_log ;;
    write_head ;;
    install_trans 0 ;;
    setl (set_n 0) ;;
    write_head
  else ret tt.

Definition end_op : M lst unit :=
  zoom (acquire LK_LOG) ;;
  let! g := gets l_log in
  setl (set_outstanding (lg_outstanding g - 1)) ;;
  if truthy (lg_committing g) then panic "log.committing"
  else if lg_outstanding g - 1 =? 0 then
    setl (set_committing 1) ;;
    zoom (release LK_LOG) ;;
    commit ;;
    zoom (acquire LK_LOG) ;;
    setl (set_committing 0) ;;
    zoom (wakeup_chan LK_LOG) ;;
    zoom (release LK_LOG)
  else
    zoom (wakeup_chan LK_LOG) ;;
    zoom (release LK_LOG).

(** The index of the block in the log, or [n]: log absorption. *)
Fixpoint log_index (n : nat) (i : Z) (l : list Z) (bno : Z) : Z :=
  match n, l with
  | S n', x :: l' => if u32 x =? bno then i else log_index n' (i + 1) l' bno
  | _, _ => i
  end.

Definition log_write (b : Z) : M lst unit :=
  zoom (acquire LK_LOG) ;;
  let! g := gets l_log in
  if (LOGSIZE <=? lh_n g) || (lg_size g - 1 <=? lh_n g) then panic "too big a transaction"
  else if lg_outstanding g <? 1 then panic "log_write outside of trans"
  else
    let! bno := zoom (getb b_blockno b) in
    let i := log_index (Z.to_nat (lh_n g)) 0 (lh_block g) bno in
    set_block_no i (s32 bno) ;;
    (if i =? lh_n g then
       zoom (bpin b) ;;
       setl (set_n (lh_n g + 1))
     else ret tt) ;;
    zoom (release LK_LOG).
