(* ===== verification/LogSpec.v ===== *)
(** * The log makes transactions atomic

    [recovered] is what a disk stands for: the blocks named by its log header
    are those of the log.  Every write [commit] makes leaves a disk that stands
    for the old contents or, from the header write on, for the new ones; and
    [recover_from_log] turns any such disk into one with an empty log that
    stands for the same contents. *)

From Stdlib Require Import ZifyBool.
From S2P Require Import Prelude Random Spinlock Block Bio BioSpec Cache Log.

Definition logged (g : log) : list Z := take (Z.to_nat (lh_n g)) (lh_block g).

(** The blocks of the log, the header included. *)
Definition region (start size n : Z) : Prop := start <= n < start + size.
Definition is_data (start size : Z) (d : disk) (n : Z) : Prop := 0 <= n < d_size d ∧ ¬ region start size n.

(** A list of blocks a transaction of this log can hold. *)
Record trans_ok (start size : Z) (d : disk) (B : list Z) : Prop := {
  tr_len : Z.of_nat (length B) <= size - 1;
  tr_nodup : NoDup B;
  tr_data : ∀ n, n ∈ B → is_data start size d n
}.
Arguments tr_len {_ _ _ _}. Arguments tr_nodup {_ _ _ _}. Arguments tr_data {_ _ _ _}.

Record log_wf (g : log) (d : disk) : Prop := {
  wf_dev : lg_dev g = ROOTDEV;
  wf_start : 0 < lg_start g;
  wf_size : 1 < lg_size g <= LOGSIZE;
  wf_fits : lg_start g + lg_size g <= d_size d;
  wf_disk : d_size d < 2 ^ 31;
  wf_arr : length (lh_block g) = 30%nat;
  wf_n : 0 <= lh_n g <= LOGSIZE;
  wf_trans : trans_ok (lg_start g) (lg_size g) d (logged g)
}.
Arguments wf_dev {_ _}. Arguments wf_start {_ _}. Arguments wf_size {_ _}. Arguments wf_fits {_ _}.
Arguments wf_disk {_ _}. Arguments wf_arr {_ _}. Arguments wf_n {_ _}. Arguments wf_trans {_ _}.

Lemma logged_length g d : log_wf g d → Z.of_nat (length (logged g)) = lh_n g.
Proof.
  intros W. unfold logged. rewrite length_take, (wf_arr W). pose proof (wf_n W). unfold LOGSIZE, MAXOPBLOCKS in *. lia.
Qed.

Lemma logged_lookup g i x :
  0 <= i → logged g !! Z.to_nat i = Some x → i < lh_n g ∧ lh_block g !! Z.to_nat i = Some x.
Proof.
  unfold logged. intros Hi Hl. apply lookup_take_Some in Hl as [Hl Hlt]. split; [lia|done].
Qed.

Lemma log_wf_size g d d' : d_size d' = d_size d → log_wf g d → log_wf g d'.
Proof.
  intros E [W1 W2 W3 W4 W5 W6 W7 [T1 T2 T3]]. split; try done; try lia. split; try done.
  intros n Hn. unfold is_data. rewrite E. by apply T3.
Qed.

(** ** What a disk stands for *)

Definition hdr_n (bs : block) : Z := get_i32 bs 0.
Definition hdr_block (bs : block) (i : Z) : Z := get_i32 bs (4 + 4 * i).
Definition hdr_blocks (bs : block) : list Z := hdr_block bs <$> seqZ 0 (hdr_n bs).

(** Where [m] is in a list. *)
Definition index_of (m : Z) (B : list Z) : option nat := fst <$> list_find (m =.) B.

(** The contents of [m] if the blocks [B] are those of the log. *)
Definition redo (start : Z) (B : list Z) (d : disk) (m : Z) : block :=
  match index_of m B with
  | Some i => dread d (start + 1 + Z.of_nat i)
  | None => dread d m
  end.

Definition recovered (start : Z) (d : disk) (m : Z) : block := redo start (hdr_blocks (dread d start)) d m.

Lemma index_of_Some m B i : NoDup B → index_of m B = Some i ↔ B !! i = Some m.
Proof.
  intros Hnd. unfold index_of. split.
  - intros ([j x] & Hf & ->)%fmap_Some. by apply list_find_Some in Hf as (? & -> & _).
  - intros Hi. apply fmap_Some. exists (i, m). split; [|done]. apply list_find_Some. split_and!; [done|done|].
    intros j y Hj Hji ->. pose proof (NoDup_lookup _ _ _ _ Hnd Hi Hj). lia.
Qed.

Lemma index_of_None m B : index_of m B = None ↔ m ∉ B.
Proof.
  unfold index_of. rewrite fmap_None, list_find_None, Forall_forall. split; [|naive_solver].
  intros H Hm. by apply (H m).
Qed.

Lemma index_of_nil m : index_of m [] = None.
Proof. done. Qed.

(** [redo] reads the log blocks and the block itself. *)
Lemma redo_ext start B d d' m :
  NoDup B → (∀ i, B !! i = Some m → dread d' (start + 1 + Z.of_nat i) = dread d (start + 1 + Z.of_nat i)) →
  (m ∉ B → dread d' m = dread d m) → redo start B d' m = redo start B d m.
Proof.
  intros Hnd H1 H2. unfold redo. destruct (index_of m B) as [i|] eqn:E.
  - apply index_of_Some in E; auto.
  - apply index_of_None in E; auto.
Qed.

Lemma recovered_empty start d m : hdr_n (dread d start) = 0 → recovered start d m = dread d m.
Proof. intros E. unfold recovered, hdr_blocks. by rewrite E. Qed.

(** ** The cache operations on the state of the log *)

Abbreviation ldisk s := (bs_disk (l_b s)).

(** The rest of the state: the locks balance, the running process is the same. *)
Definition env (s s' : lst) : Prop := bs_lk (l_b s') ≡ bs_lk (l_b s) ∧ bs_pid (l_b s') = bs_pid (l_b s).

Lemma env_refl s : env s s.
Proof. done. Qed.

Lemma env_trans s1 s2 s3 : env s1 s2 → env s2 s3 → env s1 s3.
Proof. intros [E1 ?] [E2 ?]. split; [by rewrite E2|congruence]. Qed.

(** The cache after an operation that wrote nothing to disk. *)
Definition keeps (s : lst) (f : Z → block) (s' : lst) : Prop :=
  env s s' ∧ l_log s' = l_log s ∧ ldisk s' = ldisk s ∧ ∀ m, lblk (l_b s') m = f m.

Lemma log_bread_cache n s H U P :
  lg_dev (l_log s) = ROOTDEV → cache (l_b s) H U P → n ∉ H.*2 → 0 <= n < d_size (ldisk s) → d_size (ldisk s) < 2 ^ 31 →
  n ∈ P ∨ (length H + length P < NBUF)%nat →
  wp (log_bread n) (λ b s', cache (l_b s') ((b, n) :: H) U P ∧ keeps s (lblk (l_b s)) s') s.
Proof.
  intros Ed Hc Hn Hr Hd Hlen. unfold log_bread. apply wp_bind, wp_gets, wp_zoom. rewrite Ed.
  change (u32 ROOTDEV) with ROOTDEV. rewrite (wrap_small 32) by lia.
  eapply wp_mono; [by apply (bread_cache n (l_b s) H U P)|]. intros b t (Hc' & (? & ? & ?) & Hl). done.
Qed.

Lemma log_bset_cache b n bs s H U P :
  cache (l_b s) H U P → (b, n) ∈ H → length bs = 1024%nat →
  wp (zoom (bset b bs)) (λ _ s', cache (l_b s') H (n :: U) P ∧ keeps s (λ m, if m =? n then bs else lblk (l_b s) m) s') s.
Proof.
  intros Hc Hbn Hl. apply wp_zoom. eapply wp_mono; [by eapply bset_cache|]. intros [] t (? & (? & ? & ?) & ?). done.
Qed.

Lemma log_bdata_cache b n s H U P Q :
  cache (l_b s) H U P → (b, n) ∈ H → Q (lblk (l_b s) n) s → wp (zoom (bdata b)) Q s.
Proof. intros Hc Hbn HQ. apply wp_zoom. eapply bdata_cache; [done..|]. by rewrite set_view. Qed.

Lemma log_bwrite_cache b n s H U P :
  cache (l_b s) H (n :: U) P → (b, n) ∈ H → n ∉ U →
  wp (zoom (bwrite b)) (λ _ s', cache (l_b s') H U P ∧ env s s' ∧ l_log s' = l_log s ∧
    ldisk s' = dwrite n (lblk (l_b s) n) (ldisk s) ∧ ∀ m, lblk (l_b s') m = lblk (l_b s) m) s.
Proof.
  intros Hc Hbn Hn. apply wp_zoom. eapply wp_mono; [by eapply bwrite_cache|]. intros [] t (? & ? & ? & ? & ?). done.
Qed.

Lemma log_bunpin_cache b n s H U P1 P2 :
  cache (l_b s) H U (P1 ++ n :: P2) → (b, n) ∈ H → lblk (l_b s) n = dread (ldisk s) n →
  wp (zoom (bunpin b)) (λ _ s', cache (l_b s') H U (P1 ++ P2) ∧ keeps s (lblk (l_b s)) s') s.
Proof.
  intros Hc Hbn Hn. apply wp_zoom. eapply wp_mono; [by eapply bunpin_cache|]. intros [] t (? & (? & ? & ?) & ?). done.
Qed.

Lemma log_brelse_cache b n s H1 H2 U P :
  cache (l_b s) (H1 ++ (b, n) :: H2) U P → n ∉ U →
  wp (zoom (brelse b)) (λ _ s', cache (l_b s') (H1 ++ H2) U P ∧ keeps s (lblk (l_b s)) s') s.
Proof.
  intros Hc Hn. apply wp_zoom. eapply wp_mono; [by eapply brelse_cache|]. intros [] t (? & (? & ? & ?) & ?). done.
Qed.

Lemma get_block_run g s i x :
  0 <= i → logged g !! Z.to_nat i = Some x → l_log s = g → get_block i s = Ok (x, s).
Proof.
  intros Hi Hl <-. apply logged_lookup in Hl as [_ Hl]; [|done]. unfold get_block. rewrite Hl.
  by rewrite (proj2 (Z.leb_le _ _)).
Qed.

Lemma lblk_len s H U P n : cache s H U P → length (lblk s n) = 1024%nat.
Proof. intros [l Hc]. eapply lblk_length, Hc. Qed.

Lemma cache_disk_len s H U P n : cache s H U P → length (dread (bs_disk s) n) = 1024%nat.
Proof. intros [l Hc]. apply (bio_disk _ _ (co_bio Hc)). Qed.

(** ** [write_log] *)

(** Only the blocks after the header changed. *)
Definition log_only (start size : Z) (d d' : disk) : Prop :=
  d_size d' = d_size d ∧ (∀ m, ¬ (start < m < start + size) → dread d' m = dread d m) ∧
  ∀ m, length (dread d' m) = length (dread d m).

Lemma log_only_write start size d d' n bs :
  start < n < start + size → length bs = length (dread d n) → log_only start size d d' →
  log_only start size d (dwrite n bs d').
Proof.
  intros Hn Hl (Hs & Hd & Hl'). split_and!; [done|..]; intros m; rewrite dread_dwrite.
  - intros Hm. case_match; [lia|]. by apply Hd.
  - destruct (Z.eqb_spec m n) as [->|]; auto.
Qed.

Record write_log_inv (s0 : lst) (k : nat) (s : lst) : Prop := {
  wl_env : env s0 s;
  wl_log : l_log s = l_log s0;
  wl_cache : cache (l_b s) [] [] (logged (l_log s0));
  wl_disk : throughout (log_only (lg_start (l_log s0)) (lg_size (l_log s0)) (ldisk s0)) (ldisk s0) (ldisk s);
  wl_lblk : ∀ m, ¬ (lg_start (l_log s0) < m < lg_start (l_log s0) + lg_size (l_log s0)) →
    lblk (l_b s) m = lblk (l_b s0) m;
  wl_done : ∀ i x, (i < k)%nat → logged (l_log s0) !! i = Some x →
    dread (ldisk s) (lg_start (l_log s0) + 1 + Z.of_nat i) = lblk (l_b s0) x
}.

Lemma write_log_one_spec s0 k s :
  log_wf (l_log s0) (ldisk s0) → (k < length (logged (l_log s0)))%nat → write_log_inv s0 k s →
  wp (write_log_one (Z.of_nat k)) (λ r s', r = None ∧ write_log_inv s0 (S k) s') s.
Proof.
  intros W Hk [I1 I2 I3 I4 I5 I6]. destruct (lookup_lt_is_Some_2 _ _ Hk) as [x Hx].
  set (g := l_log s0) in *. set (B := logged g) in *.
  destruct (tr_data (wf_trans W) x) as [Hxr Hxd]; [by eapply list_elem_of_lookup_2|]. unfold region in Hxd.
  destruct (throughout_end _ _ _ I4) as (_ & _ & Hsz).
  pose proof (tr_len (wf_trans W)) as HB. fold g in HB. fold B in HB.
  pose proof (wf_start W). pose proof (wf_size W). pose proof (wf_fits W). pose proof (wf_disk W).
  unfold LOGSIZE, MAXOPBLOCKS in *. set (n := lg_start g + Z.of_nat k + 1).
  unfold write_log_one. apply wp_bind, wp_gets. rewrite I2. fold n.
  eapply wp_step; [apply (log_bread_cache n s [] [] B); [by rewrite I2, (wf_dev W)|done|set_solver|lia|lia|right; unfold NBUF; simpl; lia]|].
  intros to s1 (C1 & E1 & L1 & D1 & F1). eapply wp_bind, wp_eq; [apply (get_block_run g _ _ x); [lia|by rewrite Nat2Z.id|congruence]|].
  eapply wp_step; [apply (log_bread_cache x s1 [(to, n)] [] B); [by rewrite L1, I2, (wf_dev W)|done| |congruence|congruence|]|].
  { simpl. rewrite list_elem_of_singleton. lia. }
  { left. by eapply list_elem_of_lookup_2. }
  intros from s2 (C2 & E2 & L2 & D2 & F2).
  eapply wp_bind, log_bdata_cache; [exact C2|by left|].
  eapply wp_step; [eapply (log_bset_cache to n); [exact C2|by right; left|by eapply lblk_len]|].
  intros _ s3 (C3 & E3 & L3 & D3 & F3).
  eapply wp_step; [eapply (log_bwrite_cache to n); [exact C3|by right; left|set_solver]|].
  intros _ s4 (C4 & E4 & L4 & D4 & F4).
  eapply wp_step; [eapply (log_brelse_cache from x s4 [] [(to, n)]); [exact C4|set_solver]|].
  intros _ s5 (C5 & E5 & L5 & D5 & F5).
  eapply wp_step; [eapply (log_brelse_cache to n s5 [] []); [exact C5|set_solver]|].
  intros _ s6 (C6 & E6 & L6 & D6 & F6). apply wp_ret. split; [done|].
  assert (lblk (l_b s3) n = lblk (l_b s0) x) as Ec.
  { rewrite F3, Z.eqb_refl, F2, F1. apply I5. lia. }
  assert (ldisk s6 = dwrite n (lblk (l_b s0) x) (ldisk s)) as Ed by congruence.
  split; try done.
  - repeat (eapply env_trans; [eassumption|]). apply env_refl.
  - fold g. congruence.
  - eapply throughout_trans; [exact I4|]. rewrite Ed. destruct (throughout_end _ _ _ I4) as (_ & I4' & _).
    apply throughout_write; [done|]. apply log_only_write; [fold g; unfold n; lia| |done].
    destruct I4' as (_ & _ & Hl4). rewrite <- Hl4, (cache_disk_len _ _ _ _ _ I3), <- Ec. by eapply lblk_len.
  - fold g. intros m Hm. rewrite F6, F5, F4, F3. rewrite (proj2 (Z.eqb_neq m n)) by (unfold n; lia). rewrite F2, F1. by apply I5.
  - fold g. intros i y Hi Hy. rewrite Ed, dread_dwrite. destruct (Z.eqb_spec (lg_start g + 1 + Z.of_nat i) n) as [E|E].
    + assert (i = k) as -> by (unfold n in E; lia). fold B in Hy. assert (x = y) as <- by congruence. done.
    + apply I6; [unfold n in E; lia|done].
Qed.

Lemma write_log_spec s :
  log_wf (l_log s) (ldisk s) → cache (l_b s) [] [] (logged (l_log s)) →
  wp write_log (λ _ s', write_log_inv s (length (logged (l_log s))) s') s.
Proof.
  intros W Hc. unfold write_log. apply wp_bind, wp_gets. pose proof (logged_length _ _ W) as Hn.
  eapply wp_step with (P := λ r s', r = None ∧ write_log_inv s (length (logged (l_log s))) s').
  - apply (wp_for (write_log_inv s)).
    + split; try done; [by apply throughout_refl|]. intros i x Hi. lia.
    + intros k s' Hk Hi. replace (0 + Z.of_nat k * 1) with (Z.of_nat k) by lia.
      eapply wp_mono; [apply write_log_one_spec; [done|lia|done]|]. intros r s2 [-> H2]. done.
    + intros s' Hi. split; [done|]. by replace (length (logged (l_log s))) with (Z.to_nat (lh_n (l_log s))) by lia.
  - intros r s' [_ Hi]. by apply wp_ret.
Qed.

(** ** [write_head] *)

(** A header block for the blocks [B]. *)
Definition is_header (bs : block) (B : list Z) : Prop :=
  length bs = 1024%nat ∧ hdr_n bs = Z.of_nat (length B) ∧ hdr_blocks bs = B.

Lemma hdr_blocks_ext bs B :
  hdr_n bs = Z.of_nat (length B) → (∀ i x, B !! i = Some x → hdr_block bs (Z.of_nat i) = x) → hdr_blocks bs = B.
Proof.
  intros Hn Hx. unfold hdr_blocks. rewrite Hn. apply list_eq. intros i. rewrite list_lookup_fmap.
  destruct (decide (i < length B)%nat) as [Hi|Hi].
  - rewrite lookup_seqZ_lt by lia. simpl. destruct (lookup_lt_is_Some_2 B i Hi) as [x Ex]. rewrite Ex. f_equal. by apply Hx.
  - rewrite lookup_seqZ_ge by lia. by rewrite lookup_ge_None_2 by lia.
Qed.

(** The header in the making: the first [k] block numbers are there. *)
Record filling (bs : block) (B : list Z) (k : nat) : Prop := {
  fl_len : length bs = 1024%nat;
  fl_n : hdr_n bs = Z.of_nat (length B);
  fl_blocks : ∀ i x, (i < k)%nat → B !! i = Some x → hdr_block bs (Z.of_nat i) = x
}.

Lemma filling_start bs B : length bs = 1024%nat → (length B <= 30)%nat → filling (put_32 bs 0 (Z.of_nat (length B))) B 0.
Proof.
  intros Hl HB. split; [by rewrite length_put by lia| |lia]. unfold hdr_n. rewrite get_put_i32 by lia. done.
Qed.

Lemma filling_step bs B k x :
  (length B <= 30)%nat → B !! k = Some x → - 2 ^ 31 <= x < 2 ^ 31 → filling bs B k →
  filling (put_32 bs (4 + 4 * Z.of_nat k) x) B (S k).
Proof.
  intros HB Hx Hr [F1 F2 F3]. pose proof (lookup_lt_Some _ _ _ Hx). split.
  - by rewrite length_put by lia.
  - unfold hdr_n, get_i32. rewrite get_put_out by lia. done.
  - intros i y Hi Hy. unfold hdr_block. destruct (decide (i = k)) as [->|].
    + rewrite get_put_i32 by lia. congruence.
    + unfold get_i32. rewrite get_put_out by lia. apply F3; [lia|done].
Qed.

Lemma filling_header bs B : filling bs B (length B) → is_header bs B.
Proof.
  intros [F1 F2 F3]. split_and!; [done|done|]. apply hdr_blocks_ext; [done|]. intros i x Hx. apply F3; [|done].
  by apply lookup_lt_Some in Hx.
Qed.

Definition head_written (s s' : lst) : Prop :=
  let start := lg_start (l_log s) in
  env s s' ∧ l_log s' = l_log s ∧
  ∃ h, is_header h (logged (l_log s)) ∧ ldisk s' = dwrite start h (ldisk s) ∧
    ∀ m, lblk (l_b s') m = if m =? start then h else lblk (l_b s) m.

Lemma write_head_spec s P :
  log_wf (l_log s) (ldisk s) → cache (l_b s) [] [] P → lg_start (l_log s) ∉ P → (length P < NBUF)%nat →
  wp write_head (λ _ s', head_written s s' ∧ cache (l_b s') [] [] P) s.
Proof.
  intros W Hc HP Hlen. set (g := l_log s) in *. assert (l_log s = g) as Eg by done. set (B := logged g).
  pose proof (logged_length _ _ W) as Hn. fold B in Hn. pose proof (wf_n W). pose proof (wf_start W).
  pose proof (wf_size W). pose proof (wf_fits W). pose proof (wf_disk W). unfold LOGSIZE, MAXOPBLOCKS in *.
  unfold write_head. apply wp_bind, wp_gets. fold g. set (start := lg_start g) in *.
  eapply wp_step; [apply (log_bread_cache start s [] [] P); [apply (wf_dev W)|done|set_solver|lia|lia|by right]|].
  intros b s1 (C1 & E1 & L1 & D1 & F1). apply wp_bind, wp_gets. rewrite L1. fold g.
  eapply wp_bind, log_bdata_cache; [exact C1|by left|].
  eapply wp_step; [eapply (log_bset_cache b start); [exact C1|by left|]|].
  { pose proof (lblk_len _ _ _ _ start C1). rewrite length_put by lia. done. }
  intros _ s2 (C2 & E2 & L2 & D2 & F2). rewrite <- Hn in F2.
  eapply wp_step with (P := λ r s3, env s s3 ∧ l_log s3 = g ∧ ldisk s3 = ldisk s ∧ cache (l_b s3) [(b, start)] [start] P ∧
    filling (lblk (l_b s3) start) B (length B) ∧ ∀ m, m ≠ start → lblk (l_b s3) m = lblk (l_b s) m).
  - apply (wp_for (λ k s3, env s s3 ∧ l_log s3 = g ∧ ldisk s3 = ldisk s ∧ cache (l_b s3) [(b, start)] [start] P ∧
      filling (lblk (l_b s3) start) B k ∧ ∀ m, m ≠ start → lblk (l_b s3) m = lblk (l_b s) m)).
    + split_and!; try congruence; [by eapply env_trans|..].
      * rewrite F2, Z.eqb_refl, F1. apply filling_start; [by eapply lblk_len|lia].
      * intros m Hm. rewrite F2, F1. by rewrite (proj2 (Z.eqb_neq _ _)).
    + intros k s3 Hk (E3 & L3 & D3 & C3 & Fl & Fo). replace (0 + Z.of_nat k * 1) with (Z.of_nat k) by lia.
      destruct (lookup_lt_is_Some_2 B k ltac:(lia)) as [x Hx].
      eapply wp_bind, wp_eq; [apply (get_block_run g _ _ x); [lia|by rewrite Nat2Z.id|done]|].
      eapply wp_bind, log_bdata_cache; [exact C3|by left|].
      destruct (tr_data (wf_trans W) x ltac:(by eapply list_elem_of_lookup_2)) as [Hxr _].
      assert (filling (put_32 (lblk (l_b s3) start) (4 + 4 * Z.of_nat k) x) B (S k)) as Fl'.
      { apply filling_step; [lia|done|lia|done]. }
      eapply wp_step; [eapply (log_bset_cache b start); [exact C3|by left|apply (fl_len _ _ _ Fl')]|].
      intros _ s4 (C4 & E4 & L4 & D4 & F4). apply wp_ret. split_and!; try congruence; [by eapply env_trans|..].
      * destruct C4 as [l C4]. exists l. eapply cache_weaken; [exact C4|set_solver|]. intros m ->%list_elem_of_singleton. by left.
      * by rewrite F4, Z.eqb_refl.
      * intros m Hm. rewrite F4, (proj2 (Z.eqb_neq _ _)) by done. by apply Fo.
    + intros s3. by replace (Z.to_nat (lh_n g)) with (length B) by lia.
  - intros _ s3 (E3 & L3 & D3 & C3 & Fl & Fo).
    eapply wp_step; [eapply (log_bwrite_cache b start); [exact C3|by left|set_solver]|].
    intros _ s4 (C4 & E4 & L4 & D4 & F4).
    eapply wp_mono; [eapply (log_brelse_cache b start s4 [] []); [exact C4|set_solver]|].
    intros _ s5 (C5 & E5 & L5 & D5 & F5). split; [|done]. split; [by do 2 (eapply env_trans; [eassumption|])|]. split; [congruence|].
    exists (lblk (l_b s3) start). split_and!; [by apply filling_header|by rewrite D5, D4, D3|].
    intros m. change (lg_start (l_log s)) with start. rewrite F5, F4. destruct (Z.eqb_spec m start) as [->|Hm]; [done|by apply Fo].
Qed.

(** ** [install_trans] *)

(** Only blocks of [B] changed. *)
Definition only (B : list Z) (d d' : disk) : Prop :=
  d_size d' = d_size d ∧ (∀ m, m ∉ B → dread d' m = dread d m) ∧ ∀ m, length (dread d' m) = length (dread d m).

(** The blocks pinned before step [k]; recovery pins nothing. *)
Definition pins (recovering : Z) (B : list Z) (k : nat) : list Z :=
  if recovering =? 0 then drop k B else [].

Lemma pins_elem r B k x : x ∈ pins r B k → x ∈ B.
Proof.
  unfold pins. case_match; [|set_solver]. intros Hx. rewrite <- (take_drop k B). apply elem_of_app. by right.
Qed.

Lemma pins_length r B k : (length (pins r B k) <= length B)%nat.
Proof. unfold pins. case_match; [rewrite length_drop; lia|simpl; lia]. Qed.

Record install_inv (r : Z) (s0 : lst) (k : nat) (s : lst) : Prop := {
  in_env : env s0 s;
  in_log : l_log s = l_log s0;
  in_cache : cache (l_b s) [] [] (pins r (logged (l_log s0)) k);
  in_disk : throughout (only (logged (l_log s0)) (ldisk s0)) (ldisk s0) (ldisk s);
  in_done : ∀ i x, (i < k)%nat → logged (l_log s0) !! i = Some x →
    dread (ldisk s) x = dread (ldisk s0) (lg_start (l_log s0) + 1 + Z.of_nat i) ∧ lblk (l_b s) x = dread (ldisk s) x;
  in_rest : ∀ m, m ∉ take k (logged (l_log s0)) → lblk (l_b s) m = lblk (l_b s0) m
}.

(** The unpinning step, skipped in recovery. *)
Lemma unpin_spec r b x s H B k :
  cache (l_b s) H [] (pins r B k) → (b, x) ∈ H → B !! k = Some x → lblk (l_b s) x = dread (ldisk s) x →
  wp (if r =? 0 then zoom (bunpin b) else ret tt)
     (λ _ s', cache (l_b s') H [] (pins r B (S k)) ∧ keeps s (lblk (l_b s)) s') s.
Proof.
  intros Hc Hb Hx Hd. unfold pins in *. destruct (r =? 0); [|by apply wp_ret].
  rewrite (drop_S _ _ _ Hx) in Hc. by apply (log_bunpin_cache b x s H [] []).
Qed.

Lemma install_one_spec r s0 k s :
  log_wf (l_log s0) (ldisk s0) → (k < length (logged (l_log s0)))%nat → install_inv r s0 k s →
  wp (install_one r (Z.of_nat k)) (λ a s', a = None ∧ install_inv r s0 (S k) s') s.
Proof.
  intros W Hk [I1 I2 I3 I4 I5 I6]. destruct (lookup_lt_is_Some_2 _ _ Hk) as [x Hx].
  set (g := l_log s0) in *. assert (l_log s0 = g) as Eg by done. set (B := logged g) in *.
  assert (x ∈ B) as HxB by (by eapply list_elem_of_lookup_2).
  destruct (tr_data (wf_trans W) x HxB) as [Hxr Hxd]. unfold region in Hxd.
  destruct (throughout_end _ _ _ I4) as (_ & (Hsz & Hdo & Hlo) & _).
  pose proof (tr_len (wf_trans W)) as HB. fold g in HB. fold B in HB. pose proof (pins_length r B k) as HP.
  pose proof (wf_start W). pose proof (wf_size W). pose proof (wf_fits W). pose proof (wf_disk W).
  unfold LOGSIZE, MAXOPBLOCKS in *. set (n := lg_start g + Z.of_nat k + 1).
  assert (n ∉ B) as HnB. { intros Hn. destruct (tr_data (wf_trans W) n Hn) as [_ []]. unfold region. fold g. lia. }
  unfold install_one. apply wp_bind, wp_gets. rewrite I2. fold n.
  eapply wp_step; [apply (log_bread_cache n s [] [] (pins r B k)); [by rewrite I2, (wf_dev W)|done|set_solver|lia|lia|right; unfold NBUF; simpl; lia]|].
  intros lb s1 (C1 & E1 & L1 & D1 & F1). eapply wp_bind, wp_eq; [apply (get_block_run g _ _ x); [lia|by rewrite Nat2Z.id|congruence]|].
  eapply wp_step; [apply (log_bread_cache x s1 [(lb, n)] [] (pins r B k)); [by rewrite L1, I2, (wf_dev W)|done| |congruence|congruence|]|].
  { simpl. rewrite list_elem_of_singleton. intros ->. done. }
  { unfold pins. destruct (r =? 0); [left|right; unfold NBUF; simpl; lia]. rewrite (drop_S _ _ _ Hx). by left. }
  intros db s2 (C2 & E2 & L2 & D2 & F2).
  eapply wp_bind, (log_bdata_cache lb n); [exact C2|by right; left|].
  eapply wp_step; [eapply (log_bset_cache db x); [exact C2|by left|by eapply lblk_len]|].
  intros _ s3 (C3 & E3 & L3 & D3 & F3).
  eapply wp_step; [eapply (log_bwrite_cache db x); [exact C3|by left|set_solver]|].
  intros _ s4 (C4 & E4 & L4 & D4 & F4).
  assert (lblk (l_b s2) n = dread (ldisk s0) n) as Ec.
  { rewrite F2, F1, (clean_lblk _ _ _ _ _ I3); [by apply Hdo|by intros ?%pins_elem|set_solver]. }
  assert (lblk (l_b s3) x = dread (ldisk s0) n) as Ex by (by rewrite F3, Z.eqb_refl).
  assert (ldisk s4 = dwrite x (dread (ldisk s0) n) (ldisk s)) as Ed by congruence.
  eapply wp_step; [eapply (unpin_spec r db x s4 _ B k); [exact C4|by left|done|]|].
  { rewrite F4, Ex, Ed, dread_dwrite, Z.eqb_refl. done. }
  intros _ s5 (C5 & E5 & L5 & D5 & F5).
  eapply wp_step; [eapply (log_brelse_cache lb n s5 [(db, x)] []); [exact C5|set_solver]|].
  intros _ s6 (C6 & E6 & L6 & D6 & F6).
  eapply wp_step; [eapply (log_brelse_cache db x s6 [] []); [exact C6|set_solver]|].
  intros _ s7 (C7 & E7 & L7 & D7 & F7). apply wp_ret. split; [done|].
  assert (ldisk s7 = dwrite x (dread (ldisk s0) n) (ldisk s)) as Ed7 by congruence.
  assert (∀ m, lblk (l_b s7) m = if m =? x then dread (ldisk s0) n else lblk (l_b s) m) as Hlb.
  { intros m. rewrite F7, F6, F5, F4, F3. case_match; [done|]. by rewrite F2, F1. }
  pose proof (tr_nodup (wf_trans W)) as Hnd.
  split; try done; fold g B.
  - repeat (eapply env_trans; [eassumption|]). apply env_refl.
  - congruence.
  - eapply throughout_trans; [exact I4|]. rewrite Ed7. apply throughout_write; [done|]. split_and!; [done|..].
    + intros m Hm. rewrite dread_dwrite. destruct (Z.eqb_spec m x) as [->|]; [done|by apply Hdo].
    + intros m. rewrite dread_dwrite. case_match; [|done].
      by rewrite <- !Hlo, !(cache_disk_len _ _ _ _ _ I3).
  - intros i y Hi Hy. rewrite Ed7, dread_dwrite, Hlb. destruct (Z.eqb_spec y x) as [->|Hne].
    + pose proof (NoDup_lookup _ _ _ _ Hnd Hx Hy) as <-. split; [|done]. f_equal. unfold n. lia.
    + apply I5; [|done]. destruct (decide (i = k)) as [->|]; [|lia]. congruence.
  - intros m Hm. rewrite Hlb. rewrite (take_S_r _ _ _ Hx) in Hm.
    rewrite (proj2 (Z.eqb_neq m x)) by set_solver. apply I6. set_solver.
Qed.

Lemma install_trans_spec r s :
  log_wf (l_log s) (ldisk s) → cache (l_b s) [] [] (pins r (logged (l_log s)) 0) →
  wp (install_trans r) (λ _ s', install_inv r s (length (logged (l_log s))) s') s.
Proof.
  intros W Hc. unfold install_trans. apply wp_bind, wp_gets. pose proof (logged_length _ _ W) as Hn.
  eapply wp_step with (P := λ _ s', install_inv r s (length (logged (l_log s))) s').
  - apply (wp_for (install_inv r s)).
    + split; try done; [by apply throughout_refl|]. intros i x Hi. lia.
    + intros k s' Hk Hi. replace (0 + Z.of_nat k * 1) with (Z.of_nat k) by lia.
      eapply wp_mono; [apply install_one_spec; [done|lia|done]|]. intros a s2 [-> H2]. done.
    + intros s' Hi. by replace (length (logged (l_log s))) with (Z.to_nat (lh_n (l_log s))) by lia.
  - intros _ s' Hi. by apply wp_ret.
Qed.

(** ** [commit] *)

(** A disk whose log can be recovered, and stands for the contents [f]. *)
Record log_disk (start size : Z) (d0 d : disk) (f : Z → block) : Prop := {
  ld_size : d_size d = d_size d0;
  ld_n : 0 <= hdr_n (dread d start);
  ld_trans : trans_ok start size d0 (hdr_blocks (dread d start));
  ld_len : ∀ n, length (dread d n) = 1024%nat;
  ld_data : ∀ m, is_data start size d0 m → recovered start d m = f m
}.
Arguments ld_size {_ _ _ _ _}. Arguments ld_n {_ _ _ _ _}. Arguments ld_trans {_ _ _ _ _}.
Arguments ld_len {_ _ _ _ _}. Arguments ld_data {_ _ _ _ _}.

(** The disk when its log is empty. *)
Lemma log_disk_empty start size d0 d f :
  1 < size → d_size d = d_size d0 → hdr_n (dread d start) = 0 → (∀ n, length (dread d n) = 1024%nat) →
  (∀ m, is_data start size d0 m → dread d m = f m) → log_disk start size d0 d f.
Proof.
  intros Hs E1 E2 E3 E4. split; try done; [lia| |].
  - unfold hdr_blocks. rewrite E2. split; [simpl; lia|apply NoDup_nil_2|set_solver].
  - intros m Hm. rewrite recovered_empty by done. auto.
Qed.

(** The disk after the commit point. *)
Lemma log_disk_header start size d0 d B f :
  d_size d = d_size d0 → is_header (dread d start) B → trans_ok start size d0 B → (∀ n, length (dread d n) = 1024%nat) →
  (∀ i x, B !! i = Some x → dread d (start + 1 + Z.of_nat i) = f x) →
  (∀ m, is_data start size d0 m → m ∉ B → dread d m = f m) → log_disk start size d0 d f.
Proof.
  intros E1 (_ & Hn & HB) Ht E3 H1 H2. split; try done; [lia|by rewrite HB|].
  intros m Hm. unfold recovered. rewrite HB. unfold redo. destruct (index_of m B) as [i|] eqn:E.
  - apply index_of_Some in E; [auto|apply Ht].
  - apply index_of_None in E. auto.
Qed.

(** Installing does not change what the disk stands for. *)
Lemma log_disk_only start size d0 d d' B f :
  log_disk start size d0 d f → hdr_blocks (dread d start) = B → trans_ok start size d0 B → 0 < size →
  only B d d' → log_disk start size d0 d' f.
Proof.
  intros [L1 L2 L3 L4 L5] HB Ht Hs (O1 & O2 & O3).
  assert (∀ n, region start size n → dread d' n = dread d n) as Hreg.
  { intros n Hn. apply O2. intros Hin. by destruct (tr_data Ht n Hin). }
  assert (dread d' start = dread d start) as Eh by (apply Hreg; unfold region; lia).
  split; try done; [congruence|by rewrite Eh|by rewrite Eh|by intros n; rewrite O3|].
  intros m Hm. rewrite <- L5 by done. unfold recovered. rewrite Eh, HB. apply redo_ext; [apply Ht| |by apply O2].
  intros i Hi. apply Hreg. unfold region. apply lookup_lt_Some in Hi. pose proof (tr_len Ht). lia.
Qed.

(** The disk is at every moment the old or the new one, as it will be
    recovered. *)
Definition atomic (start size : Z) (d0 : disk) (old new : Z → block) (d : disk) : Prop :=
  log_disk start size d0 d old ∨ log_disk start size d0 d new.

(** The states between transactions: nothing pinned, the log empty on disk. *)
Record idle (s : lst) : Prop := {
  idle_wf : log_wf (l_log s) (ldisk s);
  idle_cache : cache (l_b s) [] [] [];
  idle_n : lh_n (l_log s) = 0;
  idle_head : hdr_n (dread (ldisk s) (lg_start (l_log s))) = 0
}.

(** The first half of [commit]: up to the commit point. *)
Lemma commit_point_spec s :
  log_wf (l_log s) (ldisk s) → cache (l_b s) [] [] (logged (l_log s)) →
  hdr_n (dread (ldisk s) (lg_start (l_log s))) = 0 →
  wp (write_log ;; write_head)
     (λ _ s', env s s' ∧ l_log s' = l_log s ∧ cache (l_b s') [] [] (logged (l_log s)) ∧
        is_header (dread (ldisk s') (lg_start (l_log s))) (logged (l_log s)) ∧
        throughout (atomic (lg_start (l_log s)) (lg_size (l_log s)) (ldisk s) (dread (ldisk s)) (lblk (l_b s)))
          (ldisk s) (ldisk s') ∧
        log_disk (lg_start (l_log s)) (lg_size (l_log s)) (ldisk s) (ldisk s') (lblk (l_b s))) s.
Proof.
  intros W Hc Hh. eapply wp_step; [by apply write_log_spec|]. intros _ s1 [I1 I2 I3 I4 I5 I6].
  set (g := l_log s) in *. assert (l_log s = g) as Eg by done. set (B := logged g) in *. set (start := lg_start g) in *.
  pose proof (wf_size W) as Hsz. pose proof (tr_len (wf_trans W)) as HB. fold g in HB. fold B in HB.
  destruct (throughout_end _ _ _ I4) as (_ & (S1 & O1 & Len1) & _).
  assert (log_wf (l_log s1) (ldisk s1)) as W1 by (rewrite I2; by eapply log_wf_size).
  assert (start ∉ B) as HsB.
  { intros Hin. destruct (tr_data (wf_trans W) _ Hin) as [_ []]. unfold region. fold g. lia. }
  assert (∀ n, length (dread (ldisk s) n) = 1024%nat) as Hl0 by (intros n; by eapply cache_disk_len).
  eapply wp_mono; [apply (write_head_spec s1 B); [done|done|by rewrite I2|unfold NBUF, LOGSIZE, MAXOPBLOCKS in *; lia]|].
  intros _ s2 ((E2 & L2 & h & Hhd & D2 & F2) & C2). rewrite I2 in *. fold start in D2, F2. fold B in Hhd.
  assert (∀ n, length (dread (ldisk s2) n) = 1024%nat) as Hl2 by (intros n; by eapply cache_disk_len).
  assert (∀ m, m ≠ start → dread (ldisk s2) m = dread (ldisk s1) m) as Hd2.
  { intros m Hm. rewrite D2, dread_dwrite. by rewrite (proj2 (Z.eqb_neq _ _)). }
  assert (dread (ldisk s2) start = h) as Hh2 by (rewrite D2, dread_dwrite, Z.eqb_refl; done).
  assert (log_disk start (lg_size g) (ldisk s) (ldisk s2) (lblk (l_b s))) as Hnew.
  { apply (log_disk_header _ _ _ _ B); [by rewrite D2|by rewrite Hh2|apply (wf_trans W)|done|..].
    - intros i x Hx. rewrite Hd2 by lia. apply I6; [by eapply lookup_lt_Some|done].
    - intros m [Hm Hreg] HmB. unfold region in Hreg. fold start in Hreg. rewrite Hd2 by lia.
      rewrite O1 by (fold g start; lia). symmetry. apply (clean_lblk _ _ _ _ _ Hc); set_solver. }
  split_and!; [by eapply env_trans|congruence|done|by rewrite Hh2| |done].
  eapply throughout_trans.
  - eapply throughout_mono; [|exact I4]. intros d (A1 & A2 & A3). left. apply log_disk_empty; [lia|done| |by intros n; rewrite A3|].
    + rewrite A2; [done|fold g start; lia].
    + intros m [Hm Hreg]. apply A2. unfold region in Hreg. fold g start in Hreg |- *. lia.
  - rewrite D2. apply throughout_write; [left|right; by rewrite <- D2].
    apply log_disk_empty; [lia|done| |by intros n; rewrite Len1|].
    + rewrite O1; [done|fold g start; lia].
    + intros m [Hm Hreg]. apply O1. unfold region in Hreg. fold g start in Hreg |- *. lia.
Qed.

(** The second half: install and clear, for [commit] and for recovery. *)
Definition finish (r : Z) : M lst unit := install_trans r ;; setl (set_n 0) ;; write_head.

Lemma set_n0_wf g d : log_wf g d → log_wf (set_n 0 g) d ∧ logged (set_n 0 g) = [].
Proof.
  intros [W1 W2 W3 W4 W5 W6 W7 W8]. split; [|done]. split; simpl; try done.
  split; [simpl; lia|apply NoDup_nil_2|]. simpl. intros n Hn. set_solver.
Qed.

Lemma finish_spec r s f :
  log_wf (l_log s) (ldisk s) → cache (l_b s) [] [] (pins r (logged (l_log s)) 0) →
  is_header (dread (ldisk s) (lg_start (l_log s))) (logged (l_log s)) →
  log_disk (lg_start (l_log s)) (lg_size (l_log s)) (ldisk s) (ldisk s) f →
  wp (finish r)
     (λ _ s', env s s' ∧ l_log s' = set_n 0 (l_log s) ∧ idle s' ∧
        throughout (λ d, log_disk (lg_start (l_log s)) (lg_size (l_log s)) (ldisk s) d f) (ldisk s) (ldisk s') ∧
        ∀ m, is_data (lg_start (l_log s)) (lg_size (l_log s)) (ldisk s) m →
          lblk (l_b s') m = f m ∧ dread (ldisk s') m = f m) s.
Proof.
  intros W Hc Hhd Hld. unfold finish. eapply wp_step; [by apply install_trans_spec|]. intros _ s1 [I1 I2 I3 I4 I5 I6].
  set (g := l_log s) in *. assert (l_log s = g) as Eg by done. set (B := logged g) in *. set (start := lg_start g) in *.
  destruct (throughout_end _ _ _ I4) as (_ & O1 & S1). pose proof (wf_size W) as Hsz.
  destruct (set_n0_wf _ _ (log_wf_size _ _ _ S1 W)) as [W1 Hlg]. fold g in W1, Hlg.
  assert (pins r B (length B) = []) as Ep by (unfold pins; case_match; [by apply drop_all|done]). rewrite Ep in I3.
  apply wp_bind, wp_modify. rewrite I2. set (s1' := mkLst (l_b s1) (set_n 0 g)).
  eapply wp_mono; [apply (write_head_spec s1' []); [done|done|set_solver|unfold NBUF; simpl; lia]|].
  intros _ s2 ((E2 & L2 & h & Hh2 & D2 & F2) & C2). change (lg_start (l_log s1')) with start in *.
  change (logged (l_log s1')) with (logged (set_n 0 g)) in Hh2. rewrite Hlg in Hh2. destruct Hh2 as (Hh2 & Hn2 & HB2).
  assert (∀ m, m ≠ start → dread (ldisk s2) m = dread (ldisk s1) m) as Hd2.
  { intros m Hm. rewrite D2, dread_dwrite. by rewrite (proj2 (Z.eqb_neq _ _)). }
  assert (dread (ldisk s2) start = h) as Hs2 by (rewrite D2, dread_dwrite, Z.eqb_refl; done).
  assert (∀ m, is_data start (lg_size g) (ldisk s) m → dread (ldisk s2) m = f m) as Hfin.
  { intros m Hm. pose proof Hm as [Hmr Hreg]. unfold region in Hreg. rewrite Hd2 by lia.
    rewrite <- (ld_data Hld) by done. unfold recovered. fold g start. destruct Hhd as (_ & _ & ->).
    unfold redo. destruct (index_of m B) as [i|] eqn:Ei.
    - apply index_of_Some in Ei; [|apply (wf_trans W)]. apply I5; [by eapply lookup_lt_Some|done].
    - apply index_of_None in Ei. by apply O1. }
  split_and!; [by eapply env_trans|exact L2| | |].
  - assert (d_size (ldisk s2) = d_size (ldisk s1)) as S2 by (by rewrite D2).
    split; [rewrite L2; by eapply log_wf_size|done|by rewrite L2|]. rewrite L2. change (lg_start (l_log s1')) with start. by rewrite Hs2, Hn2.
  - eapply throughout_trans.
    + eapply throughout_mono; [|exact I4]. intros d Hd. eapply log_disk_only; [exact Hld| |apply (wf_trans W)|lia|exact Hd].
      by destruct Hhd as (_ & _ & ?).
    + rewrite D2. apply throughout_write.
      * eapply log_disk_only; [exact Hld| |apply (wf_trans W)|lia|done]. by destruct Hhd as (_ & _ & ?).
      * rewrite <- D2. apply log_disk_empty; [lia|rewrite D2; by simpl|by rewrite Hs2, Hn2| |done].
        intros n. by eapply cache_disk_len.
  - intros m Hm. split; [|by apply Hfin]. rewrite (clean_lblk _ _ _ _ _ C2) by set_solver. by apply Hfin.
Qed.

(** [commit] writes all the changed blocks or none, whenever a crash comes. *)
Record committed (s s' : lst) : Prop := {
  cm_env : env s s';
  cm_log : l_log s' = set_n 0 (l_log s);
  cm_idle : idle s';
  cm_atomic : throughout
    (atomic (lg_start (l_log s)) (lg_size (l_log s)) (ldisk s) (dread (ldisk s)) (lblk (l_b s))) (ldisk s) (ldisk s');
  cm_durable : ∀ m, is_data (lg_start (l_log s)) (lg_size (l_log s)) (ldisk s) m →
    lblk (l_b s') m = lblk (l_b s) m ∧ dread (ldisk s') m = lblk (l_b s) m
}.

Lemma commit_spec s :
  log_wf (l_log s) (ldisk s) → cache (l_b s) [] [] (logged (l_log s)) →
  hdr_n (dread (ldisk s) (lg_start (l_log s))) = 0 → wp commit (λ _ s', committed s s') s.
Proof.
  intros W Hc Hh. unfold commit. apply wp_bind, wp_gets. pose proof (logged_length _ _ W) as Hn.
  destruct (Z.ltb_spec 0 (lh_n (l_log s))) as [H0|H0].
  - change (wp (write_log ;; write_head ;; finish 0) (λ _ s', committed s s') s).
    assert (∀ (m1 m2 m3 : M lst unit) Q x, wp ((m1 ;; m2) ;; m3) Q x → wp (m1 ;; m2 ;; m3) Q x) as Hassoc.
    { intros m1 m2 m3 Q x. unfold wp, bind. by destruct (m1 x) as [[]| | |]. }
    apply Hassoc. eapply wp_step; [by apply commit_point_spec|]. intros _ s1 (E1 & L1 & C1 & Hd1 & T1 & N1).
    assert (d_size (ldisk s1) = d_size (ldisk s)) as S1 by apply N1.
    eapply wp_mono; [apply (finish_spec 0 s1 (lblk (l_b s)))|].
    { rewrite L1. by eapply log_wf_size. } { by rewrite L1. } { by rewrite L1. }
    { rewrite L1. destruct N1 as [N1 N2 [] N4 N5]. split; try done. split; try done; unfold is_data; rewrite ?S1; auto.
      unfold is_data. rewrite S1. auto. }
    rewrite L1. intros _ s2 (E2 & L2 & Id & T2 & F2). split; [by eapply env_trans|done|done| |].
    + eapply throughout_trans; [exact T1|]. eapply throughout_mono; [|exact T2]. intros d [D1 D2 [] D4 D5]. right.
      unfold is_data in *. rewrite S1 in *. split; try done.
    + intros m Hm. apply F2. unfold is_data. by rewrite S1.
  - apply wp_ret. assert (lh_n (l_log s) = 0) as En by (pose proof (wf_n W); lia).
    assert (logged (l_log s) = []) as El by (unfold logged; by rewrite En). rewrite El in Hc.
    assert (l_log s = set_n 0 (l_log s)) as Es by (rewrite <- En; by destruct (l_log s)).
    split; [done|done|by split| |].
    + apply throughout_refl. left. apply log_disk_empty; [pose proof (wf_size W); lia|done|done| |done].
      intros n. by eapply cache_disk_len.
    + intros m Hm. split; [done|]. symmetry. apply (clean_lblk _ _ _ _ _ Hc); set_solver.
Qed.

(** ** Recovery *)

(** The log as [initlog] places it, before the header has been read. *)
Record placed (g : log) (d : disk) : Prop := {
  pl_dev : lg_dev g = ROOTDEV;
  pl_start : 0 < lg_start g;
  pl_size : 1 < lg_size g <= LOGSIZE;
  pl_fits : lg_start g + lg_size g <= d_size d;
  pl_disk : d_size d < 2 ^ 31;
  pl_arr : length (lh_block g) = 30%nat
}.
Arguments pl_dev {_ _}. Arguments pl_start {_ _}. Arguments pl_size {_ _}. Arguments pl_fits {_ _}.
Arguments pl_disk {_ _}. Arguments pl_arr {_ _}.

Lemma set_block_no_run i v s :
  0 <= i < Z.of_nat (length (lh_block (l_log s))) →
  set_block_no i v s = Ok (tt, mkLst (l_b s) (set_blocks (<[Z.to_nat i := v]> (lh_block (l_log s))) (l_log s))).
Proof. intros Hi. unfold set_block_no. replace (_ && _) with true by lia. done. Qed.

(** The header, read. *)
Definition with_header (g : log) (n : Z) (bl : list Z) : log :=
  mkLog (lg_start g) (lg_size g) (lg_outstanding g) (lg_committing g) (lg_dev g) n bl.

Lemma read_head_spec s :
  placed (l_log s) (ldisk s) → cache (l_b s) [] [] [] →
  let h := dread (ldisk s) (lg_start (l_log s)) in
  0 <= hdr_n h <= 30 →
  wp read_head (λ _ s', cache (l_b s') [] [] [] ∧ env s s' ∧ ldisk s' = ldisk s ∧ (∀ m, lblk (l_b s') m = lblk (l_b s) m) ∧
    ∃ bl, length bl = 30%nat ∧ take (Z.to_nat (hdr_n h)) bl = hdr_blocks h ∧
      l_log s' = with_header (l_log s) (hdr_n h) bl) s.
Proof.
  intros W Hc h Hn. unfold read_head. apply wp_bind, wp_gets. set (g := l_log s) in *. set (start := lg_start g) in *.
  pose proof (pl_start W). pose proof (pl_size W). pose proof (pl_fits W). pose proof (pl_disk W).
  eapply wp_step; [apply (log_bread_cache start s [] [] []); [apply (pl_dev W)|done|set_solver|unfold start; lia|lia|right; unfold NBUF; simpl; lia]|].
  intros b s1 (C1 & E1 & L1 & D1 & F1). eapply wp_bind, log_bdata_cache; [exact C1|by left|].
  rewrite F1, (clean_lblk _ _ _ _ _ Hc) by set_solver. fold h. apply wp_bind, wp_modify. rewrite L1. fold (hdr_n h).
  eapply wp_step with (P := λ _ s2, l_b s2 = l_b s1 ∧ ∃ bl, length bl = 30%nat ∧
     take (Z.to_nat (hdr_n h)) bl = hdr_blocks h ∧ l_log s2 = with_header g (hdr_n h) bl).
  - apply (wp_for (λ k s2, l_b s2 = l_b s1 ∧ ∃ bl, length bl = 30%nat ∧
      take k bl = take k (hdr_blocks h) ∧ l_log s2 = with_header g (hdr_n h) bl)).
    + split; [done|]. exists (lh_block g). split_and!; [apply (pl_arr W)|done|done].
    + intros k s2 Hk (B2 & bl & Hbl & Ht & L2). replace (0 + Z.of_nat k * 1) with (Z.of_nat k) by lia.
      apply wp_bind. eapply wp_eq; [apply set_block_no_run; rewrite L2; simpl; lia|]. apply wp_ret. simpl. rewrite L2. simpl.
      split; [done|]. exists (<[Z.to_nat (Z.of_nat k) := get_i32 h (4 + 4 * Z.of_nat k)]> bl). rewrite Nat2Z.id, length_insert.
      assert (hdr_blocks h !! k = Some (hdr_block h (Z.of_nat k))) as Hlk.
      { unfold hdr_blocks. rewrite list_lookup_fmap, lookup_seqZ_lt by lia. done. }
      split_and!; [done| |done]. rewrite (take_S_r _ _ _ Hlk). unfold hdr_block.
      erewrite take_S_r by (apply list_lookup_insert_eq; lia). rewrite take_insert_ge by lia. by rewrite Ht.
    + intros s2 (B2 & bl & Hbl & Ht & L2). split; [done|]. exists bl. split_and!; [done| |done]. rewrite Ht.
      apply take_ge. unfold hdr_blocks. rewrite length_fmap, length_seqZ. lia.
  - intros _ s2 (B2 & bl & Hbl & Ht & L2).
    eapply wp_mono; [eapply (log_brelse_cache b start s2 [] []); [by rewrite B2|set_solver]|].
    intros _ s3 (C3 & E3 & L3 & D3 & F3). rewrite B2 in *.
    split_and!; [done| |congruence|by intros m; rewrite F3, F1|exists bl; split_and!; congruence].
    destruct E3 as [E3 E3']. unfold env in *. rewrite B2 in *. destruct E1 as [E1 E1']. split; [by rewrite E3|congruence].
Qed.

(** Recovery from a crash, even if there are crashes in the middle of it. *)
Record recovery (s s' : lst) (f : Z → block) : Prop := {
  rc_env : env s s';
  rc_idle : idle s';
  rc_log : ∃ bl, l_log s' = with_header (l_log s) 0 bl;
  rc_crash : throughout (λ d, log_disk (lg_start (l_log s)) (lg_size (l_log s)) (ldisk s) d f) (ldisk s) (ldisk s');
  rc_data : ∀ m, is_data (lg_start (l_log s)) (lg_size (l_log s)) (ldisk s) m →
    lblk (l_b s') m = f m ∧ dread (ldisk s') m = f m
}.

Lemma recover_from_log_spec s f :
  placed (l_log s) (ldisk s) → cache (l_b s) [] [] [] →
  log_disk (lg_start (l_log s)) (lg_size (l_log s)) (ldisk s) (ldisk s) f →
  wp recover_from_log (λ _ s', recovery s s' f) s.
Proof.
  intros W Hc Hld. set (g := l_log s) in *. set (start := lg_start g) in *.
  assert (length (hdr_blocks (dread (ldisk s) start)) = Z.to_nat (hdr_n (dread (ldisk s) start))) as Hlen.
  { unfold hdr_blocks. by rewrite length_fmap, length_seqZ. }
  pose proof (ld_n Hld) as Hn. pose proof (tr_len (ld_trans Hld)) as Ht. rewrite Hlen in Ht.
  pose proof (pl_size W). unfold LOGSIZE, MAXOPBLOCKS in *.
  eapply wp_step; [apply read_head_spec; [done|done|fold g start; lia]|]. fold g start.
  intros _ s1 (C1 & E1 & D1 & F1 & bl & Hbl & Htk & L1).
  assert (logged (l_log s1) = hdr_blocks (dread (ldisk s) start)) as Elog by (unfold logged; rewrite L1; done).
  change (wp (finish 1) (λ _ s', recovery s s' f) s1).
  eapply wp_mono; [apply (finish_spec 1 s1 f)|].
  - rewrite D1. split; try (rewrite L1; simpl; try apply W; done).
    + apply (pl_disk W).
    + rewrite L1. simpl. unfold LOGSIZE, MAXOPBLOCKS. lia.
    + rewrite Elog. rewrite L1. apply (ld_trans Hld).
  - done.
  - rewrite D1, Elog. rewrite L1. change (lg_start _) with start. split_and!; [apply (ld_len Hld)|lia|done].
  - rewrite L1, D1. exact Hld.
  - rewrite L1, D1. intros _ s2 (E2 & L2 & Id & T2 & F2). split; [by eapply env_trans|done|by exists bl|done|done].
Qed.
