(* ===== verification/LogTrans.v ===== *)
(** * Transactions (kernel/log.c)

    [begin_op], [log_write] and [end_op] around the file system's changes,
    and the crash safety of the whole. *)

From Stdlib Require Import ZifyBool.
From S2P Require Import Prelude Random Spinlock Block Bio BioSpec Cache Log LogSpec.

(** Between transactions. *)
Record quiet (s : lst) : Prop := {
  q_idle : idle s;
  q_out : lg_outstanding (l_log s) = 0;
  q_com : lg_committing (l_log s) = 0;
  q_lk : lockable LK_LOG (bs_lk (l_b s))
}.

(** Inside one: [H] is held, [U] changed but not logged yet. *)
Record in_trans (s : lst) (H : list (Z * Z)) (U : list Z) : Prop := {
  it_wf : log_wf (l_log s) (ldisk s);
  it_cache : cache (l_b s) H U (logged (l_log s));
  it_head : hdr_n (dread (ldisk s) (lg_start (l_log s))) = 0;
  it_out : 1 <= lg_outstanding (l_log s);
  it_com : lg_committing (l_log s) = 0;
  it_lk : lockable LK_LOG (bs_lk (l_b s))
}.
Arguments it_wf {_ _ _}. Arguments it_cache {_ _ _}. Arguments it_head {_ _ _}. Arguments it_out {_ _ _}.
Arguments it_com {_ _ _}. Arguments it_lk {_ _ _}.

(** Nothing but the cache and the log header changed. *)
Definition same_place (s s' : lst) : Prop :=
  env s s' ∧ ldisk s' = ldisk s ∧ lg_start (l_log s') = lg_start (l_log s) ∧ lg_size (l_log s') = lg_size (l_log s) ∧
  lg_outstanding (l_log s') = lg_outstanding (l_log s).

Lemma begin_op_spec s :
  quiet s →
  wp begin_op (λ _ s', in_trans s' [] [] ∧ lg_outstanding (l_log s') = 1 ∧ logged (l_log s') = [] ∧ env s s' ∧ ldisk s' = ldisk s ∧
    lg_start (l_log s') = lg_start (l_log s) ∧ lg_size (l_log s') = lg_size (l_log s) ∧
    ∀ m, lblk (l_b s') m = lblk (l_b s) m) s.
Proof.
  intros [[W Hc Hn Hh] Ho Hcm Hl]. unfold begin_op. apply wp_bind, wp_acquire; [done|]. apply wp_bind, wp_gets. simpl.
  rewrite Ho, Hcm, Hn. cbn. apply wp_bind, wp_modify. apply (wp_release _ (bs_lk (l_b s))); [done|done|]. intros lk Hlk.
  assert (logged (set_outstanding (0 + 1) (l_log s)) = []) as El by (unfold logged; simpl; by rewrite Hn).
  split; [split|split_and!]; simpl; rewrite ?El; try done.
  - destruct W as [W1 W2 W3 W4 W5 W6 W7 W8]. by split.
  - by apply (cache_lk (l_b s)).
  - by rewrite Hlk.
Qed.

(** ** [log_write] *)

Lemma log_index_run n l bno i :
  (∀ x, x ∈ take n l → 0 <= x < 2 ^ 32) →
  log_index n i l bno = match index_of bno (take n l) with
                        | Some k => i + Z.of_nat k
                        | None => i + Z.of_nat (length (take n l))
                        end.
Proof.
  revert i n. induction l as [|x l IH]; intros i [|n] Hl; simpl; try lia.
  unfold index_of. simpl. rewrite (wrap_small 32) by (apply Hl; set_solver).
  destruct (Z.eqb_spec x bno) as [->|Hne].
  - rewrite decide_True by done. simpl. lia.
  - rewrite decide_False by congruence. rewrite IH by set_solver. unfold index_of.
    destruct (list_find (bno =.) (take n l)) as [[k y]|]; simpl; lia.
Qed.

Lemma log_wf_add g d n :
  log_wf g d → is_data (lg_start g) (lg_size g) d n → lh_n g < lg_size g - 1 → n ∉ logged g →
  let g' := set_n (lh_n g + 1) (set_blocks (<[Z.to_nat (lh_n g) := n]> (lh_block g)) g) in
  log_wf g' d ∧ logged g' = logged g ++ [n].
Proof.
  intros W Hd Hn HnB g'. pose proof (wf_size W). pose proof (wf_n W). pose proof (wf_arr W) as Ha.
  pose proof (logged_length _ _ W) as Hl. unfold LOGSIZE, MAXOPBLOCKS in *.
  assert (logged g' = logged g ++ [n]) as E.
  { unfold logged, g'. simpl. replace (Z.to_nat (lh_n g + 1)) with (S (Z.to_nat (lh_n g))) by lia.
    erewrite take_S_r by (apply list_lookup_insert_eq; lia). by rewrite take_insert_ge by lia. }
  split; [|done]. destruct W as [W1 W2 W3 W4 W5 W6 W7 [T1 T2 T3]].
  split; simpl; try done; [by rewrite length_insert|unfold LOGSIZE, MAXOPBLOCKS; lia|].
  rewrite E. split.
  - rewrite length_app. simpl. lia.
  - apply NoDup_app. split_and!; [done| |apply NoDup_singleton]. intros m Hm ->%list_elem_of_singleton. done.
  - intros m [Hm| ->%list_elem_of_singleton]%elem_of_app; [by apply T3|done].
Qed.

Lemma log_write_spec b n s H U :
  in_trans s H (n :: U) → (b, n) ∈ H → is_data (lg_start (l_log s)) (lg_size (l_log s)) (ldisk s) n →
  lh_n (l_log s) < lg_size (l_log s) - 1 →
  wp (log_write b) (λ _ s', in_trans s' H U ∧ same_place s s' ∧ (∀ m, lblk (l_b s') m = lblk (l_b s) m) ∧
    logged (l_log s') = (if bool_decide (n ∈ logged (l_log s)) then logged (l_log s) else logged (l_log s) ++ [n])) s.
Proof.
  intros [W Hc Hh Ho Hcm Hl] Hbn Hd Hn. unfold log_write. set (g := l_log s) in *. set (B := logged g) in *.
  pose proof (logged_length _ _ W) as HB. fold B in HB. pose proof (wf_size W). pose proof (wf_n W). pose proof (wf_disk W).
  unfold LOGSIZE, MAXOPBLOCKS in *.
  apply wp_bind, wp_acquire; [done|]. apply wp_bind, wp_gets. simpl l_log. fold g.
  replace (_ || _) with false by (unfold LOGSIZE, MAXOPBLOCKS; lia).
  rewrite (proj2 (Z.ltb_ge _ _)) by lia. apply wp_bind, wp_zoom, wp_gets.
  change (b_blockno (buf_at (bufs (view (set (acquired LK_LOG (view s)) s))) b)) with (b_blockno (bf (l_b s) b)).
  assert (b_blockno (bf (l_b s) b) = n) as En.
  { destruct Hc as [l Hc]. by destruct (co_held Hc b n Hbn) as (_ & _ & ? & _). }
  rewrite En. pose proof Hd as [Hnr Hnreg].
  rewrite log_index_run by (intros x Hx; destruct (tr_data (wf_trans W) x Hx) as [? _]; lia).
  fold (logged g). fold B. rewrite (swrap_small 32) by lia.
  set (s1 := set (acquired LK_LOG (bs_lk (l_b s))) s). change (set _ (set _ s)) with s1.
  assert (cache (l_b s1) H (n :: U) B) as Hc1 by (by apply (cache_acquired (l_b s))).
  destruct (index_of n B) as [k|] eqn:Ek.
  - apply index_of_Some in Ek; [|apply (wf_trans W)]. pose proof (lookup_lt_Some _ _ _ Ek) as Hk.
    assert (n ∈ B) as HnB by (by eapply list_elem_of_lookup_2).
    apply wp_bind. eapply wp_eq; [apply set_block_no_run; change (l_log s1) with g; rewrite (wf_arr W); lia|].
    change (l_log s1) with g. apply lookup_take_Some in Ek as [Ek _].
    rewrite list_insert_id by (by replace (Z.to_nat (0 + Z.of_nat k)) with k by lia).
    replace (set_blocks (lh_block g) g) with g by (by destruct g).
    rewrite (proj2 (Z.eqb_neq _ _)) by lia. apply wp_bind, wp_ret.
    apply (wp_release _ (bs_lk (l_b s))); [done|done|]. intros lk Hlk.
    rewrite bool_decide_eq_true_2 by done. split_and!; [|done|done|done].
    split; try done; simpl; [|by rewrite Hlk]. apply pinned_cache with n; [|done]. by apply (cache_lk (l_b s)).
  - apply index_of_None in Ek.
    apply wp_bind. eapply wp_eq; [apply set_block_no_run; change (l_log s1) with g; rewrite (wf_arr W); lia|].
    change (l_log s1) with g. replace (Z.to_nat (0 + Z.of_nat (length B))) with (Z.to_nat (lh_n g)) by lia.
    rewrite (proj2 (Z.eqb_eq _ _)) by lia. apply wp_bind, wp_bind, wp_zoom.
    eapply wp_mono; [by eapply bpin_cache|]. intros _ t (Ct & (Elk & Epid & Edk) & Et). simpl in *.
    apply wp_modify. apply (wp_release _ (bs_lk (l_b s))); [done|done|]. intros lk Hlk.
    destruct (log_wf_add g (ldisk s) n W Hd Hn Ek) as [W' El']. fold B in El'.
    rewrite bool_decide_eq_false_2 by done. simpl in *.
    split_and!; [|by split_and!|done|done].
    split; simpl; try done; [by rewrite Edk| |by rewrite Edk|by rewrite Hlk].
    rewrite El'. apply cache_relock; [done|]. rewrite Hlk. by eapply (cache_locks_of (l_b s)).
Qed.

(** ** [end_op] *)

(** What [end_op] of the last transaction does to the disk. *)
Record ended (s s' : lst) : Prop := {
  en_quiet : quiet s';
  en_env : env s s';
  en_place : lg_start (l_log s') = lg_start (l_log s) ∧ lg_size (l_log s') = lg_size (l_log s);
  en_atomic : throughout
    (atomic (lg_start (l_log s)) (lg_size (l_log s)) (ldisk s) (dread (ldisk s)) (lblk (l_b s))) (ldisk s) (ldisk s');
  en_durable : ∀ m, is_data (lg_start (l_log s)) (lg_size (l_log s)) (ldisk s) m →
    lblk (l_b s') m = lblk (l_b s) m ∧ dread (ldisk s') m = lblk (l_b s) m
}.

Lemma idle_relock s lk g :
  idle s → cache_locks lk → (∃ o c, g = set_outstanding o (set_committing c (l_log s))) → idle (mkLst (set lk (l_b s)) g).
Proof.
  intros [W C Hn Hh] Hlk (o & c & ->). split; simpl; try done.
  - destruct W as [W1 W2 W3 W4 W5 W6 W7 W8]. by split.
  - by apply cache_relock.
Qed.

Lemma end_op_spec s :
  in_trans s [] [] → lg_outstanding (l_log s) = 1 → wp end_op (λ _ s', ended s s') s.
Proof.
  intros [W Hc Hh Ho Hcm Hl] Ho1. unfold end_op. apply wp_bind, wp_acquire; [done|]. apply wp_bind, wp_gets. simpl l_log.
  apply wp_bind, wp_modify. rewrite Hcm, Ho1. cbn. apply wp_bind, wp_modify.
  apply wp_bind, (wp_release _ (bs_lk (l_b s))); [done|done|]. intros lk1 Hlk1.
  set (g1 := set_committing 1 (set_outstanding 0 (l_log s))).
  set (s1 := mkLst (set lk1 (l_b s)) g1).
  change (set lk1 _) with s1.
  assert (log_wf g1 (ldisk s)) as W1 by (destruct W as [W1 W2 W3 W4 W5 W6 W7 W8]; by split).
  eapply wp_step; [apply (commit_spec s1); [done|by apply (cache_lk (l_b s))|done]|].
  intros _ s2 [E2 L2 I2 A2 D2].
  assert (lockable LK_LOG (bs_lk (l_b s2))) as Hl2. { destruct E2 as [E2 _]. rewrite E2. simpl. by rewrite Hlk1. }
  apply wp_bind, wp_acquire; [done|]. apply wp_bind, wp_modify. apply wp_bind, wp_modify.
  apply (wp_release _ (bs_lk (l_b s2))); [done|apply wakeup_chan_eqv|]. intros lk3 Hlk3. simpl.
  split.
  - split; simpl; [|by rewrite L2|done|by rewrite Hlk3].
    apply (idle_relock s2); [done|rewrite Hlk3; eapply cache_locks_of, I2|].
    exists 0, 0. rewrite L2. done.
  - destruct E2 as [E2 E2']. split; simpl; [by rewrite Hlk3, E2|done].
  - simpl. by rewrite L2.
  - exact A2.
  - exact D2.
Qed.

(** ** Boot *)

(** After [k] turns of [binit]'s loop. *)
Record binit_inv (s0 : bst) (k : nat) (s : bst) : Prop := {
  bi_hart : hart_ok (bs_lk s);
  bi_free : lockable LK_BCACHE (bs_lk s) ∧ ∀ b, 0 <= b < Z.of_nat k → lockable (LK_BUF b) (bs_lk s);
  bi_rest : bs_pid s = bs_pid s0 ∧ bs_disk s = bs_disk s0;
  bi_links : linked (bufs s) (rev (seqZ 0 (Z.of_nat k)));
  bi_core : ∀ b, core (bf s b) = core buf0
}.

Lemma hart_ok_set_lock id k lk : hart_ok lk → hart_ok (set_lock id k lk).
Proof. done. Qed.

Lemma lockable_set_lock id id' lk :
  lockable id' lk ∨ (hart_ok lk ∧ id' = id) → lockable id' (set_lock id free_lock lk).
Proof.
  intros [[Hh Hf]|[Hh ->]]; (split; [done|]); rewrite lock_of_set; case_decide; done.
Qed.

Lemma rev_seqZ_S k : rev (seqZ 0 (Z.of_nat (S k))) = Z.of_nat k :: rev (seqZ 0 (Z.of_nat k)).
Proof.
  replace (Z.of_nat (S k)) with (Z.of_nat k + 1) by lia. rewrite seqZ_app by lia. rewrite rev_app_distr. simpl.
  by rewrite Z.add_0_l.
Qed.

Lemma rev_seqZ_elem k x : x ∈ rev (seqZ 0 (Z.of_nat k)) ↔ 0 <= x < Z.of_nat k.
Proof. rewrite list_elem_of_In, <- in_rev, <- list_elem_of_In, elem_of_seqZ. lia. Qed.

Lemma links_block t i k c :
  b_next (buf_at (upd i (set_block k) t) c) = b_next (buf_at t c) ∧ b_prev (buf_at (upd i (set_block k) t) c) = b_prev (buf_at t c).
Proof. rewrite buf_at_upd. case_decide; subst; done. Qed.

Lemma binit_step s0 k s lk :
  (k < NBUF)%nat → binit_inv s0 k s → lk = set_lock (LK_BUF (Z.of_nat k)) free_lock (bs_lk s) →
  binit_inv s0 (S k) (mkBst lk (bs_pid s)
    (upd HEAD (set_next (Z.of_nat k)) (upd (b_next (buf_at (bufs s) HEAD)) (set_prev (Z.of_nat k))
      (upd (Z.of_nat k) (set_block (mkSleeplock 0 0)) (upd (Z.of_nat k) (set_prev HEAD)
        (upd (Z.of_nat k) (set_next (b_next (buf_at (bufs s) HEAD))) (bufs s)))))) (bs_disk s)).
Proof.
  intros Hk [I1 [I2 I2'] I3 I4 I5] ->. assert (HEAD ≠ Z.of_nat k) as Hhk by (unfold HEAD, NBUF in *; lia).
  split; simpl; try done.
  - split.
    + apply lockable_set_lock. by left.
    + intros b Hb. apply lockable_set_lock. destruct (decide (b = Z.of_nat k)) as [->|]; [by right|left]. apply I2'. lia.
  - rewrite rev_seqZ_S. eapply linked_ext; [|apply linked_pushed; [exact I4|]].
    + intros i. unfold pushed. rewrite !next_upd, !next_upd_prev, !prev_upd_next, !prev_upd.
      destruct (links_block (upd (Z.of_nat k) (set_prev HEAD) (upd (Z.of_nat k) (set_next (b_next (bf s HEAD))) (bufs s)))
        (Z.of_nat k) (mkSleeplock 0 0) i) as [-> ->]. by rewrite next_upd_prev, prev_upd.
    + apply NoDup_cons. rewrite elem_of_cons, rev_seqZ_elem. split; [unfold HEAD, NBUF in *; lia|].
      apply NoDup_cons. rewrite rev_seqZ_elem. split; [lia|]. rewrite <- Permutation_rev. apply NoDup_seqZ.
  - intros b. rewrite core_next, core_prev, buf_at_upd. case_decide as E; [|by rewrite core_prev, core_next].
    subst b. pose proof (core_prev (Z.of_nat k) HEAD (upd (Z.of_nat k) (set_next (b_next (buf_at (bufs s) HEAD))) (bufs s)) (Z.of_nat k)) as Ec.
    rewrite core_next, I5 in Ec. apply core_fields in Ec as (E1 & E2 & E3 & E4 & E5 & E6).
    unfold core. simpl. by rewrite E1, E2, E3, E5, E6.
Qed.

Lemma zero_block_length : length zero_block = 1024%nat.
Proof. apply length_replicate. Qed.

#[local] Opaque zero_block.

(** A zeroed cache with a well-formed disk. *)
Definition fresh (s : bst) : Prop :=
  hart_ok (bs_lk s) ∧ bufs s = ∅ ∧ ∀ n, length (dread (bs_disk s) n) = 1024%nat.

Lemma binit_cache s0 s :
  binit_inv s0 NBUF s → (∀ n, length (dread (bs_disk s) n) = 1024%nat) → cache s [] [] [].
Proof.
  intros [I1 [I2 I2'] I3 I4 I5] Hd. exists (rev (seqZ 0 (Z.of_nat NBUF))).
  assert (∀ b, b_valid (bf s b) = 0 ∧ b_dev (bf s b) = 0 ∧ b_refcnt (bf s b) = 0 ∧
    b_lock (bf s b) = mkSleeplock 0 0 ∧ b_data (bf s b) = zero_block) as Hb.
  { intros b. by destruct (core_fields _ _ (I5 b)) as (-> & -> & _ & -> & -> & ->). }
  split; try done; try (intros b; destruct (Hb b) as (E1 & E2 & E3 & E4 & E5)).
  - split; try done; try (intros b; destruct (Hb b) as (E1 & E2 & E3 & E4 & E5)).
    + symmetry. apply Permutation_rev.
    + intros _. by rewrite E3.
    + by rewrite E2.
    + intros _ _. by rewrite E4.
    + by rewrite E1.
    + by rewrite E1.
    + intros _. rewrite E5. apply zero_block_length.
    + intros Hin%rev_seqZ_elem. by apply I2'.
  - intros _. unfold pinned, is_locked. by rewrite E2, E3, E4.
  - apply NoDup_nil_2.
  - set_solver.
  - intros _. unfold is_locked. by rewrite E4.
  - by rewrite E1.
  - set_solver.
  - apply NoDup_nil_2.
Qed.

Lemma binit_spec s :
  fresh s → wp binit (λ _ s', cache s' [] [] [] ∧ hart_ok (bs_lk s') ∧ bs_pid s' = bs_pid s ∧ bs_disk s' = bs_disk s) s.
Proof.
  intros (Hh & Ht & Hd). unfold binit.
  assert (∀ lk, zoom (S := bst) (initlock LK_BCACHE) lk = Ok (tt, set (set_lock LK_BCACHE free_lock (view lk)) lk)) as Ei by done.
  apply wp_bind. eapply wp_eq; [apply Ei|]. do 2 apply wp_bind, wp_modify.
  eapply wp_step with (P := λ _ s', binit_inv s NBUF s').
  - apply (wp_for (binit_inv s)).
    + split; simpl; try done.
      * split; [by apply lockable_set_lock; right|lia].
      * intros x y. simpl. intros [[-> ->]|[]]. rewrite Ht. vm_compute. done.
      * intros b. by rewrite core_next, core_prev, Ht.
    + intros k s1 Hk HI. replace (0 + Z.of_nat k * 1) with (Z.of_nat k) by lia.
      pose proof (binit_step s k s1 _ Hk HI eq_refl) as HI'.
      match type of HI' with binit_inv _ _ ?st => eapply (wp_eq _ None st); [|exact HI'] end.
      assert (HEAD ≠ Z.of_nat k) as Hne by (unfold HEAD, NBUF in *; lia).
      unfold bind, getb, gets, setb, modify, zoom, initsleeplock, initlock, bind, modify, ret. simpl.
      do 3 f_equal. destruct (links_block (upd (Z.of_nat k) (set_prev HEAD) (upd (Z.of_nat k) (set_next (b_next (bf s1 HEAD))) (bufs s1)))
        (Z.of_nat k) (mkSleeplock 0 0) HEAD) as [-> _]. rewrite next_upd_prev, next_upd, decide_False by done. done.
    + done.
  - intros _ s' HI. apply wp_ret. pose proof (bi_rest _ _ _ HI) as [Hp Hdk].
    split_and!; [|apply (bi_hart _ _ _ HI)|done|done]. apply (binit_cache s); [done|]. intros n. by rewrite Hdk.
Qed.

(** The super block describes a log of the size the kernel can handle. *)
Record sb_log_ok (sb : superblock) (d : disk) : Prop := {
  sl_start : 0 < sb_logstart sb;
  sl_size : 1 < sb_nlog sb <= LOGSIZE;
  sl_fits : sb_logstart sb + sb_nlog sb <= d_size d;
  sl_disk : d_size d < 2 ^ 31
}.

Lemma initlog_spec sb s f :
  cache (l_b s) [] [] [] → hart_ok (bs_lk (l_b s)) → sb_log_ok sb (ldisk s) → length (lh_block (l_log s)) = 30%nat →
  log_disk (sb_logstart sb) (sb_nlog sb) (ldisk s) (ldisk s) f →
  lg_outstanding (l_log s) = 0 → lg_committing (l_log s) = 0 →
  wp (initlog ROOTDEV sb) (λ _ s', quiet s' ∧
    lg_start (l_log s') = sb_logstart sb ∧ lg_size (l_log s') = sb_nlog sb ∧
    throughout (λ d, log_disk (sb_logstart sb) (sb_nlog sb) (ldisk s) d f) (ldisk s) (ldisk s') ∧
    ∀ m, is_data (sb_logstart sb) (sb_nlog sb) (ldisk s) m → lblk (l_b s') m = f m ∧ dread (ldisk s') m = f m) s.
Proof.
  intros Hc Hh [S1 S2 S3 S4] Ha Hld Ho Hcm. unfold initlog. rewrite (proj2 (Z.leb_gt _ _)) by (vm_compute; done).
  unfold LOGSIZE, MAXOPBLOCKS in S2.
  apply wp_bind. eapply (wp_eq _ tt); [reflexivity|]. apply wp_bind, wp_modify. rewrite !(swrap_small 32) by lia.
  set (s1 := mkLst _ _). eapply wp_mono; [apply (recover_from_log_spec s1 f)|].
  - by split.
  - simpl. apply cache_relock; [done|]. destruct (cache_locks_of _ _ _ _ Hc) as [L1 L2].
    split; [|intros b Hb]; apply lockable_set_lock; left; auto.
  - exact Hld.
  - intros _ s2 [E I (bl & Hg) T D]. split_and!; [|by rewrite Hg|by rewrite Hg|done|done].
    destruct E as [E _]. split; [done|by rewrite Hg|by rewrite Hg|]. rewrite E. simpl. apply lockable_set_lock. by right.
Qed.

(** ** Crash safety *)

(** The machine as it boots from disk [d]. *)
Definition booted (lk : lockst) (pid : Z) (d : disk) : lst := mkLst (mkBst lk pid ∅ d) log0.

Definition boot (sb : superblock) : M lst unit := zoom binit ;; initlog ROOTDEV sb.

Lemma boot_spec sb lk pid d f :
  hart_ok lk → sb_log_ok sb d → log_disk (sb_logstart sb) (sb_nlog sb) d d f →
  wp (boot sb) (λ _ s', quiet s' ∧ lg_start (l_log s') = sb_logstart sb ∧ lg_size (l_log s') = sb_nlog sb ∧
    throughout (λ d', log_disk (sb_logstart sb) (sb_nlog sb) d d' f) d (ldisk s') ∧
    ∀ m, is_data (sb_logstart sb) (sb_nlog sb) d m → lblk (l_b s') m = f m ∧ dread (ldisk s') m = f m) (booted lk pid d).
Proof.
  intros Hh Hsb Hld. unfold boot. apply wp_bind, wp_zoom.
  eapply wp_mono; [apply binit_spec; split_and!; [done|done|apply (ld_len Hld)]|].
  intros _ t (Hc & Ht & Hp & Hdk). set (s1 := set t (booted lk pid d)).
  assert (ldisk s1 = d) as Ed by exact Hdk. rewrite <- Ed in Hsb, Hld |- *.
  apply (initlog_spec sb s1 f); try done.
Qed.

(** The super block of the running system. *)
Definition sb_of (s : lst) (sb : superblock) : Prop :=
  sb_logstart sb = lg_start (l_log s) ∧ sb_nlog sb = lg_size (l_log s).

Lemma log_disk_rebase start size d0 d d1 f :
  log_disk start size d0 d f → d_size d1 = d_size d0 → log_disk start size d1 d f.
Proof.
  intros [L1 L2 [T1 T2 T3] L4 L5] E. unfold is_data in *. split; try congruence; try done.
  - split; try done. unfold is_data. by rewrite E.
  - unfold is_data. by rewrite E.
Qed.

Lemma wf_sb g d sb : log_wf g d → sb_logstart sb = lg_start g → sb_nlog sb = lg_size g → ∀ d', d_size d' = d_size d → sb_log_ok sb d'.
Proof. intros W E1 E2 d' E. destruct W. split; rewrite ?E1, ?E2, ?E; done. Qed.

(** ** The cache operations inside a transaction *)

(** After an operation of the cache: the log and the disk are as before. *)
Definition stays (s s' : lst) : Prop := env s s' ∧ ldisk s' = ldisk s ∧ l_log s' = l_log s.

Lemma in_trans_stays s s' H U H' U' :
  in_trans s H U → stays s s' → cache (l_b s') H' U' (logged (l_log s)) → in_trans s' H' U'.
Proof.
  intros [I1 I2 I3 I4 I5 I6] ([E _] & Hd & Hg) Hc. split; rewrite ?Hd, ?Hg; try done. by rewrite E.
Qed.

Lemma trans_bread n s H U :
  in_trans s H U → n ∉ H.*2 → 0 <= n < d_size (ldisk s) → (length H + length (logged (l_log s)) < NBUF)%nat →
  wp (zoom (bread ROOTDEV n)) (λ b s', in_trans s' ((b, n) :: H) U ∧ stays s s' ∧ ∀ m, lblk (l_b s') m = lblk (l_b s) m) s.
Proof.
  intros Hs Hn Hr Hl. apply wp_zoom. eapply wp_mono; [apply (bread_cache n _ H U); [apply Hs|done|done|by right]|].
  intros b t (C & (E1 & E2 & E3) & F). assert (stays s (set t s)) as St by done.
  split_and!; [by eapply in_trans_stays|done|done].
Qed.

Lemma trans_bset b n bs s H U :
  in_trans s H U → (b, n) ∈ H → length bs = 1024%nat →
  wp (zoom (bset b bs)) (λ _ s', in_trans s' H (n :: U) ∧ stays s s' ∧ ∀ m, lblk (l_b s') m = if m =? n then bs else lblk (l_b s) m) s.
Proof.
  intros Hs Hb Hl. apply wp_zoom. eapply wp_mono; [apply (bset_cache b n bs _ H U); [apply Hs|done|done]|].
  intros [] t (C & (E1 & E2 & E3) & F). assert (stays s (set t s)) as St by done.
  split_and!; [by eapply in_trans_stays|done|done].
Qed.

Lemma trans_bdata b n s H U Q : in_trans s H U → (b, n) ∈ H → Q (lblk (l_b s) n) s → wp (zoom (bdata b)) Q s.
Proof. intros Hs. apply log_bdata_cache with U (logged (l_log s)). apply Hs. Qed.

Lemma trans_brelse b n s H1 H2 U :
  in_trans s (H1 ++ (b, n) :: H2) U → n ∉ U →
  wp (zoom (brelse b)) (λ _ s', in_trans s' (H1 ++ H2) U ∧ stays s s' ∧ ∀ m, lblk (l_b s') m = lblk (l_b s) m) s.
Proof.
  intros Hs Hn. apply wp_zoom. eapply wp_mono; [apply (brelse_cache b n _ H1 H2 U); [apply Hs|done]|].
  intros [] t (C & (E1 & E2 & E3) & F). assert (stays s (set t s)) as St by done.
  split_and!; [by eapply in_trans_stays|done|done].
Qed.
