(* ===== verification/LogProps.v ===== *)
(** * Properties of the buffer cache and the log, with witnesses *)

From Stdlib Require Import ZifyBool.
From S2P Require Import Prelude Random Spinlock Kalloc Block Bio BioSpec Cache Log LogSpec LogTrans.

#[local] Opaque zero_block.

(** C1 (safety).  Crash safety of the file system's transactions: whatever the
    moment of a crash during the [end_op] that commits, booting again
    ([binit] and [initlog], on a cold cache) ends with a quiet system in which
    every data block has its contents from before the transaction, or every
    one has its contents from after it.  If there is no crash, the new
    contents are on the disk when [end_op] returns. *)
Theorem crash_safety s :
  in_trans s [] [] → lg_outstanding (l_log s) = 1 →
  wp end_op (λ _ s',
    quiet s' ∧
    (∀ m, is_data (lg_start (l_log s)) (lg_size (l_log s)) (ldisk s) m → dread (ldisk s') m = lblk (l_b s) m) ∧
    ∃ ws, ldisk s' = replay ws (ldisk s) ∧
      ∀ after before sb lk pid, ws = after ++ before → sb_of s sb → hart_ok lk →
        wp (boot sb) (λ _ r, quiet r ∧
          ((∀ m, is_data (lg_start (l_log s)) (lg_size (l_log s)) (ldisk s) m → lblk (l_b r) m = dread (ldisk s) m) ∨
           (∀ m, is_data (lg_start (l_log s)) (lg_size (l_log s)) (ldisk s) m → lblk (l_b r) m = lblk (l_b s) m)))
           (booted lk pid (replay before (ldisk s)))) s.
Proof.
  intros Hs Ho. pose proof (it_wf Hs) as W. eapply wp_mono; [by apply end_op_spec|].
  intros _ s' [Q _ _ (ws & Ew & HC) D]. split_and!; [done|by intros m Hm; apply D|].
  exists ws. split; [done|]. intros after before sb lk pid Ews [Es1 Es2] Hh.
  pose proof (wf_sb _ _ _ W Es1 Es2 _ (replay_size before (ldisk s))) as Hsb.
  assert (∀ f, log_disk (lg_start (l_log s)) (lg_size (l_log s)) (ldisk s) (replay before (ldisk s)) f →
    wp (boot sb) (λ _ r, quiet r ∧
      ∀ m, is_data (lg_start (l_log s)) (lg_size (l_log s)) (ldisk s) m → lblk (l_b r) m = f m)
      (booted lk pid (replay before (ldisk s)))) as Hboot.
  { intros f Hld. eapply wp_mono; [apply (boot_spec sb lk pid _ f); [done|done|]|].
    - rewrite Es1, Es2. apply (log_disk_rebase _ _ (ldisk s)); [done|]. apply replay_size.
    - intros _ r (Qr & _ & _ & _ & F). split; [done|]. intros m Hm. apply F. rewrite Es1, Es2. unfold is_data.
      rewrite replay_size. exact Hm. }
  destruct (HC after before Ews) as [Hld|Hld]; (eapply wp_mono; [exact (Hboot _ Hld)|]); intros _ r [Qr F]; auto.
Qed.

(** C20 (safety).  Recovery can itself be interrupted any number of times: at
    every moment of a boot the disk stands for the same contents [f] as
    before, and in the end these are the contents of every data block. *)
Theorem recovery_restartable sb lk pid d f :
  hart_ok lk → sb_log_ok sb d → log_disk (sb_logstart sb) (sb_nlog sb) d d f →
  wp (boot sb) (λ _ s', quiet s' ∧ throughout (λ d', log_disk (sb_logstart sb) (sb_nlog sb) d d' f) d (ldisk s') ∧
    ∀ m, is_data (sb_logstart sb) (sb_nlog sb) d m → lblk (l_b s') m = f m ∧ dread (ldisk s') m = f m) (booted lk pid d).
Proof.
  intros Hh Hsb Hld. eapply wp_mono; [by apply boot_spec|]. intros _ s' (Q & _ & _ & T & F). done.
Qed.

(** The cache refines the disk with writes delayed: [bread]
    answers a locked buffer with the contents clients have given the block,
    taking its own buffer or else the least recently used free one; no block
    changes its contents and no other buffer is touched. *)
Theorem bread_correct n s l :
  bio_ok s l → 0 <= n < d_size (bs_disk s) → takeable ROOTDEV n s l → wp (bread ROOTDEV n) (got n s l) s.
Proof. apply bread_spec. Qed.

(** [brelse] keeps the buffer list well formed and ordered by
    use: the buffer whose last reference goes moves to the front, otherwise the
    order stays; the reference is dropped, the lock is free, and no block
    changes its contents. *)
Theorem brelse_correct b n s l :
  bio_ok s l → b ∈ l → in_hand s b n → (b_refcnt (bf s b) = 1 → b_data (bf s b) = dread (bs_disk s) n) →
  wp (brelse b) (λ _ s', ∃ l', bio_ok s' l' ∧ order_after b s l l' ∧ released b s s') s.
Proof. apply brelse_spec. Qed.

(** [log_write] records the block in the log once: a block
    that is there is absorbed, another is appended and its buffer pinned, so
    that it stays in the cache until the commit.  No contents change. *)
Theorem log_write_correct b n s H U :
  in_trans s H (n :: U) → (b, n) ∈ H → is_data (lg_start (l_log s)) (lg_size (l_log s)) (ldisk s) n →
  lh_n (l_log s) < lg_size (l_log s) - 1 →
  wp (log_write b) (λ _ s', in_trans s' H U ∧ same_place s s' ∧ (∀ m, lblk (l_b s') m = lblk (l_b s) m) ∧
    logged (l_log s') = (if bool_decide (n ∈ logged (l_log s)) then logged (l_log s) else logged (l_log s) ++ [n])) s.
Proof. apply log_write_spec. Qed.

(** ** Witnesses: a disk of 64 blocks, the log in blocks 2 to 31 *)

Definition demo_sb : superblock := mkSb 0x10203040 64 30 16 30 2 32 33.
Definition demo_disk : disk := mkDisk 64 ∅ [].

Lemma demo_dread n : dread demo_disk n = zero_block.
Proof. unfold dread. simpl. by rewrite lookup_empty. Qed.

Lemma demo_sb_ok : sb_log_ok demo_sb demo_disk.
Proof. split; vm_compute; split_and?; try done; discriminate. Qed.

Lemma demo_log_disk : log_disk 2 30 demo_disk demo_disk (λ _, zero_block).
Proof.
  apply log_disk_empty; [lia|done| |by intros; rewrite demo_dread, zero_block_length|by intros; rewrite demo_dread].
  rewrite demo_dread. vm_compute. done.
Qed.

Lemma demo_hart : hart_ok demo_lk.
Proof. apply (demo_lockable LK_LOG). Qed.

Lemma recovery_restartable_witness :
  wp (boot demo_sb) (λ _ s', quiet s' ∧ throughout (λ d', log_disk 2 30 demo_disk d' (λ _, zero_block)) demo_disk (ldisk s') ∧
    ∀ m, is_data 2 30 demo_disk m → lblk (l_b s') m = zero_block ∧ dread (ldisk s') m = zero_block)
    (booted demo_lk 1 demo_disk).
Proof. apply (recovery_restartable demo_sb demo_lk 1 demo_disk _ demo_hart demo_sb_ok demo_log_disk). Defined.

(** A transaction that has changed block 40 and holds its buffer. *)
Lemma demo_changed :
  ∃ s b, in_trans s [(b, 40)] [40] ∧ lg_outstanding (l_log s) = 1 ∧ logged (l_log s) = [] ∧
    lg_start (l_log s) = 2 ∧ lg_size (l_log s) = 30 ∧ d_size (ldisk s) = 64.
Proof.
  pose proof (boot_spec demo_sb demo_lk 1 demo_disk _ demo_hart demo_sb_ok demo_log_disk) as Hb.
  destruct (wp_exists _ _ _ Hb) as (_ & s0 & Q0 & St0 & Sz0 & T0 & _). clear Hb. apply throughout_end in T0 as (_ & _ & D0).
  pose proof (begin_op_spec s0 Q0) as Hb. destruct (wp_exists _ _ _ Hb) as ([] & s1 & I1 & O1 & L1 & _ & Dk1 & St1 & Sz1 & _). clear Hb.
  pose proof (trans_bread 40 s1 [] [] I1) as Hb. rewrite L1, Dk1, D0 in Hb.
  specialize (Hb ltac:(set_solver) ltac:(simpl; lia) ltac:(unfold NBUF; simpl; lia)).
  destruct (wp_exists _ _ _ Hb) as (b & s2 & I2 & (_ & Dk2 & Lg2) & _). clear Hb.
  pose proof (trans_bset b 40 (put_32 zero_block 0 7) s2 _ _ I2 ltac:(by left)) as Hb.
  pose proof zero_block_length as Hz. specialize (Hb ltac:(rewrite length_put by lia; exact Hz)).
  destruct (wp_exists _ _ _ Hb) as ([] & s3 & I3 & (_ & Dk3 & Lg3) & _). clear Hb.
  exists s3, b. rewrite Lg3, Lg2, Dk3, Dk2, Dk1, D0. split_and!; [exact I3|exact O1|exact L1|by rewrite St1, St0|by rewrite Sz1, Sz0|done].
Qed.

Lemma log_write_correct_witness :
  ∃ s b, wp (log_write b) (λ _ s', in_trans s' [(b, 40)] [] ∧ same_place s s' ∧ (∀ m, lblk (l_b s') m = lblk (l_b s) m) ∧
    logged (l_log s') = (if bool_decide (40 ∈ logged (l_log s)) then logged (l_log s) else logged (l_log s) ++ [40])) s.
Proof.
  destruct demo_changed as (s & b & I & O & L & St & Sz & D). exists s, b.
  apply (log_write_correct b 40 s [(b, 40)] [] I); [by left| |].
  - rewrite St, Sz. unfold is_data, region. rewrite D. lia.
  - pose proof (logged_length _ _ (it_wf I)) as Hn. rewrite L in Hn. rewrite Sz. simpl in Hn. lia.
Defined.

(** The transaction about to commit. *)
Lemma demo_trans : ∃ s, in_trans s [] [] ∧ lg_outstanding (l_log s) = 1 ∧ logged (l_log s) = [40].
Proof.
  destruct demo_changed as (s & b & I & O & L & St & Sz & D).
  pose proof (log_write_spec b 40 s [(b, 40)] [] I ltac:(by left)) as Hw.
  rewrite St, Sz in Hw. unfold is_data, region in Hw. rewrite D in Hw. specialize (Hw ltac:(lia)).
  pose proof (logged_length _ _ (it_wf I)) as Hn. rewrite L in Hn. specialize (Hw ltac:(simpl in Hn; lia)).
  destruct (wp_exists _ _ _ Hw) as ([] & s1 & I1 & (_ & _ & _ & _ & O1) & _ & L1). clear Hw. rewrite L in L1.
  pose proof (trans_brelse b 40 s1 [] [] [] I1 ltac:(set_solver)) as Hb.
  destruct (wp_exists _ _ _ Hb) as ([] & s2 & I2 & (_ & Dk2 & Lg2) & _). clear Hb.
  exists s2. rewrite Lg2. split_and!; [done|congruence|done].
Qed.

Lemma crash_safety_witness :
  ∃ s, logged (l_log s) = [40] ∧ wp end_op (λ _ s',
    quiet s' ∧
    (∀ m, is_data (lg_start (l_log s)) (lg_size (l_log s)) (ldisk s) m → dread (ldisk s') m = lblk (l_b s) m) ∧
    ∃ ws, ldisk s' = replay ws (ldisk s) ∧
      ∀ after before sb lk pid, ws = after ++ before → sb_of s sb → hart_ok lk →
        wp (boot sb) (λ _ r, quiet r ∧
          ((∀ m, is_data (lg_start (l_log s)) (lg_size (l_log s)) (ldisk s) m → lblk (l_b r) m = dread (ldisk s) m) ∨
           (∀ m, is_data (lg_start (l_log s)) (lg_size (l_log s)) (ldisk s) m → lblk (l_b r) m = lblk (l_b s) m)))
           (booted lk pid (replay before (ldisk s)))) s.
Proof.
  destruct demo_trans as (s & I & O & L). exists s. split; [exact L|]. exact (crash_safety s I O).
Defined.

(** A cold cache. *)
Lemma demo_cold : ∃ s l, cache_ok s l [] [] [] ∧ d_size (bs_disk s) = 64.
Proof.
  assert (fresh (mkBst demo_lk 1 ∅ demo_disk)) as Hf.
  { split_and!; [apply demo_hart|done|]. intros n. simpl. rewrite demo_dread. apply zero_block_length. }
  apply binit_spec in Hf. destruct (wp_exists _ _ _ Hf) as ([] & s & [l Hc] & _ & _ & Hd). exists s, l. split; [done|]. by rewrite Hd.
Qed.

Lemma bread_correct_witness : ∃ s l, wp (bread ROOTDEV 40) (got 40 s l) s.
Proof.
  destruct demo_cold as (s & l & Hc & Hd). exists s, l. apply (bread_correct 40 s l (co_bio Hc)); [lia|]. split.
  - intros b Hb _. pose proof (co_refs Hc b Hb) as Hr. destruct (is_locked s b) eqn:E.
    + apply (co_locked Hc) in E; [|done]. set_solver.
    + unfold is_locked, truthy in E. rewrite Hr. unfold b2z. repeat case_match; lia.
  - right. eapply free_buffer; [exact Hc|]. unfold NBUF. simpl. lia.
Defined.

Lemma brelse_correct_witness :
  ∃ s l b, b ∈ l ∧ wp (brelse b) (λ _ s', ∃ l', bio_ok s' l' ∧ order_after b s l l' ∧ released b s s') s.
Proof.
  destruct demo_cold as (s0 & l0 & Hc0 & Hd).
  pose proof (bread_cache 40 s0 [] [] [] (ex_intro _ l0 Hc0) ltac:(set_solver) ltac:(lia) ltac:(right; unfold NBUF; simpl; lia)) as Hb.
  destruct (wp_exists _ _ _ Hb) as (b & s & [l Hc] & _ & _). clear Hb. exists s, l, b.
  destruct (co_held Hc b 40 ltac:(by left)) as [Hbl Hh]. split; [exact Hbl|].
  apply (brelse_correct b 40 s l (co_bio Hc) Hbl Hh). intros _. destruct Hh as (_ & E2 & E3 & _).
  rewrite <- E2. apply (co_clean Hc); [done|done|set_solver|set_solver].
Defined.
