(* ===== verification/Fs.v ===== *)
(** * The file system (kernel/fs.c)

    The functions of fs.c over the blocks that bio.c and log.c provide
    ([BlockOps]).  [itable] is a table of [NINODE] in-memory inodes; a pointer
    to an inode is its index.  The on-disk inode is the 64-byte structure
    [struct dinode] inside its block, a directory entry the 16-byte structure
    [struct dirent]. *)

From S2P Require Import Prelude Random Spinlock Block.

(** What fs.c uses of bio.c and log.c: the contents of a buffer are read and
    changed with [bdata] and [bset]. *)
Class BlockOps (B : Type) := {
  bop_lk :: Lens B lockst;
  cur_pid : B → Z;
  bread : Z → Z → M B Z;
  bdata : Z → M B block;
  bset : Z → block → M B unit;
  brelse : Z → M B unit;
  log_write : Z → M B unit;
  initlog : Z → superblock → M B unit
}.

Definition ROOTDEV : Z := 1.
Definition ROOTINO : Z := 1.
Definition FSMAGIC : Z := 0x10203040.
Definition NDIRECT : Z := 12.
Definition NINDIRECT : Z := 256.
Definition MAXFILE : Z := NDIRECT + NINDIRECT.
Definition NINODE : nat := 50.
Definition IPB : Z := 16.
Definition BPB : Z := BSIZE * 8.
Definition DIRSIZ : Z := 14.
Definition T_DIR : Z := 1.
Definition T_FILE : Z := 2.
Definition T_DEVICE : Z := 3.

(** [struct inode] (file.h). *)
Record inode := mkInode {
  i_dev : Z; i_inum : Z; i_ref : Z; i_lock : sleeplock; i_valid : Z;
  i_type : Z; i_major : Z; i_minor : Z; i_nlink : Z; i_size : Z; i_addrs : list Z
}.

(** [struct stat] (stat.h). *)
Record fstat := mkStat { st_dev : Z; st_ino : Z; st_type : Z; st_nlink : Z; st_size : Z }.

(** The state: the blocks, the super block, the table of inodes and the
    current directory of the running process. *)
Record fsys (B : Type) := mkFs { f_b : B; f_sb : superblock; f_itab : gmap Z inode; f_cwd : Z }.
Arguments mkFs {B}. Arguments f_b {B}. Arguments f_sb {B}. Arguments f_itab {B}. Arguments f_cwd {B}.

#[export] Program Instance fsys_b {B} : Lens (fsys B) B := {|
  view s := f_b s;
  set b s := mkFs b (f_sb s) (f_itab s) (f_cwd s)
|}.
Next Obligation. done. Qed.
Next Obligation. by intros ? []. Qed.
Next Obligation. done. Qed.

#[export] Program Instance fsys_lk {B} `{BlockOps B} : Lens (fsys B) lockst := {|
  view s := view (f_b s);
  set l s := mkFs (set l (f_b s)) (f_sb s) (f_itab s) (f_cwd s)
|}.
Next Obligation. intros. apply view_set. Qed.
Next Obligation. intros ? ? []. simpl. by rewrite set_view. Qed.
Next Obligation. intros. simpl. by rewrite set_set. Qed.

Definition LK_ITABLE : lockid := ("itable"%string, 0).
Definition LK_INODE (ip : Z) : lockid := ("inode"%string, ip).

Definition inode0 : inode := mkInode 0 0 0 (mkSleeplock 0 0) 0 0 0 0 0 0 (replicate 13 0).
Definition inode_at (t : gmap Z inode) (ip : Z) : inode := default inode0 (t !! ip).

Definition set_ref (r : Z) (x : inode) : inode :=
  mkInode (i_dev x) (i_inum x) r (i_lock x) (i_valid x) (i_type x) (i_major x) (i_minor x) (i_nlink x) (i_size x) (i_addrs x).
Definition set_ilock (k : sleeplock) (x : inode) : inode :=
  mkInode (i_dev x) (i_inum x) (i_ref x) k (i_valid x) (i_type x) (i_major x) (i_minor x) (i_nlink x) (i_size x) (i_addrs x).
Definition set_ivalid (v : Z) (x : inode) : inode :=
  mkInode (i_dev x) (i_inum x) (i_ref x) (i_lock x) v (i_type x) (i_major x) (i_minor x) (i_nlink x) (i_size x) (i_addrs x).
Definition set_itype (v : Z) (x : inode) : inode :=
  mkInode (i_dev x) (i_inum x) (i_ref x) (i_lock x) (i_valid x) v (i_major x) (i_minor x) (i_nlink x) (i_size x) (i_addrs x).
Definition set_isize (v : Z) (x : inode) : inode :=
  mkInode (i_dev x) (i_inum x) (i_ref x) (i_lock x) (i_valid x) (i_type x) (i_major x) (i_minor x) (i_nlink x) v (i_addrs x).
Definition set_iaddrs (l : list Z) (x : inode) : inode :=
  mkInode (i_dev x) (i_inum x) (i_ref x) (i_lock x) (i_valid x) (i_type x) (i_major x) (i_minor x) (i_nlink x) (i_size x) l.
Definition set_meta (type major minor nlink size : Z) (addrs : list Z) (x : inode) : inode :=
  mkInode (i_dev x) (i_inum x) (i_ref x) (i_lock x) (i_valid x) type major minor nlink size addrs.

(** ** Layout *)

Definition IBLOCK (i : Z) (sb : superblock) : Z := u32 (i / IPB + sb_inodestart sb).
Definition BBLOCK (b : Z) (sb : superblock) : Z := u32 (b / BPB + sb_bmapstart sb).
Definition DOFF (inum : Z) : Z := inum mod IPB * 64.

(** The fields of a [struct dinode] at offset [o] of a block. *)
Definition d_type (d : block) (o : Z) : Z := get_i16 d o.
Definition d_addr (d : block) (o i : Z) : Z := get_u32 d (o + 12 + 4 * i).
Definition d_addrs (d : block) (o : Z) : list Z := d_addr d o <$> seqZ 0 13.

Definition put_addrs (d : block) (o : Z) (l : list Z) : block := splice d (o + 12) (mjoin (le 4 <$> l)).

Definition decode_dinode (d : block) (o : Z) (x : inode) : inode :=
  set_meta (get_i16 d o) (get_i16 d (o + 2)) (get_i16 d (o + 4)) (get_i16 d (o + 6)) (get_u32 d (o + 8)) (d_addrs d o) x.
Definition encode_dinode (x : inode) (d : block) (o : Z) : block :=
  put_addrs (put_32 (put_16 (put_16 (put_16 (put_16 d o (i_type x)) (o + 2) (i_major x)) (o + 4) (i_minor x)) (o + 6) (i_nlink x))
    (o + 8) (i_size x)) o (i_addrs x).

Section Fs.
Context {B : Type} `{BlockOps B}.
Abbreviation fs := (fsys B).

Definition geti {A} (f : inode → A) (ip : Z) : M fs A := gets (λ s, f (inode_at (f_itab s) ip)).
Definition seti (ip : Z) (f : inode → inode) : M fs unit :=
  modify (λ s, mkFs (f_b s) (f_sb s) (<[ip := f (inode_at (f_itab s) ip)]> (f_itab s)) (f_cwd s)).
Definition set_sb (sb : superblock) : M fs unit := modify (λ s, mkFs (f_b s) sb (f_itab s) (f_cwd s)).

(** ** Super block, blocks *)

Definition sb_decode (d : block) : superblock :=
  mkSb (get_u32 d 0) (get_u32 d 4) (get_u32 d 8) (get_u32 d 12) (get_u32 d 16) (get_u32 d 20) (get_u32 d 24) (get_u32 d 28).

Definition readsb (dev : Z) : M fs superblock :=
  let! bp := zoom (bread dev 1) in
  let! d := zoom (bdata bp) in
  zoom (brelse bp) ;;
  ret (sb_decode d).

Definition fsinit (dev : Z) : M fs unit :=
  let! sb := readsb dev in
  set_sb sb ;;
  if negb (sb_magic sb =? FSMAGIC) then panic "invalid file system"
  else zoom (initlog dev sb).

Definition bzero (dev bno : Z) : M fs unit :=
  let! bp := zoom (bread dev bno) in
  zoom (bset bp (replicate (Z.to_nat BSIZE) 0)) ;;
  zoom (log_write bp) ;;
  zoom (brelse bp).

(** [bp->data[bi/8] & (1 << (bi % 8))]. *)
Definition bit (d : block) (bi : Z) : bool := truthy (Z.land (nth (Z.to_nat (bi / 8)) d 0) (Z.shiftl 1 (bi mod 8))).
Definition set_bit (d : block) (bi : Z) : block :=
  <[Z.to_nat (bi / 8) := u8 (Z.lor (nth (Z.to_nat (bi / 8)) d 0) (Z.shiftl 1 (bi mod 8)))]> d.
Definition clear_bit (d : block) (bi : Z) : block :=
  <[Z.to_nat (bi / 8) := u8 (Z.land (nth (Z.to_nat (bi / 8)) d 0) (Z.lnot (Z.shiftl 1 (bi mod 8))))]> d.

(** The inner loop of [balloc]: the first free bit among [n] from [bi]. *)
Fixpoint find_free (n : nat) (bi : Z) (d : block) : option Z :=
  match n with
  | O => None
  | S n' => if bit d bi then find_free n' (bi + 1) d else Some bi
  end.

Definition balloc (dev : Z) : M fs Z :=
  let! sb := gets f_sb in
  let! r := for_ (iters 0 (sb_size sb) BPB) 0 BPB (λ b,
    let! bp := zoom (bread dev (BBLOCK b sb)) in
    let! d := zoom (bdata bp) in
    match find_free (Z.to_nat (Z.min BPB (sb_size sb - b))) 0 d with
    | Some bi =>
        zoom (bset bp (set_bit d bi)) ;;
        zoom (log_write bp) ;;
        zoom (brelse bp) ;;
        bzero dev (b + bi) ;;
        ret (Some (b + bi))
    | None => zoom (brelse bp) ;; ret None
    end) in
  match r with
  | Some b => ret b
  | None => panic "balloc: out of blocks"
  end.

Definition bfree (dev b : Z) : M fs unit :=
  let! sb := gets f_sb in
  let! bp := zoom (bread dev (BBLOCK b sb)) in
  let! d := zoom (bdata bp) in
  let bi := b mod BPB in
  if negb (bit d bi) then panic "freeing free block"
  else
    zoom (bset bp (clear_bit d bi)) ;;
    zoom (log_write bp) ;;
    zoom (brelse bp).

(** ** Inodes *)

Definition iinit : M fs unit :=
  zoom (initlock LK_ITABLE) ;;
  let! _ := for_ (R := unit) NINODE 0 1 (λ i,
    let! k := zoom (initsleeplock (LK_INODE i)) in
    seti i (set_ilock k) ;;
    ret None) in
  ret tt.

(** The loop of [iget]: the entry of the inode, or the first empty one. *)
Fixpoint iget_loop (n : nat) (ip : Z) (t : gmap Z inode) (dev inum : Z) (empty : option Z) : Z + option Z :=
  match n with
  | O => inr empty
  | S n' =>
      let x := inode_at t ip in
      if (0 <? i_ref x) && (i_dev x =? dev) && (i_inum x =? inum) then inl ip
      else
        let empty' := match empty with
                      | None => if i_ref x =? 0 then Some ip else None
                      | Some _ => empty
                      end in
        iget_loop n' (ip + 1) t dev inum empty'
  end.

Definition iget (dev inum : Z) : M fs Z :=
  zoom (acquire LK_ITABLE) ;;
  let! t := gets f_itab in
  match iget_loop NINODE 0 t dev inum None with
  | inl ip =>
      let! r := as_int (i_ref (inode_at t ip) + 1) in
      seti ip (set_ref r) ;;
      zoom (release LK_ITABLE) ;;
      ret ip
  | inr None => panic "iget: no inodes"
  | inr (Some ip) =>
      seti ip (λ x, mkInode dev inum 1 (i_lock x) 0 (i_type x) (i_major x) (i_minor x) (i_nlink x) (i_size x) (i_addrs x)) ;;
      zoom (release LK_ITABLE) ;;
      ret ip
  end.

Definition ialloc (dev type : Z) : M fs Z :=
  let! sb := gets f_sb in
  let! r := for_ (Z.to_nat (sb_ninodes sb - 1)) 1 1 (λ inum,
    let! bp := zoom (bread dev (IBLOCK inum sb)) in
    let! d := zoom (bdata bp) in
    let o := DOFF inum in
    if d_type d o =? 0 then
      zoom (bset bp (put_16 (splice d o (replicate 64 0)) o type)) ;;
      zoom (log_write bp) ;;
      zoom (brelse bp) ;;
      let! ip := iget dev inum in
      ret (Some ip)
    else zoom (brelse bp) ;; ret None) in
  match r with
  | Some ip => ret ip
  | None => panic "ialloc: no inodes"
  end.

Definition iupdate (ip : Z) : M fs unit :=
  let! sb := gets f_sb in
  let! x := geti id ip in
  let! bp := zoom (bread (i_dev x) (IBLOCK (i_inum x) sb)) in
  let! d := zoom (bdata bp) in
  zoom (bset bp (encode_dinode x d (DOFF (i_inum x)))) ;;
  zoom (log_write bp) ;;
  zoom (brelse bp).

Definition idup (ip : Z) : M fs Z :=
  zoom (acquire LK_ITABLE) ;;
  let! r := geti i_ref ip in
  let! r' := as_int (r + 1) in
  seti ip (set_ref r') ;;
  zoom (release LK_ITABLE) ;;
  ret ip.

Definition lock_inode (ip : Z) : M fs unit :=
  let! k := geti i_lock ip in
  let! pid := gets (λ s, cur_pid (f_b s)) in
  let! k' := zoom (acquiresleep pid (LK_INODE ip) k) in
  seti ip (set_ilock k').
Definition unlock_inode (ip : Z) : M fs unit :=
  let! k := geti i_lock ip in
  let! k' := zoom (releasesleep (LK_INODE ip) k) in
  seti ip (set_ilock k').

Definition ilock (ip : Z) : M fs unit :=
  let! r := geti i_ref ip in
  if r <? 1 then panic "ilock"
  else
    lock_inode ip ;;
    let! v := geti i_valid ip in
    if v =? 0 then
      let! sb := gets f_sb in
      let! x := geti id ip in
      let! bp := zoom (bread (i_dev x) (IBLOCK (i_inum x) sb)) in
      let! d := zoom (bdata bp) in
      seti ip (decode_dinode d (DOFF (i_inum x))) ;;
      zoom (brelse bp) ;;
      seti ip (set_ivalid 1) ;;
      let! t := geti i_type ip in
      if t =? 0 then panic "ilock: no type" else ret tt
    else ret tt.

Definition iunlock (ip : Z) : M fs unit :=
  let! k := geti i_lock ip in
  let! pid := gets (λ s, cur_pid (f_b s)) in
  let! h := zoom (holdingsleep pid (LK_INODE ip) k) in
  let! r := geti i_ref ip in
  if negb h || (r <? 1) then panic "iunlock" else unlock_inode ip.

(** ** Inode content *)

Definition get_addr (ip i : Z) : M fs Z := geti (λ x, nth (Z.to_nat i) (i_addrs x) 0) ip.
Definition set_addr (ip i v : Z) : M fs unit :=
  seti ip (λ x, set_iaddrs (<[Z.to_nat i := v]> (i_addrs x)) x).

Definition bmap (ip bn : Z) : M fs Z :=
  let! dev := geti i_dev ip in
  if bn <? NDIRECT then
    let! addr := get_addr ip bn in
    if addr =? 0 then
      let! addr := balloc dev in
      set_addr ip bn addr ;;
      ret addr
    else ret addr
  else
    let bn := bn - NDIRECT in
    if bn <? NINDIRECT then
      let! addr := get_addr ip NDIRECT in
      let! ind :=
        (if addr =? 0 then
           let! addr := balloc dev in
           set_addr ip NDIRECT addr ;;
           ret addr
         else ret addr) in
      let! bp := zoom (bread dev ind) in
      let! d := zoom (bdata bp) in
      let addr := get_u32 d (4 * bn) in
      let! addr :=
        (if addr =? 0 then
           let! addr := balloc dev in
           let! d := zoom (bdata bp) in
           zoom (bset bp (put_32 d (4 * bn) addr)) ;;
           zoom (log_write bp) ;;
           ret addr
         else ret addr) in
      zoom (brelse bp) ;;
      ret addr
    else panic "bmap: out of range".

Definition itrunc (ip : Z) : M fs unit :=
  let! dev := geti i_dev ip in
  let! _ := for_ (R := unit) (Z.to_nat NDIRECT) 0 1 (λ i,
    let! a := get_addr ip i in
    if truthy a then bfree dev a ;; set_addr ip i 0 ;; ret None else ret None) in
  let! ind := get_addr ip NDIRECT in
  (if truthy ind then
     let! bp := zoom (bread dev ind) in
     let! _ := for_ (R := unit) (Z.to_nat NINDIRECT) 0 1 (λ j,
       let! d := zoom (bdata bp) in
       let a := get_u32 d (4 * j) in
       if truthy a then bfree dev a ;; ret None else ret None) in
     zoom (brelse bp) ;;
     bfree dev ind ;;
     set_addr ip NDIRECT 0
   else ret tt) ;;
  seti ip (set_isize 0) ;;
  iupdate ip.

Definition iput (ip : Z) : M fs unit :=
  zoom (acquire LK_ITABLE) ;;
  let! x := geti id ip in
  (if (i_ref x =? 1) && truthy (i_valid x) && (i_nlink x =? 0) then
     lock_inode ip ;;
     zoom (release LK_ITABLE) ;;
     itrunc ip ;;
     seti ip (set_itype 0) ;;
     iupdate ip ;;
     seti ip (set_ivalid 0) ;;
     unlock_inode ip ;;
     zoom (acquire LK_ITABLE)
   else ret tt) ;;
  let! r := geti i_ref ip in
  let! r' := as_int (r - 1) in
  seti ip (set_ref r') ;;
  zoom (release LK_ITABLE).

Definition iunlockput (ip : Z) : M fs unit := iunlock ip ;; iput ip.

Definition stati (ip : Z) : M fs fstat :=
  let! x := geti id ip in
  ret (mkStat (s32 (i_dev x)) (i_inum x) (i_type x) (i_nlink x) (i_size x)).
End Fs.

(** ** Reading and writing inode data

    The caller's memory is wherever [put] and [take] say: [either_copyout] to
    a user address or to kernel memory.  [S] contains the file system's state.
    [put dst bs] answers 0 or -1; [take src n] answers 0 and the [n] bytes, or
    -1 and the bytes copied before the failure. *)

Section Data.
Context {B : Type} `{BlockOps B} {S : Type} `{Lens S (fsys B)}.

(** One block at a time.  [None]: out of fuel. *)
Fixpoint readi_loop (fuel : nat) (put : Z → list Z → M S Z) (ip dst off n tot : Z) : M S Z :=
  match fuel with
  | O => hang
  | Datatypes.S fuel' =>
      if tot <? n then
        let! dev := zoom (geti i_dev ip) in
        let! a := zoom (bmap ip (off / BSIZE)) in
        let! bp := zoom (zoom (T := B) (S := fsys B) (bread dev a)) in
        let m := Z.min (n - tot) (BSIZE - off mod BSIZE) in
        let! d := zoom (zoom (T := B) (S := fsys B) (bdata bp)) in
        let! r := put dst (sub d (off mod BSIZE) m) in
        zoom (zoom (T := B) (S := fsys B) (brelse bp)) ;;
        if r =? -1 then ret (-1)
        else readi_loop fuel' put ip (dst + m) (off + m) n (tot + m)
      else ret tot
  end.

Definition blocks_fuel (n : Z) : nat := Z.to_nat (n / BSIZE + 3).

Definition readi (put : Z → list Z → M S Z) (ip dst off n : Z) : M S Z :=
  let! size := zoom (geti i_size ip) in
  if (size <? off) || (u32 (off + n) <? off) then ret 0
  else
    let n := if size <? u32 (off + n) then u32 (size - off) else n in
    readi_loop (blocks_fuel n) put ip dst off n 0.

(** Answers the final [off] and [tot].  The bytes copied before a failure are
    in the buffer, which is then released without being logged. *)
Fixpoint writei_loop (fuel : nat) (take : Z → Z → M S (Z * list Z)) (ip src off n tot : Z) : M S (Z * Z) :=
  match fuel with
  | O => hang
  | Datatypes.S fuel' =>
      if tot <? n then
        let! dev := zoom (geti i_dev ip) in
        let! a := zoom (bmap ip (off / BSIZE)) in
        let! bp := zoom (zoom (T := B) (S := fsys B) (bread dev a)) in
        let m := Z.min (n - tot) (BSIZE - off mod BSIZE) in
        let! rb := take src m in
        let! d := zoom (zoom (T := B) (S := fsys B) (bdata bp)) in
        zoom (zoom (T := B) (S := fsys B) (bset bp (splice d (off mod BSIZE) rb.2))) ;;
        if rb.1 =? -1 then
          zoom (zoom (T := B) (S := fsys B) (brelse bp)) ;;
          ret (off, tot)
        else
          zoom (zoom (T := B) (S := fsys B) (log_write bp)) ;;
          zoom (zoom (T := B) (S := fsys B) (brelse bp)) ;;
          writei_loop fuel' take ip (src + m) (off + m) n (tot + m)
      else ret (off, tot)
  end.

Definition writei (take : Z → Z → M S (Z * list Z)) (ip src off n : Z) : M S Z :=
  let! size := zoom (geti i_size ip) in
  if (size <? off) || (u32 (off + n) <? off) then ret (-1)
  else if MAXFILE * BSIZE <? u32 (off + n) then ret (-1)
  else
    let! ot := writei_loop (blocks_fuel n) take ip src off n 0 in
    let! size := zoom (geti i_size ip) in
    (if size <? ot.1 then zoom (seti ip (set_isize ot.1)) else ret tt) ;;
    zoom (iupdate ip) ;;
    ret ot.2.
End Data.

(** *** Kernel buffers: [user_dst == 0]

    A local variable of the caller is the second component of the state. *)

#[export] Program Instance with_buffer {B} : Lens (fsys B * list Z) (fsys B) := {|
  view s := s.1;
  set f s := (f, s.2)
|}.
Next Obligation. done. Qed.
Next Obligation. by intros ? []. Qed.
Next Obligation. done. Qed.

Section Names.
Context {B : Type} `{BlockOps B}.
Abbreviation fs := (fsys B).

Definition to_buffer (dst : Z) (bs : list Z) : M (fs * list Z) Z := λ s, Ok (0, (s.1, s.2 ++ bs)).
Definition from_buffer (src n : Z) : M (fs * list Z) (Z * list Z) := λ s, Ok ((0, sub s.2 src n), s).

(** [readi(ip, 0, &buf, off, n)] answers the count and the bytes read. *)
Definition readi_buf (ip off n : Z) : M fs (Z * list Z) := λ s,
  match readi to_buffer ip 0 off n (s, []) with
  | Ok (r, (s', bs)) => Ok ((r, bs), s')
  | Panic msg => Panic msg
  | Hang => Hang
  | Undef => Undef
  end.

(** [writei(ip, 0, &buf, off, n)]. *)
Definition writei_buf (ip off : Z) (bs : list Z) : M fs Z := λ s,
  match writei from_buffer ip 0 off (Z.of_nat (length bs)) (s, bs) with
  | Ok (r, (s', _)) => Ok (r, s')
  | Panic msg => Panic msg
  | Hang => Hang
  | Undef => Undef
  end.

(** ** Directories *)

(** [strncmp] on byte strings; a string that has ended reads as NUL. *)
Fixpoint strncmp_list (n : nat) (p q : list Z) : Z :=
  match n with
  | O => 0
  | S n' => let a := hd 0 p in let b := hd 0 q in
            if truthy a && (a =? b) then strncmp_list n' (tl p) (tl q) else a - b
  end.
Definition namecmp (s t : list Z) : Z := strncmp_list (Z.to_nat DIRSIZ) s t.

(** [struct dirent]. *)
Definition de_inum (de : list Z) : Z := get_u16 de 0.
Definition de_name (de : list Z) : list Z := sub de 2 DIRSIZ.

(** [strncpy(de.name, name, DIRSIZ)]. *)
Fixpoint strncpy_list (n : nat) (t : list Z) : list Z :=
  match n with
  | O => []
  | S n' => match t with
            | c :: t' => if truthy c then c :: strncpy_list n' t' else replicate n 0
            | [] => replicate n 0
            end
  end.
Definition mk_dirent (inum : Z) (name : list Z) : list Z := le 2 inum ++ strncpy_list (Z.to_nat DIRSIZ) name.

(** Answers the inode, if the name is there, and its offset. *)
Definition dirlookup (dp : Z) (name : list Z) : M fs (option (Z * Z)) :=
  let! type := geti i_type dp in
  if negb (type =? T_DIR) then panic "dirlookup not DIR"
  else
    let! size := geti i_size dp in
    for_ (iters 0 size 16) 0 16 (λ off,
      let! rd := readi_buf dp off 16 in
      if negb (rd.1 =? 16) then panic "dirlookup read"
      else if de_inum rd.2 =? 0 then ret None
      else if namecmp name (de_name rd.2) =? 0 then
        let! dev := geti i_dev dp in
        let! ip := iget dev (de_inum rd.2) in
        ret (Some (ip, off))
      else ret None).

(** The second loop of [dirlink]: the offset of an empty entry, or the size. *)
Definition empty_dirent (dp : Z) : M fs Z :=
  let! size := geti i_size dp in
  let! r := for_ (iters 0 size 16) 0 16 (λ off,
    let! rd := readi_buf dp off 16 in
    if negb (rd.1 =? 16) then panic "dirlink read"
    else if de_inum rd.2 =? 0 then ret (Some off) else ret None) in
  ret (default (16 * Z.of_nat (iters 0 size 16)) r).

Definition dirlink (dp : Z) (name : list Z) (inum : Z) : M fs Z :=
  let! r := dirlookup dp name in
  match r with
  | Some (ip, _) => iput ip ;; ret (-1)
  | None =>
      let! off := empty_dirent dp in
      let! w := writei_buf dp off (mk_dirent (u16 inum) name) in
      if negb (w =? 16) then panic "dirlink" else ret 0
  end.

(** ** Paths

    A path is the bytes before its NUL. *)

Definition SLASH : Z := 47.

Fixpoint skip_slashes (path : list Z) : list Z :=
  match path with
  | c :: path' => if c =? SLASH then skip_slashes path' else path
  | [] => []
  end.
Fixpoint elem (path : list Z) : list Z :=
  match path with
  | c :: path' => if c =? SLASH then [] else c :: elem path'
  | [] => []
  end.
Fixpoint after_elem (path : list Z) : list Z :=
  match path with
  | c :: path' => if c =? SLASH then path else after_elem path'
  | [] => []
  end.

(** The rest of the path and the name, of which [DIRSIZ] bytes are kept. *)
Definition skipelem (path : list Z) : option (list Z * list Z) :=
  match skip_slashes path with
  | [] => None
  | path => Some (skip_slashes (after_elem path), take (Z.to_nat DIRSIZ) (elem path))
  end.

(** [name] is the caller's buffer; it is also answered. *)
Fixpoint namex_loop (fuel : nat) (ip : Z) (path : list Z) (nameiparent : bool) (name : list Z) : M fs (option Z * list Z) :=
  match fuel with
  | O => hang
  | S fuel' =>
      match skipelem path with
      | None =>
          if nameiparent then iput ip ;; ret (None, name) else ret (Some ip, name)
      | Some (path', name') =>
          ilock ip ;;
          let! type := geti i_type ip in
          if negb (type =? T_DIR) then iunlockput ip ;; ret (None, name')
          else if nameiparent && bool_decide (path' = []) then iunlock ip ;; ret (Some ip, name')
          else
            let! r := dirlookup ip name' in
            match r with
            | None => iunlockput ip ;; ret (None, name')
            | Some (next, _) => iunlockput ip ;; namex_loop fuel' next path' nameiparent name'
            end
      end
  end.

Definition namex (path : list Z) (nameiparent : bool) : M fs (option Z * list Z) :=
  let! ip := (if bool_decide (head path = Some SLASH) then iget ROOTDEV ROOTINO
              else let! cwd := gets f_cwd in idup cwd) in
  namex_loop (S (length path)) ip path nameiparent [].

Definition namei (path : list Z) : M fs (option Z) := let! r := namex path false in ret r.1.
Definition nameiparent (path : list Z) : M fs (option Z * list Z) := namex path true.
End Names.
