(* ===== verification/FsSpec.v ===== *)
(** * Block allocation (kernel/fs.c: bzero, balloc, bfree)

    [BlockLaws] is what the block layer promises the file system: inside a
    transaction, reading, changing, logging and releasing a buffer act on the
    logical contents [lb] of the blocks.  It is discharged by bio.c and log.c
    in [FsInst].  Against it [balloc] takes the first free block of the bitmap
    and zeroes it, [bfree] gives one back, and nothing else changes. *)

From Stdlib Require Import ZifyBool.
From S2P Require Import Prelude Random Spinlock Block Fs.

#[local] Ltac Zify.zify_post_hook ::= Z.to_euclidean_division_equations.

(** [H]: the held buffers with their blocks.  [U]: blocks changed and not
    logged yet.  [W]: blocks the transaction may log without using a new slot
    of the log; [r]: how many new ones it may still log. *)
Class BlockLaws (B : Type) `{BlockOps B} := {
  data_blk : B → Z → Prop;
  lb : B → Z → block;
  ready : B → list (Z * Z) → list Z → list Z → nat → Prop;
  kept (b b' : B) : Prop :=
    view b' ≡ view b ∧ cur_pid b' = cur_pid b ∧ ∀ n, data_blk b' n ↔ data_blk b n;
  lb_len b H U W r n : ready b H U W r → length (lb b n) = 1024%nat;
  ready_set b lk H U W r : ready b H U W r → lk ≡ view b → ready (set lk b) H U W r;
  lb_set b lk n : lb (set lk b) n = lb b n;
  kept_set b lk : lk ≡ view b → kept b (set lk b);
  bread_ok b n H U W r :
    ready b H U W r → n ∉ H.*2 → data_blk b n → (length H <= 3)%nat →
    wp (bread ROOTDEV n) (λ h b', ready b' ((h, n) :: H) U W r ∧ kept b b' ∧ ∀ m, lb b' m = lb b m) b;
  bdata_ok b h n H U W r : ready b H U W r → (h, n) ∈ H → wp (bdata h) (λ d b', d = lb b n ∧ b' = b) b;
  bset_ok b h n bs H U W r :
    ready b H U W r → (h, n) ∈ H → n ∈ W → length bs = 1024%nat →
    wp (bset h bs) (λ _ b', ready b' H (n :: U) W r ∧ kept b b' ∧ ∀ m, lb b' m = if m =? n then bs else lb b m) b;
  log_write_ok b h n H U W r :
    ready b H (n :: U) W r → (h, n) ∈ H → n ∈ W →
    wp (log_write h) (λ _ b', ready b' H U W r ∧ kept b b' ∧ ∀ m, lb b' m = lb b m) b;
  ready_more b H U W r n : ready b H U W (S r) → data_blk b n → ready b H U (n :: W) r;
  brelse_ok b h n H1 H2 U W r :
    ready b (H1 ++ (h, n) :: H2) U W r → n ∉ U →
    wp (brelse h) (λ _ b', ready b' (H1 ++ H2) U W r ∧ kept b b' ∧ ∀ m, lb b' m = lb b m) b
}.

(** ** Bits of the free map *)

Lemma truthy_land_bit x k : 0 <= k → truthy (Z.land x (Z.shiftl 1 k)) = Z.testbit x k.
Proof.
  intros Hk. unfold truthy. destruct (Z.testbit x k) eqn:E.
  - apply negb_true_iff, Z.eqb_neq. intros E0. assert (Z.testbit (Z.land x (Z.shiftl 1 k)) k = false) as E1 by (rewrite E0; apply Z.bits_0).
    rewrite Z.land_spec, E, Z.shiftl_spec, Z.sub_diag in E1 by lia. done.
  - apply negb_false_iff, Z.eqb_eq, Z.bits_inj'. intros j Hj. rewrite Z.land_spec, Z.bits_0, Z.shiftl_spec by lia.
    destruct (decide (j = k)) as [->|Hne]; [by rewrite E|]. destruct (decide (j < k)).
    + rewrite (Z.testbit_neg_r 1) by lia. apply andb_false_r.
    + rewrite (Z.bits_above_log2 1) by (simpl; lia). apply andb_false_r.
Qed.

Lemma bit_testbit d bi : bit d bi = Z.testbit (nth (Z.to_nat (bi / 8)) d 0) (bi mod 8).
Proof. unfold bit. apply truthy_land_bit. by apply Z.mod_pos_bound. Qed.

Lemma testbit_shiftl1 k j : 0 <= k → 0 <= j → Z.testbit (Z.shiftl 1 k) j = (j =? k).
Proof.
  intros Hk Hj. rewrite Z.shiftl_spec by lia. destruct (Z.eqb_spec j k) as [->|Hne]; [by rewrite Z.sub_diag|].
  destruct (decide (j < k)); [apply Z.testbit_neg_r; lia|apply Z.bits_above_log2; simpl; lia].
Qed.

Lemma testbit_u8 x j : 0 <= j < 8 → Z.testbit (u8 x) j = Z.testbit x j.
Proof. intros. unfold wrap. by rewrite Z.mod_pow2_bits_low by lia. Qed.

Lemma nth_insert (d : list Z) i j v : (i < length d)%nat → nth j (<[i := v]> d) 0 = if decide (j = i) then v else nth j d 0.
Proof.
  intros Hi. rewrite !nth_lookup. case_decide as E.
  - subst. by rewrite list_lookup_insert_eq.
  - by rewrite list_lookup_insert_ne.
Qed.

Lemma bit_index bi bj : 0 <= bi → 0 <= bj → (bj / 8 = bi / 8 ∧ bj mod 8 = bi mod 8) ↔ bj = bi.
Proof. intros. pose proof (Z.div_mod bi 8). pose proof (Z.div_mod bj 8). split; [lia|by intros ->]. Qed.

Lemma bit_set d bi bj :
  0 <= bi < 8 * Z.of_nat (length d) → 0 <= bj → bit (set_bit d bi) bj = (bj =? bi) || bit d bj.
Proof.
  intros Hi Hj. rewrite !bit_testbit. unfold set_bit. pose proof (Z.mod_pos_bound bj 8). pose proof (Z.mod_pos_bound bi 8).
  rewrite nth_insert by lia. pose proof (bit_index bi bj). case_decide as E.
  - rewrite testbit_u8, Z.lor_spec, testbit_shiftl1 by lia. rewrite E, orb_comm. f_equal. lia.
  - replace (bj =? bi) with false by lia. done.
Qed.

Lemma bit_clear d bi bj :
  0 <= bi < 8 * Z.of_nat (length d) → 0 <= bj → bit (clear_bit d bi) bj = negb (bj =? bi) && bit d bj.
Proof.
  intros Hi Hj. rewrite !bit_testbit. unfold clear_bit. pose proof (Z.mod_pos_bound bj 8). pose proof (Z.mod_pos_bound bi 8).
  rewrite nth_insert by lia. pose proof (bit_index bi bj). case_decide as E.
  - rewrite testbit_u8, Z.land_spec, Z.lnot_spec, testbit_shiftl1 by lia. rewrite E, andb_comm. do 2 f_equal. lia.
  - replace (bj =? bi) with false by lia. done.
Qed.

Lemma length_set_bit d bi : length (set_bit d bi) = length d.
Proof. apply length_insert. Qed.

Lemma length_clear_bit d bi : length (clear_bit d bi) = length d.
Proof. apply length_insert. Qed.

Lemma find_free_Some n bi d b :
  find_free n bi d = Some b ↔ bi <= b < bi + Z.of_nat n ∧ bit d b = false ∧ ∀ c, bi <= c < b → bit d c = true.
Proof.
  revert bi. induction n as [|n IH]; intros bi; cbn [find_free]; [split; [done|lia]|].
  destruct (bit d bi) eqn:E.
  - rewrite IH. split; intros (H1 & H2 & H3); (split; [|split; [done|]]).
    + lia.
    + intros c Hc. destruct (decide (c = bi)) as [->|]; [done|]. apply H3. lia.
    + assert (b ≠ bi) by congruence. lia.
    + intros c Hc. apply H3. lia.
  - split; [intros [= <-]; split_and!; [lia|lia|done|lia]|]. intros (H1 & H2 & H3). f_equal.
    destruct (decide (b = bi)); [done|]. rewrite H3 in E by lia. done.
Qed.

Lemma find_free_None n bi d : find_free n bi d = None ↔ ∀ c, bi <= c < bi + Z.of_nat n → bit d c = true.
Proof.
  revert bi. induction n as [|n IH]; intros bi; cbn [find_free]; [split; [lia|done]|].
  destruct (bit d bi) eqn:E.
  - rewrite IH. split; intros Hc c Hr; [|apply Hc; lia]. destruct (decide (c = bi)) as [->|]; [done|]. apply Hc. lia.
  - split; [done|]. intros Hc. rewrite Hc in E by lia. done.
Qed.

Section Blocks.
Context {B : Type} `{!BlockOps B} `{!BlockLaws B}.
Abbreviation fs := (fsys B).

(** The logical contents, in a state of the file system. *)
Abbreviation flb s := (lb (f_b s)).

(** What a block operation leaves alone. *)
Definition fkept (s s' : fs) : Prop :=
  kept (f_b s) (f_b s') ∧ f_sb s' = f_sb s ∧ f_itab s' = f_itab s ∧ f_cwd s' = f_cwd s.

Lemma kept_refl b : kept b b.
Proof. done. Qed.

Lemma kept_trans b1 b2 b3 : kept b1 b2 → kept b2 b3 → kept b1 b3.
Proof.
  intros (E1 & P1 & D1) (E2 & P2 & D2). split_and!; [by rewrite E2|congruence|]. intros n. by rewrite D2.
Qed.

Lemma fkept_refl s : fkept s s.
Proof. done. Qed.

Lemma fkept_trans s1 s2 s3 : fkept s1 s2 → fkept s2 s3 → fkept s1 s3.
Proof. intros (K1 & ? & ? & ?) (K2 & ? & ? & ?). split_and!; [by eapply kept_trans|congruence..]. Qed.

Lemma fkept_data s s' n : fkept s s' → data_blk (f_b s') n ↔ data_blk (f_b s) n.
Proof. intros ((_ & _ & D) & _). apply D. Qed.

(** The rules on the file system's state. *)
Lemma f_bread n s H U W r :
  ready (f_b s) H U W r → n ∉ H.*2 → data_blk (f_b s) n → (length H <= 3)%nat →
  wp (zoom (bread ROOTDEV n)) (λ h s', ready (f_b s') ((h, n) :: H) U W r ∧ fkept s s' ∧ ∀ m, flb s' m = flb s m) s.
Proof.
  intros R Hn Hd Hl. apply wp_zoom. eapply wp_mono; [by eapply bread_ok|]. intros h b (R' & K & L). done.
Qed.

Lemma f_bdata h n s H U W r Q : ready (f_b s) H U W r → (h, n) ∈ H → Q (flb s n) s → wp (zoom (bdata h)) Q s.
Proof.
  intros R Hin HQ. apply wp_zoom. eapply wp_mono; [by eapply bdata_ok|]. intros d b [-> ->]. by rewrite set_view.
Qed.

Lemma f_bset h n bs s H U W r :
  ready (f_b s) H U W r → (h, n) ∈ H → n ∈ W → length bs = 1024%nat →
  wp (zoom (bset h bs)) (λ _ s', ready (f_b s') H (n :: U) W r ∧ fkept s s' ∧ ∀ m, flb s' m = if m =? n then bs else flb s m) s.
Proof.
  intros R Hin Hw Hl. apply wp_zoom. eapply wp_mono; [by eapply bset_ok|]. intros [] b (R' & K & L). done.
Qed.

Lemma f_log_write h n s H U W r :
  ready (f_b s) H (n :: U) W r → (h, n) ∈ H → n ∈ W →
  wp (zoom (log_write h)) (λ _ s', ready (f_b s') H U W r ∧ fkept s s' ∧ ∀ m, flb s' m = flb s m) s.
Proof.
  intros R Hin Hl. apply wp_zoom. eapply wp_mono; [by eapply log_write_ok|]. intros [] b (R' & K & L). done.
Qed.

Lemma f_brelse h n s H1 H2 U W r :
  ready (f_b s) (H1 ++ (h, n) :: H2) U W r → n ∉ U →
  wp (zoom (brelse h)) (λ _ s', ready (f_b s') (H1 ++ H2) U W r ∧ fkept s s' ∧ ∀ m, flb s' m = flb s m) s.
Proof.
  intros R Hn. apply wp_zoom. eapply wp_mono; [by eapply brelse_ok|]. intros [] b (R' & K & L). done.
Qed.

(** A buffer whose contents were changed is logged and released. *)
Lemma f_log_release h n s H U W r :
  ready (f_b s) ((h, n) :: H) (n :: U) W r → n ∈ W → n ∉ U →
  wp (zoom (log_write h) ;; zoom (brelse h)) (λ _ s', ready (f_b s') H U W r ∧ fkept s s' ∧ ∀ m, flb s' m = flb s m) s.
Proof.
  intros R Hw Hu. eapply wp_step; [eapply f_log_write; [exact R|by left|done]|]. intros _ s1 (R1 & K1 & L1).
  eapply wp_mono; [by eapply (f_brelse h n s1 [] H)|]. intros _ s2 (R2 & K2 & L2).
  split_and!; [done|by eapply fkept_trans|]. intros m. by rewrite L2, L1.
Qed.

Lemma zeros_length : length (replicate (Z.to_nat BSIZE) 0) = 1024%nat.
Proof. apply length_replicate. Qed.

Definition zeros : block := replicate (Z.to_nat BSIZE) 0.

Lemma bzero_spec n s H U W r :
  ready (f_b s) H U W r → n ∉ H.*2 → data_blk (f_b s) n → (length H <= 3)%nat → n ∈ W → n ∉ U →
  wp (bzero ROOTDEV n) (λ _ s', ready (f_b s') H U W r ∧ fkept s s' ∧ ∀ m, flb s' m = if m =? n then zeros else flb s m) s.
Proof.
  intros R Hn Hd Hl Hw Hu. unfold bzero. eapply wp_step; [by eapply f_bread|]. intros h s1 (R1 & K1 & L1).
  eapply wp_step; [eapply (f_bset h n); [exact R1|by left|done|apply zeros_length]|]. intros _ s2 (R2 & K2 & L2).
  eapply wp_mono; [by eapply f_log_release|]. intros _ s3 (R3 & K3 & L3).
  split_and!; [done|by repeat (eapply fkept_trans; [eassumption|])|]. intros m. rewrite L3, L2. by rewrite L1.
Qed.

(** ** The free map *)

(** Block [b] is marked in use. *)
Definition used (s : fs) (b : Z) : bool := bit (flb s (BBLOCK b (f_sb s))) (b mod BPB).

(** The blocks of the map, and of the inodes. *)
Definition is_bmap (sb : superblock) (n : Z) : Prop := ∃ b, 0 <= b < sb_size sb ∧ n = BBLOCK b sb.
Definition is_iblock (sb : superblock) (n : Z) : Prop := ∃ i, 0 <= i < sb_ninodes sb ∧ n = IBLOCK i sb.

(** A file system image: its free blocks are none of the blocks of the log,
    the inodes or the map, and block 0 is not free. *)
Record layout (s : fs) : Prop := {
  lay_size : 0 <= sb_size (f_sb s) < 2 ^ 31;
  lay_bmap : 0 <= sb_bmapstart (f_sb s) < 2 ^ 31;
  lay_bdata : ∀ n, is_bmap (f_sb s) n → data_blk (f_b s) n;
  lay_idata : ∀ n, is_iblock (f_sb s) n → data_blk (f_b s) n;
  lay_sep : ∀ n, is_bmap (f_sb s) n → ¬ is_iblock (f_sb s) n;
  lay_free : ∀ b, 0 <= b < sb_size (f_sb s) → used s b = false →
    b ≠ 0 ∧ data_blk (f_b s) b ∧ ¬ is_bmap (f_sb s) b ∧ ¬ is_iblock (f_sb s) b
}.
Arguments lay_size {_}. Arguments lay_bmap {_}. Arguments lay_bdata {_}. Arguments lay_idata {_}.
Arguments lay_sep {_}. Arguments lay_free {_}.

Lemma BBLOCK_eq s b : layout s → 0 <= b < sb_size (f_sb s) → BBLOCK b (f_sb s) = b / BPB + sb_bmapstart (f_sb s).
Proof.
  intros L Hb. pose proof (lay_size L). pose proof (lay_bmap L). unfold BBLOCK. apply wrap_small.
  unfold BPB, BSIZE. assert (b / (1024 * 8) <= b) by (apply Z.div_le_upper_bound; lia).
  assert (0 <= b / (1024 * 8)) by (apply Z.div_pos; lia). lia.
Qed.

(** The block and the bit determine [b]. *)
Lemma BBLOCK_inj s b c :
  layout s → 0 <= b < sb_size (f_sb s) → 0 <= c < sb_size (f_sb s) →
  BBLOCK b (f_sb s) = BBLOCK c (f_sb s) → b mod BPB = c mod BPB → b = c.
Proof.
  intros L Hb Hc. rewrite !BBLOCK_eq by done. intros E1 E2. pose proof (Z.div_mod b BPB). pose proof (Z.div_mod c BPB).
  unfold BPB, BSIZE in *. lia.
Qed.

(** The held buffers are not in the way of the allocator. *)
Definition clear_of_map (s : fs) (H : list (Z * Z)) : Prop :=
  ∀ n, n ∈ H.*2 → ¬ is_bmap (f_sb s) n ∧ (0 <= n < sb_size (f_sb s) → used s n = true).

(** Block [b] was free and is now in use, and zeroed. *)
Record allocated (b : Z) (s s' : fs) : Prop := {
  al_kept : fkept s s';
  al_range : 0 <= b < sb_size (f_sb s);
  al_free : used s b = false;
  al_used : ∀ c, 0 <= c < sb_size (f_sb s) → used s' c = (c =? b) || used s c;
  al_zero : flb s' b = zeros;
  al_other : ∀ m, m ≠ b → ¬ is_bmap (f_sb s) m → flb s' m = flb s m
}.

Lemma layout_kept s s' :
  layout s → fkept s s' →
  (∀ c, 0 <= c < sb_size (f_sb s) → used s' c = false → used s c = false) → layout s'.
Proof.
  intros [L1 L2 L3 L4 L5 L6] K Hu. pose proof K as (_ & E & _). split; rewrite ?E; try done.
  - intros n Hn. rewrite (fkept_data _ _ _ K). auto.
  - intros n Hn. rewrite (fkept_data _ _ _ K). auto.
  - intros b Hb Hf. rewrite (fkept_data _ _ _ K). auto.
Qed.

Lemma allocated_layout b s s' : layout s → allocated b s s' → layout s'.
Proof.
  intros L A. eapply layout_kept; [done|apply A|]. intros c Hc. rewrite (al_used _ _ _ A) by done.
  intros [_ ?]%orb_false_iff. done.
Qed.

Lemma used_lb s s' b : (∀ m, flb s' m = flb s m) → f_sb s' = f_sb s → used s' b = used s b.
Proof. intros E1 E2. unfold used. by rewrite E1, E2. Qed.

(** The bit of [b] set or cleared in its map block. *)
Lemma used_update s s' b f v :
  layout s → 0 <= b < sb_size (f_sb s) → fkept s s' →
  (∀ m, flb s' m = if m =? BBLOCK b (f_sb s) then f else flb s m) →
  (∀ j, 0 <= j → bit f j = if j =? b mod BPB then v else bit (flb s (BBLOCK b (f_sb s))) j) →
  ∀ c, 0 <= c < sb_size (f_sb s) → used s' c = if c =? b then v else used s c.
Proof.
  intros L Hb (_ & E & _) Hl Hf c Hc. unfold used. rewrite E, Hl.
  assert (0 <= c mod BPB) by (apply Z.mod_pos_bound; done).
  destruct (Z.eqb_spec (BBLOCK c (f_sb s)) (BBLOCK b (f_sb s))) as [E1|E1].
  - rewrite Hf by done. destruct (Z.eqb_spec (c mod BPB) (b mod BPB)) as [E2|E2].
    + rewrite (proj2 (Z.eqb_eq c b)); [done|]. by eapply BBLOCK_inj.
    + rewrite (proj2 (Z.eqb_neq c b)) by congruence. by rewrite E1.
  - rewrite (proj2 (Z.eqb_neq c b)) by congruence. done.
Qed.

(** The part of [balloc] after a free bit has been found in the held block. *)
Lemma take_block_spec b h s H W r :
  layout s → 0 <= b < sb_size (f_sb s) → used s b = false → (∀ n, is_bmap (f_sb s) n → n ∈ W) →
  clear_of_map s H → (length H <= 3)%nat → let n := BBLOCK b (f_sb s) in
  ready (f_b s) ((h, n) :: H) [] W (S r) →
  wp (zoom (bset h (set_bit (flb s n) (b mod BPB))) ;; zoom (log_write h) ;; zoom (brelse h) ;; bzero ROOTDEV b ;; ret (Some b))
     (λ x s', x = Some b ∧ ready (f_b s') H [] (b :: W) r ∧ allocated b s s') s.
Proof.
  intros L Hb Hu HW Hcl Hlen n R. destruct (lay_free L b Hb Hu) as (Hb0 & Hbd & Hbm & Hbi).
  assert (is_bmap (f_sb s) n) as Hn by (by exists b). pose proof (lb_len _ _ _ _ _ n R) as Hl.
  assert (0 <= b mod BPB < 8 * Z.of_nat (length (flb s n))) as Hbit.
  { rewrite Hl. apply (Z.mod_pos_bound b BPB). done. }
  eapply wp_step; [eapply (f_bset h n); [exact R|by left|by apply HW|by rewrite length_set_bit]|]. intros _ s1 (R1 & K1 & L1).
  eapply wp_step; [eapply (f_log_write h n); [exact R1|by left|by apply HW]|]. intros _ s2 (R2 & K2 & L2).
  eapply wp_step; [eapply (f_brelse h n s2 [] H); [exact R2|set_solver]|]. intros _ s3 (R3 & K3 & L3).
  assert (fkept s s3) as K03 by (by repeat (eapply fkept_trans; [eassumption|])).
  assert (b ∉ H.*2) as HbH. { intros [_ Hx]%Hcl. rewrite Hx in Hu by done. done. }
  eapply wp_step; [eapply (bzero_spec b s3 H [] (b :: W) r); [|done|by rewrite (fkept_data _ _ _ K03)|lia|by left|set_solver]|].
  { apply ready_more; [done|]. by rewrite (fkept_data _ _ _ K03). }
  intros _ s4 (R4 & K4 & L4). apply wp_ret. split_and!; [done|done|].
  assert (∀ m, flb s3 m = if m =? n then set_bit (flb s n) (b mod BPB) else flb s m) as L03.
  { intros m. by rewrite L3, L2, L1. }
  split; try done.
  - by eapply fkept_trans.
  - intros c Hc. transitivity (used s3 c).
    { destruct K4 as (_ & E4 & _). unfold used. rewrite E4, L4. rewrite (proj2 (Z.eqb_neq _ b)); [done|].
      intros Eb. apply Hbm. exists c. destruct K03 as (_ & E3 & _). rewrite E3 in Eb. done. }
    rewrite (used_update s s3 b (set_bit (flb s n) (b mod BPB)) true L Hb K03 L03); [|intros j Hj|done].
    + by destruct (c =? b).
    + rewrite bit_set by done. by destruct (j =? b mod BPB).
  - rewrite L4, Z.eqb_refl. done.
  - intros m Hm Hmb. rewrite L4, (proj2 (Z.eqb_neq m b)) by done. rewrite L03, (proj2 (Z.eqb_neq m n)); [done|]. by intros ->.
Qed.

Lemma used_block s b i :
  layout s → b mod BPB = 0 → 0 <= b → 0 <= i < BPB → b + i < sb_size (f_sb s) →
  BBLOCK (b + i) (f_sb s) = BBLOCK b (f_sb s) ∧ (b + i) mod BPB = i.
Proof.
  intros L Hb Hb0 Hi Hs. rewrite !BBLOCK_eq by (done || lia). unfold BPB, BSIZE in *. lia.
Qed.

(** [balloc] allocates the first free block. *)
Lemma balloc_spec s H W r :
  layout s → (∃ b, 0 <= b < sb_size (f_sb s) ∧ used s b = false) → (∀ n, is_bmap (f_sb s) n → n ∈ W) →
  clear_of_map s H → (length H <= 3)%nat → ready (f_b s) H [] W (S r) →
  wp (balloc ROOTDEV) (λ b s', ready (f_b s') H [] (b :: W) r ∧ allocated b s s' ∧
    ∀ c, 0 <= c < b → used s c = true) s.
Proof.
  intros L Hex HW Hcl Hlen R. unfold balloc. apply wp_bind, wp_gets. set (sb := f_sb s) in *.
  pose proof (lay_size L) as Hsz. fold sb in Hsz.
  eapply wp_step with (P := λ x s', ∃ b, x = Some b ∧ ready (f_b s') H [] (b :: W) r ∧ allocated b s s' ∧
    ∀ c, 0 <= c < b → used s c = true).
  2: { intros x s' (b & -> & Hp). by apply wp_ret. }
  apply (wp_for (λ k s1, fkept s s1 ∧ (∀ m, flb s1 m = flb s m) ∧ ready (f_b s1) H [] W (S r) ∧
    ∀ c, 0 <= c < sb_size sb → c < Z.of_nat k * BPB → used s c = true)).
  - split_and!; [done|done|done|]. intros. lia.
  - intros k s1 Hk (K1 & L1 & R1 & Hall). set (b := 0 + Z.of_nat k * BPB).
    assert (0 <= b < sb_size sb) as Hb. { unfold iters, BPB, BSIZE in *. subst b. lia. }
    assert (b mod BPB = 0) as Hbm by (unfold b; rewrite Z.add_0_l; apply Z.mod_mul; done).
    pose proof K1 as (_ & Esb & _). assert (layout s1) as Lay1.
    { eapply layout_kept; [done..|]. intros c Hc. by rewrite (used_lb s s1). }
    assert (is_bmap sb (BBLOCK b sb)) as Hn by (by exists b).
    eapply wp_step; [apply (f_bread (BBLOCK b sb) s1 H [] W (S r)); [done| | |done]|].
    { by intros [Hx _]%Hcl. }
    { rewrite (fkept_data _ _ _ K1). by apply (lay_bdata L). }
    intros h s2 (R2 & K2 & L2). eapply wp_bind, f_bdata; [exact R2|by left|].
    assert (fkept s s2) as K02 by (by eapply fkept_trans). assert (∀ m, flb s2 m = flb s m) as L02 by (intros m; by rewrite L2).
    pose proof K02 as (_ & Esb2 & _).
    assert (layout s2) as Lay2. { apply (layout_kept s s2); [done..|]. intros c Hc. by rewrite (used_lb s s2). }
    fold sb in Esb2.
    destruct (find_free _ 0 (flb s2 (BBLOCK b sb))) as [bi|] eqn:Ef.
    + apply find_free_Some in Ef as (Hbi & Hf & Hbef). unfold BPB in Hbi.
      destruct (used_block s2 b bi Lay2 Hbm) as [Eb Em]; [lia|unfold BPB; lia|rewrite Esb2; lia|].
      rewrite Esb2 in Eb.
      assert (used s2 (b + bi) = false) as Hu by (unfold used; rewrite Esb2, Eb, Em; done).
      pose proof (take_block_spec (b + bi) h s2 H W r) as Ht. cbv zeta in Ht. rewrite Esb2, Eb, Em in Ht.
      eapply wp_mono; [apply Ht; try done; [lia|]|].
      { intros n Hin. rewrite Esb2. destruct (Hcl n Hin). split; [done|]. rewrite (used_lb s s2) by done. done. }
      intros x s3 (-> & R3 & A). exists (b + bi). split_and!; [done|done| |].
      * destruct A as [A1 A2 A3 A4 A5 A6]. rewrite Esb2 in *. split; try done.
        -- by eapply fkept_trans.
        -- by rewrite (used_lb s s2) in A3.
        -- intros c Hc. rewrite A4 by done. by rewrite (used_lb s s2).
        -- intros m Hm Hmb. rewrite A6 by done. done.
      * intros c Hc. destruct (decide (c < b)); [apply Hall; [lia|unfold b in *; lia]|].
        rewrite <- (used_lb s s2) by done. replace c with (b + (c - b)) by lia.
        destruct (used_block s2 b (c - b) Lay2 Hbm) as [Eb' Em']; [lia|unfold BPB; lia|rewrite Esb2; lia|].
        unfold used. rewrite Eb', Em', Esb2. apply Hbef. lia.
    + pose proof (proj1 (find_free_None _ _ _) Ef) as Hf. clear Ef.
      eapply wp_step; [eapply (f_brelse h _ s2 [] H); [exact R2|set_solver]|]. intros _ s3 (R3 & K3 & L3). apply wp_ret.
      split_and!; [by eapply fkept_trans|by intros m; rewrite L3|done|].
      intros c Hc Hck. destruct (decide (c < b)); [apply Hall; [lia|unfold b in *; lia]|].
      rewrite <- (used_lb s s2) by done. replace c with (b + (c - b)) by lia.
      assert (0 <= c - b < BPB) as Hcb by (unfold b in *; unfold BPB, BSIZE in *; lia).
      destruct (used_block s2 b (c - b) Lay2 Hbm) as [Eb' Em']; [lia|done|rewrite Esb2; lia|].
      unfold used. rewrite Eb', Em', Esb2. apply Hf. lia.
  - intros s1 (_ & _ & _ & Hall). exfalso. destruct Hex as (b & Hb & Hu). rewrite Hall in Hu; [done|done|].
    unfold iters, BPB, BSIZE in *. lia.
Qed.

(** Block [b] was in use and is now free. *)
Record freed (b : Z) (s s' : fs) : Prop := {
  fr_kept : fkept s s';
  fr_used : ∀ c, 0 <= c < sb_size (f_sb s) → used s' c = negb (c =? b) && used s c;
  fr_other : ∀ m, ¬ is_bmap (f_sb s) m → flb s' m = flb s m
}.

Lemma bfree_spec b s H W r :
  layout s → 0 <= b < sb_size (f_sb s) → used s b = true → (∀ n, is_bmap (f_sb s) n → n ∈ W) →
  (∀ n, n ∈ H.*2 → ¬ is_bmap (f_sb s) n) → (length H <= 3)%nat → ready (f_b s) H [] W r →
  wp (bfree ROOTDEV b) (λ _ s', ready (f_b s') H [] W r ∧ freed b s s') s.
Proof.
  intros L Hb Hu HW Hcl Hlen R. unfold bfree. apply wp_bind, wp_gets. set (n := BBLOCK b (f_sb s)).
  assert (is_bmap (f_sb s) n) as Hn by (by exists b).
  eapply wp_step; [apply (f_bread n s H [] W r); [done|by intros ?%Hcl|by apply (lay_bdata L)|done]|].
  intros h s1 (R1 & K1 & L1). eapply wp_bind, f_bdata; [exact R1|by left|]. rewrite L1.
  unfold used in Hu. fold n in Hu. rewrite Hu. simpl negb. cbv iota.
  pose proof (lb_len _ _ _ _ _ n R) as Hl.
  assert (0 <= b mod BPB < 8 * Z.of_nat (length (flb s n))) as Hbit by (rewrite Hl; apply (Z.mod_pos_bound b BPB); done).
  eapply wp_step; [eapply (f_bset h n); [exact R1|by left|by apply HW|by rewrite length_clear_bit]|]. intros _ s2 (R2 & K2 & L2).
  eapply wp_mono; [eapply (f_log_release h n); [exact R2|by apply HW|set_solver]|]. intros _ s3 (R3 & K3 & L3).
  assert (fkept s s3) as K03 by (by repeat (eapply fkept_trans; [eassumption|])).
  assert (∀ m, flb s3 m = if m =? n then clear_bit (flb s n) (b mod BPB) else flb s m) as L03.
  { intros m. rewrite L3, L2. by rewrite L1. }
  split; [done|]. split; [done| |].
  - intros c Hc. rewrite (used_update s s3 b _ false L Hb K03 L03); [|intros j Hj|done].
    + by destruct (c =? b).
    + rewrite bit_clear by done. by destruct (j =? b mod BPB).
  - intros m Hm. rewrite L03, (proj2 (Z.eqb_neq m n)); [done|]. by intros ->.
Qed.
End Blocks.

Arguments lay_size {_ _ _ _}.
Arguments lay_bmap {_ _ _ _}.
Arguments lay_bdata {_ _ _ _}.
Arguments lay_idata {_ _ _ _}.
Arguments lay_sep {_ _ _ _}.
Arguments lay_free {_ _ _ _}.
