(* ===== verification/FsFile.v ===== *)
(** * The blocks and the contents of a file (kernel/fs.c: bmap)

    [addr_of] is the block map of an inode: its direct blocks and those of its
    indirect block.  [file_ok] says they are distinct allocated data blocks.
    [fbyte] is the contents of the file: a block not yet allocated reads as
    zeros, so [bmap], which allocates, does not change it. *)

From Stdlib Require Import ZifyBool.
From S2P Require Import Prelude Random Spinlock Block Fs FsSpec.

(** ** Free blocks *)

Section File.
Context {B : Type} `{!BlockOps B} `{!BlockLaws B}.
Abbreviation fs := (fsys B).
Abbreviation flb s := (lb (f_b s)).

Definition free_blocks (s : fs) : list Z := filter (λ b, used s b = false) (seqZ 0 (sb_size (f_sb s))).
Definition room (s : fs) (k : nat) : Prop := (k <= length (free_blocks s))%nat.

Lemma room_ex s k : room s (S k) → ∃ b, 0 <= b < sb_size (f_sb s) ∧ used s b = false.
Proof.
  unfold room. destruct (free_blocks s) as [|b l] eqn:E; [simpl; lia|]. intros _. exists b.
  assert (b ∈ free_blocks s) as [Hu Hb%elem_of_seqZ]%list_elem_of_filter by (rewrite E; by left). split; [lia|done].
Qed.

Lemma room_allocated s s' b k : allocated b s s' → room s (S k) → room s' k.
Proof.
  intros A. unfold room. assert (free_blocks s ⊆+ b :: free_blocks s') as Hs%submseteq_length.
  { apply NoDup_submseteq; [apply NoDup_filter, NoDup_seqZ|]. intros c [Hu Hc%elem_of_seqZ]%list_elem_of_filter.
    destruct (decide (c = b)) as [->|Hcb]; [by left|right]. apply list_elem_of_filter.
    pose proof (al_kept _ _ _ A) as (_ & E & _). rewrite E. split; [|apply elem_of_seqZ; lia].
    rewrite (al_used _ _ _ A), Hu, (proj2 (Z.eqb_neq _ _)) by (done || lia). done. }
  simpl in Hs. lia.
Qed.

Lemma room_used s s' k :
  f_sb s' = f_sb s → (∀ c, 0 <= c < sb_size (f_sb s) → used s' c = used s c) → room s k → room s' k.
Proof.
  intros E Hu. unfold room. assert (free_blocks s ⊆+ free_blocks s') as Hs%submseteq_length; [|lia].
  apply NoDup_submseteq; [apply NoDup_filter, NoDup_seqZ|]. intros c [Hf Hc]%list_elem_of_filter.
  apply list_elem_of_filter. rewrite E. split; [|done]. apply elem_of_seqZ in Hc. rewrite Hu; [done|lia].
Qed.

Lemma room_less s k j : room s k → (j <= k)%nat → room s j.
Proof. unfold room. lia. Qed.

(** ** The block map *)

(** Entry [j] of the indirect block [a]. *)
Definition ind_entry (f : Z → block) (a j : Z) : Z := get_u32 (f a) (4 * j).

Definition indirect (x : inode) : Z := nth (Z.to_nat NDIRECT) (i_addrs x) 0.

(** The address of block [bn] of the file, 0 if there is none. *)
Definition addr_of (f : Z → block) (x : inode) (bn : Z) : Z :=
  if bn <? NDIRECT then nth (Z.to_nat bn) (i_addrs x) 0
  else if indirect x =? 0 then 0 else ind_entry f (indirect x) (bn - NDIRECT).

(** A block that belongs to some file. *)
Definition owned (s : fs) (a : Z) : Prop :=
  a ≠ 0 ∧ 0 <= a < sb_size (f_sb s) ∧ used s a = true ∧ data_blk (f_b s) a ∧
  ¬ is_bmap (f_sb s) a ∧ ¬ is_iblock (f_sb s) a.

Record file_ok (s : fs) (x : inode) : Prop := {
  fo_len : length (i_addrs x) = 13%nat;
  fo_dev : i_dev x = ROOTDEV;
  fo_inum : 0 <= i_inum x < sb_ninodes (f_sb s);
  fo_size : 0 <= i_size x <= MAXFILE * BSIZE;
  fo_owned : ∀ bn, 0 <= bn < MAXFILE → addr_of (flb s) x bn ≠ 0 → owned s (addr_of (flb s) x bn);
  fo_ind : indirect x ≠ 0 → owned s (indirect x);
  fo_inj : ∀ bn bn', 0 <= bn < MAXFILE → 0 <= bn' < MAXFILE → addr_of (flb s) x bn ≠ 0 →
    addr_of (flb s) x bn = addr_of (flb s) x bn' → bn = bn';
  fo_sep : ∀ bn, 0 <= bn < MAXFILE → indirect x ≠ 0 → addr_of (flb s) x bn ≠ indirect x
}.
Arguments fo_len {_ _}. Arguments fo_dev {_ _}. Arguments fo_inum {_ _}. Arguments fo_size {_ _}.
Arguments fo_owned {_ _}. Arguments fo_ind {_ _}. Arguments fo_inj {_ _}. Arguments fo_sep {_ _}.

(** The contents of a file. *)
Definition fbyte (f : Z → block) (x : inode) (i : Z) : Z :=
  let a := addr_of f x (i / BSIZE) in
  if a =? 0 then 0 else nth (Z.to_nat (i mod BSIZE)) (f a) 0.

(** The map changed at [bn] only, from "no block" to a zeroed block. *)
Definition extends (f : Z → block) (x : inode) (f' : Z → block) (x' : inode) (bn : Z) : Prop :=
  addr_of f' x' bn ≠ 0 ∧
  (∀ bn', 0 <= bn' < MAXFILE → bn' ≠ bn → addr_of f' x' bn' = addr_of f x bn') ∧
  (addr_of f x bn ≠ 0 → addr_of f' x' bn = addr_of f x bn) ∧
  (addr_of f x bn = 0 → f' (addr_of f' x' bn) = zeros).

(** What else changed: nothing that was in use, except the free map and the
    file's own indirect block. *)
Definition untouched (s s' : fs) (x : inode) : Prop :=
  (∀ m, owned s m → m ≠ indirect x → flb s' m = flb s m) ∧
  (∀ m, is_iblock (f_sb s) m → flb s' m = flb s m) ∧
  (∀ c, 0 <= c < sb_size (f_sb s) → used s c = true → used s' c = true).

Lemma zeros_nth i : nth i zeros 0 = 0.
Proof.
  unfold zeros. rewrite nth_lookup. destruct (_ !! i) eqn:E; [by apply lookup_replicate in E as [-> _]|done].
Qed.

(** [bmap] does not change the contents. *)
Lemma extends_fbyte s s' x x' bn i :
  file_ok s x → extends (flb s) x (flb s') x' bn → untouched s s' x →
  0 <= i < MAXFILE * BSIZE → fbyte (flb s') x' i = fbyte (flb s) x i.
Proof.
  intros F (E1 & E2 & E3 & E4) (U1 & _) Hi. unfold fbyte.
  assert (0 <= i / BSIZE < MAXFILE) as Hb. { unfold MAXFILE, NDIRECT, NINDIRECT, BSIZE in *. split; [apply Z.div_pos; lia|apply Z.div_lt_upper_bound; lia]. }
  destruct (decide (i / BSIZE = bn)) as [<-|Hne].
  - rewrite (proj2 (Z.eqb_neq _ _)) by done. destruct (Z.eqb_spec (addr_of (flb s) x (i / BSIZE)) 0) as [E|E].
    + by rewrite E4, zeros_nth by done.
    + rewrite E3 by done. rewrite U1; [done|by apply (fo_owned F)|].
      intros Ei. destruct (decide (indirect x = 0)) as [E0|E0]; [congruence|]. by destruct (fo_sep F (i / BSIZE) Hb E0).
  - rewrite E2 by done. case_match eqn:E; [done|]. apply Z.eqb_neq in E. rewrite U1; [done|by apply (fo_owned F)|].
    intros Ei. destruct (decide (indirect x = 0)) as [E0|E0]; [congruence|]. by destruct (fo_sep F (i / BSIZE) Hb E0).
Qed.

(** ** Allocation and the files *)

Lemma allocated_owned s s' a m :
  layout s → allocated a s s' → owned s m → owned s' m ∧ flb s' m = flb s m ∧ m ≠ a.
Proof.
  intros L A (H1 & H2 & H3 & H4 & H5 & H6).
  assert (m ≠ a) as Hne. { intros ->. rewrite (al_free _ _ _ A) in H3. done. }
  pose proof (al_kept _ _ _ A) as K. pose proof K as (_ & E & _). split; [|split; [by apply (al_other _ _ _ A)|done]].
  unfold owned. rewrite E, (fkept_data _ _ _ K), (al_used _ _ _ A), H3, orb_true_r by done. done.
Qed.

Lemma allocated_new s s' a : layout s → allocated a s s' → owned s' a.
Proof.
  intros L A. pose proof (al_range _ _ _ A) as Hr. destruct (lay_free L a Hr (al_free _ _ _ A)) as (H1 & H2 & H3 & H4).
  pose proof (al_kept _ _ _ A) as K. pose proof K as (_ & E & _).
  unfold owned. rewrite E, (fkept_data _ _ _ K), (al_used _ _ _ A), Z.eqb_refl by done. done.
Qed.

Lemma allocated_untouched s s' a x : layout s → allocated a s s' → untouched s s' x.
Proof.
  intros L A. split_and!.
  - intros m Hm _. by apply (allocated_owned s s' a m L A).
  - intros m Hm. apply (al_other _ _ _ A); [|by intros Hb; apply (lay_sep L m Hb)].
    intros ->. destruct (lay_free L a (al_range _ _ _ A) (al_free _ _ _ A)) as (_ & _ & _ & Hi). done.
  - intros c Hc Hu. by rewrite (al_used _ _ _ A), Hu, orb_true_r.
Qed.

(** The map seen through contents that agree on the indirect block. *)
Lemma addr_of_ext f f' x bn : (indirect x ≠ 0 → f' (indirect x) = f (indirect x)) → addr_of f' x bn = addr_of f x bn.
Proof.
  intros E. unfold addr_of. case_match; [done|]. case_match eqn:E0; [done|]. unfold ind_entry. rewrite E; [done|lia].
Qed.

Lemma addr_of_allocated s s' a x bn :
  layout s → allocated a s s' → file_ok s x → addr_of (flb s') x bn = addr_of (flb s) x bn.
Proof.
  intros L A F. apply addr_of_ext. intros Hi. by apply (allocated_owned s s' a _ L A), (fo_ind F).
Qed.

(** A file stays well formed when its map gains at most one block [a], which
    belonged to no file. *)
Lemma file_ok_upd s s' x x' bn a :
  file_ok s x → (∀ m, owned s m → owned s' m) → f_sb s' = f_sb s → length (i_addrs x') = 13%nat →
  i_dev x' = i_dev x → i_inum x' = i_inum x → i_size x' = i_size x → indirect x' = indirect x →
  owned s' a → ¬ owned s a →
  (∀ b, 0 <= b < MAXFILE → b ≠ bn → addr_of (flb s') x' b = addr_of (flb s) x b) → addr_of (flb s') x' bn = a →
  file_ok s' x'.
Proof.
  intros F Hown Esb E1 E2 E3 E4 E5 Ha Hna Hold Hnew. pose proof (proj1 Ha) as Ha0.
  assert (∀ b, 0 <= b < MAXFILE → addr_of (flb s) x b ≠ a) as Hfresh.
  { intros b Hb E. apply Hna. rewrite <- E. apply (fo_owned F); [done|congruence]. }
  split; rewrite ?E2, ?E3, ?E4, ?E5, ?Esb; try done; try apply F.
  - intros b Hb Hn. destruct (decide (b = bn)) as [->|Hne]; [by rewrite Hnew|].
    rewrite Hold in * by done. by apply Hown, (fo_owned F).
  - intros Hi. by apply Hown, (fo_ind F).
  - intros b b' Hb Hb' Hn E. destruct (decide (b = bn)) as [->|Hne], (decide (b' = bn)) as [->|Hne']; [done|..].
    + rewrite Hnew, Hold in E by done. by destruct (Hfresh b' Hb').
    + rewrite Hnew, Hold in E by done. by destruct (Hfresh b Hb).
    + rewrite !Hold in * by done. by apply (fo_inj F).
  - intros b Hb Hi. destruct (decide (b = bn)) as [->|Hne].
    + rewrite Hnew. intros ->. by apply Hna, (fo_ind F).
    + rewrite Hold by done. by apply (fo_sep F).
Qed.

Definition with_addr (x : inode) (i a : Z) : inode := set_iaddrs (<[Z.to_nat i := a]> (i_addrs x)) x.

Lemma indirect_with_addr x i a :
  length (i_addrs x) = 13%nat → 0 <= i <= NDIRECT → indirect (with_addr x i a) = if i =? NDIRECT then a else indirect x.
Proof.
  intros Hl Hi. unfold indirect, with_addr, NDIRECT in *. cbn. rewrite nth_insert by lia.
  destruct (Z.eqb_spec i 12), decide; done || lia.
Qed.

Lemma addr_of_direct f f' x i a bn :
  length (i_addrs x) = 13%nat → 0 <= i <= NDIRECT → 0 <= bn < NDIRECT →
  addr_of f' (with_addr x i a) bn = if bn =? i then a else addr_of f x bn.
Proof.
  intros Hl Hi Hb. unfold addr_of. rewrite (proj2 (Z.ltb_lt bn NDIRECT)) by lia. unfold with_addr. cbn.
  rewrite nth_insert by (unfold NDIRECT in *; lia). destruct (Z.eqb_spec bn i), decide; done || lia.
Qed.

Lemma not_owned_free s a : used s a = false → ¬ owned s a.
Proof. intros Hu (_ & _ & Hu' & _). congruence. Qed.

(** A direct block is added. *)
Lemma new_direct s s1 a x bn :
  layout s → allocated a s s1 → file_ok s x → 0 <= bn < NDIRECT → addr_of (flb s) x bn = 0 →
  extends (flb s) x (flb s1) (with_addr x bn a) bn ∧ file_ok s1 (with_addr x bn a).
Proof.
  intros L A F Hb H0. pose proof (allocated_new s s1 a L A) as Ho. pose proof (fo_len F) as Hl.
  assert (indirect (with_addr x bn a) = indirect x) as Ei.
  { rewrite indirect_with_addr by (done || lia). rewrite (proj2 (Z.eqb_neq _ _)) by lia. done. }
  assert (addr_of (flb s1) (with_addr x bn a) bn = a) as Ea.
  { rewrite (addr_of_direct (flb s)) by (done || lia). by rewrite Z.eqb_refl. }
  assert (∀ b, 0 <= b < MAXFILE → b ≠ bn → addr_of (flb s1) (with_addr x bn a) b = addr_of (flb s) x b) as Eo.
  { intros b Hb' Hne. destruct (decide (b < NDIRECT)).
    - rewrite (addr_of_direct (flb s)) by (done || lia). by rewrite (proj2 (Z.eqb_neq _ _)) by done.
    - rewrite <- (addr_of_allocated s s1 a) by done. unfold addr_of. rewrite Ei.
      by rewrite !(proj2 (Z.ltb_ge b NDIRECT)) by lia. }
  split.
  - unfold extends. rewrite Ea. split_and!; [apply Ho|done|done|]. intros _. apply (al_zero _ _ _ A).
  - eapply (file_ok_upd s s1 x _ bn a); try done.
    + intros m Hm. by apply (allocated_owned s s1 a m L A).
    + apply (al_kept _ _ _ A).
    + unfold with_addr. cbn. by rewrite length_insert.
    + apply not_owned_free, A.
Qed.

Lemma ind_entry_zeros j : 0 <= j < NINDIRECT → get_u32 zeros (4 * j) = 0.
Proof.
  intros Hj. unfold get. change (Z.of_nat 4) with 4. assert (sub zeros (4 * j) 4 = replicate 4 0) as E; [|by rewrite E].
  unfold sub, zeros. rewrite drop_replicate, take_replicate. f_equal. unfold NINDIRECT, BSIZE in *. lia.
Qed.

(** An indirect block is added: no block of the file changes. *)
Lemma new_indirect s s1 a x :
  layout s → allocated a s s1 → file_ok s x → indirect x = 0 → let x' := with_addr x NDIRECT a in
  (∀ b, 0 <= b < MAXFILE → addr_of (flb s1) x' b = addr_of (flb s) x b) ∧ file_ok s1 x'.
Proof.
  intros L A F H0 x'. pose proof (allocated_new s s1 a L A) as Ho. pose proof (fo_len F) as Hl.
  assert (indirect x' = a) as Ei. { unfold x'. by rewrite indirect_with_addr by done. }
  assert (∀ b, 0 <= b < MAXFILE → addr_of (flb s1) x' b = addr_of (flb s) x b) as Eo.
  { intros b Hb. destruct (decide (b < NDIRECT)).
    - unfold x'. rewrite (addr_of_direct (flb s)) by (done || lia). by rewrite (proj2 (Z.eqb_neq _ _)) by lia.
    - unfold addr_of. rewrite !(proj2 (Z.ltb_ge b NDIRECT)) by lia. rewrite Ei, H0, Z.eqb_refl.
      rewrite (proj2 (Z.eqb_neq _ _)) by apply Ho. unfold ind_entry. rewrite (al_zero _ _ _ A).
      apply ind_entry_zeros. unfold MAXFILE in Hb. lia. }
  pose proof (al_kept _ _ _ A) as (_ & Esb & _). split; [done|]. split; try (rewrite ?Esb; apply F).
  - unfold x', with_addr. cbn. by rewrite length_insert.
  - intros b Hb. rewrite Eo by done. intros Hn. by apply (allocated_owned s s1 a _ L A), (fo_owned F).
  - by rewrite Ei.
  - intros b b' Hb Hb'. rewrite !Eo by done. by apply (fo_inj F).
  - intros b Hb _. rewrite Eo, Ei by done. intros E.
    apply (not_owned_free s a (al_free _ _ _ A)). rewrite <- E. apply (fo_owned F); [done|]. rewrite E. apply Ho.
Qed.

(** Changing a block that belongs to a file changes nothing else. *)
Lemma used_owned_update s s' n bs c :
  owned s n → f_sb s' = f_sb s → (∀ k, flb s' k = if k =? n then bs else flb s k) → 0 <= c < sb_size (f_sb s) →
  used s' c = used s c.
Proof.
  intros (_ & _ & _ & _ & Hn & _) Esb E Hc. unfold used. rewrite Esb, E, (proj2 (Z.eqb_neq _ _)); [done|].
  intros <-. apply Hn. by exists c.
Qed.

Lemma owned_update s s' n bs m :
  owned s n → fkept s s' → (∀ k, flb s' k = if k =? n then bs else flb s k) → owned s' m ↔ owned s m.
Proof.
  intros Ho K E. pose proof K as (_ & Esb & _). pose proof (used_owned_update s s' n bs m Ho Esb E) as Eu.
  unfold owned. rewrite Esb, (fkept_data _ _ _ K). split; intros (H1 & H2 & H3 & H4); (split; [done|]; split; [done|]; split; [|done]).
  - by rewrite <- Eu.
  - by rewrite Eu.
Qed.

Lemma layout_update s s' n bs :
  layout s → owned s n → fkept s s' → (∀ k, flb s' k = if k =? n then bs else flb s k) → layout s'.
Proof.
  intros L Ho K E. apply (layout_kept s s' L K). intros c Hc. by rewrite (used_owned_update s s' n bs c Ho (proj1 (proj2 K)) E Hc).
Qed.

(** A block is entered in the indirect block. *)
Lemma new_entry s s1 s2 a x bn :
  layout s → allocated a s s1 → file_ok s x → NDIRECT <= bn < MAXFILE → indirect x ≠ 0 → addr_of (flb s) x bn = 0 →
  fkept s1 s2 → length (flb s1 (indirect x)) = 1024%nat → a < 2 ^ 31 →
  (∀ m, flb s2 m = if m =? indirect x then put_32 (flb s1 (indirect x)) (4 * (bn - NDIRECT)) a else flb s1 m) →
  addr_of (flb s2) x bn = a ∧ extends (flb s) x (flb s2) x bn ∧ untouched s s2 x ∧ file_ok s2 x ∧ layout s2.
Proof.
  intros L A F Hb Hi H0 K Hlen Hmax E. set (n := indirect x) in *. set (bs := put_32 _ _ _) in *.
  pose proof (allocated_new s s1 a L A) as Ha. pose proof (al_kept _ _ _ A) as K1. pose proof K1 as (_ & Esb & _).
  destruct (allocated_owned s s1 a n L A (fo_ind F Hi)) as (Hn & En & Hna).
  pose proof (λ m, owned_update s1 s2 n bs m Hn K E) as Ho.
  assert (∀ b, NDIRECT <= b → addr_of (flb s2) x b = get_u32 bs (4 * (b - NDIRECT))) as Eb.
  { intros b Hb'. unfold addr_of. fold n. rewrite (proj2 (Z.ltb_ge b NDIRECT)) by lia. rewrite (proj2 (Z.eqb_neq n 0)) by done.
    unfold ind_entry. by rewrite E, Z.eqb_refl. }
  assert (0 <= a) as Ha0 by apply Ha.
  assert (addr_of (flb s2) x bn = a) as Ea.
  { rewrite Eb by lia. unfold bs. apply get_put_u32; unfold MAXFILE, NINDIRECT, NDIRECT, BSIZE in *; lia. }
  assert (∀ b, 0 <= b < MAXFILE → b ≠ bn → addr_of (flb s2) x b = addr_of (flb s) x b) as Eo.
  { intros b Hb' Hne. rewrite <- (addr_of_allocated s s1 a x b L A F). destruct (decide (b < NDIRECT)) as [Hd|Hd].
    - unfold addr_of. by rewrite (proj2 (Z.ltb_lt b NDIRECT)) by lia.
    - rewrite Eb by lia. unfold bs. rewrite get_put_out by (unfold MAXFILE, NINDIRECT, NDIRECT, BSIZE in *; lia).
      unfold addr_of. fold n. rewrite (proj2 (Z.ltb_ge b NDIRECT)) by lia. by rewrite (proj2 (Z.eqb_neq n 0)) by done. }
  split; [done|]. split; [|split; [|split]].
  - unfold extends. rewrite Ea. split_and!; [apply Ha|done|done|]. intros _. rewrite E, (proj2 (Z.eqb_neq a n)) by done. apply (al_zero _ _ _ A).
  - destruct (allocated_untouched s s1 a x L A) as (U1 & U2 & U3). split_and!.
    + intros m Hm Hne. rewrite E, (proj2 (Z.eqb_neq m n)) by done. by apply U1.
    + intros m Hm. rewrite E, (proj2 (Z.eqb_neq m n)); [by apply U2|]. intros ->. apply Hn. by rewrite Esb.
    + intros c Hc Hu. rewrite (used_owned_update s1 s2 n bs c Hn (proj1 (proj2 K)) E) by (by rewrite Esb). by apply U3.
  - eapply (file_ok_upd s s2 x x bn a); try done.
    + intros m Hm. apply Ho. by apply (allocated_owned s s1 a m L A).
    + rewrite (proj1 (proj2 K)). done.
    + apply F.
    + by apply Ho.
    + apply not_owned_free, A.
  - apply (layout_update s1 s2 n bs (allocated_layout a s s1 L A) Hn K E).
Qed.

(** ** [bmap] *)

Abbreviation ino s ip := (inode_at (f_itab s) ip).

(** Of the tables, only the block addresses of [ip] change. *)
Definition only_addrs (ip : Z) (s s' : fs) : Prop :=
  kept (f_b s) (f_b s') ∧ f_sb s' = f_sb s ∧ f_cwd s' = f_cwd s ∧
  (∀ jp, jp ≠ ip → ino s' jp = ino s jp) ∧ ∃ l, ino s' ip = set_iaddrs l (ino s ip).

Lemma inode_eta x : x = set_iaddrs (i_addrs x) x.
Proof. by destruct x. Qed.

Lemma only_addrs_kept ip s s' : fkept s s' → only_addrs ip s s'.
Proof.
  intros (K & E1 & E2 & E3). split_and!; try done; rewrite E2; [done|]. eexists. apply inode_eta.
Qed.

Lemma only_addrs_trans ip s1 s2 s3 : only_addrs ip s1 s2 → only_addrs ip s2 s3 → only_addrs ip s1 s3.
Proof.
  intros (K1 & E1 & F1 & G1 & l1 & H1) (K2 & E2 & F2 & G2 & l2 & H2).
  split_and!; [by eapply kept_trans|congruence|congruence| |].
  - intros jp Hj. by rewrite G2, G1.
  - exists l2. by rewrite H2, H1.
Qed.

Lemma inode_at_insert t ip x jp : inode_at (<[ip := x]> t) jp = if decide (jp = ip) then x else inode_at t jp.
Proof.
  unfold inode_at. case_decide as E; [by rewrite E, lookup_insert_eq|]. by rewrite lookup_insert_ne.
Qed.

(** Neither predicate depends on the inode table. *)
Lemma file_ok_tables s s' x : f_b s' = f_b s → f_sb s' = f_sb s → file_ok s x → file_ok s' x.
Proof.
  intros E1 E2 [H1 H2 H3 H4 H5 H6 H7 H8]. split; unfold owned, used in *; rewrite ?E1, ?E2; done.
Qed.

Lemma layout_tables s s' : f_b s' = f_b s → f_sb s' = f_sb s → layout s → layout s'.
Proof.
  intros E1 E2 [H1 H2 H3 H4 H5 H6]. split; unfold used in *; rewrite ?E1, ?E2; done.
Qed.

(** The state after [set_addr]. *)
Definition put_addr (ip i a : Z) (s : fs) : fs :=
  mkFs (f_b s) (f_sb s) (<[ip := with_addr (ino s ip) i a]> (f_itab s)) (f_cwd s).

Lemma wp_set_addr ip i a Q s : Q tt (put_addr ip i a s) → wp (set_addr ip i a) Q s.
Proof. intros HQ. by apply wp_modify. Qed.

Lemma put_addr_only ip i a s s1 : fkept s s1 → only_addrs ip s (put_addr ip i a s1).
Proof.
  intros (K & E1 & E2 & E3). unfold put_addr, only_addrs. cbn [f_b f_sb f_itab f_cwd]. rewrite E1, E2, E3.
  split_and!; try done.
  - intros jp Hj. rewrite inode_at_insert. by case_decide.
  - eexists. rewrite inode_at_insert. by case_decide.
Qed.

(** The indirect block is there, and is the transaction's to write. *)
Record ind_ready (ip : Z) (W : list Z) (r : nat) (s s1 : fs) (ind : Z) : Prop := {
  ir_ind : indirect (ino s1 ip) = ind;
  ir_nz : ind ≠ 0;
  ir_ready : ∃ W1, ready (f_b s1) [] [] W1 (S r) ∧ W ⊆ W1 ∧ ind ∈ W1;
  ir_addr : ∀ b, 0 <= b < MAXFILE → addr_of (flb s1) (ino s1 ip) b = addr_of (flb s) (ino s ip) b;
  ir_file : file_ok s1 (ino s1 ip);
  ir_lay : layout s1;
  ir_owned : ∀ m, owned s m → owned s1 m ∧ flb s1 m = flb s m ∧ (m = ind → m = indirect (ino s ip));
  ir_fresh : indirect (ino s1 ip) = indirect (ino s ip) ∨ ¬ owned s ind;
  ir_unt : untouched s s1 (ino s ip);
  ir_only : only_addrs ip s s1;
  ir_room : ∀ k, room s (S k) → room s1 k
}.

(** What a block costs beside itself: the indirect block, unless it can be
    logged already. *)
Definition ind_cost (x : inode) (W : list Z) (bn : Z) : nat :=
  if (bn <? NDIRECT) || (negb (indirect x =? 0) && bool_decide (indirect x ∈ W)) then 0 else 1.

Lemma balloc_free s W r :
  layout s → room s 1 → (∀ n, is_bmap (f_sb s) n → n ∈ W) → ready (f_b s) [] [] W (S r) →
  wp (balloc ROOTDEV) (λ b s', ready (f_b s') [] [] (b :: W) r ∧ allocated b s s') s.
Proof.
  intros L Hr HW R. eapply wp_mono; [apply balloc_spec; try done|].
  - by apply (room_ex s 0).
  - intros n Hn. by apply elem_of_nil in Hn.
  - simpl. lia.
  - by intros b s' (H1 & H2 & _).
Qed.

Lemma bmap_indirect ip W r s bn :
  layout s → file_ok s (ino s ip) → room s 1 → (∀ n, is_bmap (f_sb s) n → n ∈ W) → NDIRECT <= bn →
  ready (f_b s) [] [] W (ind_cost (ino s ip) W bn + S r) →
  wp (if indirect (ino s ip) =? 0 then
        let! addr := balloc ROOTDEV in set_addr ip NDIRECT addr ;; ret addr
      else ret (indirect (ino s ip))) (λ ind s1, ind_ready ip W r s s1 ind) s.
Proof.
  intros L F Hr HW Hb R. unfold ind_cost in R. rewrite (proj2 (Z.ltb_ge bn NDIRECT)) in R by lia.
  destruct (Z.eqb_spec (indirect (ino s ip)) 0) as [E0|E0]; simpl in R.
  - eapply wp_step; [by apply (balloc_free s W (S r))|]. intros a s1 (R1 & A). apply wp_bind, wp_set_addr, wp_ret.
    pose proof (al_kept _ _ _ A) as (K1 & Esb & Eit & _).
    destruct (new_indirect s s1 a (ino s ip) L A F E0) as (N1 & N2).
    assert (ino (put_addr ip NDIRECT a s1) ip = with_addr (ino s ip) NDIRECT a) as Ex.
    { unfold put_addr. cbn [f_itab]. rewrite inode_at_insert, Eit. by case_decide. }
    split; rewrite ?Ex.
    + rewrite indirect_with_addr; [done|apply (fo_len F)|done].
    + apply (allocated_new s s1 a L A).
    + exists (a :: W). split_and!; [done|set_solver|by left].
    + exact N1.
    + by apply (file_ok_tables s1).
    + by apply (layout_tables s1), (allocated_layout a s s1 L A).
    + intros m Hm. destruct (allocated_owned s s1 a m L A Hm) as (? & ? & ?). by split_and!.
    + right. apply not_owned_free, A.
    + apply (allocated_untouched s s1 a _ L A).
    + by apply put_addr_only, A.
    + intros k Hk. by apply (room_allocated s s1 a k A).
  - apply wp_ret. assert (∃ W1, ready (f_b s) [] [] W1 (S r) ∧ W ⊆ W1 ∧ indirect (ino s ip) ∈ W1) as HW1.
    { case_bool_decide; [by exists W|]. exists (indirect (ino s ip) :: W).
      split_and!; [|set_solver|by left]. apply ready_more; [done|]. by apply (fo_ind F). }
    split; try done; try by apply F.
    by left. apply only_addrs_kept, fkept_refl. intros k Hk. by eapply room_less; [done|lia].
Qed.

(** Block [bn] of [ip] is [a]; it was there, or it was allocated and is zero. *)
Record bmapped (ip bn : Z) (W : list Z) (r : nat) (s s' : fs) (a : Z) : Prop := {
  bm_addr : addr_of (flb s') (ino s' ip) bn = a;
  bm_ready : ∃ W', ready (f_b s') [] [] W' r ∧ W ⊆ W' ∧ a ∈ W' ∧ (NDIRECT <= bn → indirect (ino s' ip) ≠ 0 ∧ indirect (ino s' ip) ∈ W');
  bm_new : addr_of (flb s) (ino s ip) bn = 0 → ¬ owned s a;
  bm_ind : indirect (ino s' ip) = indirect (ino s ip) ∨ ¬ owned s (indirect (ino s' ip));
  bm_dir : bn < NDIRECT → indirect (ino s' ip) = indirect (ino s ip);
  bm_ext : extends (flb s) (ino s ip) (flb s') (ino s' ip) bn;
  bm_unt : untouched s s' (ino s ip);
  bm_file : file_ok s' (ino s' ip);
  bm_lay : layout s';
  bm_only : only_addrs ip s s';
  bm_room : ∀ k, room s (2 + k) → room s' k
}.

Lemma extends_refl f x bn : addr_of f x bn ≠ 0 → extends f x f x bn.
Proof. by unfold extends. Qed.

Lemma bmap_direct_spec ip bn W r s :
  layout s → file_ok s (ino s ip) → room s 1 → (∀ n, is_bmap (f_sb s) n → n ∈ W) → 0 <= bn < NDIRECT →
  ready (f_b s) [] [] W (S r) → wp (bmap ip bn) (λ a s', bmapped ip bn W r s s' a) s.
Proof.
  intros L F Hr HW Hb R. unfold bmap. apply wp_bind, wp_gets. rewrite (fo_dev F).
  rewrite (proj2 (Z.ltb_lt bn NDIRECT)) by lia. apply wp_bind, wp_gets.
  assert (nth (Z.to_nat bn) (i_addrs (ino s ip)) 0 = addr_of (flb s) (ino s ip) bn) as ->.
  { unfold addr_of. by rewrite (proj2 (Z.ltb_lt bn NDIRECT)) by lia. }
  destruct (Z.eqb_spec (addr_of (flb s) (ino s ip) bn) 0) as [E|E].
  - eapply wp_step; [by apply (balloc_free s W r)|]. intros a s1 (R1 & A). apply wp_bind, wp_set_addr, wp_ret.
    pose proof (al_kept _ _ _ A) as (K1 & Esb & Eit & _).
    destruct (new_direct s s1 a (ino s ip) bn L A F Hb E) as (N1 & N2).
    assert (ino (put_addr ip bn a s1) ip = with_addr (ino s ip) bn a) as Ex.
    { unfold put_addr. cbn [f_itab]. rewrite inode_at_insert, Eit. by case_decide. }
    split; rewrite ?Ex.
    + rewrite (addr_of_direct (flb s)); [by rewrite Z.eqb_refl|apply (fo_len F)|lia|lia].
    + exists (a :: W). split_and!; [done|set_solver|by left|lia].
    + intros _. apply not_owned_free, A.
    + left. rewrite indirect_with_addr by (apply (fo_len F) || lia). by rewrite (proj2 (Z.eqb_neq _ _)) by lia.
    + intros _. rewrite indirect_with_addr by (apply (fo_len F) || lia). by rewrite (proj2 (Z.eqb_neq _ _)) by lia.
    + done.
    + apply (allocated_untouched s s1 a _ L A).
    + by apply (file_ok_tables s1).
    + by apply (layout_tables s1), (allocated_layout a s s1 L A).
    + by apply put_addr_only, A.
    + intros k Hk. apply (room_allocated s s1 a k A). eapply room_less; [done|lia].
  - apply wp_ret. split; try done.
    + exists (addr_of (flb s) (ino s ip) bn :: W). split_and!; [|set_solver|by left|lia].
      apply ready_more; [done|]. apply (fo_owned F); [unfold MAXFILE, NINDIRECT, NDIRECT, BSIZE in *; lia|done].
    + by left.
    + by apply only_addrs_kept, fkept_refl.
    + intros k Hk. eapply room_less; [done|lia].
Qed.

(** Composition of the two steps of the indirect case. *)
Lemma ind_ready_trans ip W r s s1 s2 ind bn :
  ind_ready ip W r s s1 ind → extends (flb s1) (ino s1 ip) (flb s2) (ino s2 ip) bn → untouched s1 s2 (ino s1 ip) →
  0 <= bn < MAXFILE →
  extends (flb s) (ino s ip) (flb s2) (ino s2 ip) bn ∧ untouched s s2 (ino s ip).
Proof.
  intros I (E1 & E2 & E3 & E4) (U1 & U2 & U3) Hb. pose proof (ir_addr _ _ _ _ _ _ I) as Ea.
  pose proof (ir_only _ _ _ _ _ _ I) as (_ & Esb & _). destruct (ir_unt _ _ _ _ _ _ I) as (V1 & V2 & V3).
  unfold extends. rewrite Ea in E3, E4 by done. split; [split_and!; try done|split_and!].
  - intros b Hb' Hne. rewrite E2, Ea by done. done.
  - intros m Hm Hne. destruct (ir_owned _ _ _ _ _ _ I m Hm) as (O1 & O2 & O3). rewrite U1; [done|done|].
    rewrite (ir_ind _ _ _ _ _ _ I). intros ->. by apply Hne, O3.
  - intros m Hm. rewrite U2, V2 by (rewrite ?Esb; done). done.
  - intros c Hc Hu. apply U3; [by rewrite Esb|by apply V3].
Qed.

Lemma addr_of_ind f x bn :
  NDIRECT <= bn → indirect x ≠ 0 → addr_of f x bn = get_u32 (f (indirect x)) (4 * (bn - NDIRECT)).
Proof.
  intros Hb Hi. unfold addr_of. rewrite (proj2 (Z.ltb_ge bn NDIRECT)) by lia. by rewrite (proj2 (Z.eqb_neq _ 0)).
Qed.

Lemma addr_of_lb f f' x bn : (∀ m, f' m = f m) → addr_of f' x bn = addr_of f x bn.
Proof. intros E. apply addr_of_ext. intros _. apply E. Qed.

(** ** States with the same blocks *)

Definition same_lb (s s' : fs) : Prop := fkept s s' ∧ ∀ m, flb s' m = flb s m.

Lemma same_used s s' c : same_lb s s' → used s' c = used s c.
Proof. intros ((_ & E & _) & L). by apply used_lb. Qed.

Lemma same_owned s s' m : same_lb s s' → owned s' m ↔ owned s m.
Proof.
  intros S. pose proof S as (K & L). pose proof K as (_ & E & _). unfold owned.
  by rewrite E, (same_used s s'), (fkept_data _ _ _ K) by done.
Qed.

Lemma same_layout s s' : same_lb s s' → layout s → layout s'.
Proof. intros S L. apply (layout_kept s s' L); [apply S|]. intros c _. by rewrite (same_used s s'). Qed.

Lemma same_file_ok s s' x : same_lb s s' → file_ok s x → file_ok s' x.
Proof.
  intros S [H1 H2 H3 H4 H5 H6 H7 H8]. pose proof S as ((_ & E & _) & L). split; rewrite ?E; try done.
  - intros bn Hb. rewrite (addr_of_lb (flb s)), (same_owned s s') by done. auto.
  - intros Hi. rewrite (same_owned s s') by done. auto.
  - intros b b' Hb Hb'. rewrite !(addr_of_lb (flb s) (flb s')) by done. auto.
  - intros b Hb Hi. rewrite !(addr_of_lb (flb s) (flb s')) by done. auto.
Qed.

Lemma same_room s s' k : same_lb s s' → room s k → room s' k.
Proof. intros S. apply room_used; [apply S|]. intros c _. by apply same_used. Qed.

Lemma same_untouched s1 s2 s3 s4 x : same_lb s1 s2 → same_lb s3 s4 → untouched s2 s3 x → untouched s1 s4 x.
Proof.
  intros S1 S3 (U1 & U2 & U3). pose proof S1 as ((_ & E & _) & L1). pose proof S3 as (_ & L3). rewrite E in U2, U3.
  split_and!.
  - intros m Hm Hn. rewrite L3, U1, L1; [done| |done]. by apply (same_owned s1 s2).
  - intros m Hm. by rewrite L3, U2, L1.
  - intros c Hc Hu. rewrite (same_used s3 s4) by done. apply U3; [done|]. by rewrite (same_used s1 s2).
Qed.

Lemma same_extends s1 s2 s3 s4 x x' bn :
  same_lb s1 s2 → same_lb s3 s4 → extends (flb s2) x (flb s3) x' bn → extends (flb s1) x (flb s4) x' bn.
Proof.
  intros (_ & L1) (_ & L3) (E1 & E2 & E3 & E4). unfold extends.
  rewrite (addr_of_lb (flb s3) (flb s4)) by done. rewrite (addr_of_lb (flb s1) (flb s2)) in E3, E4 by done.
  split_and!; try done.
  - intros b Hb Hn. rewrite (addr_of_lb (flb s3) (flb s4)), E2, (addr_of_lb (flb s1) (flb s2)) by done. done.
  - intros H0. rewrite L3. auto.
Qed.

(** The second step: the entry of the indirect block, which is held. *)
Lemma bmap_entry ip bn W r s h :
  layout s → file_ok s (ino s ip) → room s 1 → (∀ n, is_bmap (f_sb s) n → n ∈ W) → NDIRECT <= bn < MAXFILE →
  let ind := indirect (ino s ip) in let addr := addr_of (flb s) (ino s ip) bn in
  ind ≠ 0 → ind ∈ W → ready (f_b s) [(h, ind)] [] W (S r) →
  wp (if addr =? 0 then
        let! addr := balloc ROOTDEV in
        let! d := zoom (bdata h) in
        zoom (bset h (put_32 d (4 * (bn - NDIRECT)) addr)) ;;
        zoom (log_write h) ;;
        ret addr
      else ret addr)
    (λ a s2, addr_of (flb s2) (ino s ip) bn = a ∧ a ≠ 0 ∧ ready (f_b s2) [(h, ind)] [] (a :: W) r ∧
       (addr = 0 → ¬ owned s a) ∧ extends (flb s) (ino s ip) (flb s2) (ino s ip) bn ∧ untouched s s2 (ino s ip) ∧
       file_ok s2 (ino s ip) ∧ layout s2 ∧ fkept s s2 ∧ ∀ k, room s (S k) → room s2 k) s.
Proof.
  intros L F Hr HW Hb ind addr Hi HiW R. pose proof (fo_ind F Hi) as Ho. fold ind in Ho.
  destruct (Z.eqb_spec addr 0) as [E|E].
  - eapply wp_step; [apply (balloc_spec s [(h, ind)] W r); try done|].
    + by apply (room_ex s 0).
    + intros n ->%list_elem_of_singleton. split; [apply Ho|]. intros _. apply Ho.
    + simpl. lia.
    + intros a s1 (R1 & A & _). apply wp_bind. eapply f_bdata; [exact R1|by left|].
      pose proof (lb_len _ _ _ _ _ ind R1) as Hlen.
      eapply wp_step; [eapply f_bset; [exact R1|by left|by right|]|].
      { pose proof (length_put 4 (flb s1 ind) (4 * (bn - NDIRECT)) a) as Hp. rewrite Hp; [done|..]; unfold MAXFILE, NINDIRECT, NDIRECT, BSIZE in *; lia. }
      intros _ s2 (R2 & K2 & L2). eapply wp_step; [eapply f_log_write; [exact R2|by left|by right]|].
      intros _ s3 (R3 & K3 & L3). apply wp_ret. pose proof (fkept_trans _ _ _ K2 K3) as K.
      pose proof (lay_size L) as Hsz. pose proof (al_range _ _ _ A) as Har.
      destruct (new_entry s s1 s3 a (ino s ip) bn L A F Hb Hi E K Hlen ltac:(lia)) as (N0 & N1 & N2 & N3 & N4).
      { intros m. by rewrite L3, L2. }
      split_and!; try done; [by apply (allocated_new s s1 a L A)|by intros _; apply not_owned_free, A|by eapply fkept_trans; [apply A|]|].
      intros k Hk. eapply (room_used s1); [apply K| |by apply (room_allocated s s1 a)].
      intros c Hc. destruct (allocated_owned s s1 a ind L A Ho) as (Ho1 & _).
      eapply used_owned_update; [exact Ho1|apply K| |done]. intros m. by rewrite L3, L2.
  - apply wp_ret. split_and!; try done.
    + apply ready_more; [done|]. apply (fo_owned F); [unfold NDIRECT in *; lia|done].
    + intros k Hk. eapply room_less; [done|lia].
Qed.

(** [bmap]: total, and correct on every block number of a file. *)
Lemma bmap_spec ip bn W r s :
  layout s → file_ok s (ino s ip) → room s 2 → (∀ n, is_bmap (f_sb s) n → n ∈ W) → 0 <= bn < MAXFILE →
  ready (f_b s) [] [] W (ind_cost (ino s ip) W bn + S r) →
  wp (bmap ip bn) (λ a s', bmapped ip bn W r s s' a) s.
Proof.
  intros L F Hr HW Hb R. destruct (decide (bn < NDIRECT)) as [Hd|Hd].
  { apply bmap_direct_spec; try done; [by apply (room_less s 2); [|lia]|lia|]. unfold ind_cost in R.
    by rewrite (proj2 (Z.ltb_lt bn NDIRECT)) in R by lia. }
  unfold bmap. apply wp_bind, wp_gets. rewrite (fo_dev F), (proj2 (Z.ltb_ge bn NDIRECT)) by lia. cbv zeta.
  rewrite (proj2 (Z.ltb_lt _ NINDIRECT)) by (unfold MAXFILE in *; lia). apply wp_bind, wp_gets.
  fold (indirect (ino s ip)).
  eapply wp_step; [apply (bmap_indirect ip W r s bn); try done; [by apply (room_less s 2); [|lia]|lia]|].
  intros ind s1 I. destruct (ir_ready _ _ _ _ _ _ I) as (W1 & R1 & HW1 & Hi1).
  pose proof (ir_file _ _ _ _ _ _ I) as F1. pose proof (ir_ind _ _ _ _ _ _ I) as Ei. pose proof (ir_nz _ _ _ _ _ _ I) as Hnz.
  pose proof (ir_only _ _ _ _ _ _ I) as O1. pose proof O1 as (_ & Esb & _).
  assert (owned s1 ind) as Ho. { rewrite <- Ei. apply (fo_ind F1). by rewrite Ei. }
  eapply wp_step; [apply (f_bread ind s1 [] [] W1 (S r) R1); [apply not_elem_of_nil|apply Ho|simpl; lia]|].
  intros h s2 (R2 & S2). apply wp_bind. eapply f_bdata; [exact R2|by left|].
  pose proof S2 as ((_ & Esb2 & Eit2 & _) & L2). change (same_lb s1 s2) in S2.
  assert (ino s2 ip = ino s1 ip) as Ex2 by (by rewrite Eit2).
  assert (get_u32 (flb s2 ind) (4 * (bn - NDIRECT)) = addr_of (flb s2) (ino s2 ip) bn) as ->.
  { rewrite Ex2, addr_of_ind; [by rewrite Ei|lia|by rewrite Ei]. }
  assert (ind = indirect (ino s2 ip)) as Ei2 by (by rewrite Ex2). rewrite Ei2 in R2, Hi1, Hnz, Ho.
  eapply wp_step; [apply (bmap_entry ip bn W1 r s2 h); try done|].
  - apply (same_layout s1 s2 S2), I.
  - rewrite Ex2. by apply (same_file_ok s1 s2).
  - apply (same_room s1 s2), I; done.
  - intros n. rewrite Esb2, Esb. auto.
  - unfold NDIRECT in *. lia.
  - intros a s3 (Ea & Ha0 & R3 & N3 & X3 & U3 & F3 & Lay3 & K3 & Hroom3).
    eapply wp_step; [apply (f_brelse h _ s3 [] [] [] (a :: W1) r R3), not_elem_of_nil|].
    intros _ s4 (R4 & S4). change (same_lb s3 s4) in S4. apply wp_ret.
    pose proof K3 as (_ & Esb3 & Eit3 & _). pose proof S4 as ((_ & Esb4 & Eit4 & _) & L4).
    assert (ino s4 ip = ino s2 ip) as Ex4 by (by rewrite Eit4, Eit3).
    destruct (ind_ready_trans ip W r s s1 s4 ind bn I) as (X & U); [..|done|].
    + rewrite Ex4, <- Ex2. by eapply same_extends.
    + rewrite <- Ex2. by eapply same_untouched.
    + split; try done.
      * rewrite Ex4, (addr_of_lb (flb s3)) by done. done.
      * exists (a :: W1). rewrite Ex4. split_and!; [done|set_solver|by left|]. intros _. split; [done|by right].
      * rewrite <- (ir_addr _ _ _ _ _ _ I bn Hb), <- Ex2, <- (addr_of_lb (flb s1) (flb s2)) by done. intros E0 Hox.
        apply (N3 E0), (same_owned s1 s2 a S2), (ir_owned _ _ _ _ _ _ I a Hox).
      * rewrite Ex4, Ex2, Ei. destruct (ir_fresh _ _ _ _ _ _ I) as [E|E]; [left; congruence|by right].
      * rewrite Ex4. by apply (same_file_ok s3).
      * by apply (same_layout s3).
      * eapply only_addrs_trans; [done|]. apply only_addrs_kept. eapply fkept_trans; [apply S2|].
        eapply fkept_trans; [apply K3|apply S4].
      * intros k Hk. apply (same_room s3 s4 k S4), Hroom3, (same_room s1 s2 _ S2), I, Hk.
Qed.
End File.

Arguments fo_len {_ _ _ _ _}.
Arguments fo_dev {_ _ _ _ _}.
Arguments fo_inum {_ _ _ _ _}.
Arguments fo_size {_ _ _ _ _}.
Arguments fo_owned {_ _ _ _ _}.
Arguments fo_ind {_ _ _ _ _}.
Arguments fo_inj {_ _ _ _ _}.
Arguments fo_sep {_ _ _ _ _}.
