(* ===== verification/FsInode.v ===== *)
(** * Inodes on the disk (kernel/fs.c: iupdate, ilock)

    A dinode is 64 bytes of its block.  What [iupdate] writes, [ilock] reads
    back, and neither touches the other dinodes of the block. *)

From Stdlib Require Import ZifyBool.
From S2P Require Import Prelude Random Spinlock Block Fs FsSpec FsFile.

#[local] Ltac Zify.zify_post_hook ::= Z.to_euclidean_division_equations.

(** ** The layout of a dinode *)

Lemma splice_app bs o o' a b :
  0 <= o → o' = o + Z.of_nat (length a) → o' + Z.of_nat (length b) <= Z.of_nat (length bs) →
  splice (splice bs o a) o' b = splice bs o (a ++ b).
Proof.
  intros Ho -> Hl. assert (fits_in bs o a) as F1 by (unfold fits_in; lia).
  assert (fits_in (splice bs o a) (o + Z.of_nat (length a)) b) as F2 by (unfold fits_in; rewrite length_splice by done; lia).
  assert (fits_in bs o (a ++ b)) as F3 by (unfold fits_in; rewrite length_app; lia).
  apply list_eq. intros i. rewrite !lookup_splice, length_app by done. repeat case_decide; try lia.
  - rewrite lookup_app_r by lia. f_equal. lia.
  - by rewrite lookup_app_l by lia.
  - done.
Qed.

Definition dinode_bytes (x : inode) : list Z :=
  le 2 (i_type x) ++ le 2 (i_major x) ++ le 2 (i_minor x) ++ le 2 (i_nlink x) ++ le 4 (i_size x) ++ mjoin (le 4 <$> i_addrs x).

Lemma words_cons v (l : list Z) : mjoin (le 4 <$> v :: l) = le 4 v ++ mjoin (le 4 <$> l).
Proof. done. Qed.

Lemma length_words (l : list Z) : length (mjoin (le 4 <$> l)) = (4 * length l)%nat.
Proof. induction l as [|v l IH]; [done|]. rewrite words_cons, length_app, length_le, IH. simpl. lia. Qed.

Lemma length_dinode_bytes x : length (i_addrs x) = 13%nat → length (dinode_bytes x) = 64%nat.
Proof. intros E. unfold dinode_bytes. by rewrite !length_app, !length_le, length_words, E. Qed.

Lemma encode_splice x d o :
  length (i_addrs x) = 13%nat → 0 <= o → o + 64 <= Z.of_nat (length d) → encode_dinode x d o = splice d o (dinode_bytes x).
Proof.
  intros Hl Ho Hd. unfold encode_dinode, put_addrs, put, dinode_bytes.
  pose proof (length_words (i_addrs x)) as Hw. rewrite Hl in Hw.
  rewrite !(splice_app d) by (rewrite ?length_app, ?length_le, ?Hw; lia). by rewrite <- !app_assoc.
Qed.

(** Reading back. *)
Lemma get_splice n d o bs k :
  fits_in d o bs → 0 <= k → k + Z.of_nat n <= Z.of_nat (length bs) → get n (splice d o bs) (o + k) = get n bs k.
Proof.
  intros Hf Hk Hn. pose proof Hf as [H0 _].
  rewrite <- (get_sub n (splice d o bs) o (Z.of_nat (length bs))) by done. by rewrite sub_splice.
Qed.

Lemma get_splice_out n d o bs k :
  fits_in d o bs → 0 <= k → k + Z.of_nat n <= o ∨ o + Z.of_nat (length bs) <= k → get n (splice d o bs) k = get n d k.
Proof. intros. unfold get. by rewrite sub_splice_out. Qed.

Lemma get_skip n a b k : Z.of_nat (length a) <= k → get n (a ++ b) k = get n b (k - Z.of_nat (length a)).
Proof.
  intros Hk. unfold get, sub. rewrite drop_app_ge by lia. do 3 f_equal. lia.
Qed.

Lemma get_le n v b : get n (le n v ++ b) 0 = v mod 256 ^ Z.of_nat n.
Proof.
  unfold get, sub. rewrite drop_0, Nat2Z.id, take_app_length' by (by rewrite length_le). apply unle_le.
Qed.

Lemma words_get (l : list Z) :
  (λ i, get_u32 (mjoin (le 4 <$> l)) (4 * i)) <$> seqZ 0 (Z.of_nat (length l)) = (λ v, v mod 2 ^ 32) <$> l.
Proof.
  induction l as [|v l IH]; [done|]. rewrite length_cons, words_cons, seqZ_cons by lia.
  replace (Z.pred (Z.of_nat (S (length l)))) with (Z.of_nat (length l)) by lia.
  rewrite !fmap_cons. f_equal; [by rewrite get_le|]. rewrite <- IH.
  change (Z.succ 0) with (1 + 0). rewrite <- fmap_add_seqZ, <- list_fmap_compose. apply list_fmap_ext. intros j i [Hi _]%lookup_seqZ. unfold compose. cbv beta.
  rewrite get_skip by (rewrite length_le; lia). f_equal. rewrite length_le. lia.
Qed.

(** The fields of a dinode have their width. *)
Record dinode_range (x : inode) : Prop := {
  dr_type : - 2 ^ 15 <= i_type x < 2 ^ 15;
  dr_major : - 2 ^ 15 <= i_major x < 2 ^ 15;
  dr_minor : - 2 ^ 15 <= i_minor x < 2 ^ 15;
  dr_nlink : - 2 ^ 15 <= i_nlink x < 2 ^ 15;
  dr_size : 0 <= i_size x < 2 ^ 32;
  dr_len : length (i_addrs x) = 13%nat;
  dr_addrs : Forall (λ a, 0 <= a < 2 ^ 32) (i_addrs x)
}.

Definition meta (x y : inode) : inode :=
  set_meta (i_type x) (i_major x) (i_minor x) (i_nlink x) (i_size x) (i_addrs x) y.

Lemma swrap16_mod v : - 2 ^ 15 <= v < 2 ^ 15 → s16 (v mod 256 ^ Z.of_nat 2) = v.
Proof. intros. change (256 ^ Z.of_nat 2) with (2 ^ 16). rewrite swrap_mod by lia. by apply swrap_small. Qed.

Ltac skip_fields := repeat (rewrite get_skip; [rewrite ?length_le|rewrite ?length_le; lia]).

Lemma dinode_fields x :
  get 2 (dinode_bytes x) 0 = i_type x mod 256 ^ Z.of_nat 2 ∧ get 2 (dinode_bytes x) 2 = i_major x mod 256 ^ Z.of_nat 2 ∧
  get 2 (dinode_bytes x) 4 = i_minor x mod 256 ^ Z.of_nat 2 ∧ get 2 (dinode_bytes x) 6 = i_nlink x mod 256 ^ Z.of_nat 2 ∧
  get 4 (dinode_bytes x) 8 = i_size x mod 256 ^ Z.of_nat 4 ∧
  ∀ i, 0 <= i → get 4 (dinode_bytes x) (12 + 4 * i) = get 4 (mjoin (le 4 <$> i_addrs x)) (4 * i).
Proof.
  unfold dinode_bytes. split_and!; [by skip_fields; apply get_le..|]. intros i Hi. skip_fields. f_equal. lia.
Qed.

(** What [iupdate] writes is what [ilock] reads. *)
Lemma decode_encode x y d o :
  dinode_range x → 0 <= o → o + 64 <= Z.of_nat (length d) → decode_dinode (encode_dinode x d o) o y = meta x y.
Proof.
  intros [H1 H2 H3 H4 H5 H6 H7] Ho Hd. rewrite encode_splice by done.
  pose proof (length_dinode_bytes x H6) as Hl. assert (fits_in d o (dinode_bytes x)) as Hf by (unfold fits_in; lia).
  assert (∀ n k, 0 <= k → k + Z.of_nat n <= 64 → get n (splice d o (dinode_bytes x)) (o + k) = get n (dinode_bytes x) k) as G.
  { intros n k Hk Hn. apply get_splice; [done|done|lia]. }
  unfold decode_dinode, meta, get_i16. pose proof (G 2%nat 0) as G0. rewrite Z.add_0_r in G0. rewrite G0, !G by lia.
  destruct (dinode_fields x) as (E0 & E2 & E4 & E6 & E8 & E12).
  rewrite E0, E2, E4, E6, E8, !swrap16_mod by done. f_equal.
  - by apply Z.mod_small.
  - transitivity ((λ v, v mod 2 ^ 32) <$> i_addrs x).
    + rewrite <- words_get, H6. apply list_fmap_ext. intros j i [Hi ?]%lookup_seqZ. unfold d_addr.
      rewrite <- Z.add_assoc, G, E12 by lia. done.
    + rewrite <- (list_fmap_id (i_addrs x)) at 2. apply list_fmap_ext. intros i v Hv. apply Z.mod_small.
      by eapply (Forall_lookup_1 _ _ _ _ H7).
Qed.

Lemma decode_encode_out x y d o o' :
  length (i_addrs x) = 13%nat → 0 <= o → o + 64 <= Z.of_nat (length d) → 0 <= o' → o' + 64 <= o ∨ o + 64 <= o' →
  decode_dinode (encode_dinode x d o) o' y = decode_dinode d o' y.
Proof.
  intros H6 Ho Hd Ho' Hdis. rewrite encode_splice by done.
  pose proof (length_dinode_bytes x H6) as Hl. assert (fits_in d o (dinode_bytes x)) as Hf by (unfold fits_in; lia).
  assert (∀ n k, 0 <= k → k + Z.of_nat n <= 64 → get n (splice d o (dinode_bytes x)) (o' + k) = get n d (o' + k)) as G.
  { intros n k Hk Hn. apply get_splice_out; [done|lia|lia]. }
  unfold decode_dinode, get_i16. pose proof (G 2%nat 0) as G0. rewrite Z.add_0_r in G0. rewrite G0, !G by lia. f_equal.
  apply list_fmap_ext. intros j i [Hi ?]%lookup_seqZ. unfold d_addr. by rewrite <- Z.add_assoc, G by lia.
Qed.

Lemma DOFF_range i : 0 <= DOFF i ∧ DOFF i + 64 <= 1024.
Proof. unfold DOFF, IPB. lia. Qed.

(** ** [iupdate] and [ilock] *)

Section Inode.
Context {B : Type} `{!BlockOps B} `{!BlockLaws B}.
Abbreviation fs := (fsys B).
Abbreviation flb s := (lb (f_b s)).
Abbreviation ino s ip := (inode_at (f_itab s) ip).

(** The inode [inum] as the disk has it, its other fields those of [y]. *)
Definition on_disk (s : fs) (inum : Z) (y : inode) : inode :=
  decode_dinode (flb s (IBLOCK inum (f_sb s))) (DOFF inum) y.

Lemma DOFF_inj sb i j :
  0 <= i < 2 ^ 32 → 0 <= j < 2 ^ 32 → i ≠ j → IBLOCK i sb = IBLOCK j sb → DOFF i + 64 <= DOFF j ∨ DOFF j + 64 <= DOFF i.
Proof.
  intros Hi Hj Hne E. unfold IBLOCK, wrap in E. unfold DOFF, IPB in *.
  assert (i / 16 = j / 16) as Ed; [|lia]. assert (0 <= i / 16 < 2 ^ 28) by lia. assert (0 <= j / 16 < 2 ^ 28) by lia. lia.
Qed.

(** The state in which the inode [ip] went to the disk. *)
Record updated (ip : Z) (s s' : fs) : Prop := {
  up_kept : fkept s s';
  up_blk : ∀ m, flb s' m = if m =? IBLOCK (i_inum (ino s ip)) (f_sb s)
    then encode_dinode (ino s ip) (flb s m) (DOFF (i_inum (ino s ip))) else flb s m
}.

Lemma iupdate_spec ip s W r :
  layout s → i_dev (ino s ip) = ROOTDEV → 0 <= i_inum (ino s ip) < sb_ninodes (f_sb s) → length (i_addrs (ino s ip)) = 13%nat →
  IBLOCK (i_inum (ino s ip)) (f_sb s) ∈ W → ready (f_b s) [] [] W r →
  wp (iupdate ip) (λ _ s', ready (f_b s') [] [] W r ∧ updated ip s s') s.
Proof.
  intros L Hdev Hi Hl HW R. unfold iupdate. apply wp_bind, wp_gets. apply wp_bind, wp_gets. simpl id. set (x := ino s ip) in *.
  set (n := IBLOCK (i_inum x) (f_sb s)) in *. rewrite Hdev. assert (is_iblock (f_sb s) n) as Hn by (by exists (i_inum x)).
  eapply wp_step; [apply (f_bread n s [] [] W r R); [apply not_elem_of_nil|by apply (lay_idata L)|simpl; lia]|].
  intros h s1 (R1 & K1 & L1). apply wp_bind. eapply f_bdata; [exact R1|by left|]. rewrite L1.
  pose proof (lb_len _ _ _ _ _ n R) as Hd. pose proof (DOFF_range (i_inum x)) as [Ho1 Ho2].
  eapply wp_step; [apply (f_bset h n _ s1 _ _ _ _ R1); [by left|done|]|].
  { rewrite encode_splice, length_splice by (try (unfold fits_in; rewrite length_dinode_bytes by done); done || lia). done. }
  intros _ s2 (R2 & K2 & L2). eapply wp_mono; [apply (f_log_release h n s2 [] [] W r R2); [done|apply not_elem_of_nil]|].
  intros _ s3 (R3 & K3 & L3). split; [done|]. split; [by repeat (eapply fkept_trans; [eassumption|])|].
  intros m. rewrite L3, L2. fold x n. destruct (Z.eqb_spec m n) as [->|]; [done|]. apply L1.
Qed.

(** The dinode is the inode's, and the other dinodes are what they were. *)
Lemma updated_on_disk ip s s' y :
  updated ip s s' → dinode_range (ino s ip) → length (flb s (IBLOCK (i_inum (ino s ip)) (f_sb s))) = 1024%nat →
  on_disk s' (i_inum (ino s ip)) y = meta (ino s ip) y.
Proof.
  intros [(_ & Esb & _) E] Hr Hd. unfold on_disk. rewrite Esb, E, Z.eqb_refl. apply decode_encode; [done|..]; pose proof (DOFF_range (i_inum (ino s ip))); lia.
Qed.

Lemma updated_other ip s s' j y :
  updated ip s s' → sb_ninodes (f_sb s) <= 2 ^ 32 → 0 <= i_inum (ino s ip) < sb_ninodes (f_sb s) → length (i_addrs (ino s ip)) = 13%nat →
  length (flb s (IBLOCK (i_inum (ino s ip)) (f_sb s))) = 1024%nat →
  0 <= j < sb_ninodes (f_sb s) → j ≠ i_inum (ino s ip) → on_disk s' j y = on_disk s j y.
Proof.
  intros [(_ & Esb & _) E] Hn Hi Hl Hd Hj Hne. unfold on_disk. rewrite Esb, E. set (i := i_inum (ino s ip)) in *.
  pose proof (DOFF_range i). pose proof (DOFF_range j).
  destruct (Z.eqb_spec (IBLOCK j (f_sb s)) (IBLOCK i (f_sb s))) as [Ej|]; [|done]. rewrite Ej.
  apply decode_encode_out; try done; try lia. destruct (DOFF_inj (f_sb s) i j) as [|]; (done || lia).
Qed.

(** Only the table of inodes may differ. *)
Definition same_blocks (s s' : fs) : Prop :=
  kept (f_b s) (f_b s') ∧ f_sb s' = f_sb s ∧ f_cwd s' = f_cwd s ∧ ∀ m, flb s' m = flb s m.

Lemma same_blocks_refl s : same_blocks s s.
Proof. done. Qed.

Lemma same_blocks_trans s1 s2 s3 : same_blocks s1 s2 → same_blocks s2 s3 → same_blocks s1 s3.
Proof.
  intros (K1 & ? & ? & L1) (K2 & ? & ? & L2). split_and!; [by eapply kept_trans|congruence..|]. intros m. by rewrite L2.
Qed.

Lemma same_lb_blocks s s' : same_lb s s' → same_blocks s s' ∧ f_itab s' = f_itab s.
Proof. intros ((K & ? & ? & ?) & L). done. Qed.

Lemma on_disk_same s s' i y : same_blocks s s' → on_disk s' i y = on_disk s i y.
Proof. intros (_ & E & _ & L). unfold on_disk. by rewrite E, L. Qed.

Lemma seti_spec ip f s (Q : unit → fs → Prop) :
  Q tt (mkFs (f_b s) (f_sb s) (<[ip := f (ino s ip)]> (f_itab s)) (f_cwd s)) → wp (seti ip f) Q s.
Proof. intros HQ. by apply wp_modify. Qed.

(** The lock of an inode. *)
Lemma lock_inode_spec ip s W r H :
  lockable (LK_INODE ip) (view (f_b s)) → sl_locked (i_lock (ino s ip)) = 0 → ready (f_b s) H [] W r →
  wp (lock_inode ip) (λ _ s', ready (f_b s') H [] W r ∧ same_blocks s s' ∧
    f_itab s' = <[ip := set_ilock (mkSleeplock 1 (cur_pid (f_b s))) (ino s ip)]> (f_itab s)) s.
Proof.
  intros Hl Hk R. unfold lock_inode. apply wp_bind, wp_gets. apply wp_bind, wp_gets. apply wp_bind, wp_zoom.
  destruct (acquiresleep_run (cur_pid (f_b s)) (LK_INODE ip) (i_lock (ino s ip)) (view (f_b s)) Hl Hk) as (l & E & He).
  unfold wp. simpl view. rewrite E. apply seti_spec. simpl. split_and!; try done.
  - by apply ready_set.
  - split_and!; try done; [by apply kept_set|]. intros m. apply lb_set.
Qed.

Lemma unlock_inode_spec ip s W r H :
  lockable (LK_INODE ip) (view (f_b s)) → ready (f_b s) H [] W r →
  wp (unlock_inode ip) (λ _ s', ready (f_b s') H [] W r ∧ same_blocks s s' ∧
    f_itab s' = <[ip := set_ilock (mkSleeplock 0 0) (ino s ip)]> (f_itab s)) s.
Proof.
  intros Hl R. unfold unlock_inode. apply wp_bind, wp_gets. apply wp_bind, wp_zoom.
  destruct (releasesleep_run (LK_INODE ip) (i_lock (ino s ip)) (view (f_b s)) Hl) as (l & E & He).
  unfold wp. simpl view. rewrite E. apply seti_spec. simpl. split_and!; try done.
  - by apply ready_set.
  - split_and!; try done; [by apply kept_set|]. intros m. apply lb_set.
Qed.

(** The inode after [ilock]: as the table has it, or read from the disk. *)
Definition locked_inode (s : fs) (ip : Z) : inode :=
  let x := set_ilock (mkSleeplock 1 (cur_pid (f_b s))) (ino s ip) in
  if i_valid x =? 0 then set_ivalid 1 (on_disk s (i_inum x) x) else x.

Lemma ilock_spec ip s W r :
  layout s → 1 <= i_ref (ino s ip) → lockable (LK_INODE ip) (view (f_b s)) → sl_locked (i_lock (ino s ip)) = 0 →
  i_dev (ino s ip) = ROOTDEV → 0 <= i_inum (ino s ip) < sb_ninodes (f_sb s) → i_type (locked_inode s ip) ≠ 0 →
  ready (f_b s) [] [] W r →
  wp (ilock ip) (λ _ s', ready (f_b s') [] [] W r ∧ same_blocks s s' ∧
    ino s' ip = locked_inode s ip ∧ ∀ jp, jp ≠ ip → ino s' jp = ino s jp) s.
Proof.
  intros L Href Hl Hk Hdev Hi Ht R. unfold ilock. apply wp_bind, wp_gets. rewrite (proj2 (Z.ltb_ge _ 1)) by lia.
  eapply wp_step; [by apply (lock_inode_spec ip s W r [])|]. intros _ s1 (R1 & S1 & E1). apply wp_bind, wp_gets.
  set (x := set_ilock (mkSleeplock 1 (cur_pid (f_b s))) (ino s ip)) in *.
  assert (ino s1 ip = x) as Ex. { rewrite E1, inode_at_insert. by case_decide. }
  assert (∀ jp, jp ≠ ip → ino s1 jp = ino s jp) as Ej. { intros jp Hj. rewrite E1, inode_at_insert. by case_decide. }
  rewrite Ex. unfold locked_inode in *. fold x in Ht |- *. destruct (Z.eqb_spec (i_valid x) 0) as [Ev|Ev]; [|by apply wp_ret].
  apply wp_bind, wp_gets. apply wp_bind, wp_gets. simpl id. rewrite Ex. replace (i_dev x) with ROOTDEV by done.
  pose proof S1 as ((_ & _ & D1) & Esb & _ & L1). rewrite Esb.
  eapply wp_step; [apply (f_bread (IBLOCK (i_inum x) (f_sb s)) s1 [] [] W r R1); [apply not_elem_of_nil| |simpl; lia]|].
  { apply D1, (lay_idata L). by exists (i_inum x). }
  intros h s2 (R2 & S2). change (same_lb s1 s2) in S2. destruct (same_lb_blocks _ _ S2) as (B2 & T2).
  apply wp_bind. eapply f_bdata; [exact R2|by left|]. apply wp_bind, seti_spec.
  match goal with |- wp _ _ ?t => set (s2' := t) end.
  eapply wp_step; [apply (f_brelse h _ s2' [] [] [] W r R2), not_elem_of_nil|]. intros _ s3 (R3 & S3). change (same_lb s2' s3) in S3.
  destruct (same_lb_blocks _ _ S3) as (B3 & T3). unfold s2' in T3. cbn [f_itab] in T3. apply wp_bind, seti_spec. apply wp_bind, wp_gets. cbn [f_itab].
  assert (decode_dinode (flb s2 (IBLOCK (i_inum x) (f_sb s))) (DOFF (i_inum x)) (ino s2 ip) = on_disk s (i_inum x) x) as Ed.
  { unfold on_disk. rewrite T2, Ex, (proj2 S2), L1. done. }
  rewrite Ed in T3. set (y := set_ivalid 1 (on_disk s (i_inum x) x)) in *.
  assert (set_ivalid 1 (ino s3 ip) = y) as Ey. { rewrite T3, inode_at_insert. by case_decide. }
  rewrite Ey, inode_at_insert. case_decide; [|done]. rewrite (proj2 (Z.eqb_neq _ 0)) by done. apply wp_ret. simpl.
  split_and!; [done| | |].
  - eapply same_blocks_trans; [exact S1|]. eapply same_blocks_trans; [exact B2|exact B3].
  - rewrite inode_at_insert. by case_decide.
  - intros jp Hj. rewrite inode_at_insert. case_decide; [done|]. rewrite T3, inode_at_insert. case_decide; [done|]. by rewrite T2, Ej.
Qed.
End Inode.
