(* ===== verification/FsTable.v ===== *)
(** * The table of inodes (kernel/fs.c: iget, idup, iput)

    At most one entry of the table stands for an inode, and its [ref] counts
    the references handed out: [iget] and [idup] add one, [iput] takes one
    away, and the count of every other inode stays. *)

From Stdlib Require Import ZifyBool.
From S2P Require Import Prelude Random Spinlock Block Fs FsSpec FsFile FsInode.

Definition entry (ip : Z) : Prop := 0 <= ip < Z.of_nat NINODE.

(** The references to inode [inum] of [dev] an entry accounts for. *)
Definition counts (x : inode) (dev inum : Z) : Z := if (i_dev x =? dev) && (i_inum x =? inum) then i_ref x else 0.

Definition sum (l : list Z) : Z := foldr Z.add 0 l.

Definition refs (t : gmap Z inode) (dev inum : Z) : Z :=
  sum ((λ ip, counts (inode_at t ip) dev inum) <$> seqZ 0 (Z.of_nat NINODE)).

Record itab_ok (t : gmap Z inode) : Prop := {
  it_ref : ∀ ip, entry ip → 0 <= i_ref (inode_at t ip);
  it_uniq : ∀ ip jp, entry ip → entry jp → 0 < i_ref (inode_at t ip) → 0 < i_ref (inode_at t jp) →
    i_dev (inode_at t ip) = i_dev (inode_at t jp) → i_inum (inode_at t ip) = i_inum (inode_at t jp) → ip = jp
}.

(** ** Sums over the table *)

Lemma sum_cons x l : sum (x :: l) = x + sum l.
Proof. done. Qed.

Lemma sum_update (l : list Z) (f g : Z → Z) ip :
  NoDup l → ip ∈ l → (∀ jp, jp ≠ ip → g jp = f jp) → sum (g <$> l) = sum (f <$> l) - f ip + g ip.
Proof.
  intros Hnd Hin Hg. induction Hnd as [|j l Hj Hnd IH]; [by apply elem_of_nil in Hin|]. rewrite !fmap_cons, !sum_cons.
  apply elem_of_cons in Hin as [->|Hin].
  - assert (g <$> l = f <$> l) as ->; [|lia].
    apply list_fmap_ext. intros k x Hx. apply Hg. intros ->. apply Hj. by eapply list_elem_of_lookup_2.
  - assert (j ≠ ip) by (by intros ->). rewrite (Hg j), IH by done. lia.
Qed.

Lemma refs_insert t ip x dev inum :
  entry ip → refs (<[ip := x]> t) dev inum = refs t dev inum - counts (inode_at t ip) dev inum + counts x dev inum.
Proof.
  intros Hip. unfold refs.
  rewrite (sum_update _ (λ jp, counts (inode_at t jp) dev inum) (λ jp, counts (inode_at (<[ip := x]> t) jp) dev inum) ip).
  - rewrite inode_at_insert. by case_decide.
  - apply NoDup_seqZ.
  - apply elem_of_seqZ. unfold entry in Hip. lia.
  - intros jp Hj. rewrite inode_at_insert. by case_decide.
Qed.

Lemma refs_counts t dev inum ip : itab_ok t → entry ip → counts (inode_at t ip) dev inum <= refs t dev inum.
Proof.
  intros [H1 _] Hip. unfold refs. assert (ip ∈ seqZ 0 (Z.of_nat NINODE)) as Hin by (apply elem_of_seqZ; unfold entry in Hip; lia).
  assert (∀ l, (∀ jp, jp ∈ l → entry jp) → 0 <= sum ((λ ip, counts (inode_at t ip) dev inum) <$> l) ∧
    (ip ∈ l → counts (inode_at t ip) dev inum <= sum ((λ ip, counts (inode_at t ip) dev inum) <$> l))) as Hs; [|].
  { induction l as [|j l IH]; intros Hl; [split; [done|by intros ?%elem_of_nil]|].
    destruct IH as [IH0 IH1]; [intros; apply Hl; by right|].
    assert (0 <= counts (inode_at t j) dev inum) as Hc.
    { unfold counts. case_match; [apply H1, Hl; by left|lia]. }
    rewrite fmap_cons, sum_cons. split; [lia|]. intros [->|Hi]%elem_of_cons; [lia|]. specialize (IH1 Hi). lia. }
  apply Hs; [|done]. intros jp Hj%elem_of_seqZ. unfold entry. lia.
Qed.

(** ** The search *)

Definition is_entry (t : gmap Z inode) (dev inum ip : Z) : Prop :=
  0 < i_ref (inode_at t ip) ∧ i_dev (inode_at t ip) = dev ∧ i_inum (inode_at t ip) = inum.

Lemma iget_loop_spec n ip t dev inum e :
  match iget_loop n ip t dev inum e with
  | inl jp => ip <= jp < ip + Z.of_nat n ∧ is_entry t dev inum jp
  | inr e' => (∀ jp, ip <= jp < ip + Z.of_nat n → ¬ is_entry t dev inum jp) ∧
      match e' with
      | Some jp => e = Some jp ∨ (e = None ∧ ip <= jp < ip + Z.of_nat n ∧ i_ref (inode_at t jp) = 0)
      | None => e = None ∧ ∀ jp, ip <= jp < ip + Z.of_nat n → i_ref (inode_at t jp) ≠ 0
      end
  end.
Proof.
  revert ip e. induction n as [|n IH]; intros ip e; cbn [iget_loop].
  { split; [lia|]. destruct e; [by left|]. split; [done|lia]. }
  set (x := inode_at t ip). destruct ((0 <? i_ref x) && (i_dev x =? dev) && (i_inum x =? inum)) eqn:Eb.
  { split; [lia|]. unfold is_entry. fold x. lia. }
  specialize (IH (ip + 1) (match e with None => if i_ref x =? 0 then Some ip else None | Some _ => e end)).
  destruct (iget_loop _ _ _ _ _ _) as [jp|e'].
  { destruct IH as [H1 H2]. split; [lia|done]. }
  destruct IH as [H1 H2]. split.
  { intros jp Hj He. destruct (decide (jp = ip)) as [->|]; [|by apply (H1 jp); [lia|]].
    unfold is_entry in He. fold x in He. lia. }
  destruct e' as [jp|].
  - destruct e as [k|]; [destruct H2 as [?|[? _]]; [by left|done]|]. right. split; [done|].
    destruct (Z.eqb_spec (i_ref x) 0) as [E|E].
    + destruct H2 as [[= <-]|[? _]]; [split; [lia|done]|done].
    + destruct H2 as [?|(_ & ? & ?)]; [done|]. split; [lia|done].
  - destruct H2 as [E2 H2]. destruct e as [k|]; [done|]. split; [done|]. intros jp Hj.
    destruct (Z.eqb_spec (i_ref x) 0) as [E|E]; [done|]. destruct (decide (jp = ip)) as [->|]; [done|]. apply H2. lia.
Qed.

Lemma refs_none t dev inum : itab_ok t → (∀ jp, entry jp → ¬ is_entry t dev inum jp) → refs t dev inum = 0.
Proof.
  intros [T1 _] Hn. unfold refs. assert (∀ l, (∀ jp, jp ∈ l → entry jp) → sum ((λ ip, counts (inode_at t ip) dev inum) <$> l) = 0) as Hs.
  { induction l as [|j l IH]; intros Hl; [done|]. rewrite fmap_cons, sum_cons, IH by (intros; apply Hl; by right).
    assert (entry j) as Hj by (apply Hl; by left). pose proof (T1 j Hj). pose proof (Hn j Hj) as He. unfold is_entry in He.
    unfold counts. destruct (_ && _) eqn:E; [|lia]. destruct (decide (i_ref (inode_at t j) = 0)); [lia|]. exfalso. apply He. lia. }
  apply Hs. intros jp Hj%elem_of_seqZ. unfold entry. lia.
Qed.

(** ** The operations *)

Section Table.
Context {B : Type} `{!BlockOps B} `{!BlockLaws B}.
Abbreviation fs := (fsys B).
Abbreviation flb s := (lb (f_b s)).
Abbreviation ino s ip := (inode_at (f_itab s) ip).

(** The entry [ip] became [x], and nothing else changed. *)
Definition new_entry_at (ip : Z) (x : inode) (s s' : fs) : Prop :=
  same_blocks s s' ∧ f_itab s' = <[ip := x]> (f_itab s).

(** The count of the inode [dev], [inum] changed by [n]. *)
Record recounted (dev inum n : Z) (s s' : fs) : Prop := {
  rc_refs : refs (f_itab s') dev inum = refs (f_itab s) dev inum + n;
  rc_other : ∀ d i, (d, i) ≠ (dev, inum) → refs (f_itab s') d i = refs (f_itab s) d i;
  rc_ok : itab_ok (f_itab s')
}.

Lemma counts_ref x r dev inum : counts (set_ref r x) dev inum = if (i_dev x =? dev) && (i_inum x =? inum) then r else 0.
Proof. done. Qed.

Lemma recount_entry ip r s s' :
  entry ip → itab_ok (f_itab s) → new_entry_at ip (set_ref r (ino s ip)) s s' → 0 <= r → 0 < i_ref (ino s ip) →
  recounted (i_dev (ino s ip)) (i_inum (ino s ip)) (r - i_ref (ino s ip)) s s'.
Proof.
  intros Hip [T1 T2] (_ & E) Hr Hx. set (x := ino s ip) in *. split.
  - rewrite E, refs_insert, counts_ref by done. fold x. unfold counts. rewrite !Z.eqb_refl. simpl. lia.
  - intros d i Hne. rewrite E, refs_insert, counts_ref by done. fold x. unfold counts.
    destruct ((i_dev x =? d) && (i_inum x =? i)) eqn:Eb; [|lia]. exfalso. apply Hne. f_equal; lia.
  - rewrite E. split.
    + intros jp Hj. rewrite inode_at_insert. case_decide; [done|]. by apply T1.
    + intros jp kp Hj Hk. rewrite !inode_at_insert. repeat case_decide; subst; try done; cbn [i_ref i_dev i_inum set_ref]; fold x.
      * intros _. by apply (T2 ip kp).
      * intros Hp _. by apply (T2 jp ip).
      * by apply (T2 jp kp).
Qed.

(** An entry is changed, under the lock of the table. *)
Lemma table_release ip x s H W r (Q : unit → fs → Prop) :
  lockable LK_ITABLE (view (f_b s)) → ready (f_b s) H [] W r →
  (∀ s', ready (f_b s') H [] W r → new_entry_at ip x s s' → Q tt s') →
  wp (zoom (release LK_ITABLE)) Q (mkFs (set (acquired LK_ITABLE (view (f_b s))) (f_b s)) (f_sb s) (<[ip := x]> (f_itab s)) (f_cwd s)).
Proof.
  intros Hl R HQ. apply (wp_release _ (view (f_b s))); [done|by simpl; rewrite view_set|].
  intros l Hlk. simpl. rewrite set_set. apply HQ.
  - by apply ready_set.
  - split; [|done]. split_and!; try done; [by apply kept_set|]. intros m. apply lb_set.
Qed.

Lemma table_op ip f s H W r (Q : Z → fs → Prop) v :
  lockable LK_ITABLE (view (f_b s)) → ready (f_b s) H [] W r →
  (∀ s', ready (f_b s') H [] W r → new_entry_at ip (f (ino s ip)) s s' → Q v s') →
  wp (seti ip f ;; zoom (release LK_ITABLE) ;; ret v) Q (set (acquired LK_ITABLE (view (f_b s))) s).
Proof.
  intros Hl R HQ. apply wp_bind, seti_spec. apply wp_bind, (table_release ip (f (ino s ip)) s H W r); [done..|].
  intros s' R' N. apply wp_ret. by apply HQ.
Qed.

(** A free entry is used for an inode that had none. *)
Lemma recount_new ip x dev inum s s' :
  entry ip → itab_ok (f_itab s) → i_ref (ino s ip) = 0 → (∀ jp, 0 <= jp < 0 + Z.of_nat NINODE → ¬ is_entry (f_itab s) dev inum jp) →
  i_dev x = dev → i_inum x = inum → i_ref x = 1 → f_itab s' = <[ip := x]> (f_itab s) → recounted dev inum 1 s s'.
Proof.
  intros Hip [T1 T2] Hr0 Hno Ed Ei Er E. split.
  - rewrite E, refs_insert by done. unfold counts. rewrite Ed, Ei, Er, !Z.eqb_refl, Hr0. simpl. case_match; lia.
  - intros d i Hne. rewrite E, refs_insert by done. unfold counts. rewrite Hr0, Ed, Ei.
    destruct ((dev =? d) && (inum =? i)) eqn:Eb; [exfalso; apply Hne; f_equal; lia|]. case_match; lia.
  - rewrite E. split.
    + intros jp Hj. rewrite inode_at_insert. case_decide; [lia|]. by apply T1.
    + intros jp kp Hj Hk. rewrite !inode_at_insert. unfold entry in *. repeat case_decide; subst; try done.
      * intros _ Hp Ed Ei. exfalso. apply (Hno kp); [lia|]. done.
      * intros Hp _ Ed Ei. exfalso. apply (Hno jp); [lia|]. done.
      * by apply (T2 jp kp).
Qed.

(** [iget]: the entry of the inode, which gains a reference. *)
Lemma iget_spec dev inum s H W r :
  lockable LK_ITABLE (view (f_b s)) → ready (f_b s) H [] W r → itab_ok (f_itab s) →
  refs (f_itab s) dev inum < 2 ^ 31 - 1 →
  (∃ jp, entry jp ∧ (is_entry (f_itab s) dev inum jp ∨ i_ref (ino s jp) = 0)) →
  wp (iget dev inum) (λ ip s', entry ip ∧ is_entry (f_itab s') dev inum ip ∧ ready (f_b s') H [] W r ∧ same_blocks s s' ∧
    recounted dev inum 1 s s' ∧ (∀ jp, jp ≠ ip → ino s' jp = ino s jp) ∧
    (is_entry (f_itab s) dev inum ip ∧ ino s' ip = set_ref (i_ref (ino s ip) + 1) (ino s ip) ∨
     refs (f_itab s) dev inum = 0 ∧ i_ref (ino s' ip) = 1 ∧ i_valid (ino s' ip) = 0)) s.
Proof.
  intros Hl R T Href Hex. unfold iget. apply wp_bind, wp_acquire; [done|]. apply wp_bind, wp_gets.
  change (f_itab (set (acquired LK_ITABLE (view s)) s)) with (f_itab s).
  change (set (acquired LK_ITABLE (view s)) s) with (set (acquired LK_ITABLE (view (f_b s))) s).
  pose proof (iget_loop_spec NINODE 0 (f_itab s) dev inum None) as Hs. destruct (iget_loop _ _ _ _ _ _) as [ip|[ip|]].
  - destruct Hs as [Hip (He1 & He2 & He3)]. assert (entry ip) as Hen by (unfold entry; lia).
    pose proof (refs_counts (f_itab s) dev inum ip T Hen) as Hc. unfold counts in Hc. rewrite He2, He3, !Z.eqb_refl in Hc. simpl in Hc.
    apply wp_bind, wp_as_int; [lia|]. apply (table_op ip (set_ref (i_ref (ino s ip) + 1)) s H W r _ ip Hl R). intros s' R' N.
    pose proof (recount_entry ip _ s s' Hen T N ltac:(lia) He1) as Rc. rewrite He2, He3 in Rc.
    replace (i_ref (ino s ip) + 1 - i_ref (ino s ip)) with 1 in Rc by lia. destruct N as (S' & E).
    assert (ino s' ip = set_ref (i_ref (ino s ip) + 1) (ino s ip)) as Ex by (rewrite E, inode_at_insert; by case_decide).
    split_and!; try done; [by unfold is_entry; rewrite Ex; simpl; lia| |by left].
    intros jp Hj. rewrite E, inode_at_insert. by case_decide.
  - destruct Hs as [Hno Hs]. destruct Hs as [[=]|(_ & Hip & Hr0)]. assert (entry ip) as Hen by (unfold entry; lia).
    apply (table_op ip _ s H W r _ ip Hl R). intros s' R' (S' & E). cbv beta in E. set (x := mkInode _ _ _ _ _ _ _ _ _ _ _) in E.
    assert (ino s' ip = x) as Ex by (rewrite E, inode_at_insert; by case_decide).
    split_and!; try done; [by unfold is_entry; rewrite Ex| | |].
    + by apply (recount_new ip x dev inum).
    + intros jp Hj. rewrite E, inode_at_insert. by case_decide.
    + right. rewrite Ex. split_and!; try done. apply refs_none; [done|]. intros jp Hj. apply Hno. unfold entry in Hj. lia.
  - exfalso. destruct Hs as (Hno & _ & Hr). destruct Hex as (jp & Hj & [He|He]); unfold entry in Hj.
    + apply (Hno jp); [lia|done].
    + apply (Hr jp); [lia|done].
Qed.

Lemma idup_spec ip s H W r :
  lockable LK_ITABLE (view (f_b s)) → ready (f_b s) H [] W r → itab_ok (f_itab s) → entry ip → 0 < i_ref (ino s ip) < 2 ^ 31 - 1 →
  wp (idup ip) (λ jp s', jp = ip ∧ ready (f_b s') H [] W r ∧ new_entry_at ip (set_ref (i_ref (ino s ip) + 1) (ino s ip)) s s' ∧
    recounted (i_dev (ino s ip)) (i_inum (ino s ip)) 1 s s') s.
Proof.
  intros Hl R T Hen Hr. unfold idup. apply wp_bind, wp_acquire; [done|]. apply wp_bind, wp_gets.
  change (set (acquired LK_ITABLE (view s)) s) with (set (acquired LK_ITABLE (view (f_b s))) s).
  apply wp_bind, wp_as_int; [simpl; lia|]. apply (table_op ip (set_ref (i_ref (ino s ip) + 1)) s H W r _ ip Hl R). intros s' R' N.
  split_and!; try done. pose proof (recount_entry ip _ s s' Hen T N ltac:(lia) ltac:(lia)) as Rc.
  by replace (i_ref (ino s ip) + 1 - i_ref (ino s ip)) with 1 in Rc by lia.
Qed.

(** [iput] of a reference that is not the last one of an unlinked inode. *)
Lemma iput_spec ip s H W r :
  lockable LK_ITABLE (view (f_b s)) → ready (f_b s) H [] W r → itab_ok (f_itab s) → entry ip → 0 < i_ref (ino s ip) < 2 ^ 31 →
  ¬ (i_ref (ino s ip) = 1 ∧ i_valid (ino s ip) ≠ 0 ∧ i_nlink (ino s ip) = 0) →
  wp (iput ip) (λ _ s', ready (f_b s') H [] W r ∧ new_entry_at ip (set_ref (i_ref (ino s ip) - 1) (ino s ip)) s s' ∧
    recounted (i_dev (ino s ip)) (i_inum (ino s ip)) (-1) s s') s.
Proof.
  intros Hl R T Hen Hr Hnl. unfold iput. apply wp_bind, wp_acquire; [done|]. apply wp_bind, wp_gets.
  change (set (acquired LK_ITABLE (view s)) s) with (set (acquired LK_ITABLE (view (f_b s))) s). simpl id. cbn [f_itab set fsys_lk].
  replace (_ && _) with false by (unfold truthy; lia). apply wp_bind, wp_ret. apply wp_bind, wp_gets. cbn [f_itab set fsys_lk].
  apply wp_bind, wp_as_int; [lia|].
  apply wp_bind, seti_spec. apply (table_release ip (set_ref (i_ref (ino s ip) - 1) (ino s ip)) s H W r _ Hl R). intros s' R' N.
  split_and!; try done. pose proof (recount_entry ip _ s s' Hen T N ltac:(lia) ltac:(lia)) as Rc.
  by replace (i_ref (ino s ip) - 1 - i_ref (ino s ip)) with (-1) in Rc by lia.
Qed.
End Table.
