(* ===== verification/FsData.v ===== *)
(** * Reading and writing files (kernel/fs.c: readi, writei, iupdate)

    [readi] delivers the bytes of the file from [off], up to its size, and
    changes nothing.  [writei] replaces the bytes of the range and extends the
    file: no other byte of it, and no block of another file, changes.  Where
    the bytes go to and come from is a parameter ([sink], [source]): user
    memory, or a buffer of the kernel. *)

From Stdlib Require Import ZifyBool.
From S2P Require Import Prelude Random Spinlock Block Fs FsSpec FsFile FsInode.

#[local] Ltac Zify.zify_post_hook ::= Z.to_euclidean_division_equations.

Section Contents.
Context {B : Type} `{!BlockOps B} `{!BlockLaws B}.
Abbreviation fs := (fsys B).
Abbreviation flb s := (lb (f_b s)).
Abbreviation ino s ip := (inode_at (f_itab s) ip).

(** The bytes of the file from [off]. *)
Definition fbytes (f : Z → block) (x : inode) (off n : Z) : list Z := fbyte f x <$> seqZ off n.

Lemma length_fbytes f x off n : length (fbytes f x off n) = Z.to_nat n.
Proof. unfold fbytes. by rewrite length_fmap, length_seqZ. Qed.

Lemma fbytes_app f x off n m : 0 <= n → 0 <= m → fbytes f x off (n + m) = fbytes f x off n ++ fbytes f x (off + n) m.
Proof. intros. unfold fbytes. by rewrite seqZ_app, fmap_app. Qed.

Lemma fbyte_ext f f' x i : (∀ m, f' m = f m) → fbyte f' x i = fbyte f x i.
Proof. intros E. unfold fbyte. rewrite (addr_of_lb f f') by done. by rewrite E. Qed.

Lemma fbytes_ext f f' x off n : (∀ m, f' m = f m) → fbytes f' x off n = fbytes f x off n.
Proof. intros E. apply list_fmap_ext. intros _ i _. by apply fbyte_ext. Qed.

(** The part of one block. *)
Lemma block_bytes f x off m a :
  addr_of f x (off / BSIZE) = a → a ≠ 0 → length (f a) = 1024%nat → 0 <= off → 0 <= m <= BSIZE - off mod BSIZE →
  sub (f a) (off mod BSIZE) m = fbytes f x off m.
Proof.
  intros Ea Ha Hl Ho Hm. unfold BSIZE in *. apply list_eq. intros i. rewrite lookup_sub by lia. unfold fbytes.
  rewrite list_lookup_fmap. case_decide as Hi.
  - rewrite lookup_seqZ_lt by lia. simpl. unfold fbyte, BSIZE.
    replace ((off + Z.of_nat i) / 1024) with (off / 1024) by lia. rewrite Ea, (proj2 (Z.eqb_neq _ _)) by done.
    rewrite nth_lookup. replace (Z.to_nat ((off + Z.of_nat i) mod 1024)) with (Z.to_nat (off mod 1024) + i)%nat by lia.
    destruct (f a !! _) eqn:E; [done|]. apply lookup_ge_None in E. lia.
  - by rewrite lookup_seqZ_ge by lia.
Qed.

(** A block that is there is found, without a transaction. *)
Lemma bmap_found ip bn s W r :
  file_ok s (ino s ip) → 0 <= bn < MAXFILE → addr_of (flb s) (ino s ip) bn ≠ 0 → ready (f_b s) [] [] W r →
  wp (bmap ip bn) (λ a s', a = addr_of (flb s) (ino s ip) bn ∧ same_lb s s' ∧ ready (f_b s') [] [] W r) s.
Proof.
  intros F Hb Ha R. unfold bmap. apply wp_bind, wp_gets. rewrite (fo_dev F). unfold addr_of in Ha.
  destruct (Z.ltb_spec bn NDIRECT) as [Hd|Hd].
  - apply wp_bind, wp_gets. rewrite (proj2 (Z.eqb_neq _ 0)) by done. apply wp_ret.
    unfold addr_of. rewrite (proj2 (Z.ltb_lt bn NDIRECT)) by lia. done.
  - cbv zeta. rewrite (proj2 (Z.ltb_lt _ NINDIRECT)) by (unfold MAXFILE in *; lia). apply wp_bind, wp_gets.
    fold (indirect (ino s ip)). destruct (Z.eqb_spec (indirect (ino s ip)) 0) as [|Hi]; [done|].
    apply wp_bind, wp_ret.
    eapply wp_step; [apply (f_bread _ s [] [] W r R); [apply not_elem_of_nil|by apply (fo_ind F)|simpl; lia]|].
    intros h s1 (R1 & S1). apply wp_bind. eapply f_bdata; [exact R1|by left|]. rewrite (proj2 S1).
    fold (ind_entry (flb s) (indirect (ino s ip)) (bn - NDIRECT)). rewrite (proj2 (Z.eqb_neq _ 0)) by done.
    apply wp_bind, wp_ret. eapply wp_step; [apply (f_brelse h _ s1 [] [] [] W r R1), not_elem_of_nil|].
    intros _ s2 (R2 & K2 & L2). apply wp_ret. rewrite addr_of_ind by done. split_and!; [done| |done].
    destruct S1 as (K1 & L1). split; [by eapply fkept_trans|]. intros m. by rewrite L2, L1.
Qed.

Lemma same_trans s1 s2 s3 : same_lb s1 s2 → same_lb s2 s3 → same_lb s1 s3.
Proof. intros (K1 & L1) (K2 & L2). split; [by eapply fkept_trans|]. intros m. by rewrite L2. Qed.

Lemma same_ino s s' ip : same_lb s s' → ino s' ip = ino s ip.
Proof. by intros ((_ & _ & -> & _) & _). Qed.

Lemma same_refl s : same_lb s s.
Proof. done. Qed.

(** Every block below the size is there. *)
Definition solid (f : Z → block) (x : inode) : Prop := ∀ i, 0 <= i < i_size x → addr_of f x (i / BSIZE) ≠ 0.
End Contents.

(** ** [readi] *)

Section Read.
Context {B : Type} `{!BlockOps B} `{!BlockLaws B} {S : Type} `{!Lens S (fsys B)}.
Abbreviation fs := (fsys B).
Abbreviation flb s := (lb (f_b s)).
Abbreviation ino s ip := (inode_at (f_itab s) ip).

(** [Out dst acc s]: [acc] was delivered, and the next byte goes to [dst].
    [Fail]: what a failing copy means. *)
Record sink (put : Z → list Z → M S Z) (Out : Z → list Z → S → Prop) (Fail : Prop) : Prop := {
  sk_set : ∀ dst acc s f, Out dst acc s → Out dst acc (set f s);
  sk_put : ∀ dst acc bs s H W r, Out dst acc s → ready (f_b (view s)) H [] W r →
    wp (put dst bs) (λ v s', (v = 0 ∧ Out (dst + Z.of_nat (length bs)) (acc ++ bs) s' ∨ v = -1 ∧ Fail) ∧
      same_lb (view s) (view s') ∧ ready (f_b (view s')) H [] W r) s
}.

Variables (put : Z → list Z → M S Z) (Out : Z → list Z → S → Prop) (Fail : Prop).
Hypothesis K : sink put Out Fail.

(** Enough fuel for [rem] bytes from [off]: a step finishes or reaches a block
    boundary. *)
Definition enough (fuel : nat) (off rem : Z) : Prop :=
  (rem <= 0 ∧ (1 <= fuel)%nat) ∨ off mod BSIZE + rem <= BSIZE * (Z.of_nat fuel - 1).

Lemma enough_start off n : 0 <= off → 0 <= n → enough (blocks_fuel n) off n.
Proof. intros. right. unfold blocks_fuel, BSIZE. lia. Qed.

Lemma enough_step fuel off rem :
  0 <= off → 0 < rem → enough (Datatypes.S fuel) off rem →
  let m := Z.min rem (BSIZE - off mod BSIZE) in 0 < m ∧ enough fuel (off + m) (rem - m).
Proof. intros Ho Hr [[? ?]|E] m; [lia|]. unfold enough, BSIZE in *. split; [lia|]. destruct (decide (m = rem)); [left|right]; lia. Qed.

Definition read_ok (ip : Z) (s : S) (W : list Z) (r : nat) (n : Z) (dst : Z) (bs : list Z) (v : Z) (s' : S) : Prop :=
  same_lb (view s) (view s') ∧ ready (f_b (view s')) [] [] W r ∧ (v = n ∧ Out dst bs s' ∨ v = -1 ∧ Fail).

Lemma readi_loop_spec fuel ip dst off n tot acc s W r :
  file_ok (view s) (ino (view s) ip) → solid (flb (view s)) (ino (view s) ip) → ready (f_b (view s)) [] [] W r →
  Out dst acc s → 0 <= off → 0 <= tot <= n → off + (n - tot) <= i_size (ino (view s) ip) → enough fuel off (n - tot) →
  wp (readi_loop fuel put ip dst off n tot)
    (read_ok ip s W r n (dst + (n - tot)) (acc ++ fbytes (flb (view s)) (ino (view s) ip) off (n - tot))) s.
Proof.
  revert dst off tot acc s. induction fuel as [|fuel IH]; intros dst off tot acc s F Sd R HO Hoff Htot Hsz En.
  { exfalso. unfold enough, BSIZE in En. lia. }
  cbn [readi_loop]. destruct (Z.ltb_spec tot n) as [Hlt|Hge].
  2: { assert (n - tot = 0) as -> by lia. apply wp_ret. split_and!; [done|done|]. left.
       unfold fbytes. rewrite Z.add_0_r. simpl. rewrite app_nil_r. split; [lia|done]. }
  destruct (enough_step fuel off (n - tot)) as (Hm & En'); [done|lia|done|].
  set (m := Z.min (n - tot) (BSIZE - off mod BSIZE)) in *. set (bn := off / BSIZE).
  pose proof (fo_size F) as Hmax. assert (0 <= bn < MAXFILE) as Hbn.
  { unfold bn, MAXFILE, NDIRECT, NINDIRECT, BSIZE in *. lia. }
  assert (addr_of (flb (view s)) (ino (view s) ip) bn ≠ 0) as Ha by (apply Sd; lia).
  apply wp_bind, wp_zoom, wp_gets. rewrite (fo_dev F), set_view. apply wp_bind, wp_zoom.
  eapply wp_mono; [by apply (bmap_found ip bn (view s) W r)|]. intros a t1 (-> & S1 & R1). set (a := addr_of _ _ bn) in *.
  apply wp_bind, wp_zoom. rewrite view_set. pose proof (fo_owned F bn Hbn Ha) as Hown. fold a in Hown.
  eapply wp_mono; [apply (f_bread a t1 [] [] W r R1); [apply not_elem_of_nil| |simpl; lia]|].
  { by apply (same_owned (view s) t1). }
  intros h t2 (R2 & S2). change (same_lb t1 t2) in S2. pose proof (same_trans _ _ _ S1 S2) as S02.
  apply wp_bind, wp_zoom. rewrite set_set, view_set. eapply f_bdata; [exact R2|by left|]. rewrite (proj2 S02), set_set.
  pose proof (lb_len _ _ _ _ _ a R) as Hlen.
  assert (sub (flb (view s) a) (off mod BSIZE) m = fbytes (flb (view s)) (ino (view s) ip) off m) as Esub.
  { apply block_bytes; try done. subst m. lia. }
  eapply wp_step; [apply (sk_put _ _ _ K dst acc _ (set t2 s) [(h, a)] W r); [by apply (sk_set _ _ _ K)|by rewrite view_set]|].
  rewrite view_set, Esub, length_fbytes, Z2Nat.id by lia. intros v s3 (HO3 & S3 & R3).
  apply wp_bind, wp_zoom. eapply wp_mono; [apply (f_brelse h a (view s3) [] [] [] W r R3), not_elem_of_nil|].
  intros _ t4 (R4 & S4). change (same_lb (view s3) t4) in S4.
  pose proof (same_trans _ _ _ (same_trans _ _ _ S02 S3) S4) as S04.
  destruct HO3 as [[-> HO3]|[-> Hf]].
  2: { apply wp_ret. unfold read_ok. rewrite view_set. split_and!; [done|done|by right]. }
  simpl Z.eqb. cbv iota. eapply wp_mono; [apply (IH (dst + m) (off + m) (tot + m) (acc ++ fbytes (flb (view s)) (ino (view s) ip) off m) (set t4 s3)); rewrite ?view_set|].
  - rewrite (same_ino (view s) t4) by done. by apply (same_file_ok (view s)).
  - rewrite (same_ino (view s) t4) by done. intros i Hi. rewrite (addr_of_lb (flb (view s))) by apply S04. by apply Sd.
  - done.
  - apply (sk_set _ _ _ K), HO3.
  - lia.
  - lia.
  - rewrite (same_ino (view s) t4) by done. lia.
  - by replace (n - (tot + m)) with (n - tot - m) by lia.
  - intros v s5 (S5 & R5 & Hv). rewrite view_set in *. split_and!; [by eapply same_trans|done|].
    destruct Hv as [[-> Hv]|Hv]; [left|by right]. split; [done|].
    rewrite (same_ino (view s) t4), (fbytes_ext (flb (view s)) (flb t4)) in Hv by (done || apply S04). rewrite <- app_assoc, <- fbytes_app in Hv by lia.
    replace (m + (n - (tot + m))) with (n - tot) in Hv by lia. by replace (dst + m + (n - (tot + m))) with (dst + (n - tot)) in Hv by lia.
Qed.

(** The count: what there is from [off] to the end of the file, at most [n]. *)
Definition read_count (x : inode) (off n : Z) : Z := if i_size x <? off then 0 else Z.min n (i_size x - off).

Lemma readi_spec ip dst off n acc s W r :
  file_ok (view s) (ino (view s) ip) → solid (flb (view s)) (ino (view s) ip) → ready (f_b (view s)) [] [] W r →
  Out dst acc s → 0 <= off → 0 <= n → off + n < 2 ^ 32 →
  let c := read_count (ino (view s) ip) off n in
  wp (readi put ip dst off n) (read_ok ip s W r c (dst + c) (acc ++ fbytes (flb (view s)) (ino (view s) ip) off c)) s.
Proof.
  intros F Sd R HO Ho Hn H32 c. unfold readi. apply wp_bind, wp_zoom, wp_gets. rewrite set_view.
  pose proof (fo_size F) as Hmax. rewrite (wrap_small 32 (off + n)) by lia.
  rewrite (proj2 (Z.ltb_ge (off + n) off)), orb_false_r by lia. unfold c, read_count.
  destruct (Z.ltb_spec (i_size (ino (view s) ip)) off) as [Hs|Hs].
  - apply wp_ret. split_and!; [done|done|]. left. unfold fbytes. simpl. rewrite Z.add_0_r, app_nil_r. done.
  - replace (if i_size (ino (view s) ip) <? off + n then _ else n) with (Z.min n (i_size (ino (view s) ip) - off)).
    + eapply wp_mono; [apply (readi_loop_spec _ ip dst off _ 0 acc s W r); try done; try lia|].
      * rewrite Z.sub_0_r. apply enough_start; lia.
      * rewrite Z.sub_0_r. done.
    + destruct (Z.ltb_spec (i_size (ino (view s) ip)) (off + n)); [|lia]. rewrite wrap_small; [lia|].
      unfold MAXFILE, NDIRECT, NINDIRECT, BSIZE in *. lia.
Qed.
End Read.

(** ** [writei] *)

Section Written.
Context {B : Type} `{!BlockOps B} `{!BlockLaws B}.
Abbreviation fs := (fsys B).
Abbreviation flb s := (lb (f_b s)).
Abbreviation ino s ip := (inode_at (f_itab s) ip).

(** A block of another file. *)
Definition outside (s : fs) (x : inode) (m : Z) : Prop :=
  owned s m ∧ m ≠ indirect x ∧ ∀ bn, 0 <= bn < MAXFILE → addr_of (flb s) x bn ≠ m.

(** The bytes [bs] are at [off] of the file [ip], and nothing else changed but
    the free map. *)
Record wrote (ip off : Z) (bs : list Z) (s s' : fs) : Prop := {
  wr_bytes : ∀ i, 0 <= i < MAXFILE * BSIZE →
    fbyte (flb s') (ino s' ip) i =
      if decide (off <= i < off + Z.of_nat (length bs)) then nth (Z.to_nat (i - off)) bs 0 else fbyte (flb s) (ino s ip) i;
  wr_file : file_ok s' (ino s' ip);
  wr_lay : layout s';
  wr_only : only_addrs ip s s';
  wr_kept : ∀ bn, 0 <= bn < MAXFILE → addr_of (flb s) (ino s ip) bn ≠ 0 →
    addr_of (flb s') (ino s' ip) bn = addr_of (flb s) (ino s ip) bn;
  wr_there : ∀ i, 0 <= i < MAXFILE * BSIZE → off <= i < off + Z.of_nat (length bs) → addr_of (flb s') (ino s' ip) (i / BSIZE) ≠ 0;
  wr_outside : ∀ m, outside s (ino s ip) m → outside s' (ino s' ip) m ∧ flb s' m = flb s m;
  wr_iblk : ∀ m, is_iblock (f_sb s) m → flb s' m = flb s m
}.

Lemma block_range i : 0 <= i < MAXFILE * BSIZE → 0 <= i / BSIZE < MAXFILE.
Proof. unfold MAXFILE, NDIRECT, NINDIRECT, BSIZE. lia. Qed.

Lemma wrote_trans ip off bs1 bs2 s s1 s2 :
  wrote ip off bs1 s s1 → wrote ip (off + Z.of_nat (length bs1)) bs2 s1 s2 → wrote ip off (bs1 ++ bs2) s s2.
Proof.
  intros [A1 A2 A3 A4 A5 A6 A7 A8] [C1 C2 C3 C4 C5 C6 C7 C8]. pose proof A4 as (_ & Esb & _).
  split; try done.
  - intros i Hi. rewrite C1, A1, length_app by done. case_decide as D1.
    + rewrite decide_True by lia. rewrite app_nth2 by lia. f_equal. lia.
    + case_decide as D2; [|by rewrite decide_False by lia]. rewrite decide_True by lia. by rewrite app_nth1 by lia.
  - by eapply only_addrs_trans.
  - intros bn Hb Hn. rewrite C5, A5 by (rewrite ?A5; done). done.
  - intros i Hi Hr. rewrite length_app in Hr. destruct (decide (i < off + Z.of_nat (length bs1))).
    + pose proof (block_range i Hi). assert (addr_of (flb s1) (ino s1 ip) (i / BSIZE) ≠ 0) as E by (apply A6; lia). by rewrite C5.
    + apply C6; [done|lia].
  - intros m Hm. destruct (A7 m Hm) as (Hm1 & E1). destruct (C7 m Hm1) as (Hm2 & E2). split; [done|congruence].
  - intros m Hm. rewrite C8, A8 by (rewrite ?Esb; done). done.
Qed.

Lemma wrote_refl ip off s : layout s → file_ok s (ino s ip) → wrote ip off [] s s.
Proof.
  intros L F. split; try done.
  - intros i Hi. by rewrite decide_False by (simpl; lia).
  - apply only_addrs_kept, fkept_refl.
  - simpl. intros. lia.
Qed.

Lemma only_addrs_owned ip s s' m : only_addrs ip s s' → (used s m = true → used s' m = true) → owned s m → owned s' m.
Proof.
  intros ((_ & _ & D) & Esb & _) Hu (H1 & H2 & H3 & H4 & H5 & H6). unfold owned. rewrite Esb, D. auto 7.
Qed.

Lemma bmapped_wrote ip off bn W r s s' a :
  file_ok s (ino s ip) → bmapped ip bn W r s s' a → 0 <= bn < MAXFILE → wrote ip off [] s s'.
Proof.
  intros F [B1 _ B3 B4 _ B5 B6 B7 B8 B9 _] Hb. pose proof B5 as (X1 & X2 & X3 & X4). pose proof B6 as (U1 & U2 & U3).
  split; try done.
  - intros i Hi. rewrite decide_False by (simpl; lia). by eapply extends_fbyte.
  - intros b Hb' Hn. destruct (decide (b = bn)) as [->|Hne]; [by apply X3|by apply X2].
  - simpl. intros i Hi Hr. lia.
  - intros m (O1 & O2 & O3). split; [|by apply U1]. split_and!.
    + apply (only_addrs_owned ip s); [done|apply U3; apply O1|done].
    + intros ->. destruct B4 as [E|E]; [by rewrite E in O2|done].
    + intros b Hb'. destruct (decide (b = bn)) as [->|Hne]; [|by rewrite X2; [apply O3|..]].
      destruct (decide (addr_of (flb s) (ino s ip) bn = 0)) as [E|E]; [|by rewrite X3; [apply O3|]].
      rewrite B1. intros ->. by apply (B3 E).
Qed.

(** The block [a] of the file is changed. *)
Lemma fill_block ip off bs s s' a :
  layout s → file_ok s (ino s ip) → addr_of (flb s) (ino s ip) (off / BSIZE) = a → a ≠ 0 → 0 <= off < MAXFILE * BSIZE →
  length (flb s a) = 1024%nat → Z.of_nat (length bs) <= BSIZE - off mod BSIZE → fkept s s' →
  (∀ m, flb s' m = if m =? a then splice (flb s a) (off mod BSIZE) bs else flb s m) →
  wrote ip off bs s s'.
Proof.
  intros L F Ea Ha Hoff Hl Hm K E. pose proof (block_range off Hoff) as Hb. pose proof (fo_owned F _ Hb) as Ho. rewrite Ea in Ho.
  specialize (Ho Ha). pose proof K as (_ & Esb & Eit & _). set (new := splice _ _ _) in E.
  assert (ino s' ip = ino s ip) as Ex by (by rewrite Eit).
  assert (indirect (ino s ip) ≠ 0 → indirect (ino s ip) ≠ a) as Hia.
  { intros Hi <-. by apply (fo_sep F (off / BSIZE) Hb Hi). }
  assert (∀ bn, addr_of (flb s') (ino s' ip) bn = addr_of (flb s) (ino s ip) bn) as Eo.
  { intros bn. rewrite Ex. apply addr_of_ext. intros Hi. by rewrite E, (proj2 (Z.eqb_neq _ _)) by auto. }
  assert (fits_in (flb s a) (off mod BSIZE) bs) as Hfit by (unfold fits_in, BSIZE in *; lia).
  split.
  - intros i Hi. unfold fbyte. rewrite Eo. pose proof (block_range i Hi) as Hbi.
    destruct (decide (addr_of (flb s) (ino s ip) (i / BSIZE) = a)) as [E1|E1].
    + assert (i / BSIZE = off / BSIZE) as E2. { apply (fo_inj F); [done|done|congruence|congruence]. }
      rewrite E1, (proj2 (Z.eqb_neq a 0)), E, Z.eqb_refl by done. unfold new. rewrite !nth_lookup, lookup_splice by done.
      destruct (decide (off <= i < off + Z.of_nat (length bs))).
      * rewrite decide_True by (unfold BSIZE in *; lia). do 2 f_equal. unfold BSIZE in *. lia.
      * rewrite decide_False by (unfold BSIZE in *; lia). done.
    + rewrite decide_False. 2: { intros Hr. apply E1. rewrite <- Ea. f_equal. unfold BSIZE in *. lia. }
      case_match; [done|]. by rewrite E, (proj2 (Z.eqb_neq _ a)).
  - rewrite Ex. split; rewrite ?Esb; try apply F.
    + intros bn Hbn. rewrite <- Ex, Eo, ?Ex. intros Hn. by apply (owned_update s s' a new _ Ho K E), (fo_owned F).
    + intros Hi. by apply (owned_update s s' a new _ Ho K E), (fo_ind F).
    + intros bn bn'. rewrite <- Ex, !Eo. apply (fo_inj F).
    + intros bn. rewrite <- Ex, Eo, ?Ex. apply (fo_sep F).
  - by apply (layout_update s s' a new).
  - by apply only_addrs_kept.
  - intros bn _ _. apply Eo.
  - intros i Hi Hr. rewrite Eo. replace (i / BSIZE) with (off / BSIZE) by (unfold BSIZE in *; lia). by rewrite Ea.
  - intros m (O1 & O2 & O3). assert (m ≠ a) as Hma. { intros ->. by apply (O3 (off / BSIZE) Hb). }
    split; [|by rewrite E, (proj2 (Z.eqb_neq m a))]. split_and!.
    + by apply (owned_update s s' a new _ Ho K E).
    + by rewrite Ex.
    + intros bn Hbn. rewrite Eo. by apply O3.
  - intros m Hm'. rewrite E, (proj2 (Z.eqb_neq m a)); [done|]. intros ->. apply Ho, Hm'.
Qed.
End Written.

(** ** Changing a block of inodes *)

Section Iblock.
Context {B : Type} `{!BlockOps B} `{!BlockLaws B}.
Abbreviation fs := (fsys B).
Abbreviation flb s := (lb (f_b s)).
Abbreviation ino s ip := (inode_at (f_itab s) ip).

Variables (s s' : fs) (n : Z) (bs : block).
Hypotheses (L : layout s) (Hn : is_iblock (f_sb s) n) (K : fkept s s').
Hypothesis E : ∀ m, flb s' m = if m =? n then bs else flb s m.

Lemma iblk_other m : ¬ is_iblock (f_sb s) m → flb s' m = flb s m.
Proof. intros Hm. rewrite E, (proj2 (Z.eqb_neq m n)); [done|]. by intros ->. Qed.

Lemma iblk_used c : 0 <= c < sb_size (f_sb s) → used s' c = used s c.
Proof.
  intros Hc. unfold used. rewrite (proj1 (proj2 K)), iblk_other; [done|]. apply (lay_sep L). by exists c.
Qed.

Lemma iblk_owned m : owned s' m ↔ owned s m.
Proof.
  pose proof (iblk_used m) as Eu. unfold owned. rewrite (proj1 (proj2 K)), (fkept_data _ _ _ K).
  split; intros (H1 & H2 & H3 & H4); (split; [done|]; split; [done|]; split; [|done]); rewrite Eu in *; done.
Qed.

Lemma iblk_layout : layout s'.
Proof. apply (layout_kept s s' L K). intros c Hc. by rewrite iblk_used. Qed.

Lemma iblk_addr x bn : file_ok s x → addr_of (flb s') x bn = addr_of (flb s) x bn.
Proof. intros F. apply addr_of_ext. intros Hi. apply iblk_other. by apply (fo_ind F). Qed.

Lemma iblk_file x : file_ok s x → file_ok s' x.
Proof.
  intros F. pose proof (λ bn, iblk_addr x bn F) as Ea. split; rewrite ?(proj1 (proj2 K)); try apply F.
  - intros bn Hb. rewrite Ea. intros Ha. by apply iblk_owned, (fo_owned F).
  - intros Hi. by apply iblk_owned, (fo_ind F).
  - intros bn bn'. rewrite !Ea. apply (fo_inj F).
  - intros bn. rewrite Ea. apply (fo_sep F).
Qed.

Lemma iblk_byte x i : file_ok s x → 0 <= i < MAXFILE * BSIZE → fbyte (flb s') x i = fbyte (flb s) x i.
Proof.
  intros F Hi. unfold fbyte. rewrite iblk_addr by done. case_match eqn:E0; [done|]. rewrite iblk_other; [done|].
  apply (fo_owned F); [by apply block_range|lia].
Qed.

Lemma iblk_outside x m : file_ok s x → outside s x m → outside s' x m ∧ flb s' m = flb s m.
Proof.
  intros F (O1 & O2 & O3). split; [split_and!|].
  - by apply iblk_owned.
  - done.
  - intros bn Hb. rewrite iblk_addr by done. by apply O3.
  - apply iblk_other, O1.
Qed.
End Iblock.

Section Write.
Context {B : Type} `{!BlockOps B} `{!BlockLaws B} {S : Type} `{!Lens S (fsys B)}.
Abbreviation fs := (fsys B).
Abbreviation flb s := (lb (f_b s)).
Abbreviation ino s ip := (inode_at (f_itab s) ip).

(** [Src src bs s]: the bytes [bs] are to be read from [src] on. *)
Record source (tk : Z → Z → M S (Z * list Z)) (Src : Z → list Z → S → Prop) : Prop := {
  sr_set : ∀ src bs s f, Src src bs s → Src src bs (set f s);
  sr_take : ∀ src bs m s H W r, Src src bs s → 0 <= m <= Z.of_nat (length bs) → ready (f_b (view s)) H [] W r →
    wp (tk src m) (λ rb s', rb = (0, take (Z.to_nat m) bs) ∧ Src (src + m) (drop (Z.to_nat m) bs) s' ∧
      same_lb (view s) (view s') ∧ ready (f_b (view s')) H [] W r) s
}.

Variables (tk : Z → Z → M S (Z * list Z)) (Src : Z → list Z → S → Prop).
Hypothesis K : source tk Src.

(** The blocks of the range, and the indirect block. *)
Definition nblk (off rem : Z) : nat :=
  if rem <=? 0 then 0 else Z.to_nat ((off + rem - 1) / BSIZE - off / BSIZE + 1).
Definition ind_need (x : inode) (W : list Z) : nat :=
  if negb (indirect x =? 0) && bool_decide (indirect x ∈ W) then 0 else 1.

Lemma nblk_step off rem :
  0 <= off → 0 < rem → let m := Z.min rem (BSIZE - off mod BSIZE) in nblk off rem = Datatypes.S (nblk (off + m) (rem - m)).
Proof.
  intros Ho Hr m. unfold nblk. rewrite (proj2 (Z.leb_gt rem 0)) by lia. destruct (Z.leb_spec (rem - m) 0).
  - assert (m = rem) by lia. unfold BSIZE in *. lia.
  - assert (m = BSIZE - off mod BSIZE) as Em by lia. unfold BSIZE in *. lia.
Qed.

Lemma ind_need_cost x W bn : (ind_cost x W bn <= ind_need x W)%nat.
Proof. unfold ind_cost, ind_need. destruct (bn <? NDIRECT); simpl; [lia|]. done. Qed.

Lemma ind_need_after ip bn W r s s' a W' :
  bmapped ip bn W r s s' a → W ⊆ W' → (NDIRECT <= bn → indirect (ino s' ip) ≠ 0 ∧ indirect (ino s' ip) ∈ W') →
  (ind_need (ino s' ip) W' + ind_cost (ino s ip) W bn <= ind_need (ino s ip) W)%nat.
Proof.
  intros Bm HW Hi. destruct (decide (bn < NDIRECT)) as [Hd|Hd].
  - unfold ind_cost, ind_need. rewrite (proj2 (Z.ltb_lt bn NDIRECT)) by lia. rewrite (bm_dir _ _ _ _ _ _ _ Bm) by done. simpl.
    destruct (indirect (ino s ip) =? 0); simpl; [lia|]. repeat case_bool_decide; try lia. set_solver.
  - destruct Hi as (Hi0 & HiW); [lia|]. pose proof (ind_need_cost (ino s ip) W bn). unfold ind_need at 1.
    rewrite (proj2 (Z.eqb_neq _ 0)), bool_decide_true by done. simpl. lia.
Qed.

(** One block. *)
Lemma write_block ip src off bs m s W r tot :
  layout (view s) → file_ok (view s) (ino (view s) ip) → room (view s) 2 → (∀ n, is_bmap (f_sb (view s)) n → n ∈ W) →
  Src src bs s → 0 <= off < MAXFILE * BSIZE → 0 <= m <= Z.of_nat (length bs) → m <= BSIZE - off mod BSIZE →
  ready (f_b (view s)) [] [] W (ind_cost (ino (view s) ip) W (off / BSIZE) + Datatypes.S r) →
  ∀ (k : M S (Z * Z)) Q,
  (∀ s' W', wrote ip off (take (Z.to_nat m) bs) (view s) (view s') → ready (f_b (view s')) [] [] W' r → W ⊆ W' →
     (ind_need (ino (view s') ip) W' + ind_cost (ino (view s) ip) W (off / BSIZE) <= ind_need (ino (view s) ip) W)%nat →
     Src (src + m) (drop (Z.to_nat m) bs) s' → (∀ j, room (view s) (2 + j) → room (view s') j) → wp k Q s') →
  wp (let! dev := zoom (geti i_dev ip) in
      let! a := zoom (bmap ip (off / BSIZE)) in
      let! bp := zoom (zoom (T := B) (S := fsys B) (bread dev a)) in
      let! rb := tk src m in
      let! d := zoom (zoom (T := B) (S := fsys B) (bdata bp)) in
      zoom (zoom (T := B) (S := fsys B) (bset bp (splice d (off mod BSIZE) rb.2))) ;;
      if rb.1 =? -1 then zoom (zoom (T := B) (S := fsys B) (brelse bp)) ;; ret (off, tot)
      else zoom (zoom (T := B) (S := fsys B) (log_write bp)) ;; zoom (zoom (T := B) (S := fsys B) (brelse bp)) ;; k) Q s.
Proof.
  intros L F Hr HW HS Hoff Hm Hmb R k Q Hk. pose proof (block_range off Hoff) as Hb.
  apply wp_bind, wp_zoom, wp_gets. rewrite (fo_dev F), set_view. apply wp_bind, wp_zoom.
  eapply wp_mono; [by apply (bmap_spec ip (off / BSIZE) W r (view s))|]. intros a t1 Bm. cbv beta in Bm.
  destruct (bm_ready _ _ _ _ _ _ _ Bm) as (W' & R1 & HW' & Ha & Hi). pose proof (bm_addr _ _ _ _ _ _ _ Bm) as Ea.
  pose proof (bm_file _ _ _ _ _ _ _ Bm) as F1. pose proof (proj1 (bm_ext _ _ _ _ _ _ _ Bm)) as Ha0. rewrite Ea in Ha0.
  apply wp_bind, wp_zoom. rewrite view_set.
  assert (owned t1 a) as Ho. { rewrite <- Ea. apply (fo_owned F1); [done|by rewrite Ea]. }
  eapply wp_mono; [apply (f_bread a t1 [] [] W' r R1); [apply not_elem_of_nil|apply Ho|simpl; lia]|].
  intros h t2 (R2 & S2). change (same_lb t1 t2) in S2. rewrite set_set.
  eapply wp_step; [apply (sr_take _ _ K src bs m (set t2 s) [(h, a)] W' r); [by apply (sr_set _ _ K)|done|by rewrite view_set]|].
  intros rb s3 (-> & HS3 & S3 & R3). rewrite view_set in S3. pose proof (same_trans _ _ _ S2 S3) as S13.
  apply wp_bind, wp_zoom. eapply f_bdata; [exact R3|by left|]. rewrite set_view, (proj2 S13).
  pose proof (lb_len _ _ _ _ _ a R1) as Hl. set (bs1 := take (Z.to_nat m) bs).
  assert (Z.of_nat (length bs1) = m) as Hl1 by (unfold bs1; rewrite length_take; lia).
  apply wp_bind, wp_zoom. eapply wp_mono; [apply (f_bset h a _ (view s3) _ _ _ _ R3); [by left|done|]|].
  { rewrite length_splice; [done|]. unfold fits_in, BSIZE in *. simpl. lia. }
  intros _ t4 (R4 & K4 & L4). simpl Z.eqb. cbv iota. apply wp_bind, wp_zoom. rewrite view_set.
  eapply wp_mono; [apply (f_log_write h a t4 _ _ _ _ R4); [by left|done]|]. intros _ t5 (R5 & K5 & L5).
  apply wp_bind, wp_zoom. rewrite set_set, view_set.
  eapply wp_mono; [apply (f_brelse h a t5 [] [] [] W' r R5), not_elem_of_nil|]. intros _ t6 (R6 & K6 & L6). rewrite set_set.
  assert (fkept t1 t6) as K16. { destruct S13 as (K13 & _). by repeat (eapply fkept_trans; [eassumption|]). }
  assert (wrote ip off bs1 t1 t6) as Wr.
  { apply (fill_block ip off bs1 t1 t6 a); try done; [apply Bm|by rewrite Hl1|]. intros n. rewrite L6, L5, L4.
    destruct (n =? a); [done|apply S13]. }
  apply (Hk (set t6 s3) W'); rewrite ?view_set; try done.
  - apply (wrote_trans ip off [] bs1 _ t1); [by apply (bmapped_wrote ip off (off / BSIZE) W r (view s) t1 a)|]. simpl. by rewrite Z.add_0_r.
  - replace (ino t6 ip) with (ino t1 ip) by (by destruct K16 as (_ & _ & -> & _)). by eapply ind_need_after.
  - by apply (sr_set _ _ K).
  - intros j Hj. eapply (room_used t1); [apply K16| |by apply Bm]. intros c Hc.
    eapply used_owned_update; [exact Ho|apply K16| |done]. intros n. rewrite L6, L5, L4. destruct (n =? a); [done|apply S13].
Qed.

Definition writ (ip : Z) (s : S) (W : list Z) (r : nat) (src off : Z) (bs : list Z) (n : Z) (v : Z * Z) (s' : S) : Prop :=
  v = (off + Z.of_nat (length bs), n) ∧ wrote ip off bs (view s) (view s') ∧ Src (src + Z.of_nat (length bs)) [] s' ∧
  ∃ W' r', ready (f_b (view s')) [] [] W' r' ∧ W ⊆ W' ∧
    (r <= r' + nblk off (Z.of_nat (length bs)) + ind_need (ino (view s) ip) W)%nat.

Lemma writei_loop_spec fuel ip src off n tot bs s W r :
  layout (view s) → file_ok (view s) (ino (view s) ip) → (∀ n, is_bmap (f_sb (view s)) n → n ∈ W) →
  Src src bs s → Z.of_nat (length bs) = n - tot → 0 <= off → 0 <= tot <= n → off + (n - tot) <= MAXFILE * BSIZE →
  room (view s) (2 * nblk off (n - tot)) → ready (f_b (view s)) [] [] W r →
  (nblk off (n - tot) + ind_need (ino (view s) ip) W <= r)%nat → enough fuel off (n - tot) →
  wp (writei_loop fuel tk ip src off n tot) (writ ip s W r src off bs n) s.
Proof.
  revert src off tot bs s W r. induction fuel as [|fuel IH]; intros src off tot bs s W r L F HW HS Hlen Hoff Htot Hmax Hr R Hbud En.
  { exfalso. unfold enough, BSIZE in En. lia. }
  cbn [writei_loop]. destruct (Z.ltb_spec tot n) as [Hlt|Hge].
  2: { destruct bs as [|]; [|simpl in Hlen; lia]. apply wp_ret. unfold writ. simpl length. cbn [Z.of_nat]. rewrite !Z.add_0_r. split_and!; [f_equal; lia| |done|].
       - by apply wrote_refl.
       - exists W, r. split_and!; [done|done|lia]. }
  destruct (enough_step fuel off (n - tot)) as (Hm & En'); [done|lia|done|].
  rewrite nblk_step in Hr, Hbud by lia. cbv zeta in Hr, Hbud.
  set (m := Z.min (n - tot) (BSIZE - off mod BSIZE)) in *. 
  pose proof (ind_need_cost (ino (view s) ip) W (off / BSIZE)) as Hc.
  set (c := ind_cost (ino (view s) ip) W (off / BSIZE)) in *.
  assert (∃ r1, r = (c + Datatypes.S r1)%nat) as [r1 ->]. { exists (r - c - 1)%nat. lia. }
  eapply (write_block ip src off bs m s W r1 tot); try done; try lia.
  - eapply room_less; [done|lia].
  - intros s' W' Wr R' HW' Hn HS' Hroom.
    assert (length (take (Z.to_nat m) bs) = Z.to_nat m) as Hlt'. { rewrite length_take. lia. }
    pose proof (wr_only _ _ _ _ _ Wr) as (_ & Esb & _).
    eapply wp_mono; [apply (IH (src + m) (off + m) (tot + m) (drop (Z.to_nat m) bs) s' W' r1)|].
    + apply Wr.
    + apply Wr.
    + rewrite Esb. intros. by apply HW', HW.
    + done.
    + rewrite length_drop. lia.
    + lia.
    + lia.
    + lia.
    + apply Hroom. replace (n - (tot + m)) with (n - tot - m) by lia. eapply room_less; [done|lia].
    + done.
    + replace (n - (tot + m)) with (n - tot - m) by lia. fold c in Hn. lia.
    + by replace (n - (tot + m)) with (n - tot - m) by lia.
    + intros v s2 (-> & Wr2 & HS2 & W2 & r2 & R2 & HW2 & Hb2). rewrite length_drop in *.
      assert (bs = take (Z.to_nat m) bs ++ drop (Z.to_nat m) bs) as Ebs by (by rewrite take_drop).
      split_and!.
      * f_equal. lia.
      * rewrite Ebs. eapply wrote_trans; [done|]. rewrite Hlt', Z2Nat.id by lia. done.
      * replace (src + Z.of_nat (length bs)) with (src + m + Z.of_nat (length bs - Z.to_nat m)) by lia. done.
      * exists W2, r2. split_and!; [done|set_solver|]. rewrite Hlen, nblk_step by lia. fold m. fold c in Hn.
        replace (Z.of_nat (length bs - Z.to_nat m)) with (n - tot - m) in Hb2 by lia. lia.
Qed.

(** The bytes [bs] are at [off] of the file [ip], in memory and on the disk,
    and no other file changed. *)
Record written (ip off : Z) (bs : list Z) (s s' : fs) : Prop := {
  wn_bytes : ∀ i, 0 <= i < MAXFILE * BSIZE →
    fbyte (flb s') (ino s' ip) i =
      if decide (off <= i < off + Z.of_nat (length bs)) then nth (Z.to_nat (i - off)) bs 0 else fbyte (flb s) (ino s ip) i;
  wn_inode : ∃ l, ino s' ip = set_isize (Z.max (i_size (ino s ip)) (off + Z.of_nat (length bs))) (set_iaddrs l (ino s ip));
  wn_file : file_ok s' (ino s' ip);
  wn_lay : layout s';
  wn_solid : solid (flb s) (ino s ip) → solid (flb s') (ino s' ip);
  wn_outside : ∀ m, outside s (ino s ip) m → outside s' (ino s' ip) m ∧ flb s' m = flb s m;
  wn_disk : ∀ y, dinode_range (ino s' ip) → on_disk s' (i_inum (ino s ip)) y = meta (ino s' ip) y;
  wn_disk_other : ∀ j y, 0 <= j < sb_ninodes (f_sb s) → j ≠ i_inum (ino s ip) → sb_ninodes (f_sb s) <= 2 ^ 32 →
    on_disk s' j y = on_disk s j y;
  wn_env : kept (f_b s) (f_b s') ∧ f_sb s' = f_sb s ∧ f_cwd s' = f_cwd s ∧ ∀ jp, jp ≠ ip → ino s' jp = ino s jp
}.

Lemma file_ok_size s x z : file_ok s x → 0 <= z <= MAXFILE * BSIZE → file_ok s (set_isize z x).
Proof. intros [H1 H2 H3 H4 H5 H6 H7 H8] Hz. split; done. Qed.

(** The end of [writei]. *)
Lemma written_end ip off bs s s1 s2 s3 :
  file_ok s (ino s ip) → wrote ip off bs s s1 → 0 <= off <= i_size (ino s ip) → off + Z.of_nat (length bs) <= MAXFILE * BSIZE →
  f_b s2 = f_b s1 → f_sb s2 = f_sb s1 → f_cwd s2 = f_cwd s1 →
  (∀ jp, ino s2 jp = if decide (jp = ip) then set_isize (Z.max (i_size (ino s ip)) (off + Z.of_nat (length bs))) (ino s1 ip) else ino s1 jp) →
  (∀ m, length (flb s2 m) = 1024%nat) → updated ip s2 s3 → written ip off bs s s3.
Proof.
  intros F Wr Hoff Hmax Eb Es Ec Ei Hlen U. pose proof Wr as [W1 W2 W3 W4 W5 W6 W7 W8].
  pose proof W4 as (K4 & Esb & Ecw & Ej & l & El). pose proof (fo_size F) as Hsz.
  pose proof (Ei ip) as Ex. rewrite decide_True in Ex by done. set (z := Z.max _ _) in *.
  assert (file_ok s2 (ino s2 ip)) as F2.
  { rewrite Ex. apply (file_ok_tables s1); [done|done|]. apply file_ok_size; [done|lia]. }
  pose proof (layout_tables _ _ Eb Es W3) as L2. pose proof (up_kept _ _ _ U) as K3. pose proof K3 as (Kb & Esb3 & Eit3 & Ecw3).
  assert (i_inum (ino s2 ip) = i_inum (ino s ip)) as Einum by (by rewrite Ex, El).
  assert (ino s3 ip = ino s2 ip) as E3 by (by rewrite Eit3).
  set (n := IBLOCK (i_inum (ino s2 ip)) (f_sb s2)). set (bs3 := encode_dinode (ino s2 ip) (flb s2 n) (DOFF (i_inum (ino s2 ip)))).
  assert (is_iblock (f_sb s2) n) as Hn. { exists (i_inum (ino s2 ip)). split; [apply F2|done]. }
  assert (∀ m, flb s3 m = if m =? n then bs3 else flb s2 m) as E.
  { intros m. rewrite (up_blk _ _ _ U). fold n. destruct (Z.eqb_spec m n) as [->|]; done. }
  assert (∀ x i, fbyte (flb s2) (set_isize z x) i = fbyte (flb s1) x i) as Efb by (intros; by rewrite Eb).
  split; rewrite ?E3.
  - intros i Hi. rewrite (iblk_byte s2 s3 n bs3 Hn E _ i F2 Hi), Ex, Efb. by apply W1.
  - exists l. by rewrite Ex, El.
  - by apply (iblk_file s2 s3 n bs3).
  - by apply (iblk_layout s2 s3 n bs3).
  - intros Sd i Hi. rewrite (iblk_addr s2 s3 n bs3 Hn E _ _ F2). rewrite Ex in Hi |- *. cbn [i_size set_isize] in Hi.
    change (addr_of (flb s2) (set_isize z (ino s1 ip)) (i / BSIZE)) with (addr_of (flb s2) (ino s1 ip) (i / BSIZE)). rewrite Eb.
    destruct (decide (i < i_size (ino s ip))) as [Hlt|]; [|apply W6; lia].
    rewrite W5; [apply Sd; lia|apply block_range; lia|apply Sd; lia].
  - intros m Hm. destruct (W7 m Hm) as (O1 & O2). assert (outside s2 (ino s2 ip) m) as O3.
    { rewrite Ex. destruct O1 as (A1 & A2 & A3). split_and!; [|done|by rewrite Eb]. unfold owned, used in *. by rewrite Eb, Es. }
    destruct (iblk_outside s2 s3 n bs3 L2 Hn K3 E _ m F2 O3) as (O4 & O5). split; [done|]. by rewrite O5, Eb.
  - intros y Hr. rewrite <- Einum. by apply (updated_on_disk ip s2 s3).
  - intros j y Hj Hne Hni. rewrite (updated_other ip s2 s3 j y U); rewrite ?Einum, ?Es, ?Esb; try done; try apply F2; try apply F.
    unfold on_disk. rewrite Eb, Es, Esb, W8; [done|]. by exists j.
  - split; [|split; [|split]].
    + eapply kept_trans; [exact K4|]. by rewrite <- Eb.
    + by rewrite Esb3, Es, Esb.
    + by rewrite Ecw3, Ec, Ecw.
    + intros jp Hj. rewrite Eit3, Ei, decide_False by done. by apply Ej.
Qed.

(** The blocks a write of [n] bytes at [off] may log, beside the free map. *)
Definition write_cost (off n : Z) : nat := nblk off n + 2.

(** [writei]: total, and correct when the source can be read. *)
Lemma writei_spec ip src off bs s W r :
  let n := Z.of_nat (length bs) in
  layout (view s) → file_ok (view s) (ino (view s) ip) → (∀ n, is_bmap (f_sb (view s)) n → n ∈ W) →
  Src src bs s → 0 <= off <= i_size (ino (view s) ip) → off + n <= MAXFILE * BSIZE → room (view s) (2 * nblk off n) →
  ready (f_b (view s)) [] [] W (write_cost off n + r) →
  wp (writei tk ip src off n) (λ v s', v = n ∧ written ip off bs (view s) (view s') ∧
    ∃ W' r', ready (f_b (view s')) [] [] W' r' ∧ (r <= r')%nat ∧ W ⊆ W') s.
Proof.
  intros n L F HW HS Hoff Hmax Hr R. unfold writei. apply wp_bind, wp_zoom, wp_gets. rewrite set_view.
  assert (MAXFILE * BSIZE < 2 ^ 32) as H32 by done. rewrite wrap_small by lia.
  rewrite !(proj2 (Z.ltb_ge _ off)), (proj2 (Z.ltb_ge _ (off + n))) by lia. simpl orb. cbv iota.
  assert (ind_need (ino (view s) ip) W <= 1)%nat as Hneed. { unfold ind_need. case_match; lia. }
  eapply wp_step; [apply (writei_loop_spec _ ip src off n 0 bs s W (write_cost off n + r)); rewrite ?Z.sub_0_r; try done; try lia|].
  { unfold write_cost. lia. } { apply enough_start; lia. }
  intros v s1 (-> & Wr & _ & W1 & r1 & R1 & HW1 & Hb1). fold n in Hb1 |- *. unfold write_cost in Hb1.
  apply wp_bind, wp_zoom, wp_gets. rewrite set_view. cbn [fst snd].
  destruct (wr_only _ _ _ _ _ Wr) as (_ & Esb & _ & _ & l & El).
  assert (i_size (ino (view s1) ip) = i_size (ino (view s) ip)) as Esz by (by rewrite El). rewrite Esz.
  set (z := Z.max (i_size (ino (view s) ip)) (off + n)).
  eapply wp_step with (P := λ _ s2, f_b (view s2) = f_b (view s1) ∧ f_sb (view s2) = f_sb (view s1) ∧ f_cwd (view s2) = f_cwd (view s1) ∧
    ∀ jp, ino (view s2) jp = if decide (jp = ip) then set_isize z (ino (view s1) ip) else ino (view s1) jp).
  { destruct (Z.ltb_spec (i_size (ino (view s) ip)) (off + n)).
    - apply wp_zoom, seti_spec. rewrite view_set. cbn [f_b f_sb f_cwd f_itab]. split_and!; try done. intros jp.
      rewrite inode_at_insert. case_decide; [|done]. f_equal. lia.
    - apply wp_ret. split_and!; try done. intros jp. case_decide as Ej; [|done]. subst. unfold z. rewrite Z.max_l by lia.
      rewrite <- Esz. by destruct (ino (view s1) ip). }
  intros _ s2 (Eb & Es & Ec & Ei). pose proof (Ei ip) as Ex. rewrite decide_True in Ex by done.
  set (m := IBLOCK (i_inum (ino (view s2) ip)) (f_sb (view s2))).
  pose proof (wr_file _ _ _ _ _ Wr) as F1. pose proof (layout_tables _ _ Eb Es (wr_lay _ _ _ _ _ Wr)) as L2.
  assert (0 <= i_inum (ino (view s2) ip) < sb_ninodes (f_sb (view s2))) as Hin by (rewrite Es, Ex; apply F1).
  assert (∃ r2, r1 = Datatypes.S r2 ∧ (r <= r2)%nat) as (r2 & -> & Hr2). { exists (pred r1). lia. }
  apply wp_bind, wp_zoom. eapply wp_mono; [apply (iupdate_spec ip (view s2) (m :: W1) r2); try done|].
  - rewrite Ex. apply F1.
  - rewrite Ex. apply F1.
  - by left.
  - rewrite Eb. apply ready_more; [done|]. rewrite <- Eb. apply (lay_idata L2). by exists (i_inum (ino (view s2) ip)).
  - intros _ t3 (R3 & U3). apply wp_ret. rewrite view_set. split_and!; [done| |].
    + eapply (written_end ip off bs (view s) (view s1) (view s2)); try done. intros k. rewrite Eb. by eapply lb_len.
    + exists (m :: W1), r2. split_and!; [done|done|set_solver].
Qed.
End Write.
