(* ===== verification/FsDir.v ===== *)
(** * Directories and paths (kernel/fs.c: dirlookup, dirlink, skipelem)

    A directory is a finite map from names to inode numbers ([dir_find]):
    [dirlookup] looks a name up, [dirlink] inserts one and leaves the others.
    The elements of a path are the non-empty runs between slashes. *)

From Stdlib Require Import ZifyBool.
From S2P Require Import Prelude Random Spinlock Block Fs FsSpec FsFile FsInode FsTable FsData.

#[local] Ltac Zify.zify_post_hook ::= Z.to_euclidean_division_equations.

(** ** Buffers of the kernel *)

Section Buffers.
Context {B : Type} `{!BlockOps B} `{!BlockLaws B}.
Abbreviation fs := (fsys B).
Abbreviation flb s := (lb (f_b s)).
Abbreviation ino s ip := (inode_at (f_itab s) ip).

Lemma buffer_sink : sink (S := fs * list Z) to_buffer (λ _ acc s, s.2 = acc) False.
Proof.
  split; [done|]. intros dst acc bs [s b] H W r E R. unfold to_buffer, wp. simpl in *. split_and!; try done. left. by rewrite E.
Qed.

Lemma buffer_source : source (S := fs * list Z) from_buffer (λ src bs s, 0 <= src ∧ drop (Z.to_nat src) s.2 = bs).
Proof.
  split; [done|]. intros src bs m [s b] H W r (H0 & E) Hm R. unfold from_buffer, wp, sub. simpl in *. subst bs.
  split_and!; try done; [lia|]. rewrite drop_drop. f_equal. lia.
Qed.

Lemma readi_buf_spec ip off n s W r :
  file_ok s (ino s ip) → solid (flb s) (ino s ip) → ready (f_b s) [] [] W r → 0 <= off → 0 <= n → off + n < 2 ^ 32 →
  let c := read_count (ino s ip) off n in
  wp (readi_buf ip off n) (λ rb s', rb = (c, fbytes (flb s) (ino s ip) off c) ∧ same_lb s s' ∧ ready (f_b s') [] [] W r) s.
Proof.
  intros F Sd R Ho Hn H32 c.
  pose proof (readi_spec (S := fs * list Z) to_buffer _ False buffer_sink ip 0 off n [] (s, []) W r F Sd R eq_refl Ho Hn H32) as Hw.
  unfold readi_buf, wp in *. destruct (readi _ _ _ _ _ _) as [[v [s' b]]| | |]; try done.
  destruct Hw as (S1 & R1 & [[-> E]|[_ []]]). simpl in *. by rewrite E.
Qed.

Lemma writei_buf_spec ip off bs s W r :
  let n := Z.of_nat (length bs) in
  layout s → file_ok s (ino s ip) → (∀ n, is_bmap (f_sb s) n → n ∈ W) →
  0 <= off <= i_size (ino s ip) → off + n <= MAXFILE * BSIZE → room s (2 * nblk off n) →
  ready (f_b s) [] [] W (write_cost off n + r) →
  wp (writei_buf ip off bs) (λ v s', v = n ∧ written ip off bs s s' ∧
    ∃ W' r', ready (f_b s') [] [] W' r' ∧ (r <= r')%nat ∧ W ⊆ W') s.
Proof.
  intros n L F HW Ho Hmax Hr R.
  pose proof (writei_spec (S := fs * list Z) from_buffer _ buffer_source ip 0 off bs (s, bs) W r L F HW
    (conj (Z.le_refl 0) eq_refl) Ho Hmax Hr R) as Hw.
  unfold writei_buf, wp in *. fold n in Hw. by destruct (writei _ _ _ _ _ _) as [[v [s' b]]| | |].
Qed.
End Buffers.

(** ** Names *)

(** The bytes of a name: up to its NUL, [DIRSIZ] at most. *)
Fixpoint until_nul (l : list Z) : list Z :=
  match l with c :: l' => if truthy c then c :: until_nul l' else [] | [] => [] end.
Definition name_of (l : list Z) : list Z := take (Z.to_nat DIRSIZ) (until_nul l).

Lemma strncmp_list_eq n p q : strncmp_list n p q = 0 ↔ take n (until_nul p) = take n (until_nul q).
Proof.
  revert p q. induction n as [|n IH]; intros p q; [done|]. cbn [strncmp_list].
  destruct p as [|a p], q as [|b q]; simpl; try done.
  - unfold truthy. destruct (b =? 0) eqn:E; simpl; [split; [done|lia]|]. split; [lia|done].
  - unfold truthy. destruct (a =? 0) eqn:E; simpl; [split; [done|lia]|].
    destruct (Z.eqb_spec a 0); [done|]. split; [lia|done].
  - unfold truthy. destruct (Z.eqb_spec a 0) as [->|Ha]; simpl.
    { destruct (Z.eqb_spec b 0) as [->|]; simpl; [done|]. split; [lia|done]. }
    destruct (Z.eqb_spec a b) as [->|Hab].
    + destruct (Z.eqb_spec b 0); [done|]. simpl. rewrite IH. split; [by intros ->|by intros [= ->]].
    + split; [lia|]. destruct (Z.eqb_spec b 0); simpl; [done|]. by intros [= -> _].
Qed.

Lemma namecmp_spec s t : namecmp s t = 0 ↔ name_of s = name_of t.
Proof. apply strncmp_list_eq. Qed.

Lemma until_nul_strncpy n t : until_nul (strncpy_list n t) = take n (until_nul t).
Proof.
  revert t. induction n as [|n IH]; intros t; [done|]. destruct t as [|c t]; simpl; [done|].
  unfold truthy. destruct (Z.eqb_spec c 0) as [->|Hc]; simpl; [done|]. unfold truthy. rewrite (proj2 (Z.eqb_neq c 0)) by done.
  simpl. by rewrite IH.
Qed.

Lemma length_strncpy n t : length (strncpy_list n t) = n.
Proof.
  revert t. induction n as [|n IH]; intros t; [done|]. destruct t as [|c t]; cbn [strncpy_list]; [apply length_replicate|].
  destruct (truthy c); [simpl; by rewrite IH|apply length_replicate].
Qed.

Lemma mk_dirent_len inum name : length (mk_dirent inum name) = 16%nat.
Proof. unfold mk_dirent. by rewrite length_app, length_le, length_strncpy. Qed.

Lemma mk_dirent_inum inum name : 0 <= inum < 2 ^ 16 → de_inum (mk_dirent inum name) = inum.
Proof. intros. unfold de_inum, mk_dirent. rewrite get_le. by apply Z.mod_small. Qed.

Lemma mk_dirent_name inum name : name_of (de_name (mk_dirent inum name)) = name_of name.
Proof.
  unfold de_name, mk_dirent, sub. rewrite drop_app_length' by (by rewrite length_le). rewrite take_ge by (by rewrite length_strncpy).
  unfold name_of. rewrite until_nul_strncpy, take_take, Nat.min_id. done.
Qed.

(** ** A directory as a map *)

Definition dirent_at (f : Z → block) (x : inode) (k : Z) : list Z := fbytes f x (16 * k) 16.

(** The first entry from [k] that [P] accepts. *)
Fixpoint first_entry (n : nat) (k : Z) (d : Z → list Z) (P : list Z → bool) : option Z :=
  match n with
  | O => None
  | S n' => if P (d k) then Some k else first_entry n' (k + 1) d P
  end.

Definition matches (name de : list Z) : bool := negb (de_inum de =? 0) && (namecmp name (de_name de) =? 0).
Definition free_entry (de : list Z) : bool := de_inum de =? 0.

Definition entries (x : inode) : nat := Z.to_nat (i_size x / 16).

(** The offset of the entry of a name, and its inode. *)
Definition dir_find (f : Z → block) (x : inode) (name : list Z) : option (Z * Z) :=
  (λ k, (16 * k, de_inum (dirent_at f x k))) <$> first_entry (entries x) 0 (dirent_at f x) (matches name).

Lemma first_entry_Some n k d P j :
  first_entry n k d P = Some j ↔ k <= j < k + Z.of_nat n ∧ P (d j) = true ∧ ∀ i, k <= i < j → P (d i) = false.
Proof.
  revert k. induction n as [|n IH]; intros k; cbn [first_entry]; [split; [done|lia]|].
  destruct (P (d k)) eqn:E.
  - split; [intros [= <-]; split_and!; [lia|lia|done|lia]|]. intros (H1 & H2 & H3). f_equal.
    destruct (decide (j = k)); [done|]. rewrite H3 in E by lia. done.
  - rewrite IH. split; intros (H1 & H2 & H3); (split; [|split; [done|]]).
    + lia.
    + intros i Hi. destruct (decide (i = k)) as [->|]; [done|]. apply H3. lia.
    + assert (j ≠ k) by congruence. lia.
    + intros i Hi. apply H3. lia.
Qed.

Lemma first_entry_None n k d P : first_entry n k d P = None ↔ ∀ i, k <= i < k + Z.of_nat n → P (d i) = false.
Proof.
  revert k. induction n as [|n IH]; intros k; cbn [first_entry]; [split; [lia|done]|].
  destruct (P (d k)) eqn:E.
  - split; [done|]. intros H. rewrite H in E by lia. done.
  - rewrite IH. split; intros H i Hi; [|apply H; lia]. destruct (decide (i = k)) as [->|]; [done|]. apply H. lia.
Qed.

Lemma first_entry_ext n k d d' P : (∀ k, d' k = d k) → first_entry n k d' P = first_entry n k d P.
Proof. intros E. revert k. induction n as [|n IH]; intros k; simpl; [done|]. by rewrite E, IH. Qed.

Section Dir.
Context {B : Type} `{!BlockOps B} `{!BlockLaws B}.
Abbreviation fs := (fsys B).
Abbreviation flb s := (lb (f_b s)).
Abbreviation ino s ip := (inode_at (f_itab s) ip).

Record dir_ok (s : fs) (dp : Z) : Prop := {
  do_file : file_ok s (ino s dp);
  do_solid : solid (flb s) (ino s dp);
  do_type : i_type (ino s dp) = T_DIR;
  do_size : i_size (ino s dp) mod 16 = 0
}.

(** [iget] can take a reference to inode [inum]. *)
Definition can_iget (s : fs) (inum : Z) : Prop :=
  lockable LK_ITABLE (view (f_b s)) ∧ itab_ok (f_itab s) ∧ refs (f_itab s) ROOTDEV inum < 2 ^ 31 - 1 ∧
  ∃ jp, entry jp ∧ (is_entry (f_itab s) ROOTDEV inum jp ∨ i_ref (ino s jp) = 0).

Lemma same_dir_ok s s' dp : same_lb s s' → dir_ok s dp → dir_ok s' dp.
Proof.
  intros S1 [F Sd T Z]. split; rewrite ?(same_ino s s') by done; try done; [by apply (same_file_ok s)|].
  intros i Hi. rewrite (addr_of_lb (flb s)) by apply S1. by apply Sd.
Qed.

Lemma dirent_same s s' x k : same_lb s s' → dirent_at (flb s') x k = dirent_at (flb s) x k.
Proof. intros S1. apply fbytes_ext, S1. Qed.

(** Reading one entry. *)
Lemma read_dirent s0 s dp k W r :
  dir_ok s0 dp → same_lb s0 s → ready (f_b s) [] [] W r → 0 <= k < Z.of_nat (entries (ino s0 dp)) →
  wp (readi_buf dp (16 * k) 16) (λ rb s', rb = (16, dirent_at (flb s0) (ino s0 dp) k) ∧ same_lb s0 s' ∧ ready (f_b s') [] [] W r) s.
Proof.
  intros D S1 R Hk. pose proof (same_dir_ok s0 s dp S1 D) as D1. pose proof (same_ino s0 s dp S1) as Ex.
  pose proof (fo_size (do_file _ _ D)) as Hsz. pose proof (do_size _ _ D) as Hmod. unfold entries in Hk.
  assert (read_count (ino s dp) (16 * k) 16 = 16) as Ec. { unfold read_count. rewrite Ex. rewrite (proj2 (Z.ltb_ge _ _)) by lia. lia. }
  eapply wp_mono; [apply (readi_buf_spec dp (16 * k) 16 s W r)|].
  - apply D1.
  - apply D1.
  - done.
  - lia.
  - lia.
  - unfold MAXFILE, NDIRECT, NINDIRECT, BSIZE in Hsz. lia.
  - intros rb s' (-> & S2 & R2). rewrite Ec. split_and!; [|by eapply same_trans|done].
    f_equal. unfold dirent_at. rewrite Ex. apply fbytes_ext, S1.
Qed.

Lemma iters_entries s dp : dir_ok s dp → iters 0 (i_size (ino s dp)) 16 = entries (ino s dp).
Proof.
  intros D. pose proof (fo_size (do_file _ _ D)) as Hsz. pose proof (do_size _ _ D) as Hm. unfold iters, entries. f_equal. lia.
Qed.

Lemma same_can_iget s s' inum : same_lb s s' → can_iget s inum → can_iget s' inum.
Proof.
  intros ((K & _ & Et & _) & _) (H1 & H2 & H3 & H4). unfold can_iget. rewrite Et. split_and!; try done.
  destruct K as (El & _). by rewrite El.
Qed.

(** The answer of [dirlookup]: a new reference to the inode of the name. *)
Definition looked_up (s : fs) (f : option (Z * Z)) (W : list Z) (r : nat) (v : option (Z * Z)) (s' : fs) : Prop :=
  ready (f_b s') [] [] W r ∧
  match f with
  | None => v = None ∧ same_lb s s'
  | Some (off, inum) => ∃ ip, v = Some (ip, off) ∧ entry ip ∧ is_entry (f_itab s') ROOTDEV inum ip ∧ same_blocks s s' ∧
      recounted ROOTDEV inum 1 s s' ∧ ∀ jp, jp ≠ ip → ino s' jp = ino s jp
  end.

Lemma dirlookup_spec dp name s W r :
  dir_ok s dp → ready (f_b s) [] [] W r → (∀ off inum, dir_find (flb s) (ino s dp) name = Some (off, inum) → can_iget s inum) →
  wp (dirlookup dp name) (looked_up s (dir_find (flb s) (ino s dp) name) W r) s.
Proof.
  intros D R Hget. unfold dirlookup. apply wp_bind, wp_gets. rewrite (do_type _ _ D). simpl negb. cbv iota. apply wp_bind, wp_gets.
  rewrite iters_entries by done. set (x := ino s dp) in *. set (d := dirent_at (flb s) x).
  apply (wp_for (λ k s1, same_lb s s1 ∧ ready (f_b s1) [] [] W r ∧ ∀ i, 0 <= i < Z.of_nat k → matches name (d i) = false)).
  - split_and!; [done|done|lia].
  - intros k s1 Hk (S1 & R1 & Hno). replace (0 + Z.of_nat k * 16) with (16 * Z.of_nat k) by lia.
    eapply wp_step; [apply (read_dirent s s1 dp (Z.of_nat k) W r); try done; fold x; lia|]. intros rb s2 (-> & S2 & R2).
    cbn [fst snd]. simpl negb. cbv iota. fold x d.
    assert (matches name (d (Z.of_nat k)) = false → ∀ i, 0 <= i < Z.of_nat (S k) → matches name (d i) = false) as Hnext.
    { intros Hm i Hi. destruct (decide (i = Z.of_nat k)) as [->|]; [done|]. apply Hno. lia. }
    destruct (de_inum (d (Z.of_nat k)) =? 0) eqn:E0.
    { apply wp_ret. split_and!; [done|done|]. apply Hnext. unfold matches. by rewrite E0. }
    destruct (namecmp name (de_name (d (Z.of_nat k))) =? 0) eqn:E1.
    2: { apply wp_ret. split_and!; [done|done|]. apply Hnext. unfold matches. by rewrite E1, andb_false_r. }
    assert (dir_find (flb s) x name = Some (16 * Z.of_nat k, de_inum (d (Z.of_nat k)))) as Ef.
    { unfold dir_find. fold d. rewrite (proj2 (first_entry_Some _ _ _ _ (Z.of_nat k))); [done|].
      split; [lia|]. split; [unfold matches; by rewrite E0, E1|]. intros i Hi. apply Hno. lia. }
    apply wp_bind, wp_gets. rewrite (same_ino s s2) by done. rewrite (fo_dev (do_file _ _ D)).
    pose proof (same_can_iget s s2 _ S2 (Hget _ _ Ef)) as (G1 & G2 & G3 & G4).
    eapply wp_step; [by apply (iget_spec ROOTDEV _ s2 [] W r)|]. intros ip s3 (I1 & I2 & I3 & I4 & I5 & I6 & _).
    apply wp_ret. unfold looked_up. rewrite Ef. split; [done|]. exists ip. destruct (same_lb_blocks s s2 S2) as (B2 & T2).
    split_and!; try done; [by eapply same_blocks_trans| |intros jp Hj; by rewrite I6, T2].
    destruct I5 as [C1 C2 C3]. rewrite T2 in C1, C2. by split.
  - intros s1 (S1 & R1 & Hno). unfold looked_up, dir_find. fold d. rewrite (proj2 (first_entry_None _ _ _ _)); [done|]. intros i Hi. apply Hno. lia.
Qed.

(** An empty entry, or the end. *)
Definition link_at (s : fs) (dp : Z) : Z :=
  16 * default (Z.of_nat (entries (ino s dp))) (first_entry (entries (ino s dp)) 0 (dirent_at (flb s) (ino s dp)) free_entry).

Lemma empty_dirent_spec dp s W r :
  dir_ok s dp → ready (f_b s) [] [] W r →
  wp (empty_dirent dp) (λ off s', off = link_at s dp ∧ same_lb s s' ∧ ready (f_b s') [] [] W r) s.
Proof.
  intros D R. unfold empty_dirent. apply wp_bind, wp_gets.
  rewrite iters_entries by done. set (x := ino s dp) in *. set (d := dirent_at (flb s) x).
  eapply wp_step with (P := λ v s', default (16 * Z.of_nat (entries x)) v = link_at s dp ∧ same_lb s s' ∧ ready (f_b s') [] [] W r).
  2: { intros v s' (E & S1 & R1). by apply wp_ret. }
  apply (wp_for (λ k s1, same_lb s s1 ∧ ready (f_b s1) [] [] W r ∧ ∀ i, 0 <= i < Z.of_nat k → free_entry (d i) = false)).
  - split_and!; [done|done|lia].
  - intros k s1 Hk (S1 & R1 & Hno). replace (0 + Z.of_nat k * 16) with (16 * Z.of_nat k) by lia.
    eapply wp_step; [apply (read_dirent s s1 dp (Z.of_nat k) W r); try done; fold x; lia|]. intros rb s2 (-> & S2 & R2).
    cbn [fst snd]. simpl negb. cbv iota. fold x d. destruct (de_inum (d (Z.of_nat k)) =? 0) eqn:E0; apply wp_ret.
    + split_and!; [|done|done]. unfold link_at. fold x d. rewrite (proj2 (first_entry_Some _ _ _ _ (Z.of_nat k))); [done|].
      split; [lia|]. split; [done|]. intros i Hi. apply Hno. lia.
    + split_and!; [done|done|]. intros i Hi. destruct (decide (i = Z.of_nat k)) as [->|]; [done|]. apply Hno. lia.
  - intros s1 (S1 & R1 & Hno). split_and!; [|done|done]. unfold link_at. fold x d.
    rewrite (proj2 (first_entry_None _ _ _ _)); [done|]. intros i Hi. apply Hno. lia.
Qed.

(** The entries after writing one of them. *)
Lemma written_dirent dp o de s s' k :
  written dp (16 * o) de s s' → length de = 16%nat → 0 <= o → 0 <= k → 16 * k + 16 <= MAXFILE * BSIZE →
  dirent_at (flb s') (ino s' dp) k = if k =? o then de else dirent_at (flb s) (ino s dp) k.
Proof.
  intros Wn Hl Ho Hk Hmax. unfold dirent_at, fbytes. pose proof (wn_bytes _ _ _ _ _ Wn) as Hb. rewrite Hl in Hb.
  destruct (Z.eqb_spec k o) as [->|Hne].
  - apply list_eq. intros i. rewrite list_lookup_fmap. destruct (decide (i < 16)%nat) as [Hi|Hi].
    + rewrite lookup_seqZ_lt by lia. simpl. rewrite Hb, decide_True by lia.
      replace (Z.to_nat (16 * o + Z.of_nat i - 16 * o)) with i by lia. rewrite nth_lookup.
      destruct (de !! i) eqn:E; [done|]. apply lookup_ge_None in E. lia.
    + rewrite lookup_seqZ_ge, lookup_ge_None_2 by lia. done.
  - apply list_fmap_ext. intros i y [-> Hi]%lookup_seqZ. rewrite Hb, decide_False by lia. done.
Qed.

Lemma first_entry_change n n' d d' P o :
  (∀ k, 0 <= k < Z.of_nat n' → k ≠ o → d' k = d k) → P (d' o) = false → 0 <= o → (n <= n')%nat →
  (o < Z.of_nat n → P (d o) = false) → (n' = n ∨ (n' = S n ∧ o = Z.of_nat n)) → first_entry n' 0 d' P = first_entry n 0 d P.
Proof.
  intros Hd Ho' Ho Hn Hdo Hn'. assert (∀ i, 0 <= i < Z.of_nat n' → i < Z.of_nat n ∨ i = o) as Hcase by lia.
  assert (∀ i, 0 <= i < Z.of_nat n → P (d' i) = P (d i)) as Hsame.
  { intros i Hi. destruct (decide (i = o)) as [->|]; [rewrite Ho', Hdo by lia; done|]. by rewrite Hd by lia. }
  destruct (first_entry n 0 d P) as [j|] eqn:E.
  - apply first_entry_Some in E as (H1 & H2 & H3). apply first_entry_Some. split; [lia|]. split; [by rewrite Hsame by lia|].
    intros i Hi. rewrite Hsame by lia. apply H3. lia.
  - apply first_entry_None. intros i Hi. rewrite first_entry_None in E. destruct (Hcase i) as [?| ->]; [lia|rewrite Hsame by lia; apply E; lia|done].
Qed.

(** [dirlink] inserts the name. *)
Record linked_in (dp : Z) (name : list Z) (inum : Z) (s s' : fs) : Prop := {
  li_new : dir_find (flb s') (ino s' dp) name = Some (link_at s dp, inum);
  li_other : ∀ nm, name_of nm ≠ name_of name → dir_find (flb s') (ino s' dp) nm = dir_find (flb s) (ino s dp) nm;
  li_dir : dir_ok s' dp
}.

Lemma link_at_range s dp : dir_ok s dp → ∃ o, link_at s dp = 16 * o ∧ 0 <= o <= Z.of_nat (entries (ino s dp)) ∧
  (o < Z.of_nat (entries (ino s dp)) → free_entry (dirent_at (flb s) (ino s dp) o) = true) ∧ 16 * Z.of_nat (entries (ino s dp)) = i_size (ino s dp).
Proof.
  intros D. pose proof (fo_size (do_file _ _ D)) as Hsz. pose proof (do_size _ _ D) as Hm.
  assert (16 * Z.of_nat (entries (ino s dp)) = i_size (ino s dp)) as En by (unfold entries; lia).
  unfold link_at. destruct (first_entry _ _ _ free_entry) as [o|] eqn:E; simpl; eexists; (split; [done|]).
  - apply first_entry_Some in E as (H1 & H2 & H3). split; [lia|]. done.
  - split; [lia|]. split; [lia|done].
Qed.

Lemma written_linked dp name inum s s' :
  dir_ok s dp → dir_find (flb s) (ino s dp) name = None → 0 < inum < 2 ^ 16 → link_at s dp + 16 <= MAXFILE * BSIZE →
  written dp (link_at s dp) (mk_dirent inum name) s s' → linked_in dp name inum s s'.
Proof.
  intros D Hno Hin Hmax Wn. destruct (link_at_range s dp D) as (o & Eo & Ho & Hfree & En). rewrite Eo in *.
  destruct (wn_inode _ _ _ _ _ Wn) as (l & Ex). rewrite mk_dirent_len in Ex. set (n := entries (ino s dp)) in *.
  assert (i_size (ino s' dp) = Z.max (i_size (ino s dp)) (16 * o + 16)) as Esz by (by rewrite Ex).
  assert (Z.of_nat (entries (ino s' dp)) = Z.max (Z.of_nat n) (o + 1)) as En' by (unfold entries; rewrite Esz; lia).
  pose proof (fo_size (do_file _ _ D)) as Hsz. pose proof (wn_file _ _ _ _ _ Wn) as F'. pose proof (fo_size F') as Hsz'.
  assert (∀ k, 0 <= k < Z.of_nat (entries (ino s' dp)) → dirent_at (flb s') (ino s' dp) k = if k =? o then mk_dirent inum name else dirent_at (flb s) (ino s dp) k) as Hd.
  { intros k Hk. apply written_dirent; [done|apply mk_dirent_len|lia|lia|lia]. }
  set (d := dirent_at (flb s) (ino s dp)) in *. set (d' := dirent_at (flb s') (ino s' dp)) in *.
  assert (d' o = mk_dirent inum name) as Edo by (rewrite Hd by lia; by rewrite Z.eqb_refl).
  split.
  - unfold dir_find. fold d'. rewrite (proj2 (first_entry_Some _ _ _ _ o)).
    + change (Some (16 * o, de_inum (d' o)) = Some (link_at s dp, inum)). by rewrite Eo, Edo, mk_dirent_inum by lia.
    + split; [lia|]. split.
      * unfold matches. rewrite Edo, mk_dirent_inum by lia. rewrite (proj2 (Z.eqb_neq inum 0)) by lia. simpl. apply Z.eqb_eq, namecmp_spec. by rewrite mk_dirent_name.
      * intros i Hi. rewrite Hd, (proj2 (Z.eqb_neq i o)) by lia. unfold dir_find in Hno. apply fmap_None in Hno. rewrite first_entry_None in Hno. apply Hno. lia.
  - intros nm Hnm. assert (matches nm (mk_dirent inum name) = false) as Hm.
    { unfold matches. apply andb_false_iff. right. apply Z.eqb_neq. intros E%namecmp_spec. by rewrite mk_dirent_name in E. }
    unfold dir_find. fold d d'.
    assert (first_entry (entries (ino s' dp)) 0 d' (matches nm) = first_entry n 0 d (matches nm)) as E.
    { apply (first_entry_change _ _ _ _ _ o); [|by rewrite Edo|lia|lia| |lia].
      - intros k Hk Hne. by rewrite Hd, (proj2 (Z.eqb_neq k o)).
      - intros Hlt. specialize (Hfree Hlt). unfold free_entry in Hfree. unfold matches. by rewrite Hfree. }
    rewrite E. fold n. destruct (first_entry n 0 d (matches nm)) as [j|] eqn:Ej; [|done]. simpl. do 2 f_equal.
    apply first_entry_Some in E as (H1 & H2 & _). rewrite Hd by lia. destruct (Z.eqb_spec j o) as [->|]; [|done]. rewrite Edo in H2. congruence.
  - split; [done|apply (wn_solid _ _ _ _ _ Wn), D|rewrite Ex; exact (do_type _ _ D)|]. rewrite Esz. lia.
Qed.

Lemma nblk_dirent o : 0 <= o → nblk (16 * o) 16 = 1%nat.
Proof. intros. unfold nblk, BSIZE. simpl. lia. Qed.

Lemma same_written dp off bs s s1 s2 : same_lb s s1 → written dp off bs s1 s2 → written dp off bs s s2.
Proof.
  intros S1 [W1 W2 W3 W4 W5 W6 W7 W8 W9]. pose proof (same_ino s s1 dp S1) as Ex. pose proof S1 as ((K & Esb & Eit & Ec) & L1).
  rewrite Ex, Esb in *. split; try done.
  - intros i Hi. rewrite W1 by done. case_decide; [done|]. by apply fbyte_ext.
  - intros Sd. apply W5. intros i Hi. rewrite (addr_of_lb (flb s)) by done. by apply Sd.
  - intros m (O1 & O2 & O3). destruct (W6 m) as (P1 & P2); [|by rewrite <- L1].
    split_and!; [by apply (same_owned s s1)|done|]. intros bn Hb. rewrite (addr_of_lb (flb s)) by done. by apply O3.
  - intros j y Hj Hne Hn. rewrite W8 by done. apply on_disk_same. by apply same_lb_blocks.
  - destruct W9 as (K9 & E9 & C9 & J9). split_and!; [by eapply kept_trans|done|congruence|]. intros jp Hj. by rewrite J9, Eit.
Qed.

Lemma dirlink_spec dp name inum s W r :
  layout s → dir_ok s dp → dir_find (flb s) (ino s dp) name = None → 0 < inum < 2 ^ 16 → link_at s dp + 16 <= MAXFILE * BSIZE →
  (∀ n, is_bmap (f_sb s) n → n ∈ W) → room s 2 → ready (f_b s) [] [] W (3 + r) →
  wp (dirlink dp name inum) (λ v s', v = 0 ∧ linked_in dp name inum s s' ∧ written dp (link_at s dp) (mk_dirent inum name) s s' ∧
    ∃ W' r', ready (f_b s') [] [] W' r' ∧ (r <= r')%nat ∧ W ⊆ W') s.
Proof.
  intros L D Hno Hin Hmax HW Hr R. unfold dirlink.
  eapply wp_step; [apply (dirlookup_spec dp name s W (3 + r) D R); by rewrite Hno|]. rewrite Hno. intros v s1 (R1 & -> & S1).
  eapply wp_step; [apply (empty_dirent_spec dp s1 W (3 + r)); [by apply (same_dir_ok s)|done]|]. intros off s2 (-> & S2 & R2).
  pose proof (same_trans _ _ _ S1 S2) as S02. pose proof (same_dir_ok s s2 dp S02 D) as D2. pose proof (same_ino s s2 dp S02) as Ex2.
  assert (link_at s1 dp = link_at s dp) as El.
  { unfold link_at. rewrite (same_ino s s1) by done. do 2 f_equal. apply first_entry_ext. intros k. by rewrite (dirent_same s s1). }
  rewrite El. destruct (link_at_range s dp D) as (o & Eo & Ho & _ & En). pose proof (mk_dirent_len (u16 inum) name) as Hlen.
  rewrite wrap_small in * by lia.
  eapply wp_step; [apply (writei_buf_spec dp (link_at s dp) (mk_dirent inum name) s2 W r); rewrite ?Hlen, ?Ex2, ?Eo|].
  - by apply (same_layout s).
  - rewrite <- Ex2. apply D2.
  - pose proof S02 as ((_ & -> & _) & _). done.
  - lia.
  - lia.
  - change (Z.of_nat 16) with 16. rewrite nblk_dirent by lia. by apply (same_room s).
  - change (Z.of_nat 16) with 16. unfold write_cost. rewrite nblk_dirent by lia. done.
  - intros v s3 (-> & Wn & HR). rewrite Hlen. simpl negb. cbv iota. apply wp_ret.
    pose proof (same_written dp _ _ s s2 s3 S02 Wn) as Wn'. split_and!; try done. by apply written_linked.
Qed.
End Dir.

(** ** Paths *)

(** The runs between slashes. *)
Fixpoint split_slash (p : list Z) : list (list Z) :=
  match p with
  | [] => [[]]
  | c :: p' => if c =? SLASH then [] :: split_slash p'
               else match split_slash p' with h :: t => (c :: h) :: t | [] => [] end
  end.
Definition path_elems (p : list Z) : list (list Z) := filter (λ e, e ≠ []) (split_slash p).

Lemma split_slash_cons p : ∃ h t, split_slash p = h :: t.
Proof.
  induction p as [|c p IH]; simpl; [by eauto|]. destruct (c =? SLASH); [by eauto|]. destruct IH as (h & t & ->). by eauto.
Qed.

Lemma split_elem p : split_slash p = elem p :: match after_elem p with [] => [] | _ :: p' => split_slash p' end.
Proof.
  induction p as [|c p IH]; simpl; [done|]. destruct (c =? SLASH); [done|]. by rewrite IH.
Qed.

Lemma path_elems_skip p : path_elems (skip_slashes p) = path_elems p.
Proof.
  induction p as [|c p IH]; simpl; [done|]. destruct (c =? SLASH) eqn:E; [|done]. rewrite IH. unfold path_elems. simpl. by rewrite E.
Qed.

Lemma after_elem_slash p : match after_elem p with [] => True | c :: _ => c = SLASH end.
Proof. induction p as [|c p IH]; simpl; [done|]. destruct (Z.eqb_spec c SLASH); done. Qed.

Lemma path_elems_after p : path_elems (after_elem p) = filter (λ e, e ≠ []) (match after_elem p with [] => [] | _ :: p' => split_slash p' end).
Proof.
  pose proof (after_elem_slash p) as H. destruct (after_elem p) as [|c q]; [done|]. subst c. unfold path_elems. done.
Qed.

Lemma skip_slashes_head p : match skip_slashes p with [] => True | c :: _ => c ≠ SLASH end.
Proof. induction p as [|c p IH]; simpl; [done|]. destruct (Z.eqb_spec c SLASH); done. Qed.

(** [skipelem] answers the next element, of which [DIRSIZ] bytes are kept. *)
Lemma skipelem_spec p :
  match skipelem p with
  | None => path_elems p = []
  | Some (p', name) => ∃ e, path_elems p = e :: path_elems p' ∧ name = take (Z.to_nat DIRSIZ) e
  end.
Proof.
  rewrite <- path_elems_skip. pose proof (skip_slashes_head p) as Hh. unfold skipelem. destruct (skip_slashes p) as [|c q]; [done|].
  exists (elem (c :: q)). split; [|done]. rewrite path_elems_skip, path_elems_after.
  unfold path_elems. rewrite split_elem. simpl. rewrite (proj2 (Z.eqb_neq c SLASH)) by done. done.
Qed.

Lemma skip_slashes_len p : (length (skip_slashes p) <= length p)%nat.
Proof. induction p as [|c p IH]; simpl; [done|]. destruct (c =? SLASH); simpl; lia. Qed.

Lemma after_elem_len p : (length (after_elem p) <= length p)%nat.
Proof. induction p as [|c p IH]; simpl; [done|]. destruct (c =? SLASH); simpl; lia. Qed.

(** The path gets shorter: the loop of [namex] ends. *)
Lemma skipelem_shorter p p' name : skipelem p = Some (p', name) → (length p' < length p)%nat.
Proof.
  pose proof (skip_slashes_len p) as H1. pose proof (skip_slashes_head p) as Hh. unfold skipelem. destruct (skip_slashes p) as [|c q]; [done|].
  intros [= <- <-]. pose proof (skip_slashes_len (after_elem (c :: q))) as H2. simpl in *.
  rewrite (proj2 (Z.eqb_neq c SLASH)) in * by done. pose proof (after_elem_len q). lia.
Qed.

(** The names [namex] visits. *)
Fixpoint names (fuel : nat) (p : list Z) : list (list Z) :=
  match fuel with
  | O => []
  | S fuel' => match skipelem p with None => [] | Some (p', name) => name :: names fuel' p' end
  end.

Lemma names_elems fuel p : (length p < fuel)%nat → names fuel p = take (Z.to_nat DIRSIZ) <$> path_elems p.
Proof.
  revert p. induction fuel as [|fuel IH]; intros p Hf; [lia|]. cbn [names]. pose proof (skipelem_spec p) as Hs.
  destruct (skipelem p) as [[p' name]|] eqn:E; [|by rewrite Hs]. destruct Hs as (e & -> & ->).
  apply skipelem_shorter in E. rewrite IH by lia. done.
Qed.
