(* ===== verification/FsInst.v ===== *)
(** * The block layer under the file system

    bio.c and log.c provide [BlockOps] and satisfy [BlockLaws]: the theorems
    about fs.c hold over the buffer cache, the log and the disk. *)

From Stdlib Require Import ZifyBool.
From S2P Require Import Prelude Random Spinlock Block Bio BioSpec Cache Log LogSpec LogTrans Fs FsSpec.

#[export] Instance lst_ops : BlockOps lst := {|
  bop_lk := lst_lk;
  cur_pid s := bs_pid (l_b s);
  Fs.bread dev n := zoom (Bio.bread dev n);
  Fs.bdata h := zoom (BioSpec.bdata h);
  Fs.bset h bs := zoom (BioSpec.bset h bs);
  Fs.brelse h := zoom (Bio.brelse h);
  Fs.log_write h := Log.log_write h;
  Fs.initlog dev sb := Log.initlog dev sb
|}.

(** The log is open for [r] more blocks beside [W]; or there is no transaction
    and nothing can be written.  Three buffers can be held at a time. *)
Record ready_l (s : lst) (H : list (Z * Z)) (U W : list Z) (r : nat) : Prop := {
  rl_wf : log_wf (l_log s) (ldisk s);
  rl_cache : cache (l_b s) H U (logged (l_log s));
  rl_head : hdr_n (dread (ldisk s) (lg_start (l_log s))) = 0;
  rl_com : lg_committing (l_log s) = 0;
  rl_lk : lockable LK_LOG (bs_lk (l_b s));
  rl_out : 1 <= lg_outstanding (l_log s) ∨ (lg_outstanding (l_log s) = 0 ∧ W = [] ∧ r = 0%nat);
  rl_sub : logged (l_log s) ⊆ W;
  rl_data : ∀ n, n ∈ W → is_data (lg_start (l_log s)) (lg_size (l_log s)) (ldisk s) n;
  rl_len : (length W + r <= 26)%nat;
  rl_size : Z.of_nat (length W + r) < lg_size (l_log s) - 1
}.
Arguments rl_wf {_ _ _ _ _}. Arguments rl_cache {_ _ _ _ _}. Arguments rl_sub {_ _ _ _ _}. Arguments rl_data {_ _ _ _ _}.
Arguments rl_lk {_ _ _ _ _}.

(** The transaction of [begin_op], and what there is outside of one. *)
Lemma ready_begin s r :
  in_trans s [] [] → logged (l_log s) = [] → (r <= 26)%nat → Z.of_nat r < lg_size (l_log s) - 1 → ready_l s [] [] [] r.
Proof.
  intros [I1 I2 I3 I4 I5 I6] E Hr Hs. split; try done; [by left|by rewrite E|by intros n ?%elem_of_nil].
Qed.

Lemma ready_quiet s : quiet s → ready_l s [] [] [] 0.
Proof.
  intros [[Q1 Q2 Q3 Q4] Q5 Q6 Q7]. assert (logged (l_log s) = []) as E by (unfold logged; by rewrite Q3).
  split; try done.
  - by rewrite E.
  - by right.
  - by rewrite E.
  - by intros n ?%elem_of_nil.
  - simpl. lia.
  - pose proof (wf_size Q1). simpl. lia.
Qed.

Lemma ready_end s W r : ready_l s [] [] W r → 1 <= lg_outstanding (l_log s) → in_trans s [] [].
Proof. intros [R1 R2 R3 R4 R5 R6 R7 R8 R9 R10] Ho. by split. Qed.

(** After an operation of the cache. *)
Lemma ready_stays s s' H U W r H' U' :
  ready_l s H U W r → stays s s' → cache (l_b s') H' U' (logged (l_log s)) → ready_l s' H' U' W r.
Proof.
  intros [R1 R2 R3 R4 R5 R6 R7 R8 R9 R10] ([E _] & Hd & Hg) Hc. split; rewrite ?Hd, ?Hg; try done. by rewrite E.
Qed.

Definition place (s : lst) (n : Z) : Prop := is_data (lg_start (l_log s)) (lg_size (l_log s)) (ldisk s) n.

Lemma stays_kept s s' :
  stays s s' → bs_lk (l_b s') ≡ bs_lk (l_b s) ∧ bs_pid (l_b s') = bs_pid (l_b s) ∧ ∀ n, place s' n ↔ place s n.
Proof. intros ([E1 E2] & Hd & Hg). split_and!; [done|done|]. intros n. unfold place. by rewrite Hd, Hg. Qed.

Lemma logged_le s H U W r : ready_l s H U W r → (length (logged (l_log s)) <= length W)%nat.
Proof.
  intros R. pose proof (rl_wf R) as Wf. pose proof (rl_sub R) as Hs. apply NoDup_length_le; [|intros x; apply Hs].
  apply (wf_trans Wf).
Qed.

#[export] Program Instance lst_laws : BlockLaws lst := {|
  data_blk := place;
  lb s n := lblk (l_b s) n;
  ready := ready_l
|}.
Next Obligation. intros s H U W r n R. by eapply lblk_len, R. Qed.
Next Obligation.
  intros s lk H U W r [R1 R2 R3 R4 R5 R6 R7 R8 R9 R10] Hlk. split; try done; simpl; [by apply cache_lk|by rewrite Hlk].
Qed.
Next Obligation. done. Qed.
Next Obligation. intros s lk Hlk. done. Qed.
Next Obligation.
  intros s n H U W r R Hn [Hr _] Hl. pose proof (logged_le _ _ _ _ _ R) as Hlen. pose proof (rl_len _ _ _ _ _ R) as H26.
  apply wp_zoom. eapply wp_mono; [apply (bread_cache n _ H U); [apply R|done|done|right; unfold NBUF; lia]|].
  intros b t (C & (E1 & E2 & E3) & F). assert (stays s (set t s)) as St by done.
  split; [by eapply ready_stays|split; [by apply stays_kept|done]].
Qed.
Next Obligation.
  intros s h n H U W r R Hin. apply wp_zoom. apply (bdata_cache h n _ H U (logged (l_log s))); [apply R|done|]. by rewrite set_view.
Qed.
Next Obligation.
  intros s h n bs H U W r R Hin Hw Hl. apply wp_zoom. eapply wp_mono; [apply (bset_cache h n bs _ H U); [apply R|done|done]|].
  intros [] t (C & (E1 & E2 & E3) & F). assert (stays s (set t s)) as St by done.
  split; [by eapply ready_stays|split; [by apply stays_kept|done]].
Qed.
Next Obligation.
  intros s h n H U W r R Hin Hw. pose proof (logged_le _ _ _ _ _ R) as Hlen.
  pose proof R as [R1 R2 R3 R4 R5 R6 R7 R8 R9 R10]. pose proof (logged_length _ _ R1) as Hn.
  assert (1 <= lg_outstanding (l_log s)) as Ho. { destruct R6 as [|(_ & -> & _)]; [done|by apply elem_of_nil in Hw]. }
  assert (in_trans s H (n :: U)) as T by (by split).
  eapply wp_mono; [apply (log_write_spec h n s H U T Hin (R8 n Hw)); lia|].
  intros [] s' ([I1 I2 I3 I4 I5 I6] & (E1 & E2 & E3 & E4 & E5) & L & Eg). split; [|split; [split_and!|done]].
  - split; try done.
    + by left.
    + rewrite Eg. case_bool_decide; [done|]. set_solver.
    + intros m Hm. rewrite E2, E3, E4. by apply R8.
    + by rewrite E4.
  - apply E1.
  - apply E1.
  - intros m. unfold place. by rewrite E2, E3, E4.
Qed.
Next Obligation.
  intros s H U W r n [R1 R2 R3 R4 R5 R6 R7 R8 R9 R10] Hd. split; try done; [|set_solver| |simpl; lia|simpl; lia].
  - destruct R6 as [|(_ & _ & ?)]; [by left|done].
  - intros m [->|Hm]%elem_of_cons; [done|by apply R8].
Qed.
Next Obligation.
  intros s h n H1 H2 U W r R Hn. apply wp_zoom. eapply wp_mono; [apply (brelse_cache h n _ H1 H2 U); [apply R|done]|].
  intros [] t (C & (E1 & E2 & E3) & F). assert (stays s (set t s)) as St by done.
  split; [by eapply ready_stays|split; [by apply stays_kept|done]].
Qed.
