(* ===== verification/FsProps.v ===== *)
(** * Properties of the file system, with witnesses *)

From Stdlib Require Import ZifyBool.
From S2P Require Import Prelude Random Spinlock Kalloc Block Bio BioSpec Cache Log LogSpec LogTrans LogProps.
From S2P Require Import Fs FsSpec FsFile FsInode FsTable FsData FsDir FsInst.

#[local] Opaque zero_block.

Section Props.
Context {B : Type} `{!BlockOps B} `{!BlockLaws B}.
Abbreviation fs := (fsys B).
Abbreviation flb s := (lb (f_b s)).
Abbreviation ino s ip := (inode_at (f_itab s) ip).

(** C3 (functional).  [writei] with [n] bytes to write at [off], within the
    file or at its end: it answers [n]; the bytes are in the file at [off] and
    every other byte of it, of the blocks of other files and of the other
    inodes is what it was; the size is the larger of the old one and
    [off + n]; the inode is on the disk; and the file is well formed.  The
    transaction logs at most one block per block of the range, the indirect
    block and the inode's. *)
Theorem writei_correct (S : Type) `{!Lens S fs} tk Src ip src off bs (s : S) W r :
  source tk Src → let n := Z.of_nat (length bs) in
  layout (view s) → file_ok (view s) (ino (view s) ip) → (∀ m, is_bmap (f_sb (view s)) m → m ∈ W) →
  Src src bs s → 0 <= off <= i_size (ino (view s) ip) → off + n <= MAXFILE * BSIZE → room (view s) (2 * nblk off n) →
  ready (f_b (view s)) [] [] W (write_cost off n + r) →
  wp (writei tk ip src off n) (λ v s', v = n ∧ written ip off bs (view s) (view s') ∧
    ∃ W' r', ready (f_b (view s')) [] [] W' r' ∧ (r <= r')%nat ∧ W ⊆ W') s.
Proof. intros K n. by apply writei_spec. Qed.

(** C15 (roundtrip).  What is written to a file is read back: reading any range
    of the file after a write answers the new bytes where they were written
    and the old ones elsewhere, cut at the new size. *)
Theorem write_read_roundtrip ip off bs off' n' (s : fs) W r :
  layout s → file_ok s (ino s ip) → solid (flb s) (ino s ip) → (∀ m, is_bmap (f_sb s) m → m ∈ W) →
  0 <= off <= i_size (ino s ip) → off + Z.of_nat (length bs) <= MAXFILE * BSIZE →
  room s (2 * nblk off (Z.of_nat (length bs))) → ready (f_b s) [] [] W (write_cost off (Z.of_nat (length bs)) + r) →
  0 <= off' → 0 <= n' → off' + n' < 2 ^ 32 →
  wp (let! _ := writei_buf ip off bs in readi_buf ip off' n')
    (λ rb s',
      rb.1 = (let size := Z.max (i_size (ino s ip)) (off + Z.of_nat (length bs)) in
              if size <? off' then 0 else Z.min n' (size - off')) ∧
      Z.of_nat (length rb.2) = rb.1 ∧
      ∀ i, 0 <= i < rb.1 →
        nth (Z.to_nat i) rb.2 0 =
          if decide (off <= off' + i < off + Z.of_nat (length bs)) then nth (Z.to_nat (off' + i - off)) bs 0
          else fbyte (flb s) (ino s ip) (off' + i)) s.
Proof.
  intros L F Sd HW Ho Hmax Hr R Ho' Hn' H32.
  eapply wp_step; [by apply (writei_buf_spec ip off bs s W r)|]. intros _ s1 (_ & Wn & W1 & r1 & R1 & _).
  pose proof (wn_file _ _ _ _ _ Wn) as F1. pose proof (fo_size F1) as Hsz1. destruct (wn_inode _ _ _ _ _ Wn) as (l & Ex).
  eapply wp_mono; [apply (readi_buf_spec ip off' n' s1 W1 r1); try done; by apply (wn_solid _ _ _ _ _ Wn)|].
  intros rb s2 (-> & _ & _). set (c := read_count (ino s1 ip) off' n').
  assert (c = (let size := Z.max (i_size (ino s ip)) (off + Z.of_nat (length bs)) in
              if size <? off' then 0 else Z.min n' (size - off'))) as Ec by (unfold c, read_count; by rewrite Ex).
  assert (0 <= c ∧ off' + c <= Z.max off' (i_size (ino s1 ip))) as Hc. { unfold c, read_count. case_match; lia. }
  cbn [fst snd]. rewrite length_fbytes. split_and!; [done|lia|]. intros i Hi.
  assert (off' + i < MAXFILE * BSIZE) as Hb. { unfold c, read_count in *. case_match; lia. }
  unfold fbytes. rewrite nth_lookup, list_lookup_fmap, lookup_seqZ_lt by lia. simpl. rewrite Z2Nat.id by lia.
  apply (wn_bytes _ _ _ _ _ Wn). lia.
Qed.

(** C13 (refinement).  A directory is a map from names of at most 14 bytes to
    inode numbers.  [dirlink] of a name that is not there answers 0, the name
    is then mapped to the inode number, in the first free entry or at the
    end, and every other name is mapped to what it was. *)
Theorem dirlink_correct dp name inum (s : fs) W r :
  layout s → dir_ok s dp → dir_find (flb s) (ino s dp) name = None → 0 < inum < 2 ^ 16 → link_at s dp + 16 <= MAXFILE * BSIZE →
  (∀ n, is_bmap (f_sb s) n → n ∈ W) → room s 2 → ready (f_b s) [] [] W (3 + r) →
  wp (dirlink dp name inum) (λ v s', v = 0 ∧ linked_in dp name inum s s' ∧ written dp (link_at s dp) (mk_dirent inum name) s s') s.
Proof.
  intros L D Hno Hi Hm HW Hr R. eapply wp_mono; [by apply (dirlink_spec dp name inum s W r)|]. by intros v s' (H1 & H2 & H3 & _).
Qed.

(** C35 (refinement).  [dirlookup] answers the entry [dir_find] says, with a
    new reference to its inode, or 0 when the name is not in the directory. *)
Theorem dirlookup_correct dp name (s : fs) W r :
  dir_ok s dp → ready (f_b s) [] [] W r → (∀ off inum, dir_find (flb s) (ino s dp) name = Some (off, inum) → can_iget s inum) →
  wp (dirlookup dp name) (looked_up s (dir_find (flb s) (ino s dp) name) W r) s.
Proof. apply dirlookup_spec. Qed.

(** C38 (functional).  [balloc] answers the first free block of the disk, marks
    it in use, and zeroes it; no other bit of the map and no other block
    changes. *)
Theorem balloc_correct (s : fs) H W r :
  layout s → (∃ b, 0 <= b < sb_size (f_sb s) ∧ used s b = false) → (∀ n, is_bmap (f_sb s) n → n ∈ W) →
  clear_of_map s H → (length H <= 3)%nat → ready (f_b s) H [] W (S r) →
  wp (balloc ROOTDEV) (λ b s', ready (f_b s') H [] (b :: W) r ∧ allocated b s s' ∧
    ∀ c, 0 <= c < b → used s c = true) s.
Proof. apply balloc_spec. Qed.

(** [iget] keeps the table of inodes well formed (one entry
    for an inode), answers the entry of the inode, and counts one more
    reference to it and to no other. *)
Theorem iget_correct dev inum (s : fs) H W r :
  lockable LK_ITABLE (view (f_b s)) → ready (f_b s) H [] W r → itab_ok (f_itab s) →
  refs (f_itab s) dev inum < 2 ^ 31 - 1 →
  (∃ jp, entry jp ∧ (is_entry (f_itab s) dev inum jp ∨ i_ref (ino s jp) = 0)) →
  wp (iget dev inum) (λ ip s', entry ip ∧ is_entry (f_itab s') dev inum ip ∧ ready (f_b s') H [] W r ∧ same_blocks s s' ∧
    recounted dev inum 1 s s' ∧ (∀ jp, jp ≠ ip → ino s' jp = ino s jp) ∧
    (is_entry (f_itab s) dev inum ip ∧ ino s' ip = set_ref (i_ref (ino s ip) + 1) (ino s ip) ∨
     refs (f_itab s) dev inum = 0 ∧ i_ref (ino s' ip) = 1 ∧ i_valid (ino s' ip) = 0)) s.
Proof. apply iget_spec. Qed.
End Props.

(** C36 (equivalence).  The names [skipelem] takes off a path one after the
    other, as [namex] does, are the non-empty runs between its slashes, cut to
    [DIRSIZ] bytes; the walk ends within as many steps as the path has bytes. *)
Theorem path_walk p : names (S (length p)) p = take (Z.to_nat DIRSIZ) <$> path_elems p.
Proof. apply names_elems. lia. Qed.

(** ** Witnesses

    A disk of 64 blocks: the log in blocks 2 to 31, the inodes in 32, the free
    map in 33, a directory with one entry in 34 and a file of five bytes in
    35. *)

Definition demo_bmap : block := replicate 4 255 ++ [15] ++ replicate 1019 0.
Definition demo_dirblock : block := le 2 1 ++ [46] ++ replicate 1021 0.
Definition demo_file : block := [104; 101; 108; 108; 111] ++ replicate 1019 0.
Definition fs_disk : disk := mkDisk 64 {[33 := demo_bmap; 34 := demo_dirblock; 35 := demo_file]} [].

Definition demo_inode (inum type size a : Z) : inode :=
  mkInode 1 inum 1 (mkSleeplock 0 0) 1 type 0 0 1 size (a :: replicate 12 0).
Definition demo_itab : gmap Z inode := {[0 := demo_inode 1 T_DIR 16 34; 1 := demo_inode 2 T_FILE 5 35]}.

Lemma fs_dread n :
  dread fs_disk n = if n =? 33 then demo_bmap else if n =? 34 then demo_dirblock else if n =? 35 then demo_file else zero_block.
Proof.
  unfold dread. simpl. destruct (Z.eqb_spec n 33) as [->|]; [by rewrite lookup_insert_eq|]. rewrite lookup_insert_ne by done.
  destruct (Z.eqb_spec n 34) as [->|]; [by rewrite lookup_insert_eq|]. rewrite lookup_insert_ne by done.
  destruct (Z.eqb_spec n 35) as [->|]; [by rewrite lookup_singleton_eq|]. by rewrite lookup_singleton_ne.
Qed.

Lemma fs_dread_len n : length (dread fs_disk n) = 1024%nat.
Proof. rewrite fs_dread. repeat case_match; first [apply zero_block_length|done]. Qed.

Lemma fs_log_disk : log_disk 2 30 fs_disk fs_disk (dread fs_disk).
Proof.
  apply log_disk_empty; [lia|done| |apply fs_dread_len|done]. rewrite fs_dread. vm_compute. done.
Qed.

Lemma fs_sb_ok : sb_log_ok demo_sb fs_disk.
Proof. split; vm_compute; split_and?; try done; discriminate. Qed.

(** Bits 0 to 35 of the map are set. *)
Lemma demo_bits b : 0 <= b < 64 → bit demo_bmap b = (b <? 36).
Proof.
  intros Hb. assert (forallb (λ b, Bool.eqb (bit demo_bmap b) (b <? 36)) (seqZ 0 64) = true) as Hf by (vm_compute; reflexivity).
  rewrite forallb_forall in Hf. specialize (Hf b). apply Bool.eqb_prop, Hf, list_elem_of_In, elem_of_seqZ. lia.
Qed.
#[local] Opaque demo_bmap demo_dirblock demo_file fs_disk.

(** [initlock] of the table, in [iinit]. *)
Lemma ready_initlock id (s : lst) H U W r : ready_l s H U W r → ready_l (set (set_lock id free_lock (view s)) s) H U W r.
Proof.
  intros [R1 R2 R3 R4 R5 R6 R7 R8 R9 R10]. split; try done.
  - apply cache_relock; [done|]. destruct (cache_locks_of _ _ _ _ R2) as [L1 L2].
    split; [|intros b Hb]; apply lockable_set_lock; left; auto.
  - apply lockable_set_lock. by left.
Qed.

(** The system has booted and a transaction is open. *)
Lemma demo_open : ∃ s : lst, ready s [] [] [33] 20 ∧ (lockable LK_ITABLE (view s) ∧ lockable (LK_INODE 1) (view s)) ∧
  (∀ m, place s m ↔ 0 <= m < 64 ∧ ¬ 2 <= m < 32) ∧ ∀ m, place s m → lb s m = dread fs_disk m.
Proof.
  pose proof (boot_spec demo_sb demo_lk 1 fs_disk _ demo_hart fs_sb_ok fs_log_disk) as Hb.
  destruct (wp_exists _ _ _ Hb) as (_ & s0 & Q0 & St0 & Sz0 & T0 & F0). clear Hb. apply throughout_end in T0 as (_ & _ & D0).
  pose proof (begin_op_spec s0 Q0) as Hb. destruct (wp_exists _ _ _ Hb) as ([] & s1 & I1 & O1 & L1 & (El & _) & Dk1 & St1 & Sz1 & Lb1). clear Hb.
  pose proof (rl_lk (ready_quiet s0 Q0)) as Hlog.
  assert (lg_start (l_log s1) = 2 ∧ lg_size (l_log s1) = 30 ∧ d_size (ldisk s1) = 64) as (E1 & E2 & E3).
  { rewrite St1, Sz1, St0, Sz0, Dk1, D0. done. }
  assert (∀ m, place s1 m ↔ 0 <= m < 64 ∧ ¬ 2 <= m < 32) as Hp.
  { intros m. unfold place, is_data, region. rewrite E1, E2, E3. lia. }
  assert (∀ m, place s1 m → lb s1 m = dread fs_disk m) as Hlb.
  { intros m Hm. cbn. rewrite Lb1. apply F0. unfold is_data, region. apply Hp in Hm. change (d_size fs_disk) with 64. simpl. lia. }
  assert (ready_l s1 [] [] [33] 20) as R1.
  { change (ready (B := lst) s1 [] [] [33] 20). apply (ready_more s1 [] [] [] 20 33); [|apply Hp; lia]. apply ready_begin; [done|done|lia|lia]. }
  pose proof (ready_initlock (LK_INODE 1) s1 _ _ _ _ R1) as R2. set (s2 := set _ s1) in R2.
  exists (set (set_lock LK_ITABLE free_lock (view s2)) s2). split; [by apply ready_initlock|]. split; [|done].
  split; apply lockable_set_lock; [right; split; [apply (rl_lk R2)|done]|left]. apply lockable_set_lock. right. split; [apply (rl_lk R1)|done].
Qed.

Lemma demo_addr f inum type size a bn :
  0 <= bn < MAXFILE → addr_of f (demo_inode inum type size a) bn = if bn =? 0 then a else 0.
Proof.
  intros Hb. unfold addr_of, demo_inode. cbn [i_addrs]. destruct (Z.ltb_spec bn NDIRECT) as [Hd|Hd].
  - destruct (Z.eqb_spec bn 0) as [->|Hn]; [done|]. destruct (Z.to_nat bn) as [|k] eqn:E; [lia|]. cbn [nth].
    rewrite nth_lookup. destruct (replicate 12 0 !! k) eqn:Er; [by apply lookup_replicate in Er as [-> _]|done].
  - unfold indirect. cbn. destruct (Z.eqb_spec bn 0); [unfold NDIRECT in *; lia|done].
Qed.

(** The file system on top: [W] is the block of the free map. *)
Lemma demo_fs : ∃ s : fsys lst, ready (f_b s) [] [] [33] 20 ∧ f_sb s = demo_sb ∧ f_itab s = demo_itab ∧
  lockable LK_ITABLE (view (f_b s)) ∧ layout s ∧ (∀ m, is_bmap (f_sb s) m → m ∈ [33]) ∧
  (∀ b, 0 <= b < 64 → used s b = (b <? 36)) ∧ (∀ m, 32 <= m < 64 → lb (f_b s) m = dread fs_disk m) ∧
  (∀ m, 34 <= m < 36 → owned s m) ∧ lockable (LK_INODE 1) (view (f_b s)).
Proof.
  destruct demo_open as (b & R & [Hl Hl1] & Hp & Hlb). exists (mkFs b demo_sb demo_itab 0). cbn [f_b f_sb f_itab].
  assert (∀ c, 0 <= c < 64 → BBLOCK c demo_sb = 33) as Hbb.
  { intros c Hc. unfold BBLOCK. rewrite Z.div_small by (unfold BPB, BSIZE; lia). done. }
  assert (∀ m, is_bmap demo_sb m → m = 33) as Hbm. { intros m (c & Hc & ->). by apply Hbb. }
  assert (∀ m, is_iblock demo_sb m → m = 32) as Hib.
  { intros m (c & Hc & ->). unfold IBLOCK. rewrite Z.div_small by (unfold IPB; simpl in Hc; lia). done. }
  assert (∀ m, 32 <= m < 64 → lb b m = dread fs_disk m) as Hlb'. { intros m Hm. apply Hlb, Hp. lia. }
  set (s := mkFs b demo_sb demo_itab 0).
  assert (∀ c, 0 <= c < 64 → used s c = (c <? 36)) as Hu.
  { intros c Hc. unfold used. cbn [f_b f_sb s]. rewrite Hbb, Hlb', fs_dread by lia. rewrite Z.mod_small by (unfold BPB, BSIZE; lia). by apply demo_bits. }
  assert (∀ n, n <> 32 → ¬ is_iblock demo_sb n) as Hni by (intros n Hn Hx; by apply Hn, Hib).
  assert (∀ n, n <> 33 → ¬ is_bmap demo_sb n) as Hnb by (intros n Hn Hx; by apply Hn, Hbm).
  split_and!; try done.
  - split; cbn [f_b f_sb s].
    + done.
    + done.
    + intros n ->%Hbm. apply Hp. lia.
    + intros n ->%Hib. apply Hp. lia.
    + intros n ->%Hbm. apply Hni. lia.
    + intros c Hc Hf. simpl in Hc. rewrite Hu in Hf by lia. split_and!; [lia|apply Hp; lia|apply Hnb; lia|apply Hni; lia].
  - intros m ->%Hbm. by left.
  - intros m Hm. unfold owned. cbn [f_b f_sb s]. rewrite Hu by lia. simpl. split_and!; [lia|lia|lia|lia|apply Hp; lia|apply Hnb; lia|apply Hni; lia].
Qed.

Section Demo.
Context (s : fsys lst).
Hypotheses (Esb : f_sb s = demo_sb) (Eit : f_itab s = demo_itab) (L : layout s)
  (Hu : ∀ b, 0 <= b < 64 → used s b = (b <? 36)) (Ho : ∀ m, 34 <= m < 36 → owned s m)
  (Hlb : ∀ m, 32 <= m < 64 → lb (f_b s) m = dread fs_disk m).
Abbreviation flb s := (lb (f_b s)).

Lemma demo_file_ok inum type size a :
  0 <= inum < 16 → 0 <= size <= 1024 → 34 <= a < 36 → file_ok s (demo_inode inum type size a).
Proof.
  intros Hi Hs Ha. split; cbn [i_addrs i_dev i_inum i_size demo_inode]; try done.
  - by rewrite Esb.
  - unfold MAXFILE, NDIRECT, NINDIRECT, BSIZE. lia.
  - intros bn Hb. rewrite demo_addr by done. case_match; [|done]. intros _. by apply Ho.
  - intros bn bn' Hb Hb'. rewrite !demo_addr by done. repeat case_match; lia.
Qed.

Lemma demo_solid inum type size a : 0 <= size <= 1024 → a ≠ 0 → solid (flb s) (demo_inode inum type size a).
Proof.
  intros Hs Ha i Hi. cbn in Hi. rewrite demo_addr by (unfold MAXFILE, NDIRECT, NINDIRECT, BSIZE; rewrite Z.div_small; lia).
  by rewrite Z.div_small by (unfold BSIZE; lia).
Qed.

Lemma demo_room k : (k <= 20)%nat → room s k.
Proof.
  intros Hk. unfold room. assert (seqZ 36 20 ⊆+ free_blocks s) as Hs%submseteq_length.
  { apply NoDup_submseteq; [apply NoDup_seqZ|]. intros c Hc%elem_of_seqZ. apply list_elem_of_filter.
    rewrite Esb, Hu by lia. split; [lia|]. apply elem_of_seqZ. simpl. lia. }
  rewrite length_seqZ in Hs. lia.
Qed.

Lemma demo_ino0 : inode_at (f_itab s) 0 = demo_inode 1 T_DIR 16 34.
Proof. by rewrite Eit. Qed.

Lemma demo_ino1 : inode_at (f_itab s) 1 = demo_inode 2 T_FILE 5 35.
Proof. by rewrite Eit. Qed.

Lemma demo_dir_ok : dir_ok s 0.
Proof.
  split; rewrite demo_ino0; [by apply demo_file_ok|by apply demo_solid|done|done].
Qed.

Lemma demo_dirent : dirent_at (flb s) (inode_at (f_itab s) 0) 0 = sub demo_dirblock 0 16.
Proof.
  unfold dirent_at. rewrite demo_ino0. change (16 * 0) with 0. rewrite <- (block_bytes _ _ 0 16 34); try done.
  - rewrite Hlb by lia. by rewrite fs_dread.
  - rewrite Hlb by lia. apply fs_dread_len.
Qed.

Lemma demo_find name : dir_find (flb s) (inode_at (f_itab s) 0) name = if namecmp name (de_name (sub demo_dirblock 0 16)) =? 0 then Some (0, 1) else None.
Proof.
  unfold dir_find, entries. rewrite demo_ino0 at 1. change (Z.to_nat (i_size (demo_inode 1 T_DIR 16 34) / 16)) with 1%nat.
  cbn [first_entry]. unfold matches. rewrite demo_dirent. change (de_inum (sub demo_dirblock 0 16)) with 1. simpl negb. simpl andb.
  destruct (_ =? 0); [|done]. change (Some (16 * 0, de_inum (dirent_at (flb s) (inode_at (f_itab s) 0) 0)) = Some (0, 1)). by rewrite demo_dirent.
Qed.

Lemma demo_link : link_at s 0 = 16.
Proof.
  unfold link_at, entries. rewrite demo_ino0 at 1 2. change (Z.to_nat (i_size (demo_inode 1 T_DIR 16 34) / 16)) with 1%nat.
  cbn [first_entry]. rewrite demo_dirent. change (free_entry (sub demo_dirblock 0 16)) with false. done.
Qed.

Lemma demo_itab_ok : itab_ok demo_itab.
Proof.
  assert (∀ ip, inode_at demo_itab ip = if ip =? 0 then demo_inode 1 T_DIR 16 34 else if ip =? 1 then demo_inode 2 T_FILE 5 35 else inode0) as E.
  { intros ip. unfold demo_itab. rewrite inode_at_insert. destruct (Z.eqb_spec ip 0); case_decide; try done.
    unfold inode_at. destruct (Z.eqb_spec ip 1) as [->|]; [done|]. by rewrite lookup_singleton_ne. }
  split.
  - intros ip _. rewrite E. repeat case_match; done.
  - intros ip jp _ _. rewrite !E. repeat case_match; try done; lia.
Qed.
End Demo.

Lemma writei_correct_witness :
  ∃ (s : fsys lst * list Z) W, wp (writei from_buffer 1 0 5 3) (λ v s', v = 3 ∧ written 1 5 [1; 2; 3] s.1 s'.1 ∧
    ∃ W' r', ready (f_b s'.1) [] [] W' r' ∧ (17 <= r')%nat ∧ W ⊆ W') s.
Proof.
  destruct demo_fs as (s & R & Esb & Eit & Hl & L & HW & Hu & Hlb & Ho & _). exists (s, [1; 2; 3]), [33].
  apply (writei_correct (B := lst) (fsys lst * list Z) from_buffer _ 1 0 5 [1; 2; 3] (s, [1; 2; 3]) [33] 17 buffer_source); try done;
    cbn [view with_buffer fst].
  - rewrite (demo_ino1 s Eit). by apply demo_file_ok.
  - rewrite (demo_ino1 s Eit). done.
  - by apply demo_room; [..|vm_compute; lia].
Defined.

Lemma write_read_roundtrip_witness :
  ∃ s : fsys lst, i_size (inode_at (f_itab s) 1) = 5 ∧
  wp (let! _ := writei_buf 1 5 [1; 2; 3] in readi_buf 1 3 100)
    (λ rb s',
      rb.1 = (let size := Z.max (i_size (inode_at (f_itab s) 1)) 8 in if size <? 3 then 0 else Z.min 100 (size - 3)) ∧
      Z.of_nat (length rb.2) = rb.1 ∧
      ∀ i, 0 <= i < rb.1 →
        nth (Z.to_nat i) rb.2 0 =
          if decide (5 <= 3 + i < 8) then nth (Z.to_nat (3 + i - 5)) [1; 2; 3] 0
          else fbyte (lb (f_b s)) (inode_at (f_itab s) 1) (3 + i)) s.
Proof.
  destruct demo_fs as (s & R & Esb & Eit & Hl & L & HW & Hu & Hlb & Ho & _). exists s. split; [by rewrite (demo_ino1 s Eit)|].
  apply (write_read_roundtrip (B := lst) 1 5 [1; 2; 3] 3 100 s [33] 17); try done.
  - rewrite (demo_ino1 s Eit). by apply demo_file_ok.
  - rewrite (demo_ino1 s Eit). by apply demo_solid.
  - rewrite (demo_ino1 s Eit). done.
  - by apply demo_room; [..|vm_compute; lia].
Defined.

Lemma dirlink_correct_witness :
  ∃ s : fsys lst, wp (dirlink 0 [97] 2) (λ v s', v = 0 ∧ linked_in 0 [97] 2 s s' ∧ written 0 (link_at s 0) (mk_dirent 2 [97]) s s') s.
Proof.
  destruct demo_fs as (s & R & Esb & Eit & Hl & L & HW & Hu & Hlb & Ho & _). exists s.
  apply (dirlink_correct (B := lst) 0 [97] 2 s [33] 17); try done.
  - by apply demo_dir_ok.
  - rewrite (demo_find s) by done. vm_compute. reflexivity.
  - rewrite (demo_link s) by done. vm_compute. discriminate.
  - by apply demo_room; [..|lia].
Defined.

Lemma demo_can_iget (s : fsys lst) inum :
  f_itab s = demo_itab → lockable LK_ITABLE (view (f_b s)) → refs demo_itab ROOTDEV inum < 2 ^ 31 - 1 → can_iget s inum.
Proof.
  intros E Hl Hr. unfold can_iget. rewrite E. split_and!; [done|apply demo_itab_ok|done|]. exists 2. split; [unfold entry, NINODE; lia|by right].
Qed.

Lemma dirlookup_correct_witness :
  ∃ s : fsys lst, dir_find (lb (f_b s)) (inode_at (f_itab s) 0) [46] = Some (0, 1) ∧
    wp (dirlookup 0 [46]) (looked_up s (dir_find (lb (f_b s)) (inode_at (f_itab s) 0) [46]) [33] 20) s.
Proof.
  destruct demo_fs as (s & R & Esb & Eit & Hl & L & HW & Hu & Hlb & Ho & _). exists s.
  assert (dir_find (lb (f_b s)) (inode_at (f_itab s) 0) [46] = Some (0, 1)) as Ef.
  { rewrite (demo_find s) by done. vm_compute. reflexivity. }
  split; [exact Ef|]. apply (dirlookup_correct (B := lst) 0 [46] s [33] 20); [by apply demo_dir_ok|exact R|].
  rewrite Ef. intros off inum [= <- <-]. apply demo_can_iget; [done|done|]. vm_compute. reflexivity.
Defined.

Lemma balloc_correct_witness :
  ∃ s : fsys lst, wp (balloc ROOTDEV) (λ b s', ready (f_b s') [] [] [b; 33] 19 ∧ allocated b s s' ∧ ∀ c, 0 <= c < b → used s c = true) s.
Proof.
  destruct demo_fs as (s & R & Esb & Eit & Hl & L & HW & Hu & Hlb & Ho & _). exists s.
  apply (balloc_correct (B := lst) s [] [33] 19); try done.
  - exists 36. rewrite Hu, Esb by lia. done.
  - intros n Hn. by apply elem_of_nil in Hn.
  - simpl. lia.
Defined.

Lemma iget_correct_witness :
  ∃ s : fsys lst, wp (iget ROOTDEV 1) (λ ip s', entry ip ∧ is_entry (f_itab s') ROOTDEV 1 ip ∧ ready (f_b s') [] [] [33] 20 ∧ same_blocks s s' ∧
    recounted ROOTDEV 1 1 s s' ∧ (∀ jp, jp ≠ ip → inode_at (f_itab s') jp = inode_at (f_itab s) jp) ∧
    (is_entry (f_itab s) ROOTDEV 1 ip ∧ inode_at (f_itab s') ip = set_ref (i_ref (inode_at (f_itab s) ip) + 1) (inode_at (f_itab s) ip) ∨
     refs (f_itab s) ROOTDEV 1 = 0 ∧ i_ref (inode_at (f_itab s') ip) = 1 ∧ i_valid (inode_at (f_itab s') ip) = 0)) s.
Proof.
  destruct demo_fs as (s & R & Esb & Eit & Hl & L & HW & Hu & Hlb & Ho & _). exists s.
  apply (iget_correct (B := lst) ROOTDEV 1 s [] [33] 20); [exact Hl|exact R|rewrite Eit; apply demo_itab_ok|rewrite Eit; vm_compute; reflexivity|].
  exists 0. split; [unfold entry, NINODE; lia|]. left. unfold is_entry. by rewrite (demo_ino0 s Eit).
Defined.
