(* ===== verification/Proc.v ===== *)
(** * Processes and the scheduler (kernel/proc.c)

    The process table on top of user memory ([Uvm]).  A [struct proc *] is an
    index of the table.  What proc.c uses of the files is the interface
    [FileOps], and [swtch] is [Switch]: a thread that gives the processor away
    comes back in the state the others have left. *)

From S2P Require Import Prelude Riscv Mem Random Spinlock Kalloc Pagetable Uvm Block.

Definition NPROC : nat := 64.
Definition NOFILE : nat := 16.

Inductive procstate := UNUSED | USED | SLEEPING | RUNNABLE | RUNNING | ZOMBIE.

#[export] Instance procstate_eq_dec : EqDecision procstate.
Proof. solve_decision. Defined.

(** [struct context]: [ra], [sp] and the callee-saved registers. *)
Record context := mkContext { ctx_ra : Z; ctx_sp : Z; ctx_s : list Z }.

(** What a process sleeps on: the address of an object of the kernel. *)
Abbreviation chan := (string * Z)%type.

Record proc := mkProc {
  p_state : procstate;
  p_chan : option chan;
  p_killed : Z;
  p_xstate : Z;
  p_pid : Z;
  p_tickets : Z;
  p_ticks : Z;
  p_parent : option Z;
  p_kstack : Z;
  p_uvm : uvm;
  p_trapframe : Z;
  p_context : context;
  p_ofile : list (option Z);       (* struct file *, an index of the file table *)
  p_cwd : option Z;                (* struct inode *, an index of the inode table *)
  p_name : list Z
}.

Definition context0 : context := mkContext 0 0 (replicate 12 0).
Definition proc0 : proc :=
  mkProc UNUSED None 0 0 0 0 0 None 0 uvm0 0 context0 (replicate NOFILE None) None (replicate 16 0).

(** The state: user memory and the files behind it, the process table, and
    the variables of proc.c. *)
Record kst (K : Type) := mkKst {
  k_u : ust K; k_procs : gmap Z proc; k_nextpid : Z; k_initproc : option Z; k_first : Z
}.
Arguments mkKst {K}. Arguments k_u {K}. Arguments k_procs {K}. Arguments k_nextpid {K}. Arguments k_initproc {K}. Arguments k_first {K}.

#[export] Program Instance kst_u {K} : Lens (kst K) (ust K) := {|
  view := k_u; set u s := mkKst u (k_procs s) (k_nextpid s) (k_initproc s) (k_first s) |}.
Next Obligation. done. Qed.
Next Obligation. by intros ? []. Qed.
Next Obligation. done. Qed.

#[export] Program Instance kst_lk {K} : Lens (kst K) lockst := {|
  view s := m_lk (u_m (k_u s)); set l s := set (set l (k_u s)) s |}.
Next Obligation. done. Qed.
Next Obligation. by intros ? [[[]]]. Qed.
Next Obligation. done. Qed.

#[export] Program Instance kst_machine {K} : Lens (kst K) machine := {|
  view s := u_m (k_u s); set m s := set (set m (k_u s)) s |}.
Next Obligation. done. Qed.
Next Obligation. by intros ? [[]]. Qed.
Next Obligation. done. Qed.

(** What proc.c uses of file.c and fs.c, and of trap.c. *)
Class FileOps (K : Type) := {
  filedup : Z → M (kst K) Z;
  fileclose : Z → M (kst K) unit;
  namei_root : M (kst K) (option Z);    (* namei("/") *)
  fsinit_root : M (kst K) unit          (* fsinit(ROOTDEV) *)
}.
(** [usertrapret] ends in a call of [userret] in the trampoline: its arguments. *)
Class TrapOps (K : Type) := { usertrapret : M (kst K) (Z * Z) }.

(** [swtch]: [swtch_out p] gives the processor to the scheduler until process
    [p] is scheduled again; [swtch_in p] runs process [p] until it does so. *)
Class Switch (K : Type) := {
  swtch_out : Z → M (kst K) unit;
  swtch_in : Z → M (kst K) unit
}.

Definition LK_PID : lockid := ("nextpid"%string, 0).
Definition LK_WAIT : lockid := ("wait_lock"%string, 0).
Definition LK_PROC (i : Z) : lockid := ("proc"%string, i).
(** The address of entry [i] of the table, as a channel. *)
Definition PROC (i : Z) : chan := ("proc"%string, i).

Definition proc_at (t : gmap Z proc) (i : Z) : proc := default proc0 (t !! i).

Definition set_pstate (v : procstate) (p : proc) : proc :=
  mkProc v (p_chan p) (p_killed p) (p_xstate p) (p_pid p) (p_tickets p) (p_ticks p) (p_parent p) (p_kstack p) (p_uvm p)
    (p_trapframe p) (p_context p) (p_ofile p) (p_cwd p) (p_name p).
Definition set_pchan (v : option chan) (p : proc) : proc :=
  mkProc (p_state p) v (p_killed p) (p_xstate p) (p_pid p) (p_tickets p) (p_ticks p) (p_parent p) (p_kstack p) (p_uvm p)
    (p_trapframe p) (p_context p) (p_ofile p) (p_cwd p) (p_name p).
Definition set_pkilled (v : Z) (p : proc) : proc :=
  mkProc (p_state p) (p_chan p) v (p_xstate p) (p_pid p) (p_tickets p) (p_ticks p) (p_parent p) (p_kstack p) (p_uvm p)
    (p_trapframe p) (p_context p) (p_ofile p) (p_cwd p) (p_name p).
Definition set_pxstate (v : Z) (p : proc) : proc :=
  mkProc (p_state p) (p_chan p) (p_killed p) v (p_pid p) (p_tickets p) (p_ticks p) (p_parent p) (p_kstack p) (p_uvm p)
    (p_trapframe p) (p_context p) (p_ofile p) (p_cwd p) (p_name p).
Definition set_ppid (v : Z) (p : proc) : proc :=
  mkProc (p_state p) (p_chan p) (p_killed p) (p_xstate p) v (p_tickets p) (p_ticks p) (p_parent p) (p_kstack p) (p_uvm p)
    (p_trapframe p) (p_context p) (p_ofile p) (p_cwd p) (p_name p).
Definition set_ptickets (v : Z) (p : proc) : proc :=
  mkProc (p_state p) (p_chan p) (p_killed p) (p_xstate p) (p_pid p) v (p_ticks p) (p_parent p) (p_kstack p) (p_uvm p)
    (p_trapframe p) (p_context p) (p_ofile p) (p_cwd p) (p_name p).
Definition set_pticks (v : Z) (p : proc) : proc :=
  mkProc (p_state p) (p_chan p) (p_killed p) (p_xstate p) (p_pid p) (p_tickets p) v (p_parent p) (p_kstack p) (p_uvm p)
    (p_trapframe p) (p_context p) (p_ofile p) (p_cwd p) (p_name p).
Definition set_pparent (v : option Z) (p : proc) : proc :=
  mkProc (p_state p) (p_chan p) (p_killed p) (p_xstate p) (p_pid p) (p_tickets p) (p_ticks p) v (p_kstack p) (p_uvm p)
    (p_trapframe p) (p_context p) (p_ofile p) (p_cwd p) (p_name p).
Definition set_pkstack (v : Z) (p : proc) : proc :=
  mkProc (p_state p) (p_chan p) (p_killed p) (p_xstate p) (p_pid p) (p_tickets p) (p_ticks p) (p_parent p) v (p_uvm p)
    (p_trapframe p) (p_context p) (p_ofile p) (p_cwd p) (p_name p).
Definition set_puvm (v : uvm) (p : proc) : proc :=
  mkProc (p_state p) (p_chan p) (p_killed p) (p_xstate p) (p_pid p) (p_tickets p) (p_ticks p) (p_parent p) (p_kstack p) v
    (p_trapframe p) (p_context p) (p_ofile p) (p_cwd p) (p_name p).
Definition set_ptrapframe (v : Z) (p : proc) : proc :=
  mkProc (p_state p) (p_chan p) (p_killed p) (p_xstate p) (p_pid p) (p_tickets p) (p_ticks p) (p_parent p) (p_kstack p) (p_uvm p)
    v (p_context p) (p_ofile p) (p_cwd p) (p_name p).
Definition set_pcontext (v : context) (p : proc) : proc :=
  mkProc (p_state p) (p_chan p) (p_killed p) (p_xstate p) (p_pid p) (p_tickets p) (p_ticks p) (p_parent p) (p_kstack p) (p_uvm p)
    (p_trapframe p) v (p_ofile p) (p_cwd p) (p_name p).
Definition set_pofile (i : nat) (v : option Z) (p : proc) : proc :=
  mkProc (p_state p) (p_chan p) (p_killed p) (p_xstate p) (p_pid p) (p_tickets p) (p_ticks p) (p_parent p) (p_kstack p) (p_uvm p)
    (p_trapframe p) (p_context p) (<[i := v]> (p_ofile p)) (p_cwd p) (p_name p).
Definition set_pcwd (v : option Z) (p : proc) : proc :=
  mkProc (p_state p) (p_chan p) (p_killed p) (p_xstate p) (p_pid p) (p_tickets p) (p_ticks p) (p_parent p) (p_kstack p) (p_uvm p)
    (p_trapframe p) (p_context p) (p_ofile p) v (p_name p).
Definition set_pname (v : list Z) (p : proc) : proc :=
  mkProc (p_state p) (p_chan p) (p_killed p) (p_xstate p) (p_pid p) (p_tickets p) (p_ticks p) (p_parent p) (p_kstack p) (p_uvm p)
    (p_trapframe p) (p_context p) (p_ofile p) (p_cwd p) v.

(** [safestrcpy(name, t, n + 1)] into an array: what is stored from its start. *)
Fixpoint safestrcpy_bytes (n : nat) (t : list Z) : list Z :=
  match n with
  | O => [0]
  | S n' => let c := hd 0 t in if truthy c then c :: safestrcpy_bytes n' (tl t) else [0; 0]
  end.
Definition safestrcpy_name (name t : list Z) : list Z := splice name 0 (safestrcpy_bytes 15 t).

(** The offsets of the registers in [struct trapframe], and its size. *)
Abbreviation TF_EPC := 24.
Abbreviation TF_SP := 48.
Abbreviation TF_A0 := 112.
Abbreviation TF_SIZE := 288.

(** The first program: it calls [exec("/init")]. *)
Definition initcode : list Z :=
  [0x17; 0x05; 0x00; 0x00; 0x13; 0x05; 0x45; 0x02; 0x97;
   0x05; 0x00; 0x00; 0x93; 0x85; 0x35; 0x02; 0x93; 0x08;
   0x70; 0x00; 0x73; 0x00; 0x00; 0x00; 0x93; 0x08; 0x20;
   0x00; 0x73; 0x00; 0x00; 0x00; 0xef; 0xf0; 0x9f; 0xff;
   0x2f; 0x69; 0x6e; 0x69; 0x74; 0x00; 0x00; 0x24; 0x00;
   0x00; 0x00; 0x00; 0x00; 0x00; 0x00; 0x00].

Section Code.
Context {K : Type} `{InodeOps K} `{Linker} `{FileOps K} `{TrapOps K} `{Switch K}.
(** The addresses of the kernel's code that proc.c stores. *)
Variable forkret_addr : Z.

Abbreviation P := (M (kst K)).

Definition getp {A} (f : proc → A) (i : Z) : P A := gets (λ s, f (proc_at (k_procs s) i)).
Definition setp (i : Z) (f : proc → proc) : P unit :=
  modify (λ s, mkKst (k_u s) (<[i := f (proc_at (k_procs s) i)]> (k_procs s)) (k_nextpid s) (k_initproc s) (k_first s)).
Definition set_nextpid (v : Z) : P unit := modify (λ s, mkKst (k_u s) (k_procs s) v (k_initproc s) (k_first s)).
Definition set_initproc (v : option Z) : P unit := modify (λ s, mkKst (k_u s) (k_procs s) (k_nextpid s) v (k_first s)).
Definition set_first (v : Z) : P unit := modify (λ s, mkKst (k_u s) (k_procs s) (k_nextpid s) (k_initproc s) v).

Definition procinit : P unit :=
  zoom uvminit ;;
  zoom (initlock LK_PID) ;;
  zoom (initlock LK_WAIT) ;;
  let! _ := for_ (R := unit) NPROC 0 1 (λ i,
    zoom (initlock (LK_PROC i)) ;;
    setp i (set_pkstack (KSTACK i)) ;;
    ret None) in
  ret tt.

Definition cpuinit : M lockst unit :=
  let! c := mycpu in
  set_mycpu (mkCpu (c_proc c) (srand 12345) (noff c) (intena c)).

Definition myproc : M lockst (option Z) :=
  push_off ;;
  let! c := mycpu in
  pop_off ;;
  ret (c_proc c).

(** [myproc()] where the code uses it as a process. *)
Definition me : P Z :=
  let! p := zoom myproc in
  match p with Some i => ret i | None => undef end.

Definition allocpid : P Z :=
  zoom (acquire LK_PID) ;;
  let! pid := gets k_nextpid in
  let! n := as_int (pid + 1) in
  set_nextpid n ;;
  zoom (release LK_PID) ;;
  ret pid.

Definition freeproc (i : Z) : P unit :=
  let! tf := getp p_trapframe i in
  (if truthy tf then zoom (T := machine) (kfree tf) else ret tt) ;;
  setp i (set_ptrapframe 0) ;;
  let! u := getp p_uvm i in
  if existsb (λ v, bool_decide (is_Some v)) (uvm_vma u) then panic "freeproc: remaining vma"
  else
    setp i (set_ppid 0) ;;
    setp i (set_pparent None) ;;
    setp i (λ p, set_pname (<[0%nat := 0]> (p_name p)) p) ;;
    setp i (set_pchan None) ;;
    setp i (set_pkilled 0) ;;
    setp i (set_pxstate 0) ;;
    setp i (set_pstate UNUSED).

(** The search: answers with the lock of the entry held. *)
Definition find_unused_proc : P (option Z) :=
  for_ NPROC 0 1 (λ i,
    zoom (acquire (LK_PROC i)) ;;
    let! st := getp p_state i in
    if bool_decide (st = UNUSED) then ret (Some i)
    else zoom (release (LK_PROC i)) ;; ret None).

(** [uvm_new] failing is followed by the rest of the function, as in the
    source. *)
Definition allocproc : P (option Z) :=
  let! r := find_unused_proc in
  match r with
  | None => ret None
  | Some i =>
      let! pid := allocpid in
      setp i (set_ppid pid) ;;
      setp i (set_pstate USED) ;;
      setp i (set_pticks 0) ;;
      let! tf := zoom (T := machine) kalloc in
      setp i (set_ptrapframe tf) ;;
      if tf =? 0 then
        freeproc i ;;
        zoom (release (LK_PROC i)) ;;
        ret None
      else
        let! ru := zoom (T := machine) (uvm_new tf) in
        setp i (set_puvm ru.2) ;;
        (if truthy ru.1 then freeproc i ;; zoom (release (LK_PROC i)) else ret tt) ;;
        setp i (λ p, set_pcontext (mkContext forkret_addr (p_kstack p + PGSIZE) (replicate 12 0)) p) ;;
        ret (Some i)
  end.

Definition store_tf (tf off v : Z) : P unit := zoom (T := machine) (memory_op (λ m, st 8 m (tf + off) v)).

Definition userinit : P unit :=
  let! r := allocproc in
  set_initproc r ;;
  match r with
  | None => undef
  | Some i =>
      let! u := getp p_uvm i in
      let! u' := zoom (T := ust K) (code2uvm u initcode) in
      setp i (set_puvm u') ;;
      let! tf := getp p_trapframe i in
      store_tf tf TF_EPC 0 ;;
      store_tf tf TF_SP PGSIZE ;;
      setp i (λ p, set_pname (safestrcpy_name (p_name p) [105; 110; 105; 116; 99; 111; 100; 101]) p) ;;
      let! ip := namei_root in
      setp i (set_pcwd ip) ;;
      setp i (set_ptickets 1) ;;
      setp i (set_pstate RUNNABLE) ;;
      zoom (release (LK_PROC i))
  end.

(** [for (i = 0; i < NOFILE; i++)] of [fork]. *)
Definition dup_files (p np : Z) : P unit :=
  let! _ := for_ (R := unit) NOFILE 0 1 (λ i,
    let! l := getp p_ofile p in
    match nth (Z.to_nat i) l None with
    | Some f =>
        let! f' := filedup f in
        setp np (set_pofile (Z.to_nat i) (Some f')) ;;
        ret None
    | None => ret None
    end) in
  ret tt.

Definition fork : P Z :=
  let! p := me in
  let! r := allocproc in
  match r with
  | None => ret (-1)
  | Some np =>
      let! pu := getp p_uvm p in
      let! nu := getp p_uvm np in
      let! ru := zoom (T := ust K) (uvm_dup pu nu) in
      setp np (set_puvm ru.2) ;;
      if truthy ru.1 then
        freeproc np ;;
        zoom (release (LK_PROC np)) ;;
        ret (-1)
      else
        let! ptf := getp p_trapframe p in
        let! ntf := getp p_trapframe np in
        zoom (T := machine) (memory_op (λ m, memmove m ntf ptf TF_SIZE)) ;;
        store_tf ntf TF_A0 0 ;;
        dup_files p np ;;
        let! cwd := getp p_cwd p in
        let! ip := match cwd with Some ip => zoom (T := ust K) (idup ip) | None => undef end in
        setp np (set_pcwd (Some ip)) ;;
        let! t := getp p_tickets p in
        setp np (set_ptickets t) ;;
        let! name := getp p_name p in
        setp np (λ q, set_pname (safestrcpy_name (p_name q) name) q) ;;
        let! pid := getp p_pid np in
        zoom (release (LK_PROC np)) ;;
        zoom (acquire LK_WAIT) ;;
        setp np (set_pparent (Some p)) ;;
        zoom (release LK_WAIT) ;;
        zoom (acquire (LK_PROC np)) ;;
        setp np (set_pstate RUNNABLE) ;;
        zoom (release (LK_PROC np)) ;;
        ret pid
  end.

Definition wakeup (c : chan) : P unit :=
  let! _ := for_ (R := unit) NPROC 0 1 (λ i,
    let! m := zoom myproc in
    if bool_decide (Some i = m) then ret None
    else
      zoom (acquire (LK_PROC i)) ;;
      let! p := getp id i in
      (if bool_decide (p_state p = SLEEPING) && bool_decide (p_chan p = Some c) then setp i (set_pstate RUNNABLE) else ret tt) ;;
      zoom (release (LK_PROC i)) ;;
      ret None) in
  ret tt.

(** [wakeup] of a process, or of the null pointer. *)
Definition wakeup_proc (p : option Z) : P unit :=
  wakeup (match p with Some i => PROC i | None => ("null"%string, 0) end).

Definition reparent (p : Z) : P unit :=
  let! _ := for_ (R := unit) NPROC 0 1 (λ i,
    let! par := getp p_parent i in
    if bool_decide (par = Some p) then
      let! ip := gets k_initproc in
      setp i (set_pparent ip) ;;
      wakeup_proc ip ;;
      ret None
    else ret None) in
  ret tt.

Definition sched : P unit :=
  let! p := me in
  let! h := zoom (holding (LK_PROC p)) in
  if negb h then panic "sched p->lock"
  else
    let! c := zoom mycpu in
    if negb (noff c =? 1) then panic "sched locks"
    else
      let! st := getp p_state p in
      if bool_decide (st = RUNNING) then panic "sched running"
      else
        let! on := zoom intr_get in
        if (on : bool) then panic "sched interruptible"
        else
          let! c := zoom mycpu in
          swtch_out p ;;
          let! c' := zoom mycpu in
          zoom (set_mycpu (mkCpu (c_proc c') (c_rng c') (noff c') (intena c))).

Definition yield : P unit :=
  let! p := me in
  zoom (acquire (LK_PROC p)) ;;
  setp p (set_pstate RUNNABLE) ;;
  sched ;;
  zoom (release (LK_PROC p)).

Definition sleep (c : chan) (lk : lockid) : P unit :=
  let! p := me in
  zoom (acquire (LK_PROC p)) ;;
  zoom (release lk) ;;
  setp p (set_pchan (Some c)) ;;
  setp p (set_pstate SLEEPING) ;;
  sched ;;
  setp p (set_pchan None) ;;
  zoom (release (LK_PROC p)) ;;
  zoom (acquire lk).

(** The first part of [exit]: files, memory and directory. *)
Definition exit_release (p : Z) : P unit :=
  let! _ := for_ (R := unit) NOFILE 0 1 (λ fd,
    let! l := getp p_ofile p in
    match nth (Z.to_nat fd) l None with
    | Some f => fileclose f ;; setp p (set_pofile (Z.to_nat fd) None) ;; ret None
    | None => ret None
    end) in
  let! u := getp p_uvm p in
  let! u' := zoom (T := ust K) (uvm_free u) in
  setp p (set_puvm u') ;;
  zoom (T := ust K) begin_op ;;
  let! cwd := getp p_cwd p in
  match cwd with Some ip => zoom (T := ust K) (iput ip) | None => undef end ;;
  zoom (T := ust K) end_op ;;
  setp p (set_pcwd None).

(** The second part: the process becomes a zombie. *)
Definition exit_zombie (p status : Z) : P unit :=
  zoom (acquire LK_WAIT) ;;
  reparent p ;;
  let! par := getp p_parent p in
  wakeup_proc par ;;
  zoom (acquire (LK_PROC p)) ;;
  setp p (set_pxstate status) ;;
  setp p (set_pstate ZOMBIE) ;;
  zoom (release LK_WAIT) ;;
  sched ;;
  panic "zombie exit".

Definition exit (status : Z) : P unit :=
  let! p := me in
  let! ip := gets k_initproc in
  if bool_decide (Some p = ip) then panic "init exiting"
  else exit_release p ;; exit_zombie p status.

(** The scan of [wait] from entry [i] on: an answer, or [havekids]. *)
Fixpoint wait_scan (n : nat) (i p addr : Z) (havekids : bool) : P (Z + bool) :=
  match n with
  | O => ret (inr havekids)
  | S n' =>
      let! par := getp p_parent i in
      if bool_decide (par = Some p) then
        zoom (acquire (LK_PROC i)) ;;
        let! np := getp id i in
        if bool_decide (p_state np = ZOMBIE) then
          let! u := getp p_uvm p in
          let! c := (if truthy addr then zoom (T := ust K) (copyout u addr (le 4 (p_xstate np))) else ret 0) in
          if c <? 0 then
            zoom (release (LK_PROC i)) ;; zoom (release LK_WAIT) ;; ret (inl (-1))
          else
            freeproc i ;; zoom (release (LK_PROC i)) ;; zoom (release LK_WAIT) ;; ret (inl (p_pid np))
        else zoom (release (LK_PROC i)) ;; wait_scan n' (i + 1) p addr true
      else wait_scan n' (i + 1) p addr havekids
  end.

(** [for (;;)]: every turn of [fuel] but the last ends in [sleep]. *)
Fixpoint wait_loop (fuel : nat) (p addr : Z) : P Z :=
  match fuel with
  | O => hang
  | S fuel' =>
      let! r := wait_scan NPROC 0 p addr false in
      match r with
      | inl v => ret v
      | inr havekids =>
          let! k := getp p_killed p in
          if negb havekids || truthy k then zoom (release LK_WAIT) ;; ret (-1)
          else sleep (PROC p) LK_WAIT ;; wait_loop fuel' p addr
      end
  end.

Definition wait (fuel : nat) (addr : Z) : P Z :=
  let! p := me in
  zoom (acquire LK_WAIT) ;;
  wait_loop fuel p addr.

(** *** The lottery *)

(** [tickets_partial_sums] from index [i + 1] on; the sums are [int]s. *)
Fixpoint sum_tickets (n : nat) (i acc : Z) : P (list Z) :=
  match n with
  | O => ret []
  | S n' =>
      zoom (acquire (LK_PROC i)) ;;
      let! p := getp id i in
      let! acc' := (if bool_decide (p_state p = RUNNABLE) then as_int (acc + p_tickets p) else ret acc) in
      zoom (release (LK_PROC i)) ;;
      let! l := sum_tickets n' (i + 1) acc' in
      ret (acc' :: l)
  end.

(** [while (hi - lo > 1)]. *)
Fixpoint bsearch (fuel : nat) (sums : list Z) (w lo hi : Z) : Z :=
  match fuel with
  | O => lo
  | S fuel' =>
      if 1 <? hi - lo then
        let med := (lo + hi) / 2 in
        if w <? nth (Z.to_nat med) sums 0 then bsearch fuel' sums w lo med else bsearch fuel' sums w med hi
      else lo
  end.

(** The process that holds ticket [w]. *)
Definition winner (sums : list Z) (w : Z) : Z := bsearch 7 sums w 0 (Z.of_nat NPROC).

(** [rand(&c->rng)]. *)
Definition cpu_rand : M lockst Z :=
  let! c := mycpu in
  let '(v, r) := rand (c_rng c) in
  set_mycpu (mkCpu (c_proc c) r (noff c) (intena c)) ;;
  ret v.
Definition set_cproc (p : option Z) : M lockst unit :=
  let! c := mycpu in
  set_mycpu (mkCpu p (c_rng c) (noff c) (intena c)).

(** Give the processor to [p], if it still can run. *)
Definition run_proc (p : Z) : P unit :=
  zoom (acquire (LK_PROC p)) ;;
  let! q := getp id p in
  (if bool_decide (p_state q = RUNNABLE) then
     setp p (set_pstate RUNNING) ;;
     setp p (set_pticks (u32 (p_ticks q + 1))) ;;
     zoom (set_cproc (Some p)) ;;
     swtch_in p ;;
     zoom (set_cproc None)
   else ret tt) ;;
  zoom (release (LK_PROC p)).

(** One turn of the [for (;;)] of [scheduler]. *)
Definition scheduler_round : P unit :=
  zoom intr_on ;;
  let! l := sum_tickets NPROC 0 0 in
  let sums := 0 :: l in
  let total := nth NPROC sums 0 in
  if total =? 0 then ret tt
  else
    let! r := zoom cpu_rand in
    run_proc (winner sums (s32 (r mod u32 total))).

(** [scheduler] never returns. *)
Fixpoint scheduler_loop (fuel : nat) : P unit :=
  match fuel with
  | O => hang
  | S fuel' => scheduler_round ;; scheduler_loop fuel'
  end.
Definition scheduler (fuel : nat) : P unit :=
  zoom (set_cproc None) ;; scheduler_loop fuel.

(** *** The rest *)

Definition forkret : P (Z * Z) :=
  let! p := me in
  zoom (release (LK_PROC p)) ;;
  let! first := gets k_first in
  (if truthy first then set_first 0 ;; fsinit_root else ret tt) ;;
  usertrapret.

Definition kill (pid : Z) : P Z :=
  let! r := for_ NPROC 0 1 (λ i,
    zoom (acquire (LK_PROC i)) ;;
    let! p := getp id i in
    if p_pid p =? pid then
      setp i (set_pkilled 1) ;;
      (if bool_decide (p_state p = SLEEPING) then setp i (set_pstate RUNNABLE) else ret tt) ;;
      zoom (release (LK_PROC i)) ;;
      ret (Some 0)
    else zoom (release (LK_PROC i)) ;; ret None) in
  ret (default (-1) r).

(** The kernel buffer is the list of its bytes; a kernel address is a physical
    one. *)
Definition either_copyout (user_dst dst : Z) (src : list Z) : P Z :=
  let! p := me in
  if truthy user_dst then
    let! u := getp p_uvm p in
    zoom (T := ust K) (copyout u dst src)
  else
    zoom (T := machine) (memory_op (λ m, put_bytes m dst src)) ;;
    ret 0.

Definition either_copyin (user_src src len : Z) : P (Z * list Z) :=
  let! p := me in
  if truthy user_src then
    let! u := getp p_uvm p in
    zoom (T := ust K) (copyin u src len)
  else
    let! bs := zoom (T := machine) (gets (λ m, get_bytes (m_mem m) src (Z.to_nat len))) in
    ret (0, bs).
End Code.
