(* ===== verification/Lottery.v ===== *)
(** * The lottery (kernel/proc.c: scheduler)

    The binary search over the partial sums finds the process that holds the
    winning ticket, and every process holds as many winning tickets as it has
    tickets. *)

From Stdlib Require Import ZifyBool.
From S2P Require Import Prelude Random Spinlock Proc.

#[local] Ltac Zify.zify_post_hook ::= Z.to_euclidean_division_equations.

(** Partial sums of the weights. *)
Fixpoint psums (acc : Z) (ws : list Z) : list Z :=
  match ws with [] => [] | x :: ws' => (acc + x) :: psums (acc + x) ws' end.

Definition total (ws : list Z) : Z := foldr Z.add 0 ws.

Lemma length_psums acc ws : length (psums acc ws) = length ws.
Proof. revert acc. induction ws; intros acc; simpl; auto. Qed.

Lemma psums_nth acc ws i :
  (i <= length ws)%nat → nth i (acc :: psums acc ws) 0 = acc + total (take i ws).
Proof.
  revert acc i. induction ws as [|x ws IH]; intros acc i Hi; destruct i as [|i]; simpl in *; try lia.
  specialize (IH (acc + x) i ltac:(lia)). simpl in IH. unfold total in *. simpl. lia.
Qed.

Lemma total_app l k : total (l ++ k) = total l + total k.
Proof. unfold total. induction l; simpl; lia. Qed.

Lemma total_nonneg l : Forall (λ x, 0 <= x) l → 0 <= total l.
Proof. unfold total. induction 1; simpl; lia. Qed.

Lemma take_S_total ws i x : ws !! i = Some x → total (take (S i) ws) = total (take i ws) + x.
Proof. intros E. rewrite (take_S_r _ _ x E), total_app. unfold total. simpl. lia. Qed.

Section Search.
Variables (sums : list Z) (w : Z).
Abbreviation at_ i := (nth (Z.to_nat i) sums 0).

(** The search needs no order: it keeps [sums[lo] <= w < sums[hi]]. *)
Lemma bsearch_spec fuel lo hi :
  0 <= lo < hi → hi - lo <= 2 ^ Z.of_nat fuel → at_ lo <= w < at_ hi →
  let i := bsearch fuel sums w lo hi in lo <= i < hi ∧ at_ i <= w < at_ (i + 1).
Proof.
  revert lo hi. induction fuel as [|fuel IH]; intros lo hi Hlh Hf Hw; cbn [bsearch].
  - change (2 ^ Z.of_nat 0) with 1 in Hf. replace (lo + 1) with hi by lia. split; [lia|done].
  - rewrite Nat2Z.inj_succ, Z.pow_succ_r in Hf by lia. set (p := 2 ^ Z.of_nat fuel) in *.
    destruct (Z.ltb_spec 1 (hi - lo)); [|replace (lo + 1) with hi by lia; split; [lia|done]]. cbv zeta.
    set (med := (lo + hi) / 2). assert (lo < med < hi ∧ med - lo <= p ∧ hi - med <= p) as (Hm & H1 & H2) by (subst med; lia).
    destruct (Z.ltb_spec w (at_ med)); [destruct (IH lo med)|destruct (IH med hi)]; lia || done || (split; [lia|done]).
Qed.
End Search.

(** The weights of a table, and the draw. *)
Definition draw (ws : list Z) (w : Z) : Z := winner (0 :: psums 0 ws) w.

Section Draw.
Variable ws : list Z.
Hypotheses (Hlen : length ws = NPROC) (Hpos : Forall (λ x, 0 <= x) ws).

Definition before (i : Z) : Z := total (take (Z.to_nat i) ws).

Lemma sums_at i : 0 <= i <= Z.of_nat NPROC → nth (Z.to_nat i) (0 :: psums 0 ws) 0 = before i.
Proof. intros Hi. rewrite psums_nth by lia. done. Qed.

Lemma draw_spec w : 0 <= w < total ws → 0 <= draw ws w < Z.of_nat NPROC ∧ before (draw ws w) <= w < before (draw ws w + 1).
Proof.
  intros Hw. pose proof (bsearch_spec (0 :: psums 0 ws) w 7 0 (Z.of_nat NPROC)) as Hs.
  assert (before (Z.of_nat NPROC) = total ws) as Et. { unfold before. rewrite Nat2Z.id, <- Hlen, firstn_all. done. }
  assert (before 0 = 0) as E0 by done. unfold NPROC in *.
  destruct Hs as (H1 & H2); [lia|done|rewrite !sums_at, Et, E0 by (unfold NPROC; lia); lia|].
  unfold draw, winner in *. unfold NPROC in *. split; [done|]. rewrite !sums_at in H2 by (unfold NPROC; lia). done.
Qed.

Lemma before_step i x : ws !! i = Some x → before (Z.of_nat i + 1) = before (Z.of_nat i) + x.
Proof.
  intros E. unfold before. replace (Z.to_nat (Z.of_nat i + 1)) with (S i) by lia. rewrite Nat2Z.id. by apply take_S_total.
Qed.

Lemma before_mono i j : 0 <= i <= j → before i <= before j.
Proof.
  intros Hij. unfold before. replace (take (Z.to_nat i) ws) with (take (Z.to_nat i) (take (Z.to_nat j) ws)) by (rewrite take_take; f_equal; lia).
  set (l := take (Z.to_nat j) ws). rewrite <- (take_drop (Z.to_nat i) l) at 2. rewrite total_app.
  assert (0 <= total (drop (Z.to_nat i) l)); [|lia]. apply total_nonneg. by apply Forall_drop, Forall_take.
Qed.

(** The winning tickets of process [i] are those of its interval. *)
Lemma draw_iff w i : 0 <= w < total ws → 0 <= i < Z.of_nat NPROC → draw ws w = i ↔ before i <= w < before (i + 1).
Proof.
  intros Hw Hi. destruct (draw_spec w Hw) as (H1 & H2). split; [by intros <-|]. intros H3.
  destruct (decide (draw ws w < i)).
  { assert (before (draw ws w + 1) <= before i) by (apply before_mono; lia). lia. }
  destruct (decide (i < draw ws w)).
  { assert (before (i + 1) <= before (draw ws w)) by (apply before_mono; lia). lia. }
  lia.
Qed.

(** The tickets are numbered through, process by process: [i] holds number [w]. *)
Definition holds (w i : Z) : Prop := 0 <= i < Z.of_nat NPROC ∧ before i <= w < before (i + 1).

Lemma draw_holds w i : 0 <= w < total ws → holds w i ↔ i = draw ws w.
Proof.
  intros Hw. destruct (draw_spec w Hw) as (H1 & H2). split; [|by intros ->]. intros [Hi Hb]. symmetry. by apply draw_iff.
Qed.

Lemma count_interval (P : Z → Prop) `{!∀ w, Decision (P w)} n a b :
  0 <= a <= b → b <= Z.of_nat n → (∀ w, 0 <= w < Z.of_nat n → P w ↔ a <= w < b) →
  Z.of_nat (length (filter P (seqZ 0 (Z.of_nat n)))) = b - a.
Proof.
  intros Ha Hb HP. assert (filter P (seqZ 0 (Z.of_nat n)) ≡ₚ seqZ a (b - a)) as ->; [|rewrite length_seqZ; lia].
  apply NoDup_Permutation; [apply NoDup_filter, NoDup_seqZ|apply NoDup_seqZ|]. intros w.
  rewrite list_elem_of_filter, !elem_of_seqZ. split.
  - intros [H1 H2]. apply HP in H1; lia.
  - intros Hr. split; [apply HP; lia|lia].
Qed.

(** As many winning tickets as tickets. *)
Lemma draw_count i x :
  ws !! i = Some x → Z.of_nat (length (filter (λ w, draw ws w = Z.of_nat i) (seqZ 0 (total ws)))) = x.
Proof.
  intros E. pose proof (lookup_lt_Some _ _ _ E) as Hi. pose proof (total_nonneg ws Hpos) as Ht.
  pose proof (before_step i x E) as Hst. rewrite <- (Z2Nat.id (total ws)) by done.
  assert (before (Z.of_nat i + 1) <= total ws) as Hle.
  { assert (total ws = before (Z.of_nat NPROC)) as -> by (unfold before; rewrite Nat2Z.id, <- Hlen, firstn_all; done). apply before_mono. lia. }
  pose proof (before_mono 0 (Z.of_nat i) ltac:(lia)) as H0. change (before 0) with 0 in H0.
  pose proof (before_mono (Z.of_nat i) (Z.of_nat i + 1) ltac:(lia)) as H1.
  rewrite (count_interval _ (Z.to_nat (total ws)) (before (Z.of_nat i)) (before (Z.of_nat i + 1))); [lia|lia|lia|].
  intros w Hw. apply draw_iff; lia.
Qed.
End Draw.
