(* ===== verification/ProcSpec.v ===== *)
(** * The process table (kernel/proc.c: scheduler, wakeup, kill)

    The functional behaviour of the operations that act on the table under
    the locks of its entries. *)

From Stdlib Require Import ZifyBool.
From S2P Require Import Prelude Riscv Mem Random Spinlock Kalloc Pagetable Uvm Block Proc Lottery.

(** ** Lock states *)

(** The hart's own [struct cpu] changed. *)
Definition with_cpu (f : cpu → cpu) (l : lockst) : lockst :=
  set_cpus (alter f (Z.to_nat (tp l)) (cpus l)) l.

#[export] Instance with_cpu_proper f : Proper (cpu_eqv ==> cpu_eqv) f → Proper ((≡) ==> (≡)) (with_cpu f).
Proof.
  intros Hf l l' [E1 E2 E3 E4]. split; try done. simpl. rewrite E1. apply Forall2_alter; [done|]. intros x y _ _ Hxy. by apply Hf.
Qed.

Definition cpu_cproc (p : option Z) (c : cpu) : cpu := mkCpu p (c_rng c) (noff c) (intena c).
Definition cpu_rng (r : rng) (c : cpu) : cpu := mkCpu (c_proc c) r (noff c) (intena c).

#[export] Instance cpu_cproc_proper p : Proper (cpu_eqv ==> cpu_eqv) (cpu_cproc p).
Proof. intros c c' (E1 & E2 & E3 & E4). by split_and!. Qed.

Lemma alter_insert_own f l c :
  cpus l !! Z.to_nat (tp l) = Some c → set_cpus (<[Z.to_nat (tp l) := f c]> (cpus l)) l = with_cpu f l.
Proof.
  intros E. unfold with_cpu. f_equal. revert E. generalize (Z.to_nat (tp l)). induction (cpus l) as [|x k IH]; intros [|i] E; simpl; try done.
  - by injection E as ->.
  - f_equal. by apply IH.
Qed.

Lemma mycpu_ex l : hart_ok l → ∃ c, cpus l !! Z.to_nat (tp l) = Some c ∧ mycpu l = Ok (c, l).
Proof. intros (H0 & c & Hc & _). exists c. split; [done|]. by apply mycpu_run. Qed.

Lemma set_cproc_run p l : hart_ok l → set_cproc p l = Ok (tt, with_cpu (cpu_cproc p) l).
Proof.
  intros Hh. destruct (mycpu_ex l Hh) as (c & Hc & E). unfold set_cproc, bind. rewrite E. unfold set_mycpu, modify.
  by rewrite <- (alter_insert_own _ l c).
Qed.

Lemma with_cpu_hart f l : (∀ c, noff (f c) = noff c) → hart_ok l → hart_ok (with_cpu f l).
Proof.
  intros Hf (H0 & c & Hc & Hn & Hs). split; [done|]. exists (f c). simpl. rewrite list_lookup_alter_eq, Hc. by rewrite Hf.
Qed.

Lemma with_cpu_lock f l id : lock_of (with_cpu f l) id = lock_of l id.
Proof. done. Qed.

Definition cpu_enter (on : bool) (c : cpu) : cpu :=
  mkCpu (c_proc c) (c_rng c) (noff c + 1) (if noff c =? 0 then on else intena c).

Lemma enter_with l : hart_ok l → enter l = with_cpu (cpu_enter (sie l)) (set_sie false l).
Proof.
  intros (_ & c & Hc & _). unfold enter. rewrite Hc. by rewrite <- (alter_insert_own _ (set_sie false l) c).
Qed.

Lemma with_with f g l : with_cpu f (with_cpu g l) = with_cpu (f ∘ g) l.
Proof. unfold with_cpu. cbn [set_cpus cpus tp]. by rewrite list_alter_alter_eq. Qed.

Lemma with_cpu_ext f g l : (∀ c, f c = g c) → with_cpu f l = with_cpu g l.
Proof.
  intros E. unfold with_cpu. f_equal. generalize (Z.to_nat (tp l)). induction (cpus l) as [|x k IH]; intros [|i]; simpl; try done.
  - by rewrite E.
  - f_equal. apply IH.
Qed.

Lemma acquired_cproc p id l : hart_ok l → with_cpu (cpu_cproc p) (acquired id l) = acquired id (with_cpu (cpu_cproc p) l).
Proof.
  intros Hh. unfold acquired. rewrite !enter_with by (try apply with_cpu_hart; done).
  change (set_sie false (with_cpu (cpu_cproc p) l)) with (with_cpu (cpu_cproc p) (set_sie false l)). rewrite with_with.
  change (with_cpu (cpu_cproc p) (set_lock id (mkSpinlock 1 (Some (tp l))) (with_cpu (cpu_enter (sie l)) (set_sie false l)))) with
    (set_lock id (mkSpinlock 1 (Some (tp l))) (with_cpu (cpu_cproc p) (with_cpu (cpu_enter (sie l)) (set_sie false l)))).
  by rewrite with_with.
Qed.

#[export] Instance acquired_proper id : Proper ((≡) ==> (≡)) (acquired id).
Proof.
  intros l l' [E1 E2 E3 E4]. unfold acquired. rewrite E1.
  assert (enter l ≡ enter l') as [F1 F2 F3 F4].
  { unfold enter. rewrite E1. destruct (cpus l !! Z.to_nat (tp l')) as [c|] eqn:Ec.
    - pose proof (Forall2_lookup_l _ _ _ _ _ E3 Ec) as (c' & Ec' & (Q1 & Q2 & Q3 & Q4)). rewrite Ec'. split; try done. simpl.
      apply Forall2_insert; [done|]. split_and!; simpl; try done; [lia|]. intros Hp. rewrite Q3, E2.
      destruct (Z.eqb_spec (noff c') 0); [done|]. apply Q4. lia.
    - assert (cpus l' !! Z.to_nat (tp l') = None) as ->; [|by split].
      apply lookup_ge_None. apply lookup_ge_None in Ec. by rewrite <- (Forall2_length _ _ _ E3). }
  split; try done. intros id'. rewrite !lock_of_set. by case_decide.
Qed.

Lemma pop_off_run l : hart_ok l → ∃ l', pop_off (enter l) = Ok (tt, l') ∧ l' ≡ l.
Proof.
  intros (H0 & c & Hc & Hn & Hs). set (c' := mkCpu (c_proc c) (c_rng c) (noff c + 1) (if noff c =? 0 then sie l else intena c)).
  assert (enter l = set_cpus (<[Z.to_nat (tp l) := c']> (cpus l)) (set_sie false l)) as E by (unfold enter; by rewrite Hc).
  rewrite E. set (l1 := set_cpus _ _). assert (cpus l1 !! Z.to_nat (tp l1) = Some c') as Hc1.
  { simpl. apply list_lookup_insert_eq. by eapply lookup_lt_Some. }
  unfold pop_off, bind. rewrite (mycpu_run l1 c') by done. unfold intr_get, gets. simpl sie. cbv iota beta.
  rewrite (proj2 (Z.ltb_ge _ 1)) by (simpl; lia). unfold set_mycpu, modify.
  set (l2 := set_cpus (<[Z.to_nat (tp l1) := mkCpu (c_proc c') (c_rng c') (noff c' - 1) (intena c')]> (cpus l1)) l1).
  set (b := (noff c' - 1 =? 0) && intena c').
  exists (if b then set_sie true l2 else l2). split; [by destruct b|].
  assert (Forall2 cpu_eqv (cpus l2) (cpus l)) as Hf.
  { simpl. rewrite list_insert_insert_eq. rewrite <- (list_insert_id (cpus l) _ _ Hc) at 2. apply Forall2_insert; [reflexivity|].
    split_and!; simpl; try done; [lia|]. intros Hp. destruct (Z.eqb_spec (noff c) 0); [lia|done]. }
  assert (sie (if b then set_sie true l2 else l2) = sie l) as Hsie.
  { unfold b. simpl. destruct (Z.eqb_spec (noff c) 0) as [En|En].
    - rewrite (proj2 (Z.eqb_eq _ 0)) by lia. simpl. by destruct (sie l).
    - rewrite (proj2 (Z.eqb_neq _ 0)) by lia. simpl. rewrite Hs by lia. done. }
  split; [by destruct b|done|by destruct b|by destruct b].
Qed.

Section Table.
Context {K : Type} `{!InodeOps K} `{!Linker} `{!FileOps K} `{!Switch K}.
Abbreviation P := (M (kst K)).
Abbreviation pr s i := (proc_at (k_procs s) i).

(** Only the lock state differs, and not as far as locks go. *)
Definition relocked (s s' : kst K) : Prop := ∃ lk, lk ≡ view s ∧ s' = set lk s.

Lemma relocked_refl s : relocked s s.
Proof. exists (view s). by rewrite set_view. Qed.

Lemma relocked_trans s1 s2 s3 : relocked s1 s2 → relocked s2 s3 → relocked s1 s3.
Proof.
  intros (l1 & E1 & ->) (l2 & E2 & ->). rewrite view_set in E2. exists l2. split; [by rewrite E2|]. by rewrite set_set.
Qed.

Lemma relocked_view s s' : relocked s s' → (view s' : lockst) ≡ view s.
Proof. intros (l & E & ->). by rewrite view_set. Qed.

Lemma relocked_procs s s' : relocked s s' → k_procs s' = k_procs s.
Proof. by intros (l & _ & ->). Qed.

Definition slot (i : Z) : Prop := 0 <= i < Z.of_nat NPROC.
Definition plocks (s : kst K) : Prop := ∀ i, slot i → lockable (LK_PROC i) (view s).

Lemma plocks_proper s s' : (view s' : lockst) ≡ view s → plocks s → plocks s'.
Proof. intros E Hl i Hi. rewrite E. by apply Hl. Qed.

(** The entry [i] became [p], and nothing else changed. *)
Definition put_proc (i : Z) (p : proc) (s : kst K) : kst K :=
  mkKst (k_u s) (<[i := p]> (k_procs s)) (k_nextpid s) (k_initproc s) (k_first s).

Lemma wp_setp i f Q s : Q tt (put_proc i (f (pr s i)) s) → wp (setp i f) Q s.
Proof. intros HQ. by apply wp_modify. Qed.

Lemma proc_at_insert t i p j : proc_at (<[i := p]> t) j = if decide (j = i) then p else proc_at t j.
Proof. unfold proc_at. case_decide as E; [by rewrite E, lookup_insert_eq|]. by rewrite lookup_insert_ne. Qed.

(** Leaving the lock of an entry. *)
Lemma release_proc i (s s1 : kst K) (Q : unit → kst K → Prop) :
  lockable (LK_PROC i) (view s) → view s1 = acquired (LK_PROC i) (view s) →
  (∀ lk, lk ≡ view s → Q tt (set lk s1)) → wp (zoom (release (LK_PROC i))) Q s1.
Proof. intros Hl E HQ. apply (wp_release _ (view s)); [done|by rewrite E|done]. Qed.

(** ** The scheduler *)

Definition weight (p : proc) : Z := if bool_decide (p_state p = RUNNABLE) then p_tickets p else 0.
Definition weights (s : kst K) : list Z := (λ i, weight (pr s i)) <$> seqZ 0 (Z.of_nat NPROC).

Lemma sum_tickets_spec n i acc s :
  plocks s → 0 <= i → i + Z.of_nat n <= Z.of_nat NPROC → (∀ j, slot j → 0 <= weight (pr s j)) → 0 <= acc →
  acc + total ((λ j, weight (pr s j)) <$> seqZ i (Z.of_nat n)) < 2 ^ 31 →
  wp (sum_tickets n i acc) (λ l s', l = psums acc ((λ j, weight (pr s j)) <$> seqZ i (Z.of_nat n)) ∧ relocked s s') s.
Proof.
  revert i acc s. induction n as [|n IH]; intros i acc s Hl Hi Hn Hw Ha Ht.
  { apply wp_ret. split; [done|apply relocked_refl]. }
  assert (slot i) as Hsl by (unfold slot; lia). rewrite seqZ_cons, fmap_cons in * by lia. cbn [sum_tickets psums] in *.
  replace (Z.pred (Z.of_nat (S n))) with (Z.of_nat n) in * by lia.
  assert (0 <= total ((λ j, weight (pr s j)) <$> seqZ (Z.succ i) (Z.of_nat n))) as Hrest.
  { apply total_nonneg, Forall_fmap, Forall_forall. intros j Hj%elem_of_seqZ. apply Hw. unfold slot. lia. }
  unfold total in Ht. simpl in Ht. fold (total ((λ j, weight (pr s j)) <$> seqZ (Z.succ i) (Z.of_nat n))) in Ht.
  pose proof (Hw i Hsl) as Hwi. apply wp_bind, wp_acquire; [by apply Hl|]. apply wp_bind, wp_gets.
  set (s1 := set _ s). change (id (pr s1 i)) with (pr s i).
  eapply wp_step with (P := λ a s', a = acc + weight (pr s i) ∧ s' = s1).
  { unfold weight in *. destruct (bool_decide _); [apply wp_as_int; [lia|done]|apply wp_ret; split; [lia|done]]. }
  intros a s1' (-> & ->). apply wp_bind, (release_proc i s); [by apply Hl|done|]. intros lk Hlk.
  assert (relocked s (set lk s1)) as Hrel. { exists lk. split; [done|]. unfold s1. by rewrite set_set. }
  eapply wp_step; [apply (IH (i + 1) (acc + weight (pr s i)) (set lk s1))|].
  - eapply plocks_proper; [by apply relocked_view|done].
  - lia.
  - lia.
  - done.
  - lia.
  - replace (i + 1) with (Z.succ i) by lia. change (k_procs (set lk s1)) with (k_procs s). lia.
  - intros l s2 (-> & R2). apply wp_ret. split; [by replace (i + 1) with (Z.succ i) by lia|by eapply relocked_trans].
Qed.

(** The scheduler runs on a hart that holds no lock. *)
Record sched_ok (s : kst K) : Prop := {
  so_locks : ∀ i, slot i → lock_of (view s) (LK_PROC i) = free_lock;
  so_hart : 0 <= tp (view s);
  so_cpu : ∃ c, cpus (view s) !! Z.to_nat (tp (view s)) = Some c ∧ noff c = 0;
  so_tickets : ∀ i, slot i → 0 <= weight (pr s i);
  so_total : total (weights s) < 2 ^ 31
}.

(** The random numbers of the hart. *)
Definition next_rand (s : kst K) : Z * rng :=
  match cpus (view s) !! Z.to_nat (tp (view s)) with Some c => rand (c_rng c) | None => (0, srand 0) end.

(** The lock state in which the winner is looked for: interrupts are on and
    the generator has advanced. *)
Definition drawn (s : kst K) : lockst := with_cpu (cpu_rng (next_rand s).2) (set_sie true (view s)).

(** Process [i] was given the processor. *)
Definition dispatched (i : Z) (s s1 : kst K) : Prop :=
  k_procs s1 = <[i := set_pticks (u32 (p_ticks (pr s i) + 1)) (set_pstate RUNNING (pr s i))]> (k_procs s) ∧
  k_nextpid s1 = k_nextpid s ∧
  view s1 ≡ with_cpu (cpu_cproc (Some i)) (acquired (LK_PROC i) (drawn s)).

Lemma length_weights s : length (weights s) = NPROC.
Proof. unfold weights. by rewrite length_fmap, length_seqZ. Qed.

Lemma weights_at s i : slot i → weights s !! Z.to_nat i = Some (weight (pr s i)).
Proof.
  unfold slot. intros Hi. unfold weights. rewrite list_lookup_fmap, lookup_seqZ_lt by lia. simpl. by rewrite Z2Nat.id by lia.
Qed.

Lemma weights_pos s : sched_ok s → Forall (λ x, 0 <= x) (weights s).
Proof. intros O. apply Forall_fmap, Forall_forall. intros j Hj%elem_of_seqZ. apply (so_tickets _ O). unfold slot. lia. Qed.

Lemma weights_total s : sched_ok s → 0 <= total (weights s).
Proof. intros O. by apply total_nonneg, weights_pos. Qed.

Lemma draw_runnable s w :
  sched_ok s → 0 <= w < total (weights s) → slot (draw (weights s) w) ∧ p_state (pr s (draw (weights s) w)) = RUNNABLE.
Proof.
  intros O Hw. destruct (draw_spec (weights s) (length_weights s) w Hw) as (H1 & H2). split; [done|]. set (i := draw (weights s) w) in *.
  pose proof (weights_at s i H1) as E.
  assert (before (weights s) (Z.of_nat (Z.to_nat i) + 1) = before (weights s) (Z.of_nat (Z.to_nat i)) + weight (pr s i)) as Hb by (by apply before_step).
  replace (Z.of_nat (Z.to_nat i)) with i in Hb by lia.
  unfold weight in Hb. destruct (bool_decide_reflect (p_state (pr s i) = RUNNABLE)); [done|lia].
Qed.

Lemma drawn_ok s i : sched_ok s → slot i → lockable (LK_PROC i) (drawn s).
Proof.
  intros O Hi. destruct (so_cpu _ O) as (c & Hc & Hn). split; [|rewrite <- (so_locks _ O i Hi); done].
  apply with_cpu_hart; [done|]. split; [apply (so_hart _ O)|]. exists c. split; [done|]. lia.
Qed.

(** Back from process [i], which has kept its lock. *)
Definition came_back (i : Z) (s2 : kst K) : Prop :=
  ∃ l, lockable (LK_PROC i) l ∧ view s2 ≡ acquired (LK_PROC i) l.

Lemma run_proc_spec i s l R :
  lockable (LK_PROC i) l → view s ≡ l → p_state (pr s i) = RUNNABLE →
  (∀ s1, k_procs s1 = <[i := set_pticks (u32 (p_ticks (pr s i) + 1)) (set_pstate RUNNING (pr s i))]> (k_procs s) →
     k_nextpid s1 = k_nextpid s → view s1 ≡ with_cpu (cpu_cproc (Some i)) (acquired (LK_PROC i) l) →
     wp (swtch_in i) (λ _ s2, came_back i s2 ∧ R s2) s1) →
  wp (run_proc i) (λ _ s', ∃ s2 lk, R s2 ∧ came_back i s2 ∧ s' = set lk s2 ∧ lockable (LK_PROC i) lk) s.
Proof.
  intros Hl El Hst Hsw. unfold run_proc. apply wp_bind, wp_acquire; [by rewrite El|]. apply wp_bind, wp_gets.
  set (s0 := set (acquired (LK_PROC i) (view s)) s). change (id (pr s0 i)) with (pr s i). rewrite bool_decide_true by done.
  apply wp_bind. apply wp_bind, wp_setp. apply wp_bind, wp_setp. set (s1 := put_proc i _ _).
  assert (view s1 = acquired (LK_PROC i) (view s)) as Ev by done.
  assert (hart_ok (view s1)) as Hh1. { rewrite Ev. apply acquired_hart_ok. rewrite El. apply Hl. }
  apply wp_bind, wp_zoom. eapply (wp_eq _ tt); [by apply set_cproc_run|].
  eapply wp_step; [apply Hsw|].
  - unfold s1, put_proc, s0. cbn. rewrite proc_at_insert, decide_True by done. by rewrite insert_insert_eq.
  - done.
  - rewrite view_set, Ev, El. done.
  - intros _ s2 ((l2 & Hl2 & E2) & HR). apply wp_zoom. eapply (wp_eq _ tt); [apply set_cproc_run; rewrite E2; apply acquired_hart_ok, Hl2|].
    assert (lockable (LK_PROC i) (with_cpu (cpu_cproc None) l2)) as Hl3. { split; [apply with_cpu_hart; [done|apply Hl2]|apply Hl2]. }
    apply (wp_release _ (with_cpu (cpu_cproc None) l2)); [done|rewrite view_set, E2, acquired_cproc; [done|apply Hl2]|].
    intros lk Hlk. exists s2, lk. split_and!; [done|by exists l2|by rewrite set_set|by rewrite Hlk].
Qed.

#[export] Instance with_rng_proper r : Proper (cpu_eqv ==> cpu_eqv) (cpu_rng r).
Proof. intros c c' (E1 & E2 & E3 & E4). by split_and!. Qed.

Lemma cpu_rand_run (l : lockst) c :
  0 <= tp l → cpus l !! Z.to_nat (tp l) = Some c → cpu_rand l = Ok ((rand (c_rng c)).1, with_cpu (cpu_rng (rand (c_rng c)).2) l).
Proof.
  intros H0 Hc. unfold cpu_rand, bind. rewrite (mycpu_run l c) by done. destruct (rand (c_rng c)) as [v r]. unfold set_mycpu, modify. simpl.
  by rewrite <- (alter_insert_own _ l c).
Qed.

(** The winning ticket of the round. *)
Definition ticket (s : kst K) : Z := (next_rand s).1 mod total (weights s).

Lemma ticket_range s : sched_ok s → total (weights s) ≠ 0 → 0 <= ticket s < total (weights s).
Proof. intros O Hn. apply Z.mod_pos_bound. assert (0 <= total (weights s)); [by apply weights_total|lia]. Qed.

Lemma scheduler_round_spec s R :
  sched_ok s →
  (∀ s1, let i := draw (weights s) (ticket s) in total (weights s) ≠ 0 → dispatched i s s1 →
     wp (swtch_in i) (λ _ s2, came_back i s2 ∧ R s2) s1) →
  wp scheduler_round (λ _ s',
    (total (weights s) = 0 ∧ ∃ lk, lk ≡ set_sie true (view s) ∧ s' = set lk s) ∨
    (total (weights s) ≠ 0 ∧ let i := draw (weights s) (ticket s) in
     ∃ s2 lk, R s2 ∧ came_back i s2 ∧ s' = set lk s2 ∧ lockable (LK_PROC i) lk)) s.
Proof.
  intros O Hsw. destruct (so_cpu _ O) as (c & Hc & Hn). unfold scheduler_round. apply wp_bind, wp_zoom, wp_modify.
  set (s0 := set (set_sie true (view s)) s). assert (weights s0 = weights s) as Ew by done.
  assert (plocks s0) as Hpl.
  { intros i Hi. split; [|by apply (so_locks _ O)]. split; [apply (so_hart _ O)|]. exists c. split; [done|]. lia. }
  pose proof (so_total _ O) as Ht. pose proof (weights_pos s O) as Hpos.
  eapply wp_step; [apply (sum_tickets_spec NPROC 0 0 s0 Hpl); [lia|lia|apply (so_tickets _ O)|lia|done]|].
  intros l s1 (-> & R1). fold (weights s0). rewrite Ew.
  assert (nth NPROC (0 :: psums 0 (weights s)) 0 = total (weights s)) as Etot.
  { pose proof (length_weights s) as Hlen. rewrite psums_nth by lia. by rewrite take_ge by lia. }
  cbv zeta. rewrite Etot. destruct (Z.eqb_spec (total (weights s)) 0) as [E0|E0].
  { apply wp_ret. left. split; [done|]. destruct R1 as (lk & Elk & ->). exists lk. split; [done|]. unfold s0. by rewrite set_set. }
  pose proof (total_nonneg _ Hpos) as Hge. pose proof (relocked_view _ _ R1) as Ev1. destruct R1 as (lk1 & Elk1 & Es1).
  pose proof Ev1 as [V1 V2 V3 V4].
  assert (∃ c1, cpus (view s1) !! Z.to_nat (tp (view s1)) = Some c1 ∧ c_rng c1 = c_rng c) as (c1 & Hc1 & Erng).
  { destruct (Forall2_lookup_r _ _ _ _ _ V3 Hc) as (c1 & Hc1 & (_ & Er & _)). exists c1. rewrite V1. done. }
  apply wp_bind, wp_zoom. eapply (wp_eq _ (rand (c_rng c1)).1); [apply cpu_rand_run; [rewrite V1; apply (so_hart _ O)|done]|].
  rewrite Erng. assert (next_rand s = rand (c_rng c)) as Enr by (unfold next_rand; by rewrite Hc).
  assert (winner (0 :: psums 0 (weights s)) (s32 ((rand (c_rng c)).1 mod u32 (total (weights s)))) = draw (weights s) (ticket s)) as ->.
  { unfold draw, ticket. rewrite Enr, wrap_small by lia.
    pose proof (Z.mod_pos_bound (rand (c_rng c)).1 (total (weights s))). by rewrite swrap_small by lia. }
  destruct (draw_runnable s (ticket s) O) as (Hsl & Hrun).
  { unfold ticket. apply Z.mod_pos_bound. lia. }
  set (i := draw (weights s) (ticket s)) in *. set (s2 := set _ s1).
  assert (view s2 ≡ drawn s) as Ev2.
  { unfold s2, drawn. rewrite view_set, Enr, Ev1. done. }
  assert (k_procs s2 = k_procs s ∧ k_nextpid s2 = k_nextpid s) as [Ep2 En2] by (unfold s2; rewrite Es1; done).
  eapply wp_mono; [apply (run_proc_spec i s2 (drawn s) R); [by apply drawn_ok|done|by rewrite Ep2|]|].
  - rewrite Ep2, En2. intros s3 E3 N3 V. apply Hsw; [done|]. by split_and!.
  - intros [] s' Hs'. right. split; [done|]. exact Hs'.
Qed.

(** ** [wakeup] and [kill] *)

Lemma myproc_run (l : lockst) : hart_ok l → ∃ c l', cpus l !! Z.to_nat (tp l) = Some c ∧ myproc l = Ok (c_proc c, l') ∧ l' ≡ l.
Proof.
  intros Hh. destruct (pop_off_run l Hh) as (l' & E & Hl'). pose proof Hh as (H0 & c & Hc & _). exists c, l'. split_and!; [done| |done].
  unfold myproc, bind. rewrite push_off_run by done.
  assert (cpus (enter l) !! Z.to_nat (tp (enter l)) = Some (mkCpu (c_proc c) (c_rng c) (noff c + 1) (if noff c =? 0 then sie l else intena c))) as Ec.
  { rewrite enter_tp. unfold enter. rewrite Hc. simpl. apply list_lookup_insert_eq. by eapply lookup_lt_Some. }
  rewrite (mycpu_run _ _ ltac:(by rewrite enter_tp) Ec), E. done.
Qed.

(** The process the hart runs. *)
Definition current (l : lockst) : option Z :=
  match cpus l !! Z.to_nat (tp l) with Some c => c_proc c | None => None end.

Definition woken (m : option Z) (c : chan) (i : Z) (p : proc) : proc :=
  if bool_decide (Some i ≠ m) && bool_decide (p_state p = SLEEPING) && bool_decide (p_chan p = Some c) then set_pstate RUNNABLE p else p.

(** Every entry [i] is [f i]; but for the lock state, nothing else changed. *)
Record upd (f : Z → proc) (s s' : kst K) : Prop := {
  up_lk : (view s' : lockst) ≡ view s;
  up_u : k_u s' = set (view s' : lockst) (k_u s);
  up_nextpid : k_nextpid s' = k_nextpid s;
  up_init : k_initproc s' = k_initproc s;
  up_first : k_first s' = k_first s;
  up_procs : ∀ i, pr s' i = f i
}.

Lemma set_own (u : ust K) : set (m_lk (u_m u)) u = u.
Proof. by destruct u as [[]]. Qed.

Lemma upd_id s f : (∀ i, f i = pr s i) → upd f s s.
Proof. intros E. split; try done; by symmetry; apply set_own. Qed.

Lemma upd_relocked f s s1 s2 : upd f s s1 → relocked s1 s2 → upd f s s2.
Proof.
  intros [U1 U2 U3 U4 U5 U6] (lk & E & ->). split; try done; [by rewrite view_set, E|]. cbn. rewrite U2. done.
Qed.

Lemma upd_put f g s s1 i :
  upd f s s1 → (∀ j, j ≠ i → g j = f j) → upd g s (put_proc i (g i) s1).
Proof.
  intros [U1 U2 U3 U4 U5 U6] E. split; try done. intros j. cbn [put_proc k_procs]. rewrite proc_at_insert.
  case_decide; [by subst|]. by rewrite E.
Qed.

Lemma upd_ext f g s s' : upd f s s' → (∀ i, g i = f i) → upd g s s'.
Proof. intros [U1 U2 U3 U4 U5 U6] E. split; try done. intros i. by rewrite E. Qed.

Lemma current_proper (l l' : lockst) : l ≡ l' → current l = current l'.
Proof.
  intros [E1 E2 E3 E4]. unfold current. rewrite E1. destruct (cpus l !! _) as [c|] eqn:Ec.
  - destruct (Forall2_lookup_l _ _ _ _ _ E3 Ec) as (c' & -> & (-> & _)). done.
  - assert (cpus l' !! Z.to_nat (tp l') = None) as ->; [|done].
    apply lookup_ge_None. apply lookup_ge_None in Ec. by rewrite <- (Forall2_length _ _ _ E3).
Qed.

Lemma wp_myproc (s : kst K) Q : hart_ok (view s) → (∀ s', relocked s s' → Q (current (view s)) s') → wp (zoom myproc) Q s.
Proof.
  intros Hh HQ. destruct (myproc_run (view s) Hh) as (c & l & Hc & E & Hl). apply wp_zoom. eapply wp_eq; [exact E|].
  replace (c_proc c) with (current (view s)) by (unfold current; by rewrite Hc). apply HQ. by exists l.
Qed.

Lemma plocks_hart s : plocks s → hart_ok (view s).
Proof. intros Hl. apply (Hl 0). unfold slot, NPROC. lia. Qed.

Lemma current_acquired id l : hart_ok l → current (acquired id l) = current l.
Proof.
  intros Hh. unfold acquired. rewrite enter_with by done. destruct Hh as (_ & c & Hc & _).
  unfold current. cbn [set_lock with_cpu set_cpus set_sie cpus tp]. rewrite list_lookup_alter_eq, Hc. done.
Qed.

(** Leaving the critical section of entry [i], which may have become [g i]. *)
Lemma upd_release i f g s0 s s1 (Q : unit → kst K → Prop) :
  slot i → plocks s → upd f s0 s → (∀ j, j ≠ i → g j = f j) →
  s1 = put_proc i (g i) (set (acquired (LK_PROC i) (view s)) s) ∨ (g i = f i ∧ s1 = set (acquired (LK_PROC i) (view s)) s) →
  (∀ s', upd g s0 s' → Q tt s') → wp (zoom (release (LK_PROC i))) Q s1.
Proof.
  intros Hi Hl U Eg Hs1 HQ. apply (release_proc i s); [by apply Hl|by destruct Hs1 as [->|[_ ->]]|].
  intros lk Hlk. apply HQ. assert (relocked s (set lk s)) as R by (by exists lk). pose proof (upd_relocked _ _ _ _ U R) as U'.
  destruct Hs1 as [->|[E ->]].
  - assert (set lk (put_proc i (g i) (set (acquired (LK_PROC i) (view s)) s)) = put_proc i (g i) (set lk s)) as -> by done. by apply (upd_put f).
  - assert (set lk (set (acquired (LK_PROC i) (view s)) s) = set lk s) as -> by done. eapply upd_ext; [exact U'|].
    intros j. destruct (decide (j = i)) as [->|]; [done|by apply Eg].
Qed.

Definition after_wakeup (s : kst K) (c : chan) (n i : Z) : proc :=
  if decide (0 <= i < n) then woken (current (view s)) c i (pr s i) else pr s i.

Lemma wakeup_spec c s :
  plocks s → wp (wakeup c) (λ _ s', upd (after_wakeup s c (Z.of_nat NPROC)) s s') s.
Proof.
  intros Hl. unfold wakeup. set (m := current (view s)).
  eapply wp_step with (P := λ _ s', upd (after_wakeup s c (Z.of_nat NPROC)) s s'); [|by intros _ s' U; apply wp_ret].
  apply (wp_for (λ k s1, upd (after_wakeup s c (Z.of_nat k)) s s1)).
  - apply upd_id. intros i. unfold after_wakeup. by rewrite decide_False by lia.
  - intros k s1 Hk U. rewrite Z.mul_1_r, Z.add_0_l. set (i := Z.of_nat k). assert (slot i) as Hi by (unfold slot; lia).
    assert (plocks s1) as Hl1 by (eapply plocks_proper; [apply U|done]).
    apply wp_bind, wp_myproc; [by apply plocks_hart|]. intros s2 R2. rewrite (current_proper _ _ (up_lk _ _ _ U)). fold m.
    pose proof (upd_relocked _ _ _ _ U R2) as U2. assert (plocks s2) as Hl2 by (eapply plocks_proper; [apply U2|done]).
    set (f := after_wakeup s c (Z.of_nat k)) in *. set (g := after_wakeup s c (Z.of_nat (S k))).
    assert (∀ j, j ≠ i → g j = f j) as Eg. { intros j Hj. unfold g, f, after_wakeup. repeat case_decide; (done || lia). }
    assert (f i = pr s i ∧ g i = woken m c i (pr s i)) as [Ef Egi].
    { unfold g, f, after_wakeup. rewrite decide_False, decide_True by lia. done. }
    unfold woken in Egi. destruct (bool_decide_reflect (Some i = m)) as [Em|Em].
    { apply wp_ret. eapply upd_ext; [exact U2|]. intros j. destruct (decide (j = i)) as [->|]; [|by apply Eg].
      rewrite Egi, Ef, bool_decide_false; [done|]. intros Hc. by apply Hc. }
    rewrite (bool_decide_true (Some i ≠ m)) in Egi by done. simpl in Egi. pose proof (up_procs _ _ _ U2 i) as Epi. rewrite Ef in Epi.
    apply wp_bind, wp_acquire; [by apply Hl2|]. apply wp_bind, wp_gets. set (s3 := set _ s2).
    change (id (pr s3 i)) with (pr s2 i). rewrite Epi.
    destruct (bool_decide (p_state (pr s i) = SLEEPING) && bool_decide (p_chan (pr s i) = Some c)) eqn:Eb.
    + apply wp_bind, wp_setp. change (pr s3 i) with (pr s2 i). rewrite Epi. apply wp_bind.
      apply (upd_release i f g s s2); [done|done|done|done|left; by rewrite Egi|]. intros s' U'. by apply wp_ret.
    + apply wp_bind, wp_ret, wp_bind. apply (upd_release i f g s s2); [done|done|done|done|right; split; [congruence|done]|]. intros s' U'. by apply wp_ret.
  - intros s1 U. exact U.
Qed.

(** [kill]: the first entry with the pid, which is woken up. *)
Definition killed_proc (p : proc) : proc :=
  if bool_decide (p_state p = SLEEPING) then set_pstate RUNNABLE (set_pkilled 1 p) else set_pkilled 1 p.

Lemma kill_spec pid s :
  plocks s →
  wp (kill pid) (λ v s',
    (v = -1 ∧ (∀ i, slot i → p_pid (pr s i) ≠ pid) ∧ upd (λ i, pr s i) s s') ∨
    (∃ k, v = 0 ∧ slot k ∧ p_pid (pr s k) = pid ∧ (∀ i, 0 <= i < k → p_pid (pr s i) ≠ pid) ∧
       upd (λ i, if decide (i = k) then killed_proc (pr s k) else pr s i) s s')) s.
Proof.
  intros Hl. unfold kill.
  eapply wp_step with (P := λ r s', match r with
    | None => (∀ i, slot i → p_pid (pr s i) ≠ pid) ∧ upd (λ i, pr s i) s s'
    | Some v => ∃ k, v = 0 ∧ slot k ∧ p_pid (pr s k) = pid ∧ (∀ i, 0 <= i < k → p_pid (pr s i) ≠ pid) ∧
        upd (λ i, if decide (i = k) then killed_proc (pr s k) else pr s i) s s' end).
  2: { intros [v|] s' HP; apply wp_ret; [by right|]. left. by split. }
  apply (wp_for (λ k s1, (∀ i, 0 <= i < Z.of_nat k → p_pid (pr s i) ≠ pid) ∧ upd (λ i, pr s i) s s1)).
  - split; [lia|]. by apply upd_id.
  - intros k s1 Hk (Hno & U). rewrite Z.mul_1_r, Z.add_0_l. set (i := Z.of_nat k). assert (slot i) as Hi by (unfold slot; lia).
    assert (plocks s1) as Hl1 by (eapply plocks_proper; [apply U|done]). pose proof (up_procs _ _ _ U i) as Ei. cbv beta in Ei.
    apply wp_bind, wp_acquire; [by apply Hl1|]. apply wp_bind, wp_gets. set (s2 := set _ s1). change (id (pr s2 i)) with (pr s1 i). rewrite Ei.
    destruct (Z.eqb_spec (p_pid (pr s i)) pid) as [E|E].
    + apply wp_bind, wp_setp. change (pr s2 i) with (pr s1 i). rewrite Ei.
      set (g := λ j, if decide (j = i) then killed_proc (pr s i) else pr s j).
      assert (g i = killed_proc (pr s i)) as Eg by (unfold g; by rewrite decide_True).
      assert (∀ j, j ≠ i → g j = pr s j) as Ego by (intros j Hj; unfold g; by rewrite decide_False).
      unfold killed_proc in Eg. destruct (bool_decide (p_state (pr s i) = SLEEPING)).
      * apply wp_bind, wp_setp. cbn [put_proc k_procs]. rewrite proc_at_insert, decide_True by done. apply wp_bind.
        apply (upd_release i (λ j, pr s j) g s s1); [done|done|done|done| |].
        { left. rewrite Eg. unfold put_proc. cbn. by rewrite insert_insert_eq. }
        intros s' U'. apply wp_ret. exists i. done.
      * apply wp_bind, wp_ret, wp_bind. apply (upd_release i (λ j, pr s j) g s s1); [done|done|done|done|left; by rewrite Eg|].
        intros s' U'. apply wp_ret. exists i. done.
    + apply wp_bind. apply (upd_release i (λ j, pr s j) (λ j, pr s j) s s1); [done|done|done|done|by right|].
      intros s' U'. apply wp_ret. split; [|done]. intros j Hj. destruct (decide (j = i)) as [->|]; [done|]. apply Hno. lia.
  - intros s1 (Hno & U). split; [|done]. intros i Hi. apply Hno. unfold slot in Hi. lia.
Qed.
End Table.
