(* ===== verification/ProcProps.v ===== *)
(** * Properties of the process table, with witnesses *)

From S2P Require Import Prelude Riscv Mem Random Spinlock Kalloc Pagetable Uvm Block Proc Lottery ProcSpec.

Section Props.
Context {K : Type} `{!Switch K}.
Abbreviation pr s i := (proc_at (k_procs s) i).

(** C31 (functional).  The tickets of the RUNNABLE processes are numbered through,
    process by process.  A round of the scheduler draws one of the numbers and gives
    the processor to the one process that holds it: a process that is RUNNABLE, marked
    RUNNING with one more tick, its lock held and interrupts off.  Back from it, the
    lock is free again.  Without tickets the round changes nothing. *)
Theorem scheduler_round_correct (s : kst K) (R : Z → kst K → Prop) :
  sched_ok s →
  (∀ i s1, total (weights s) ≠ 0 → holds (weights s) (ticket s) i → dispatched i s s1 →
     wp (swtch_in i) (λ _ s2, came_back i s2 ∧ R i s2) s1) →
  (total (weights s) ≠ 0 → ∃ i, holds (weights s) (ticket s) i ∧ p_state (pr s i) = RUNNABLE ∧
     ∀ i', holds (weights s) (ticket s) i' → i' = i) ∧
  wp scheduler_round (λ _ s',
    (total (weights s) = 0 ∧ ∃ lk, lk ≡ set_sie true (view s) ∧ s' = set lk s) ∨
    (total (weights s) ≠ 0 ∧ ∃ i s2 lk, holds (weights s) (ticket s) i ∧ R i s2 ∧ came_back i s2 ∧
       s' = set lk s2 ∧ lockable (LK_PROC i) lk)) s.
Proof.
  intros O Hsw. pose proof (ticket_range s O) as Ht. pose proof (draw_holds (weights s) (length_weights s) (weights_pos s O)) as Hd.
  split.
  - intros Hn. exists (draw (weights s) (ticket s)). split_and!; [by apply Hd; [apply Ht|]|by apply (draw_runnable s), Ht|].
    intros i'. by apply Hd, Ht.
  - eapply wp_mono.
    { apply (scheduler_round_spec s (R (draw (weights s) (ticket s))) O). intros s1 i Hn. apply Hsw; [done|]. by apply Hd; [apply Ht|]. }
    intros [] s' [?|(Hn & s2 & lk & ?)]; [by left|right]. split; [done|]. exists (draw (weights s) (ticket s)), s2, lk.
    split; [|done]. by apply Hd; [apply Ht|].
Qed.

(** The lottery is fair: of the [total] tickets, each drawn
    by one value of the random number modulo [total], a process wins with
    exactly as many as it holds, and with none when it is not RUNNABLE. *)
Theorem lottery_fair (s : kst K) i :
  sched_ok s → slot i →
  Z.of_nat (length (filter (λ w, draw (weights s) w = i) (seqZ 0 (total (weights s))))) = weight (pr s i).
Proof.
  intros O Hi. pose proof (draw_count (weights s) (length_weights s) (weights_pos s O) (Z.to_nat i) (weight (pr s i))) as D.
  rewrite Z2Nat.id in D by apply Hi. apply D. by apply weights_at.
Qed.

(** [wakeup] makes RUNNABLE exactly the processes, other than
    the caller, that sleep on the channel. *)
Theorem wakeup_correct c (s : kst K) :
  plocks s → wp (wakeup c) (λ _ s', upd (λ i, if decide (slot i) then woken (current (view s)) c i (pr s i) else pr s i) s s') s.
Proof. apply wakeup_spec. Qed.

(** [kill] marks the first process with the pid and wakes it
    if it sleeps; it answers -1, and changes nothing, when there is none. *)
Theorem kill_correct pid (s : kst K) :
  plocks s →
  wp (kill pid) (λ v s',
    (v = -1 ∧ (∀ i, slot i → p_pid (pr s i) ≠ pid) ∧ upd (λ i, pr s i) s s') ∨
    (∃ k, v = 0 ∧ slot k ∧ p_pid (pr s k) = pid ∧ (∀ i, 0 <= i < k → p_pid (pr s i) ≠ pid) ∧
       upd (λ i, if decide (i = k) then killed_proc (pr s k) else pr s i) s s')) s.
Proof. apply kill_spec. Qed.
End Props.

(** ** Witnesses *)

(** Two processes that can run, with 5 and 2 tickets, and one that sleeps. *)
Definition demo_chan : chan := ("pipe"%string, 4).
Definition demo_procs : gmap Z proc :=
  <[3 := set_pstate RUNNABLE (set_ppid 7 (set_ptickets 5 proc0))]>
    (<[4 := set_pstate RUNNABLE (set_ppid 8 (set_ptickets 2 proc0))]>
       (<[5 := set_pstate SLEEPING (set_pchan (Some demo_chan) (set_ppid 9 (set_ptickets 4 proc0)))]> ∅)).
Definition demo_kst : kst unit := mkKst (mkUst demo_machine ∅ tt) demo_procs 10 None 0.

(** The process yields at once. *)
#[local] Instance demo_switch : Switch unit := {|
  swtch_out _ := ret tt; swtch_in i := setp i (set_pstate RUNNABLE) |}.

Lemma demo_weights : weights demo_kst = replicate 3 0 ++ [5; 2] ++ replicate 59 0.
Proof. vm_compute. reflexivity. Qed.

Lemma demo_plocks : plocks demo_kst.
Proof. intros i _. apply demo_lockable. Qed.

Lemma demo_sched_ok : sched_ok demo_kst.
Proof.
  split; [intros i _; apply demo_lockable|done|by exists (mkCpu None (srand 1) 0 false)| |by rewrite demo_weights].
  intros i Hi. pose proof (weights_at demo_kst i Hi) as E. rewrite demo_weights in E.
  assert (Forall (λ x, 0 <= x) (replicate 3 0 ++ [5; 2] ++ replicate 59 0)) as Hf; [|by rewrite Forall_lookup in Hf; apply (Hf _ _ E)].
  repeat constructor; lia.
Qed.

Lemma scheduler_round_correct_witness :
  (∃ i, holds (weights demo_kst) (ticket demo_kst) i ∧ p_state (proc_at demo_procs i) = RUNNABLE) ∧
  wp scheduler_round (λ _ s',
    (total (weights demo_kst) = 0 ∧ ∃ lk, lk ≡ set_sie true (view demo_kst) ∧ s' = set lk demo_kst) ∨
    (total (weights demo_kst) ≠ 0 ∧
      ∃ i s2 lk, holds (weights demo_kst) (ticket demo_kst) i ∧ p_state (proc_at (k_procs s2) i) = RUNNABLE ∧ came_back i s2 ∧
        s' = set lk s2 ∧ lockable (LK_PROC i) lk)) demo_kst.
Proof.
  destruct (scheduler_round_correct demo_kst (λ i s2, p_state (proc_at (k_procs s2) i) = RUNNABLE)) as [Hex Hwp]; [exact demo_sched_ok| |].
  - intros i s1 Ht [Hi _] (_ & _ & Ev). apply wp_setp. split.
    + exists (with_cpu (cpu_cproc (Some i)) (drawn demo_kst)).
      assert (lockable (LK_PROC i) (drawn demo_kst)) as Hl by (apply drawn_ok; [exact demo_sched_ok|exact Hi]).
      split; [split; [apply with_cpu_hart; [done|apply Hl]|apply Hl]|]. cbn [put_proc]. etrans; [exact Ev|].
      rewrite acquired_cproc by apply Hl. done.
    + cbn [put_proc k_procs]. by rewrite proc_at_insert, decide_True.
  - split; [|exact Hwp]. destruct Hex as (i & Hi & Hr & _); [rewrite demo_weights; discriminate|]. exists i. split; [exact Hi|exact Hr].
Defined.

Lemma lottery_fair_witness :
  Z.of_nat (length (filter (λ w, draw (weights demo_kst) w = 3) (seqZ 0 (total (weights demo_kst))))) = 5.
Proof. apply (lottery_fair demo_kst 3); [exact demo_sched_ok|by vm_compute]. Defined.

Lemma wakeup_correct_witness :
  wp (wakeup demo_chan) (λ _ s', p_state (proc_at (k_procs s') 5) = RUNNABLE ∧ p_pid (proc_at (k_procs s') 3) = 7) demo_kst.
Proof.
  eapply wp_mono; [apply (wakeup_correct demo_chan demo_kst demo_plocks)|]. intros [] s' U.
  rewrite (up_procs _ _ _ U 5), (up_procs _ _ _ U 3). by vm_compute.
Defined.

Lemma kill_correct_witness :
  wp (kill 9) (λ v s', v = 0 ∧ p_killed (proc_at (k_procs s') 5) = 1 ∧ p_state (proc_at (k_procs s') 5) = RUNNABLE) demo_kst.
Proof.
  eapply wp_mono; [apply (kill_correct 9 demo_kst demo_plocks)|]. intros v s' [(_ & Hn & _)|(k & -> & Hk & Hp & Hf & U)].
  - by destruct (Hn 5 ltac:(by vm_compute)).
  - assert (k = 5) as ->.
    { clear U. unfold demo_kst in Hp, Hf. cbn [k_procs] in Hp, Hf. unfold proc_at, demo_procs in Hp.
      destruct (decide (k = 5)); [done|]. exfalso. revert Hp. rewrite !lookup_insert. repeat case_decide; simplify_eq; by rewrite ?lookup_empty. }
    rewrite (up_procs _ _ _ U 5). by vm_compute.
Defined.
