(* ===== verification/Sleep.v ===== *)
(** * No wakeup is lost (kernel/proc.c: sleep, wakeup)

    Processes wait for a condition under a lock [lk]:
<<
      acquire(lk); while (!cond) sleep(chan, lk); ... release(lk)
>>
    and others make it true and call [wakeup(chan)] under the lock.  The step
    relation interleaves them at the granularity of the lines of [sleep],
    [wakeup], [sched] and [scheduler]; [p->lock] passes from the sleeping
    process to the scheduler and back. *)

From Stdlib Require Import ZifyBool.
From S2P Require Import Prelude Random Spinlock Proc.

Module Sleeping.
Section Model.
(** The processes are [0] to [N - 1]. *)
Variable N : Z.

(** Where a process is. *)
Inductive pc :=
  | Out                (* outside the critical section *)
  | In                 (* holds lk *)
  | SlAcquire          (* in sleep, line 459: acquire(&p->lock) *)
  | SlRelease          (* line 460: release(lk) *)
  | SlMark             (* lines 463-464: p->chan = chan; p->state = SLEEPING *)
  | SlSwitch           (* line 466: sched() *)
  | Off                (* off the processor; the scheduler has released p->lock *)
  | SlTidy             (* back, with p->lock: lines 469-472 *)
  | SlReacquire        (* line 473: acquire(lk) *)
  | Wk (k : Z)         (* in wakeup, line 481: at process k *)
  | WkLocked (k : Z).  (* lines 484-487: holds the lock of process k *)

#[global] Instance pc_eq_dec : EqDecision pc.
Proof. solve_decision. Defined.

Record st := mkSt {
  cond : bool;
  lk : option Z;
  plock : Z → option Z;
  state : Z → procstate;
  on_chan : Z → bool;
  at_ : Z → pc
}.

Definition put {A} (f : Z → A) (i : Z) (v : A) : Z → A := λ j, if decide (j = i) then v else f j.

Definition set_at (i : Z) (p : pc) (s : st) : st := mkSt (cond s) (lk s) (plock s) (state s) (on_chan s) (put (at_ s) i p).
Definition set_lk (v : option Z) (s : st) : st := mkSt (cond s) v (plock s) (state s) (on_chan s) (at_ s).
Definition set_cond (v : bool) (s : st) : st := mkSt v (lk s) (plock s) (state s) (on_chan s) (at_ s).
Definition set_plock (k : Z) (v : option Z) (s : st) : st := mkSt (cond s) (lk s) (put (plock s) k v) (state s) (on_chan s) (at_ s).
Definition set_state (k : Z) (v : procstate) (s : st) : st := mkSt (cond s) (lk s) (plock s) (put (state s) k v) (on_chan s) (at_ s).
Definition set_chan (k : Z) (v : bool) (s : st) : st := mkSt (cond s) (lk s) (plock s) (state s) (put (on_chan s) k v) (at_ s).

(** Line 484: [if (p->state == SLEEPING && p->chan == chan) p->state = RUNNABLE]. *)
Definition wake (k : Z) (s : st) : st :=
  if bool_decide (state s k = SLEEPING) && on_chan s k then set_state k RUNNABLE s else s.

(** A line of [sleep], [wakeup], the code around them or the scheduler, for process [i]. *)
Inductive line (i : Z) : st → st → Prop :=
  | ln_acquire s : 0 <= i < N → at_ s i = Out → lk s = None → line i s (set_at i In (set_lk (Some i) s))
  | ln_release s : at_ s i = In → line i s (set_at i Out (set_lk None s))
  | ln_take s : at_ s i = In → cond s = true → line i s (set_cond false s)
  | ln_sleep s : at_ s i = In → cond s = false → line i s (set_at i SlAcquire s)
  | ln_sl_acquire s : at_ s i = SlAcquire → plock s i = None → line i s (set_at i SlRelease (set_plock i (Some i) s))
  | ln_sl_release s : at_ s i = SlRelease → line i s (set_at i SlMark (set_lk None s))
  | ln_sl_mark s : at_ s i = SlMark → line i s (set_at i SlSwitch (set_state i SLEEPING (set_chan i true s)))
  | ln_sl_switch s : at_ s i = SlSwitch → line i s (set_at i Off (set_plock i None s))
  | ln_schedule s : at_ s i = Off → state s i = RUNNABLE → plock s i = None →
      line i s (set_at i SlTidy (set_plock i (Some i) (set_state i RUNNING s)))
  | ln_sl_tidy s : at_ s i = SlTidy → line i s (set_at i SlReacquire (set_plock i None (set_chan i false s)))
  | ln_sl_reacquire s : at_ s i = SlReacquire → lk s = None → line i s (set_at i In (set_lk (Some i) s))
  | ln_signal s : at_ s i = In → line i s (set_at i (Wk 0) (set_cond true s))
  | ln_wk_self s : at_ s i = Wk i → i < N → line i s (set_at i (Wk (i + 1)) s)
  | ln_wk_acquire k s : at_ s i = Wk k → k < N → k ≠ i → plock s k = None →
      line i s (set_at i (WkLocked k) (set_plock k (Some i) s))
  | ln_wk_wake k s : at_ s i = WkLocked k → line i s (set_at i (Wk (k + 1)) (set_plock k None (wake k s)))
  | ln_wk_done s : at_ s i = Wk N → line i s (set_at i In s).

(** [kill] (lines 495-515) makes a sleeper RUNNABLE under its lock. *)
Definition kill_step (s s' : st) : Prop := ∃ k, plock s k = None ∧ state s k = SLEEPING ∧ s' = set_state k RUNNABLE s.

Inductive step : st → st → Prop :=
  | step_line i s s' : line i s s' → step s s'
  | step_kill s s' : kill_step s s' → step s s'.

Definition start (s : st) : Prop :=
  0 <= N ∧ lk s = None ∧ (∀ k, plock s k = None) ∧ (∀ i, at_ s i = Out) ∧ ∀ i, state s i ≠ SLEEPING.

Inductive reachable : st → Prop :=
  | reach_start s : start s → reachable s
  | reach_step s s' : reachable s → step s s' → reachable s'.

(** ** The invariant *)

Definition has_lk (p : pc) : bool :=
  match p with In | SlAcquire | SlRelease | Wk _ | WkLocked _ => true | _ => false end.
Definition has_own (p : pc) : bool :=
  match p with SlRelease | SlMark | SlSwitch | SlTidy => true | _ => false end.

(** A [wakeup] that has not passed process [i]. *)
Definition coming (s : st) (i : Z) : Prop := ∃ j k, k <= i ∧ (at_ s j = Wk k ∨ at_ s j = WkLocked k).

(** Process [i] has let go of the lock and is, or will be, asleep. *)
Definition dozing (s : st) (i : Z) : Prop :=
  at_ s i = SlMark ∨ at_ s i = SlSwitch ∨ (at_ s i = Off ∧ state s i = SLEEPING).

Record inv (s : st) : Prop := {
  iv_lk : ∀ j, has_lk (at_ s j) = true ↔ lk s = Some j;
  iv_own : ∀ i, has_own (at_ s i) = true → plock s i = Some i;
  iv_wk : ∀ j k, at_ s j = WkLocked k → plock s k = Some j ∧ k ≠ j;
  iv_pl : ∀ k j, plock s k = Some j → (j = k ∧ has_own (at_ s k) = true) ∨ at_ s j = WkLocked k;
  iv_range : ∀ i, at_ s i ≠ Out → 0 <= i < N;
  iv_scan : ∀ j k, at_ s j = Wk k ∨ at_ s j = WkLocked k → 0 <= k <= N ∧ (at_ s j = WkLocked k → k < N);
  iv_chan : ∀ i, at_ s i = SlSwitch ∨ at_ s i = Off → on_chan s i = true;
  iv_asleep : ∀ i, state s i = SLEEPING → at_ s i = SlSwitch ∨ at_ s i = Off;
  iv_state : ∀ i, at_ s i = SlSwitch ∨ at_ s i = Off → state s i = SLEEPING ∨ state s i = RUNNABLE;
  iv_wait : ∀ i, at_ s i = SlAcquire ∨ at_ s i = SlRelease → cond s = false;
  iv_coming : ∀ i, cond s = true → dozing s i → coming s i
}.

Lemma put_eq {A} (f : Z → A) i v : put f i v i = v.
Proof. unfold put. by rewrite decide_True. Qed.

Lemma put_ne {A} (f : Z → A) i v j : j ≠ i → put f i v j = f j.
Proof. intros. unfold put. by rewrite decide_False. Qed.

Ltac cases := simpl in *; unfold put in *; repeat (case_decide; subst; simpl in *); try done.

(** One goal per line of the code; [wake] changes a state or nothing. *)
Ltac by_step Hs :=
  destruct Hs as [i s s' Hs|s s' (k & Hp & Hst & ->)];
  [destruct Hs as [s Hi Ha Hl|s Ha|s Ha Hc|s Ha Hc|s Ha Hp|s Ha|s Ha|s Ha|s Ha Hst Hp|s Ha|s Ha Hl|s Ha
    |s Ha Hn|k s Ha Hn Hne Hp|k s Ha|s Ha]|].
Ltac each_step Hs := by_step Hs; unfold wake in *; try (destruct (bool_decide _ && _) eqn:?); simpl.

Lemma step_lk s s' : inv s → step s s' → ∀ j, has_lk (at_ s' j) = true ↔ lk s' = Some j.
Proof.
  intros I Hs. pose proof (iv_lk s I) as L. each_step Hs; intros j; pose proof (L j) as Lj; try pose proof (L i) as Li;
    try rewrite Ha in Li; cases; rewrite ?Ha in *; simpl in *; naive_solver.
Qed.

(** Two processes do not hold [p->lock] of the same process. *)
Lemma step_own s s' : inv s → step s s' → ∀ i, has_own (at_ s' i) = true → plock s' i = Some i.
Proof.
  intros I Hs. pose proof (iv_own s I) as O. pose proof (iv_wk s I) as W.
  each_step Hs; intros j; cases; intros Ho; try apply O; rewrite ?Ha; try done; try (apply O in Ho; congruence).
  all: destruct (W i k Ha) as [Hp Hne]; apply O in Ho; congruence.
Qed.

Lemma step_wk s s' : inv s → step s s' → ∀ j k, at_ s' j = WkLocked k → plock s' k = Some j ∧ k ≠ j.
Proof.
  intros I Hs. pose proof (iv_own s I) as O. pose proof (iv_wk s I) as W.
  each_step Hs; intros j k'; cases; intros Hw; try (apply W in Hw as [? ?]); simplify_eq; try done; try (split; congruence).
  all: try (specialize (O i); rewrite Ha in O; specialize (O eq_refl)).
  all: try (destruct (W _ _ Ha)); congruence.
Qed.

Lemma step_pl s s' : inv s → step s s' → ∀ k j, plock s' k = Some j → (j = k ∧ has_own (at_ s' k) = true) ∨ at_ s' j = WkLocked k.
Proof.
  intros I Hs. pose proof (iv_pl s I) as P. 
  each_step Hs; intros k' j; cases; intros Hk; try (apply P in Hk as [[? Hk]|Hk]; subst);
    rewrite ?Ha in *; simplify_eq; auto.
Qed.

Lemma step_range s s' : inv s → step s s' → ∀ i, at_ s' i ≠ Out → 0 <= i < N.
Proof.
  intros I Hs. pose proof (iv_range s I) as R.
  each_step Hs; intros j; cases; intros Hj; try (by apply R); apply R; by rewrite Ha.
Qed.

Lemma step_scan s s' : inv s → step s s' → 
  ∀ j k, at_ s' j = Wk k ∨ at_ s' j = WkLocked k → 0 <= k <= N ∧ (at_ s' j = WkLocked k → k < N).
Proof.
  intros I Hs. pose proof (iv_range s I) as R. pose proof (iv_scan s I) as C.
  each_step Hs; intros j k'; cases; intros Hj; try (by apply C); destruct Hj as [Hj|Hj]; simplify_eq.
  all: try (destruct (C _ _ (or_introl Ha))); try (destruct (C _ _ (or_intror Ha)) as [? Hk]; specialize (Hk Ha)).
  all: specialize (R i); rewrite Ha in R; specialize (R ltac:(done)); split; [lia|done || lia].
Qed.

Lemma step_chan s s' : inv s → step s s' → ∀ i, at_ s' i = SlSwitch ∨ at_ s' i = Off → on_chan s' i = true.
Proof.
  intros I Hs. pose proof (iv_chan s I) as C.
  each_step Hs; intros j; cases; intros Hj; try (by apply C); destruct Hj as [Hj|Hj]; try done; apply C; rewrite ?Ha; auto.
Qed.

Lemma step_wait s s' : inv s → step s s' → ∀ i, at_ s' i = SlAcquire ∨ at_ s' i = SlRelease → cond s' = false.
Proof.
  intros I Hs. pose proof (iv_wait s I) as C. pose proof (iv_lk s I) as L.
  each_step Hs; intros j; cases; intros Hj; try (by eapply C; eauto); try (by destruct Hj).
  assert (lk s = Some j) as H1 by (apply L; by destruct Hj as [-> | ->]).
  assert (lk s = Some i) as H2 by (apply L; by rewrite Ha). congruence.
Qed.

Lemma step_asleep s s' : inv s → step s s' → 
  (∀ i, state s' i = SLEEPING → at_ s' i = SlSwitch ∨ at_ s' i = Off) ∧
  (∀ i, at_ s' i = SlSwitch ∨ at_ s' i = Off → state s' i = SLEEPING ∨ state s' i = RUNNABLE).
Proof.
  intros I Hs. pose proof (iv_asleep s I) as A. pose proof (iv_state s I) as C.
  split; each_step Hs; intros j; cases; intros Hj; auto; try (apply A in Hj; rewrite ?Ha in Hj; naive_solver);
    try (by destruct Hj).
Qed.

(** A process starts dozing only while the condition is false, and whoever makes it true starts a [wakeup]. *)
Lemma step_dozes s s' : inv s → step s s' → ∀ i, cond s' = true → dozing s' i → (cond s = true ∧ dozing s i) ∨ coming s' i.
Proof.
  intros I Hs. unfold dozing. pose proof (iv_wait s I) as W. pose proof (iv_range s I) as R. pose proof (iv_state s I) as T.
  each_step Hs; intros j Hcd Hd; cases; try (left; split; [done|]; destruct Hd as [Hd|[Hd|[Hd Hd']]]; simplify_eq; by auto).
  - by rewrite (W _ (or_intror Ha)) in Hcd.
  - by destruct Hd as [Hd|[Hd|[Hd _]]].
  - right. exists i, 0. split; [|simpl; rewrite put_eq; by left]. apply R. by destruct Hd as [Hd|[Hd|[Hd _]]]; rewrite Hd.
Qed.

Lemma dozing_at s i : dozing s i → at_ s i = SlMark ∨ at_ s i = SlSwitch ∨ at_ s i = Off.
Proof. unfold dozing. tauto. Qed.

Lemma dozing_range s i : inv s → dozing s i → 0 <= i < N.
Proof. intros I Hd. apply (iv_range s I). by destruct (dozing_at s i Hd) as [-> |[-> | ->]]. Qed.

Lemma wake_at k s : at_ (wake k s) = at_ s.
Proof. unfold wake. by case_match. Qed.

(** [wakeup] does not leave a process behind that dozes. *)
Lemma step_wake s i k : inv s → at_ s i = WkLocked k → ¬ dozing (set_at i (Wk (k + 1)) (set_plock k None (wake k s))) k.
Proof.
  intros I Ha Hd. destruct (iv_wk s I _ _ Ha) as [Hp Hne]. 
  assert (∀ q, at_ s k = q → has_own q = true → False) as Ho.
  { intros q Hq Hq'. pose proof (iv_own s I k) as Hown. rewrite Hq in Hown. specialize (Hown Hq'). congruence. }
  unfold dozing, wake in Hd. destruct (bool_decide _) eqn:Hb; simpl in Hd.
  - apply bool_decide_eq_true in Hb. destruct (iv_asleep s I _ Hb) as [Hs|Hs]; [by eapply (Ho _ Hs)|].
    rewrite (iv_chan s I k) in Hd by auto. simpl in Hd. rewrite put_ne, put_eq in Hd by done.
    destruct Hd as [Hd|[Hd|[_ Hd]]]; [by eapply (Ho _ Hd)..|done].
  - apply bool_decide_eq_false in Hb. rewrite put_ne in Hd by done. destruct Hd as [Hd|[Hd|[_ Hd]]]; [by eapply (Ho _ Hd)..|done].
Qed.

(** The [wakeup] in progress reaches every process that goes on dozing. *)
Lemma step_coming s s' : inv s → step s s' → ∀ d, dozing s d → dozing s' d → coming s d → coming s' d.
Proof.
  intros I Hs d Hd Hd' (j & c & Hk & Hj). pose proof (dozing_range s d I Hd) as Hdr. apply dozing_at in Hd.
  assert (j ≠ d) as Hji by (intros ->; destruct Hj as [Hj|Hj]; rewrite Hj in Hd; naive_solver).
  destruct (decide (at_ s' j = at_ s j)) as [He|He]; [exists j, c; by rewrite He|].
  by_step Hs; rewrite ?wake_at in *; simpl in He; rewrite ?wake_at in He; unfold put in He;
    try (case_decide; [subst|done]); try done; rewrite Ha in Hj;
    try (by destruct Hj); destruct Hj as [Hj|Hj]; simplify_eq.
  - exists c, (c + 1). simpl. rewrite put_eq. split; [lia|auto].
  - exists i, c. simpl. rewrite put_eq. auto.
  - exists i, (c + 1). simpl. rewrite put_eq. split; [|auto]. 
    enough (c ≠ d) by lia. intros ->. by apply (step_wake s i d).
  - lia.
Qed.

Lemma inv_step s s' : inv s → step s s' → inv s'.
Proof.
  intros I Hs. constructor; eauto using step_lk, step_own, step_wk, step_pl, step_range, step_chan, step_wait.
  - by eapply step_scan.
  - by apply (step_asleep s s' I Hs).
  - by apply (step_asleep s s' I Hs).
  - intros i Hc Hd. destruct (step_dozes s s' I Hs i Hc Hd) as [[Hc' Hd']|]; [|done].
    eapply step_coming; eauto. by apply (iv_coming s I).
Qed.

Lemma inv_start s : start s → inv s.
Proof.
  intros (HN & Hl & Hp & Ha & Hst).
  constructor; unfold dozing; intros *; rewrite ?Ha, ?Hl, ?Hp; simpl; try naive_solver.
Qed.

Lemma sleeping_inv s : reachable s → inv s.
Proof. induction 1; eauto using inv_start, inv_step. Qed.

(** A line of a process other than [d]. *)
Definition quiet (d : Z) (s s' : st) : Prop := ∃ i, i ≠ d ∧ line i s s'.

Lemma quiet_inv d s s' : inv s → quiet d s s' → inv s'.
Proof. intros I (i & _ & Hl). eapply inv_step; [done|]. by eapply step_line. Qed.

Lemma steps_inv d s s' : rtc (quiet d) s s' → inv s → inv s'.
Proof. induction 1; eauto using quiet_inv. Qed.

(** ** The sleeper is woken *)

(** Process [j] is in [wakeup], about to look at process [c]; [d] is asleep. *)
Record waking (s : st) (j c d : Z) : Prop := {
  wg_inv : inv s;
  wg_at : at_ s j = Wk c;
  wg_off : at_ s d = Off;
  wg_state : state s d = SLEEPING
}.

Lemma quiet_once d i s s' : i ≠ d → line i s s' → rtc (quiet d) s s'.
Proof. intros Hi Hl. apply rtc_once. by exists i. Qed.

(** Whoever holds [p->lock] of process [c] lets go of it without help. *)
Lemma unlocks s j c d : waking s j c d → c ≠ j → ∃ s', rtc (quiet d) s s' ∧ waking s' j c d ∧ plock s' c = None.
Proof.
  intros [I Ha Ho Hs] Hne. destruct (plock s c) as [h|] eqn:Hp; [|exists s; done].
  assert (lk s = Some j) as Hl by (apply (iv_lk s I); by rewrite Ha).
  destruct (iv_pl s I c h Hp) as [[-> Hown]|Hw].
  2: { assert (lk s = Some h) by (apply (iv_lk s I); by rewrite Hw). congruence. }
  assert (c ≠ d) as Hcd by (intros ->; by rewrite Ho in Hown).
  assert (∀ s', rtc (quiet d) s s' → at_ s' j = at_ s j → at_ s' d = at_ s d → state s' d = state s d → waking s' j c d) as K.
  { intros s' Hr E1 E2 E3. constructor; [by eapply steps_inv|congruence..]. }
  assert (∀ s', at_ s' c = SlSwitch → rtc (quiet d) s s' → at_ s' j = at_ s j → at_ s' d = at_ s d → state s' d = state s d →
    ∃ s'', rtc (quiet d) s s'' ∧ waking s'' j c d ∧ plock s'' c = None) as Switch.
  { intros s' Hc Hr E1 E2 E3. assert (rtc (quiet d) s (set_at c Off (set_plock c None s'))) as Hr'.
    { etrans; [exact Hr|]. eapply quiet_once; [exact Hcd|]. by apply ln_sl_switch. }
    eexists. split; [exact Hr'|]. split; [|simpl; apply put_eq]. apply K; [done|simpl; by rewrite ?put_ne..]. }
  destruct (at_ s c) eqn:Hc; try done.
  - assert (lk s = Some c) by (apply (iv_lk s I); by rewrite Hc). congruence.
  - apply (Switch (set_at c SlSwitch (set_state c SLEEPING (set_chan c true s)))); simpl; rewrite ?put_eq, ?put_ne by done; try done.
    eapply quiet_once; [exact Hcd|]. by apply ln_sl_mark.
  - by apply (Switch s).
  - assert (rtc (quiet d) s (set_at c SlReacquire (set_plock c None (set_chan c false s)))) as Hr'.
    { eapply quiet_once; [exact Hcd|]. by apply ln_sl_tidy. }
    eexists. split; [exact Hr'|]. split; [|simpl; apply put_eq]. apply K; [done|simpl; by rewrite ?put_ne..].
Qed.

(** The [wakeup] takes the lock of process [c]. *)
Lemma locks s j c d : waking s j c d → c ≠ j → c < N →
  ∃ s', rtc (quiet d) s s' ∧ inv s' ∧ at_ s' j = WkLocked c ∧ at_ s' d = Off ∧ state s' d = SLEEPING.
Proof.
  intros W Hne Hc. destruct (unlocks s j c d W Hne) as (s1 & Hr & [I Ha Ho Hst] & Hp).
  assert (j ≠ d) as Hjd by (intros ->; by rewrite Ha in Ho).
  assert (line j s1 (set_at j (WkLocked c) (set_plock c (Some j) s1))) as Hs2 by (by apply ln_wk_acquire).
  eexists. split; [etrans; [exact Hr|by eapply quiet_once]|]. split; [eapply quiet_inv; [exact I|by exists j]|].
  simpl. by rewrite put_eq, !put_ne.
Qed.

(** Done with another process, it goes on to the next. *)
Lemma passes s j c d : inv s → at_ s j = WkLocked c → at_ s d = Off → state s d = SLEEPING → c ≠ d →
  ∃ s', rtc (quiet d) s s' ∧ waking s' j (c + 1) d.
Proof.
  intros I Ha Ho Hst Hcd. assert (j ≠ d) as Hjd by (intros ->; by rewrite Ha in Ho).
  assert (line j s (set_at j (Wk (c + 1)) (set_plock c None (wake c s)))) as Hs by by apply ln_wk_wake.
  eexists. split; [by eapply quiet_once|]. constructor; [eapply quiet_inv; [exact I|by exists j]|..].
  all: simpl; rewrite ?wake_at; simpl; rewrite ?put_eq, ?put_ne by done; try done.
  unfold wake. case_match; simpl; by rewrite ?put_ne.
Qed.

(** So it gets to the sleeper. *)
Lemma reaches n s j c d : waking s j c d → d = c + Z.of_nat n →
  ∃ s', rtc (quiet d) s s' ∧ inv s' ∧ at_ s' j = WkLocked d ∧ at_ s' d = Off ∧ state s' d = SLEEPING.
Proof.
  revert s c. induction n as [|n IH]; intros s c W Hd.
  all: pose proof (iv_range s (wg_inv _ _ _ _ W) d) as Hr; rewrite (wg_off _ _ _ _ W) in Hr; specialize (Hr ltac:(done)).
  all: assert (j ≠ d) as Hjd by (intros ->; pose proof (wg_at _ _ _ _ W); by rewrite (wg_off _ _ _ _ W) in *).
  - replace c with d in W by lia. by apply (locks s j d d); [| |lia].
  - assert (∃ s1, rtc (quiet d) s s1 ∧ waking s1 j (c + 1) d) as (s1 & Hr1 & W1).
    { destruct (decide (c = j)) as [-> |Hne].
      - destruct W as [I Ha Ho Hst]. assert (line j s (set_at j (Wk (j + 1)) s)) as Hl by (apply ln_wk_self; [done|lia]).
        eexists. split; [by eapply quiet_once|]. constructor; [eapply quiet_inv; [exact I|by exists j]|simpl; by rewrite ?put_eq, ?put_ne..].
      - destruct (locks s j c d W Hne ltac:(lia)) as (s1 & Hr1 & I1 & Ha1 & Ho1 & Hs1).
        destruct (passes s1 j c d I1 Ha1 Ho1 Hs1 ltac:(lia)) as (s2 & Hr2 & W2). exists s2. split; [by etrans|done]. }
    destruct (IH s1 (c + 1) W1 ltac:(lia)) as (s2 & Hr2 & ?). exists s2. split; [by etrans|done].
Qed.

(** Its line at the sleeper makes it RUNNABLE. *)
Lemma wakes s j d : inv s → at_ s j = WkLocked d → at_ s d = Off → state s d = SLEEPING →
  ∃ s', line j s s' ∧ at_ s' d = Off ∧ state s' d = RUNNABLE.
Proof.
  intros I Ha Ho Hst. assert (j ≠ d) as Hjd by (intros ->; by rewrite Ha in Ho).
  eexists. split; [by apply ln_wk_wake|]. simpl. rewrite wake_at, put_ne by done. split; [done|].
  unfold wake. rewrite Hst, (iv_chan s I d) by auto. rewrite bool_decide_eq_true_2 by done. simpl. apply put_eq.
Qed.

Lemma asleep_coming s d : inv s → cond s = true → at_ s d = Off → state s d = SLEEPING → coming s d.
Proof. intros I Hc Ho Hst. apply (iv_coming s I); [done|]. right. by right. Qed.

(** C28 Whatever the interleaving, a process that sleeps although the condition
    it waits for holds has a [wakeup] on its way: the holder of the lock is
    inside [wakeup] and has not passed the sleeper.  So once the lock is free,
    nobody sleeps while the condition holds. *)
Theorem no_lost_wakeup s d : reachable s → cond s = true → at_ s d = Off → state s d = SLEEPING →
  ∃ j k, lk s = Some j ∧ (at_ s j = Wk k ∨ at_ s j = WkLocked k) ∧ k <= d.
Proof.
  intros Hr Hc Ho Hst. apply sleeping_inv in Hr. destruct (asleep_coming s d Hr Hc Ho Hst) as (j & k & Hk & Hj).
  exists j, k. split; [|done]. apply (iv_lk s Hr). by destruct Hj as [-> | ->].
Qed.

(** C29 (liveness).  And that [wakeup] gets to it, without help of the sleeper or of
    [kill]: the lock of each process in the way is held by a process that lets go of
    it by itself, the holder [j] of the lock [lk] goes on from process to process, and
    its line at the sleeper makes the sleeper RUNNABLE. *)
Theorem sleeper_woken s d : reachable s → cond s = true → at_ s d = Off → state s d = SLEEPING →
  ∃ j s1 s2, lk s = Some j ∧ rtc (quiet d) s s1 ∧ at_ s1 j = WkLocked d ∧ state s1 d = SLEEPING ∧
    line j s1 s2 ∧ at_ s2 d = Off ∧ state s2 d = RUNNABLE.
Proof.
  intros Hr Hc Ho Hst. apply sleeping_inv in Hr. destruct (asleep_coming s d Hr Hc Ho Hst) as (j & k & Hk & Hj).
  assert (lk s = Some j) as Hl by (apply (iv_lk s Hr); by destruct Hj as [-> | ->]).
  assert (∃ s1, rtc (quiet d) s s1 ∧ inv s1 ∧ at_ s1 j = WkLocked d ∧ at_ s1 d = Off ∧ state s1 d = SLEEPING) as (s1 & H1 & I1 & A1 & O1 & S1).
  { destruct Hj as [Hj|Hj]; [by apply (reaches (Z.to_nat (d - k)) s j k d); [|lia]|].
    destruct (decide (k = d)) as [-> |Hne]; [by exists s|].
    destruct (passes s j k d Hr Hj Ho Hst Hne) as (s1 & H1 & W). 
    destruct (reaches (Z.to_nat (d - (k + 1))) s1 j (k + 1) d W ltac:(lia)) as (s2 & H2 & ?). exists s2. split; [by etrans|done]. }
  destruct (wakes s1 j d I1 A1 O1 S1) as (s2 & H2 & ?). by exists j, s1, s2.
Qed.

End Model.

(** Process 0 finds the condition false and sleeps; process 1 makes it true and
    stands at the start of [wakeup]. *)
Definition idle : st := mkSt false None (λ _, None) (λ _, RUNNING) (λ _, false) (λ _, Out).
Definition asleep : st :=
  set_at 0 Off (set_plock 0 None (set_at 0 SlSwitch (set_state 0 SLEEPING (set_chan 0 true
    (set_at 0 SlMark (set_lk None (set_at 0 SlRelease (set_plock 0 (Some 0) (set_at 0 SlAcquire
      (set_at 0 In (set_lk (Some 0) idle))))))))))).
Definition demo : st := set_at 1 (Wk 0) (set_cond true (set_at 1 In (set_lk (Some 1) asleep))).

Lemma demo_reachable : reachable 2 demo.
Proof.
  assert (reachable 2 idle) as H by by apply reach_start.
  eapply reach_step in H; [|apply (step_line 2 0), ln_acquire; done].
  eapply reach_step in H; [|by apply (step_line 2 0), ln_sleep].
  eapply reach_step in H; [|by apply (step_line 2 0), ln_sl_acquire].
  eapply reach_step in H; [|by apply (step_line 2 0), ln_sl_release].
  eapply reach_step in H; [|by apply (step_line 2 0), ln_sl_mark].
  eapply reach_step in H; [|by apply (step_line 2 0), ln_sl_switch].
  eapply reach_step in H; [|apply (step_line 2 1), ln_acquire; done].
  eapply reach_step in H; [|apply (step_line 2 1), ln_signal; done]. exact H.
Qed.

Lemma no_lost_wakeup_witness : ∃ j k, lk demo = Some j ∧ (at_ demo j = Wk k ∨ at_ demo j = WkLocked k) ∧ k <= 0.
Proof. apply (no_lost_wakeup 2 demo 0); [exact demo_reachable|reflexivity..]. Defined.

Lemma sleeper_woken_witness :
  ∃ j s1 s2, lk demo = Some j ∧ rtc (quiet 2 0) demo s1 ∧ at_ s1 j = WkLocked 0 ∧ state s1 0 = SLEEPING ∧
    line 2 j s1 s2 ∧ at_ s2 0 = Off ∧ state s2 0 = RUNNABLE.
Proof. apply (sleeper_woken 2 demo 0); [exact demo_reachable|reflexivity..]. Defined.
End Sleeping.
