(* ===== verification/Kern.v ===== *)
(** * The state of the kernel, and how the file system sits in it

    Beside user memory and processes: the file system, the table of open files,
    the pipes, the console, the clock and the control registers of the hart.
    Devices are behind [Hardware], reading and writing their registers.  The
    file system shares the lock state of the hart with the rest of the kernel;
    its operations are what user memory uses through [InodeOps]. *)

From S2P Require Import Prelude Riscv Mem Random Spinlock Kalloc Pagetable Uvm Block Bio Log Fs FsInst Proc.

(** Memory-mapped device registers: 1, 4 or 8 bytes at an address. *)
Class Hardware := {
  hw : Type;
  mmio_read : Z → hw → Z * hw;
  mmio_write : Z → Z → hw → hw
}.

(** ** Data *)

Definition NFILE : nat := 100.
Definition NDEV : Z := 10.
Definition PIPESIZE : Z := 512.
Definition INPUT_BUF : Z := 128.
Definition UART_TX_BUF_SIZE : Z := 32.

(** [struct file] (file.h). *)
Inductive fdtype := FD_NONE | FD_PIPE | FD_INODE | FD_DEVICE.

#[export] Instance fdtype_eq_dec : EqDecision fdtype.
Proof. solve_decision. Defined.

Record file := mkFile {
  fl_type : fdtype; fl_ref : Z; fl_readable : Z; fl_writable : Z;
  fl_pipe : Z; fl_ip : Z; fl_off : Z; fl_major : Z
}.
Definition file0 : file := mkFile FD_NONE 0 0 0 0 0 0 0.
Definition file_at (t : gmap Z file) (f : Z) : file := default file0 (t !! f).

Definition set_fref (v : Z) (x : file) : file :=
  mkFile (fl_type x) v (fl_readable x) (fl_writable x) (fl_pipe x) (fl_ip x) (fl_off x) (fl_major x).
Definition set_ftype (v : fdtype) (x : file) : file :=
  mkFile v (fl_ref x) (fl_readable x) (fl_writable x) (fl_pipe x) (fl_ip x) (fl_off x) (fl_major x).
Definition set_foff (v : Z) (x : file) : file :=
  mkFile (fl_type x) (fl_ref x) (fl_readable x) (fl_writable x) (fl_pipe x) (fl_ip x) v (fl_major x).
Definition set_fmajor (v : Z) (x : file) : file :=
  mkFile (fl_type x) (fl_ref x) (fl_readable x) (fl_writable x) (fl_pipe x) (fl_ip x) (fl_off x) v.
Definition set_fip (v : Z) (x : file) : file :=
  mkFile (fl_type x) (fl_ref x) (fl_readable x) (fl_writable x) (fl_pipe x) v (fl_off x) (fl_major x).
Definition set_fpipe (v : Z) (x : file) : file :=
  mkFile (fl_type x) (fl_ref x) (fl_readable x) (fl_writable x) v (fl_ip x) (fl_off x) (fl_major x).
Definition set_fmodes (r w : Z) (x : file) : file :=
  mkFile (fl_type x) (fl_ref x) r w (fl_pipe x) (fl_ip x) (fl_off x) (fl_major x).

(** [struct pipe] (pipe.c), at the address of its page. *)
Record pipe := mkPipe { pi_data : list Z; pi_nread : Z; pi_nwrite : Z; pi_readopen : Z; pi_writeopen : Z }.
Definition pipe0 : pipe := mkPipe (replicate 512 0) 0 0 0 0.
Definition pipe_at (t : gmap Z pipe) (a : Z) : pipe := default pipe0 (t !! a).

(** [cons] (console.c). *)
Record console := mkCons { cons_buf : list Z; cons_r : Z; cons_w : Z; cons_e : Z }.

(** The transmit buffer of uart.c. *)
Record uart := mkUart { uart_tx_buf : list Z; uart_tx_w : Z; uart_tx_r : Z }.

(** Control registers of the hart; [SSTATUS_SIE] is with the locks. *)
Record csrs := mkCsrs {
  scause : Z; sepc : Z; stval : Z; stvec : Z; sstatus_rest : Z; satp : Z; sip : Z
}.

(** The file system without the lock state; [kf_pid] and [kf_cwd] are those of
    the process that runs. *)
Record kfs := mkKfs {
  kf_pid : Z; kf_bufs : gmap Z buf; kf_disk : disk; kf_log : log;
  kf_sb : superblock; kf_itab : gmap Z inode; kf_cwd : Z
}.

Section Kernel.
Context `{Hardware}.

(** [kn_devsw]: for a major device number, whether [devsw[major].read] and
    [.write] are set; the only functions stored there are the console's. *)
Record kern := mkKern {
  kn_fs : kfs; kn_files : gmap Z file; kn_pipes : gmap Z pipe; kn_devsw : gmap Z (bool * bool);
  kn_cons : console; kn_uart : uart; kn_ticks : Z; kn_panicked : Z; kn_csr : csrs; kn_hw : hw
}.

(** ** The file system as a part of the state *)

Definition fs_of (l : lockst) (k : kfs) : fsys lst :=
  mkFs (mkLst (mkBst l (kf_pid k) (kf_bufs k) (kf_disk k)) (kf_log k)) (kf_sb k) (kf_itab k) (kf_cwd k).
Definition kfs_of (f : fsys lst) : kfs :=
  mkKfs (bs_pid (l_b (f_b f))) (bufs (l_b (f_b f))) (bs_disk (l_b (f_b f))) (l_log (f_b f)) (f_sb f) (f_itab f) (f_cwd f).

Definition set_kfs (k : kfs) (s : kern) : kern :=
  mkKern k (kn_files s) (kn_pipes s) (kn_devsw s) (kn_cons s) (kn_uart s) (kn_ticks s) (kn_panicked s) (kn_csr s) (kn_hw s).

#[export] Program Instance ust_fs : Lens (ust kern) (fsys lst) := {|
  view s := fs_of (m_lk (u_m s)) (kn_fs (u_k s));
  set f s := mkUst (set (bs_lk (l_b (f_b f))) (u_m s)) (u_vmas s) (set_kfs (kfs_of f) (u_k s))
|}.
Next Obligation. by intros [[[]]] s. Qed.
Next Obligation. by intros [[] ? [[]]]. Qed.
Next Obligation. done. Qed.

#[export] Program Instance kst_fs : Lens (kst kern) (fsys lst) := {|
  view s := view (k_u s);
  set f s := mkKst (set f (k_u s)) (k_procs s) (k_nextpid s) (k_initproc s) (k_first s)
|}.
Next Obligation. intros. apply (view_set (S := ust kern)). Qed.
Next Obligation. intros [u p n i f]. exact (f_equal (λ u', mkKst u' p n i f) (set_view u)). Qed.
Next Obligation. done. Qed.

(** ** Kernel memory as the source or the destination of a transfer *)

Definition to_memory (dst : Z) (bs : list Z) : M (ust kern) Z :=
  zoom (T := machine) (memory_op (λ m, put_bytes m dst bs)) ;; ret 0.
Definition from_memory (src n : Z) : M (ust kern) (Z * list Z) :=
  let! bs := zoom (T := machine) (gets (λ m, get_bytes (m_mem m) src (Z.to_nat n))) in
  ret (0, bs).

(** What user memory uses of the file system. *)
#[export] Instance kern_inodes : InodeOps kern := {|
  Uvm.idup ip := zoom (Fs.idup ip);
  Uvm.iput ip := zoom (Fs.iput ip);
  Uvm.ilock ip := zoom (Fs.ilock ip);
  Uvm.iunlock ip := zoom (Fs.iunlock ip);
  Uvm.begin_op := zoom (zoom (S := fsys lst) Log.begin_op);
  Uvm.end_op := zoom (zoom (S := fsys lst) Log.end_op);
  readi_kernel ip dst off n := Fs.readi to_memory ip dst off n;
  writei_kernel ip src off n := Fs.writei from_memory ip src off n
|}.

(** ** Access from the level of processes *)

Abbreviation ks := (kst kern).

(** An operation of the file system. *)
Definition fsop {A} (m : M (fsys lst) A) : M ks A := zoom m.
Definition begin_op : M ks unit := fsop (zoom Log.begin_op).
Definition end_op : M ks unit := fsop (zoom Log.end_op).

Definition getk {A} (f : kern → A) : M ks A := gets (λ s, f (u_k (k_u s))).
Definition setk (f : kern → kern) : M ks unit :=
  modify (λ s, mkKst (mkUst (u_m (k_u s)) (u_vmas (k_u s)) (f (u_k (k_u s)))) (k_procs s) (k_nextpid s) (k_initproc s) (k_first s)).

Definition set_files (v : gmap Z file) (s : kern) : kern :=
  mkKern (kn_fs s) v (kn_pipes s) (kn_devsw s) (kn_cons s) (kn_uart s) (kn_ticks s) (kn_panicked s) (kn_csr s) (kn_hw s).
Definition set_pipes (v : gmap Z pipe) (s : kern) : kern :=
  mkKern (kn_fs s) (kn_files s) v (kn_devsw s) (kn_cons s) (kn_uart s) (kn_ticks s) (kn_panicked s) (kn_csr s) (kn_hw s).
Definition set_devsw (v : gmap Z (bool * bool)) (s : kern) : kern :=
  mkKern (kn_fs s) (kn_files s) (kn_pipes s) v (kn_cons s) (kn_uart s) (kn_ticks s) (kn_panicked s) (kn_csr s) (kn_hw s).
Definition set_cons (v : console) (s : kern) : kern :=
  mkKern (kn_fs s) (kn_files s) (kn_pipes s) (kn_devsw s) v (kn_uart s) (kn_ticks s) (kn_panicked s) (kn_csr s) (kn_hw s).
Definition set_uart (v : uart) (s : kern) : kern :=
  mkKern (kn_fs s) (kn_files s) (kn_pipes s) (kn_devsw s) (kn_cons s) v (kn_ticks s) (kn_panicked s) (kn_csr s) (kn_hw s).
Definition set_kticks (v : Z) (s : kern) : kern :=
  mkKern (kn_fs s) (kn_files s) (kn_pipes s) (kn_devsw s) (kn_cons s) (kn_uart s) v (kn_panicked s) (kn_csr s) (kn_hw s).
Definition set_csr (v : csrs) (s : kern) : kern :=
  mkKern (kn_fs s) (kn_files s) (kn_pipes s) (kn_devsw s) (kn_cons s) (kn_uart s) (kn_ticks s) (kn_panicked s) v (kn_hw s).
Definition set_hw (v : hw) (s : kern) : kern :=
  mkKern (kn_fs s) (kn_files s) (kn_pipes s) (kn_devsw s) (kn_cons s) (kn_uart s) (kn_ticks s) (kn_panicked s) (kn_csr s) v.

Definition getf {A} (g : file → A) (f : Z) : M ks A := getk (λ k, g (file_at (kn_files k) f)).
Definition setf (f : Z) (g : file → file) : M ks unit :=
  setk (λ k, set_files (<[f := g (file_at (kn_files k) f)]> (kn_files k)) k).
Definition getpi {A} (g : pipe → A) (a : Z) : M ks A := getk (λ k, g (pipe_at (kn_pipes k) a)).
Definition setpi (a : Z) (g : pipe → pipe) : M ks unit :=
  setk (λ k, set_pipes (<[a := g (pipe_at (kn_pipes k) a)]> (kn_pipes k)) k).

(** Volatile accesses to device registers. *)
Definition read_reg (a : Z) : M ks Z :=
  let! h := getk kn_hw in
  let '(v, h') := mmio_read a h in
  setk (set_hw h') ;;
  ret v.
Definition write_reg (a v : Z) : M ks unit :=
  let! h := getk kn_hw in
  setk (set_hw (mmio_write a v h)).
End Kernel.
