(* ===== verification/Console.v ===== *)
(** * Console output and input (kernel/uart.c, kernel/printf.c, kernel/console.c, kernel/plic.c)

    Characters go to and come from the registers of the UART ([Hardware]).
    Loops that wait for the device or for another process are bounded by
    [fuel] and hang beyond it. *)

From S2P Require Import Prelude Riscv Mem Random Spinlock Kalloc Pagetable Uvm Block Bio Log Fs FsInst Proc Kern.

Definition UART0 : Z := 0x10000000.
Definition UART0_IRQ : Z := 10.
Definition VIRTIO0_IRQ : Z := 1.
Definition PLIC : Z := 0x0c000000.
Definition PLIC_SENABLE (hart : Z) : Z := PLIC + 0x2080 + hart * 0x100.
Definition PLIC_SPRIORITY (hart : Z) : Z := PLIC + 0x201000 + hart * 0x2000.
Definition PLIC_SCLAIM (hart : Z) : Z := PLIC + 0x201004 + hart * 0x2000.

(** Registers of the 16550. *)
Definition RHR : Z := 0.
Definition THR : Z := 0.
Definition IER : Z := 1.
Definition FCR : Z := 2.
Definition LCR : Z := 3.
Definition LSR : Z := 5.
Definition LSR_TX_IDLE : Z := 32.

Definition LK_UART : lockid := ("uart"%string, 0).
Definition LK_PR : lockid := ("pr"%string, 0).
Definition LK_CONS : lockid := ("cons"%string, 0).
Definition UART_TX_R : chan := ("uart_tx_r"%string, 0).
Definition CONS_R : chan := ("cons.r"%string, 0).

(** ** Formatting *)

(** [digits[]]. *)
Definition digit (d : Z) : Z := if d <? 10 then 48 + d else 87 + d.

(** [do { buf[i++] = digits[x % base]; } while((x /= base) != 0)]: the
    characters, least significant first.  A [uint] has at most 32 digits. *)
Fixpoint digits_rev (fuel : nat) (x base : Z) : list Z :=
  match fuel with
  | O => []
  | S fuel' => digit (x mod base) :: (if x / base =? 0 then [] else digits_rev fuel' (x / base) base)
  end.

Definition int_chars (xx base : Z) (sign : bool) : list Z :=
  let neg := sign && (xx <? 0) in
  let x := if neg then u32 (- xx) else u32 xx in
  (if neg then [45] else []) ++ rev (digits_rev 32 x base).

Definition ptr_chars (x : Z) : list Z :=
  48 :: 120 :: ((λ i, digit (Z.land (Z.shiftr x (60 - 4 * i)) 15)) <$> seqZ 0 16).

(** The arguments of [printf]. *)
Inductive arg := AInt (v : Z) | APtr (v : Z) | AStr (s : option (list Z)).

Definition null_str : list Z := [40; 110; 117; 108; 108; 41].

(** The loop of [printf]: the characters passed to [consputc].  An argument
    that is missing or of another type is undefined. *)
Fixpoint format (fmt : list Z) (ap : list arg) : option (list Z) :=
  match fmt with
  | [] => Some []
  | c :: fmt' =>
      if negb (c =? 37) then l ← format fmt' ap; Some (c :: l)
      else match fmt' with
           | [] => Some []
           | d :: rest =>
               if d =? 100 then match ap with AInt v :: ap' => l ← format rest ap'; Some (int_chars v 10 true ++ l) | _ => None end
               else if d =? 120 then match ap with AInt v :: ap' => l ← format rest ap'; Some (int_chars v 16 true ++ l) | _ => None end
               else if d =? 112 then match ap with APtr v :: ap' => l ← format rest ap'; Some (ptr_chars v ++ l) | _ => None end
               else if d =? 115 then match ap with AStr s :: ap' => l ← format rest ap'; Some (default null_str s ++ l) | _ => None end
               else if d =? 37 then l ← format rest ap; Some (37 :: l)
               else l ← format rest ap; Some (37 :: d :: l)
           end
  end.

(** A string literal as bytes. *)
Definition str (s : string) : list Z := (λ c, Z.of_N (Ascii.N_of_ascii c)) <$> String.list_ascii_of_string s.
Arguments str s%_string.

Section Console.
Context `{Hardware} `{!Switch kern}.
Variable fuel : nat.
Abbreviation ks := (kst kern).

Definition ReadReg (r : Z) : M ks Z := read_reg (UART0 + r).
Definition WriteReg (r v : Z) : M ks unit := write_reg (UART0 + r) v.

(** ** uart.c *)

Definition uartinit : M ks unit :=
  WriteReg IER 0 ;;
  WriteReg LCR 128 ;;
  WriteReg 0 3 ;;
  WriteReg 1 0 ;;
  WriteReg LCR 3 ;;
  WriteReg FCR (Z.lor 1 6) ;;
  WriteReg IER (Z.lor 2 1) ;;
  zoom (initlock LK_UART).

(** [if(panicked) for(;;);]. *)
Definition freeze_if_panicked : M ks unit :=
  let! p := getk kn_panicked in
  if truthy p then hang else ret tt.

(** [while((ReadReg(LSR) & LSR_TX_IDLE) == 0);]. *)
Fixpoint wait_tx_idle (n : nat) : M ks unit :=
  match n with
  | O => hang
  | S n' => let! v := ReadReg LSR in if Z.land v LSR_TX_IDLE =? 0 then wait_tx_idle n' else ret tt
  end.

Definition uartputc_sync (c : Z) : M ks unit :=
  zoom push_off ;;
  freeze_if_panicked ;;
  wait_tx_idle fuel ;;
  WriteReg THR (u8 c) ;;
  zoom pop_off.

(** A turn per character of the buffer. *)
Fixpoint uartstart_loop (n : nat) : M ks unit :=
  match n with
  | O => hang
  | S n' =>
      let! u := getk kn_uart in
      if uart_tx_w u =? uart_tx_r u then ret tt
      else
        let! v := ReadReg LSR in
        if Z.land v LSR_TX_IDLE =? 0 then ret tt
        else
          let c := nth (Z.to_nat (uart_tx_r u mod UART_TX_BUF_SIZE)) (uart_tx_buf u) 0 in
          setk (set_uart (mkUart (uart_tx_buf u) (uart_tx_w u) (u64 (uart_tx_r u + 1)))) ;;
          wakeup UART_TX_R ;;
          WriteReg THR c ;;
          uartstart_loop n'
  end.
Definition uartstart : M ks unit :=
  let! u := getk kn_uart in
  uartstart_loop (S (Z.to_nat (u64 (uart_tx_w u - uart_tx_r u)))).

(** [while(1)] of [uartputc]. *)
Fixpoint uartputc_loop (n : nat) (c : Z) : M ks unit :=
  match n with
  | O => hang
  | S n' =>
      let! u := getk kn_uart in
      if uart_tx_w u =? u64 (uart_tx_r u + UART_TX_BUF_SIZE) then
        sleep UART_TX_R LK_UART ;;
        uartputc_loop n' c
      else
        setk (set_uart (mkUart (<[Z.to_nat (uart_tx_w u mod UART_TX_BUF_SIZE) := u8 c]> (uart_tx_buf u))
                          (u64 (uart_tx_w u + 1)) (uart_tx_r u))) ;;
        uartstart ;;
        zoom (release LK_UART)
  end.
Definition uartputc (c : Z) : M ks unit :=
  zoom (acquire LK_UART) ;;
  freeze_if_panicked ;;
  uartputc_loop fuel c.

Definition uartgetc : M ks Z :=
  let! v := ReadReg LSR in
  if truthy (Z.land v 1) then ReadReg RHR else ret (-1).

(** ** console.c: output *)

Definition BACKSPACE : Z := 0x100.

Definition consputc (c : Z) : M ks unit :=
  if c =? BACKSPACE then
    uartputc_sync 8 ;;
    uartputc_sync 32 ;;
    uartputc_sync 8
  else uartputc_sync c.

(** ** printf.c *)

Fixpoint put_chars (l : list Z) : M ks unit :=
  match l with
  | [] => ret tt
  | c :: l' => consputc c ;; put_chars l'
  end.

(** [pr.locking] is 1 from [printfinit] on and until a panic. *)
Definition printf (fmt : list Z) (ap : list arg) : M ks unit :=
  zoom (acquire LK_PR) ;;
  match format fmt ap with
  | None => undef
  | Some l => put_chars l ;; zoom (release LK_PR)
  end.

Definition printfinit : M ks unit := zoom (initlock LK_PR).

(** ** procdump (proc.c) *)

Definition state_name (st : procstate) : list Z :=
  match st with
  | UNUSED => str "unused" | SLEEPING => str "sleep " | RUNNABLE => str "runble" | RUNNING => str "run   " | ZOMBIE => str "zombie"
  | USED => str "???"
  end.

(** The characters of a string before its NUL. *)
Fixpoint c_str (l : list Z) : list Z :=
  match l with
  | [] => []
  | c :: l' => if c =? 0 then [] else c :: c_str l'
  end.

Definition procdump : M ks unit :=
  printf [10] [] ;;
  let! _ := for_ (R := unit) NPROC 0 1 (λ i,
    let! p := getp id i in
    if bool_decide (p_state p = UNUSED) then ret None
    else
      printf (str "%d %s %s") [AInt (p_pid p); AStr (Some (state_name (p_state p))); AStr (Some (c_str (p_name p)))] ;;
      printf [10] [] ;;
      ret None) in
  ret tt.

(** ** console.c: input and the system calls *)

Definition set_r (v : Z) (c : console) : console := mkCons (cons_buf c) v (cons_w c) (cons_e c).
Definition set_w (v : Z) (c : console) : console := mkCons (cons_buf c) (cons_r c) v (cons_e c).
Definition set_e (v : Z) (c : console) : console := mkCons (cons_buf c) (cons_r c) (cons_w c) v.
Definition store_char (ch : Z) (c : console) : console :=
  mkCons (<[Z.to_nat (cons_e c mod INPUT_BUF) := u8 ch]> (cons_buf c)) (cons_r c) (cons_w c) (u32 (cons_e c + 1)).
Definition setc (f : console → console) : M ks unit := setk (λ k, set_cons (f (kn_cons k)) k).
Definition buf_char (c : console) (i : Z) : Z := nth (Z.to_nat (i mod INPUT_BUF)) (cons_buf c) 0.

(** [for(i = 0; i < n; i++)]. *)
Fixpoint consolewrite_loop (n : nat) (user_src src i : Z) : M ks Z :=
  match n with
  | O => ret i
  | S n' =>
      let! rc := either_copyin user_src (u64 (src + i)) 1 in
      if rc.1 =? -1 then ret i
      else uartputc (hd 0 rc.2) ;; consolewrite_loop n' user_src src (i + 1)
  end.
Definition consolewrite (user_src src n : Z) : M ks Z := consolewrite_loop (Z.to_nat n) user_src src 0.

(** [while(cons.r == cons.w)]: answers [true] when the process was killed. *)
Fixpoint wait_input (n : nat) : M ks bool :=
  match n with
  | O => hang
  | S n' =>
      let! c := getk kn_cons in
      if cons_r c =? cons_w c then
        let! p := me in
        let! k := getp p_killed p in
        if truthy k then zoom (release LK_CONS) ;; ret true
        else sleep CONS_R LK_CONS ;; wait_input n'
      else ret false
  end.

(** The outer loop: the [n] left to read, or [None] when killed. *)
Fixpoint consoleread_loop (m : nat) (user_dst dst n target : Z) : M ks (option Z) :=
  match m with
  | O => ret (Some n)
  | S m' =>
      let! killed := wait_input fuel in
      if (killed : bool) then ret None
      else
        let! k := getk kn_cons in
        let c := buf_char k (cons_r k) in
        setc (λ k, set_r (u32 (cons_r k + 1)) k) ;;
        if c =? 4 then
          (if u32 n <? target then setc (λ k, set_r (u32 (cons_r k - 1)) k) else ret tt) ;;
          ret (Some n)
        else
          let! r := either_copyout user_dst dst [c] in
          if r =? -1 then ret (Some n)
          else if c =? 10 then ret (Some (n - 1))
          else consoleread_loop m' user_dst (u64 (dst + 1)) (n - 1) target
  end.
Definition consoleread (user_dst dst n : Z) : M ks Z :=
  let target := u32 n in
  zoom (acquire LK_CONS) ;;
  let! r := consoleread_loop (Z.to_nat n) user_dst dst n target in
  match r with
  | None => ret (-1)
  | Some n => zoom (release LK_CONS) ;; ret (s32 (target - n))
  end.

(** [case C('U')]: a turn per character of the line. *)
Fixpoint kill_line (n : nat) : M ks unit :=
  match n with
  | O => ret tt
  | S n' =>
      let! c := getk kn_cons in
      if negb (cons_e c =? cons_w c) && negb (buf_char c (u32 (cons_e c - 1)) =? 10) then
        setc (λ c, set_e (u32 (cons_e c - 1)) c) ;;
        consputc BACKSPACE ;;
        kill_line n'
      else ret tt
  end.

Definition consoleintr (c : Z) : M ks unit :=
  zoom (acquire LK_CONS) ;;
  (if c =? 16 then procdump
   else if c =? 21 then
     let! k := getk kn_cons in
     kill_line (Z.to_nat (u32 (cons_e k - cons_w k)))
   else if (c =? 8) || (c =? 127) then
     let! k := getk kn_cons in
     if negb (cons_e k =? cons_w k) then setc (λ k, set_e (u32 (cons_e k - 1)) k) ;; consputc BACKSPACE
     else ret tt
   else
     let! k := getk kn_cons in
     if truthy c && (u32 (cons_e k - cons_r k) <? INPUT_BUF) then
       let c := if c =? 13 then 10 else c in
       consputc c ;;
       setc (store_char c) ;;
       let! k := getk kn_cons in
       if (c =? 10) || (c =? 4) || (cons_e k =? u32 (cons_r k + INPUT_BUF)) then
         setc (λ k, set_w (cons_e k) k) ;;
         wakeup CONS_R
       else ret tt
     else ret tt) ;;
  zoom (release LK_CONS).

(** [while(1)] of [uartintr]. *)
Fixpoint read_chars (n : nat) : M ks unit :=
  match n with
  | O => hang
  | S n' =>
      let! c := uartgetc in
      if c =? -1 then ret tt else consoleintr c ;; read_chars n'
  end.
Definition uartintr : M ks unit :=
  read_chars fuel ;;
  zoom (acquire LK_UART) ;;
  uartstart ;;
  zoom (release LK_UART).

Definition CONSOLE : Z := 1.
Definition consoleinit : M ks unit :=
  zoom (initlock LK_CONS) ;;
  uartinit ;;
  setk (λ k, set_devsw (<[CONSOLE := (true, true)]> (kn_devsw k)) k).

(** ** plic.c *)

Definition plicinit : M ks unit :=
  write_reg (PLIC + UART0_IRQ * 4) 1 ;;
  write_reg (PLIC + VIRTIO0_IRQ * 4) 1.
Definition plicinithart : M ks unit :=
  let! hart := zoom cpuid in
  write_reg (PLIC_SENABLE hart) (Z.lor (Z.shiftl 1 UART0_IRQ) (Z.shiftl 1 VIRTIO0_IRQ)) ;;
  write_reg (PLIC_SPRIORITY hart) 0.
Definition plic_claim : M ks Z :=
  let! hart := zoom cpuid in
  let! irq := read_reg (PLIC_SCLAIM hart) in
  ret (s32 irq).
Definition plic_complete (irq : Z) : M ks unit :=
  let! hart := zoom cpuid in
  write_reg (PLIC_SCLAIM hart) (u32 irq).
End Console.
