(* ===== verification/File.v ===== *)
(** * Pipes and open files (kernel/pipe.c, kernel/file.c)

    A [struct pipe *] is the address of its page, a [struct file *] an index of
    [ftable.file]. *)

From S2P Require Import Prelude Riscv Mem Random Spinlock Kalloc Pagetable Uvm Block Bio Log Fs FsInst Proc Kern Console.

Definition LK_FTABLE : lockid := ("ftable"%string, 0).
Definition LK_PIPE (pi : Z) : lockid := ("pipe"%string, pi).
Definition PIPE_NREAD (pi : Z) : chan := ("pipe.nread"%string, pi).
Definition PIPE_NWRITE (pi : Z) : chan := ("pipe.nwrite"%string, pi).

(** The offset of [data] in [struct pipe]. *)
Abbreviation PIPE_DATA := 24.

Definition set_nread (v : Z) (p : pipe) : pipe := mkPipe (pi_data p) v (pi_nwrite p) (pi_readopen p) (pi_writeopen p).
Definition set_readopen (v : Z) (p : pipe) : pipe := mkPipe (pi_data p) (pi_nread p) (pi_nwrite p) v (pi_writeopen p).
Definition set_writeopen (v : Z) (p : pipe) : pipe := mkPipe (pi_data p) (pi_nread p) (pi_nwrite p) (pi_readopen p) v.

(** [pi->data[pi->nwrite++ % PIPESIZE] = ch]. *)
Definition push_byte (ch : Z) (p : pipe) : pipe :=
  mkPipe (<[Z.to_nat (pi_nwrite p mod PIPESIZE) := u8 ch]> (pi_data p)) (pi_nread p) (u32 (pi_nwrite p + 1)) (pi_readopen p) (pi_writeopen p).
(** [pi->data[pi->nread++ % PIPESIZE]]. *)
Definition front_byte (p : pipe) : Z := nth (Z.to_nat (pi_nread p mod PIPESIZE)) (pi_data p) 0.
Definition pipe_full (p : pipe) : bool := pi_nwrite p =? u32 (pi_nread p + PIPESIZE).
Definition pipe_empty (p : pipe) : bool := pi_nread p =? pi_nwrite p.

Section File.
Context `{Hardware} `{Linker} `{!Switch kern}.
(** Turns of a loop that sleeps, before it is given up. *)
Variable fuel : nat.
Abbreviation ks := (kst kern).

(** ** pipe.c: reading, writing, closing *)

Definition pipeclose (pi writable : Z) : M ks unit :=
  zoom (acquire (LK_PIPE pi)) ;;
  (if truthy writable then setpi pi (set_writeopen 0) ;; wakeup (PIPE_NREAD pi)
   else setpi pi (set_readopen 0) ;; wakeup (PIPE_NWRITE pi)) ;;
  let! p := getpi id pi in
  if (pi_readopen p =? 0) && (pi_writeopen p =? 0) then
    zoom (release (LK_PIPE pi)) ;;
    zoom (T := machine) (kfree pi)
  else zoom (release (LK_PIPE pi)).

(** [while(i < n)]; [inl] is the early return.  A turn writes a byte or sleeps. *)
Fixpoint pipewrite_loop (m : nat) (pr pi addr n i : Z) : M ks (Z + Z) :=
  match m with
  | O => hang
  | S m' =>
      if i <? n then
        let! p := getpi id pi in
        let! killed := getp p_killed pr in
        if (pi_readopen p =? 0) || truthy killed then zoom (release (LK_PIPE pi)) ;; ret (inl (-1))
        else if pipe_full p then
          wakeup (PIPE_NREAD pi) ;;
          sleep (PIPE_NWRITE pi) (LK_PIPE pi) ;;
          pipewrite_loop m' pr pi addr n i
        else
          let! u := getp p_uvm pr in
          let! rc := zoom (T := ust kern) (copyin u (u64 (addr + i)) 1) in
          if rc.1 =? -1 then ret (inr i)
          else setpi pi (push_byte (hd 0 rc.2)) ;; pipewrite_loop m' pr pi addr n (i + 1)
      else ret (inr i)
  end.
Definition pipewrite (pi addr n : Z) : M ks Z :=
  let! pr := me in
  zoom (acquire (LK_PIPE pi)) ;;
  let! r := pipewrite_loop (Z.to_nat n + fuel) pr pi addr n 0 in
  match r with
  | inl v => ret v
  | inr i => wakeup (PIPE_NREAD pi) ;; zoom (release (LK_PIPE pi)) ;; ret i
  end.

(** [while(pi->nread == pi->nwrite && pi->writeopen)]: answers [true] when the
    process was killed. *)
Fixpoint wait_data (m : nat) (pr pi : Z) : M ks bool :=
  match m with
  | O => hang
  | S m' =>
      let! p := getpi id pi in
      if pipe_empty p && truthy (pi_writeopen p) then
        let! killed := getp p_killed pr in
        if truthy killed then zoom (release (LK_PIPE pi)) ;; ret true
        else sleep (PIPE_NREAD pi) (LK_PIPE pi) ;; wait_data m' pr pi
      else ret false
  end.

(** [for(i = 0; i < n; i++)]: a byte that cannot be copied out is lost. *)
Fixpoint piperead_loop (m : nat) (pr pi addr i : Z) : M ks Z :=
  match m with
  | O => ret i
  | S m' =>
      let! p := getpi id pi in
      if pipe_empty p then ret i
      else
        setpi pi (set_nread (u32 (pi_nread p + 1))) ;;
        let! u := getp p_uvm pr in
        let! r := zoom (T := ust kern) (copyout u (u64 (addr + i)) [front_byte p]) in
        if r =? -1 then ret i else piperead_loop m' pr pi addr (i + 1)
  end.
Definition piperead (pi addr n : Z) : M ks Z :=
  let! pr := me in
  zoom (acquire (LK_PIPE pi)) ;;
  let! killed := wait_data fuel pr pi in
  if (killed : bool) then ret (-1)
  else
    let! i := piperead_loop (Z.to_nat n) pr pi addr 0 in
    wakeup (PIPE_NWRITE pi) ;;
    zoom (release (LK_PIPE pi)) ;;
    ret i.

(** ** file.c *)

Definition fileinit : M ks unit := zoom (initlock LK_FTABLE).

Definition filealloc : M ks (option Z) :=
  zoom (acquire LK_FTABLE) ;;
  let! r := for_ NFILE 0 1 (λ f,
    let! ref := getf fl_ref f in
    if ref =? 0 then
      setf f (set_fref 1) ;;
      zoom (release LK_FTABLE) ;;
      ret (Some f)
    else ret None) in
  match r with
  | Some f => ret (Some f)
  | None => zoom (release LK_FTABLE) ;; ret None
  end.

Definition filedup (f : Z) : M ks Z :=
  zoom (acquire LK_FTABLE) ;;
  let! ref := getf fl_ref f in
  if ref <? 1 then panic "filedup"
  else
    let! ref' := as_int (ref + 1) in
    setf f (set_fref ref') ;;
    zoom (release LK_FTABLE) ;;
    ret f.

Definition fileclose (f : Z) : M ks unit :=
  zoom (acquire LK_FTABLE) ;;
  let! ref := getf fl_ref f in
  if ref <? 1 then panic "fileclose"
  else
    setf f (set_fref (ref - 1)) ;;
    if 0 <? ref - 1 then zoom (release LK_FTABLE)
    else
      let! ff := getf id f in
      setf f (set_fref 0) ;;
      setf f (set_ftype FD_NONE) ;;
      zoom (release LK_FTABLE) ;;
      match fl_type ff with
      | FD_PIPE => pipeclose (fl_pipe ff) (fl_writable ff)
      | FD_INODE | FD_DEVICE =>
          begin_op ;;
          fsop (Fs.iput (fl_ip ff)) ;;
          end_op
      | FD_NONE => ret tt
      end.

(** What proc.c uses. *)
#[export] Instance kern_files : FileOps kern := {|
  Proc.filedup := filedup;
  Proc.fileclose := fileclose;
  namei_root := fsop (Fs.namei [SLASH]);
  fsinit_root := fsop (Fs.fsinit Fs.ROOTDEV)
|}.

(** ** pipe.c: [pipealloc] *)

Definition close_if (f : option Z) : M ks unit :=
  match f with Some f => fileclose f | None => ret tt end.

(** [bad:] with [pi] = 0. *)
Definition pipealloc_bad (f0 f1 : option Z) : M ks (option (Z * Z)) :=
  close_if f0 ;;
  close_if f1 ;;
  ret None.

(** [None] is -1. *)
Definition pipealloc : M ks (option (Z * Z)) :=
  let! f0 := filealloc in
  match f0 with
  | None => pipealloc_bad None None
  | Some a =>
      let! f1 := filealloc in
      match f1 with
      | None => pipealloc_bad f0 None
      | Some b =>
          let! pi := zoom (T := machine) kalloc in
          if pi =? 0 then pipealloc_bad f0 f1
          else
            let! d := zoom (T := machine) (gets (λ m, get_bytes (m_mem m) (pi + PIPE_DATA) (Z.to_nat PIPESIZE))) in
            setpi pi (λ _, mkPipe d 0 0 1 1) ;;
            zoom (initlock (LK_PIPE pi)) ;;
            setf a (set_ftype FD_PIPE) ;;
            setf a (set_fmodes 1 0) ;;
            setf a (set_fpipe pi) ;;
            setf b (set_ftype FD_PIPE) ;;
            setf b (set_fmodes 0 1) ;;
            setf b (set_fpipe pi) ;;
            ret (Some (a, b))
      end
  end.

(** ** Reading and writing a file *)

(** [struct stat]: [int dev; uint ino; short type; short nlink; uint64 size],
    24 bytes with 4 of padding before [size]; [pad] is what the stack has
    there. *)
Definition stat_bytes (pad : list Z) (x : fstat) : list Z :=
  le 4 (st_dev x) ++ le 4 (st_ino x) ++ le 2 (st_type x) ++ le 2 (st_nlink x) ++ take 4 (pad ++ replicate 4 0) ++ le 8 (st_size x).

Definition filestat (pad : list Z) (f addr : Z) : M ks Z :=
  let! p := me in
  let! x := getf id f in
  if bool_decide (fl_type x = FD_INODE) || bool_decide (fl_type x = FD_DEVICE) then
    fsop (Fs.ilock (fl_ip x)) ;;
    let! st := fsop (Fs.stati (fl_ip x)) in
    fsop (Fs.iunlock (fl_ip x)) ;;
    let! u := getp p_uvm p in
    let! r := zoom (T := ust kern) (copyout u addr (stat_bytes pad st)) in
    if r <? 0 then ret (-1) else ret 0
  else ret (-1).

Definition has_read (d : gmap Z (bool * bool)) (major : Z) : bool := default false (fst <$> d !! major).
Definition has_write (d : gmap Z (bool * bool)) (major : Z) : bool := default false (snd <$> d !! major).

Definition fileread (f addr n : Z) : M ks Z :=
  let! x := getf id f in
  if fl_readable x =? 0 then ret (-1)
  else
    match fl_type x with
    | FD_PIPE => piperead (fl_pipe x) addr n
    | FD_DEVICE =>
        let! d := getk kn_devsw in
        if (fl_major x <? 0) || (NDEV <=? fl_major x) || negb (has_read d (fl_major x)) then ret (-1)
        else consoleread fuel 1 addr n
    | FD_INODE =>
        fsop (Fs.ilock (fl_ip x)) ;;
        let! r := Fs.readi (either_copyout 1) (fl_ip x) addr (fl_off x) (u32 n) in
        (if 0 <? r then setf f (set_foff (u32 (fl_off x + r))) else ret tt) ;;
        fsop (Fs.iunlock (fl_ip x)) ;;
        ret r
    | FD_NONE => panic "fileread"
    end.

(** The most bytes of one transaction: [((MAXOPBLOCKS-1-1-2) / 2) * BSIZE]. *)
Definition max_write : Z := ((MAXOPBLOCKS - 1 - 1 - 2) / 2) * BSIZE.

(** [while(i < n)], at most [max_write] bytes a turn: the final [i]. *)
Fixpoint filewrite_loop (m : nat) (f addr n i : Z) : M ks Z :=
  match m with
  | O => hang
  | S m' =>
      if i <? n then
        let n1 := if max_write <? n - i then max_write else n - i in
        begin_op ;;
        let! x := getf id f in
        fsop (Fs.ilock (fl_ip x)) ;;
        let! r := Fs.writei (λ src n, either_copyin 1 src n) (fl_ip x) (u64 (addr + i)) (fl_off x) n1 in
        (if 0 <? r then setf f (set_foff (u32 (fl_off x + r))) else ret tt) ;;
        fsop (Fs.iunlock (fl_ip x)) ;;
        end_op ;;
        if negb (r =? n1) then ret i else filewrite_loop m' f addr n (i + r)
      else ret i
  end.

Definition filewrite (f addr n : Z) : M ks Z :=
  let! x := getf id f in
  if fl_writable x =? 0 then ret (-1)
  else
    match fl_type x with
    | FD_PIPE => pipewrite (fl_pipe x) addr n
    | FD_DEVICE =>
        let! d := getk kn_devsw in
        if (fl_major x <? 0) || (NDEV <=? fl_major x) || negb (has_write d (fl_major x)) then ret (-1)
        else consolewrite fuel 1 addr n
    | FD_INODE =>
        let! i := filewrite_loop (S (Z.to_nat (n / max_write + 1))) f addr n 0 in
        ret (if i =? n then n else -1)
    | FD_NONE => panic "filewrite"
    end.
End File.
