(* ===== verification/Sysproc.v ===== *)
(** * System call arguments and the system calls on processes
    (kernel/syscall.c, kernel/sysproc.c)

    The arguments of a system call are the registers in the trapframe, a page
    of memory.  The answer of a system call is the [uint64] that goes to [a0]. *)

From S2P Require Import Prelude Riscv Mem Random Spinlock Kalloc Pagetable Uvm Block Bio Log Fs FsInst Proc Kern Console File.

Definition MAXPATH : Z := 128.
Definition MAXARG : nat := 32.
Definition LK_TICKS : lockid := ("time"%string, 0).
Definition TICKS : chan := ("ticks"%string, 0).

(** The offsets of [a1] and [a7] in [struct trapframe]. *)
Abbreviation TF_A1 := 120.
Abbreviation TF_A7 := 168.

Section Syscalls.
Context `{Hardware} `{Linker} `{!Switch kern} `{!TrapOps kern}.
Variables (fuel : nat) (forkret_addr : Z).
Abbreviation ks := (kst kern).

(** ** syscall.c: arguments *)

Definition user_uvm : M ks uvm :=
  let! p := me in
  getp p_uvm p.

(** [None] is -1. *)
Definition fetchaddr (addr : Z) : M ks (option Z) :=
  let! u := user_uvm in
  let! rc := zoom (T := ust kern) (copyin u addr 8) in
  if negb (rc.1 =? 0) then ret None else ret (Some (unle rc.2)).

(** The bytes before the NUL. *)
Definition fetchstr (addr max : Z) : M ks (option (list Z)) :=
  let! u := user_uvm in
  let! rc := zoom (T := ust kern) (copyinstr u addr max) in
  if rc.1 <? 0 then ret None else ret (Some (c_str rc.2)).

Definition load_tf (off : Z) : M ks Z :=
  let! p := me in
  let! tf := getp p_trapframe p in
  zoom (T := machine) (load64 (tf + off)).

Definition argraw (n : Z) : M ks Z :=
  if (0 <=? n) && (n <=? 5) then load_tf (TF_A0 + 8 * n) else panic "argraw".

Definition argint (n : Z) : M ks Z := let! v := argraw n in ret (s32 v).
Definition argaddr (n : Z) : M ks Z := argraw n.
Definition argstr (n max : Z) : M ks (option (list Z)) :=
  let! addr := argaddr n in
  fetchstr addr max.

(** ** sysproc.c *)

(** [exit] does not return. *)
Definition sys_exit : M ks Z :=
  let! n := argint 0 in
  exit n ;;
  ret 0.

Definition sys_getpid : M ks Z :=
  let! p := me in
  let! pid := getp p_pid p in
  ret (u64 pid).

Definition sys_fork : M ks Z := let! r := fork forkret_addr in ret (u64 r).

Definition sys_wait : M ks Z :=
  let! p := argaddr 0 in
  let! r := wait fuel p in
  ret (u64 r).

Definition sys_sbrk : M ks Z :=
  let! n := argint 0 in
  let! p := me in
  let! u := getp p_uvm p in
  match heap u with
  | None => panic "sys_sbrk"
  | Some h =>
      let! v := zoom (T := ust kern) (getv h) in
      let addr := v_end v in
      let! ru := zoom (T := ust kern) (uvm_growheap u n) in
      setp p (set_puvm ru.2) ;;
      if ru.1 <? 0 then ret (u64 (-1)) else ret addr
  end.

(** [while (ticks - ticks0 < n)]: the comparison is on [uint]s. *)
Fixpoint sleep_loop (m : nat) (ticks0 n : Z) : M ks Z :=
  match m with
  | O => hang
  | S m' =>
      let! t := getk kn_ticks in
      if u32 (t - ticks0) <? u32 n then
        let! p := me in
        let! k := getp p_killed p in
        if truthy k then zoom (release LK_TICKS) ;; ret (u64 (-1))
        else sleep TICKS LK_TICKS ;; sleep_loop m' ticks0 n
      else zoom (release LK_TICKS) ;; ret 0
  end.
Definition sys_sleep : M ks Z :=
  let! n := argint 0 in
  zoom (acquire LK_TICKS) ;;
  let! ticks0 := getk kn_ticks in
  sleep_loop fuel ticks0 n.

Definition sys_kill : M ks Z :=
  let! pid := argint 0 in
  let! r := kill pid in
  ret (u64 r).

Definition sys_uptime : M ks Z :=
  zoom (acquire LK_TICKS) ;;
  let! xticks := getk kn_ticks in
  zoom (release LK_TICKS) ;;
  ret xticks.

Definition sys_settickets : M ks Z :=
  let! n := argint 0 in
  if n <? 1 then ret (u64 (-1))
  else
    let! p := me in
    setp p (set_ptickets n) ;;
    ret 0.

(** [struct pstat]: four arrays of [NPROC] [int]s. *)
Definition pstat_bytes (l : list proc) : list Z :=
  mjoin ((λ p, le 4 (if bool_decide (p_state p = UNUSED) then 0 else 1)) <$> l) ++
  mjoin ((λ p, le 4 (p_tickets p)) <$> l) ++
  mjoin ((λ p, le 4 (p_pid p)) <$> l) ++
  mjoin ((λ p, le 4 (p_ticks p)) <$> l).

Definition sys_getpinfo : M ks Z :=
  let! useraddr := argaddr 0 in
  if useraddr =? 0 then ret (u64 (-1))
  else
    let! t := gets k_procs in
    let! u := user_uvm in
    let! r := zoom (T := ust kern) (copyout u useraddr (pstat_bytes (proc_at t <$> seqZ 0 (Z.of_nat NPROC)))) in
    ret (u64 r).
End Syscalls.
