(* ===== verification/Exec.v ===== *)
(** * Running a program (kernel/exec.c)

    The new memory is built in a [struct uvm] of its own, then replaces that of
    the process.  The headers are read from the file as bytes; [argv] is the
    list of the argument strings, without their NUL. *)

From S2P Require Import Prelude Riscv Mem Random Spinlock Kalloc Pagetable Uvm Block Bio Log Fs FsInst Proc Kern Console File Sysproc.

Definition ELF_MAGIC : Z := 0x464C457F.
Definition ELF_PROG_LOAD : Z := 1.

(** [struct elfhdr] is 64 bytes, [struct proghdr] 56 (elf.h). *)
Definition ELFHDR : Z := 64.
Definition PROGHDR : Z := 56.
Definition elf_magic (h : list Z) : Z := get_u32 h 0.
Definition elf_entry (h : list Z) : Z := get 8 h 24.
Definition elf_phoff (h : list Z) : Z := get 8 h 32.
Definition elf_phnum (h : list Z) : Z := get_u16 h 56.
Definition ph_type (h : list Z) : Z := get_u32 h 0.
Definition ph_flags (h : list Z) : Z := get_u32 h 4.
Definition ph_off (h : list Z) : Z := get 8 h 8.
Definition ph_vaddr (h : list Z) : Z := get 8 h 16.
Definition ph_filesz (h : list Z) : Z := get 8 h 32.
Definition ph_memsz (h : list Z) : Z := get 8 h 40.

(** [perm |= ph.flags & ELF_PROG_FLAG_... ? PTE_... : 0]. *)
Definition ph_perm (h : list Z) : Z :=
  Z.lor (Z.lor (if truthy (Z.land (ph_flags h) 4) then PTE_R else 0) (if truthy (Z.land (ph_flags h) 2) then PTE_W else 0))
    (if truthy (Z.land (ph_flags h) 1) then PTE_X else 0).

Abbreviation RWX := (Z.lor PTE_R (Z.lor PTE_W PTE_X)).

(** The part of the path after its last slash. *)
Fixpoint last_name (path last : list Z) : list Z :=
  match path with
  | [] => last
  | c :: path' => last_name path' (if c =? SLASH then path' else last)
  end.

Section Exec.
Context `{Hardware} `{Linker}.
Abbreviation ks := (kst kern).
Definition U {A} (m : M (ust kern) A) : M ks A := zoom m.

(** [bad:]; [ip] is the inode when it is still locked. *)
Definition exec_bad (u : uvm) (ip : option Z) : M ks Z :=
  let! _ := U (uvm_free u) in
  match ip with
  | Some ip => fsop (Fs.iunlockput ip) ;; end_op ;; ret (-1)
  | None => ret (-1)
  end.

(** The program headers: [n] of them from [off] on.  Answers whether all is
    well, the memory and the highest address. *)
Fixpoint exec_load (n : nat) (ip off : Z) (u : uvm) (highest : Z) : M ks (bool * uvm * Z) :=
  match n with
  | O => ret (true, u, highest)
  | S n' =>
      let! rd := fsop (Fs.readi_buf ip (u32 off) PROGHDR) in
      let ph := rd.2 in
      if negb (rd.1 =? PROGHDR) then ret (false, u, highest)
      else if negb (ph_type ph =? ELF_PROG_LOAD) then exec_load n' ip (s32 (off + PROGHDR)) u highest
      else if ph_memsz ph <? ph_filesz ph then ret (false, u, highest)
      else if u64 (ph_vaddr ph + ph_memsz ph) <? ph_vaddr ph then ret (false, u, highest)
      else if negb (ph_vaddr ph mod PGSIZE =? 0) then ret (false, u, highest)
      else
        let! ru := U (uvm_map u (ph_vaddr ph) (ph_memsz ph) (ph_perm ph) MAP_PRIVATE (Some ip) (u32 (ph_off ph)) (u32 (ph_filesz ph))) in
        if ru.1 =? u64 (-1) then ret (false, ru.2, highest)
        else exec_load n' ip (s32 (off + PROGHDR)) ru.2 (MAX highest (u64 (ph_vaddr ph + ph_memsz ph)))
  end.

(** The argument strings: the final [sp] and [ustack[0..argc)], or [None]. *)
Fixpoint push_args (argv : list (list Z)) (argc : nat) (u : uvm) (sp stackbase : Z) (ustack : list Z) : M ks (option (Z * list Z)) :=
  match argv with
  | [] => ret (Some (sp, ustack))
  | s :: argv' =>
      if (MAXARG <=? argc)%nat then ret None
      else
        let sp := u64 (sp - (Z.of_nat (length s) + 1)) in
        let sp := u64 (sp - sp mod 16) in
        if sp <? stackbase then ret None
        else
          let! r := U (copyout u sp (s ++ [0])) in
          if r <? 0 then ret None else push_args argv' (S argc) u sp stackbase (ustack ++ [sp])
  end.

(** From [p->trapframe->a1 = sp] on: commit to the new image. *)
Definition exec_commit (p : Z) (path : list Z) (u : uvm) (entry sp argc : Z) : M ks Z :=
  let! tf := getp p_trapframe p in
  store_tf tf TF_A1 sp ;;
  setp p (λ q, set_pname (safestrcpy_name (p_name q) (last_name path path)) q) ;;
  let! old := getp p_uvm p in
  let! _ := U (uvm_free old) in
  setp p (set_puvm u) ;;
  store_tf tf TF_EPC entry ;;
  store_tf tf TF_SP sp ;;
  ret (s32 argc).

(** The stack and the heap above the program, the arguments, the commitment. *)
Definition exec_stack (p : Z) (path : list Z) (argv : list (list Z)) (u : uvm) (entry highest : Z) : M ks Z :=
  let base := PGROUNDUP highest in
  let! ru := U (uvm_map u base (2 * PGSIZE) RWX MAP_PRIVATE None 0 0) in
  let u := ru.2 in
  if ru.1 =? u64 (-1) then exec_bad u None
  else
    let! _ := U (uvm_completemap u base PTE_R) in
    zoom (T := machine) (pgt_clearubit (pagetable u) base) ;;
    let sp := u64 (base + 2 * PGSIZE) in
    let stackbase := u64 (sp - PGSIZE) in
    let! ru := U (uvm_map u sp PGSIZE RWX MAP_PRIVATE None 0 0) in
    let u := ru.2 in
    if ru.1 =? u64 (-1) then exec_bad u None
    else
      let! t := U (gets u_vmas) in
      let u := mkUvm (pagetable u) (uvm_vma u) (uvm_va2vma t u sp) in
      let! r := push_args argv 0 u sp stackbase [] in
      match r with
      | None => exec_bad u None
      | Some (sp, ustack) =>
          let argc := Z.of_nat (length ustack) in
          let sp := u64 (sp - (argc + 1) * 8) in
          let sp := u64 (sp - sp mod 16) in
          if sp <? stackbase then exec_bad u None
          else
            let! r := U (copyout u sp (mjoin (le 8 <$> ustack ++ [0]))) in
            if r <? 0 then exec_bad u None else exec_commit p path u entry sp argc
      end.

Definition exec (path : list Z) (argv : list (list Z)) : M ks Z :=
  let! p := me in
  begin_op ;;
  let! r := fsop (Fs.namei path) in
  match r with
  | None => end_op ;; ret (-1)
  | Some ip =>
      fsop (Fs.ilock ip) ;;
      let! rd := fsop (Fs.readi_buf ip 0 ELFHDR) in
      let elf := rd.2 in
      if negb (rd.1 =? ELFHDR) then exec_bad (mkUvm 0 (uvm_vma uvm0) None) (Some ip)
      else if negb (elf_magic elf =? ELF_MAGIC) then exec_bad (mkUvm 0 (uvm_vma uvm0) None) (Some ip)
      else
        let! tf := getp p_trapframe p in
        let! ru := zoom (T := machine) (uvm_new tf) in
        if truthy ru.1 then exec_bad ru.2 (Some ip)
        else
          let! l := exec_load (Z.to_nat (elf_phnum elf)) ip (s32 (elf_phoff elf)) ru.2 0 in
          match l with
          | (ok, u, highest) =>
              if negb ok then exec_bad u (Some ip)
              else
                fsop (Fs.iunlockput ip) ;;
                end_op ;;
                let! p := me in
                exec_stack p path argv u (elf_entry elf) highest
          end
  end.

(** ** [exec] on a file that is not a program

    Before [uvm_new] the local [struct uvm] is zeroed, and [bad:] frees it. *)
Lemma unmap_empty n i pt h s : unmap_slots (K := kern) n i (mkUvm pt (uvm_vma uvm0) h) s = Ok (mkUvm pt (uvm_vma uvm0) h, s).
Proof.
  revert i. induction n as [|n IH]; intros i; [done|]. cbn [unmap_slots uvm_vma].
  destruct (uvm_vma uvm0 !! i) as [[j|]|] eqn:E; [|apply IH..].
  by apply lookup_replicate_1 in E as [? _].
Qed.

Lemma exec_bad_panics ip s : exec_bad (mkUvm 0 (uvm_vma uvm0) None) ip s = Panic "uvm_free".
Proof. unfold exec_bad, U, bind, zoom, uvm_free, bind. by rewrite unmap_empty. Qed.

(** [exec] of a file that is too short, or not an ELF file, panics: the error
    path frees the memory that has not been created. *)
Lemma exec_not_program path argv p ip rd s s0 s1 s2 s3 s4 :
  me s = Ok (p, s0) → begin_op s0 = Ok (tt, s1) → fsop (Fs.namei path) s1 = Ok (Some ip, s2) →
  fsop (Fs.ilock ip) s2 = Ok (tt, s3) → fsop (Fs.readi_buf ip 0 ELFHDR) s3 = Ok (rd, s4) →
  rd.1 ≠ ELFHDR ∨ elf_magic rd.2 ≠ ELF_MAGIC → exec path argv s = Panic "uvm_free".
Proof.
  intros E0 E1 E2 E3 E4 Hbad. unfold exec. unfold bind at 1. rewrite E0. unfold bind at 1. rewrite E1. unfold bind at 1. rewrite E2.
  unfold bind at 1. rewrite E3. unfold bind at 1. rewrite E4.
  destruct (Z.eqb_spec rd.1 ELFHDR) as [H1|H1]; cbn [negb]; [|apply exec_bad_panics].
  destruct (Z.eqb_spec (elf_magic rd.2) ELF_MAGIC) as [H2|H2]; cbn [negb]; [|apply exec_bad_panics]. by destruct Hbad.
Qed.
End Exec.
