(* ===== verification/Sysfile.v ===== *)
(** * System calls on files (kernel/sysfile.c) *)

From S2P Require Import Prelude Riscv Mem Random Spinlock Kalloc Pagetable Uvm Block Bio Log Fs FsInst Proc Kern Console File Sysproc Exec.

Definition O_RDONLY : Z := 0x000.
Definition O_WRONLY : Z := 0x001.
Definition O_RDWR : Z := 0x002.
Definition O_CREATE : Z := 0x200.
Definition O_TRUNC : Z := 0x400.

(** [name] is a path component: the names [.] and [..]. *)
Definition DOT : list Z := [46].
Definition DOTDOT : list Z := [46; 46].

(** [ip->nlink = v], on a [short]. *)
Definition set_nlink (v : Z) (x : inode) : inode :=
  set_meta (i_type x) (i_major x) (i_minor x) (s16 v) (i_size x) (i_addrs x) x.
(** [ip->major = major; ip->minor = minor; ip->nlink = 1]. *)
Definition set_fresh (major minor : Z) (x : inode) : inode :=
  set_meta (i_type x) major minor 1 (i_size x) (i_addrs x) x.

(** [omode & flag] as a condition. *)
Definition flag (omode f : Z) : bool := truthy (Z.land omode f).

Section Sysfile.
Context `{Hardware} `{Linker} `{!Switch kern}.
Variable fuel : nat.
(** The bytes the stack has in the padding of [struct stat]. *)
Variable pad : list Z.
Abbreviation ks := (kst kern).

Definition fail : M ks Z := ret (u64 (-1)).
Definition fail_op : M ks Z := end_op ;; fail.

(** ** Descriptors *)

(** [None] is -1; else the descriptor and the file. *)
Definition argfd (n : Z) : M ks (option (Z * Z)) :=
  let! fd := argint n in
  if (fd <? 0) || (Z.of_nat NOFILE <=? fd) then ret None
  else
    let! p := me in
    let! l := getp p_ofile p in
    match nth (Z.to_nat fd) l None with
    | None => ret None
    | Some f => ret (Some (fd, f))
    end.

Definition fdalloc (f : Z) : M ks Z :=
  let! p := me in
  let! r := for_ NOFILE 0 1 (λ fd,
    let! l := getp p_ofile p in
    match nth (Z.to_nat fd) l None with
    | None => setp p (set_pofile (Z.to_nat fd) (Some f)) ;; ret (Some fd)
    | Some _ => ret None
    end) in
  ret (default (-1) r).

Definition sys_dup : M ks Z :=
  let! r := argfd 0 in
  match r with
  | None => fail
  | Some (_, f) =>
      let! fd := fdalloc f in
      if fd <? 0 then fail else filedup f ;; ret fd
  end.

Definition sys_read : M ks Z :=
  let! r := argfd 0 in
  match r with
  | None => fail
  | Some (_, f) =>
      let! n := argint 2 in
      let! p := argaddr 1 in
      let! v := fileread fuel f p n in
      ret (u64 v)
  end.

(** The pages of the buffer are made present first.  An address from [MAXVA]
    on panics in [pgt_walk], so that [vaddr] does not wrap. *)
Definition sys_write : M ks Z :=
  let! r := argfd 0 in
  match r with
  | None => fail
  | Some (_, f) =>
      let! n := argint 2 in
      let! p := argaddr 1 in
      let! u := user_uvm in
      let! bad := for_ (R := unit) (iters (PGROUNDDOWN p) (u64 (p + n)) PGSIZE) (PGROUNDDOWN p) PGSIZE (λ vaddr,
        let! pa := U (uvm_guaranteecomplete u vaddr PTE_R) in
        if pa =? 0 then ret (Some tt) else ret None) in
      match bad with
      | Some _ => fail
      | None => let! v := filewrite fuel f p n in ret (u64 v)
      end
  end.

Definition sys_close : M ks Z :=
  let! r := argfd 0 in
  match r with
  | None => fail
  | Some (fd, f) =>
      let! p := me in
      setp p (set_pofile (Z.to_nat fd) None) ;;
      fileclose f ;;
      ret 0
  end.

Definition sys_fstat : M ks Z :=
  let! r := argfd 0 in
  match r with
  | None => fail
  | Some (_, f) =>
      let! st := argaddr 1 in
      let! v := filestat pad f st in
      ret (u64 v)
  end.

(** ** Links *)

(** [bad:] of [sys_link]. *)
Definition link_bad (ip : Z) : M ks Z :=
  fsop (Fs.ilock ip) ;;
  let! nl := fsop (geti i_nlink ip) in
  fsop (seti ip (set_nlink (nl - 1))) ;;
  fsop (Fs.iupdate ip) ;;
  fsop (Fs.iunlockput ip) ;;
  fail_op.

(** From [nameiparent(new, name)] on. *)
Definition link_into (new : list Z) (ip : Z) : M ks Z :=
  let! r := fsop (Fs.nameiparent new) in
  match r with
  | (None, _) => link_bad ip
  | (Some dp, name) =>
      fsop (Fs.ilock dp) ;;
      let! ddev := fsop (geti i_dev dp) in
      let! idev := fsop (geti i_dev ip) in
      let! bad :=
        (if negb (ddev =? idev) then ret true
         else let! inum := fsop (geti i_inum ip) in
              let! v := fsop (Fs.dirlink dp name inum) in
              ret (v <? 0)) in
      if (bad : bool) then fsop (Fs.iunlockput dp) ;; link_bad ip
      else
        fsop (Fs.iunlockput dp) ;;
        fsop (Fs.iput ip) ;;
        end_op ;;
        ret 0
  end.

Definition sys_link : M ks Z :=
  let! ro := argstr 0 MAXPATH in
  match ro with
  | None => fail
  | Some old =>
      let! rn := argstr 1 MAXPATH in
      match rn with
      | None => fail
      | Some new =>
          begin_op ;;
          let! r := fsop (Fs.namei old) in
          match r with
          | None => fail_op
          | Some ip =>
              fsop (Fs.ilock ip) ;;
              let! type := fsop (geti i_type ip) in
              if type =? T_DIR then fsop (Fs.iunlockput ip) ;; fail_op
              else
                let! nl := fsop (geti i_nlink ip) in
                fsop (seti ip (set_nlink (nl + 1))) ;;
                fsop (Fs.iupdate ip) ;;
                fsop (Fs.iunlock ip) ;;
                link_into new ip
          end
      end
  end.

Definition isdirempty (dp : Z) : M ks bool :=
  let! size := fsop (geti i_size dp) in
  let! r := for_ (R := unit) (iters 32 size 16) 32 16 (λ off,
    let! rd := fsop (Fs.readi_buf dp off 16) in
    if negb (rd.1 =? 16) then panic "isdirempty: readi"
    else if negb (de_inum rd.2 =? 0) then ret (Some tt) else ret None) in
  ret (match r with Some _ => false | None => true end).

(** [bad:] of [sys_unlink]. *)
Definition unlink_bad (dp : Z) : M ks Z :=
  fsop (Fs.iunlockput dp) ;;
  fail_op.

(** The entry at [off] of [dp], of inode [ip], both locked. *)
Definition unlink_entry (dp ip off : Z) : M ks Z :=
  let! w := fsop (Fs.writei_buf dp off (replicate 16 0)) in
  if negb (w =? 16) then panic "unlink: writei"
  else
    let! type := fsop (geti i_type ip) in
    (if type =? T_DIR then
       let! nl := fsop (geti i_nlink dp) in
       fsop (seti dp (set_nlink (nl - 1))) ;;
       fsop (Fs.iupdate dp)
     else ret tt) ;;
    fsop (Fs.iunlockput dp) ;;
    let! nl := fsop (geti i_nlink ip) in
    fsop (seti ip (set_nlink (nl - 1))) ;;
    fsop (Fs.iupdate ip) ;;
    fsop (Fs.iunlockput ip) ;;
    end_op ;;
    ret 0.

Definition sys_unlink : M ks Z :=
  let! rp := argstr 0 MAXPATH in
  match rp with
  | None => fail
  | Some path =>
      begin_op ;;
      let! r := fsop (Fs.nameiparent path) in
      match r with
      | (None, _) => fail_op
      | (Some dp, name) =>
          fsop (Fs.ilock dp) ;;
          if (namecmp name DOT =? 0) || (namecmp name DOTDOT =? 0) then unlink_bad dp
          else
            let! rl := fsop (Fs.dirlookup dp name) in
            match rl with
            | None => unlink_bad dp
            | Some (ip, off) =>
                fsop (Fs.ilock ip) ;;
                let! nl := fsop (geti i_nlink ip) in
                if nl <? 1 then panic "unlink: nlink < 1"
                else
                  let! type := fsop (geti i_type ip) in
                  let! full := (if type =? T_DIR then let! e := isdirempty ip in ret (negb e) else ret false) in
                  if (full : bool) then fsop (Fs.iunlockput ip) ;; unlink_bad dp
                  else unlink_entry dp ip off
            end
      end
  end.

(** ** Creating and opening *)

(** The new directory's entries, and the parent's count. *)
Definition create_dots (dp ip : Z) : M ks unit :=
  let! nl := fsop (geti i_nlink dp) in
  fsop (seti dp (set_nlink (nl + 1))) ;;
  fsop (Fs.iupdate dp) ;;
  let! inum := fsop (geti i_inum ip) in
  let! r := fsop (Fs.dirlink ip DOT inum) in
  if r <? 0 then panic "create dots"
  else
    let! dinum := fsop (geti i_inum dp) in
    let! r := fsop (Fs.dirlink ip DOTDOT dinum) in
    if r <? 0 then panic "create dots" else ret tt.

(** A new inode for [name] in [dp], which is locked. *)
Definition create_new (dp : Z) (name : list Z) (type major minor : Z) : M ks (option Z) :=
  let! dev := fsop (geti i_dev dp) in
  let! ip := fsop (Fs.ialloc dev type) in
  fsop (Fs.ilock ip) ;;
  fsop (seti ip (set_fresh (s16 major) (s16 minor))) ;;
  fsop (Fs.iupdate ip) ;;
  (if type =? T_DIR then create_dots dp ip else ret tt) ;;
  let! inum := fsop (geti i_inum ip) in
  let! r := fsop (Fs.dirlink dp name inum) in
  if r <? 0 then panic "create: dirlink"
  else fsop (Fs.iunlockput dp) ;; ret (Some ip).

Definition create (path : list Z) (type major minor : Z) : M ks (option Z) :=
  let! r := fsop (Fs.nameiparent path) in
  match r with
  | (None, _) => ret None
  | (Some dp, name) =>
      fsop (Fs.ilock dp) ;;
      let! rl := fsop (Fs.dirlookup dp name) in
      match rl with
      | Some (ip, _) =>
          fsop (Fs.iunlockput dp) ;;
          fsop (Fs.ilock ip) ;;
          let! t := fsop (geti i_type ip) in
          if (type =? T_FILE) && ((t =? T_FILE) || (t =? T_DEVICE)) then ret (Some ip)
          else fsop (Fs.iunlockput ip) ;; ret None
      | None => create_new dp name type major minor
      end
  end.

(** The inode to open, locked: created, or found.  [None] after [end_op]. *)
Definition open_inode (path : list Z) (omode : Z) : M ks (option Z) :=
  if flag omode O_CREATE then
    let! r := create path T_FILE 0 0 in
    match r with
    | None => end_op ;; ret None
    | Some ip => ret (Some ip)
    end
  else
    let! r := fsop (Fs.namei path) in
    match r with
    | None => end_op ;; ret None
    | Some ip =>
        fsop (Fs.ilock ip) ;;
        let! t := fsop (geti i_type ip) in
        if (t =? T_DIR) && negb (omode =? O_RDONLY) then
          fsop (Fs.iunlockput ip) ;;
          end_op ;;
          ret None
        else ret (Some ip)
    end.

(** A file and a descriptor for the locked inode. *)
Definition open_file (ip omode : Z) : M ks Z :=
  let! t := fsop (geti i_type ip) in
  let! major := fsop (geti i_major ip) in
  if (t =? T_DEVICE) && ((major <? 0) || (NDEV <=? major)) then fsop (Fs.iunlockput ip) ;; fail_op
  else
    let! rf := filealloc in
    match rf with
    | None => fsop (Fs.iunlockput ip) ;; fail_op
    | Some f =>
        let! fd := fdalloc f in
        if fd <? 0 then fileclose f ;; fsop (Fs.iunlockput ip) ;; fail_op
        else
          (if t =? T_DEVICE then setf f (set_ftype FD_DEVICE) ;; setf f (set_fmajor major)
           else setf f (set_ftype FD_INODE) ;; setf f (set_foff 0)) ;;
          setf f (set_fip ip) ;;
          setf f (set_fmodes (if flag omode O_WRONLY then 0 else 1)
                             (if flag omode O_WRONLY || flag omode O_RDWR then 1 else 0)) ;;
          (if flag omode O_TRUNC && (t =? T_FILE) then fsop (Fs.itrunc ip) else ret tt) ;;
          fsop (Fs.iunlock ip) ;;
          end_op ;;
          ret fd
    end.

Definition sys_open : M ks Z :=
  let! rp := argstr 0 MAXPATH in
  match rp with
  | None => fail
  | Some path =>
      let! omode := argint 1 in
      begin_op ;;
      let! r := open_inode path omode in
      match r with
      | None => fail
      | Some ip => open_file ip omode
      end
  end.

(** [iunlockput(ip); end_op(); return 0], or the failure. *)
Definition made (r : option Z) : M ks Z :=
  match r with
  | None => fail_op
  | Some ip => fsop (Fs.iunlockput ip) ;; end_op ;; ret 0
  end.

Definition sys_mkdir : M ks Z :=
  begin_op ;;
  let! rp := argstr 0 MAXPATH in
  match rp with
  | None => fail_op
  | Some path => let! r := create path T_DIR 0 0 in made r
  end.

Definition sys_mknod : M ks Z :=
  begin_op ;;
  let! rp := argstr 0 MAXPATH in
  match rp with
  | None => fail_op
  | Some path =>
      let! major := argint 1 in
      let! minor := argint 2 in
      let! r := create path T_DEVICE major minor in
      made r
  end.

(** [p->cwd = ip], and the file system's copy of it. *)
Definition set_cwd (p ip : Z) : M ks unit :=
  setp p (set_pcwd (Some ip)) ;;
  fsop (modify (λ s, mkFs (f_b s) (f_sb s) (f_itab s) ip)).

Definition sys_chdir : M ks Z :=
  let! p := me in
  begin_op ;;
  let! rp := argstr 0 MAXPATH in
  match rp with
  | None => fail_op
  | Some path =>
      let! r := fsop (Fs.namei path) in
      match r with
      | None => fail_op
      | Some ip =>
          fsop (Fs.ilock ip) ;;
          let! t := fsop (geti i_type ip) in
          if negb (t =? T_DIR) then fsop (Fs.iunlockput ip) ;; fail_op
          else
            fsop (Fs.iunlock ip) ;;
            let! cwd := getp p_cwd p in
            match cwd with Some c => fsop (Fs.iput c) | None => undef end ;;
            end_op ;;
            set_cwd p ip ;;
            ret 0
      end
  end.

(** ** [exec], [pipe], [mmap] *)

(** The pages of the arguments, [argv[i] != 0]. *)
Fixpoint free_pages (l : list Z) : M ks unit :=
  match l with
  | [] => ret tt
  | pg :: l' => zoom (T := machine) (kfree pg) ;; free_pages l'
  end.

(** [for (i = 0;; i++)]: the pages, and the strings when all went well.  A page
    whose string could not be fetched is in [argv] already. *)
Fixpoint fetch_args (n : nat) (uargv i : Z) (pages : list Z) (argv : list (list Z)) : M ks (list Z * option (list (list Z))) :=
  match n with
  | O => ret (pages, None)
  | S n' =>
      let! ra := fetchaddr (u64 (uargv + 8 * i)) in
      match ra with
      | None => ret (pages, None)
      | Some uarg =>
          if uarg =? 0 then ret (pages, Some argv)
          else
            let! pg := zoom (T := machine) kalloc in
            if pg =? 0 then ret (pages, None)
            else
              let! rs := fetchstr uarg PGSIZE in
              match rs with
              | None => ret (pages ++ [pg], None)
              | Some s =>
                  zoom (T := machine) (memory_op (λ m, put_bytes m pg (s ++ [0]))) ;;
                  fetch_args n' uargv (i + 1) (pages ++ [pg]) (argv ++ [s])
              end
      end
  end.

Definition sys_exec : M ks Z :=
  let! rp := argstr 0 MAXPATH in
  match rp with
  | None => fail
  | Some path =>
      let! uargv := argaddr 1 in
      let! ra := fetch_args MAXARG uargv 0 [] [] in
      match ra with
      | (pages, None) => free_pages pages ;; fail
      | (pages, Some argv) =>
          let! r := exec path argv in
          free_pages pages ;;
          ret (u64 r)
      end
  end.

(** The error paths of [sys_pipe] after the files exist. *)
Definition pipe_undo (p : Z) (fds : list Z) (rf wf : Z) : M ks Z :=
  let! _ := for_ (R := unit) (length fds) 0 1 (λ k,
    setp p (set_pofile (Z.to_nat (nth (Z.to_nat k) fds 0)) None) ;; ret None) in
  fileclose rf ;;
  fileclose wf ;;
  fail.

Definition sys_pipe : M ks Z :=
  let! p := me in
  let! fdarray := argaddr 0 in
  let! r := pipealloc in
  match r with
  | None => fail
  | Some (rf, wf) =>
      let! fd0 := fdalloc rf in
      if fd0 <? 0 then pipe_undo p [] rf wf
      else
        let! fd1 := fdalloc wf in
        if fd1 <? 0 then pipe_undo p [fd0] rf wf
        else
          let! u := getp p_uvm p in
          let! c0 := U (copyout u fdarray (le 4 fd0)) in
          if c0 <? 0 then pipe_undo p [fd0; fd1] rf wf
          else
            let! c1 := U (copyout u (u64 (fdarray + 4)) (le 4 fd1)) in
            if c1 <? 0 then pipe_undo p [fd0; fd1] rf wf else ret 0
  end.

Definition sys_mmap : M ks Z :=
  let! addr := argaddr 0 in
  let! length := argaddr 1 in
  let! perm := argint 2 in
  let! flags := argint 3 in
  let! rf := argfd 4 in
  match rf with
  | None => fail
  | Some (_, f) =>
      let! offset := argint 5 in
      let! x := getf id f in
      if negb (bool_decide (fl_type x = FD_INODE)) then fail
      else if truthy (Z.land perm PTE_R) && (fl_readable x =? 0) then fail
      else if truthy (Z.land perm PTE_W) && (flags =? MAP_SHARED) && (fl_writable x =? 0) then fail
      else
        let! p := me in
        let! u := getp p_uvm p in
        let! t := U (gets u_vmas) in
        let! ra :=
          (if uvm_israngefree t u addr length then ret (Some addr)
           else match getfreevrange t u (s32 length) with
                | Some a => ret (if a =? 0 then None else Some a)
                | None => hang
                end) in
        match ra with
        | None => fail
        | Some addr =>
          let! size := fsop (geti i_size (fl_ip x)) in
          let! ru := U (uvm_map u addr length (u32 perm) (u32 flags) (Some (fl_ip x)) (u32 offset) (u32 (size - offset))) in
          setp p (set_puvm ru.2) ;;
          ret ru.1
        end
  end.

(** [uvm_va2vma] answering 0 is not tested: the test is on [uvm]. *)
Definition sys_munmap : M ks Z :=
  let! addr := argaddr 0 in
  let! length := argaddr 1 in
  let! p := me in
  let! u := getp p_uvm p in
  let! t := U (gets u_vmas) in
  match uvm_va2vma t u addr with
  | None => undef
  | Some j =>
      let v := vma_at t j in
      if negb (addr =? v_start v) && negb (u64 (addr + length) =? v_end v) then fail
      else
        let! u' := U (uvm_unmap u addr length) in
        setp p (set_puvm u') ;;
        ret 0
  end.
End Sysfile.
