(* ===== verification/Trap.v ===== *)
(** * Traps (kernel/trap.c) and the system call table (kernel/syscall.c)

    A trap finds its cause in the control registers of the hart.  Returning to
    user space ends in a call of [userret] of the trampoline ([Asm]), whose
    arguments [usertrapret] answers. *)

From S2P Require Import Prelude Riscv Mem Random Spinlock Kalloc Pagetable Uvm Block Bio Log Fs FsInst Proc Kern Console File Sysproc Exec Sysfile.

Definition SSTATUS_SPP : Z := 0x100.
Definition SSTATUS_SPIE : Z := 0x20.
Definition SSTATUS_SIE : Z := 2.
Definition SATP_SV39 : Z := Z.shiftl 8 60.
Definition MAKE_SATP (pagetable : Z) : Z := Z.lor SATP_SV39 (Z.shiftr pagetable 12).

(** Offsets in [struct trapframe]. *)
Abbreviation TF_KSATP := 0.
Abbreviation TF_KSP := 8.
Abbreviation TF_KTRAP := 16.
Abbreviation TF_KHARTID := 32.

Definition set_sepc (v : Z) (c : csrs) : csrs := mkCsrs (scause c) v (stval c) (stvec c) (sstatus_rest c) (satp c) (sip c).
Definition set_stvec (v : Z) (c : csrs) : csrs := mkCsrs (scause c) (sepc c) (stval c) v (sstatus_rest c) (satp c) (sip c).
Definition set_sstatus_rest (v : Z) (c : csrs) : csrs := mkCsrs (scause c) (sepc c) (stval c) (stvec c) v (satp c) (sip c).
Definition set_sip (v : Z) (c : csrs) : csrs := mkCsrs (scause c) (sepc c) (stval c) (stvec c) (sstatus_rest c) (satp c) v.
Definition set_satp (v : Z) (c : csrs) : csrs := mkCsrs (scause c) (sepc c) (stval c) (stvec c) (sstatus_rest c) v (sip c).

(** The system calls, with their numbers (syscall.h). *)
Inductive sysno :=
  | SYS_fork | SYS_exit | SYS_wait | SYS_pipe | SYS_read | SYS_kill | SYS_exec | SYS_fstat | SYS_chdir | SYS_dup | SYS_getpid
  | SYS_sbrk | SYS_sleep | SYS_uptime | SYS_open | SYS_write | SYS_mknod | SYS_unlink | SYS_link | SYS_mkdir | SYS_close
  | SYS_settickets | SYS_getpinfo | SYS_mmap | SYS_munmap.

Definition sysno_list : list sysno :=
  [SYS_fork; SYS_exit; SYS_wait; SYS_pipe; SYS_read; SYS_kill; SYS_exec; SYS_fstat; SYS_chdir; SYS_dup; SYS_getpid;
   SYS_sbrk; SYS_sleep; SYS_uptime; SYS_open; SYS_write; SYS_mknod; SYS_unlink; SYS_link; SYS_mkdir; SYS_close;
   SYS_settickets; SYS_getpinfo; SYS_mmap; SYS_munmap].
(** The call with number [n]; there is none with number 0. *)
Definition sysno_of (n : Z) : option sysno := if 0 <? n then sysno_list !! Z.to_nat (n - 1) else None.

Section Trap.
Context `{Hardware} `{Linker} `{!Switch kern}.
Variable fuel : nat.
Variable pad : list Z.
(** Addresses of code, and the interrupt handler of the disk driver. *)
Variables (forkret_addr kernelvec_addr usertrap_addr uservec_off userret_off : Z).
Variable virtio_disk_intr : M (kst kern) unit.
Abbreviation ks := (kst kern).

Definition getcsr {A} (f : csrs → A) : M ks A := getk (λ k, f (kn_csr k)).
Definition setcsr (f : csrs → csrs) : M ks unit := setk (λ k, set_csr (f (kn_csr k)) k).

(** [SSTATUS_SIE] is kept with the locks. *)
Definition r_sstatus : M ks Z :=
  let! on := zoom intr_get in
  let! x := getcsr sstatus_rest in
  ret (Z.lor x (if (on : bool) then SSTATUS_SIE else 0)).
Definition w_sstatus (x : Z) : M ks unit :=
  (if truthy (Z.land x SSTATUS_SIE) then zoom intr_on else zoom intr_off) ;;
  setcsr (set_sstatus_rest (Z.land x (Z.lnot SSTATUS_SIE))).

Definition trapinit : M ks unit := zoom (initlock LK_TICKS).
Definition trapinithart : M ks unit := setcsr (set_stvec kernelvec_addr).
(** pagetable.c; the flush of the TLB has no effect here. *)
Definition kvminithart (kernel_pagetable : Z) : M ks unit := setcsr (set_satp (MAKE_SATP kernel_pagetable)).

(** ** syscall.c: the dispatch *)

Definition sys_call (n : sysno) : M ks Z :=
  match n with
  | SYS_fork => sys_fork forkret_addr
  | SYS_exit => sys_exit
  | SYS_wait => sys_wait fuel
  | SYS_pipe => sys_pipe
  | SYS_read => sys_read fuel
  | SYS_kill => sys_kill
  | SYS_exec => sys_exec
  | SYS_fstat => sys_fstat pad
  | SYS_chdir => sys_chdir
  | SYS_dup => sys_dup
  | SYS_getpid => sys_getpid
  | SYS_sbrk => sys_sbrk
  | SYS_sleep => sys_sleep fuel
  | SYS_uptime => sys_uptime
  | SYS_open => sys_open
  | SYS_write => sys_write fuel
  | SYS_mknod => sys_mknod
  | SYS_unlink => sys_unlink
  | SYS_link => sys_link
  | SYS_mkdir => sys_mkdir
  | SYS_close => sys_close
  | SYS_settickets => sys_settickets
  | SYS_getpinfo => sys_getpinfo
  | SYS_mmap => sys_mmap
  | SYS_munmap => sys_munmap
  end.

Definition syscall : M ks unit :=
  let! p := me in
  let! a7 := load_tf TF_A7 in
  let num := s32 a7 in
  match sysno_of num with
  | Some n =>
      let! v := sys_call n in
      let! tf := getp p_trapframe p in
      store_tf tf TF_A0 v
  | None =>
      let! q := getp id p in
      printf fuel (str "%d %s: unknown sys call %d" ++ [10]) [AInt (p_pid q); AStr (Some (c_str (p_name q))); AInt num] ;;
      store_tf (p_trapframe q) TF_A0 (u64 (-1))
  end.

(** ** Interrupts *)

Definition clockintr : M ks unit :=
  zoom (acquire LK_TICKS) ;;
  let! t := getk kn_ticks in
  setk (set_kticks (u32 (t + 1))) ;;
  wakeup TICKS ;;
  zoom (release LK_TICKS).

(** 2 for the timer, 1 for another device, 0 when not recognised. *)
Definition devintr : M ks Z :=
  let! cause := getcsr scause in
  if truthy (Z.land cause (2 ^ 63)) && (Z.land cause 0xff =? 9) then
    let! irq := plic_claim in
    (if irq =? UART0_IRQ then uartintr fuel
     else if irq =? VIRTIO0_IRQ then virtio_disk_intr
     else if truthy irq then printf fuel (str "unexpected interrupt irq=%d" ++ [10]) [AInt irq]
     else ret tt) ;;
    (if truthy irq then plic_complete irq else ret tt) ;;
    ret 1
  else if cause =? 2 ^ 63 + 1 then
    let! id := zoom cpuid in
    (if id =? 0 then clockintr else ret tt) ;;
    setcsr (λ c, set_sip (Z.land (sip c) (Z.lnot 2)) c) ;;
    ret 2
  else ret 0.

(** ** To and from user space *)

Definition usertrapret : M ks (Z * Z) :=
  let! p := me in
  zoom intr_off ;;
  setcsr (set_stvec (TRAMPOLINE + uservec_off)) ;;
  let! q := getp id p in
  let tf := p_trapframe q in
  let! ksatp := getcsr satp in
  store_tf tf TF_KSATP ksatp ;;
  store_tf tf TF_KSP (u64 (p_kstack q + PGSIZE)) ;;
  store_tf tf TF_KTRAP usertrap_addr ;;
  let! hart := zoom cpuid in
  store_tf tf TF_KHARTID hart ;;
  let! x := r_sstatus in
  w_sstatus (Z.lor (Z.land x (Z.lnot SSTATUS_SPP)) SSTATUS_SPIE) ;;
  let! epc := zoom (T := machine) (load64 (tf + TF_EPC)) in
  setcsr (set_sepc epc) ;;
  ret (TRAPFRAME, MAKE_SATP (pagetable (p_uvm q))).

#[export] Instance kern_traps : TrapOps kern := {| Proc.usertrapret := usertrapret |}.

(** [case 12], [13] and [15]. *)
Definition fault_perm (cause : Z) : Z := if cause =? 13 then PTE_R else if cause =? 15 then PTE_W else PTE_X.

Definition user_fault (p cause : Z) : M ks unit :=
  let! addr := getcsr stval in
  let! q := getp id p in
  let! pa := U (uvm_completemap (p_uvm q) (PGROUNDDOWN addr) (fault_perm cause)) in
  if pa =? 0 then
    setp p (set_pkilled 1) ;;
    printf fuel (10 :: str "segmentation fault pid=%d addr=%p missing_perm=%d" ++ [10]) [AInt (p_pid q); APtr addr; AInt (fault_perm cause)]
  else ret tt.

(** [switch (cause)]: the value of [which_dev]. *)
Definition user_cause (p cause : Z) : M ks Z :=
  if cause =? 8 then
    let! k := getp p_killed p in
    (if truthy k then exit (-1) else ret tt) ;;
    let! tf := getp p_trapframe p in
    let! epc := zoom (T := machine) (load64 (tf + TF_EPC)) in
    store_tf tf TF_EPC (u64 (epc + 4)) ;;
    zoom intr_on ;;
    syscall ;;
    ret 0
  else if (cause =? 12) || (cause =? 13) || (cause =? 15) then user_fault p cause ;; ret 0
  else
    let! d := devintr in
    if truthy d then ret d
    else
      let! pid := getp p_pid p in
      let! c := getcsr id in
      printf fuel (str "usertrap(): unexpected scause %p pid=%d" ++ [10]) [APtr (scause c); AInt pid] ;;
      printf fuel (str "            sepc=%p stval=%p" ++ [10]) [APtr (sepc c); APtr (stval c)] ;;
      setp p (set_pkilled 1) ;;
      ret 0.

Definition usertrap : M ks (Z * Z) :=
  let! x := r_sstatus in
  if truthy (Z.land x SSTATUS_SPP) then panic "usertrap: not from user mode"
  else
    setcsr (set_stvec kernelvec_addr) ;;
    let! p := me in
    let! epc := getcsr sepc in
    let! tf := getp p_trapframe p in
    store_tf tf TF_EPC epc ;;
    let! cause := getcsr scause in
    let! which_dev := user_cause p cause in
    let! k := getp p_killed p in
    (if truthy k then exit (-1) else ret tt) ;;
    (if which_dev =? 2 then yield else ret tt) ;;
    usertrapret.

Definition kerneltrap : M ks unit :=
  let! pc := getcsr sepc in
  let! status := r_sstatus in
  let! cause := getcsr scause in
  let! p := zoom myproc in
  if Z.land status SSTATUS_SPP =? 0 then panic "kerneltrap: not from supervisor mode"
  else
    let! on := zoom intr_get in
    if (on : bool) then panic "kerneltrap: interrupts enabled"
    else
      let! which_dev := devintr in
      if which_dev =? 0 then
        let! c := getcsr id in
        printf fuel (str "cause %p" ++ [10]) [APtr cause] ;;
        printf fuel (str "sepc=%p stval=%p" ++ [10]) [APtr (sepc c); APtr (stval c)] ;;
        panic "kerneltrap"
      else
        match p with
        | None => ret tt
        | Some i =>
            let! k := getp p_killed i in
            (if truthy k then exit (-1) else ret tt) ;;
            let! st := getp p_state i in
            if (which_dev =? 2) && bool_decide (st = RUNNING) then yield else ret tt
        end ;;
        setcsr (set_sepc pc) ;;
        w_sstatus status.
End Trap.
