(* ===== verification/KernLaws.v ===== *)
(** * The file system as user memory uses it

    The operations of fs.c, over the block cache and the log, keep the promises
    that user memory relies on ([InodeLaws]): the theorems about page faults and
    copying hold of the kernel with its file system. *)

From S2P Require Import Prelude Riscv Mem Random Spinlock Kalloc Pagetable Uvm UvmSpec Block Bio Log Fs.
From S2P Require Import FsSpec FsFile FsInode FsTable FsData FsInst Proc Kern.

Lemma put_bytes_app m a x y : put_bytes m a (x ++ y) = put_bytes (put_bytes m a x) (a + Z.of_nat (length x)) y.
Proof.
  revert m a. induction x as [|b x IH]; intros m a; simpl; [by rewrite Z.add_0_r|].
  rewrite IH. f_equal. lia.
Qed.

Section Laws.
Context `{Hardware}.
Abbreviation us := (ust kern).
Abbreviation flb f := (lb (f_b f)).
Abbreviation ino f ip := (inode_at (f_itab f) ip).

(** The file system is consistent, and the inode has been read from the disk. *)
Record in_use (f : fsys lst) (ip : Z) : Prop := {
  iu_ready : ∃ W r, ready (f_b f) [] [] W r;
  iu_layout : layout f;
  iu_file : file_ok f (ino f ip);
  iu_solid : solid (flb f) (ino f ip);
  iu_ref : 1 <= i_ref (ino f ip) < 2 ^ 31 - 1;
  iu_valid : i_valid (ino f ip) ≠ 0;
  iu_type : i_type (ino f ip) ≠ 0;
  iu_lock : lockable (LK_INODE ip) (view (f_b f));
  iu_table : lockable LK_ITABLE (view (f_b f))
}.

Definition unlocked (f : fsys lst) (ip : Z) : Prop := sl_locked (i_lock (ino f ip)) = 0.
Definition locked (f : fsys lst) (ip : Z) : Prop := i_lock (ino f ip) = mkSleeplock 1 (cur_pid (f_b f)).

(** What reading the file depends on of an inode. *)
Definition same_meta (x y : inode) : Prop :=
  i_dev y = i_dev x ∧ i_inum y = i_inum x ∧ i_valid y = i_valid x ∧ i_type y = i_type x ∧ i_size y = i_size x ∧ i_addrs y = i_addrs x.

Definition data (f : fsys lst) (ip : Z) : list Z := fbytes (flb f) (ino f ip) 0 (i_size (ino f ip)).

Lemma addr_meta (g g' : Z → block) x y bn : same_meta x y → (∀ m, g' m = g m) → addr_of g' y bn = addr_of g x bn.
Proof. intros (_ & _ & _ & _ & _ & E) Hg. unfold addr_of, indirect, ind_entry. rewrite E. by rewrite Hg. Qed.

Lemma fbytes_meta (g g' : Z → block) x y off n : same_meta x y → (∀ m, g' m = g m) → fbytes g' y off n = fbytes g x off n.
Proof.
  intros M Hg. unfold fbytes. apply list_fmap_ext. intros _ i _. unfold fbyte. by rewrite (addr_meta g g' x y), Hg.
Qed.

Lemma same_blocks_used f f' b : same_blocks f f' → used f' b = used f b.
Proof. intros (_ & E & _ & L). unfold used. by rewrite L, E. Qed.

Lemma same_blocks_layout f f' : same_blocks f f' → layout f → layout f'.
Proof.
  intros S [H1 H2 H3 H4 H5 H6]. pose proof S as ((_ & _ & D) & E & _ & L). split; rewrite ?E; try done.
  - intros n Hn. apply D. by apply H3.
  - intros n Hn. apply D. by apply H4.
  - intros b Hb Hu. rewrite (same_blocks_used f f') in Hu by done. destruct (H6 b Hb Hu) as (? & ? & ? & ?). split_and!; try done. by apply D.
Qed.

Lemma same_blocks_owned f f' a : same_blocks f f' → owned f a → owned f' a.
Proof.
  intros S (H1 & H2 & H3 & H4 & H5 & H6). pose proof S as ((_ & _ & D) & E & _ & L). unfold owned.
  rewrite E, (same_blocks_used f f') by done. split_and!; try done; try lia. by apply D.
Qed.

Lemma same_blocks_file f f' x y : same_blocks f f' → same_meta x y → file_ok f x → file_ok f' y.
Proof.
  intros S M [H1 H2 H3 H4 H5 H6 H7 H8]. pose proof S as (_ & E & _ & L). pose proof M as (M1 & M2 & M3 & M4 & M5 & M6).
  assert (indirect y = indirect x) as Ei by (unfold indirect; by rewrite M6).
  split; rewrite ?E, ?M1, ?M2, ?M5, ?M6, ?Ei; try done.
  - intros bn Hb. rewrite (addr_meta (flb f)  _ x) by done. intros Ha. by eapply same_blocks_owned, H5.
  - intros Ha. by eapply same_blocks_owned, H6.
  - intros bn bn' Hb Hb'. rewrite (addr_meta (flb f) _ x y bn), (addr_meta (flb f) _ x y bn') by done. by apply H7.
  - intros bn Hb Ha. rewrite (addr_meta (flb f) _ x) by done. by apply H8.
Qed.

Lemma in_use_kept f f' ip :
  same_blocks f f' → (∃ W r, ready (f_b f') [] [] W r) → same_meta (ino f ip) (ino f' ip) → 1 <= i_ref (ino f' ip) < 2 ^ 31 - 1 →
  in_use f ip → in_use f' ip ∧ data f' ip = data f ip.
Proof.
  intros S R M Href I. pose proof S as ((Ek & _ & _) & _ & _ & L). pose proof M as (M1 & M2 & M3 & M4 & M5 & M6). split.
  - split; try done.
    + apply (same_blocks_layout f f'); [done|apply (iu_layout _ _ I)].
    + apply (same_blocks_file f f' (ino f ip)); [done|done|apply (iu_file _ _ I)].
    + intros i Hi. rewrite (addr_meta (flb f) _ (ino f ip)) by done. rewrite M5 in Hi. by apply (iu_solid _ _ I).
    + rewrite M3. apply (iu_valid _ _ I).
    + rewrite M4. apply (iu_type _ _ I).
    + rewrite Ek. apply (iu_lock _ _ I).
    + rewrite Ek. apply (iu_table _ _ I).
  - unfold data. rewrite M5. by apply fbytes_meta.
Qed.

(** ** The operations on the file system's own state *)

Lemma same_meta_refl x : same_meta x x.
Proof. by split_and!. Qed.

(** Only entry [ip] of the table changes, in its count or its lock. *)
Definition one_entry (ip : Z) (f f' : fsys lst) : Prop :=
  same_blocks f f' ∧ (∃ W r, ready (f_b f') [] [] W r) ∧ same_meta (ino f ip) (ino f' ip) ∧ ∀ jp, jp ≠ ip → ino f' jp = ino f jp.

Lemma one_entry_other ip jp f f' : one_entry ip f f' → jp ≠ ip → in_use f jp → in_use f' jp.
Proof.
  intros (S & R & M & E) Hj I. apply (in_use_kept f f' jp); try done; rewrite E by done; [apply same_meta_refl|apply (iu_ref _ _ I)].
Qed.

Lemma one_entry_data ip jp f f' : one_entry ip f f' → data f' jp = data f jp.
Proof.
  intros (S & R & M & E). pose proof S as (_ & _ & _ & L).
  assert (same_meta (ino f jp) (ino f' jp)) as Mj.
  { destruct (decide (jp = ip)) as [->|Hj]; [done|]. rewrite E by done. apply same_meta_refl. }
  unfold data. replace (i_size (ino f' jp)) with (i_size (ino f jp)) by (symmetry; apply Mj). by apply fbytes_meta.
Qed.

Lemma fs_idup ip f : in_use f ip → wp (Fs.idup ip) (λ jp f', jp = ip ∧ one_entry ip f f') f.
Proof.
  intros I. destruct (iu_ready _ _ I) as (W & r & R). pose proof (iu_ref _ _ I). unfold Fs.idup.
  apply wp_bind, wp_acquire; [apply (iu_table _ _ I)|]. apply wp_bind, wp_gets. apply wp_bind, wp_as_int; [simpl; lia|].
  apply (table_op ip (set_ref (i_ref (ino f ip) + 1)) f [] W r); [apply (iu_table _ _ I)|done|]. intros f' R' (S & E). split; [done|].
  split_and!; [done|by exists W, r|..].
  - rewrite E, inode_at_insert, decide_True by done. by split_and!.
  - intros jp Hj. by rewrite E, inode_at_insert, decide_False.
Qed.

Lemma fs_ilock ip f : in_use f ip → unlocked f ip → wp (Fs.ilock ip) (λ _ f', one_entry ip f f' ∧ in_use f' ip ∧ locked f' ip) f.
Proof.
  intros I Hu. destruct (iu_ready _ _ I) as (W & r & R). pose proof (iu_ref _ _ I) as Href. pose proof (iu_file _ _ I) as F.
  set (x := set_ilock (mkSleeplock 1 (cur_pid (f_b f))) (ino f ip)).
  assert (locked_inode f ip = x) as Ex. { unfold locked_inode. rewrite (proj2 (Z.eqb_neq _ _)); [done|apply (iu_valid _ _ I)]. }
  eapply wp_mono.
  { apply (ilock_spec ip f W r); [apply (iu_layout _ _ I)|lia|apply (iu_lock _ _ I)|done|apply (fo_dev F)|apply (fo_inum F)|rewrite Ex; apply (iu_type _ _ I)|done]. }
  intros _ f' (R' & S & E & Ej). rewrite Ex in E.
  assert (same_meta (ino f ip) (ino f' ip)) as M by (rewrite E; by split_and!).
  split_and!; [by split_and!; [|exists W, r|..]|..].
  - apply (in_use_kept f f' ip); try done; [by exists W, r|]. rewrite E. done.
  - unfold locked. rewrite E. pose proof S as ((_ & -> & _) & _). done.
Qed.

Lemma fs_iunlock ip f : in_use f ip → locked f ip → wp (Fs.iunlock ip) (λ _ f', one_entry ip f f' ∧ in_use f' ip ∧ unlocked f' ip) f.
Proof.
  intros I Hk. destruct (iu_ready _ _ I) as (W & r & R). pose proof (iu_ref _ _ I) as Href. unfold Fs.iunlock.
  apply wp_bind, wp_gets. apply wp_bind, wp_gets. apply wp_bind, wp_zoom.
  destruct (holdingsleep_run (cur_pid (f_b f)) (LK_INODE ip) (i_lock (ino f ip)) (view (f_b f)) (iu_lock _ _ I)) as (l & El & Hl).
  rewrite Hk in El |- *. cbn [sl_locked sl_pid] in El. rewrite Z.eqb_refl in El. eapply wp_eq; [exact El|].
  apply wp_bind, wp_gets. set (f1 := set l f). change (ino f1 ip) with (ino f ip). rewrite (proj2 (Z.ltb_ge _ 1)) by lia. simpl.
  assert (same_blocks f f1) as S1 by by split_and!.
  eapply wp_mono; [apply (unlock_inode_spec ip f1 W r []); [change (lockable (LK_INODE ip) l); rewrite Hl; apply (iu_lock _ _ I)|by apply ready_set]|].
  intros _ f' (R' & S & E). assert (same_blocks f f') as S' by (by eapply same_blocks_trans).
  assert (ino f' ip = set_ilock (mkSleeplock 0 0) (ino f ip)) as Ei by (by rewrite E, inode_at_insert, decide_True).
  assert (same_meta (ino f ip) (ino f' ip)) as M by (rewrite Ei; by split_and!).
  split_and!; [split_and!; [done|by exists W, r|done|]|..].
  - intros jp Hj. by rewrite E, inode_at_insert, decide_False.
  - apply (in_use_kept f f' ip); try done; [by exists W, r|]. rewrite Ei. done.
  - unfold unlocked. by rewrite Ei.
Qed.

(** ** Inside the memory of the kernel *)

Abbreviation fsv s := (view s : fsys lst).

(** The file system, at another lock state of the same locks. *)
Lemma in_use_user (s s' : us) ip :
  u_k s' = u_k s → m_lk (u_m s') ≡ m_lk (u_m s) → in_use (fsv s) ip → in_use (fsv s') ip ∧ data (fsv s') ip = data (fsv s) ip.
Proof.
  intros Ek El I. destruct (iu_ready _ _ I) as (W & r & R).
  assert (f_b (fsv s') = @set lst lockst bop_lk (m_lk (u_m s')) (f_b (fsv s))) as Eb by (simpl; by rewrite Ek).
  assert (f_itab (fsv s') = f_itab (fsv s)) as Et by (simpl; by rewrite Ek).
  assert (same_blocks (fsv s) (fsv s')) as S.
  { unfold same_blocks. rewrite Eb. split_and!; [by apply kept_set|simpl; by rewrite Ek..|done]. }
  apply in_use_kept; try done; rewrite ?Et; [|apply same_meta_refl|apply (iu_ref _ _ I)].
  exists W, r. rewrite Eb. by apply ready_set.
Qed.

(** An operation of the file system leaves memory, pages and areas alone. *)
Lemma wp_fsop {A} (m : M (fsys lst) A) (s : us) (P : A → fsys lst → Prop) (Q : A → us → Prop) :
  wp m P (fsv s) → (∀ a f, P a f → Q a (set f s)) → wp (zoom m) Q s.
Proof. intros Hm HQ. apply wp_zoom. eapply wp_mono; [exact Hm|]. exact HQ. Qed.

Lemma set_fs_machine (s : us) f : bs_lk (l_b (f_b f)) ≡ m_lk (u_m s) → same_machine s (set f s).
Proof. intros E. by split_and!. Qed.

Lemma one_entry_machine ip (s : us) f : one_entry ip (fsv s) f → same_machine s (set f s).
Proof. intros (((E & _ & _) & _) & _). by apply set_fs_machine. Qed.

Definition ready_file (s : us) (ip : Z) : Prop := in_use (fsv s) ip ∧ unlocked (fsv s) ip.
Definition held_file (s : us) (ip : Z) : Prop := in_use (fsv s) ip ∧ locked (fsv s) ip.

Lemma one_entry_kept ip (s : us) f jp : one_entry ip (fsv s) f →
  (jp ≠ ip → ready_file s jp → ready_file (set f s) jp) ∧ data (fsv (set f s)) jp = data (fsv s) jp.
Proof.
  intros O. unfold ready_file. rewrite (view_set (S := us)). split; [|by eapply one_entry_data].
  intros Hj [I U]. split; [by eapply one_entry_other|]. unfold unlocked. destruct O as (_ & _ & _ & ->); done.
Qed.

(** The kernel's state but for the file system. *)
Definition kfs0 : kfs := mkKfs 0 ∅ (mkDisk 0 ∅ []) log0 (mkSb 0 0 0 0 0 0 0 0) ∅ 0.
Definition but_fs (k : kern) : kern := set_kfs kfs0 k.

(** [either_copyout(0, dst, ...)]: kernel memory from [d0] on. *)
Definition delivered (s0 : us) (d0 dst : Z) (acc : list Z) (s : us) : Prop :=
  dst = d0 + Z.of_nat (length acc) ∧ m_mem (u_m s) = put_bytes (m_mem (u_m s0)) d0 acc ∧
  m_kmem (u_m s) = m_kmem (u_m s0) ∧ u_vmas s = u_vmas s0 ∧ but_fs (u_k s) = but_fs (u_k s0).

Lemma memory_sink s0 d0 : sink to_memory (delivered s0 d0) False.
Proof.
  split.
  - intros dst acc s f (E1 & E2 & E3 & E4 & E5). by split_and!.
  - intros dst acc bs s H0 W r (E1 & E2 & E3 & E4 & E5) R. unfold to_memory. apply wp_bind, wp_zoom, wp_modify, wp_ret.
    split_and!; [|done|done]. left. split; [done|]. split_and!; try done; simpl.
    + rewrite length_app. lia.
    + by rewrite put_bytes_app, E2, E1.
Qed.

(** Reading [n] bytes of a locked file to kernel memory. *)
Lemma readi_memory ip dst off n (s : us) :
  held_file s ip → 0 <= off → 0 <= n → off + n <= Z.of_nat (length (data (fsv s) ip)) →
  wp (Fs.readi to_memory ip dst off n) (λ r s', r = n ∧ same_lb (fsv s) (fsv s') ∧ (∃ W r, ready (f_b (fsv s')) [] [] W r) ∧
    delivered s dst (dst + n) (fbytes (flb (fsv s)) (ino (fsv s) ip) off n) s') s.
Proof.
  intros [I Hk] Ho Hn Hlen. destruct (iu_ready _ _ I) as (W & r & R). pose proof (fo_size (iu_file _ _ I)) as Hs.
  unfold data in Hlen. rewrite length_fbytes in Hlen. unfold MAXFILE, NDIRECT, NINDIRECT, BSIZE in Hs.
  assert (read_count (ino (fsv s) ip) off n = n) as Ec. { unfold read_count. rewrite (proj2 (Z.ltb_ge _ _)) by lia. lia. }
  eapply wp_mono.
  { apply (readi_spec _ _ _ (memory_sink s dst) ip dst off n [] s W r); try done; [apply (iu_file _ _ I)|apply (iu_solid _ _ I)| |lia].
    split_and!; try done. simpl. lia. }
  cbv zeta. rewrite Ec. intros v s' (S & R' & [[-> D]|[_ []]]). split_and!; [done|done|by exists W, r|done].
Qed.

Lemma same_lb_meta (f f' : fsys lst) ip : same_lb f f' → (∃ W r, ready (f_b f') [] [] W r) → in_use f ip →
  in_use f' ip ∧ data f' ip = data f ip.
Proof.
  intros S R I. destruct (same_lb_blocks _ _ S) as [Sb Et]. apply in_use_kept; try done; rewrite Et; [apply same_meta_refl|apply (iu_ref _ _ I)].
Qed.

Lemma nth_fbytes g x off n i : 0 <= i < n → nth (Z.to_nat i) (fbytes g x off n) 0 = fbyte g x (off + i).
Proof. intros Hi. unfold fbytes. rewrite nth_lookup, list_lookup_fmap, lookup_seqZ_lt by lia. simpl. by rewrite Z2Nat.id by lia. Qed.

(** The file system keeps its promises to user memory. *)
#[export] Program Instance kern_laws : InodeLaws (K := kern) := {|
  rest := kern; rest_of := but_fs; file_ready := ready_file; file_held := held_file; file_data s ip := data (fsv s) ip |}.
Next Obligation.
  intros s s' ip Ek El. assert (f_itab (fsv s') = f_itab (fsv s)) as Et by (simpl; by rewrite Ek).
  assert (cur_pid (f_b (fsv s')) = cur_pid (f_b (fsv s))) as Ep by (simpl; by rewrite Ek).
  split_and!.
  - intros [I U]. split; [by apply (in_use_user s s')|]. unfold unlocked. by rewrite Et.
  - intros [I U]. split; [by apply (in_use_user s s')|]. unfold locked. by rewrite Et, Ep.
  - unfold data. rewrite Et. simpl f_b. rewrite Ek. done.
Qed.
Next Obligation.
  intros ip s [I U]. eapply wp_fsop; [by apply fs_idup|]. intros a f (-> & O). split_and!; [done|by eapply one_entry_machine|done|done|].
  intros jp. by apply (one_entry_kept ip).
Qed.
Next Obligation.
  intros ip s [I U]. eapply wp_fsop; [by apply fs_ilock|]. intros a f (O & I' & L). split_and!; [|by eapply one_entry_machine|done|done|].
  - split; rewrite (view_set (S := us)); done.
  - intros jp. by apply (one_entry_kept ip).
Qed.
Next Obligation.
  intros ip s [I U]. eapply wp_fsop; [by apply fs_iunlock|]. intros a f (O & I' & L). split_and!; [|by eapply one_entry_machine|done|done|].
  - split; rewrite (view_set (S := us)); done.
  - intros jp. by apply (one_entry_kept ip).
Qed.
Next Obligation.
  intros ip dst off n s Hh Ho Hn Hlen. eapply wp_mono; [by apply (readi_memory ip dst off n s)|].
  intros v s' (-> & S & R & (_ & Dm & Dk & Dv & Db)). destruct (same_lb_blocks _ _ S) as [Sb Et].
  pose proof Sb as ((Ek & Ep & _) & _ & _ & L). pose proof Hh as [I Hk].
  split_and!; try done.
  - split; [by apply (same_lb_meta (fsv s) (fsv s') ip)|]. unfold locked. by rewrite Et, Ep.
  - intros jp. split; [|].
    + intros _ [J U]. split; [by apply (same_lb_meta (fsv s) (fsv s') jp)|]. unfold unlocked. by rewrite Et.
    + unfold data. rewrite Et. by apply fbytes_meta; [apply same_meta_refl|].
  - intros a. rewrite Dm, put_bytes_ldb, length_fbytes, Z2Nat.id by lia.
    destruct ((dst <=? a) && (a <? dst + n)) eqn:E; [|done]. f_equal. unfold data in *. rewrite length_fbytes in Hlen.
    rewrite !nth_fbytes by lia. by f_equal; lia.
Qed.
End Laws.
