(* ===== verification/Ring.v ===== *)
(** * Ring buffers

    A buffer of [N] characters, indexed modulo [N] by counters that wrap around
    at [2 ^ b]: the contents are the [k] characters from the read counter on.
    Pipes, the console and the UART share the lemmas. *)

From S2P Require Import Prelude.

(** How far the write counter is ahead. *)
Definition ahead (b w r : Z) : Z := wrap b (w - r).

Section Window.
Variable N : Z.

(** The character at counter [i]. *)
Definition ring_at (buf : list Z) (i : Z) : Z := nth (Z.to_nat (i mod N)) buf 0.

Definition window (buf : list Z) (r k : Z) : list Z := (λ i, ring_at buf (r + i)) <$> seqZ 0 k.

Lemma length_window buf r k : 0 <= k → Z.of_nat (length (window buf r k)) = k.
Proof. intros. unfold window. rewrite length_fmap, length_seqZ. lia. Qed.

Lemma window_cons buf r k : 0 < k → window buf r k = ring_at buf r :: window buf (r + 1) (k - 1).
Proof.
  intros Hk. unfold window. rewrite seqZ_cons by lia. cbn [fmap list_fmap]. rewrite Z.add_0_r. f_equal.
  replace (Z.pred k) with (k - 1) by lia. replace (Z.succ 0) with (1 + 0) by lia. rewrite <- fmap_add_seqZ, <- list_fmap_compose.
  apply list_fmap_ext. intros _ i _. simpl. f_equal. lia.
Qed.

Lemma window_snoc buf r k : 0 <= k → window buf r (k + 1) = window buf r k ++ [ring_at buf (r + k)].
Proof. intros Hk. unfold window. rewrite seqZ_app by lia. rewrite fmap_app. by rewrite Z.add_0_l. Qed.

Lemma take_window buf r k j : 0 <= j <= k → take (Z.to_nat j) (window buf r k) = window buf r j.
Proof.
  intros Hj. unfold window. rewrite <- fmap_take. f_equal. replace k with (j + (k - j)) by lia. rewrite seqZ_app by lia.
  by rewrite take_app_length' by (rewrite length_seqZ; lia).
Qed.

(** Storing a character at the write counter appends it. *)
Lemma window_push buf r k x :
  0 < N → Z.of_nat (length buf) = N → 0 <= k < N →
  window (<[Z.to_nat ((r + k) mod N) := x]> buf) r (k + 1) = window buf r k ++ [x].
Proof.
  intros HN Hlen Hk. pose proof (Z.mod_pos_bound (r + k) N HN) as Hm. rewrite window_snoc by lia. f_equal.
  - apply list_fmap_ext. intros j i Hi. apply lookup_seqZ in Hi as [-> Hi]. unfold ring_at.
    rewrite !nth_lookup, list_lookup_insert_ne; [done|]. intros E.
    pose proof (Z.mod_pos_bound (r + (0 + Z.of_nat j)) N HN). apply Z2Nat.inj in E; [|lia|lia].
    pose proof (Z.div_mod (r + k) N ltac:(lia)). pose proof (Z.div_mod (r + (0 + Z.of_nat j)) N ltac:(lia)).
    assert (k - Z.of_nat j = N * ((r + k) / N - (r + (0 + Z.of_nat j)) / N)) as Ed by lia.
    assert (0 < (r + k) / N - (r + (0 + Z.of_nat j)) / N < 1) by nia. lia.
  - f_equal. unfold ring_at. rewrite nth_lookup, list_lookup_insert_eq; [done|lia].
Qed.
End Window.

(** ** The counters *)

Section Counters.
Variable b : Z.

Lemma ahead_pop w r : 0 <= b → 0 < ahead b w r → ahead b w (wrap b (r + 1)) = ahead b w r - 1.
Proof.
  unfold ahead. intros Hb0 H. pose proof (wrap_bound b (w - r)).
  assert (wrap b (w - wrap b (r + 1)) = wrap b (w - r - 1)) as ->.
  { unfold wrap. rewrite Zminus_mod_idemp_r. f_equal. lia. }
  unfold wrap. rewrite <- Zminus_mod_idemp_l. fold (wrap b (w - r)). apply Z.mod_small. lia.
Qed.

Lemma ahead_zero w r : 0 <= b → 0 <= w < 2 ^ b → 0 <= r < 2 ^ b → ahead b w r = 0 ↔ r = w.
Proof.
  intros Hb0 Hw Hr. unfold ahead, wrap. split; [|intros ->; by rewrite Z.sub_diag, Z.mod_0_l by lia].
  intros E. apply Z.mod_divide in E as [q E]; [|lia]. assert (q = 0) by nia. lia.
Qed.

Lemma ahead_at w r k : 0 <= b → 0 <= w < 2 ^ b → 0 <= k < 2 ^ b → ahead b w r = k ↔ w = wrap b (r + k).
Proof.
  intros Hb0 Hw Hk. unfold ahead, wrap. split.
  - intros <-. rewrite Zplus_mod_idemp_r. replace (r + (w - r)) with w by lia. by rewrite Z.mod_small.
  - intros ->. rewrite Zminus_mod_idemp_l. replace (r + k - r) with k by lia. by rewrite Z.mod_small.
Qed.

(** The counters wrap around at a multiple of the size. *)
Variables N c : Z.
Hypotheses (HN : 0 < N) (Hc : 1 < c) (Hb : 2 ^ b = N * c) (Hb0 : 0 <= b).

Lemma wrap_ring x : wrap b x mod N = x mod N.
Proof.
  unfold wrap. rewrite Hb. pose proof (Z.div_mod x (N * c) ltac:(lia)) as E. symmetry. rewrite E at 1.
  replace (N * c * (x / (N * c)) + x mod (N * c)) with (x mod (N * c) + (c * (x / (N * c))) * N) by lia. by rewrite Z.mod_add by lia.
Qed.

Lemma ring_at_wrap buf i : ring_at N buf (wrap b i) = ring_at N buf i.
Proof. unfold ring_at. by rewrite wrap_ring. Qed.

Lemma window_wrap buf r k : window N buf (wrap b r) k = window N buf r k.
Proof.
  unfold window. apply list_fmap_ext. intros _ i _. unfold ring_at. rewrite <- Zplus_mod_idemp_l, wrap_ring, Zplus_mod_idemp_l. done.
Qed.

Lemma ahead_push w r : 0 <= ahead b w r < N → ahead b (wrap b (w + 1)) r = ahead b w r + 1.
Proof.
  unfold ahead. intros H. pose proof (wrap_bound b (w - r)) as Hw.
  assert (wrap b (wrap b (w + 1) - r) = wrap b (w - r + 1)) as ->.
  { unfold wrap. rewrite Zminus_mod_idemp_l. f_equal. lia. }
  unfold wrap. rewrite <- Zplus_mod_idemp_l. fold (wrap b (w - r)). apply Z.mod_small. nia.
Qed.

(** The write counter, seen from the read counter. *)
Lemma ahead_ring w r : (r + ahead b w r) mod N = w mod N.
Proof.
  unfold ahead. rewrite <- Zplus_mod_idemp_r, wrap_ring, Zplus_mod_idemp_r. f_equal. lia.
Qed.
End Counters.
