(* ===== verification/PipeSpec.v ===== *)
(** * Pipes are queues (kernel/pipe.c)

    The contents of a pipe are the bytes between its counters.  [pipewrite]
    appends the bytes of the writer's memory and [piperead] takes bytes off the
    front to the reader's memory. *)

From S2P Require Import Prelude Riscv Mem Random Spinlock Kalloc Pagetable PtSpec PtRange PtFree Uvm UvmSpec UvmFault UvmCopy Block Bio Log Fs.
From S2P Require Import FsSpec FsInst Proc ProcSpec Kern KernLaws Ring File.

(** ** The ring *)

Definition level (p : pipe) : Z := ahead 32 (pi_nwrite p) (pi_nread p).
Definition contents (p : pipe) : list Z := window PIPESIZE (pi_data p) (pi_nread p) (level p).

Record pipe_ok (p : pipe) : Prop := {
  po_data : Z.of_nat (length (pi_data p)) = PIPESIZE;
  po_nread : 0 <= pi_nread p < 2 ^ 32;
  po_nwrite : 0 <= pi_nwrite p < 2 ^ 32;
  po_level : 0 <= level p <= PIPESIZE
}.

(** The ends that are open. *)
Definition same_ends (p p' : pipe) : Prop := pi_readopen p' = pi_readopen p ∧ pi_writeopen p' = pi_writeopen p.

Lemma same_ends_trans p1 p2 p3 : same_ends p1 p2 → same_ends p2 p3 → same_ends p1 p3.
Proof. intros [] []. split; congruence. Qed.

Lemma pipe_params : 0 < PIPESIZE ∧ 1 < 2 ^ 23 ∧ 2 ^ 32 = PIPESIZE * 2 ^ 23 ∧ 0 <= 32.
Proof. done. Qed.

Lemma length_contents p : pipe_ok p → Z.of_nat (length (contents p)) = level p.
Proof. intros O. apply length_window, O. Qed.

Lemma pipe_full_iff p : pipe_ok p → pipe_full p = true ↔ level p = PIPESIZE.
Proof.
  intros O. unfold pipe_full, level. rewrite Z.eqb_eq, (ahead_at 32); [done|lia|apply O|done].
Qed.

Lemma pipe_empty_iff p : pipe_ok p → pipe_empty p = true ↔ contents p = [].
Proof.
  intros O. unfold pipe_empty. rewrite Z.eqb_eq, <- (ahead_zero 32 (pi_nwrite p)); [|lia|apply O|apply O]. fold (level p).
  pose proof (length_contents p O) as Hl. split; intros E; [apply nil_length_inv; lia|]. by rewrite E in Hl.
Qed.

Lemma push_spec p ch : pipe_ok p → pipe_full p = false →
  pipe_ok (push_byte ch p) ∧ contents (push_byte ch p) = contents p ++ [u8 ch] ∧ same_ends p (push_byte ch p).
Proof.
  intros O Hf. destruct pipe_params as (HN & Hc & Hb & H0). pose proof (po_level p O) as Hl.
  assert (0 <= level p < PIPESIZE) as Hlt.
  { assert (level p ≠ PIPESIZE); [|lia]. rewrite <- (pipe_full_iff p O). by rewrite Hf. }
  assert (level (push_byte ch p) = level p + 1) as El by (by apply (ahead_push 32 PIPESIZE (2 ^ 23))).
  split_and!; [split|..].
  - simpl. rewrite length_insert. apply O.
  - apply O.
  - apply wrap_bound. lia.
  - lia.
  - unfold contents. rewrite El. cbn [push_byte pi_data pi_nread].
    rewrite <- (ahead_ring 32 PIPESIZE (2 ^ 23) HN Hc Hb H0 (pi_nwrite p) (pi_nread p)). by apply window_push; [|apply O|].
  - done.
Qed.

Lemma pop_spec p : pipe_ok p → pipe_empty p = false → let p' := set_nread (u32 (pi_nread p + 1)) p in
  pipe_ok p' ∧ contents p = front_byte p :: contents p' ∧ same_ends p p'.
Proof.
  intros O He p'. destruct pipe_params as (HN & Hc & Hb & H0). pose proof (po_level p O) as Hl.
  assert (0 < level p) as Hlt.
  { assert (level p ≠ 0); [|lia]. unfold level. rewrite (ahead_zero 32 _ _ H0 (po_nwrite p O) (po_nread p O)). unfold pipe_empty in He. lia. }
  assert (level p' = level p - 1) as El by (by apply (ahead_pop 32)).
  split_and!; [split|..].
  - apply O.
  - apply wrap_bound. lia.
  - apply O.
  - lia.
  - unfold contents. rewrite El, (window_cons PIPESIZE) by lia. f_equal. cbn [p' set_nread pi_data pi_nread].
    by rewrite (window_wrap 32 PIPESIZE (2 ^ 23)).
  - done.
Qed.

(** ** One byte of memory that is present *)

Section Pipes.
Context `{HH : Hardware} `{LD : Linker} `{SW : !Switch kern}.
Abbreviation us := (ust kern).
Abbreviation um s := (m_mem (u_m s)).
Abbreviation ks := (kst kern).

(** The pages from [a] to [a + n] are mapped, with the permission [perm]. *)
Definition resident (s : us) (T : tree) (perm a n : Z) : Prop :=
  0 <= a ∧ a + n <= MAXVA ∧
  ∀ va, a <= va < a + n → has (leaf (um s) T va) PTE_V = true ∧ has (leaf (um s) T va) perm = true.

(** The bytes the process has there. *)
Definition user_bytes (s : us) (T : tree) (a n : Z) : list Z :=
  (λ va, mapped_byte s (leaf (um s) T va) va) <$> seqZ a n.

Lemma page_leaf (m : mem) T va : 0 <= va →
  leaf m T (PGROUNDDOWN va) = leaf m T va ∧ va - PGROUNDDOWN va = va mod PGSIZE ∧ 0 <= va mod PGSIZE < PGSIZE.
Proof.
  intros Hva. destruct (PGROUNDDOWN_facts va Hva) as (Hal & Hle & Hlt). pose proof (Z.mod_pos_bound va PGSIZE ltac:(lia)).
  assert (same_page (PGROUNDDOWN va) va = true) as Hs.
  { unfold same_page. rewrite PGROUNDDOWN_eq in *. pose proof (Z.div_mod va PGSIZE).
    replace (va - va mod PGSIZE) with (va / PGSIZE * PGSIZE) by lia. rewrite Z.div_mul by lia. lia. }
  split_and!; [by apply leaf_page|rewrite PGROUNDDOWN_eq; lia|lia|lia].
Qed.

Lemma copyin_byte u T va (s : us) : user_ok u T s → resident s T PTE_U va 1 →
  wp (copyin u va 1) (λ rb s', rb = (0, user_bytes s T va 1) ∧ s' = s) s.
Proof.
  intros Hu (Ha & Hm & Hr). destruct (Hr va ltac:(lia)) as [HV HU]. destruct (page_leaf (um s) T va Ha) as (EL & Eo & Ho).
  destruct (uo_entry _ _ _ Hu va HV) as (q & Eq & _ & _ & Hq & _). pose proof (Hq HU) as Hqm.
  destruct (PGROUNDDOWN_facts va Ha) as (_ & Hle & _).
  unfold copyin. change (S (Z.to_nat 1)) with 2%nat. cbn [copyin_loop]. change (0 <? 1) with true. cbv iota zeta.
  eapply wp_step with (P := λ pa s', pa = q * PGSIZE ∧ s' = s).
  { unfold readable_page. apply wp_bind, wp_zoom. eapply wp_eq; [apply (pgt_getpa_run T); [apply Hu|lia]|]. rewrite set_view.
    rewrite (proj2 (Z.ltb_lt _ MAXVA)) by lia. unfold lookup_pa. change (m_mem (view s)) with (um s).
    rewrite EL, HV, HU, Eq. cbn [andb]. rewrite (proj2 (Z.eqb_neq _ _)) by (by apply managed_nonzero). by apply wp_ret. }
  intros pa s' [-> ->]. rewrite (proj2 (Z.eqb_neq _ _)) by (by apply managed_nonzero).
  rewrite MIN_eq, Z.min_r by lia. apply wp_bind, wp_zoom, wp_gets. rewrite set_view. change (1 - 1) with 0. cbn [copyin_loop].
  apply wp_ret. split; [|done]. unfold user_bytes, mapped_byte. rewrite seqZ_cons by lia. cbn [fmap list_fmap Z.pred]. rewrite Eq.
  unfold get_bytes. simpl. rewrite Z.add_0_r, Eo. done.
Qed.

(** Storing one byte at a user address. *)
Definition poke (s : us) (T : tree) (va b : Z) : us :=
  set (set_mem (put_bytes (um s) (PTE2PA (leaf (um s) T va) + va mod PGSIZE) [b]) (u_m s)) s.

Lemma copyout_byte u T va b (s : us) : user_ok u T s → resident s T PTE_W va 1 →
  wp (copyout u va [b]) (λ r s', r = 0 ∧ s' = poke s T va b) s.
Proof.
  intros Hu (Ha & Hm & Hr). destruct (Hr va ltac:(lia)) as [HV HW]. destruct (page_leaf (um s) T va Ha) as (EL & Eo & Ho).
  destruct (uo_entry _ _ _ Hu va HV) as (q & Eq & _ & _ & _ & Hq). destruct (Hq HW) as [Hqm _].
  destruct (PGROUNDDOWN_facts va Ha) as (_ & Hle & _). unfold copyout. change (Z.of_nat (length [b])) with 1.
  rewrite (wrap_small 64) by lia. rewrite (proj2 (Z.ltb_ge _ _)), (proj2 (Z.ltb_ge _ _)) by lia.
  cbn [orb length copyout_loop]. change (0 <? Z.of_nat 1) with true. cbv iota zeta.
  eapply wp_step with (P := λ pa s', pa = q * PGSIZE ∧ s' = s).
  { unfold writable_page. apply wp_bind, wp_zoom. eapply wp_eq; [apply (pgt_walk_false T); [apply Hu|lia]|]. rewrite set_view.
    destruct (T !! (0, kidx 0 (PGROUNDDOWN va))) as [p|] eqn:Hp.
    2: { rewrite <- EL in HV. unfold leaf in HV. by rewrite Hp in HV. }
    rewrite (proj2 (Z.eqb_neq _ _)) by (eapply slot_nonzero; [apply Hu|done]).
    apply wp_bind, wp_zoom, wp_gets. rewrite set_view. change (view s) with (u_m s). rewrite <- (leaf_slot _ _ _ _ Hp), EL, HV, HW.
    by apply wp_ret. }
  intros pa s' [-> ->]. rewrite (proj2 (Z.eqb_neq _ _)) by (by apply managed_nonzero).
  rewrite MIN_eq, Z.min_r by (simpl; lia). apply wp_bind, wp_zoom, wp_modify. apply wp_ret. split; [done|].
  unfold poke. rewrite Eq, Eo. done.
Qed.

(** [bs] was stored from [a] on, in pages nobody shares; the page table is the
    same. *)
Definition stored (u : uvm) (T : tree) (a : Z) (bs : list Z) (s s' : us) : Prop :=
  user_ok u T s' ∧ files_kept s s' ∧ others_kept T s T s' ∧ (∀ va, leaf (um s') T va = leaf (um s) T va) ∧
  ∀ va, ubyte s' u T va = written bs a (ubyte s u T) va.

Lemma stored_nil u T a s : user_ok u T s → stored u T a [] s s.
Proof. intros Hu. split_and!; try done. intros va. by rewrite written_nil. Qed.

Lemma stored_app u T a bs bs' s1 s2 s3 :
  stored u T a bs s1 s2 → stored u T (a + Z.of_nat (length bs)) bs' s2 s3 → stored u T a (bs ++ bs') s1 s3.
Proof.
  intros (_ & F1 & O1 & L1 & B1) (U2 & F2 & O2 & L2 & B2).
  split_and!; [done|by eapply files_kept_trans|by eapply others_kept_trans|intros va; by rewrite L2|].
  intros va. rewrite <- written_app, B2. by apply written_ext.
Qed.

Lemma poke_stored u T va b (s : us) : user_ok u T s → resident s T PTE_W va 1 → stored u T va [b] s (poke s T va b).
Proof.
  intros Hu (Ha & Hm & Hr). destruct (Hr va ltac:(lia)) as [HV HW]. destruct (page_leaf (um s) T va Ha) as (EL & Eo & Ho).
  destruct (PGROUNDDOWN_facts va Ha) as (Hal & _ & _). rewrite <- EL in HV, HW.
  assert (va mod PGSIZE + Z.of_nat (length [b]) <= PGSIZE) as Hlen by (simpl; lia).
  destruct (write_user u T s (PGROUNDDOWN va) (va mod PGSIZE) [b] Hu Hal HV) as (U & F & B); [lia|done|].
  pose proof (write_others u T s (PGROUNDDOWN va) (va mod PGSIZE) [b] Hu HV HW ltac:(lia) Hlen) as O. cbv zeta in U, F, B, O.
  rewrite EL in U, F, B, O. replace (PGROUNDDOWN va + va mod PGSIZE) with va in B by lia.
  split_and!; [done..| |done]. intros x. unfold poke. rewrite <- EL. by eapply write_leaf; [..|lia|].
Qed.

(** ** The loops, under the lock of the pipe *)

Definition put_pipe (pi : Z) (p : pipe) (s : ks) : ks :=
  set (mkUst (u_m (k_u s)) (u_vmas (k_u s)) (set_pipes (<[pi := p]> (kn_pipes (u_k (k_u s)))) (u_k (k_u s)))) s.

(** User memory does not depend on the pipes. *)
Lemma user_ok_pipe u T pi p (s : ks) : user_ok u T (k_u s) → user_ok u T (k_u (put_pipe pi p s)).
Proof. intros [U1 U2 U3 U4 U5 U6 U7]. by split. Qed.

Lemma put_put_pipe pi p p' s : put_pipe pi p' (put_pipe pi p s) = put_pipe pi p' s.
Proof. unfold put_pipe. simpl. by rewrite insert_insert_eq. Qed.

Lemma put_pipe_id pi p (s : ks) : kn_pipes (u_k (k_u s)) !! pi = Some p → put_pipe pi p s = s.
Proof. intros E. unfold put_pipe. rewrite insert_id by done. by destruct s as [[? ? []]]. Qed.

Lemma wp_getpi {A} (g : pipe → A) pi p s (Q : A → ks → Prop) : Q (g p) (put_pipe pi p s) → wp (getpi g pi) Q (put_pipe pi p s).
Proof. intros HQ. apply wp_gets. simpl. unfold pipe_at. by rewrite lookup_insert_eq. Qed.

Lemma wp_setpi (g : pipe → pipe) pi p s (Q : unit → ks → Prop) :
  Q tt (put_pipe pi (g p) s) → wp (setpi pi g) Q (put_pipe pi p s).
Proof.
  intros HQ. apply wp_modify. simpl. unfold pipe_at. rewrite lookup_insert_eq, insert_insert_eq. exact HQ.
Qed.

Lemma resident_next s T perm a n : 1 <= n → resident s T perm a n → resident s T perm a 1 ∧ resident s T perm (a + 1) (n - 1).
Proof. intros Hn (Ha & Hm & Hr). split; (split_and!; [lia|lia|]); intros va Hva; apply Hr; lia. Qed.

Lemma user_bytes_next s T a n : 1 <= n → user_bytes s T a n = hd 0 (user_bytes s T a 1) :: user_bytes s T (a + 1) (n - 1).
Proof.
  intros Hn. unfold user_bytes. rewrite (seqZ_cons a n), (seqZ_cons a 1) by lia. done.
Qed.

Lemma u8_user_byte s T a : u8 (hd 0 (user_bytes s T a 1)) = hd 0 (user_bytes s T a 1).
Proof. unfold user_bytes. rewrite seqZ_cons by lia. apply u8_ldb. Qed.

Lemma pipewrite_loop_spec pi addr n u T pr (s : ks) :
  p_uvm (proc_at (k_procs s) pr) = u → p_killed (proc_at (k_procs s) pr) = 0 → user_ok u T (k_u s) →
  ∀ k m i p, pipe_ok p → pi_readopen p ≠ 0 → Z.of_nat k = n - i → 0 <= i → level p + (n - i) <= PIPESIZE → (k < m)%nat →
  resident (k_u s) T PTE_U (addr + i) (n - i) →
  wp (pipewrite_loop m pr pi addr n i) (λ r s', r = inr n ∧ ∃ p', pipe_ok p' ∧ same_ends p p' ∧
    contents p' = contents p ++ user_bytes (k_u s) T (addr + i) (n - i) ∧ s' = put_pipe pi p' s) (put_pipe pi p s).
Proof.
  intros Eu Ek Hu. induction k as [|k IH]; intros m i p O Hr Hk Hi Hl Hm R; (destruct m as [|m]; [lia|]); cbn [pipewrite_loop].
  - rewrite (proj2 (Z.ltb_ge _ _)) by lia. apply wp_ret. replace (n - i) with 0 by lia. split; [f_equal; lia|]. exists p.
    split_and!; try done. by rewrite app_nil_r.
  - rewrite (proj2 (Z.ltb_lt _ _)) by lia. apply wp_bind, wp_getpi. apply wp_bind, wp_gets. change (k_procs (put_pipe pi p s)) with (k_procs s).
    cbn [id]. rewrite Ek, (proj2 (Z.eqb_neq _ _)) by done. change (false || truthy 0) with false. cbv iota.
    destruct (pipe_full p) eqn:Ef. { rewrite (pipe_full_iff p O) in Ef. lia. }
    apply wp_bind, wp_gets. change (k_procs (put_pipe pi p s)) with (k_procs s). rewrite Eu.
    destruct (resident_next _ _ _ _ (n - i) ltac:(lia) R) as [R1 R2]. rewrite (wrap_small 64) by (destruct R1 as (? & ? & _); lia).
    apply wp_bind, wp_zoom. eapply wp_mono; [apply (copyin_byte u T); [by apply user_ok_pipe|exact R1]|]. intros rc s' (-> & ->). rewrite set_view.
    cbn [fst snd]. change (0 =? -1) with false. cbv iota. apply wp_bind, wp_setpi.
    change (user_bytes (view (put_pipe pi p s)) T (addr + i) 1) with (user_bytes (k_u s) T (addr + i) 1).
    set (b := hd 0 (user_bytes (k_u s) T (addr + i) 1)). destruct (push_spec p b O Ef) as (O' & C' & S').
    pose proof (length_contents _ O') as L'. rewrite C', length_app, Nat2Z.inj_add, (length_contents p O) in L'. simpl in L'.
    eapply wp_mono; [apply (IH m (i + 1) (push_byte b p)); [done|by destruct S' as [-> _]|lia|lia|lia|lia|]|].
    { by replace (addr + (i + 1)) with (addr + i + 1) by lia; replace (n - (i + 1)) with (n - i - 1) by lia. }
    intros r s' (-> & p' & O2 & S2 & C2 & ->). split; [done|]. exists p'. split; [done|]. split; [by eapply same_ends_trans|].
    split; [|done]. rewrite C2, C'. unfold b. rewrite u8_user_byte, (user_bytes_next _ _ _ (n - i)), <- app_assoc by lia. cbn [app]. do 3 f_equal; lia.
Qed.

Lemma piperead_loop_spec pi addr pr m : ∀ i p u T (s : ks),
  p_uvm (proc_at (k_procs s) pr) = u → user_ok u T (k_u s) → pipe_ok p → 0 <= i →
  let k := Nat.min m (length (contents p)) in
  resident (k_u s) T PTE_W (addr + i) (Z.of_nat k) →
  wp (piperead_loop m pr pi addr i) (λ r s', r = i + Z.of_nat k ∧ ∃ p' w, pipe_ok p' ∧ same_ends p p' ∧
    contents p' = drop k (contents p) ∧ stored u T (addr + i) (take k (contents p)) (k_u s) w ∧ s' = put_pipe pi p' (set w s))
    (put_pipe pi p s).
Proof.
  induction m as [|m IH]; intros i p u T s Eu Hu O Hi k R; cbn [piperead_loop].
  { apply wp_ret. split; [simpl in k; lia|]. exists p, (k_u s). do 3 (split; [done|]). split; [by apply stored_nil|by destruct s]. }
  apply wp_bind, wp_getpi. cbn [id]. destruct (pipe_empty p) eqn:Ee.
  { rewrite (pipe_empty_iff p O) in Ee. unfold k in *. rewrite Ee in *. rewrite Nat.min_0_r. apply wp_ret. split; [simpl; lia|].
    exists p, (k_u s). do 3 (split; [done|]). split; [by apply stored_nil|by destruct s]. }
  destruct (pop_spec p O Ee) as (O1 & C1 & S1). cbv zeta in O1, C1, S1.
  apply wp_bind, wp_setpi. set (p1 := set_nread _ p) in *. apply wp_bind, wp_gets.
  change (k_procs (put_pipe pi p1 s)) with (k_procs s). rewrite Eu.
  assert (Z.of_nat k = 1 + Z.of_nat (Nat.min m (length (contents p1)))) as Ek by (unfold k; rewrite C1; simpl length; lia).
  destruct (resident_next _ _ _ _ (Z.of_nat k) ltac:(lia) R) as [R1 R2]. rewrite (wrap_small 64) by (destruct R1 as (? & ? & _); lia).
  apply wp_bind, wp_zoom. eapply wp_mono; [apply (copyout_byte u T); [by apply user_ok_pipe|exact R1]|]. intros r w (-> & ->).
  change (0 =? -1) with false. cbv iota.
  change (set (poke (view (put_pipe pi p1 s)) T (addr + i) (front_byte p)) (put_pipe pi p1 s)) with
    (put_pipe pi p1 (set (poke (k_u s) T (addr + i) (front_byte p)) s)).
  pose proof (poke_stored u T (addr + i) (front_byte p) (k_u s) Hu R1) as St. set (w := poke _ _ _ _) in *.
  eapply wp_mono; [apply (IH (i + 1) p1 u T (set w s)); [done|exact (proj1 St)|done|lia|]|].
  { replace (addr + (i + 1)) with (addr + i + 1) by lia. replace (Z.of_nat (Nat.min m (length (contents p1)))) with (Z.of_nat k - 1) by lia.
    destruct R2 as (? & ? & R2). split; [done|]. split; [done|]. intros va Hva. destruct St as (_ & _ & _ & L & _).
    change (um (k_u (set w s))) with (um w). rewrite L. by apply R2. }
  intros r s' (-> & p' & w' & O' & S' & C' & St' & ->). split; [lia|]. exists p', w'.
  replace k with (S (Nat.min m (length (contents p1)))) by lia. rewrite C1. split; [done|].
  split; [by eapply same_ends_trans|]. split; [done|]. split; [|done]. cbn [take]. eapply (stored_app _ _ _ [_]); [exact St|]. by replace (addr + i + Z.of_nat (length [front_byte p])) with (addr + (i + 1)) by (simpl; lia).
Qed.

(** ** Under the lock and after it *)

(** User memory while the lock of the pipe is held. *)
Definition inside (pi : Z) (s : ks) : us := set (acquired (LK_PIPE pi) (view s)) (k_u s).

Lemma user_ok_equiv u T (l l' : lockst) (s : us) : l' ≡ l → user_ok u T (set l s) → user_ok u T (set l' s).
Proof.
  intros E [U1 U2 U3 U4 U5 U6 U7]. split; try done.
  - change (lockable LK_KMEM l'). rewrite E. exact U3.
  - intros i j Hi. eapply area_ok_user; [by eapply U5|done|exact E].
Qed.

(** Anonymous memory does not depend on the locks of the file system. *)
Lemma user_ok_anon u T l (s : us) :
  lockable LK_KMEM l → (∀ i j, slot_is u i j → v_inode (vma_at (u_vmas s) j) = None) → user_ok u T s → user_ok u T (set l s).
Proof.
  intros Hl Hn [U1 U2 U3 U4 U5 U6 U7]. split; try done. intros i j Hi. specialize (U5 i j Hi). unfold area_ok in *.
  change (u_vmas (set l s)) with (u_vmas s). by rewrite (Hn i j Hi) in *.
Qed.

Lemma stored_locks u T a (l l' : lockst) (s : us) : l' ≡ l → user_ok u T (set l s) → stored u T a [] (set l s) (set l' s).
Proof.
  intros E Hu. split; [by eapply user_ok_equiv|]. split; [by apply files_kept_user|].
  split; [|by split; [|intros va; by rewrite written_nil]].
  intros u2 T2 Hu2 I2. split; [by eapply user_ok_equiv|]. split; [|done]. by destruct I2; split.
Qed.

Lemma wp_me i (s : ks) Q : hart_ok (view s) → current (view s) = Some i → (∀ s', relocked s s' → Q i s') → wp me Q s.
Proof.
  intros Hh Hc HQ. unfold me. apply wp_bind, wp_myproc; [done|]. intros s' R. rewrite Hc. by apply wp_ret, HQ.
Qed.

(** Both calls end this way. *)
Lemma wake_release c pi (v : Z) (s s2 : ks) :
  plocks s → lockable (LK_PIPE pi) (view s) → (view s2 : lockst) ≡ acquired (LK_PIPE pi) (view s) → k_procs s2 = k_procs s →
  wp (wakeup c ;; zoom (release (LK_PIPE pi)) ;; ret v)
     (λ r s', r = v ∧ upd (after_wakeup s c (Z.of_nat NPROC)) (set (view s : lockst) s2) s') s2.
Proof.
  intros Hl Hp E Ep. eapply wp_step; [apply wakeup_spec|].
  { intros i Hi. rewrite E. apply acquired_lockable; [done|by apply Hl]. }
  intros [] s3 U. apply wp_bind, (wp_release _ (view s)); [done|by rewrite (up_lk _ _ _ U)|]. intros l El. apply wp_ret. split; [done|].
  destruct U as [U1 U2 U3 U4 U5 U6]. split; try done.
  - cbn [k_u set kst_lk kst_u]. by rewrite U2.
  - intros i. change (k_procs (set l s3)) with (k_procs s3). rewrite U6. unfold after_wakeup. rewrite Ep.
    rewrite (current_proper _ _ E), current_acquired by apply Hp. done.
Qed.

(** A call on the pipe [p] at [pi] by the process in entry [i], whose memory is
    [u] with the page table [T]. *)
Record calling (s : ks) (pi : Z) (p : pipe) (i : Z) (u : uvm) (T : tree) : Prop := {
  ca_procs : plocks s;
  ca_lock : lockable (LK_PIPE pi) (view s);
  ca_pipe : kn_pipes (u_k (k_u s)) !! pi = Some p;
  ca_ok : pipe_ok p;
  ca_me : current (view s) = Some i;
  ca_uvm : p_uvm (proc_at (k_procs s) i) = u;
  ca_user : user_ok u T (inside pi s)
}.

(** Entering the critical section. *)
Lemma enter_pipe {A} (m : Z → M ks A) s pi p i u T Q :
  calling s pi p i u T →
  (∀ l, l ≡ acquired (LK_PIPE pi) (view s) → user_ok u T (set l (k_u s)) → wp (m i) Q (put_pipe pi p (set l s))) →
  wp (let! pr := me in zoom (acquire (LK_PIPE pi)) ;; m pr) Q s.
Proof.
  intros [C1 C2 C3 C4 C5 C6 C7] Hm. apply wp_bind, (wp_me i); [apply C2|done|]. intros s1 (l & El & ->).
  apply wp_bind, wp_acquire; [by rewrite view_set, El|]. rewrite view_set, set_set.
  assert (acquired (LK_PIPE pi) l ≡ acquired (LK_PIPE pi) (view s)) as E by (by rewrite El).
  rewrite <- (put_pipe_id pi p (set _ s)) by done. apply Hm; [done|]. by eapply user_ok_equiv.
Qed.

Lemma pipewrite_spec fuel s pi p i u T addr n :
  calling s pi p i u T → p_killed (proc_at (k_procs s) i) = 0 → pi_readopen p ≠ 0 → 0 <= n → level p + n <= PIPESIZE → (0 < fuel)%nat →
  resident (k_u s) T PTE_U addr n →
  wp (pipewrite fuel pi addr n) (λ r s', r = n ∧ ∃ p', pipe_ok p' ∧ same_ends p p' ∧
    contents p' = contents p ++ user_bytes (k_u s) T addr n ∧
    upd (after_wakeup s (PIPE_NREAD pi) (Z.of_nat NPROC)) (put_pipe pi p' s) s') s.
Proof.
  intros C Hk Hr Hn Hl Hf R. unfold pipewrite. apply (enter_pipe _ s pi p i u T); [done|]. intros l El Hu.
  eapply wp_step.
  { apply (pipewrite_loop_spec pi addr n u T i (set l s)) with (k := Z.to_nat n); try done; try lia; [apply C|apply C|].
    rewrite Z.add_0_r, Z.sub_0_r. exact R. }
  intros r s2 (-> & p' & O' & S' & C' & ->). cbv iota. rewrite Z.add_0_r, Z.sub_0_r in C'.
  eapply wp_mono; [apply (wake_release _ pi n s); [apply C|apply C|exact El|done]|]. intros r s' (-> & U). split; [done|]. exists p'.
  split; [done|]. split; [done|]. split; [exact C'|].
  replace (put_pipe pi p' s) with (set (view s : lockst) (put_pipe pi p' (set l s))); [done|by destruct s as [[[]]]].
Qed.

(** Nobody reads any more, or the writer is killed. *)
Lemma pipewrite_closed_spec fuel (s : ks) pi p i addr n :
  lockable (LK_PIPE pi) (view s) → kn_pipes (u_k (k_u s)) !! pi = Some p → current (view s) = Some i → 0 < n →
  pi_readopen p = 0 ∨ p_killed (proc_at (k_procs s) i) ≠ 0 →
  wp (pipewrite fuel pi addr n) (λ r s', r = -1 ∧ relocked s s') s.
Proof.
  intros Hl Hp Hc Hn Hbad. unfold pipewrite. apply wp_bind, (wp_me i); [apply Hl|done|]. intros s1 (l & El & ->).
  apply wp_bind, wp_acquire; [by rewrite view_set, El|]. rewrite view_set, set_set.
  destruct (Z.to_nat n + fuel)%nat as [|m] eqn:Em; [lia|]. cbn [pipewrite_loop]. rewrite (proj2 (Z.ltb_lt 0 n)) by lia.
  apply wp_bind. rewrite <- (put_pipe_id pi p (set _ s)) by done. apply wp_bind, wp_getpi. rewrite put_pipe_id by done.
  apply wp_bind, wp_gets. cbn [id]. change (k_procs (set (acquired (LK_PIPE pi) l) s)) with (k_procs s).
  assert ((pi_readopen p =? 0) || truthy (p_killed (proc_at (k_procs s) i)) = true) as ->.
  { apply orb_true_iff. unfold truthy. rewrite negb_true_iff, Z.eqb_eq, Z.eqb_neq. done. }
  apply wp_bind, (wp_release _ (view s)); [done|by rewrite view_set, El|]. intros l' El'. apply wp_ret, wp_ret. split; [done|].
  exists l'. split; [done|]. by rewrite set_set.
Qed.

Lemma wait_data_ready m pr pi p (s : ks) : pipe_empty p && truthy (pi_writeopen p) = false → 
  wp (wait_data (S m) pr pi) (λ b s', b = false ∧ s' = put_pipe pi p s) (put_pipe pi p s).
Proof. intros E. cbn [wait_data]. apply wp_bind, wp_getpi. cbn [id]. rewrite E. by apply wp_ret. Qed.

Lemma piperead_spec fuel s pi p i u T addr n :
  calling s pi p i u T → (contents p = [] → pi_writeopen p = 0) → 0 <= n → (0 < fuel)%nat →
  let k := Nat.min (Z.to_nat n) (length (contents p)) in
  resident (k_u s) T PTE_W addr (Z.of_nat k) →
  wp (piperead fuel pi addr n) (λ r s', r = Z.of_nat k ∧ ∃ p' w, pipe_ok p' ∧ same_ends p p' ∧
    contents p' = drop k (contents p) ∧ stored u T addr (take k (contents p)) (inside pi s) w ∧
    upd (after_wakeup s (PIPE_NWRITE pi) (Z.of_nat NPROC)) (put_pipe pi p' (set (set (view s : lockst) w) s)) s') s.
Proof.
  intros C Hw Hn Hf k R. unfold piperead. apply (enter_pipe _ s pi p i u T); [done|]. intros l El Hu. pose proof (ca_ok _ _ _ _ _ _ C) as O.
  destruct fuel as [|fuel]; [lia|]. eapply wp_step; [apply wait_data_ready|].
  { destruct (pipe_empty p) eqn:Ee; [|done]. rewrite Hw; [done|]. by apply pipe_empty_iff. }
  intros b s1 (-> & ->). cbv iota. eapply wp_step.
  { apply (piperead_loop_spec pi addr i (Z.to_nat n) 0 p u T (set l s)); [apply C|exact Hu|done|lia|]. rewrite Z.add_0_r. exact R. }
  cbv zeta. fold k. intros r s2 (-> & p' & w & O' & S' & C' & St & ->). rewrite Z.add_0_l, Z.add_0_r in *.
  eapply wp_mono; [apply (wake_release _ pi _ s)|]; [apply C|apply C| |done|].
  { destruct St as (_ & (_ & E & _) & _). change (m_lk (u_m w) ≡ acquired (LK_PIPE pi) (view s)). by rewrite E. }
  intros r s' (-> & U). split; [done|]. exists p', w. split; [done|]. split; [done|]. split; [done|]. split; [|exact U].
  change (take k (contents p)) with ([] ++ take k (contents p)). eapply stored_app; [apply stored_locks; [exact El|apply C]|].
  by rewrite Z.add_0_r.
Qed.
End Pipes.
