(* ===== verification/KernProps.v ===== *)
(** * Pipes, and mapped files, in the kernel as a whole

    The properties of pipes between processes, and of a lazily mapped file down
    to the blocks of its inode. *)

From S2P Require Import Prelude Riscv Mem Random Spinlock Kalloc Pagetable PtSpec PtRange PtFree PtProps Uvm UvmSpec UvmFault UvmCopy UvmProps.
From S2P Require Import Block Bio Log Fs FsSpec FsFile FsInode FsTable FsData FsInst FsProps Proc ProcSpec ProcProps Kern KernLaws Ring File PipeSpec.

Section Props.
Context `{HH : Hardware} `{LD : Linker} `{SW : !Switch kern}.
Abbreviation um s := (m_mem (u_m s)).

(** C5 (refinement).  A pipe is a queue of bytes: with room for them,
    [pipewrite] appends exactly the [n] bytes the writer has at [addr], answers
    [n], wakes the processes that wait for data and changes nothing else. *)
Theorem pipewrite_correct fuel (s : kst kern) pi p i u T addr n :
  calling s pi p i u T → p_killed (proc_at (k_procs s) i) = 0 → pi_readopen p ≠ 0 → 0 <= n → level p + n <= PIPESIZE → (0 < fuel)%nat →
  resident (k_u s) T PTE_U addr n →
  wp (pipewrite fuel pi addr n) (λ r s', r = n ∧ ∃ p', pipe_ok p' ∧ same_ends p p' ∧
    contents p' = contents p ++ user_bytes (k_u s) T addr n ∧
    upd (after_wakeup s (PIPE_NREAD pi) (Z.of_nat NPROC)) (put_pipe pi p' s) s') s.
Proof. apply pipewrite_spec. Qed.

(** C21 (refinement).  [piperead] takes the oldest bytes off the queue, as many as
    there are and at most [n], and stores them in this order in the reader's
    memory from [addr] on, whose pages must be present and writable (neither still to
    be allocated or read from a file, nor shared for copy on write); it wakes the
    processes that wait for room.  No byte of another process changes.  With the queue
    empty and the write end closed it answers 0. *)
Theorem piperead_correct fuel (s : kst kern) pi p i u T addr n :
  calling s pi p i u T → (contents p = [] → pi_writeopen p = 0) → 0 <= n → (0 < fuel)%nat →
  let k := Nat.min (Z.to_nat n) (length (contents p)) in
  resident (k_u s) T PTE_W addr (Z.of_nat k) →
  wp (piperead fuel pi addr n) (λ r s', r = Z.of_nat k ∧ ∃ p' w, pipe_ok p' ∧ same_ends p p' ∧
    contents p' = drop k (contents p) ∧ stored u T addr (take k (contents p)) (inside pi s) w ∧
    upd (after_wakeup s (PIPE_NWRITE pi) (Z.of_nat NPROC)) (put_pipe pi p' (set (set (view s : lockst) w) s)) s') s.
Proof. apply piperead_spec. Qed.

(** C40 (error).  Writing to a pipe nobody reads any more, or by a process that was
    killed, answers -1 and changes nothing, however full the pipe is. *)
Theorem pipewrite_closed fuel (s : kst kern) pi p i addr n :
  lockable (LK_PIPE pi) (view s) → kn_pipes (u_k (k_u s)) !! pi = Some p → current (view s) = Some i → 0 < n →
  pi_readopen p = 0 ∨ p_killed (proc_at (k_procs s) i) ≠ 0 →
  wp (pipewrite fuel pi addr n) (λ r s', r = -1 ∧ relocked s s') s.
Proof. apply pipewrite_closed_spec. Qed.

(** C27 (functional).  A page of a mapped file, filled on demand, holds the bytes
    of the file's blocks at that offset, as the log and the cache have them, and
    zeros past the end of the mapped part; nothing else in memory changes, and
    the file is as before. *)
Theorem page_from_file (s : ust kern) v va p ip :
  let f : fsys lst := view s in
  area_ok s v → v_inode v = Some ip → in_area v va = true → aligned va → zero_page (um s) p →
  wp (fill_page v va (p * PGSIZE)) (λ _ s',
    (∀ j, 0 <= j < PGSIZE → ldb (um s') (p * PGSIZE + j) =
       if va + j <? v_start v + v_filesz v then u8 (fbyte (lb (f_b f)) (inode_at (f_itab f) ip) (v_offset v + (va + j - v_start v))) else 0) ∧
    (∀ a, in_page p a = false → ldb (um s') a = ldb (um s) a) ∧
    ready_file s' ip ∧ data (view s') ip = data f ip) s.
Proof.
  intros f A Ei Hin Hal Hz. pose proof A as (A1 & A2 & A3 & A4 & A5). rewrite Ei in A5. destruct A5 as (R & B1 & B2 & B3 & B4).
  eapply wp_mono; [by apply (fill_page_spec v va p s)|]. intros [] s' ((_ & _ & _ & F) & _ & _ & Hout & Hpage).
  destruct (F ip) as [F1 F2]. split; [|split; [exact Hout|split; [by apply F1|exact F2]]].
  intros j Hj. rewrite Hpage by done. unfold init_byte. rewrite Ei.
  destruct (Z.ltb_spec (va + j) (v_start v + v_filesz v)) as [Hlt|]; [|done]. f_equal.
  unfold in_area, v_end in Hin. cbn [file_data kern_laws] in B3 |- *. unfold data in B3 |- *. rewrite length_fbytes in B3.
  rewrite nth_fbytes by lia. done.
Qed.
End Props.

(** ** Witnesses *)

#[local] Opaque demo_root demo_s1 demo_s2 memset memmove st ld demo_bmap demo_dirblock fs_disk demo_fs.

(** No device answers, and the processor is never given away. *)
#[local] Instance demo_hardware : Hardware := {| hw := unit; mmio_read _ h := (0, h); mmio_write _ _ h := h |}.
#[local] Instance demo_kern_switch : Switch kern := {| swtch_out _ := ret tt; swtch_in _ := ret tt |}.

(** A kernel with one pipe, three bytes in it where the ring wraps around. *)
Definition demo_pipe_addr : Z := KERNBASE + 8 * PGSIZE.
Definition demo_pipe : pipe := mkPipe (<[511%nat := 7]> (<[0%nat := 8]> (<[1%nat := 9]> (replicate 512 0)))) (2 ^ 32 - 1) 2 1 1.
Definition demo_kern (k : kfs) : kern :=
  mkKern k ∅ {[demo_pipe_addr := demo_pipe]} ∅ (mkCons (replicate 128 0) 0 0 0) (mkUart (replicate 32 0) 0 0) 0 0 (mkCsrs 0 0 0 0 0 0 0) tt.

Lemma demo_contents : contents demo_pipe = [7; 8; 9].
Proof. vm_compute. reflexivity. Qed.

(** Process 1 runs on the hart; process 2 waits for data. *)
Definition demo_run_lk : lockst := mkLockst 0 true [mkCpu (Some 1) (srand 1) 0 false] ∅ [].
Definition demo_running : gmap Z proc :=
  <[1 := set_pstate RUNNING (set_ppid 1 (set_puvm demo_uvm proc0))]>
    (<[2 := set_pstate SLEEPING (set_pchan (Some (PIPE_NREAD demo_pipe_addr)) (set_ppid 2 proc0))]> ∅).

Lemma demo_run_lockable id : lockable id demo_run_lk.
Proof. split; [|done]. split; [done|]. exists (mkCpu (Some 1) (srand 1) 0 false). split_and!; done. Qed.

Lemma demo_pipe_ok : pipe_ok demo_pipe.
Proof. split; vm_compute; split_and?; try done; discriminate. Qed.

Section Demo.
Variable m : machine.
Definition demo_memory : ust kern := mkUst m demo_vmas (demo_kern kfs0).
Definition demo_calling : kst kern := mkKst (set demo_run_lk demo_memory) demo_running 3 None 0.

(** The two pages of the process are present. *)
Variable T : tree.
Hypotheses (Hk : kmem_ok (m_kmem m)) (Hl : lockable LK_KMEM (m_lk m))
  (F : filled demo_root demo_s1 (new_tree demo_root) 0 2 PTE_RW m T).

Lemma demo_memory_ok : user_ok demo_uvm T demo_memory.
Proof.
  apply (filled_user demo_root demo_root demo_s1 demo_uvm demo_memory T F eq_refl Hk Hl demo_areas_ok).
  intros i j [-> ->]%demo_slot. change (vma_at (u_vmas demo_memory) 0) with demo_area. unfold area_ok. simpl. lia.
Qed.

Lemma demo_resident perm a n : perm = PTE_U ∨ perm = PTE_W → 0 <= a → a + n <= 8192 → resident (k_u demo_calling) T perm a n.
Proof.
  intros Hp Ha Hn. split_and!; [done|lia|]. intros va Hva. change (m_mem (u_m (k_u demo_calling))) with (m_mem m).
  assert (0 <= va / PGSIZE < 2) as Hq. { split; [apply Z.div_pos; lia|apply Z.div_lt_upper_bound; lia]. }
  destruct F as (_ & _ & _ & F'). destruct (F' (va / PGSIZE) Hq) as (p & E & Hm & _).
  assert (leaf (m_mem m) T va = mk_leaf (p * PGSIZE) PTE_RW) as ->.
  { rewrite <- E. apply leaf_page. unfold same_page. rewrite Z.add_0_l, Z.div_mul by lia. apply Z.eqb_refl. }
  assert (paddr (p * PGSIZE)) as Hpa by (by apply managed_paddr). split; [apply mk_leaf_V|].
  destruct Hp as [-> | ->]; [by apply mk_leaf_U|]. unfold has. by rewrite land_flags, mk_leaf_flags.
Qed.

Lemma demo_calling_ok : calling demo_calling demo_pipe_addr demo_pipe 1 demo_uvm T.
Proof.
  split.
  - intros i _. apply demo_run_lockable.
  - apply demo_run_lockable.
  - apply lookup_singleton_eq.
  - apply demo_pipe_ok.
  - reflexivity.
  - reflexivity.
  - unfold inside. apply user_ok_anon; [apply acquired_lockable; [done|apply demo_run_lockable]| |].
    + intros i j [-> ->]%demo_slot. reflexivity.
    + apply user_ok_anon; [apply demo_run_lockable| |exact demo_memory_ok]. intros i j [-> ->]%demo_slot. reflexivity.
Qed.
End Demo.

Lemma demo_present : ∃ m T, kmem_ok (m_kmem m) ∧ lockable LK_KMEM (m_lk m) ∧
  filled demo_root demo_s1 (new_tree demo_root) 0 2 PTE_RW m T.
Proof. destruct demo_s2_ok as (T & [Hk Hl] & F). exists demo_s2, T. exact (conj Hk (conj Hl F)). Qed.

Lemma pipewrite_correct_witness :
  ∃ m T, wp (pipewrite 1 demo_pipe_addr 4094 4) (λ r s', r = 4 ∧ p_state (proc_at (k_procs s') 2) = RUNNABLE ∧
    ∃ p', contents p' = [7; 8; 9] ++ user_bytes (k_u (demo_calling m)) T 4094 4) (demo_calling m).
Proof.
  destruct demo_present as (m & T & Hk & Hl & F). exists m, T.
  eapply wp_mono; [apply (pipewrite_correct 1 (demo_calling m) demo_pipe_addr demo_pipe 1 demo_uvm T 4094 4 (demo_calling_ok m T Hk Hl F))|].
  - reflexivity.
  - done.
  - lia.
  - vm_compute. discriminate.
  - lia.
  - apply (demo_resident m T F); [by left|lia|lia].
  - intros r s' (-> & p' & _ & _ & C & U). split; [done|]. split; [by rewrite (up_procs _ _ _ U 2)|]. exists p'. by rewrite C, demo_contents.
Defined.

Lemma piperead_correct_witness :
  ∃ m, wp (piperead 1 demo_pipe_addr 4095 2) (λ r s', r = 2 ∧ ∃ p', contents p' = [9]) (demo_calling m).
Proof.
  destruct demo_present as (m & T & Hk & Hl & F). exists m.
  eapply wp_mono; [apply (piperead_correct 1 (demo_calling m) demo_pipe_addr demo_pipe 1 demo_uvm T 4095 2 (demo_calling_ok m T Hk Hl F))|].
  - by rewrite demo_contents.
  - lia.
  - lia.
  - rewrite demo_contents. apply (demo_resident m T F); [by right|lia|simpl; lia].
  - rewrite demo_contents. intros r s' (-> & p' & w & _ & _ & C & _). split; [done|]. by exists p'.
Defined.

Lemma pipewrite_closed_witness :
  wp (pipewrite 1 demo_pipe_addr 4094 4) (λ r _, r = -1) (put_pipe demo_pipe_addr (set_readopen 0 demo_pipe) (demo_calling demo_machine)).
Proof.
  eapply wp_mono; [apply (pipewrite_closed 1 _ demo_pipe_addr (set_readopen 0 demo_pipe) 1)|].
  - apply demo_run_lockable.
  - apply lookup_insert_eq.
  - reflexivity.
  - lia.
  - by left.
  - by intros r s' [-> _].
Defined.

(** The first page of a mapping of the file with the bytes of "hello". *)
Definition demo_mapping : vma := mkVma true (Some 1) 0 5 8192 4096 PTE_RW MAP_PRIVATE.
Definition demo_mapped (f : fsys lst) : ust kern :=
  mkUst (mkMachine (bs_lk (l_b (f_b f))) ∅ boot_kmem) ∅ (demo_kern (kfs_of f)).

Lemma demo_mapped_fs f : (view (demo_mapped f) : fsys lst) = f.
Proof. by destruct f as [[[] ?]]. Qed.

Lemma demo_in_use : ∃ f : fsys lst, ready_file (demo_mapped f) 1 ∧ Z.of_nat (length (data f 1)) = 5 ∧
  ∀ j, 0 <= j < 5 → fbyte (lb (f_b f)) (inode_at (f_itab f) 1) j = nth (Z.to_nat j) demo_file 0.
Proof.
  destruct demo_fs as (f & R & Esb & Eit & Hl & L & HW & Hu & Hlb & Ho & Hl1). exists f.
  unfold ready_file, unlocked. rewrite demo_mapped_fs. split_and!.
  - split; rewrite ?(demo_ino1 f Eit); try done; [by exists [33], 20%nat|by apply demo_file_ok|by apply demo_solid].
  - by rewrite (demo_ino1 f Eit).
  - unfold data. by rewrite length_fbytes, (demo_ino1 f Eit).
  - intros j Hj. rewrite (demo_ino1 f Eit). unfold fbyte, BSIZE. rewrite Z.div_small, Z.mod_small by lia. rewrite demo_addr by done.
    simpl (0 =? 0). cbv iota. by rewrite Hlb, fs_dread by lia.
Qed.

Lemma page_from_file_witness :
  ∃ s : ust kern, wp (fill_page demo_mapping 8192 (MAXPAGES * PGSIZE)) (λ _ s',
    get_bytes (m_mem (u_m s')) (MAXPAGES * PGSIZE) 7 = [104; 101; 108; 108; 111; 0; 0]) s.
Proof.
  destruct demo_in_use as (f & R & Hlen & Hb). exists (demo_mapped f).
  pose proof (page_from_file (demo_mapped f) demo_mapping 8192 MAXPAGES 1) as P. cbv zeta in P. rewrite demo_mapped_fs in P.
  eapply wp_mono; [apply P|].
  - pose proof (f_equal (λ g, data g 1) (demo_mapped_fs f) : file_data (demo_mapped f) 1 = data f 1) as Ed.
    unfold area_ok. cbn [v_inode demo_mapping]. rewrite Ed, Hlen. by split_and!.
  - done.
  - done.
  - done.
  - intros a _. done.
  - intros [] s' (Hp & _). assert (∀ j, 0 <= j < 7 → ldb (m_mem (u_m s')) (MAXPAGES * PGSIZE + j) =
      if 8192 + j <? 8192 + 5 then u8 (nth (Z.to_nat j) demo_file 0) else 0) as E.
    { intros j Hj. rewrite Hp by lia. simpl v_start. simpl v_filesz. simpl v_offset.
      destruct (Z.ltb_spec (8192 + j) (8192 + 5)); [|done]. rewrite Hb by lia. by replace (0 + (8192 + j - 8192)) with j by lia. }
    unfold get_bytes. simpl. repeat (rewrite E by lia). vm_compute. reflexivity.
Defined.
