(* ===== verification/ConsoleSpec.v ===== *)
(** * The line discipline of the console (kernel/console.c)

    The ring of the console holds the characters that were entered and not read
    yet, followed by the line being edited.  [consoleintr] is a line editor on
    these two lists; the output it makes ends whatever the terminal does, as long
    as the transmitter keeps becoming idle. *)

From S2P Require Import Prelude Riscv Mem Random Spinlock Kalloc Pagetable Uvm Block Bio Log Fs FsInst Proc ProcSpec Kern Ring Console.

(** ** The ring *)

Definition n_typed (c : console) : Z := ahead 32 (cons_w c) (cons_r c).
Definition n_line (c : console) : Z := ahead 32 (cons_e c) (cons_w c).
(** Characters that [consoleread] may take, and the line being edited. *)
Definition typed (c : console) : list Z := window INPUT_BUF (cons_buf c) (cons_r c) (n_typed c).
Definition line (c : console) : list Z := window INPUT_BUF (cons_buf c) (cons_w c) (n_line c).

Record cons_wf (c : console) : Prop := {
  co_buf : Z.of_nat (length (cons_buf c)) = INPUT_BUF;
  co_bytes : Forall (λ b, 0 <= b < 256) (cons_buf c);
  co_r : 0 <= cons_r c < 2 ^ 32;
  co_w : 0 <= cons_w c < 2 ^ 32;
  co_e : 0 <= cons_e c < 2 ^ 32;
  co_len : n_typed c + n_line c <= INPUT_BUF
}.
(** A line that ends is not edited any more. *)
Definition cons_ok (c : console) : Prop := cons_wf c ∧ Forall (λ b, b ≠ 10) (line c).

(** A character that ends the line: a newline, the end of the file, or the last
    one there is room for. *)
Definition ends (ch : Z) (q l : list Z) : bool :=
  (ch =? 10) || (ch =? 4) || (Z.of_nat (length q + length l) + 1 =? INPUT_BUF).
Definition append (ch : Z) (q l : list Z) : list Z * list Z :=
  if ends ch q l then (q ++ l ++ [ch], []) else (q, l ++ [ch]).

(** What one character does to the entered text [q] and the line [l]. *)
Definition edit (ch : Z) (q l : list Z) : list Z * list Z :=
  if ch =? 16 then (q, l)
  else if ch =? 21 then (q, [])
  else if (ch =? 8) || (ch =? 127) then (q, removelast l)
  else if truthy ch && (Z.of_nat (length q + length l) <? INPUT_BUF) then append (if ch =? 13 then 10 else ch) q l
  else (q, l).

Lemma cons_params : 0 < INPUT_BUF ∧ 1 < 2 ^ 25 ∧ 2 ^ 32 = INPUT_BUF * 2 ^ 25 ∧ 0 <= 32.
Proof. done. Qed.

Lemma ahead_pos b w r : 0 <= b → 0 <= ahead b w r < 2 ^ b.
Proof. intros. by apply wrap_bound. Qed.

(** Counting from [r] to [e] by way of [w]. *)
Lemma ahead_sum b e w r : 0 <= b → ahead b w r + ahead b e w < 2 ^ b → ahead b e r = ahead b w r + ahead b e w.
Proof.
  intros Hb Hs. pose proof (ahead_pos b w r Hb). pose proof (ahead_pos b e w Hb).
  rewrite <- (Z.mod_small (ahead b w r + ahead b e w) (2 ^ b)) by lia. unfold ahead, wrap. rewrite <- Zplus_mod. f_equal. lia.
Qed.

Lemma ahead_unpush b w r : 0 <= b → 0 < ahead b w r → ahead b (wrap b (w - 1)) r = ahead b w r - 1.
Proof.
  intros Hb Hs. pose proof (ahead_pos b w r Hb). rewrite <- (Z.mod_small (ahead b w r - 1) (2 ^ b)) by lia.
  unfold ahead, wrap. rewrite Zminus_mod_idemp_l, Zminus_mod_idemp_l. f_equal. lia.
Qed.

Lemma window_app N buf r i j : 0 <= i → 0 <= j → window N buf r (i + j) = window N buf r i ++ window N buf (r + i) j.
Proof.
  intros Hi Hj. unfold window. rewrite seqZ_app, fmap_app by lia. f_equal.
  replace (0 + i) with (i + 0) by lia. rewrite <- fmap_add_seqZ, <- list_fmap_compose. apply list_fmap_ext. intros _ x _. simpl. f_equal. lia.
Qed.

Lemma removelast_window N buf r k : 0 < k → removelast (window N buf r k) = window N buf r (k - 1).
Proof. intros Hk. replace k with (k - 1 + 1) at 1 by lia. rewrite window_snoc by lia. apply removelast_last. Qed.

(** The whole ring, from the read counter to the edit counter. *)
Lemma ring_split c : cons_wf c → typed c ++ line c = window INPUT_BUF (cons_buf c) (cons_r c) (ahead 32 (cons_e c) (cons_r c)) ∧
  ahead 32 (cons_e c) (cons_r c) = n_typed c + n_line c.
Proof.
  intros O. destruct cons_params as (HN & Hc & Hb & H0). pose proof (co_len c O) as Hl.
  pose proof (ahead_pos 32 (cons_w c) (cons_r c) H0). pose proof (ahead_pos 32 (cons_e c) (cons_w c) H0).
  assert (ahead 32 (cons_e c) (cons_r c) = n_typed c + n_line c) as E.
  { apply ahead_sum; [lia|]. unfold n_typed, n_line in Hl. unfold INPUT_BUF in Hl. lia. }
  split; [|exact E]. rewrite E, window_app by (unfold n_typed, n_line; lia). unfold typed, line. f_equal.
  unfold window. apply list_fmap_ext. intros _ i _. unfold ring_at. do 2 f_equal.
  rewrite <- Zplus_mod_idemp_l, <- (ahead_ring 32 INPUT_BUF (2 ^ 25) HN Hc Hb H0 (cons_w c) (cons_r c)), Zplus_mod_idemp_l. done.
Qed.

Lemma length_typed c : Z.of_nat (length (typed c)) = n_typed c.
Proof. apply length_window. by apply ahead_pos. Qed.

Lemma length_line c : Z.of_nat (length (line c)) = n_line c.
Proof. apply length_window. by apply ahead_pos. Qed.

Lemma line_nil c : cons_wf c → cons_w c = cons_e c ↔ line c = [].
Proof.
  intros O. rewrite <- (ahead_zero 32 (cons_e c)) by (lia || apply O). fold (n_line c). pose proof (length_line c) as Hl.
  split; intros E; [apply nil_length_inv; lia|]. by rewrite E in Hl.
Qed.

Lemma byte_at c i : cons_wf c → 0 <= buf_char c i < 256.
Proof.
  intros O. unfold buf_char. pose proof (co_bytes c O) as B. rewrite Forall_lookup in B. rewrite nth_lookup.
  destruct (cons_buf c !! _) as [x|] eqn:E; [by apply (B _ _ E)|simpl; lia].
Qed.

(** Erasing the last character of the line. *)
Lemma erase_spec c : cons_wf c → cons_w c ≠ cons_e c → let c' := set_e (u32 (cons_e c - 1)) c in
  cons_wf c' ∧ typed c' = typed c ∧ line c' = removelast (line c) ∧ last (line c) = Some (buf_char c (u32 (cons_e c - 1))).
Proof.
  intros O Hne c'. destruct cons_params as (HN & Hc & Hb & H0).
  assert (0 < n_line c) as Hl.
  { pose proof (ahead_pos 32 (cons_e c) (cons_w c) H0). assert (n_line c ≠ 0); [|unfold n_line in *; lia].
    unfold n_line. rewrite (ahead_zero 32) by (lia || apply O). done. }
  assert (n_line c' = n_line c - 1) as El by (by apply ahead_unpush). split_and!.
  - destruct O. split; try done; [by apply wrap_bound|]. change (n_typed c') with (n_typed c). lia.
  - done.
  - unfold line. rewrite El, removelast_window by lia. done.
  - unfold line. replace (n_line c) with (n_line c - 1 + 1) by lia. rewrite window_snoc, last_snoc by lia. f_equal. unfold ring_at, buf_char.
    do 2 f_equal. rewrite (wrap_ring 32 INPUT_BUF (2 ^ 25) HN Hc Hb H0). replace (cons_w c + (n_line c - 1)) with (cons_w c + n_line c - 1) by lia.
    rewrite <- Zminus_mod_idemp_l. unfold n_line. by rewrite (ahead_ring 32 INPUT_BUF (2 ^ 25) HN Hc Hb H0), Zminus_mod_idemp_l.
Qed.

(** Storing a character at the end of the line. *)
Lemma store_spec c ch : cons_wf c → 0 <= ch < 256 → n_typed c + n_line c < INPUT_BUF → let c' := store_char ch c in
  cons_wf c' ∧ typed c' = typed c ∧ line c' = line c ++ [ch].
Proof.
  intros O Hch Hlt c'. destruct cons_params as (HN & Hc & Hb & H0). pose proof (co_buf c O) as Hbuf.
  pose proof (ahead_pos 32 (cons_w c) (cons_r c) H0) as B1. pose proof (ahead_pos 32 (cons_e c) (cons_w c) H0) as B2.
  fold (n_typed c) in B1. fold (n_line c) in B2.
  assert (n_line c' = n_line c + 1) as El by (apply (ahead_push 32 INPUT_BUF (2 ^ 25) HN Hc Hb H0 (cons_e c) (cons_w c)); fold (n_line c); lia).
  assert (u8 ch = ch) as Ec by (by apply wrap_small).
  assert (cons_wf c') as O'.
  { destruct O. split; try done.
    - simpl. by rewrite length_insert.
    - simpl. rewrite Ec. by apply Forall_insert.
    - by apply wrap_bound.
    - change (n_typed c') with (n_typed c). lia. }
  destruct (ring_split c O) as [S E]. destruct (ring_split c' O') as [S' E'].
  assert (typed c' ++ line c' = (typed c ++ line c) ++ [ch]) as Eq.
  { rewrite S, S', E'. change (n_typed c') with (n_typed c). rewrite El, E.
    replace (n_typed c + (n_line c + 1)) with (n_typed c + n_line c + 1) by lia. cbn [c' store_char cons_buf cons_r]. rewrite Ec.
    rewrite <- (ahead_ring 32 INPUT_BUF (2 ^ 25) HN Hc Hb H0 (cons_e c) (cons_r c)), E. apply window_push; [done|done|lia]. }
  rewrite <- app_assoc in Eq. apply app_inj_1 in Eq as [-> ->]; [done|].
  apply Nat2Z.inj. by rewrite !length_typed.
Qed.

(** The line is entered. *)
Lemma enter_line_spec c : cons_wf c → let c' := set_w (cons_e c) c in cons_ok c' ∧ typed c' = typed c ++ line c ∧ line c' = [].
Proof.
  intros O c'. destruct (ring_split c O) as [S E].
  assert (n_line c' = 0) as El. { unfold n_line, ahead. simpl. by rewrite Z.sub_diag. }
  assert (line c' = []) as Ell. { apply nil_length_inv. pose proof (length_line c'). lia. }
  split_and!; [split|rewrite S; reflexivity|done].
  - destruct O. split; try done. rewrite El. unfold n_typed. simpl. rewrite E. lia.
  - rewrite Ell. constructor.
Qed.

(** ** Output *)

Section Console.
Context `{HH : Hardware} `{!InodeOps kern} `{LD : Linker} `{FO : !FileOps kern} `{SW : !Switch kern}.
Variable fuel : nat.
Abbreviation ks := (kst kern).
Abbreviation pr s i := (proc_at (k_procs s) i).
Abbreviation kc s := (kn_cons (u_k (k_u s))).

(** Polling the line status register finds the transmitter idle. *)
Fixpoint idle_within (n : nat) (h : hw) : bool :=
  match n with
  | O => false
  | S n' => let '(v, h') := mmio_read (UART0 + LSR) h in if Z.land v LSR_TX_IDLE =? 0 then idle_within n' h' else true
  end.
Definition tx_live : Prop := ∀ h, idle_within fuel h = true.

(** The device and the console changed. *)
Definition put_dev (h : hw) (c : console) (s : ks) : ks :=
  set (mkUst (u_m (k_u s)) (u_vmas (k_u s)) (set_hw h (set_cons c (u_k (k_u s))))) s.

(** The processes became [f] and the console [c]; the device is in some state. *)
Definition dev (f : Z → proc) (c : console) (s s' : ks) : Prop := ∃ h, upd f (put_dev h c s) s'.

Lemma dev_refl s : dev (λ i, pr s i) (kc s) s s.
Proof.
  exists (kn_hw (u_k (k_u s))). assert (put_dev (kn_hw (u_k (k_u s))) (kc s) s = s) as -> by (by destruct s as [[? ? []]]).
  by apply upd_id.
Qed.

Lemma dev_trans f g c c' s s1 s2 : dev f c s s1 → dev g c' s1 s2 → dev g c' s s2.
Proof.
  intros [h [U1 U2 U3 U4 U5 U6]] [h' [V1 V2 V3 V4 V5 V6]]. exists h'. split; try done.
  - etrans; [exact V1|exact U1].
  - rewrite V2. unfold put_dev. simpl in U2 |- *. by rewrite U2.
  - etrans; [exact V3|exact U3].
  - etrans; [exact V4|exact U4].
  - etrans; [exact V5|exact U5].
Qed.

Lemma dev_cons f c s s' : dev f c s s' → kc s' = c.
Proof. intros [h [U1 U2 U3 U4 U5 U6]]. by rewrite U2. Qed.

Lemma dev_view f c s s' : dev f c s s' → (view s' : lockst) ≡ view s.
Proof. intros [h U]. exact (up_lk _ _ _ U). Qed.

Lemma dev_procs f c s s' i : dev f c s s' → pr s' i = f i.
Proof. intros [h U]. exact (up_procs _ _ _ U i). Qed.

Lemma dev_panicked f c s s' : dev f c s s' → kn_panicked (u_k (k_u s')) = kn_panicked (u_k (k_u s)).
Proof. intros [h [U1 U2 U3 U4 U5 U6]]. by rewrite U2. Qed.

Lemma dev_ext f g c s s' : dev f c s s' → (∀ i, g i = f i) → dev g c s s'.
Proof. intros [h U] E. exists h. by eapply upd_ext. Qed.

Lemma wait_tx_spec n s : idle_within n (kn_hw (u_k (k_u s))) = true →
  wp (wait_tx_idle n) (λ _ s', ∃ h, s' = put_dev h (kc s) s) s.
Proof.
  revert s. induction n as [|n IH]; intros s Hi; [done|]. cbn [wait_tx_idle idle_within] in *.
  unfold ReadReg, read_reg. apply wp_bind, wp_bind, wp_gets. destruct (mmio_read _ _) as [v h]. apply wp_bind, wp_modify, wp_ret.
  destruct (Z.land v LSR_TX_IDLE =? 0).
  - eapply wp_mono; [by apply IH|]. intros [] s' (h' & ->). exists h'. by destruct s as [[? ? []]].
  - apply wp_ret. exists h. by destruct s as [[? ? []]].
Qed.

Lemma dev_locks h l s s1 : l ≡ view s → s1 = put_dev h (kc s) (set l s) → dev (λ i, pr s i) (kc s) s s1.
Proof. intros E ->. exists h. by split. Qed.

Lemma uartputc_sync_spec c s : hart_ok (view s) → kn_panicked (u_k (k_u s)) = 0 → tx_live →
  wp (uartputc_sync fuel c) (λ _ s', dev (λ i, pr s i) (kc s) s s') s.
Proof.
  intros Hh Hp Ht. unfold uartputc_sync. apply wp_bind, wp_zoom. eapply wp_eq; [by apply push_off_run|].
  apply wp_bind. unfold freeze_if_panicked. apply wp_bind, wp_gets. change (kn_panicked (u_k (k_u (set (enter (view s)) s)))) with (kn_panicked (u_k (k_u s))).
  rewrite Hp. apply wp_ret. eapply wp_step; [apply wait_tx_spec, Ht|]. intros [] s1 (h & ->).
  unfold WriteReg, write_reg. apply wp_bind, wp_bind, wp_gets, wp_modify, wp_zoom.
  destruct (pop_off_run (view s) Hh) as (l & E & El). eapply wp_eq; [exact E|].
  eapply dev_locks; [exact El|]. by destruct s as [[? ? []]].
Qed.

(** An operation under a lock that is not the console's business. *)
Lemma dev_under id f c l s s1 : (view s : lockst) ≡ l → dev f c (set (acquired id l) s) s1 → ∀ l', l' ≡ l → dev f c s (set l' s1).
Proof.
  intros E [h [U1 U2 U3 U4 U5 U6]] l' El. exists h. split; try done.
  - etrans; [exact El|]. symmetry. exact E.
  - simpl. rewrite U2. done.
Qed.

(** What output needs. *)
Definition printing (s : ks) : Prop := hart_ok (view s) ∧ kn_panicked (u_k (k_u s)) = 0.

Lemma printing_dev f c s s' : dev f c s s' → printing s → printing s'.
Proof. intros D [Hh Hp]. split; [by rewrite (dev_view _ _ _ _ D)|by rewrite (dev_panicked _ _ _ _ D)]. Qed.

(** Doing one thing after another, neither touching processes or the console. *)
Lemma dev_seq s s1 s2 : dev (λ i, pr s i) (kc s) s s1 → dev (λ i, pr s1 i) (kc s1) s1 s2 → dev (λ i, pr s i) (kc s) s s2.
Proof.
  intros D1 D2. rewrite (dev_cons _ _ _ _ D1) in D2. eapply dev_ext; [by eapply dev_trans|].
  intros i. symmetry. by eapply dev_procs.
Qed.

Lemma consputc_spec c s : printing s → tx_live → wp (consputc fuel c) (λ _ s', dev (λ i, pr s i) (kc s) s s') s.
Proof.
  intros P Ht. unfold consputc. case_match; [|apply uartputc_sync_spec; [apply P|apply P|done]].
  eapply wp_step; [apply uartputc_sync_spec; [apply P|apply P|done]|]. intros [] s1 D1. pose proof (printing_dev _ _ _ _ D1 P) as P1.
  eapply wp_step; [apply uartputc_sync_spec; [apply P1|apply P1|done]|]. intros [] s2 D2. pose proof (printing_dev _ _ _ _ D2 P1) as P2.
  eapply wp_mono; [apply uartputc_sync_spec; [apply P2|apply P2|done]|]. intros [] s3 D3.
  eapply dev_seq; [exact D1|]. by eapply dev_seq.
Qed.

Lemma put_chars_spec l s : printing s → tx_live → wp (put_chars fuel l) (λ _ s', dev (λ i, pr s i) (kc s) s s') s.
Proof.
  intros P Ht. revert s P. induction l as [|c l IH]; intros s P; cbn [put_chars]; [apply wp_ret, dev_refl|].
  eapply wp_step; [by apply consputc_spec|]. intros [] s1 D1.
  eapply wp_mono; [apply IH; by eapply printing_dev|]. intros [] s2 D2. by eapply dev_seq.
Qed.

Lemma printf_spec fmt ap l s : format fmt ap = Some l → lockable LK_PR (view s) → printing s → tx_live →
  wp (printf fuel fmt ap) (λ _ s', dev (λ i, pr s i) (kc s) s s') s.
Proof.
  intros Hf Hl P Ht. unfold printf. apply wp_bind, wp_acquire; [done|]. rewrite Hf.
  eapply wp_step; [apply put_chars_spec; [|done]|].
  { split; [apply acquired_hart_ok, Hl|apply P]. }
  intros [] s1 D1. apply (wp_release _ (view s)); [done|exact (dev_view _ _ _ _ D1)|]. intros l' El.
  by eapply (dev_under LK_PR _ _ (view s)).
Qed.

Lemma procdump_spec s : lockable LK_PR (view s) → printing s → tx_live → wp (procdump fuel) (λ _ s', dev (λ i, pr s i) (kc s) s s') s.
Proof.
  intros Hl P Ht. unfold procdump. eapply wp_step; [by eapply printf_spec|]. intros [] s1 D1.
  eapply wp_step with (P := λ _ s', dev (λ i, pr s i) (kc s) s s'); [|intros r s2 D2; by apply wp_ret].
  apply (wp_for (λ _ s', dev (λ i, pr s i) (kc s) s s')); [done| |done]. intros k s2 Hk D2.
  apply wp_bind, wp_gets. case_bool_decide; [by apply wp_ret|].
  assert (∀ s', dev (λ i, pr s i) (kc s) s s' → lockable LK_PR (view s') ∧ printing s') as Hgo.
  { intros s' D. split; [by rewrite (dev_view _ _ _ _ D)|by eapply printing_dev]. }
  destruct (Hgo s2 D2) as [L2 P2]. eapply wp_step; [by eapply printf_spec|]. intros [] s3 D3. pose proof (dev_seq _ _ _ D2 D3) as D3'.
  destruct (Hgo s3 D3') as [L3 P3]. eapply wp_step; [by eapply printf_spec|]. intros [] s4 D4. apply wp_ret. by eapply dev_seq.
Qed.

(** ** Input *)

Lemma wp_setc (g : console → console) s (Q : unit → ks → Prop) :
  (∀ s', dev (λ i, pr s i) (g (kc s)) s s' → Q tt s') → wp (setc g) Q s.
Proof.
  intros HQ. apply wp_modify, HQ. exists (kn_hw (u_k (k_u s))). split; try done. by destruct s as [[[] ? []]].
Qed.

Lemma wp_getc s (Q : console → ks → Prop) : Q (kc s) s → wp (getk kn_cons) Q s.
Proof. intros HQ. by apply wp_gets. Qed.

(** The processes stay, the console becomes [c] and its lists [ql]. *)
Definition edited (f : Z → proc) (ql : list Z * list Z) (s s' : ks) : Prop :=
  ∃ c, cons_ok c ∧ (typed c, line c) = ql ∧ dev f c s s'.

Lemma dev_seq' f c s s1 s2 : dev (λ i, pr s i) c s s1 → dev f c s1 s2 → dev f c s s2.
Proof. intros D1 D2. by eapply dev_trans. Qed.

(** Erasing a character, with the echo. *)
Lemma erase_echo s : printing s → tx_live →
  wp (setc (λ c, set_e (u32 (cons_e c - 1)) c))
     (λ _ s1, wp (consputc fuel BACKSPACE) (λ _ s', dev (λ i, pr s i) (set_e (u32 (cons_e (kc s) - 1)) (kc s)) s s') s1) s.
Proof.
  intros P Ht. apply wp_setc. intros s1 D1. eapply wp_mono; [apply consputc_spec; [by eapply printing_dev|done]|].
  intros [] s2 D2. rewrite (dev_cons _ _ _ _ D1) in D2. eapply dev_ext; [by eapply dev_trans|].
  intros i. symmetry. by eapply dev_procs.
Qed.

Lemma Forall_removelast (P : Z → Prop) l : Forall P l → Forall P (removelast l).
Proof. rewrite removelast_firstn_len. apply Forall_take. Qed.

Lemma kill_line_spec n s : printing s → tx_live → cons_ok (kc s) → Z.of_nat n = n_line (kc s) →
  wp (kill_line fuel n) (λ _ s', edited (λ i, pr s i) (typed (kc s), []) s s') s.
Proof.
  intros P Ht. revert s P. induction n as [|n IH]; intros s P [O Hl] Hn; cbn [kill_line].
  { apply wp_ret. exists (kc s). split; [done|]. split; [|apply dev_refl]. f_equal. apply nil_length_inv. pose proof (length_line (kc s)). lia. }
  apply wp_bind, wp_getc. pose proof (length_line (kc s)) as L. assert (cons_w (kc s) ≠ cons_e (kc s)) as Hne.
  { rewrite (line_nil _ O). intros E. rewrite E in L. simpl in L. lia. }
  destruct (erase_spec (kc s) O Hne) as (O' & Et & El & Elast). cbv zeta in *.
  rewrite (proj2 (Z.eqb_neq (cons_e (kc s)) _)) by done. rewrite (proj2 (Z.eqb_neq _ 10)).
  2: { rewrite Forall_forall in Hl. apply Hl. by apply last_Some_elem_of. }
  cbn [negb andb]. apply wp_bind. eapply wp_mono; [by apply erase_echo|]. intros [] s0 W. eapply wp_step; [exact W|]. clear W s0.
  intros [] s1 D1. pose proof (dev_cons _ _ _ _ D1) as E1. eapply wp_mono; [apply IH; rewrite ?E1; [by eapply printing_dev| |]|].
  - split; [done|]. rewrite El. by apply Forall_removelast.
  - rewrite <- length_line, El, removelast_firstn_len, length_take. lia.
  - rewrite E1, Et. intros [] s2 (c2 & O2 & E2 & D2). exists c2. split; [done|]. split; [done|]. eapply dev_ext; [by eapply dev_trans|].
    intros i. symmetry. by eapply dev_procs.
Qed.

(** Readers are woken when text was entered. *)
Definition notified (s : ks) (ql : list Z * list Z) (i : Z) : proc :=
  if decide (ql.1 = typed (kc s)) then pr s i else after_wakeup s CONS_R (Z.of_nat NPROC) i.

Lemma full_iff c : cons_wf c → (cons_e c =? u32 (cons_r c + INPUT_BUF)) = (n_typed c + n_line c =? INPUT_BUF).
Proof.
  intros O. destruct (ring_split c O) as [_ E]. rewrite <- E. apply Bool.eq_iff_eq_true. rewrite !Z.eqb_eq.
  symmetry. apply ahead_at; [lia|apply O|done].
Qed.

Lemma after_wakeup_dev s s' c n i : dev (λ i, pr s i) (kc s') s s' → after_wakeup s' c n i = after_wakeup s c n i.
Proof.
  intros D. unfold after_wakeup. rewrite (dev_procs _ _ _ _ i D). rewrite (current_proper _ _ (dev_view _ _ _ _ D)). done.
Qed.

Lemma append_spec ch s :
  printing s → tx_live → plocks s → cons_ok (kc s) → 0 <= ch < 256 → n_typed (kc s) + n_line (kc s) < INPUT_BUF →
  let ql := append ch (typed (kc s)) (line (kc s)) in
  wp (consputc fuel ch ;; setc (store_char ch) ;; let! k := getk kn_cons in
      if (ch =? 10) || (ch =? 4) || (cons_e k =? u32 (cons_r k + INPUT_BUF)) then setc (λ k, set_w (cons_e k) k) ;; wakeup CONS_R
      else ret tt) (λ _ s', edited (notified s ql) ql s s') s.
Proof.
  intros P Ht Hl [O Hn] Hch Hlt ql. eapply wp_step; [by apply consputc_spec|]. intros [] s1 D1. apply wp_bind, wp_setc. intros s2 D2.
  rewrite (dev_cons _ _ _ _ D1) in D2. assert (dev (λ i, pr s i) (store_char ch (kc s)) s s2) as D2'.
  { eapply dev_ext; [by eapply dev_trans|]. intros i. symmetry. by eapply dev_procs. }
  clear D1 D2 s1. destruct (store_spec (kc s) ch O Hch Hlt) as (O' & Et & El). set (c1 := store_char ch (kc s)) in *.
  pose proof (dev_cons _ _ _ _ D2') as E2. apply wp_bind, wp_getc. rewrite E2, (full_iff c1 O').
  assert ((ch =? 10) || (ch =? 4) || (n_typed c1 + n_line c1 =? INPUT_BUF) = ends ch (typed (kc s)) (line (kc s))) as ->.
  { unfold ends. rewrite <- length_typed, <- length_line, Et, El, length_app. simpl. do 2 f_equal. lia. }
  assert (ql = if ends ch (typed (kc s)) (line (kc s)) then (typed (kc s) ++ line c1, []) else (typed (kc s), line c1)) as Eql.
  { unfold ql, append. by rewrite El. }
  destruct (ends ch (typed (kc s)) (line (kc s))) eqn:Ee.
  - apply wp_bind, wp_setc. rewrite E2. intros s3 D3. destruct (enter_line_spec c1 O') as (O3 & Et3 & El3).
    assert (dev (λ i, pr s i) (set_w (cons_e c1) c1) s s3) as D3'.
    { eapply dev_ext; [by eapply dev_trans|]. intros i. symmetry. by eapply dev_procs. }
    eapply wp_mono; [apply wakeup_spec|]. { eapply plocks_proper; [by eapply dev_view|done]. }
    intros [] s4 U. exists (set_w (cons_e c1) c1). split; [done|]. split; [by rewrite Et3, El3, Et, Eql|].
    eapply dev_ext; [eapply dev_trans; [exact D3'|]|].
    + exists (kn_hw (u_k (k_u s3))). rewrite <- (dev_cons _ _ _ _ D3').
      assert (put_dev (kn_hw (u_k (k_u s3))) (kc s3) s3 = s3) as -> by (by destruct s3 as [[? ? []]]). exact U.
    + intros i. simpl. rewrite (after_wakeup_dev s s3) by (by rewrite (dev_cons _ _ _ _ D3')).
      unfold notified. rewrite decide_False; [done|]. rewrite Eql. simpl. intros Hx. apply (f_equal length) in Hx.
      rewrite length_app, El, length_app in Hx. simpl in Hx. lia.
  - apply wp_ret. exists c1. split; [split; [done|]|split; [by rewrite Et, Eql|]].
    + rewrite El. apply Forall_app. split; [done|]. constructor; [|constructor]. intros ->. unfold ends in Ee. by rewrite Z.eqb_refl in Ee.
    + eapply dev_ext; [exact D2'|]. intros i. unfold notified. by rewrite Eql, decide_True.
Qed.

(** What the interrupt handler needs. *)
Record listening (s : ks) : Prop := {
  ls_lock : lockable LK_CONS (view s);
  ls_pr : lockable LK_PR (view s);
  ls_procs : plocks s;
  ls_alive : kn_panicked (u_k (k_u s)) = 0;
  ls_cons : cons_ok (kc s)
}.

Lemma edited_same s s' : cons_ok (kc s) → dev (λ i, pr s i) (kc s) s s' → edited (λ i, pr s i) (typed (kc s), line (kc s)) s s'.
Proof. intros O D. by exists (kc s). Qed.

(** The body of [consoleintr], under the lock. *)
Lemma intr_body_spec ch s : printing s → tx_live → plocks s → lockable LK_PR (view s) → cons_ok (kc s) → 0 <= ch < 256 →
  let ql := edit ch (typed (kc s)) (line (kc s)) in
  wp (if ch =? 16 then procdump fuel
      else if ch =? 21 then let! k := getk kn_cons in kill_line fuel (Z.to_nat (u32 (cons_e k - cons_w k)))
      else if (ch =? 8) || (ch =? 127) then
        let! k := getk kn_cons in
        if negb (cons_e k =? cons_w k) then setc (λ k, set_e (u32 (cons_e k - 1)) k) ;; consputc fuel BACKSPACE else ret tt
      else
        let! k := getk kn_cons in
        if truthy ch && (u32 (cons_e k - cons_r k) <? INPUT_BUF) then
          let c := if ch =? 13 then 10 else ch in
          consputc fuel c ;; setc (store_char c) ;; let! k := getk kn_cons in
          if (c =? 10) || (c =? 4) || (cons_e k =? u32 (cons_r k + INPUT_BUF)) then setc (λ k, set_w (cons_e k) k) ;; wakeup CONS_R
          else ret tt
        else ret tt) (λ _ s', edited (notified s ql) ql s s') s.
Proof.
  intros P Ht Hl Hpr O Hch ql. assert (∀ q', ql.1 = typed (kc s) → q' = ql → ∀ s', edited (λ i, pr s i) q' s s' → edited (notified s ql) ql s s') as Hsame.
  { intros q' Eq -> s' (c & Oc & Ec & D). exists c. split; [done|]. split; [done|]. eapply dev_ext; [exact D|]. intros i. unfold notified. by rewrite decide_True. }
  unfold ql, edit in *. clear ql. destruct (ch =? 16).
  { eapply wp_mono; [by apply procdump_spec|]. intros [] s' D. by eapply Hsame, edited_same. }
  destruct (ch =? 21).
  { apply wp_bind, wp_getc. eapply wp_mono; [apply kill_line_spec; try done|].
    { rewrite Z2Nat.id; [done|]. by apply wrap_bound. }
    intros [] s' D. by eapply Hsame. }
  destruct ((ch =? 8) || (ch =? 127)).
  { apply wp_bind, wp_getc. destruct O as [O Hn]. destruct (Z.eqb_spec (cons_e (kc s)) (cons_w (kc s))) as [E|E]; cbn [negb].
    - apply wp_ret. eapply Hsame; [done|done|]. symmetry in E. apply (line_nil _ O) in E as E'. rewrite E'. exists (kc s).
      split; [done|]. split; [by rewrite E'|apply dev_refl].
    - assert (cons_w (kc s) ≠ cons_e (kc s)) as E' by done. destruct (erase_spec (kc s) O E') as (O' & Et & El & _).
      apply wp_bind. eapply wp_mono; [by apply erase_echo|]. intros [] s1 W. eapply wp_mono; [exact W|]. intros [] s2 D.
      eapply Hsame; [done|done|]. eexists. split; [split; [exact O'|]|split; [|exact D]]; [|by rewrite Et, El].
      rewrite El. by apply Forall_removelast. }
  apply wp_bind, wp_getc. destruct (ring_split (kc s) (proj1 O)) as [_ E]. unfold ahead in E. rewrite E.
  assert (n_typed (kc s) + n_line (kc s) = Z.of_nat (length (typed (kc s)) + length (line (kc s)))) as El.
  { rewrite Nat2Z.inj_add. by rewrite length_typed, length_line. }
  rewrite El. destruct (truthy ch && _) eqn:Ec.
  - apply andb_true_iff in Ec as [_ Ec%Z.ltb_lt]. apply append_spec; try done; [case_match; lia|lia].
  - apply wp_ret. eapply Hsame; [done|done|]. apply edited_same; [done|apply dev_refl].
Qed.

Lemma consoleintr_spec ch s : listening s → tx_live → 0 <= ch < 256 →
  let ql := edit ch (typed (kc s)) (line (kc s)) in
  wp (consoleintr fuel ch) (λ _ s', edited (notified s ql) ql s s') s.
Proof.
  intros [L1 L2 L3 L4 L5] Ht Hch ql. unfold consoleintr. apply wp_bind, wp_acquire; [done|]. set (s1 := set _ s).
  eapply wp_step; [apply (intr_body_spec ch s1)|]; try done.
  - split; [apply acquired_hart_ok, L1|done].
  - intros i Hi. apply acquired_lockable; [done|by apply L3].
  - by apply acquired_lockable.
  - change (kc s1) with (kc s). fold ql. intros [] s2 (c & O & E & D). apply (wp_release _ (view s)); [done|exact (dev_view _ _ _ _ D)|].
    intros l El. exists c. split; [done|]. split; [done|]. eapply dev_ext; [by eapply (dev_under LK_CONS _ _ (view s))|].
    intros i. unfold notified. change (kc s1) with (kc s). case_decide; [done|]. unfold after_wakeup. 
    change (pr s1 i) with (pr s i). replace (current (view s1)) with (current (view s)); [done|].
    symmetry. apply current_acquired, L1.
Qed.
End Console.
