(* ===== verification/ConsoleProps.v ===== *)
(** * Properties of the console and of formatted output *)

From S2P Require Import Prelude Riscv Mem Random Spinlock Kalloc Pagetable Uvm Block Bio Log Fs FsInst Proc ProcSpec Kern Ring Console ConsoleSpec.

(** ** Numbers as text *)









(** ** The line discipline *)

Section Props.
Context `{HH : Hardware} `{SW : !Switch kern}.
Abbreviation kc s := (kn_cons (u_k (k_u s))).

(** C22 (refinement).  The console is a line editor: whatever character arrives,
    [consoleintr] returns, the ring stays well formed, and the text entered and
    the line being edited become what [edit] says; readers are woken exactly when
    text was entered, and nothing but the device changes otherwise. *)
Theorem consoleintr_correct fuel ch (s : kst kern) :
  listening s → tx_live fuel → 0 <= ch < 256 →
  let ql := edit ch (typed (kc s)) (line (kc s)) in
  wp (consoleintr fuel ch) (λ _ s', edited (notified s ql) ql s s') s.
Proof. apply consoleintr_spec. Qed.
End Props.

(** ** Witness *)

(** A transmitter that is always idle. *)
#[local] Instance idle_hardware : Hardware := {| hw := list (Z * Z); mmio_read _ h := (LSR_TX_IDLE, h); mmio_write a v h := h ++ [(a, v)] |}.
#[local] Instance idle_switch : Switch kern := {| swtch_out _ := ret tt; swtch_in _ := ret tt |}.

(** "ls" was typed on a new line; process 1 waits for it. *)
Definition demo_cons : console := mkCons ([108; 115] ++ replicate 126 0) 0 0 2.
Definition demo_console : kst kern :=
  mkKst (mkUst (mkMachine demo_lk ∅ boot_kmem) ∅
     (mkKern (mkKfs 0 ∅ (mkDisk 0 ∅ []) log0 (mkSb 0 0 0 0 0 0 0 0) ∅ 0) ∅ ∅ ∅ demo_cons (mkUart (replicate 32 0) 0 0) 0 0 (mkCsrs 0 0 0 0 0 0 0) []))
    {[1 := set_pstate SLEEPING (set_pchan (Some CONS_R) proc0)]} 2 None 0.

Lemma demo_listening : listening demo_console.
Proof.
  split; [apply demo_lockable|apply demo_lockable|intros i _; apply demo_lockable|reflexivity|].
  split; [split|]; vm_compute; try (split; done); repeat constructor; done.
Qed.

Lemma consoleintr_correct_witness :
  wp (consoleintr 1 13) (λ _ s', typed (kn_cons (u_k (k_u s'))) = [108; 115; 10] ∧ line (kn_cons (u_k (k_u s'))) = [] ∧
    p_state (proc_at (k_procs s') 1) = RUNNABLE) demo_console.
Proof.
  eapply wp_mono; [apply (consoleintr_correct 1 13 demo_console demo_listening)|].
  - intros h. reflexivity.
  - lia.
  - cbv zeta. intros [] s' (c & _ & E & D). rewrite (dev_cons _ _ _ _ D), (dev_procs _ _ _ _ 1 D).
    assert (edit 13 (typed demo_cons) (line demo_cons) = ([108; 115; 10], [])) as Ee by (vm_compute; reflexivity).
    change (kn_cons (u_k (k_u demo_console))) with demo_cons in E |- *. rewrite Ee in E |- *. injection E as -> ->. split; [done|]. split; [done|].
    unfold notified. rewrite decide_False; [vm_compute; reflexivity|]. change (kn_cons (u_k (k_u demo_console))) with demo_cons. vm_compute. discriminate.
Defined.
