(* ===== verification/Asm.v ===== *)
(** * The assembly of the kernel and the machine-mode start

    trampoline.S, swtch.S, kernelvec.S, entry.S and start.c, over the registers
    of a hart.  The code is straight line: each routine is the list of its
    instructions, up to the jump that leaves it.  Loads and stores go through
    the translation of the page tables, which the code does not change, except
    in machine mode. *)

From S2P Require Import Prelude Riscv Mem.

Inductive reg :=
  | ra | sp | gp | tp | t0 | t1 | t2 | s0 | s1 | a0 | a1 | a2 | a3 | a4 | a5 | a6 | a7
  | s2 | s3 | s4 | s5 | s6 | s7 | s8 | s9 | s10 | s11 | t3 | t4 | t5 | t6.
#[export] Instance reg_eq_dec : EqDecision reg.
Proof. solve_decision. Defined.

Inductive csr :=
  | sscratch | satp | sepc | sstatus | sip | sie | mhartid | mscratch | mstatus | mepc | mtvec | mie | medeleg | mideleg
  | pmpaddr0 | pmpcfg0.
#[export] Instance csr_eq_dec : EqDecision csr.
Proof. solve_decision. Defined.

Inductive mode := User | Supervisor | Machine.
#[export] Instance mode_eq_dec : EqDecision mode.
Proof. solve_decision. Defined.

Record hart := mkHart { rg : reg → Z; cs : csr → Z; md : mode; pc : Z; hm : mem }.

Definition set_reg (r : reg) (v : Z) (h : hart) : hart :=
  mkHart (λ r', if decide (r' = r) then v else rg h r') (cs h) (md h) (pc h) (hm h).
Definition set_csr (c : csr) (v : Z) (h : hart) : hart :=
  mkHart (rg h) (λ c', if decide (c' = c) then v else cs h c') (md h) (pc h) (hm h).
Definition set_hm (m : mem) (h : hart) : hart := mkHart (rg h) (cs h) (md h) (pc h) m.
Definition set_pc (v : Z) (h : hart) : hart := mkHart (rg h) (cs h) (md h) v (hm h).
Definition set_md (d : mode) (h : hart) : hart := mkHart (rg h) (cs h) d (pc h) (hm h).

Inductive instr :=
  | Sd (r : reg) (off : Z) (b : reg) | Ld (r : reg) (off : Z) (b : reg)
  | Csrrw (r : reg) (c : csr) (r' : reg) | Csrr (r : reg) (c : csr) | Csrw (c : csr) (r : reg)
  | Addi (r r' : reg) (i : Z) | Add (r r' r'' : reg) | Mul (r r' r'' : reg) | Li (r : reg) (i : Z)
  | Sfence | Jr (r : reg) | Ret | Sret | Mret
  (** [call f], with the return address. *)
  | Call (f : hart → option hart) (link : Z).

(** ** Leaving a trap handler *)

(** Bit [k] of [x] made [b]. *)
Definition put_bit (k : Z) (b : bool) (x : Z) : Z := if b then Z.setbit x k else Z.clearbit x k.

Definition do_sret (h : hart) : hart :=
  let x := cs h sstatus in
  set_pc (cs h sepc)
    (set_md (if Z.testbit x 8 then Supervisor else User)
       (set_csr sstatus (put_bit 8 false (put_bit 5 true (put_bit 1 (Z.testbit x 5) x))) h)).

Definition mpp (x : Z) : mode :=
  if Z.testbit x 12 then Machine else if Z.testbit x 11 then Supervisor else User.
Definition do_mret (h : hart) : hart :=
  let x := cs h mstatus in
  set_pc (cs h mepc)
    (set_md (mpp x)
       (set_csr mstatus (put_bit 12 false (put_bit 11 false (put_bit 7 true (put_bit 3 (Z.testbit x 7) x)))) h)).

Section Code.
(** The page tables: the physical address of a virtual one, for [satp]. *)
Variable translate : Z → Z → option Z.

Definition trans (h : hart) (va : Z) : option Z :=
  match md h with Machine => Some va | _ => translate (cs h satp) va end.

Definition step (i : instr) (h : hart) : option hart :=
  match i with
  | Sd r off b => pa ← trans h (u64 (rg h b + off)); Some (set_hm (st64 (hm h) pa (rg h r)) h)
  | Ld r off b => pa ← trans h (u64 (rg h b + off)); Some (set_reg r (ld64 (hm h) pa) h)
  | Csrrw r c r' => Some (set_reg r (cs h c) (set_csr c (rg h r') h))
  | Csrr r c => Some (set_reg r (cs h c) h)
  | Csrw c r => Some (set_csr c (rg h r) h)
  | Addi r r' i => Some (set_reg r (u64 (rg h r' + i)) h)
  | Add r r' r'' => Some (set_reg r (u64 (rg h r' + rg h r'')) h)
  | Mul r r' r'' => Some (set_reg r (u64 (rg h r' * rg h r'')) h)
  | Li r i => Some (set_reg r (u64 i) h)
  | Sfence => Some h
  | Jr r => Some (set_pc (rg h r) h)
  | Ret => Some (set_pc (rg h ra) h)
  | Sret => Some (do_sret h)
  | Mret => Some (do_mret h)
  | Call f link => f (set_reg ra link h)
  end.

Fixpoint run (l : list instr) (h : hart) : option hart :=
  match l with
  | [] => Some h
  | i :: l' => h' ← step i h; run l' h'
  end.

(** ** trampoline.S *)

Definition uservec : list instr :=
  [Csrrw a0 sscratch a0;
   Sd ra 40 a0; Sd sp 48 a0; Sd gp 56 a0; Sd tp 64 a0; Sd t0 72 a0; Sd t1 80 a0; Sd t2 88 a0; Sd s0 96 a0; Sd s1 104 a0;
   Sd a1 120 a0; Sd a2 128 a0; Sd a3 136 a0; Sd a4 144 a0; Sd a5 152 a0; Sd a6 160 a0; Sd a7 168 a0;
   Sd s2 176 a0; Sd s3 184 a0; Sd s4 192 a0; Sd s5 200 a0; Sd s6 208 a0; Sd s7 216 a0; Sd s8 224 a0; Sd s9 232 a0;
   Sd s10 240 a0; Sd s11 248 a0; Sd t3 256 a0; Sd t4 264 a0; Sd t5 272 a0; Sd t6 280 a0;
   Csrr t0 sscratch; Sd t0 112 a0;
   Ld sp 8 a0; Ld tp 32 a0; Ld t0 16 a0; Ld t1 0 a0;
   Csrw satp t1; Sfence; Jr t0].

Definition userret : list instr :=
  [Csrw satp a1; Sfence;
   Ld t0 112 a0; Csrw sscratch t0;
   Ld ra 40 a0; Ld sp 48 a0; Ld gp 56 a0; Ld tp 64 a0; Ld t0 72 a0; Ld t1 80 a0; Ld t2 88 a0; Ld s0 96 a0; Ld s1 104 a0;
   Ld a1 120 a0; Ld a2 128 a0; Ld a3 136 a0; Ld a4 144 a0; Ld a5 152 a0; Ld a6 160 a0; Ld a7 168 a0;
   Ld s2 176 a0; Ld s3 184 a0; Ld s4 192 a0; Ld s5 200 a0; Ld s6 208 a0; Ld s7 216 a0; Ld s8 224 a0; Ld s9 232 a0;
   Ld s10 240 a0; Ld s11 248 a0; Ld t3 256 a0; Ld t4 264 a0; Ld t5 272 a0; Ld t6 280 a0;
   Csrrw a0 sscratch a0; Sret].

(** ** swtch.S *)

Definition swtch : list instr :=
  [Sd ra 0 a0; Sd sp 8 a0; Sd s0 16 a0; Sd s1 24 a0; Sd s2 32 a0; Sd s3 40 a0; Sd s4 48 a0; Sd s5 56 a0; Sd s6 64 a0;
   Sd s7 72 a0; Sd s8 80 a0; Sd s9 88 a0; Sd s10 96 a0; Sd s11 104 a0;
   Ld ra 0 a1; Ld sp 8 a1; Ld s0 16 a1; Ld s1 24 a1; Ld s2 32 a1; Ld s3 40 a1; Ld s4 48 a1; Ld s5 56 a1; Ld s6 64 a1;
   Ld s7 72 a1; Ld s8 80 a1; Ld s9 88 a1; Ld s10 96 a1; Ld s11 104 a1;
   Ret].

(** ** kernelvec.S *)

Definition kernelvec (kerneltrap : hart → option hart) (link : Z) : list instr :=
  [Addi sp sp (-256);
   Sd ra 0 sp; Sd sp 8 sp; Sd gp 16 sp; Sd tp 24 sp; Sd t0 32 sp; Sd t1 40 sp; Sd t2 48 sp; Sd s0 56 sp; Sd s1 64 sp;
   Sd a0 72 sp; Sd a1 80 sp; Sd a2 88 sp; Sd a3 96 sp; Sd a4 104 sp; Sd a5 112 sp; Sd a6 120 sp; Sd a7 128 sp;
   Sd s2 136 sp; Sd s3 144 sp; Sd s4 152 sp; Sd s5 160 sp; Sd s6 168 sp; Sd s7 176 sp; Sd s8 184 sp; Sd s9 192 sp;
   Sd s10 200 sp; Sd s11 208 sp; Sd t3 216 sp; Sd t4 224 sp; Sd t5 232 sp; Sd t6 240 sp;
   Call kerneltrap link;
   Ld ra 0 sp; Ld sp 8 sp; Ld gp 16 sp; Ld t0 32 sp; Ld t1 40 sp; Ld t2 48 sp; Ld s0 56 sp; Ld s1 64 sp;
   Ld a0 72 sp; Ld a1 80 sp; Ld a2 88 sp; Ld a3 96 sp; Ld a4 104 sp; Ld a5 112 sp; Ld a6 120 sp; Ld a7 128 sp;
   Ld s2 136 sp; Ld s3 144 sp; Ld s4 152 sp; Ld s5 160 sp; Ld s6 168 sp; Ld s7 176 sp; Ld s8 184 sp; Ld s9 192 sp;
   Ld s10 200 sp; Ld s11 208 sp; Ld t3 216 sp; Ld t4 224 sp; Ld t5 232 sp; Ld t6 240 sp;
   Addi sp sp 256; Sret].

Definition timervec : list instr :=
  [Csrrw a0 mscratch a0; Sd a1 0 a0; Sd a2 8 a0; Sd a3 16 a0;
   Ld a1 24 a0; Ld a2 32 a0; Ld a3 0 a1; Add a3 a3 a2; Sd a3 0 a1;
   Li a1 2; Csrw sip a1;
   Ld a3 16 a0; Ld a2 8 a0; Ld a1 0 a0; Csrrw a0 mscratch a0; Mret].

(** ** entry.S and start.c, in machine mode *)

Definition entry (stack0 : Z) (start : hart → option hart) (link : Z) : list instr :=
  [Li sp stack0; Li a0 (1024 * 4); Csrr a1 mhartid; Addi a1 a1 1; Mul a0 a0 a1; Add sp sp a0; Call start link].
End Code.

Definition MSTATUS_MPP_MASK : Z := Z.shiftl 3 11.
Definition MSTATUS_MPP_S : Z := Z.shiftl 1 11.
Definition MSTATUS_MIE : Z := Z.shiftl 1 3.
Definition SIE_SEIE : Z := Z.shiftl 1 9.
Definition SIE_STIE : Z := Z.shiftl 1 5.
Definition SIE_SSIE : Z := Z.shiftl 1 1.
Definition MIE_MTIE : Z := Z.shiftl 1 7.
Definition CLINT : Z := 0x2000000.
Definition CLINT_MTIMECMP (hartid : Z) : Z := CLINT + 0x4000 + 8 * hartid.
Definition CLINT_MTIME : Z := CLINT + 0xBFF8.

Definition interval : Z := 1000000.
(** [&timer_scratch[id][0]]. *)
Definition scratch_of (timer_scratch id : Z) : Z := timer_scratch + 40 * id.

Definition timerinit (timer_scratch timervec_addr : Z) (h : hart) : hart :=
  let id := s32 (cs h mhartid) in
  let h := set_hm (st64 (hm h) (CLINT_MTIMECMP id) (u64 (ld64 (hm h) CLINT_MTIME + interval))) h in
  let scratch := scratch_of timer_scratch id in
  let h := set_hm (st64 (hm h) (scratch + 24) (CLINT_MTIMECMP id)) h in
  let h := set_hm (st64 (hm h) (scratch + 32) interval) h in
  let h := set_csr mscratch scratch h in
  let h := set_csr mtvec timervec_addr h in
  let h := set_csr mstatus (Z.lor (cs h mstatus) MSTATUS_MIE) h in
  set_csr mie (Z.lor (cs h mie) MIE_MTIE) h.

Definition start (main_addr timer_scratch timervec_addr : Z) (h : hart) : hart :=
  let x := cs h mstatus in
  let x := Z.land x (Z.lnot MSTATUS_MPP_MASK) in
  let x := Z.lor x MSTATUS_MPP_S in
  let h := set_csr mstatus x h in
  let h := set_csr mepc main_addr h in
  let h := set_csr satp 0 h in
  let h := set_csr medeleg 0xffff h in
  let h := set_csr mideleg 0xffff h in
  let h := set_csr sie (Z.lor (Z.lor (Z.lor (cs h sie) SIE_SEIE) SIE_STIE) SIE_SSIE) h in
  let h := set_csr pmpaddr0 0x3fffffffffffff h in
  let h := set_csr pmpcfg0 0xf h in
  let h := timerinit timer_scratch timervec_addr h in
  let id := s32 (cs h mhartid) in
  let h := set_reg tp (u64 id) h in
  do_mret h.
