(* ===== verification/AsmProps.v ===== *)
(** * Registers across traps and context switches

    The assembly routines save and restore what they promise: a user program
    does not notice a trap, a kernel thread does not notice a switch or an
    interrupt, and the timer handler leaves every register alone. *)

From S2P Require Import Prelude Riscv Mem Asm.

#[local] Opaque st ld.

(** Closed decidable facts about the lists of registers. *)
Ltac by_check := apply (bool_decide_unpack _); by vm_compute.

(** ** Sequences of stores and of loads *)

Definition saves (l : list (reg * Z)) (b : reg) : list instr := (λ x, Sd x.1 x.2 b) <$> l.
Definition loads (l : list (reg * Z)) (b : reg) : list instr := (λ x, Ld x.1 x.2 b) <$> l.

(** The words at the offsets [l] of [p] are separate. *)
Definition words (l : list (reg * Z)) : Prop := NoDup l.*2 ∧ Forall (λ o, o mod 8 = 0) l.*2.

(** [b + n] bytes away from the words of [l]. *)
Definition outside (l : list (reg * Z)) (p a n : Z) : Prop := ∀ o, o ∈ l.*2 → a + n <= p + o ∨ p + o + 8 <= a.

Definition same_but_regs (h h' : hart) : Prop := cs h' = cs h ∧ md h' = md h ∧ pc h' = pc h ∧ hm h' = hm h.

Section Props.
Variable translate : Z → Z → option Z.
Abbreviation run := (run translate).
Abbreviation trans := (trans translate).

(** The base [b + o] is at [p + o]. *)
Definition mapped (h : hart) (b : reg) (p : Z) (l : list (reg * Z)) : Prop :=
  ∀ o, o ∈ l.*2 → trans h (u64 (rg h b + o)) = Some (p + o).

Lemma run_app l l' h : run (l ++ l') h = run l h ≫= run l'.
Proof.
  revert h. induction l as [|i l IH]; intros h; [done|]. simpl. destruct (step translate i h); [apply IH|done].
Qed.

Lemma words_uncons r o l : words ((r, o) :: l) → (o ∉ l.*2) ∧ o mod 8 = 0 ∧ words l.
Proof. intros [[H1 H2]%NoDup_cons [H3 H4]%Forall_cons]. done. Qed.

Lemma words_apart l o o' : words l → o' ∈ l.*2 → o ∉ l.*2 → o mod 8 = 0 → o' + 8 <= o ∨ o + 8 <= o'.
Proof.
  intros [_ Hm] Hin Hout Ho. rewrite Forall_forall in Hm. specialize (Hm _ Hin). simpl in Hm.
  assert (o ≠ o') by (by intros ->). pose proof (Z.div_mod o 8). pose proof (Z.div_mod o' 8). lia.
Qed.

Lemma run_saves l b p h : mapped h b p l → words l →
  ∃ m, run (saves l b) h = Some (set_hm m h) ∧ (∀ r o, (r, o) ∈ l → ld64 m (p + o) = u64 (rg h r)) ∧
       ∀ n a, outside l p a (Z.of_nat n) → ld n m a = ld n (hm h) a.
Proof.
  revert h. induction l as [|[r o] l IH]; intros h Hm Hw.
  { exists (hm h). split; [by destruct h|]. split; [|done]. intros r o Hin. by apply elem_of_nil in Hin. }
  apply words_uncons in Hw as (Ho & Hmod & Hw). cbn [saves fmap list_fmap run Asm.run step fst snd].
  rewrite (Hm o) by (by left). cbn [mbind option_bind].
  set (h1 := set_hm _ h). destruct (IH h1) as (m & E & Hin & Hout); [intros o' Ho'; by apply (Hm o'); right|done|].
  exists m. split; [exact E|]. split.
  - intros r' o' [[= -> ->]|Hin']%elem_of_cons; [|by apply Hin].
    rewrite Hout. { simpl. rewrite ld_st. done. }
    intros o' Ho'. change (Z.of_nat 8) with 8. destruct (words_apart l o o' Hw Ho' Ho Hmod); lia.
  - intros n a Ha. rewrite Hout; [|intros o' Ho'; apply Ha; by right]. simpl. rewrite ld_st_out; [done|].
    destruct (Ha o ltac:(by left)); lia.
Qed.

Lemma run_loads l b p h : mapped h b p l → NoDup l.*1 → (∀ o, (b, o) ∈ l → ld64 (hm h) (p + o) = rg h b) →
  ∃ h', run (loads l b) h = Some h' ∧ same_but_regs h h' ∧
        (∀ r o, (r, o) ∈ l → rg h' r = ld64 (hm h) (p + o)) ∧ ∀ r, r ∉ l.*1 → rg h' r = rg h r.
Proof.
  revert h. induction l as [|[r o] l IH]; intros h Hm Hd Hb.
  { exists h. split; [done|]. split; [done|]. split; [|done]. intros r o Hin. by apply elem_of_nil in Hin. }
  apply NoDup_cons in Hd as [Hr Hd]. cbn [loads fmap list_fmap run Asm.run step fst snd].
  rewrite (Hm o) by (by left). cbn [mbind option_bind]. set (h1 := set_reg _ _ h).
  assert (rg h1 b = rg h b) as Eb. { simpl. case_decide as E; [subst; apply Hb; by left|done]. }
  destruct (IH h1) as (h' & E & S & Hin & Hout); [intros o' Ho'; rewrite Eb; by apply (Hm o'); right|done| |].
  { intros o' Ho'. rewrite Eb. apply Hb. by right. }
  exists h'. split; [exact E|]. split; [exact S|]. split.
  - intros r' o' [[= -> ->]|Hin']%elem_of_cons; [|by apply Hin]. rewrite Hout by done. simpl. by rewrite decide_True.
  - intros r' [Hne Hn]%not_elem_of_cons. rewrite Hout by done. simpl. by rewrite decide_False.
Qed.

(** ** User traps *)

(** [struct trapframe]: where a user register is saved. *)
Definition tf_off (r : reg) : Z :=
  match r with
  | ra => 40 | sp => 48 | gp => 56 | tp => 64 | t0 => 72 | t1 => 80 | t2 => 88 | s0 => 96 | s1 => 104
  | a0 => 112 | a1 => 120 | a2 => 128 | a3 => 136 | a4 => 144 | a5 => 152 | a6 => 160 | a7 => 168
  | s2 => 176 | s3 => 184 | s4 => 192 | s5 => 200 | s6 => 208 | s7 => 216 | s8 => 224 | s9 => 232 | s10 => 240 | s11 => 248
  | t3 => 256 | t4 => 264 | t5 => 272 | t6 => 280
  end.

(** All registers but [a0]. *)
Definition others : list reg :=
  [ra; sp; gp; tp; t0; t1; t2; s0; s1; a1; a2; a3; a4; a5; a6; a7; s2; s3; s4; s5; s6; s7; s8; s9; s10; s11; t3; t4; t5; t6].
Definition frame : list (reg * Z) := (λ r, (r, tf_off r)) <$> others.
Definition entry_regs : list (reg * Z) := [(sp, 8); (tp, 32); (t0, 16); (t1, 0)].

Lemma elem_others r : r ≠ a0 → r ∈ others.
Proof. intros Hr. destruct r; try done; by apply list_elem_of_In; simpl; tauto. Qed.

Lemma elem_frame r : r ≠ a0 → (r, tf_off r) ∈ frame.
Proof. intros Hr. apply list_elem_of_fmap. exists r. split; [done|by apply elem_others]. Qed.

Lemma frame_words : words frame.
Proof. split; [by_check|by_check]. Qed.

Lemma frame_bounds : Forall (λ o, 0 <= o < 288) frame.*2.
Proof. by_check. Qed.

Lemma tf_off_bound r : 40 <= tf_off r <= 280 ∧ (r ≠ a0 → tf_off r + 8 <= 112 ∨ 120 <= tf_off r).
Proof. destruct r; simpl; split; try lia; done. Qed.

Lemma frame_outside tf a n : a + n <= tf + 40 ∨ tf + 288 <= a → outside frame tf a n.
Proof.
  intros Ha o Ho. apply list_elem_of_fmap in Ho as ([r o'] & -> & Hr). apply list_elem_of_fmap in Hr as (r' & [= -> ->] & _).
  pose proof (tf_off_bound r'). simpl. lia.
Qed.

Lemma uservec_parts :
  uservec = [Csrrw a0 sscratch a0] ++ saves frame a0 ++ [Csrr t0 sscratch] ++ saves [(t0, 112)] a0 ++ loads entry_regs a0 ++ [Csrw satp t1; Sfence; Jr t0].
Proof. reflexivity. Qed.

Lemma userret_parts :
  userret = [Csrw satp a1; Sfence] ++ loads [(t0, 112)] a0 ++ [Csrw sscratch t0] ++ loads frame a0 ++ [Csrrw a0 sscratch a0; Sret].
Proof. reflexivity. Qed.

Definition regs_ok (h : hart) : Prop := ∀ r, 0 <= rg h r < 2 ^ 64.

(** The trapframe at the physical address [tf] is mapped at [tv]. *)
Definition frame_at (usatp tv tf : Z) : Prop :=
  0 <= tv ∧ tv + 288 < 2 ^ 64 ∧ ∀ o, 0 <= o < 288 → translate usatp (tv + o) = Some (tf + o).

Lemma frame_mapped h tv tf l : md h ≠ Machine → frame_at (cs h satp) tv tf → rg h a0 = tv → Forall (λ o, 0 <= o < 288) l.*2 → mapped h a0 tf l.
Proof.
  intros Hm (H0 & Hb & Ht) Ea Hl o Ho. rewrite Forall_forall in Hl. specialize (Hl o Ho). simpl in Hl.
  unfold Asm.trans. rewrite Ea, (wrap_small 64) by lia. rewrite Ht by done. by destruct (md h).
Qed.

(** The state in which the kernel takes over. *)
Record in_kernel (tv tf : Z) (h h' : hart) : Prop := {
  ik_saved : ∀ r, ld64 (hm h') (tf + tf_off r) = rg h r;
  ik_sp : rg h' sp = ld64 (hm h) (tf + 8);
  ik_tp : rg h' tp = ld64 (hm h) (tf + 32);
  ik_pc : pc h' = ld64 (hm h) (tf + 16);
  ik_satp : cs h' satp = ld64 (hm h) tf;
  ik_csr : ∀ c, c ≠ satp → c ≠ sscratch → cs h' c = cs h c;
  ik_mode : md h' = md h;
  ik_rest : ∀ n a, a + Z.of_nat n <= tf + 40 ∨ tf + 288 <= a → ld n (hm h') a = ld n (hm h) a
}.

Lemma uservec_spec h tv tf :
  md h ≠ Machine → cs h sscratch = tv → frame_at (cs h satp) tv tf → regs_ok h →
  ∃ h', run uservec h = Some h' ∧ in_kernel tv tf h h'.
Proof.
  intros Hmd Es Hf Hr. rewrite uservec_parts, run_app. cbn [Asm.run step mbind option_bind].
  set (h1 := set_reg a0 _ _). rewrite run_app.
  destruct (run_saves frame a0 tf h1) as (m & -> & Hin & Hout); [by apply (frame_mapped _ tv); [..|apply frame_bounds]|apply frame_words|].
  cbn [mbind option_bind]. rewrite run_app. cbn [Asm.run step mbind option_bind]. set (h2 := set_reg t0 _ _). rewrite run_app.
  assert (words [(t0, 112)] ∧ Forall (λ o, 0 <= o < 288) [(t0, 112)].*2) as [W112 B112].
  { split; [split|]; by_check. }
  destruct (run_saves [(t0, 112)] a0 tf h2) as (m' & -> & Hin' & Hout'); [by apply (frame_mapped _ tv)|done|].
  cbn [mbind option_bind]. rewrite run_app. set (h3 := set_hm m' h2).
  destruct (run_loads entry_regs a0 tf h3) as (h4 & -> & (C4 & M4 & P4 & H4) & Hin4 & Hout4).
  { apply (frame_mapped _ tv); try done. by_check. }
  { by_check. }
  { intros o Ho. apply list_elem_of_In in Ho. simpl in Ho. naive_solver. }
  cbn [mbind option_bind Asm.run step]. eexists. split; [reflexivity|].
  assert (∀ n a, a + Z.of_nat n <= tf + 112 ∨ tf + 120 <= a → ld n m' a = ld n m a) as Hm'.
  { intros n a Ha. apply Hout'. intros o Ho. apply list_elem_of_singleton in Ho as ->. simpl. lia. }
  assert (∀ n a, a + Z.of_nat n <= tf + 40 ∨ tf + 288 <= a → ld n m' a = ld n (hm h) a) as Hrest.
  { intros n a Ha. rewrite Hm' by lia. by apply Hout, frame_outside. }
  split; cbn [set_pc set_csr rg cs md pc hm]; rewrite ?H4, ?M4, ?C4; try done.
  - intros r. change (hm h3) with m'. pose proof (tf_off_bound r) as [Ho Hne]. destruct (decide (r = a0)) as [->|Hr0].
    + change (tf_off a0) with 112. rewrite (Hin' t0 112) by (by left). apply wrap_small, Hr.
    + rewrite Hm' by (specialize (Hne Hr0); simpl; lia). rewrite (Hin r) by (by apply elem_frame).
      assert (rg h1 r = rg h r) as -> by (simpl; by rewrite decide_False). apply wrap_small, Hr.
  - rewrite (Hin4 sp 8) by (by left). apply Hrest. simpl. lia.
  - rewrite (Hin4 tp 32) by (by right; left). apply Hrest. simpl. lia.
  - rewrite (Hin4 t0 16) by (by right; right; left). apply Hrest. simpl. lia.
  - rewrite (Hin4 t1 0), Z.add_0_r by (by right; right; right; left). apply Hrest. simpl. lia.
  - intros c Hc1 Hc2. rewrite decide_False by done. simpl. by rewrite decide_False.
Qed.

(** Back in user mode with the registers of the trapframe. *)
Record in_user (usatp tv tf : Z) (h h' : hart) : Prop := {
  iv_regs : ∀ r, rg h' r = ld64 (hm h) (tf + tf_off r);
  iv_satp : cs h' satp = usatp;
  iv_scratch : cs h' sscratch = tv;
  iv_pc : pc h' = cs h sepc;
  iv_mode : md h' = if Z.testbit (cs h sstatus) 8 then Supervisor else User;
  iv_mem : hm h' = hm h
}.

Lemma userret_spec h usatp tv tf :
  md h ≠ Machine → rg h a0 = tv → rg h a1 = usatp → frame_at usatp tv tf →
  ∃ h', run userret h = Some h' ∧ in_user usatp tv tf h h'.
Proof.
  intros Hmd E0 E1 Hf. rewrite userret_parts, run_app. cbn [Asm.run step mbind option_bind].
  set (h1 := set_csr satp _ _). rewrite run_app.
  assert (frame_at (cs h1 satp) tv tf) as Hf1 by (simpl; by rewrite E1).
  destruct (run_loads [(t0, 112)] a0 tf h1) as (h2 & -> & (C2 & M2 & P2 & H2) & Hin2 & Hout2).
  { apply (frame_mapped _ tv); try done. by_check. }
  { by_check. }
  { intros o Ho. apply list_elem_of_singleton in Ho. done. }
  cbn [mbind option_bind]. rewrite run_app. cbn [Asm.run step mbind option_bind]. set (h3 := set_csr sscratch _ _). rewrite run_app.
  assert (rg h2 a0 = tv) as E2. { rewrite Hout2; [done|]. intros Hx%list_elem_of_singleton. done. }
  destruct (run_loads frame a0 tf h3) as (h4 & -> & (C4 & M4 & P4 & H4) & Hin4 & Hout4).
  { apply (frame_mapped _ tv); [by simpl; rewrite M2|simpl; by rewrite C2|done|apply frame_bounds]. }
  { by_check. }
  { intros o Ho. apply list_elem_of_fmap in Ho as (r & [= <- ->] & Ho). apply list_elem_of_In in Ho. simpl in Ho. intuition discriminate. }
  cbn [mbind option_bind Asm.run step]. eexists. split; [reflexivity|].
  assert (a0 ∉ frame.*1) as Ha. { by_check. }
  assert (cs h4 sscratch = ld64 (hm h) (tf + 112)) as Es.
  { rewrite C4. simpl. rewrite (Hin2 t0 112) by (by left). done. }
  split; cbn [do_sret set_pc set_md set_csr set_reg rg cs md pc hm]; rewrite ?H4; try done.
  - intros r. destruct (decide (r = a0)) as [->|Hr]; [done|]. rewrite (Hin4 r (tf_off r)) by (by apply elem_frame). simpl. by rewrite H2.
  - rewrite decide_False, decide_False by done. rewrite C4. simpl. by rewrite C2.
  - rewrite decide_False, decide_True by done. by rewrite Hout4.
  - rewrite C4. simpl. by rewrite C2.
  - rewrite C4. simpl. by rewrite C2.
Qed.

(** ** Context switches *)

(** [struct context]. *)
Definition callee : list (reg * Z) :=
  [(ra, 0); (sp, 8); (s0, 16); (s1, 24); (s2, 32); (s3, 40); (s4, 48); (s5, 56); (s6, 64); (s7, 72); (s8, 80); (s9, 88); (s10, 96); (s11, 104)].

Lemma swtch_parts : swtch = saves callee a0 ++ loads callee a1 ++ [Ret].
Proof. reflexivity. Qed.

Lemma callee_words : words callee ∧ NoDup callee.*1 ∧ Forall (λ o, 0 <= o <= 104) callee.*2.
Proof. split_and!; [split| |]; by_check. Qed.

(** The [n] bytes from [a] on are where the kernel sees them. *)
Definition direct (h : hart) (a n : Z) : Prop := 0 <= a ∧ a + n < 2 ^ 64 ∧ ∀ va, a <= va < a + n → trans h va = Some va.

Lemma direct_mapped h b a n l :
  direct h a n → rg h b = a → Forall (λ o, 0 <= o < n) l.*2 → mapped h b a l.
Proof.
  intros (Ha & Hn & Ht) Eb Hl o Ho. rewrite Forall_forall in Hl. specialize (Hl o Ho). simpl in Hl.
  rewrite Eb, (wrap_small 64) by lia. apply Ht. lia.
Qed.

Definition apart (a b n : Z) : Prop := a + n <= b ∨ b + n <= a.

Record switched (old new : Z) (h h' : hart) : Prop := {
  sw_saved : ∀ r o, (r, o) ∈ callee → ld64 (hm h') (old + o) = rg h r;
  sw_loaded : ∀ r o, (r, o) ∈ callee → rg h' r = ld64 (hm h) (new + o);
  sw_pc : pc h' = ld64 (hm h) new;
  sw_regs : ∀ r, r ∉ callee.*1 → rg h' r = rg h r;
  sw_csr : cs h' = cs h;
  sw_mode : md h' = md h;
  sw_rest : ∀ n a, a + Z.of_nat n <= old ∨ old + 112 <= a → ld n (hm h') a = ld n (hm h) a
}.

Lemma swtch_spec h old new :
  rg h a0 = old → rg h a1 = new → direct h old 112 → direct h new 112 → apart old new 112 → regs_ok h →
  ∃ h', run swtch h = Some h' ∧ switched old new h h'.
Proof.
  intros E0 E1 D0 D1 Ha Hr. destruct callee_words as (W & N & B). rewrite swtch_parts, run_app.
  assert (Forall (λ o, 0 <= o < 112) callee.*2) as B' by (eapply Forall_impl; [exact B|simpl; lia]).
  destruct (run_saves callee a0 old h) as (m & -> & Hin & Hout); [by eapply direct_mapped|done|].
  cbn [mbind option_bind]. rewrite run_app. set (h1 := set_hm m h).
  assert (∀ n a, a + Z.of_nat n <= old ∨ old + 112 <= a → ld n m a = ld n (hm h) a) as Hrest.
  { intros n a Hna. apply Hout. intros o Ho. rewrite Forall_forall in B. specialize (B o Ho). simpl in B. lia. }
  assert (∀ r o, (r, o) ∈ callee → ld64 m (new + o) = ld64 (hm h) (new + o)) as Hnew.
  { intros r o Ho. apply Hrest. rewrite Forall_forall in B. assert (o ∈ callee.*2) as Ho' by (apply list_elem_of_fmap; by exists (r, o)).
    specialize (B o Ho'). unfold apart in Ha. simpl in *. lia. }
  destruct (run_loads callee a1 new h1) as (h2 & -> & (C2 & M2 & P2 & H2) & Hin2 & Hout2); [by eapply (direct_mapped h1 a1 new 112)|done| |].
  { intros o Ho. apply list_elem_of_In in Ho. simpl in Ho. intuition discriminate. }
  cbn [mbind option_bind Asm.run step]. eexists. split; [reflexivity|].
  split; cbn [set_pc rg cs md pc hm]; rewrite ?C2, ?M2, ?H2; try done.
  - intros r o Ho. change (hm h1) with m. rewrite (Hin r o Ho). apply wrap_small, Hr.
  - intros r o Ho. rewrite (Hin2 r o Ho). by eapply Hnew.
  - rewrite (Hin2 ra 0) by (by left). change (hm h1) with m. rewrite (Hnew ra 0) by (by left). by rewrite Z.add_0_r.
Qed.

(** ** Interrupts in the kernel *)

(** The frame [kernelvec] makes on the stack. *)
Definition kframe : list (reg * Z) :=
  [(ra, 0); (sp, 8); (gp, 16); (tp, 24); (t0, 32); (t1, 40); (t2, 48); (s0, 56); (s1, 64);
   (a0, 72); (a1, 80); (a2, 88); (a3, 96); (a4, 104); (a5, 112); (a6, 120); (a7, 128);
   (s2, 136); (s3, 144); (s4, 152); (s5, 160); (s6, 168); (s7, 176); (s8, 184); (s9, 192);
   (s10, 200); (s11, 208); (t3, 216); (t4, 224); (t5, 232); (t6, 240)].
Definition krest : list (reg * Z) := filter (λ x, x.1 ≠ tp) kframe.

Lemma kernelvec_parts k link :
  kernelvec k link = [Addi sp sp (-256)] ++ saves kframe sp ++ [Call k link] ++ loads krest sp ++ [Addi sp sp 256; Sret].
Proof. reflexivity. Qed.

Lemma kframe_words : words kframe ∧ Forall (λ o, 0 <= o <= 240) kframe.*2 ∧ NoDup krest.*1.
Proof. split_and!; [split| |]; by_check. Qed.

Lemma krest_elem r o : (r, o) ∈ krest ↔ (r, o) ∈ kframe ∧ r ≠ tp.
Proof. unfold krest. rewrite list_elem_of_filter. simpl. tauto. Qed.

Lemma kframe_all r : r ≠ tp → ∃ o, (r, o) ∈ krest.
Proof. intros Hr. destruct r; try done; eexists; apply list_elem_of_In; simpl; tauto. Qed.

(** What the convention of C calls promises of [kerneltrap], called with the
    stack pointer at [b]: it returns, with the same stack pointer and page
    table, and leaves the frame above it alone. *)
Definition abi (kerneltrap : hart → option hart) (b : Z) (c : csr → Z) (d : mode) : Prop :=
  ∀ h1, rg h1 sp = b → cs h1 = c → md h1 = d →
  ∃ h2, kerneltrap h1 = Some h2 ∧ rg h2 sp = b ∧ md h2 = d ∧ cs h2 satp = c satp ∧
        ∀ n a, b <= a → a + Z.of_nat n <= b + 256 → ld n (hm h2) a = ld n (hm h1) a.

Lemma trans_same h h' va : md h' = md h → cs h' satp = cs h satp → trans h' va = trans h va.
Proof. intros Em Ec. unfold Asm.trans. by rewrite Em, Ec. Qed.

Lemma kernelvec_spec h kerneltrap link :
  regs_ok h → 256 <= rg h sp → direct h (rg h sp - 256) 256 → abi kerneltrap (rg h sp - 256) (cs h) (md h) →
  ∃ h', run (kernelvec kerneltrap link) h = Some h' ∧ ∀ r, r ≠ tp → rg h' r = rg h r.
Proof.
  intros Hr Hsp D Habi. destruct kframe_words as (W & B & N). rewrite kernelvec_parts, run_app.
  set (b := rg h sp - 256) in *. assert (0 <= b ∧ b + 256 < 2 ^ 64) as [Hb0 Hb1] by (destruct D as (? & ? & _); lia).
  cbn [Asm.run step mbind option_bind]. set (h1 := set_reg sp _ h).
  assert (rg h1 sp = b) as E1. { simpl. apply wrap_small. lia. }
  assert (Forall (λ o, 0 <= o < 256) kframe.*2) as B' by (eapply Forall_impl; [exact B|simpl; lia]).
  rewrite run_app. destruct (run_saves kframe sp b h1) as (m & -> & Hin & _); [by apply (direct_mapped h1 sp b 256)|done|].
  cbn [mbind option_bind]. rewrite run_app. cbn [Asm.run step mbind option_bind].
  destruct (Habi (set_reg ra link (set_hm m h1))) as (h2 & -> & E2 & M2 & C2 & H2); [done..|].
  assert (∀ r o, (r, o) ∈ kframe → ld64 (hm h2) (b + o) = rg h1 r) as Hback.
  { intros r o Ho. assert (o ∈ kframe.*2) as Ho' by (apply list_elem_of_fmap; by exists (r, o)).
    rewrite Forall_forall in B. specialize (B o Ho'). simpl in B. rewrite H2 by (simpl; lia). change (hm (set_reg ra link (set_hm m h1))) with m. rewrite (Hin r o Ho).
    apply wrap_small. destruct (decide (r = sp)) as [->|Hn]; [rewrite E1; lia|]. simpl. rewrite decide_False by done. apply Hr. }
  cbn [mbind option_bind]. rewrite run_app.
  destruct (run_loads krest sp b h2) as (h3 & -> & _ & Hin3 & _); [|done| |].
  { intros o Ho. assert (o ∈ kframe.*2) as Ho'.
    { apply list_elem_of_fmap in Ho as ([r o'] & -> & Ho). apply krest_elem in Ho as [Ho _]. apply list_elem_of_fmap. by exists (r, o'). }
    rewrite E2. rewrite (trans_same h) by done. rewrite Forall_forall in B. specialize (B o Ho'). simpl in B.
    rewrite (wrap_small 64) by lia. apply D. lia. }
  { intros o [Ho _]%krest_elem. rewrite E2, (Hback sp o Ho). exact E1. }
  cbn [mbind option_bind Asm.run step]. eexists. split; [reflexivity|]. intros r Hrt.
  destruct (kframe_all r Hrt) as (o & Ho). pose proof (Hin3 r o Ho) as Er. rewrite (Hback r) in Er by (by apply krest_elem).
  cbn [do_sret set_pc set_md set_csr set_reg rg]. destruct (decide (r = sp)) as [->|Hn].
  - rewrite Er, E1. unfold b. rewrite wrap_small; [lia|]. pose proof (Hr sp). lia.
  - rewrite Er. simpl. by rewrite decide_False.
Qed.

(** ** Timer interrupts in machine mode *)

Lemma machine_direct h a n : md h = Machine → 0 <= a → a + n < 2 ^ 64 → direct h a n.
Proof. intros Hm Ha Hn. split_and!; [done|done|]. intros va _. unfold Asm.trans. by rewrite Hm. Qed.

(** The scratch area of the hart at [p]: where the timer's deadline is and how
    long a tick lasts. *)
Record scratch_ok (m : mem) (p c iv : Z) : Prop := {
  sc_cmp : ld64 m (p + 24) = c;
  sc_iv : ld64 m (p + 32) = iv;
  sc_bound : 0 <= p ∧ p + 40 < 2 ^ 64 ∧ c + 8 < 2 ^ 64;
  sc_apart : c + 8 <= p ∨ p + 40 <= c
}.

Record ticked (p c iv : Z) (h h' : hart) : Prop := {
  tk_regs : ∀ r, rg h' r = rg h r;
  tk_cmp : ld64 (hm h') c = u64 (ld64 (hm h) c + iv);
  tk_sip : cs h' sip = 2;
  tk_scratch : cs h' mscratch = p;
  tk_pc : pc h' = cs h mepc;
  tk_mode : md h' = mpp (cs h mstatus);
  tk_rest : ∀ n a, a + Z.of_nat n <= p ∨ p + 24 <= a → a + Z.of_nat n <= c ∨ c + 8 <= a → ld n (hm h') a = ld n (hm h) a
}.

(** The interrupted registers are saved and the scratch area is read. *)
Lemma timer_enter h p c iv :
  md h = Machine → cs h mscratch = p → scratch_ok (hm h) p c iv →
  ∃ h', run ([Csrrw a0 mscratch a0] ++ saves [(a1, 0); (a2, 8); (a3, 16)] a0 ++ loads [(a1, 24); (a2, 32)] a0) h = Some h' ∧
    rg h' a0 = p ∧ rg h' a1 = c ∧ rg h' a2 = iv ∧ (∀ r, r ∉ [a0; a1; a2] → rg h' r = rg h r) ∧
    (cs h' mscratch = rg h a0 ∧ ∀ x, x ≠ mscratch → cs h' x = cs h x) ∧ md h' = Machine ∧
    (∀ r o, (r, o) ∈ [(a1, 0); (a2, 8); (a3, 16)] → ld64 (hm h') (p + o) = u64 (rg h r)) ∧
    ∀ n a, a + Z.of_nat n <= p ∨ p + 24 <= a → ld n (hm h') a = ld n (hm h) a.
Proof.
  intros Hmd Es [Ec Ei (Hp & Hp' & _) _]. rewrite run_app. cbn [Asm.run step mbind option_bind]. set (h1 := set_reg a0 _ _). rewrite run_app.
  assert (direct h1 p 40) as D by (by apply machine_direct).
  destruct (run_saves [(a1, 0); (a2, 8); (a3, 16)] a0 p h1) as (m & -> & Hin & Hout);
    [by apply (direct_mapped h1 a0 p 40); [..|by_check]|split; by_check|].
  cbn [mbind option_bind]. set (h2 := set_hm m h1).
  assert (∀ n a, a + Z.of_nat n <= p ∨ p + 24 <= a → ld n m a = ld n (hm h) a) as Hm.
  { intros n a Hna. apply Hout. intros o Ho. apply list_elem_of_In in Ho. simpl in Ho. lia. }
  destruct (run_loads [(a1, 24); (a2, 32)] a0 p h2) as (h3 & -> & (C3 & M3 & _ & H3) & Hin3 & Hout3);
    [by apply (direct_mapped h2 a0 p 40); [..|by_check]|by_check| |].
  { intros o Ho. apply list_elem_of_In in Ho. simpl in Ho. intuition discriminate. }
  exists h3. split; [done|]. rewrite C3, M3, H3. split_and!; try done.
  - rewrite Hout3 by by_check. done.
  - rewrite (Hin3 a1 24) by (by left). simpl. rewrite Hm by (simpl; lia). done.
  - rewrite (Hin3 a2 32) by (by right; left). simpl. rewrite Hm by (simpl; lia). done.
  - intros r Hnr. rewrite !not_elem_of_cons in Hnr. destruct Hnr as (N0 & N1 & N2 & _).
    rewrite Hout3; [simpl; by rewrite decide_False|]. simpl. rewrite !not_elem_of_cons. split_and!; try done. apply not_elem_of_nil.
  - intros x Hx. simpl. by rewrite decide_False.
  - intros r o Ho. change (hm h2) with m. rewrite (Hin r o Ho). f_equal. apply list_elem_of_In in Ho. simpl in Ho.
    destruct Ho as [[= <- _]|[[= <- _]|[[= <- _]|[]]]]; done.
Qed.

(** The next deadline is set and the software interrupt raised. *)
Lemma timer_rearm h c iv :
  md h = Machine → rg h a1 = c → rg h a2 = iv → 0 <= c → c + 8 < 2 ^ 64 →
  ∃ h', run (loads [(a3, 0)] a1 ++ [Add a3 a3 a2] ++ saves [(a3, 0)] a1 ++ [Li a1 2; Csrw sip a1]) h = Some h' ∧
    (∀ r, r ∉ [a1; a3] → rg h' r = rg h r) ∧ (cs h' sip = 2 ∧ ∀ x, x ≠ sip → cs h' x = cs h x) ∧ md h' = Machine ∧
    ld64 (hm h') c = u64 (ld64 (hm h) c + iv) ∧ ∀ n a, a + Z.of_nat n <= c ∨ c + 8 <= a → ld n (hm h') a = ld n (hm h) a.
Proof.
  intros Hmd E1 E2 Hc Hc'. rewrite run_app. assert (direct h c 8) as D by (by apply machine_direct).
  destruct (run_loads [(a3, 0)] a1 c h) as (h3 & -> & (C3 & M3 & _ & H3) & Hin3 & Hout3);
    [by apply (direct_mapped h a1 c 8); [..|by_check]|by_check| |].
  { intros o Ho. apply list_elem_of_In in Ho. simpl in Ho. intuition discriminate. }
  assert (∀ r, r ≠ a3 → rg h3 r = rg h r) as R3. { intros r Hr. apply Hout3. simpl. by rewrite list_elem_of_singleton. }
  cbn [mbind option_bind]. rewrite run_app. cbn [Asm.run step mbind option_bind]. set (h4 := set_reg a3 _ _). rewrite run_app.
  destruct (run_saves [(a3, 0)] a1 c h4) as (m & -> & Hin & Hout).
  { apply (direct_mapped h4 a1 c 8); [apply machine_direct; [simpl; by rewrite M3|done|done]| |by_check].
    cbn [h4 set_reg rg]. rewrite decide_False, R3 by done. done. }
  { split; by_check. }
  cbn [mbind option_bind Asm.run step]. eexists. split; [reflexivity|]. cbn [set_csr set_reg set_hm rg cs md hm h4]. rewrite C3, M3. split_and!; try done.
  - intros r Hr. rewrite !not_elem_of_cons in Hr. destruct Hr as (N1 & N3 & _). rewrite decide_False, decide_False by done. by apply R3.
  - intros x Hx. by rewrite decide_False.
  - rewrite <- (Z.add_0_r c) at 1. rewrite (Hin a3 0) by (by left). cbn [h4 set_reg rg]. rewrite decide_True by done.
    rewrite (Hin3 a3 0), Z.add_0_r, (R3 a2), E2 by (done || by left). apply wrap_small, wrap_bound. lia.
  - intros n a Hna. rewrite Hout. { simpl. by rewrite H3. } intros o Ho. apply list_elem_of_singleton in Ho as ->. simpl. lia.
Qed.

Lemma timervec_spec h p c iv :
  md h = Machine → cs h mscratch = p → scratch_ok (hm h) p c iv → regs_ok h →
  ∃ h', run timervec h = Some h' ∧ ticked p c iv h h'.
Proof.
  intros Hmd Es S Hr. pose proof S as [Ec Ei (Hp & Hp' & Hc') Ha]. assert (0 <= c) as Hc by (rewrite <- Ec; apply ld64_bound).
  destruct (timer_enter h p c iv Hmd Es S) as (h1 & R1 & A0 & A1 & A2 & G1 & [X1 Y1] & M1 & W1 & O1).
  destruct (timer_rearm h1 c iv M1 A1 A2 Hc Hc') as (h2 & R2 & G2 & [X2 Y2] & M2 & W2 & O2).
  assert (timervec = ([Csrrw a0 mscratch a0] ++ saves [(a1, 0); (a2, 8); (a3, 16)] a0 ++ loads [(a1, 24); (a2, 32)] a0) ++
    (loads [(a3, 0)] a1 ++ [Add a3 a3 a2] ++ saves [(a3, 0)] a1 ++ [Li a1 2; Csrw sip a1]) ++
    loads [(a3, 16); (a2, 8); (a1, 0)] a0 ++ [Csrrw a0 mscratch a0; Mret]) as -> by reflexivity.
  rewrite run_app, R1. cbn [mbind option_bind]. rewrite run_app, R2. cbn [mbind option_bind]. rewrite run_app.
  assert (rg h2 a0 = p) as A0'. { rewrite G2; [done|]. by_check. }
  destruct (run_loads [(a3, 16); (a2, 8); (a1, 0)] a0 p h2) as (h3 & -> & (C3 & M3 & _ & H3) & Hin3 & Hout3);
    [by apply (direct_mapped h2 a0 p 40); [apply machine_direct|..|by_check]|by_check| |].
  { intros o Ho. apply list_elem_of_In in Ho. simpl in Ho. intuition discriminate. }
  cbn [mbind option_bind Asm.run step]. eexists. split; [reflexivity|].
  assert (∀ r o, (r, o) ∈ [(a1, 0); (a2, 8); (a3, 16)] → rg h3 r = rg h r) as Hback.
  { intros r o Ho. assert (0 <= o <= 16 ∧ (r, o) ∈ [(a3, 16); (a2, 8); (a1, 0)]) as [Hb Ho'].
    { apply list_elem_of_In in Ho. simpl in Ho. destruct Ho as [[= <- <-]|[[= <- <-]|[[= <- <-]|[]]]]; (split; [lia|]); apply list_elem_of_In; simpl; tauto. }
    rewrite (Hin3 r o Ho'), O2 by (simpl; lia). rewrite (W1 r o Ho). apply wrap_small, Hr. }
  split; cbn [do_mret set_pc set_md set_csr set_reg rg cs md pc hm]; rewrite ?C3, ?M3, ?H3.
  - intros r. destruct (decide (r = a0)) as [->|N0]; [by rewrite Y2, X1|].
    destruct (decide (r = a1)) as [->|N1]; [apply (Hback a1 0); by left|].
    destruct (decide (r = a2)) as [->|N2]; [apply (Hback a2 8); by right; left|].
    destruct (decide (r = a3)) as [->|N3]; [apply (Hback a3 16); by right; right; left|].
    rewrite Hout3, G2, G1; [done|..]; simpl; rewrite !not_elem_of_cons; (split_and!; try done; apply not_elem_of_nil).
  - rewrite W2. by rewrite O1 by (simpl; lia).
  - rewrite !decide_False by done. exact X2.
  - rewrite !decide_False, decide_True by done. rewrite Hout3 by by_check. done.
  - rewrite decide_False by done. by rewrite Y2, Y1.
  - rewrite decide_False by done. by rewrite Y2, Y1.
  - intros n a H1 H2. rewrite O2, O1 by done. done.
Qed.

(** ** The start in machine mode *)

(** In supervisor mode at [main], with the timer running. *)
Record booted (main_addr ts : Z) (h h' : hart) : Prop := {
  bt_mode : md h' = Supervisor;
  bt_pc : pc h' = main_addr;
  bt_tp : rg h' tp = cs h mhartid;
  bt_scratch : cs h' mscratch = scratch_of ts (cs h mhartid);
  bt_timer : scratch_ok (hm h') (scratch_of ts (cs h mhartid)) (CLINT_MTIMECMP (cs h mhartid)) interval;
  bt_deleg : cs h' medeleg = 0xffff ∧ cs h' mideleg = 0xffff
}.

Lemma mpp_start x : mpp (Z.lor (Z.lor (Z.land x (Z.lnot MSTATUS_MPP_MASK)) MSTATUS_MPP_S) MSTATUS_MIE) = Supervisor.
Proof.
  unfold mpp. rewrite !Z.lor_spec, !Z.land_spec, !Z.lnot_spec by lia.
  change (Z.testbit MSTATUS_MPP_MASK 12) with true. change (Z.testbit MSTATUS_MPP_S 12) with false.
  change (Z.testbit MSTATUS_MIE 12) with false. change (Z.testbit MSTATUS_MPP_S 11) with true.
  by rewrite !andb_false_r, orb_true_r.
Qed.

Lemma start_spec main_addr ts tv h :
  0 <= cs h mhartid < 8 → CLINT + 0x10000 <= ts → ts + 320 < 2 ^ 64 →
  booted main_addr ts h (start main_addr ts tv h).
Proof.
  intros Hi Hts Hte. assert (s32 (cs h mhartid) = cs h mhartid) as Ei. { unfold swrap. rewrite Z.mod_small; lia. }
  set (i := cs h mhartid) in *. set (p := scratch_of ts i). set (c := CLINT_MTIMECMP i).
  assert (hm (start main_addr ts tv h) =
    st64 (st64 (st64 (hm h) c (u64 (ld64 (hm h) CLINT_MTIME + interval))) (p + 24) c) (p + 32) interval) as Em.
  { unfold p, c. rewrite <- Ei. reflexivity. }
  assert (0 <= c ∧ c + 8 < p ∧ p + 40 < 2 ^ 64) as (B1 & B2 & B3).
  { unfold c, p, scratch_of, CLINT_MTIMECMP. unfold CLINT in *. lia. }
  split.
  - apply (mpp_start (cs h mstatus)).
  - reflexivity.
  - change (u64 (s32 i) = i). rewrite Ei. apply wrap_small. lia.
  - change (scratch_of ts (s32 i) = p). by rewrite Ei.
  - change (scratch_ok (hm (start main_addr ts tv h)) p c interval). rewrite Em. split; [|by apply ld64_st64|lia|lia].
    rewrite ld_st_out by (simpl; lia). apply ld64_st64. lia.
  - by split.
Qed.

(** ** Properties *)

(** C6 (roundtrip).  A trap does not disturb the user program.  [uservec] saves
    all 31 registers in the trapframe and enters the kernel at the stack, hart,
    handler and page table the trapframe names; whatever the kernel does then,
    [userret] gives back every register whose slot the kernel did not change, and
    leaves [sscratch] ready for the next trap. *)
Theorem trap_roundtrip h usatp tv tf :
  md h ≠ Machine → cs h sscratch = tv → cs h satp = usatp → frame_at usatp tv tf → regs_ok h →
  ∃ h1, run uservec h = Some h1 ∧ in_kernel tv tf h h1 ∧
  ∀ h2 (changed : list reg), md h2 ≠ Machine → rg h2 a0 = tv → rg h2 a1 = usatp →
    (∀ r, r ∉ changed → ld64 (hm h2) (tf + tf_off r) = ld64 (hm h1) (tf + tf_off r)) →
    ∃ h3, run userret h2 = Some h3 ∧ in_user usatp tv tf h2 h3 ∧ ∀ r, r ∉ changed → rg h3 r = rg h r.
Proof.
  intros Hm Es Eu Hf Hr. destruct (uservec_spec h tv tf) as (h1 & E1 & K); [done|done|by rewrite Eu|done|].
  exists h1. split; [done|]. split; [done|]. intros h2 changed Hm2 E0 Ea Hs.
  destruct (userret_spec h2 usatp tv tf Hm2 E0 Ea Hf) as (h3 & E3 & V). exists h3. split; [done|]. split; [done|].
  intros r Hn. by rewrite (iv_regs _ _ _ _ _ V), Hs, (ik_saved _ _ _ _ K).
Qed.

(** C34 (roundtrip).  A kernel thread does not notice being switched out: when
    [swtch] leaves it with its context in [old], and some later [swtch] loads
    that context again, the thread returns from its call with all callee-saved
    registers as they were. *)
Theorem swtch_roundtrip h h2 old new old2 :
  rg h a0 = old → rg h a1 = new → direct h old 112 → direct h new 112 → apart old new 112 → regs_ok h →
  rg h2 a0 = old2 → rg h2 a1 = old → direct h2 old2 112 → direct h2 old 112 → apart old2 old 112 → regs_ok h2 →
  ∃ h1, run swtch h = Some h1 ∧ switched old new h h1 ∧
    ((∀ r o, (r, o) ∈ callee → ld64 (hm h2) (old + o) = ld64 (hm h1) (old + o)) →
     ∃ h3, run swtch h2 = Some h3 ∧ switched old2 old h2 h3 ∧ pc h3 = rg h ra ∧ ∀ r o, (r, o) ∈ callee → rg h3 r = rg h r).
Proof.
  intros E0 E1 D0 D1 A R F0 F1 G0 G1 B Q. destruct (swtch_spec h old new E0 E1 D0 D1 A R) as (h1 & X & S).
  exists h1. split; [done|]. split; [done|]. intros Hkeep.
  destruct (swtch_spec h2 old2 old F0 F1 G0 G1 B Q) as (h3 & Y & S3). exists h3. split; [done|]. split; [done|].
  assert (∀ r o, (r, o) ∈ callee → ld64 (hm h2) (old + o) = rg h r) as Hc.
  { intros r o Ho. by rewrite (Hkeep r o Ho), (sw_saved _ _ _ _ S r o Ho). }
  split; [|intros r o Ho; by rewrite (sw_loaded _ _ _ _ S3 r o Ho), (Hc r o Ho)].
  rewrite (sw_pc _ _ _ _ S3), <- (Z.add_0_r old). apply (Hc ra). by left.
Qed.

(** An interrupt taken in the kernel is transparent: [kernelvec]
    returns with every register but [tp] as it was, provided [kerneltrap] keeps
    to the calling convention. *)
Theorem kernelvec_transparent h kerneltrap link :
  regs_ok h → 256 <= rg h sp → direct h (rg h sp - 256) 256 → abi kerneltrap (rg h sp - 256) (cs h) (md h) →
  ∃ h', run (kernelvec kerneltrap link) h = Some h' ∧ ∀ r, r ≠ tp → rg h' r = rg h r.
Proof. apply kernelvec_spec. Qed.

(** [start] enters [main] in supervisor mode with the hart's
    number in [tp] and the timer armed; from then on, as long as nobody writes the
    scratch area, every timer interrupt leaves all registers alone, moves the
    deadline by one interval and raises the software interrupt. *)
Theorem timer_boot main_addr ts timervec_addr h :
  0 <= cs h mhartid < 8 → CLINT + 0x10000 <= ts → ts + 320 < 2 ^ 64 →
  let p := scratch_of ts (cs h mhartid) in
  let c := CLINT_MTIMECMP (cs h mhartid) in
  let h1 := start main_addr ts timervec_addr h in
  booted main_addr ts h h1 ∧
  ∀ h2, md h2 = Machine → cs h2 mscratch = cs h1 mscratch → regs_ok h2 →
    ld64 (hm h2) (p + 24) = ld64 (hm h1) (p + 24) → ld64 (hm h2) (p + 32) = ld64 (hm h1) (p + 32) →
    ∃ h3, run timervec h2 = Some h3 ∧ ticked p c interval h2 h3.
Proof.
  intros Hi Hts Hte p c h1. pose proof (start_spec main_addr ts timervec_addr h Hi Hts Hte) as B. split; [exact B|].
  intros h2 Hm Es Hr W1 W2. apply timervec_spec; [done|rewrite Es; apply B| |done].
  destruct (bt_timer _ _ _ _ B) as [T1 T2 T3 T4]. split; [by rewrite W1|by rewrite W2|done|done].
Qed.
End Props.

(** ** Witnesses *)

(** A user page table that has the trapframe at a page of memory, and an identity
    mapping for the kernel. *)
Definition demo_tv : Z := 0x3fffffe000.
Definition demo_tf : Z := 0x87000000.
Definition demo_translate (s va : Z) : option Z := Some (if s =? 1 then va - demo_tv + demo_tf else va).
Definition demo_hart (d : mode) (m : mem) : hart :=
  mkHart (λ r, match r with a0 => 0x80001000 | a1 => 0x80002000 | sp => 0x80008000 | _ => 7 end)
    (λ x, match x with sscratch => demo_tv | satp => 1 | mhartid => 2 | _ => 0 end) d 0 m.

Lemma demo_regs_ok d m : regs_ok (demo_hart d m).
Proof. intros r. destruct r; simpl; lia. Qed.

Lemma trap_roundtrip_witness :
  ∃ h1, run demo_translate uservec (demo_hart Supervisor ∅) = Some h1 ∧ ld64 (hm h1) (demo_tf + 112) = 0x80001000 ∧
    ∃ h3, run demo_translate userret (set_reg a0 demo_tv (set_reg a1 1 h1)) = Some h3 ∧ rg h3 s11 = 7 ∧ rg h3 a1 = 0x80002000.
Proof.
  destruct (trap_roundtrip demo_translate (demo_hart Supervisor ∅) 1 demo_tv demo_tf) as (h1 & E1 & K & Hback).
  - discriminate.
  - reflexivity.
  - reflexivity.
  - split_and!; [done|done|]. intros o Ho. unfold demo_translate. simpl (1 =? 1). cbv iota. f_equal. unfold demo_tv, demo_tf. lia.
  - apply demo_regs_ok.
  - exists h1. split; [exact E1|]. clear E1. split; [exact (ik_saved _ _ _ _ K a0)|].
    destruct (Hback (set_reg a0 demo_tv (set_reg a1 1 h1)) []) as (h3 & E3 & _ & R); [|reflexivity|reflexivity|reflexivity|].
    { change (md h1 ≠ Machine). rewrite (ik_mode _ _ _ _ K). discriminate. }
    exists h3. split; [exact E3|]. clear E3. split; (rewrite R; [reflexivity|apply not_elem_of_nil]).
Defined.

Lemma demo_direct a n d : d ≠ User → 0 <= a → a + n < 2 ^ 64 → direct (λ _ va, Some va) (demo_hart d ∅) a n.
Proof. intros Hd Ha Hn. split_and!; [done|done|]. intros va _. by destruct d. Qed.

(** Two switches between the contexts at [0x80001000] and [0x80002000]. *)
Lemma swtch_roundtrip_witness :
  ∃ h1, run (λ _ va, Some va) swtch (demo_hart Supervisor ∅) = Some h1 ∧
    let h2 := set_reg a0 0x80002000 (set_reg a1 0x80001000 h1) in
    ∃ h3, run (λ _ va, Some va) swtch h2 = Some h3 ∧ rg h3 s1 = 7 ∧ rg h3 sp = 0x80008000.
Proof.
  assert (∃ h1, run (λ _ va, Some va) swtch (demo_hart Supervisor ∅) = Some h1 ∧ switched 0x80001000 0x80002000 (demo_hart Supervisor ∅) h1)
    as (h1 & E1 & S1).
  { apply swtch_spec; [reflexivity|reflexivity|by apply demo_direct|by apply demo_direct|by left|apply demo_regs_ok]. }
  exists h1. split; [exact E1|]. cbv zeta. set (h2 := set_reg a0 _ _).
  assert (regs_ok h2) as R2.
  { intros r. unfold h2. simpl. repeat case_decide; try lia. destruct (decide (r ∈ callee.*1)) as [Hc|Hc].
    - apply list_elem_of_fmap in Hc as ([r' o] & -> & Hc). simpl. rewrite (sw_loaded _ _ _ _ S1 r' o Hc). apply ld64_bound.
    - rewrite (sw_regs _ _ _ _ S1 r Hc). apply demo_regs_ok. }
  assert (∀ a n, 0 <= a → a + n < 2 ^ 64 → direct (λ _ va, Some va) h2 a n) as D2.
  { intros a n Ha Hn. split_and!; [done|done|]. intros va _. unfold trans. by destruct (md h2). }
  destruct (swtch_roundtrip (λ _ va, Some va) (demo_hart Supervisor ∅) h2 0x80001000 0x80002000 0x80002000) as (h1' & E1' & _ & Hback);
    [reflexivity|reflexivity|by apply demo_direct|by apply demo_direct|by left|apply demo_regs_ok|reflexivity|reflexivity|by apply D2|by apply D2|by right|done|].
  rewrite E1 in E1'. injection E1' as <-. clear E1. destruct Hback as (h3 & E3 & _ & _ & R3); [reflexivity|].
  exists h3. split; [exact E3|]. clear E3. split; [rewrite (R3 s1 24)|rewrite (R3 sp 8)]; [reflexivity|by_check|reflexivity|by_check].
Defined.

(** A handler that moved to another hart and clobbers what it may. *)
Definition demo_kerneltrap (h : hart) : option hart := Some (set_reg tp 1 (set_reg t3 99 (set_reg a0 5 h))).

Lemma kernelvec_transparent_witness :
  ∃ h', run (λ _ va, Some va) (kernelvec demo_kerneltrap 0x80000100) (demo_hart Supervisor ∅) = Some h' ∧ rg h' a0 = 0x80001000 ∧ rg h' t3 = 7.
Proof.
  destruct (kernelvec_transparent (λ _ va, Some va) (demo_hart Supervisor ∅) demo_kerneltrap 0x80000100) as (h' & E & R).
  - apply demo_regs_ok.
  - by vm_compute.
  - by apply demo_direct.
  - intros h1 Es Ec Em. eexists. split; [reflexivity|]. simpl. by rewrite Ec.
  - exists h'. split; [exact E|]. clear E. split; rewrite R; done.
Defined.

Lemma demo_started : ∃ h1, h1 = start 0x80000e00 0x80010000 0x80005000 (demo_hart Machine ∅) ∧ regs_ok (set_md Machine h1) ∧
  rg h1 a1 = 0x80002000 ∧ ld64 (hm h1) (CLINT_MTIMECMP 2) = 1000000.
Proof. eexists. split; [reflexivity|]. split; [intros r; destruct r; vm_compute; split; done|]. vm_compute. done. Qed.

Lemma timer_boot_witness :
  ∃ h1, h1 = start 0x80000e00 0x80010000 0x80005000 (demo_hart Machine ∅) ∧ md h1 = Supervisor ∧ rg h1 tp = 2 ∧
  ∃ h3, run (λ _ va, Some va) timervec (set_md Machine h1) = Some h3 ∧ rg h3 a1 = 0x80002000 ∧
        ld64 (hm h3) (CLINT_MTIMECMP 2) = 2000000.
Proof.
  destruct demo_started as (h1 & E & R1 & E1 & Ec). exists h1. split; [exact E|].
  pose proof (timer_boot (λ _ va, Some va) 0x80000e00 0x80010000 0x80005000 (demo_hart Machine ∅)) as P. cbv zeta in P. rewrite <- E in P.
  destruct P as [B Htick]; [by vm_compute..|]. change (cs (demo_hart Machine ∅) mhartid) with 2 in Htick.
  split; [apply B|]. split; [apply B|].
  destruct (Htick (set_md Machine h1)) as (h3 & E3 & T); [reflexivity|reflexivity|done|reflexivity|reflexivity|].
  exists h3. split; [exact E3|]. clear E3. split; [by rewrite (tk_regs _ _ _ _ _ T)|]. rewrite (tk_cmp _ _ _ _ _ T).
  cbn [set_md hm]. by rewrite Ec.
Defined.
