(* ===== verification/Virtio.v ===== *)
(** * The disk driver (kernel/virtio_disk.c)

    The driver and the device share descriptors and two rings.  A process that
    calls [virtio_disk_rw] is a [thread]: it waits for three descriptors, then for
    the end of its request.  The lock [vdisk_lock] keeps processes and the
    interrupt handler apart, but not the device: a critical section is one operation
    for each part between two accesses the device can notice.  These are the
    increment of [avail->idx], the notification, the two accesses to the interrupt
    registers, and each test of [used->idx].  What is written before [avail->idx] grows
    concerns descriptors and a ring entry the device has not been told of.

    The arrays of [struct disk] are lists; an address the driver gives to the
    device is the object it points to. *)

From S2P Require Import Prelude Block Bio.

Definition NUM : Z := 8.
Definition VRING_DESC_F_NEXT : Z := 1.
Definition VRING_DESC_F_WRITE : Z := 2.
Definition VIRTIO_BLK_T_IN : Z := 0.
Definition VIRTIO_BLK_T_OUT : Z := 1.

(** What the driver points the device to: nothing, [&disk.ops[i]], [b->data] or
    [&disk.info[i].status]. *)
Inductive target := TNull | TOps (i : Z) | TData (b : Z) | TStatus (i : Z).

(** [struct virtq_desc]. *)
Record vdesc := mkDesc { d_addr : target; d_len : Z; d_flags : Z; d_next : Z }.
Definition desc0 : vdesc := mkDesc TNull 0 0 0.

(** [struct virtio_blk_req]. *)
Record blkreq := mkReq { rq_type : Z; rq_reserved : Z; rq_sector : Z }.
Definition req0 : blkreq := mkReq 0 0 0.

(** Where a process is in [virtio_disk_rw]: asleep or not on [&disk.free[0]], or
    on the buffer with the head of its chain. *)
Inductive thread := WantDesc (b : Z) (write asleep : bool) | Waiting (b : Z) (write : bool) (head : Z) (asleep : bool).

(** Who holds [vdisk_lock], and before which line: nobody; a process in
    [virtio_disk_rw], before [avail->idx += 1] or before the notification; the interrupt
    handler, before it reads the interrupt status, before it acknowledges what it read,
    or in its loop. *)
Inductive stage :=
  | Unlocked
  | AtPublish (t b : Z) (write : bool) (head : Z)
  | AtNotify (t b : Z) (write : bool) (head : Z)
  | AtStatus | AtAck (seen : Z) | AtLoop.

(** The register VIRTIO_MMIO_INTERRUPT_STATUS; the device has used a chain and not yet
    raised its interrupt; the device has been notified and not yet found the available
    ring empty; the line of the driver. *)
Record io := mkIo { io_status : Z; io_owes : bool; io_notified : bool; io_at : stage }.

(** [struct disk], with the buffers, the processes inside the driver and the
    device: how far it has read the available ring, and which chains it is
    working on. *)
Record vst := mkV {
  v_desc : list vdesc;
  v_avail : list Z; v_avail_idx : Z;
  v_used : list Z; v_used_idx : Z;
  v_free : list bool; v_seen : Z;
  v_info : list (option Z); v_status : list Z; v_ops : list blkreq;
  v_bufs : gmap Z buf; v_disk : disk;
  v_next : Z; v_taken : list Z;
  v_threads : gmap Z thread;
  v_io : io
}.

Definition set_vdesc x s := mkV x (v_avail s) (v_avail_idx s) (v_used s) (v_used_idx s) (v_free s) (v_seen s) (v_info s) (v_status s) (v_ops s) (v_bufs s) (v_disk s) (v_next s) (v_taken s) (v_threads s) (v_io s).
Definition set_vavail x i s := mkV (v_desc s) x i (v_used s) (v_used_idx s) (v_free s) (v_seen s) (v_info s) (v_status s) (v_ops s) (v_bufs s) (v_disk s) (v_next s) (v_taken s) (v_threads s) (v_io s).
Definition set_vused x i s := mkV (v_desc s) (v_avail s) (v_avail_idx s) x i (v_free s) (v_seen s) (v_info s) (v_status s) (v_ops s) (v_bufs s) (v_disk s) (v_next s) (v_taken s) (v_threads s) (v_io s).
Definition set_vfree x s := mkV (v_desc s) (v_avail s) (v_avail_idx s) (v_used s) (v_used_idx s) x (v_seen s) (v_info s) (v_status s) (v_ops s) (v_bufs s) (v_disk s) (v_next s) (v_taken s) (v_threads s) (v_io s).
Definition set_vseen x s := mkV (v_desc s) (v_avail s) (v_avail_idx s) (v_used s) (v_used_idx s) (v_free s) x (v_info s) (v_status s) (v_ops s) (v_bufs s) (v_disk s) (v_next s) (v_taken s) (v_threads s) (v_io s).
Definition set_vinfo x s := mkV (v_desc s) (v_avail s) (v_avail_idx s) (v_used s) (v_used_idx s) (v_free s) (v_seen s) x (v_status s) (v_ops s) (v_bufs s) (v_disk s) (v_next s) (v_taken s) (v_threads s) (v_io s).
Definition set_vstatus x s := mkV (v_desc s) (v_avail s) (v_avail_idx s) (v_used s) (v_used_idx s) (v_free s) (v_seen s) (v_info s) x (v_ops s) (v_bufs s) (v_disk s) (v_next s) (v_taken s) (v_threads s) (v_io s).
Definition set_vops x s := mkV (v_desc s) (v_avail s) (v_avail_idx s) (v_used s) (v_used_idx s) (v_free s) (v_seen s) (v_info s) (v_status s) x (v_bufs s) (v_disk s) (v_next s) (v_taken s) (v_threads s) (v_io s).
Definition set_vbufs x s := mkV (v_desc s) (v_avail s) (v_avail_idx s) (v_used s) (v_used_idx s) (v_free s) (v_seen s) (v_info s) (v_status s) (v_ops s) x (v_disk s) (v_next s) (v_taken s) (v_threads s) (v_io s).
Definition set_vdisk x s := mkV (v_desc s) (v_avail s) (v_avail_idx s) (v_used s) (v_used_idx s) (v_free s) (v_seen s) (v_info s) (v_status s) (v_ops s) (v_bufs s) x (v_next s) (v_taken s) (v_threads s) (v_io s).
Definition set_vdev n t s := mkV (v_desc s) (v_avail s) (v_avail_idx s) (v_used s) (v_used_idx s) (v_free s) (v_seen s) (v_info s) (v_status s) (v_ops s) (v_bufs s) (v_disk s) n t (v_threads s) (v_io s).
Definition set_vthreads x s := mkV (v_desc s) (v_avail s) (v_avail_idx s) (v_used s) (v_used_idx s) (v_free s) (v_seen s) (v_info s) (v_status s) (v_ops s) (v_bufs s) (v_disk s) (v_next s) (v_taken s) x (v_io s).

Definition set_vio x s := mkV (v_desc s) (v_avail s) (v_avail_idx s) (v_used s) (v_used_idx s) (v_free s) (v_seen s) (v_info s) (v_status s) (v_ops s) (v_bufs s) (v_disk s) (v_next s) (v_taken s) (v_threads s) x.
Definition io_goto (l : stage) (x : io) : io := mkIo (io_status x) (io_owes x) (io_notified x) l.

Definition desc_at (s : vst) (i : Z) : vdesc := nth (Z.to_nat i) (v_desc s) desc0.
Definition is_free (s : vst) (i : Z) : bool := nth (Z.to_nat i) (v_free s) false.
Definition status_at (s : vst) (i : Z) : Z := nth (Z.to_nat i) (v_status s) 0.
Definition ops_at (s : vst) (i : Z) : blkreq := nth (Z.to_nat i) (v_ops s) req0.
Definition info_at (s : vst) (i : Z) : option Z := nth (Z.to_nat i) (v_info s) None.

Abbreviation V := (M vst).

Definition put_desc (i : Z) (d : vdesc) : V unit := modify (λ s, set_vdesc (<[Z.to_nat i := d]> (v_desc s)) s).
Definition put_free (i : Z) (x : bool) : V unit := modify (λ s, set_vfree (<[Z.to_nat i := x]> (v_free s)) s).
Definition put_status (i x : Z) : V unit := modify (λ s, set_vstatus (<[Z.to_nat i := x]> (v_status s)) s).
Definition put_ops (i : Z) (x : blkreq) : V unit := modify (λ s, set_vops (<[Z.to_nat i := x]> (v_ops s)) s).
Definition goto (l : stage) : V unit := modify (λ s, set_vio (io_goto l (v_io s)) s).
Definition put_info (i : Z) (x : option Z) : V unit := modify (λ s, set_vinfo (<[Z.to_nat i := x]> (v_info s)) s).

Definition set_bdisk (v : Z) (x : buf) : buf :=
  mkBuf (b_valid x) v (b_dev x) (b_blockno x) (b_lock x) (b_refcnt x) (b_prev x) (b_next x) (b_data x).
Definition put_bdisk (b v : Z) : V unit := modify (λ s, set_vbufs (Bio.upd b (set_bdisk v) (v_bufs s)) s).

(** ** Sleeping *)

Definition awake_desc (t : thread) : thread := match t with WantDesc b w _ => WantDesc b w false | _ => t end.
Definition awake_buf (b : Z) (t : thread) : thread :=
  match t with Waiting b' w h a => Waiting b' w h (if b' =? b then false else a) | _ => t end.
(** [wakeup(&disk.free[0])] and [wakeup(b)]. *)
Definition wakeup_free : V unit := modify (λ s, set_vthreads (awake_desc <$> v_threads s) s).
Definition wakeup_buf (b : Z) : V unit := modify (λ s, set_vthreads (awake_buf b <$> v_threads s) s).

(** ** Descriptors *)

Fixpoint first_free (l : list bool) (i : Z) : option Z :=
  match l with
  | [] => None
  | x :: l' => if (x : bool) then Some i else first_free l' (i + 1)
  end.
Definition alloc_desc : V Z :=
  let! f := gets v_free in
  match first_free f 0 with
  | Some i => put_free i false ;; ret i
  | None => ret (-1)
  end.

Definition free_desc (i : Z) : V unit :=
  if NUM <=? i then panic "free_desc 1"
  else
    let! f := gets (λ s, is_free s i) in
    if (f : bool) then panic "free_desc 2"
    else
      put_desc i desc0 ;;
      put_free i true ;;
      wakeup_free.

(** [while(1)]: a chain has at most [NUM] descriptors. *)
Fixpoint free_chain (fuel : nat) (i : Z) : V unit :=
  match fuel with
  | O => hang
  | S fuel' =>
      let! d := gets (λ s, desc_at s i) in
      free_desc i ;;
      if truthy (Z.land (d_flags d) VRING_DESC_F_NEXT) then free_chain fuel' (d_next d) else ret tt
  end.

(** The three indices, or [None] and everything given back. *)
Definition alloc3_desc : V (option (Z * Z * Z)) :=
  let! i0 := alloc_desc in
  if i0 <? 0 then ret None
  else
    let! i1 := alloc_desc in
    if i1 <? 0 then free_desc i0 ;; ret None
    else
      let! i2 := alloc_desc in
      if i2 <? 0 then free_desc i0 ;; free_desc i1 ;; ret None
      else ret (Some (i0, i1, i2)).

(** ** virtio_disk_rw *)

(** From the allocation of the descriptors to the entry of the available ring. *)
Definition format (b : Z) (write : bool) (i0 i1 i2 : Z) : V unit :=
  let! x := gets (λ s, buf_at (v_bufs s) b) in
  let sector := u32 (b_blockno x * 2) in
  put_ops i0 (mkReq (if write then VIRTIO_BLK_T_OUT else VIRTIO_BLK_T_IN) 0 sector) ;;
  put_desc i0 (mkDesc (TOps i0) 16 VRING_DESC_F_NEXT i1) ;;
  put_desc i1 (mkDesc (TData b) BSIZE (Z.lor (if write then 0 else VRING_DESC_F_WRITE) VRING_DESC_F_NEXT) i2) ;;
  put_status i0 0xff ;;
  put_desc i2 (mkDesc (TStatus i0) 1 VRING_DESC_F_WRITE 0) ;;
  put_bdisk b 1 ;;
  put_info i0 (Some b) ;;
  modify (λ s, set_vavail (<[Z.to_nat (v_avail_idx s mod NUM) := i0]> (v_avail s)) (v_avail_idx s) s).

Definition set_thread (t : Z) (th : thread) : V unit := modify (λ s, set_vthreads (<[t := th]> (v_threads s)) s).

(** The body of the first loop, with what follows it when it ends. *)
Definition rw_try (t b : Z) (write : bool) : V unit :=
  let! r := alloc3_desc in
  match r with
  | None => set_thread t (WantDesc b write true)
  | Some (i0, i1, i2) =>
      format b write i0 i1 i2 ;;
      set_thread t (Waiting b write i0 false) ;;
      goto (AtPublish t b write i0)
  end.

(** [disk.avail->idx += 1]. *)
Definition rw_publish (t b : Z) (write : bool) (head : Z) : V unit :=
  modify (λ s, set_vavail (v_avail s) (u16 (v_avail_idx s + 1)) s) ;;
  goto (AtNotify t b write head).

(** The test of the second loop, with the [sleep]. *)
Definition rw_wait (t b : Z) (write : bool) (head : Z) : V unit :=
  let! x := gets (λ s, buf_at (v_bufs s) b) in
  if b_disk x =? 1 then set_thread t (Waiting b write head true) else ret tt.

(** [*R(VIRTIO_MMIO_QUEUE_NOTIFY) = 0] and the first test of the second loop. *)
Definition rw_notify (t b : Z) (write : bool) (head : Z) : V unit :=
  modify (λ s, set_vio (mkIo (io_status (v_io s)) (io_owes (v_io s)) true (io_at (v_io s))) s) ;;
  rw_wait t b write head ;;
  goto Unlocked.

(** After the second loop. *)
Definition rw_finish (t head : Z) : V unit :=
  put_info head None ;;
  free_chain (Z.to_nat NUM) head ;;
  modify (λ s, set_vthreads (delete t (v_threads s)) s).

(** ** virtio_disk_intr *)

(** [*R(VIRTIO_MMIO_INTERRUPT_STATUS) & 0x3]. *)
Definition intr_status : V Z :=
  let! v := gets (λ s, Z.land (io_status (v_io s)) 3) in
  goto (AtAck v) ;;
  ret v.

(** [*R(VIRTIO_MMIO_INTERRUPT_ACK) = v]: the device clears these bits of the status. *)
Definition intr_ack (v : Z) : V unit :=
  modify (λ s, set_vio (mkIo (Z.ldiff (io_status (v_io s)) v) (io_owes (v_io s)) (io_notified (v_io s)) AtLoop) s).

(** One test of [while(disk.used_idx != disk.used->idx)], and the body or the end of the
    handler; the result says whether the loop goes on. *)
Definition intr_turn : V bool :=
  let! s := getS in
  if v_seen s =? v_used_idx s then goto Unlocked ;; ret false
  else
    let id := nth (Z.to_nat (v_seen s mod NUM)) (v_used s) 0 in
    if negb (status_at s id =? 0) then panic "virtio_disk_intr status"
    else
      match info_at s id with
      | None => undef
      | Some b =>
          put_bdisk b 0 ;;
          wakeup_buf b ;;
          modify (λ s, set_vseen (u16 (v_seen s + 1)) s) ;;
          ret true
      end.
Fixpoint intr_loop (fuel : nat) : V unit :=
  match fuel with
  | O => hang
  | S fuel' =>
      let! more := intr_turn in
      if (more : bool) then intr_loop fuel' else ret tt
  end.
(** The handler, if the device does nothing meanwhile. *)
Definition virtio_disk_intr : V unit :=
  goto AtStatus ;;
  let! v := intr_status in
  intr_ack v ;;
  intr_loop (S (Z.to_nat NUM)).

(** ** virtio_disk_init *)

Definition virtio_init (d : disk) (t : gmap Z buf) : vst :=
  mkV (replicate 8 desc0) (replicate 8 0) 0 (replicate 8 0) 0 (replicate 8 true) 0 (replicate 8 None) (replicate 8 0)
      (replicate 8 req0) t d 0 [] ∅ (mkIo 0 false false Unlocked).

Definition VIRTIO_MMIO_MAGIC_VALUE : Z := 0x000.
Definition VIRTIO_MMIO_VERSION : Z := 0x004.
Definition VIRTIO_MMIO_DEVICE_ID : Z := 0x008.
Definition VIRTIO_MMIO_VENDOR_ID : Z := 0x00c.
Definition VIRTIO_MMIO_DEVICE_FEATURES : Z := 0x010.
Definition VIRTIO_MMIO_DRIVER_FEATURES : Z := 0x020.
Definition VIRTIO_MMIO_GUEST_PAGE_SIZE : Z := 0x028.
Definition VIRTIO_MMIO_QUEUE_SEL : Z := 0x030.
Definition VIRTIO_MMIO_QUEUE_NUM_MAX : Z := 0x034.
Definition VIRTIO_MMIO_QUEUE_NUM : Z := 0x038.
Definition VIRTIO_MMIO_QUEUE_PFN : Z := 0x040.
Definition VIRTIO_MMIO_STATUS : Z := 0x070.

(** The feature bits the driver turns off, in the order of the source: RO, SCSI,
    CONFIG_WCE, MQ, ANY_LAYOUT, EVENT_IDX and INDIRECT_DESC. *)
Definition refused : list Z := [5; 7; 11; 12; 27; 29; 28].
Definition negotiate (features : Z) : Z := foldl (λ f bit, Z.ldiff f (2 ^ bit)) features refused.

(** [reg] is what the device answers at its registers, [pages] the address of
    [disk.pages]; the result has the driver's register writes in order. *)
Definition virtio_disk_init (reg : Z → Z) (pages : Z) (d : disk) (t : gmap Z buf) : outcome (list (Z * Z) * vst) :=
  if negb (reg VIRTIO_MMIO_MAGIC_VALUE =? 0x74726976) || negb (reg VIRTIO_MMIO_VERSION =? 1) ||
     negb (reg VIRTIO_MMIO_DEVICE_ID =? 2) || negb (reg VIRTIO_MMIO_VENDOR_ID =? 0x554d4551)
  then Panic "could not find virtio disk"
  else
    let w1 := [(VIRTIO_MMIO_STATUS, 1); (VIRTIO_MMIO_STATUS, Z.lor 1 2);
               (VIRTIO_MMIO_DRIVER_FEATURES, u32 (negotiate (reg VIRTIO_MMIO_DEVICE_FEATURES)));
               (VIRTIO_MMIO_STATUS, Z.lor (Z.lor 1 2) 8); (VIRTIO_MMIO_STATUS, Z.lor (Z.lor (Z.lor 1 2) 8) 4);
               (VIRTIO_MMIO_GUEST_PAGE_SIZE, 4096); (VIRTIO_MMIO_QUEUE_SEL, 0)] in
    let max := reg VIRTIO_MMIO_QUEUE_NUM_MAX in
    if max =? 0 then Panic "virtio disk has no queue 0"
    else if max <? NUM then Panic "virtio disk max queue too short"
    else Ok (w1 ++ [(VIRTIO_MMIO_QUEUE_NUM, NUM); (VIRTIO_MMIO_QUEUE_PFN, u32 (Z.shiftr pages 12))], virtio_init d t).
