(* ===== verification/VirtioSpec.v ===== *)
(** * The disk driver implements atomic block transfers (kernel/virtio_disk.c)

    Processes, the interrupt handler and the device interleave as the steps of a
    transition system.  In every reachable state each request owns its three
    descriptors, is being written by the holder of the lock, sits in exactly one of the
    available ring, the device and the used ring, or is done, and its process is not
    asleep once it is done.  The system
    simulates one in which [virtio_disk_rw] is a single atomic transfer, the
    contract [disk_rw] that bio.c relies on. *)

From S2P Require Import Prelude Block Bio BioSpec Ring Virtio.

(** ** The device *)

(** The chains the device finds: a request header, the data and a status byte,
    for a block of the disk. *)
Record chain_wf (s : vst) (h i b j : Z) : Prop := {
  cw_next0 : Z.land (d_flags (desc_at s h)) VRING_DESC_F_NEXT ≠ 0;
  cw_ops : d_addr (desc_at s h) = TOps i;
  cw_next1 : Z.land (d_flags (desc_at s (d_next (desc_at s h)))) VRING_DESC_F_NEXT ≠ 0;
  cw_data : d_addr (desc_at s (d_next (desc_at s h))) = TData b;
  cw_len : d_len (desc_at s (d_next (desc_at s h))) = BSIZE;
  cw_write : Z.land (d_flags (desc_at s (d_next (desc_at s h)))) VRING_DESC_F_WRITE ≠ 0 ↔ rq_type (ops_at s i) = VIRTIO_BLK_T_IN;
  cw_status : d_addr (desc_at s (d_next (desc_at s (d_next (desc_at s h))))) = TStatus j;
  cw_type : rq_type (ops_at s i) = VIRTIO_BLK_T_IN ∨ rq_type (ops_at s i) = VIRTIO_BLK_T_OUT;
  cw_sector : rq_sector (ops_at s i) mod 2 = 0 ∧ 0 <= rq_sector (ops_at s i) / 2 < d_size (v_disk s);
  cw_buf : is_Some (v_bufs s !! b)
}.

(** Chains the driver has published and the device has not finished. *)
Definition published (s : vst) : list Z := window NUM (v_avail s) (v_next s) (ahead 16 (v_avail_idx s) (v_next s)).
Definition queue_wf (s : vst) : Prop := ∀ h, h ∈ published s ++ v_taken s → ∃ i b j, chain_wf s h i b j.

(** The transfer a chain asks for. *)
Definition transfer (s : vst) (i b : Z) : vst :=
  let n := rq_sector (ops_at s i) / 2 in
  if rq_type (ops_at s i) =? VIRTIO_BLK_T_OUT then set_vdisk (dwrite n (b_data (buf_at (v_bufs s) b)) (v_disk s)) s
  else set_vbufs (Bio.upd b (set_bdata (dread (v_disk s) n)) (v_bufs s)) s.

Definition complete (s : vst) (h i b j : Z) : vst :=
  let s1 := transfer s i b in
  let s2 := set_vstatus (<[Z.to_nat j := 0]> (v_status s1)) s1 in
  let s3 := set_vused (<[Z.to_nat (v_used_idx s2 mod NUM) := h]> (v_used s2)) (u16 (v_used_idx s2 + 1)) s2 in
  let s4 := set_vdev (v_next s3) (filter (λ x, x ≠ h) (v_taken s3)) s3 in
  set_vio (mkIo (io_status (v_io s)) true (io_notified (v_io s)) (io_at (v_io s))) s4.

(** What the device does, by sections 2.6 and 5.2 of the virtio specification: it
    takes chains from the available ring in order and finishes those it has taken
    in any order, here always with success.  After it has used a chain it raises an
    interrupt, bit 0 of the status; bit 1 says that its configuration changed.  It may
    look at the available ring at any time, and forgets a notification only when it
    finds the ring empty. *)
Inductive serves : vst → vst → Prop :=
  | serve_take s : v_next s ≠ v_avail_idx s →
      serves s (set_vdev (u16 (v_next s + 1)) (v_taken s ++ [ring_at NUM (v_avail s) (v_next s)]) s)
  | serve_complete s h i b j : h ∈ v_taken s → chain_wf s h i b j → serves s (complete s h i b j)
  | serve_raise s : io_owes (v_io s) = true →
      serves s (set_vio (mkIo (Z.lor (io_status (v_io s)) 1) false (io_notified (v_io s)) (io_at (v_io s))) s)
  | serve_config s : serves s (set_vio (mkIo (Z.lor (io_status (v_io s)) 2) (io_owes (v_io s)) (io_notified (v_io s)) (io_at (v_io s))) s)
  | serve_idle s : v_next s = v_avail_idx s →
      serves s (set_vio (mkIo (io_status (v_io s)) (io_owes (v_io s)) false (io_at (v_io s))) s).

(** ** What is always true *)

(** Indices of the arrays. *)
Abbreviation idx i := (0 <= i < NUM).

Definition buf_of (t : thread) : Z := match t with WantDesc b _ _ => b | Waiting b _ _ _ => b end.

Inductive phase := Written | Queued | Taken | Served | Acked.
#[export] Instance phase_eq_dec : EqDecision phase.
Proof. solve_decision. Defined.

(** A request: the buffer, the direction, its descriptors, where it is. *)
Record areq := mkA { a_b : Z; a_w : bool; a_h : Z; a_1 : Z; a_2 : Z; a_ph : phase }.
Definition chain (r : areq) : list Z := [a_h r; a_1 r; a_2 r].
Definition finished (r : areq) : bool := match a_ph r with Served | Acked => true | _ => false end.
Definition advance (p : phase) (r : areq) : areq := mkA (a_b r) (a_w r) (a_h r) (a_1 r) (a_2 r) p.

Record req_ok (s : vst) (r : areq) : Prop := {
  ro_range : Forall (λ i, idx i) (chain r);
  ro_nodup : NoDup (chain r);
  ro_busy : Forall (λ i, is_free s i = false) (chain r);
  ro_d0 : desc_at s (a_h r) = mkDesc (TOps (a_h r)) 16 VRING_DESC_F_NEXT (a_1 r);
  ro_d1 : desc_at s (a_1 r) = mkDesc (TData (a_b r)) BSIZE (Z.lor (if a_w r then 0 else VRING_DESC_F_WRITE) VRING_DESC_F_NEXT) (a_2 r);
  ro_d2 : desc_at s (a_2 r) = mkDesc (TStatus (a_h r)) 1 VRING_DESC_F_WRITE 0;
  ro_ops : ops_at s (a_h r) = mkReq (if a_w r then VIRTIO_BLK_T_OUT else VIRTIO_BLK_T_IN) 0 (b_blockno (buf_at (v_bufs s) (a_b r)) * 2);
  ro_info : info_at s (a_h r) = Some (a_b r);
  ro_status : status_at s (a_h r) = if finished r then 0 else 0xff;
  ro_disk : b_disk (buf_at (v_bufs s) (a_b r)) = if decide (a_ph r = Acked) then 0 else 1
}.

Definition thread_ok (t : option thread) (r : option areq) : Prop :=
  match t, r with
  | None, None => True
  | Some (WantDesc _ _ _), None => True
  | Some (Waiting b w h a), Some r => a_b r = b ∧ a_w r = w ∧ a_h r = h ∧ (a_ph r = Acked → a = false)
  | _, _ => False
  end.

(** The heads of the requests in phase [p] are the list [l]. *)
Definition heads (R : gmap Z areq) (p : phase) (l : list Z) : Prop :=
  NoDup l ∧ ∀ h, h ∈ l ↔ ∃ t r, R !! t = Some r ∧ a_h r = h ∧ a_ph r = p.

(** The buffers of the processes inside the driver. *)
Definition owners (s : vst) : gmap Z Z := buf_of <$> v_threads s.

(** Buffers in use: known, and inside the disk. *)
Definition buf_ok (s : vst) (b : Z) : Prop :=
  is_Some (v_bufs s !! b) ∧ 0 <= b_blockno (buf_at (v_bufs s) b) < d_size (v_disk s).

(** Enough descriptors for another request. *)
Definition three_free (s : vst) : Prop := ∃ i j k, NoDup [i; j; k] ∧ Forall (λ x, idx x ∧ is_free s x = true) [i; j; k].

(** A request written but not published is the one of the process that holds the lock;
    its head is the next entry of the available ring. *)
Definition at_ok (s : vst) (R : gmap Z areq) : Prop :=
  (∀ t r, R !! t = Some r → a_ph r = Written → io_at (v_io s) = AtPublish t (a_b r) (a_w r) (a_h r)) ∧
  match io_at (v_io s) with
  | AtPublish t b w h => ring_at NUM (v_avail s) (v_avail_idx s) = h ∧ v_threads s !! t = Some (Waiting b w h false) ∧
                         ∃ r, R !! t = Some r ∧ a_ph r = Written
  | AtNotify t b w h => v_threads s !! t = Some (Waiting b w h false)
  | _ => True
  end.

(** The lock is free, or the interrupt handler holds it. *)
Definition no_writer (l : stage) : bool :=
  match l with AtPublish _ _ _ _ | AtNotify _ _ _ _ => false | _ => true end.
Definition publishing (l : stage) : bool := match l with AtPublish _ _ _ _ => true | _ => false end.

Record vinv (s : vst) (R : gmap Z areq) : Prop := {
  vi_len : length (v_desc s) = 8%nat ∧ length (v_avail s) = 8%nat ∧ length (v_used s) = 8%nat ∧ length (v_free s) = 8%nat ∧
           length (v_info s) = 8%nat ∧ length (v_status s) = 8%nat ∧ length (v_ops s) = 8%nat;
  vi_idx : 0 <= v_avail_idx s < 2 ^ 16 ∧ 0 <= v_used_idx s < 2 ^ 16 ∧ 0 <= v_seen s < 2 ^ 16 ∧ 0 <= v_next s < 2 ^ 16;
  vi_size : d_size (v_disk s) <= 2 ^ 31;
  vi_thread : ∀ t, thread_ok (v_threads s !! t) (R !! t);
  vi_buf : ∀ t b, owners s !! t = Some b → buf_ok s b;
  vi_inj : ∀ t t' b, owners s !! t = Some b → owners s !! t' = Some b → t = t';
  vi_req : ∀ t r, R !! t = Some r → req_ok s r;
  vi_sep : ∀ t t' r r' i, R !! t = Some r → R !! t' = Some r' → t ≠ t' → i ∈ chain r → i ∉ chain r';
  vi_free : ∀ i, idx i → is_free s i = false → ∃ t r, R !! t = Some r ∧ i ∈ chain r;
  vi_avail : heads R Queued (published s);
  vi_taken : heads R Taken (v_taken s);
  vi_used : heads R Served (window NUM (v_used s) (v_seen s) (ahead 16 (v_used_idx s) (v_seen s)));
  vi_sleep : ∀ t b w, v_threads s !! t = Some (WantDesc b w true) → ¬ three_free s;
  vi_at : at_ok s R
}.

(** ** Moving requests between the lists *)

Section Heads.
Context (R : gmap Z areq) (t : Z) (r : areq) (q : phase).
Hypotheses (Hr : R !! t = Some r) (Hq : q ≠ a_ph r)
  (Hinj : ∀ t' r', R !! t' = Some r' → a_h r' = a_h r → t' = t).
Abbreviation R' := (<[t := advance q r]> R).

Lemma heads_same p l : p ≠ q → p ≠ a_ph r → heads R p l → heads R' p l.
Proof.
  intros H1 H2 [Hn Hl]. split; [done|]. intros h. rewrite Hl. split; intros (t' & r' & E & Eh & Ep); exists t', r'.
  - rewrite lookup_insert_ne; [done|]. intros <-. rewrite Hr in E. injection E as <-. done.
  - apply lookup_insert_Some in E as [[<- <-]|[Hne E]]; [|done]. done.
Qed.

Lemma heads_leave l l' : l ≡ₚ a_h r :: l' → heads R (a_ph r) l → heads R' (a_ph r) l'.
Proof.
  intros Hp [Hn Hl]. rewrite Hp in Hn. apply NoDup_cons in Hn as [Hni Hn]. split; [done|]. intros h.
  split.
  - intros Hh. assert (h ∈ l) as Hin by (rewrite Hp; by right). apply Hl in Hin as (t' & r' & E & Eh & Ep). exists t', r'.
    rewrite lookup_insert_ne; [done|]. intros <-. rewrite Hr in E. injection E as <-. by subst.
  - intros (t' & r' & E & Eh & Ep). apply lookup_insert_Some in E as [[<- <-]|[Hne E]]; [by destruct Hq|].
    assert (h ∈ l) as Hin by (apply Hl; by exists t', r'). rewrite Hp in Hin. apply elem_of_cons in Hin as [Hh|Hin]; [|done].
    destruct Hne. symmetry. apply (Hinj t' r' E). congruence.
Qed.

Lemma heads_join l l' : l' ≡ₚ l ++ [a_h r] → heads R q l → heads R' q l'.
Proof.
  intros Hp [Hn Hl]. assert (a_h r ∉ l) as Hni.
  { rewrite Hl. intros (t' & r' & E & Eh & Ep). pose proof (Hinj t' r' E Eh) as ->. rewrite Hr in E. injection E as <-. done. }
  split.
  - rewrite Hp. apply NoDup_app. split_and!; [done| |apply NoDup_singleton]. intros x Hx Hx'. apply list_elem_of_singleton in Hx' as ->. done.
  - intros h. rewrite Hp, elem_of_app, list_elem_of_singleton, Hl. split.
    + intros [(t' & r' & E & Eh & Ep)| ->].
      * exists t', r'. rewrite lookup_insert_ne; [done|]. intros <-. rewrite Hr in E. injection E as <-. done.
      * exists t, (advance q r). by rewrite lookup_insert_eq.
    + intros (t' & r' & E & Eh & Ep). apply lookup_insert_Some in E as [[<- <-]|[Hne E]]; [by right|]. left. by exists t', r'.
Qed.
End Heads.

(** ** Descriptors *)

Lemma nth_update {A} (l : list A) (i j : Z) x d : 0 <= i → 0 <= j → (Z.to_nat i < length l)%nat →
  nth (Z.to_nat j) (<[Z.to_nat i := x]> l) d = if j =? i then x else nth (Z.to_nat j) l d.
Proof.
  intros Hi Hj Hl. rewrite !nth_lookup. destruct (Z.eqb_spec j i) as [->|Hne]; [by rewrite list_lookup_insert_eq|].
  rewrite list_lookup_insert_ne; [done|]. lia.
Qed.

Lemma first_free_spec l k : match first_free l k with
  | Some i => k <= i < k + Z.of_nat (length l) ∧ nth (Z.to_nat (i - k)) l false = true
  | None => ∀ j, nth j l false = false
  end.
Proof.
  revert k. induction l as [|x l IH]; intros k; simpl; [by intros []|]. destruct x.
  - split; [lia|]. by rewrite Z.sub_diag.
  - specialize (IH (k + 1)). destruct (first_free l (k + 1)) as [i|].
    + destruct IH as [Hi E]. split; [lia|]. replace (Z.to_nat (i - k)) with (S (Z.to_nat (i - (k + 1)))) by lia. done.
    + intros [|j]; [done|apply IH].
Qed.

Lemma alloc_desc_spec s : length (v_free s) = 8%nat →
  wp alloc_desc (λ i s', (i = -1 ∧ s' = s ∧ ∀ j, is_free s j = false) ∨
    (idx i ∧ is_free s i = true ∧ s' = set_vfree (<[Z.to_nat i := false]> (v_free s)) s)) s.
Proof.
  intros Hl. unfold alloc_desc. apply wp_bind, wp_gets. pose proof (first_free_spec (v_free s) 0) as F.
  destruct (first_free (v_free s) 0) as [i|].
  - destruct F as [Hi E]. rewrite Z.sub_0_r in E. apply wp_bind, wp_modify, wp_ret. right. split; [unfold NUM; lia|done].
  - apply wp_ret. left. split; [done|]. split; [done|]. intros j. apply F.
Qed.

Lemma free_desc_spec i s : idx i → is_free s i = false →
  wp (free_desc i) (λ _ s', s' = set_vthreads (awake_desc <$> v_threads s)
    (set_vfree (<[Z.to_nat i := true]> (v_free s)) (set_vdesc (<[Z.to_nat i := desc0]> (v_desc s)) s))) s.
Proof.
  intros Hi Hf. unfold free_desc. rewrite (proj2 (Z.leb_gt _ _)) by lia. apply wp_bind, wp_gets. rewrite Hf.
  apply wp_bind, wp_modify, wp_bind, wp_modify, wp_modify. done.
Qed.

(** Descriptors that were free for a moment: only free ones and sleepers can tell. *)
Record given_back (s s' : vst) : Prop := {
  gb_desc : ∀ i, idx i → is_free s i = false → desc_at s' i = desc_at s i;
  gb_len : length (v_desc s') = length (v_desc s);
  gb_free : v_free s' = v_free s;
  gb_threads : v_threads s' = v_threads s ∨ v_threads s' = awake_desc <$> v_threads s;
  gb_rest : s' = set_vthreads (v_threads s') (set_vdesc (v_desc s') s)
}.

Lemma is_free_insert s i x j : length (v_free s) = 8%nat → idx i → idx j →
  is_free (set_vfree (<[Z.to_nat i := x]> (v_free s)) s) j = if j =? i then x else is_free s j.
Proof. intros Hl Hi Hj. unfold is_free. simpl. apply nth_update; unfold NUM in *; lia. Qed.

Lemma is_free_idx s i : length (v_free s) = 8%nat → 0 <= i → is_free s i = true → idx i.
Proof.
  intros Hl H0 Hf. split; [done|]. destruct (decide (i < NUM)); [done|]. exfalso. unfold is_free in Hf. rewrite nth_overflow in Hf; [done|].
  unfold NUM in *. lia.
Qed.

Lemma awake_twice (T : gmap Z thread) : awake_desc <$> (awake_desc <$> T) = awake_desc <$> T.
Proof. rewrite <- map_fmap_compose. apply map_fmap_ext. by intros _ [] _. Qed.

Lemma insert_back (l : list bool) i : is_Some (l !! Z.to_nat i) → nth (Z.to_nat i) l false = true → <[Z.to_nat i := true]> l = l.
Proof. intros [x E] H. rewrite nth_lookup, E in H. simpl in H. subst. by apply list_insert_id. Qed.

Lemma not_three_free s a c : (∀ x, idx x → is_free s x = true → x = a ∨ x = c) → ¬ three_free s.
Proof.
  intros H (i & j & k & Hn & F). apply Forall_cons in F as [[Hi Fi] F]. apply Forall_cons in F as [[Hj Fj] F].
  apply Forall_cons in F as [[Hk Fk] _]. apply NoDup_cons in Hn as [Ni Hn]. apply NoDup_cons in Hn as [Nj _].
  destruct (H i Hi Fi), (H j Hj Fj), (H k Hk Fk); subst; set_solver.
Qed.

Lemma give_back1 s i T f : length (v_free s) = 8%nat → length (v_desc s) = 8%nat → idx i → is_free s i = true →
  T = awake_desc <$> v_threads s → f = <[Z.to_nat i := true]> (<[Z.to_nat i := false]> (v_free s)) →
  given_back s (set_vthreads T (set_vfree f (set_vdesc (<[Z.to_nat i := desc0]> (v_desc s)) s))).
Proof.
  intros Hl Hd Hi Hf -> ->. assert (<[Z.to_nat i := true]> (<[Z.to_nat i := false]> (v_free s)) = v_free s) as E.
  { rewrite list_insert_insert_eq. apply insert_back; [|done]. apply lookup_lt_is_Some. unfold NUM in Hi. lia. }
  split; simpl; [|by rewrite length_insert|done|by right|by rewrite E].
  intros j Hj Hfj. unfold desc_at. simpl. rewrite nth_update; [|unfold NUM in *; lia..]. destruct (Z.eqb_spec j i); [|done]. congruence.
Qed.

Lemma given_back_trans s s' s'' : given_back s s' → given_back s' s'' → given_back s s''.
Proof.
  intros [D L F T E] [D' L' F' T' E']. split.
  - intros i Hi Hf. rewrite D'; [by apply D|done|]. unfold is_free in *. by rewrite F.
  - congruence.
  - congruence.
  - destruct T as [T|T], T' as [T'|T']; rewrite T', T; auto. right. apply awake_twice.
  - rewrite E' at 1. rewrite E. done.
Qed.

Lemma alloc3_desc_spec s : length (v_free s) = 8%nat → length (v_desc s) = 8%nat →
  wp alloc3_desc (λ o s', match o with
    | None => ¬ three_free s ∧ given_back s s'
    | Some (i, j, k) => NoDup [i; j; k] ∧ Forall (λ x, idx x ∧ is_free s x = true) [i; j; k] ∧
        s' = set_vfree (<[Z.to_nat k := false]> (<[Z.to_nat j := false]> (<[Z.to_nat i := false]> (v_free s)))) s
    end) s.
Proof.
  intros Hl Hd. unfold alloc3_desc. eapply wp_step; [by apply alloc_desc_spec|]. intros i0 ? [(-> & -> & N)|(H0 & F0 & ->)].
  { apply wp_ret. split; [|split; auto; by destruct s]. apply (not_three_free s 0 0). intros x _ Hx. by rewrite N in Hx. }
  rewrite (proj2 (Z.ltb_ge _ _)) by lia. eapply wp_step; [apply alloc_desc_spec; simpl; by rewrite length_insert|].
  intros i1 ? [(-> & -> & N)|(H1 & F1 & ->)].
  { simpl. eapply wp_step.
    - apply free_desc_spec; [done|]. rewrite is_free_insert by done. by rewrite Z.eqb_refl.
    - intros _ ? ->. apply wp_ret. split.
      + apply (not_three_free s i0 i0). intros x Hx Fx. specialize (N x). rewrite is_free_insert in N by done.
        destruct (Z.eqb_spec x i0); [by left|congruence].
      + exact (give_back1 s i0 _ _ Hl Hd H0 F0 eq_refl eq_refl). }
  rewrite is_free_insert in F1 by done. destruct (Z.eqb_spec i1 i0) as [|N1]; [done|].
  rewrite (proj2 (Z.ltb_ge _ _)) by lia. eapply wp_step; [apply alloc_desc_spec; simpl; by rewrite !length_insert|].
  intros i2 ? [(-> & -> & N)|(H2 & F2 & ->)].
  - eapply wp_step; [apply free_desc_spec; [done|]|].
    { rewrite is_free_insert by (simpl; rewrite ?length_insert; done). destruct (Z.eqb_spec i0 i1); [done|]. rewrite is_free_insert by done. by rewrite Z.eqb_refl. }
    intros _ ? ->. eapply wp_step; [apply free_desc_spec; [done|]|].
    { unfold is_free. simpl. rewrite !nth_update by (rewrite ?length_insert; unfold NUM in *; lia). destruct (Z.eqb_spec i1 i0); [done|]. by rewrite Z.eqb_refl. }
    intros _ ? ->. apply wp_ret. split.
    + apply (not_three_free s i0 i1). intros x Hx Fx. specialize (N x). rewrite !is_free_insert in N by (simpl; rewrite ?length_insert; done).
      destruct (Z.eqb_spec x i1); [by right|]. destruct (Z.eqb_spec x i0); [by left|]. congruence.
    + eapply given_back_trans; [exact (give_back1 s i0 _ _ Hl Hd H0 F0 eq_refl eq_refl)|].
      cbn [v_free v_threads v_desc set_vfree set_vthreads set_vdesc].
      rewrite (list_insert_insert_ne _ (Z.to_nat i0) (Z.to_nat i1)) by lia.
      match goal with |- given_back ?s1 _ => refine (give_back1 s1 i1 _ _ _ _ H1 _ eq_refl eq_refl) end.
      * simpl. by rewrite !length_insert.
      * simpl. by rewrite length_insert.
      * unfold is_free. simpl. rewrite !nth_update by (rewrite ?length_insert; unfold NUM in *; lia). by destruct (Z.eqb_spec i1 i0).
  - rewrite !is_free_insert in F2 by (simpl; rewrite ?length_insert; done).
    rewrite (proj2 (Z.ltb_ge _ _)) by lia. apply wp_ret.
    destruct (Z.eqb_spec i2 i1); [done|]. destruct (Z.eqb_spec i2 i0); [done|]. simpl.
    split; [|split]; [|rewrite !Forall_cons, Forall_nil; done|done].
    repeat (apply NoDup_cons; split; [set_solver|]). apply NoDup_nil_2.
Qed.

(** ** Requests that come and go *)

Lemma heads_fresh R t r l : R !! t = None → (∀ t' r', R !! t' = Some r' → a_h r' ≠ a_h r) →
  heads R (a_ph r) l → heads (<[t := r]> R) (a_ph r) (l ++ [a_h r]).
Proof.
  intros Hn Hf [Hd Hl]. split.
  - apply NoDup_app. split; [done|]. split; [|apply NoDup_singleton]. intros h Hh Hx. apply list_elem_of_singleton in Hx as ->.
    apply Hl in Hh as (t' & r' & E & Eh & _). by apply (Hf t' r').
  - intros h. rewrite elem_of_app, list_elem_of_singleton, Hl. split.
    + intros [(t' & r' & E & Eh & Ep)| ->]; [|exists t, r; by rewrite lookup_insert_eq].
      exists t', r'. rewrite lookup_insert_ne; [done|]. congruence.
    + intros (t' & r' & E & Eh & Ep). apply lookup_insert_Some in E as [[<- <-]|[Hne E]]; [by right|]. left. by exists t', r'.
Qed.

Lemma heads_fresh_other R t r p l : R !! t = None → p ≠ a_ph r → heads R p l → heads (<[t := r]> R) p l.
Proof.
  intros Hn Hp [Hd Hl]. split; [done|]. intros h. rewrite Hl. split; intros (t' & r' & E & Eh & Ep); exists t', r'.
  - rewrite lookup_insert_ne; [done|]. congruence.
  - apply lookup_insert_Some in E as [[<- <-]|[Hne E]]; [congruence|done].
Qed.

Lemma heads_delete R t r p l : R !! t = Some r → p ≠ a_ph r → heads R p l → heads (delete t R) p l.
Proof.
  intros Hr Hp [Hd Hl]. split; [done|]. intros h. rewrite Hl. split; intros (t' & r' & E & Eh & Ep); exists t', r'.
  - rewrite lookup_delete_ne; [done|]. intros <-. congruence.
  - by apply lookup_delete_Some in E as [_ E].
Qed.

(** ** The rings *)

Lemma queue_pop q w r : 0 <= w < 2 ^ 16 → 0 <= r < 2 ^ 16 → r ≠ w →
  window NUM q r (ahead 16 w r) = ring_at NUM q r :: window NUM q (u16 (r + 1)) (ahead 16 w (u16 (r + 1))).
Proof.
  intros Hw Hr Hne. assert (0 < ahead 16 w r) as Hk.
  { pose proof (wrap_bound 16 (w - r)). assert (ahead 16 w r ≠ 0) by (rewrite ahead_zero; [done|lia..]). unfold ahead in *. lia. }
  rewrite window_cons by done. f_equal. rewrite ahead_pop by (done || lia).
  by rewrite (window_wrap 16 NUM (2 ^ 13)) by (unfold NUM; lia).
Qed.

Lemma queue_push q w r x : length q = 8%nat → ahead 16 w r < 8 →
  window NUM (<[Z.to_nat (w mod NUM) := x]> q) r (ahead 16 (u16 (w + 1)) r) = window NUM q r (ahead 16 w r) ++ [x].
Proof.
  intros Hq Hk. pose proof (wrap_bound 16 (w - r)). fold (ahead 16 w r) in *.
  rewrite (ahead_push 16 NUM (2 ^ 13)) by (unfold NUM; lia). rewrite <- (ahead_ring 16 NUM (2 ^ 13)) with (r := r) by (unfold NUM; lia).
  apply window_push; unfold NUM; lia.
Qed.

(** An entry stored beyond the end, and the index that then takes it in. *)
Lemma queue_store q w r x : length q = 8%nat → ahead 16 w r < 8 →
  window NUM (<[Z.to_nat (w mod NUM) := x]> q) r (ahead 16 w r) = window NUM q r (ahead 16 w r).
Proof.
  intros Hq Hk. pose proof (wrap_bound 16 (w - r)). fold (ahead 16 w r) in *. pose proof (queue_push q w r x Hq Hk) as E.
  rewrite (ahead_push 16 NUM (2 ^ 13)) in E by (unfold NUM; lia). apply (f_equal (take (Z.to_nat (ahead 16 w r)))) in E.
  rewrite take_window in E by lia. rewrite E. rewrite take_app_length'; [done|].
  pose proof (length_window NUM q r (ahead 16 w r)). lia.
Qed.

Lemma queue_publish q w r : length q = 8%nat → ahead 16 w r < 8 →
  window NUM q r (ahead 16 (u16 (w + 1)) r) = window NUM q r (ahead 16 w r) ++ [ring_at NUM q w].
Proof.
  intros Hq Hk. rewrite <- (queue_push q w r (ring_at NUM q w) Hq Hk). f_equal. symmetry. apply list_insert_id.
  unfold ring_at. rewrite nth_lookup. destruct (lookup_lt_is_Some_2 q (Z.to_nat (w mod NUM))) as [x E]; [|by rewrite E].
  pose proof (Z.mod_pos_bound w NUM). unfold NUM in *. lia.
Qed.

Lemma queue_empty q w : window NUM q w (ahead 16 w w) = [].
Proof. unfold ahead. by rewrite Z.sub_diag. Qed.

(** ** The abstract system *)

(** A process has asked for a transfer, or its transfer is done. *)
Inductive apc := APend (b : Z) (write : bool) | ADone (b : Z).
Record ast := mkAst { as_pc : gmap Z apc; as_bufs : gmap Z buf; as_disk : disk }.

(** Calls and returns, and the transfer as one step: [disk_rw] of bio.c. *)
Inductive astep : ast → ast → Prop :=
  | a_call s t b w : as_pc s !! t = None → astep s (mkAst (<[t := APend b w]> (as_pc s)) (as_bufs s) (as_disk s))
  | a_transfer s t b w m d : as_pc s !! t = Some (APend b w) →
      (∀ l p, disk_rw b w (mkBst l p (as_bufs s) (as_disk s)) = Ok (tt, mkBst l p m d)) →
      astep s (mkAst (<[t := ADone b]> (as_pc s)) m d)
  | a_return s t b : as_pc s !! t = Some (ADone b) → astep s (mkAst (delete t (as_pc s)) (as_bufs s) (as_disk s))
  | a_buffer s b x : (∀ t w, as_pc s !! t ≠ Some (APend b w) ∧ as_pc s !! t ≠ Some (ADone b)) →
      astep s (mkAst (as_pc s) (<[b := set_bdisk 0 x]> (as_bufs s)) (as_disk s)).

(** [b->disk] is the driver's own. *)
Definition thread_pc (s : vst) (t : thread) : apc :=
  match t with
  | WantDesc b w _ => APend b w
  | Waiting b w h _ => if status_at s h =? 0 then ADone b else APend b w
  end.
Definition alpha (s : vst) : ast := mkAst (thread_pc s <$> v_threads s) (set_bdisk 0 <$> v_bufs s) (v_disk s).

(** ** Consequences *)

Section Facts.
Context (s : vst) (R : gmap Z areq) (I : vinv s R).

Lemma request_thread t r : R !! t = Some r →
  ∃ a, v_threads s !! t = Some (Waiting (a_b r) (a_w r) (a_h r) a) ∧ (a_ph r = Acked → a = false).
Proof.
  intros E. pose proof (vi_thread s R I t) as T. rewrite E in T. destruct (v_threads s !! t) as [[b w a|b w h a]|]; [done| |done].
  destruct T as (<- & <- & <- & Ha). by exists a.
Qed.

Lemma waiting_request t b w h a : v_threads s !! t = Some (Waiting b w h a) →
  ∃ r, R !! t = Some r ∧ a_b r = b ∧ a_w r = w ∧ a_h r = h ∧ (a_ph r = Acked → a = false).
Proof. intros E. pose proof (vi_thread s R I t) as T. rewrite E in T. destruct (R !! t) as [r|]; [|done]. by exists r. Qed.

Lemma request_buf t r : R !! t = Some r → owners s !! t = Some (a_b r) ∧ buf_ok s (a_b r).
Proof.
  intros E. destruct (request_thread t r E) as (a & T & _). assert (owners s !! t = Some (a_b r)) as O; [|split; [done|by eapply vi_buf]].
  unfold owners. by rewrite lookup_fmap, T.
Qed.

Lemma request_inj t t' r r' : R !! t = Some r → R !! t' = Some r' → a_h r' = a_h r → t' = t.
Proof.
  intros E E' Eh. destruct (decide (t' = t)); [done|]. exfalso. apply (vi_sep s R I t' t r' r (a_h r) E' E n); rewrite <- ?Eh; [|rewrite Eh]; by left.
Qed.

Lemma request_bufs t t' r r' : R !! t = Some r → R !! t' = Some r' → t' ≠ t → a_b r' ≠ a_b r.
Proof.
  intros E E' Hne Eb. apply Hne. destruct (request_buf t r E), (request_buf t' r' E'). eapply vi_inj; [done..|congruence].
Qed.

Lemma heads_idx p l : heads R p l → ∀ h, h ∈ l → idx h.
Proof.
  intros [_ Hl] h Hh. apply Hl in Hh as (t & r & E & <- & _). pose proof (ro_range _ _ (vi_req s R I t r E)) as F. by apply Forall_cons in F as [? _].
Qed.

(** A ring has room for a chain that is not in it. *)
Lemma heads_room p l x : heads R p l → idx x → x ∉ l → Z.of_nat (length l) < 8.
Proof.
  intros Hl Hx Hni. pose proof (NoDup_Z_length (x :: l) NUM) as P. simpl in P. unfold NUM in P. enough (Z.of_nat (S (length l)) <= 8) by lia. apply P; [lia| |].
  - apply NoDup_cons. split; [done|apply Hl].
  - intros y Hy. apply elem_of_cons in Hy as [->|Hy]; [done|]. by apply (heads_idx p l).
Qed.

Lemma ring_bound p q w n : heads R p (window NUM q n (ahead 16 w n)) → ahead 16 w n <= 8.
Proof.
  intros Hl. pose proof (wrap_bound 16 (w - n) ltac:(lia)) as W. fold (ahead 16 w n) in W.
  rewrite <- (length_window NUM q n (ahead 16 w n)) by lia. apply NoDup_Z_length; [lia|apply Hl|by apply (heads_idx p)].
Qed.

Lemma ring_room p q w n x : heads R p (window NUM q n (ahead 16 w n)) → idx x → x ∉ window NUM q n (ahead 16 w n) → ahead 16 w n < 8.
Proof.
  intros Hl Hx Hni. pose proof (wrap_bound 16 (w - n) ltac:(lia)) as W. fold (ahead 16 w n) in W.
  rewrite <- (length_window NUM q n (ahead 16 w n)) by lia. by apply (heads_room p _ x).
Qed.
End Facts.

Lemma req_ok_frame s s' r p : req_ok s r →
  (∀ i, i ∈ chain r → is_free s' i = is_free s i ∧ desc_at s' i = desc_at s i) →
  ops_at s' (a_h r) = ops_at s (a_h r) → info_at s' (a_h r) = info_at s (a_h r) →
  b_blockno (buf_at (v_bufs s') (a_b r)) = b_blockno (buf_at (v_bufs s) (a_b r)) →
  status_at s' (a_h r) = (if finished (advance p r) then 0 else 0xff) →
  b_disk (buf_at (v_bufs s') (a_b r)) = (if decide (p = Acked) then 0 else 1) →
  req_ok s' (advance p r).
Proof.
  intros [Hr Hn Hb H0 H1 H2 Ho Hi Hs Hd] HD HO HI HB HS HK.
  assert (∀ i, i ∈ chain r → desc_at s' i = desc_at s i) as HD' by (intros i Hi'; by apply HD). unfold chain in *.
  split; simpl; try done.
  - rewrite Forall_forall in *. intros x Hx. rewrite (proj1 (HD x Hx)). by apply Hb.
  - rewrite HD' by set_solver. done.
  - rewrite HD' by set_solver. done.
  - rewrite HD' by set_solver. done.
  - by rewrite HO, HB.
  - by rewrite HI.
Qed.

Lemma advance_same r : advance (a_ph r) r = r.
Proof. by destruct r. Qed.

Lemma req_ok_same s s' r : req_ok s r →
  (∀ i, i ∈ chain r → is_free s' i = is_free s i ∧ desc_at s' i = desc_at s i) →
  ops_at s' (a_h r) = ops_at s (a_h r) → info_at s' (a_h r) = info_at s (a_h r) →
  b_blockno (buf_at (v_bufs s') (a_b r)) = b_blockno (buf_at (v_bufs s) (a_b r)) →
  status_at s' (a_h r) = status_at s (a_h r) →
  b_disk (buf_at (v_bufs s') (a_b r)) = b_disk (buf_at (v_bufs s) (a_b r)) → req_ok s' r.
Proof.
  intros O ? ? ? ? HS HD. rewrite <- (advance_same r). apply (req_ok_frame s); try done.
  - rewrite HS, advance_same. apply (ro_status _ _ O).
  - rewrite HD. apply (ro_disk _ _ O).
Qed.

(** Unless a process is about to publish it, no request is half written. *)
Lemma at_none s R : vinv s R → publishing (io_at (v_io s)) = false → ∀ t r, R !! t = Some r → a_ph r ≠ Written.
Proof. intros I Hw t r E Ep. destruct (vi_at s R I) as [A _]. by rewrite (A t r E Ep) in Hw. Qed.

Lemma no_writer_publishing l : no_writer l → publishing l = false.
Proof. by destruct l. Qed.

Lemma at_ok_none s R : no_writer (io_at (v_io s)) → (∀ t r, R !! t = Some r → a_ph r ≠ Written) → at_ok s R.
Proof. intros Hw Hn. split; [intros t r E Ep; by destruct (Hn t r E)|]. by destruct (io_at (v_io s)). Qed.

(** ** A request moves on *)

Record frame (s s' : vst) : Prop := {
  fr_len : length (v_desc s') = length (v_desc s) ∧ length (v_avail s') = length (v_avail s) ∧ length (v_used s') = length (v_used s) ∧
           length (v_info s') = length (v_info s) ∧ length (v_status s') = length (v_status s) ∧ length (v_ops s') = length (v_ops s);
  fr_free : v_free s' = v_free s;
  fr_size : d_size (v_disk s') = d_size (v_disk s);
  fr_owners : owners s' = owners s;
  fr_buf : ∀ b, buf_ok s b → buf_ok s' b;
  fr_sleep : ∀ t b w, v_threads s' !! t = Some (WantDesc b w true) → v_threads s !! t = Some (WantDesc b w true)
}.

Abbreviation idx_ok s := (0 <= v_avail_idx s < 2 ^ 16 ∧ 0 <= v_used_idx s < 2 ^ 16 ∧ 0 <= v_seen s < 2 ^ 16 ∧ 0 <= v_next s < 2 ^ 16).
Abbreviation served s := (window NUM (v_used s) (v_seen s) (ahead 16 (v_used_idx s) (v_seen s))).

Lemma vinv_advance s s' R (I : vinv s R) t r q : frame s s' → R !! t = Some r → idx_ok s' →
  (∀ t', thread_ok (v_threads s' !! t') (<[t := advance q r]> R !! t')) →
  (∀ t' r', t' ≠ t → R !! t' = Some r' → req_ok s' r') → req_ok s' (advance q r) →
  heads (<[t := advance q r]> R) Queued (published s') → heads (<[t := advance q r]> R) Taken (v_taken s') →
  heads (<[t := advance q r]> R) Served (served s') → at_ok s' (<[t := advance q r]> R) → vinv s' (<[t := advance q r]> R).
Proof.
  intros [(L1 & L2 & L3 & L4 & L5 & L6) Ff Fz Fo Fb Fs] Hr Hi Ht Hreq Hnew HQ HT HS HA.
  destruct (vi_len s R I) as (? & ? & ? & ? & ? & ? & ?).
  assert (∀ t' r', <[t := advance q r]> R !! t' = Some r' → ∃ r0, R !! t' = Some r0 ∧ chain r' = chain r0) as HC.
  { intros t' r' E. apply lookup_insert_Some in E as [[<- <-]|[_ E]]; [by exists r|by exists r']. }
  split; try done.
  - split_and!; congruence.
  - rewrite Fz. apply (vi_size s R I).
  - rewrite Fo. intros t' b E. by apply Fb, (vi_buf s R I t').
  - rewrite Fo. apply (vi_inj s R I).
  - intros t' r' E. apply lookup_insert_Some in E as [[<- <-]|[Hne E]]; [done|by apply (Hreq t')].
  - intros t1 t2 r1 r2 i E1 E2 Hne Hin. apply HC in E1 as (r1' & E1 & Hc1), E2 as (r2' & E2 & Hc2). rewrite Hc1 in Hin. rewrite Hc2.
    by apply (vi_sep s R I t1 t2 r1' r2').
  - intros i Hx Hf. unfold is_free in Hf. rewrite Ff in Hf. destruct (vi_free s R I i Hx Hf) as (t' & r' & E & Hin).
    destruct (decide (t' = t)) as [->|Hne]; [exists t, (advance q r)|exists t', r'].
    + rewrite lookup_insert_eq. split; [done|]. rewrite Hr in E. by injection E as <-.
    + by rewrite lookup_insert_ne.
  - intros t' b w E (i & j & k & Hn & F). apply Fs in E. apply (vi_sleep s R I t' b w E). exists i, j, k. split; [done|].
    unfold is_free in *. by rewrite Ff in F.
Qed.

Lemma at_ok_advance s s' R t r q : vinv s R → R !! t = Some r → a_ph r ≠ Written → q ≠ Written → io_at (v_io s') = io_at (v_io s) →
  v_avail s' = v_avail s → v_avail_idx s' = v_avail_idx s → v_threads s' = v_threads s → at_ok s' (<[t := advance q r]> R).
Proof.
  intros I Hr Hp Hq El Ea Ei Et. destruct (vi_at s R I) as [A B]. split.
  - rewrite El. intros t' r' E Ep. apply lookup_insert_Some in E as [[<- <-]|[_ E]]; [done|by apply A].
  - rewrite El, Ea, Ei, Et. destruct (io_at (v_io s)); try done. destruct B as (? & ? & r' & E & Ep). split; [done|]. split; [done|].
    exists r'. split; [|done]. rewrite lookup_insert_ne; [done|]. intros ->. congruence.
Qed.

Lemma thread_ok_advance t r q : q ≠ Acked → thread_ok t (Some r) → thread_ok t (Some (advance q r)).
Proof. intros Hq. destruct t as [[|b w h a]|]; simpl; [done| |done]. intros (? & ? & ? & _). done. Qed.

Lemma threads_advance s R t r q : vinv s R → R !! t = Some r → q ≠ Acked →
  ∀ t', thread_ok (v_threads s !! t') (<[t := advance q r]> R !! t').
Proof.
  intros I Hr Hq t'. pose proof (vi_thread s R I t') as T. destruct (decide (t' = t)) as [->|Hne]; [|by rewrite lookup_insert_ne].
  rewrite lookup_insert_eq. rewrite Hr in T. by apply thread_ok_advance.
Qed.

Lemma serve_take_spec s R : vinv s R → v_next s ≠ v_avail_idx s →
  ∃ R', vinv (set_vdev (u16 (v_next s + 1)) (v_taken s ++ [ring_at NUM (v_avail s) (v_next s)]) s) R'.
Proof.
  intros I Hne. destruct (vi_idx s R I) as (Ha & Hu & Hs & Hn).
  pose proof (queue_pop (v_avail s) (v_avail_idx s) (v_next s) Ha Hn Hne) as E. fold (published s) in E. set (h := ring_at _ _ _) in *.
  assert (h ∈ published s) as Hin by (rewrite E; by left). apply (vi_avail s R I) in Hin as (t & r & Hr & Hh & Hp).
  pose proof (request_inj s R I t) as Hinj. exists (<[t := advance Taken r]> R).
  apply (vinv_advance s _ R I); [done..| | | | | | | |].
  - pose proof (wrap_bound 16 (v_next s + 1)). simpl. lia.
  - exact (threads_advance s R t r Taken I Hr ltac:(done)).
  - intros t' r' _ E'. by apply (req_ok_same s); [apply (vi_req s R I t')|..].
  - pose proof (vi_req s R I t r Hr) as O. apply (req_ok_frame s); try done.
    + rewrite <- (advance_same r) in O. rewrite Hp in O. apply (ro_status _ _ O).
    + pose proof (ro_disk _ _ O) as D. by rewrite Hp in D.
  - rewrite <- Hp. apply (heads_leave R t r Taken Hr ltac:(congruence) (λ t' r' E', Hinj t' r r' Hr E') (published s)).
    + rewrite Hh. by rewrite E.
    + rewrite Hp. apply (vi_avail s R I).
  - apply (heads_join R t r Taken Hr ltac:(congruence) (λ t' r' E', Hinj t' r r' Hr E') (v_taken s)); [by rewrite Hh|apply (vi_taken s R I)].
  - apply (heads_same R t r Taken Hr); [done|congruence|apply (vi_used s R I)].
  - apply (at_ok_advance s); (done || congruence).
Qed.

Lemma filter_out (l : list Z) h : NoDup l → h ∈ l → l ≡ₚ h :: filter (λ x, x ≠ h) l.
Proof.
  intros Hn Hh. apply NoDup_Permutation; [done| |].
  - apply NoDup_cons. split; [|by apply NoDup_filter]. rewrite list_elem_of_filter. naive_solver.
  - intros x. rewrite elem_of_cons, list_elem_of_filter. destruct (decide (x = h)); naive_solver.
Qed.

Lemma transfer_bufs s i b c : b_blockno (buf_at (v_bufs (transfer s i b)) c) = b_blockno (buf_at (v_bufs s) c) ∧
  b_disk (buf_at (v_bufs (transfer s i b)) c) = b_disk (buf_at (v_bufs s) c).
Proof.
  unfold transfer. destruct (_ =? _); [done|]. cbn [v_bufs set_vbufs]. rewrite buf_at_upd. by case_decide; subst.
Qed.

Lemma transfer_frame s i b : v_desc (transfer s i b) = v_desc s ∧ v_avail (transfer s i b) = v_avail s ∧ v_avail_idx (transfer s i b) = v_avail_idx s ∧
  v_used (transfer s i b) = v_used s ∧ v_used_idx (transfer s i b) = v_used_idx s ∧ v_free (transfer s i b) = v_free s ∧ v_seen (transfer s i b) = v_seen s ∧
  v_info (transfer s i b) = v_info s ∧ v_status (transfer s i b) = v_status s ∧ v_ops (transfer s i b) = v_ops s ∧ v_next (transfer s i b) = v_next s ∧
  v_taken (transfer s i b) = v_taken s ∧ v_threads (transfer s i b) = v_threads s ∧ d_size (v_disk (transfer s i b)) = d_size (v_disk s).
Proof. unfold transfer. by destruct (_ =? _). Qed.

Lemma is_Some_upd (m : gmap Z buf) b f c : is_Some (m !! c) → is_Some (Bio.upd b f m !! c).
Proof. intros H. unfold Bio.upd. destruct (decide (b = c)) as [->|]; [by rewrite lookup_insert_eq|by rewrite lookup_insert_ne]. Qed.

Lemma transfer_ok s i b c : buf_ok s c → buf_ok (transfer s i b) c.
Proof.
  intros [Hs Hb]. split.
  - unfold transfer. destruct (_ =? _); [done|]. by apply is_Some_upd.
  - rewrite (proj1 (transfer_bufs s i b c)). by destruct (transfer_frame s i b) as (_ & _ & _ & _ & _ & _ & _ & _ & _ & _ & _ & _ & _ & ->).
Qed.

Lemma complete_view s h i b j x : (is_free (complete s h i b j) x = is_free s x ∧ desc_at (complete s h i b j) x = desc_at s x) ∧
  (∀ y, ops_at (complete s h i b j) y = ops_at s y) ∧ (∀ y, info_at (complete s h i b j) y = info_at s y).
Proof.
  unfold is_free, desc_at, ops_at, info_at, complete. simpl.
  by destruct (transfer_frame s i b) as (-> & _ & _ & _ & _ & -> & _ & -> & _ & -> & _).
Qed.

(** The chain of a request says what it is. *)
Lemma chain_request s r i b j : req_ok s r → chain_wf s (a_h r) i b j → i = a_h r ∧ b = a_b r ∧ j = a_h r.
Proof.
  intros [_ _ _ H0 H1 H2 _ _ _ _] [_ C0 _ C1 _ _ C2 _ _ _]. rewrite H0 in *. simpl in *. rewrite H1 in *. simpl in *. rewrite H2 in *. simpl in *.
  by injection C0 as <-; injection C1 as <-; injection C2 as <-.
Qed.

Lemma status_at_insert s i j x : length (v_status s) = 8%nat → idx i → idx j →
  nth (Z.to_nat j) (<[Z.to_nat i := x]> (v_status s)) 0 = if j =? i then x else status_at s j.
Proof. intros Hl Hi Hj. apply nth_update; unfold NUM in *; lia. Qed.

Lemma head_idx s r : req_ok s r → idx (a_h r).
Proof. intros O. pose proof (ro_range _ _ O) as F. by apply Forall_cons in F as [? _]. Qed.

Lemma serve_complete_spec s R h i b j : vinv s R → h ∈ v_taken s → chain_wf s h i b j →
  ∃ t r, R !! t = Some r ∧ a_ph r = Taken ∧ a_h r = h ∧ a_b r = b ∧ i = h ∧ vinv (complete s h i b j) (<[t := advance Served r]> R).
Proof.
  intros I Hin C. destruct (vi_idx s R I) as (Ha & Hu & Hs & Hn). pose proof (vi_len s R I) as (L1 & L2 & L3 & L4 & L5 & L6 & L7).
  pose proof Hin as Hin'. apply (vi_taken s R I) in Hin' as (t & r & Hr & <- & Hp). exists t, r.
  pose proof (vi_req s R I t r Hr) as O. destruct (chain_request s r i b j O C) as (-> & -> & ->). do 5 (split; [done|]).
  pose proof (request_inj s R I t) as Hinj. pose proof (head_idx s r O) as Hh.
  destruct (transfer_frame s (a_h r) (a_b r)) as (T1 & T2 & T3 & T4 & T5 & T6 & T7 & T8 & T9 & T10 & T11 & T12 & T13 & T14).
  apply (vinv_advance s _ R I); [|done|..].
  - unfold complete. split; simpl; rewrite ?length_insert, ?T1, ?T2, ?T4, ?T8, ?T9, ?T10; try done.
    + unfold owners. simpl. by rewrite T13.
    + intros c Hc. by apply (transfer_ok s).
    + by rewrite T13.
  - pose proof (wrap_bound 16 (v_used_idx s + 1)). simpl. rewrite T3, T5, T7, T11. lia.
  - simpl. rewrite T13. exact (threads_advance s R t r Served I Hr ltac:(done)).
  - intros t' r' Hne E'. pose proof (vi_req s R I t' r' E') as O'. apply (req_ok_same s); try done; simpl.
    + intros x _. apply (complete_view s).
    + apply (complete_view s _ _ _ _ 0).
    + apply (complete_view s _ _ _ _ 0).
    + apply transfer_bufs.
    + unfold status_at at 1. simpl. rewrite T9, status_at_insert; [|done..|by apply (head_idx s)].
      destruct (Z.eqb_spec (a_h r') (a_h r)) as [E|]; [|done]. by destruct Hne; apply (Hinj t' r r').
    + apply transfer_bufs.
  - apply (req_ok_frame s); try done; simpl.
    + intros x _. apply (complete_view s).
    + apply (complete_view s _ _ _ _ 0).
    + apply (complete_view s _ _ _ _ 0).
    + apply transfer_bufs.
    + unfold status_at at 1. simpl. rewrite T9, status_at_insert by done. by rewrite Z.eqb_refl.
    + rewrite (proj2 (transfer_bufs _ _ _ _)), (ro_disk _ _ O). by rewrite Hp.
  - unfold published. simpl. rewrite T2, T3, T11. apply (heads_same R t r Served Hr); [done|congruence|apply (vi_avail s R I)].
  - simpl. rewrite T12. rewrite <- Hp. apply (heads_leave R t r Served Hr ltac:(congruence) (λ t' r' E', Hinj t' r r' Hr E') (v_taken s)).
    + apply filter_out; [apply (vi_taken s R I)|done].
    + rewrite Hp. apply (vi_taken s R I).
  - simpl. rewrite T4, T5, T7. rewrite queue_push; [|done|].
    + by apply (heads_join R t r Served Hr ltac:(congruence) (λ t' r' E', Hinj t' r r' Hr E') (served s)), (vi_used s R I).
    + apply (ring_room s R I Served _ _ _ (a_h r) (vi_used s R I) Hh). rewrite (proj2 (vi_used s R I)). intros (t' & r' & E' & Eh & Ep).
      pose proof (Hinj t' r r' Hr E' Eh) as ->. congruence.
  - apply (at_ok_advance s); (done || congruence).
Qed.

(** ** The interrupt handler *)

Definition ack (b : Z) (s : vst) : vst :=
  set_vseen (u16 (v_seen s + 1)) (set_vthreads (awake_buf b <$> v_threads s) (set_vbufs (Bio.upd b (set_bdisk 0) (v_bufs s)) s)).

Lemma thread_ok_awake t b r : thread_ok t r → thread_ok (awake_buf b <$> t) r.
Proof.
  destruct t as [[b' w a|b' w h a]|], r as [r|]; simpl; try done. intros (? & ? & ? & Ha). split_and!; try done.
  intros E. rewrite (Ha E). by destruct (_ =? _).
Qed.

Lemma ack_frame s b : frame s (ack b s).
Proof.
  split; try done.
  - unfold owners. simpl. rewrite <- map_fmap_compose. apply map_fmap_ext. by intros _ [] _.
  - intros c [Hs Hb]. split; [by apply is_Some_upd|]. simpl. rewrite buf_at_upd. by case_decide; subst.
  - simpl. intros t c w. rewrite lookup_fmap. by destruct (v_threads s !! t) as [[]|].
Qed.

Lemma ack_alpha s b : is_Some (v_bufs s !! b) → alpha (ack b s) = alpha s.
Proof.
  intros [x E]. unfold alpha. f_equal; simpl.
  - rewrite <- map_fmap_compose. apply map_fmap_ext. by intros _ [] _.
  - unfold Bio.upd, buf_at. rewrite E, fmap_insert. simpl. apply insert_id. rewrite lookup_fmap, E. done.
Qed.

Lemma ack_spec s R : vinv s R → no_writer (io_at (v_io s)) → v_seen s ≠ v_used_idx s →
  ∃ t r, R !! t = Some r ∧ a_h r = ring_at NUM (v_used s) (v_seen s) ∧ a_ph r = Served ∧ vinv (ack (a_b r) s) (<[t := advance Acked r]> R).
Proof.
  intros I Hw Hne. destruct (vi_idx s R I) as (Ha & Hu & Hs & Hn).
  pose proof (queue_pop (v_used s) (v_used_idx s) (v_seen s) Hu Hs Hne) as E. set (h := ring_at _ _ _) in *.
  assert (h ∈ served s) as Hin by (rewrite E; by left). apply (vi_used s R I) in Hin as (t & r & Hr & Hh & Hp).
  exists t, r. do 3 (split; [done|]). pose proof (vi_req s R I t r Hr) as O. pose proof (request_inj s R I t) as Hinj.
  apply (vinv_advance s _ R I); [apply ack_frame|done|..].
  - pose proof (wrap_bound 16 (v_seen s + 1)). simpl. lia.
  - intros t'. simpl. rewrite lookup_fmap. destruct (decide (t' = t)) as [->|Hne'].
    + rewrite lookup_insert_eq. destruct (request_thread s R I t r Hr) as (a & -> & _). simpl. by rewrite Z.eqb_refl.
    + rewrite lookup_insert_ne by done. apply thread_ok_awake, (vi_thread s R I).
  - intros t' r' Hne' E'. pose proof (request_bufs s R I t t' r r' Hr E' Hne') as Hb.
    by apply (req_ok_same s); [apply (vi_req s R I t')|..]; try done; simpl; rewrite buf_at_upd_ne.
  - apply (req_ok_frame s); try done; simpl.
    + by rewrite buf_at_upd_eq.
    + pose proof (ro_status _ _ O) as S. unfold finished in S. by rewrite Hp in S.
    + by rewrite buf_at_upd_eq.
  - apply (heads_same R t r Acked Hr); [done|congruence|apply (vi_avail s R I)].
  - apply (heads_same R t r Acked Hr); [done|congruence|apply (vi_taken s R I)].
  - rewrite <- Hp. apply (heads_leave R t r Acked Hr ltac:(congruence) (λ t' r' E', Hinj t' r r' Hr E') (served s)).
    + rewrite Hh. simpl. by rewrite <- E.
    + rewrite Hp. apply (vi_used s R I).
  - apply at_ok_none; [done|]. intros t' r' E' Ep'. apply lookup_insert_Some in E' as [[<- <-]|[_ E']]; [done|]. by apply (at_none s R I (no_writer_publishing _ Hw) t' r').
Qed.

(** The lock and the registers change hands. *)
Lemma vinv_io s R x : vinv s R → io_at x = io_at (v_io s) ∨ (no_writer (io_at x) ∧ publishing (io_at (v_io s)) = false) → vinv (set_vio x s) R.
Proof.
  intros I Hx. assert (at_ok (set_vio x s) R) as A.
  { destruct Hx as [E|[H1 H2]]; [|apply at_ok_none; [done|by apply (at_none s R I)]]. unfold at_ok. simpl. rewrite E. apply (vi_at s R I). }
  destruct I as [I1 I2 I3 I4 I5 I6 I7 I8 I9 I10 I11 I12 I13 I14]. split; try done.
  intros t r E. by apply (req_ok_same s); [apply (I7 t)|..].
Qed.

Lemma intr_turn_spec s R : vinv s R → io_at (v_io s) = AtLoop →
  wp intr_turn (λ more s', (∃ R', vinv s' R') ∧ alpha s' = alpha s ∧ v_used_idx s' = v_used_idx s ∧ v_next s' = v_next s ∧ v_avail_idx s' = v_avail_idx s ∧
    if (more : bool) then v_io s' = v_io s ∧ v_seen s ≠ v_used_idx s ∧ v_seen s' = u16 (v_seen s + 1)
    else s' = set_vio (io_goto Unlocked (v_io s)) s ∧ v_seen s = v_used_idx s) s.
Proof.
  intros I Hl. unfold intr_turn. apply wp_bind, wp_getS. destruct (Z.eqb_spec (v_seen s) (v_used_idx s)) as [E|Hne].
  - apply wp_bind, wp_modify, wp_ret. split_and!; try done. exists R. apply vinv_io; [done|]. right. by rewrite Hl.
  - destruct (ack_spec s R I ltac:(by rewrite Hl) Hne) as (t & r & Hr & Hh & Hp & I'). pose proof (vi_req s R I t r Hr) as O. unfold ring_at in Hh. rewrite <- Hh.
    rewrite (ro_status _ _ O), (ro_info _ _ O). unfold finished. rewrite Hp. simpl.
    apply wp_bind, wp_modify, wp_bind, wp_modify, wp_bind, wp_modify, wp_ret. split; [by eexists|]. split_and!; try done.
    apply (ack_alpha s), (proj2 (request_buf s R I t r Hr)).
Qed.

Lemma intr_loop_spec fuel s R : vinv s R → io_at (v_io s) = AtLoop → ahead 16 (v_used_idx s) (v_seen s) < Z.of_nat fuel →
  wp (intr_loop fuel) (λ _ s', (∃ R', vinv s' R') ∧ v_seen s' = v_used_idx s' ∧ io_at (v_io s') = Unlocked ∧ alpha s' = alpha s) s.
Proof.
  revert s R. induction fuel as [|fuel IH]; intros s R I Hl Hf.
  { pose proof (wrap_bound 16 (v_used_idx s - v_seen s) ltac:(lia)). unfold ahead in Hf. lia. }
  simpl. eapply wp_step; [by apply (intr_turn_spec s R)|]. intros [] s1 ([R1 I1] & Ea & Eu & _ & _ & H).
  - destruct H as (Eio & Hne & Es). eapply wp_mono; [apply (IH s1 R1 I1); [by rewrite Eio|]|].
    + destruct (vi_idx s R I) as (_ & Hu & Hs & _). rewrite Eu, Es.
      pose proof (wrap_bound 16 (v_used_idx s - v_seen s) ltac:(lia)). assert (ahead 16 (v_used_idx s) (v_seen s) ≠ 0) by (rewrite ahead_zero; [done|lia..]).
      rewrite ahead_pop; unfold ahead in *; lia.
    + intros _ s' (HR & Hs & Hu & Ha). by rewrite Ha.
  - destruct H as [-> E]. apply wp_ret. split; [by exists R1|done].
Qed.

Lemma virtio_disk_intr_spec s R : vinv s R → io_at (v_io s) = Unlocked →
  wp virtio_disk_intr (λ _ s', (∃ R', vinv s' R') ∧ v_seen s' = v_used_idx s' ∧ io_at (v_io s') = Unlocked ∧ alpha s' = alpha s) s.
Proof.
  intros I Hl. unfold virtio_disk_intr. apply wp_bind, wp_modify, wp_bind. unfold intr_status. apply wp_bind, wp_gets, wp_bind, wp_modify, wp_ret.
  apply wp_bind, wp_modify.
  pose (y := mkIo (Z.ldiff (io_status (v_io s)) (Z.land (io_status (v_io s)) 3)) (io_owes (v_io s)) (io_notified (v_io s)) AtLoop).
  match goal with |- wp ?m ?Q _ => change (wp m Q (set_vio y s)) end.
  assert (vinv (set_vio y s) R) as I' by (apply vinv_io; [done|right; by rewrite Hl]).
  eapply wp_mono; [apply (intr_loop_spec _ (set_vio y s) R I'); [done|]|done].
  pose proof (ring_bound _ R I' Served _ _ _ (vi_used _ R I')). unfold NUM. lia.
Qed.

(** What tells the driver and the device of each other's work. *)
Definition same_signals (s s' : vst) : Prop :=
  v_seen s' = v_seen s ∧ v_used_idx s' = v_used_idx s ∧ v_next s' = v_next s ∧ v_avail_idx s' = v_avail_idx s ∧
  io_status (v_io s') = io_status (v_io s) ∧ io_owes (v_io s') = io_owes (v_io s) ∧ io_notified (v_io s') = io_notified (v_io s).

(** ** Waiting for descriptors *)

(** Who sleeps does not matter to the abstract system. *)
Definition strip (t : thread) : thread :=
  match t with WantDesc b w _ => WantDesc b w false | Waiting b w h _ => Waiting b w h false end.

Lemma strip_owners s s' : strip <$> v_threads s' = strip <$> v_threads s → owners s' = owners s.
Proof.
  intros E. assert (∀ T : gmap Z thread, buf_of <$> T = buf_of <$> (strip <$> T)) as X.
  { intros T. rewrite <- map_fmap_compose. apply map_fmap_ext. by intros _ [] _. }
  unfold owners. by rewrite (X (v_threads s)), (X (v_threads s')), E.
Qed.

Lemma strip_pc s (T T' : gmap Z thread) : strip <$> T' = strip <$> T → thread_pc s <$> T' = thread_pc s <$> T.
Proof.
  intros E. assert (∀ T : gmap Z thread, thread_pc s <$> T = thread_pc s <$> (strip <$> T)) as X.
  { intros U. rewrite <- map_fmap_compose. apply map_fmap_ext. by intros _ [] _. }
  by rewrite (X T), (X T'), E.
Qed.

Lemma strip_awake (T : gmap Z thread) : strip <$> (awake_desc <$> T) = strip <$> T.
Proof. rewrite <- map_fmap_compose. apply map_fmap_ext. by intros _ [] _. Qed.

Lemma strip_insert (T : gmap Z thread) t x y : T !! t = Some x → strip y = strip x → strip <$> <[t := y]> T = strip <$> T.
Proof. intros E Es. rewrite fmap_insert, Es. apply insert_id. by rewrite lookup_fmap, E. Qed.

Lemma thread_ok_awake_desc t r : thread_ok t r → thread_ok (awake_desc <$> t) r.
Proof. by destruct t as [[]|]. Qed.

Lemma want_request s R t b w a : vinv s R → v_threads s !! t = Some (WantDesc b w a) → R !! t = None ∧ buf_ok s b ∧ owners s !! t = Some b.
Proof.
  intros I E. pose proof (vi_thread s R I t) as T. rewrite E in T. destruct (R !! t) as [r|]; [done|].
  assert (owners s !! t = Some b) as O by (unfold owners; by rewrite lookup_fmap, E). split; [done|]. split; [by apply (vi_buf s R I t)|done].
Qed.

(** Only the processes' sleeping changes, and descriptors nobody uses. *)
Lemma vinv_threads s R D T : vinv s R → length D = 8%nat → (∀ i, idx i → is_free s i = false → nth (Z.to_nat i) D desc0 = desc_at s i) →
  strip <$> T = strip <$> v_threads s → (∀ t, thread_ok (T !! t) (R !! t)) →
  (∀ t b w, T !! t = Some (WantDesc b w true) → ¬ three_free s) → no_writer (io_at (v_io s)) → vinv (set_vthreads T (set_vdesc D s)) R.
Proof.
  intros I HD Hd HT Ht Hs Hw. pose proof (strip_owners s (set_vthreads T (set_vdesc D s)) HT) as O.
  destruct (vi_len s R I) as (? & ? & ? & ? & ? & ? & ?). split; try done; try apply I.
  - intros t b E. rewrite O in E. by apply (vi_buf s R I t).
  - rewrite O. apply (vi_inj s R I).
  - intros t r E. pose proof (vi_req s R I t r E) as Q. apply (req_ok_same s); try done.
    intros i Hi. split; [done|]. apply Hd; [by apply (proj1 (Forall_forall _ _) (ro_range _ _ Q))|by apply (proj1 (Forall_forall _ _) (ro_busy _ _ Q))].
  - apply at_ok_none; [done|]. exact (at_none s R I (no_writer_publishing _ Hw)).
Qed.

Lemma strip_alpha s D T : strip <$> T = strip <$> v_threads s → alpha (set_vthreads T (set_vdesc D s)) = alpha s.
Proof. intros E. unfold alpha. simpl. f_equal. exact (strip_pc s (v_threads s) T E). Qed.

Lemma try_again s s1 R t b w : vinv s R → no_writer (io_at (v_io s)) → v_threads s !! t = Some (WantDesc b w false) → ¬ three_free s → given_back s s1 →
  vinv (set_vthreads (<[t := WantDesc b w true]> (v_threads s1)) s1) R ∧
  alpha (set_vthreads (<[t := WantDesc b w true]> (v_threads s1)) s1) = alpha s.
Proof.
  intros I Hw Et H3 [Gd Gl Gf Gt Gr]. destruct (want_request s R t b w false I Et) as (Er & _). rewrite Gr.
  set (T := v_threads s1) in *. set (D := v_desc s1) in *.
  change (set_vthreads ?x (set_vthreads T (set_vdesc D s))) with (set_vthreads x (set_vdesc D s)).
  change (v_threads (set_vthreads T (set_vdesc D s))) with T.
  assert (strip <$> <[t := WantDesc b w true]> T = strip <$> v_threads s) as ES.
  { destruct Gt as [->| ->]; [by apply (strip_insert _ t (WantDesc b w false))|].
    rewrite (strip_insert _ t (WantDesc b w false)); [apply strip_awake|by rewrite lookup_fmap, Et|done]. }
  split; [|by apply strip_alpha]. apply vinv_threads; try done.
  - rewrite Gl. apply I.
  - intros t'. destruct (decide (t' = t)) as [->|Hne]; [by rewrite lookup_insert_eq, Er|]. rewrite lookup_insert_ne by done.
    destruct Gt as [->| ->]; [|rewrite lookup_fmap; apply thread_ok_awake_desc]; apply (vi_thread s R I).
Qed.

(** ** Submitting a request *)

Lemma nth_update3 {A} (l : list A) a b c x1 x2 x3 y d : length l = 8%nat → idx a → idx b → idx c → idx y →
  nth (Z.to_nat y) (<[Z.to_nat c := x3]> (<[Z.to_nat b := x2]> (<[Z.to_nat a := x1]> l))) d =
  if y =? c then x3 else if y =? b then x2 else if y =? a then x1 else nth (Z.to_nat y) l d.
Proof. intros. rewrite !nth_update by (rewrite ?length_insert; unfold NUM in *; lia). done. Qed.

(** What [rw_try] leaves when it finds descriptors for the request [r]. *)
Definition submitted (t : Z) (r : areq) (s : vst) : vst :=
  mkV (<[Z.to_nat (a_2 r) := mkDesc (TStatus (a_h r)) 1 VRING_DESC_F_WRITE 0]>
        (<[Z.to_nat (a_1 r) := mkDesc (TData (a_b r)) BSIZE (Z.lor (if a_w r then 0 else VRING_DESC_F_WRITE) VRING_DESC_F_NEXT) (a_2 r)]>
          (<[Z.to_nat (a_h r) := mkDesc (TOps (a_h r)) 16 VRING_DESC_F_NEXT (a_1 r)]> (v_desc s))))
      (<[Z.to_nat (v_avail_idx s mod NUM) := a_h r]> (v_avail s)) (v_avail_idx s) (v_used s) (v_used_idx s)
      (<[Z.to_nat (a_2 r) := false]> (<[Z.to_nat (a_1 r) := false]> (<[Z.to_nat (a_h r) := false]> (v_free s))))
      (v_seen s) (<[Z.to_nat (a_h r) := Some (a_b r)]> (v_info s)) (<[Z.to_nat (a_h r) := 0xff]> (v_status s))
      (<[Z.to_nat (a_h r) := mkReq (if a_w r then VIRTIO_BLK_T_OUT else VIRTIO_BLK_T_IN) 0 (b_blockno (buf_at (v_bufs s) (a_b r)) * 2)]> (v_ops s))
      (Bio.upd (a_b r) (set_bdisk 1) (v_bufs s)) (v_disk s) (v_next s) (v_taken s)
      (<[t := Waiting (a_b r) (a_w r) (a_h r) false]> (v_threads s)) (io_goto (AtPublish t (a_b r) (a_w r) (a_h r)) (v_io s)).

Section Submit.
Context (s : vst) (R : gmap Z areq) (I : vinv s R) (t b : Z) (w : bool) (i0 i1 i2 : Z).
Hypotheses (Et : v_threads s !! t = Some (WantDesc b w false)) (Hn : NoDup [i0; i1; i2])
  (Hf : Forall (λ x, idx x ∧ is_free s x = true) [i0; i1; i2]) (Hw : no_writer (io_at (v_io s))).
Abbreviation r := (mkA b w i0 i1 i2 Written).
Abbreviation s' := (submitted t r s).

Lemma distinct3 : i0 ≠ i1 ∧ i0 ≠ i2 ∧ i1 ≠ i2.
Proof. apply NoDup_cons in Hn as [H1 H2]. apply NoDup_cons in H2 as [H2 _]. set_solver. Qed.

Lemma free3 : (idx i0 ∧ idx i1 ∧ idx i2) ∧ is_free s i0 = true ∧ is_free s i1 = true ∧ is_free s i2 = true.
Proof. rewrite !Forall_cons in Hf. naive_solver. Qed.

Lemma submit_free x : idx x → is_free s' x = if decide (x ∈ chain r) then false else is_free s x.
Proof.
  intros Hx. destruct free3 as [(? & ? & ?) _]. unfold is_free. simpl. rewrite nth_update3 by (done || apply I).
  unfold chain. simpl. destruct (Z.eqb_spec x i2), (Z.eqb_spec x i1), (Z.eqb_spec x i0), (decide (x ∈ [i0; i1; i2])); set_solver.
Qed.

Lemma busy_chain x : x ∈ chain r → is_free s x = true ∧ idx x.
Proof. intros Hx. unfold chain in Hx. simpl in Hx. by apply (proj1 (Forall_forall _ _) Hf) in Hx as [? ?]. Qed.

(** The requests under way use none of the three. *)
Lemma submit_apart t' r' x : R !! t' = Some r' → x ∈ chain r' → (x ∉ chain r) ∧ idx x.
Proof.
  intros E Hx. pose proof (vi_req s R I t' r' E) as O. pose proof (proj1 (Forall_forall _ _) (ro_busy _ _ O) x Hx) as F. simpl in F.
  split; [|by apply (proj1 (Forall_forall _ _) (ro_range _ _ O))]. intros H. apply busy_chain in H as [H _]. congruence.
Qed.

Lemma submit_desc x : idx x → x ∉ chain r → desc_at s' x = desc_at s x.
Proof.
  intros Hx Hni. destruct free3 as [(? & ? & ?) _]. unfold desc_at. simpl. rewrite nth_update3 by (done || apply I). unfold chain in Hni. simpl in Hni.
  destruct (Z.eqb_spec x i2), (Z.eqb_spec x i1), (Z.eqb_spec x i0); set_solver.
Qed.

Lemma submit_other t' r' : R !! t' = Some r' → req_ok s' r'.
Proof.
  intros E. destruct free3 as [(H0 & H1 & H2) _]. pose proof (vi_req s R I t' r' E) as O. pose proof (head_idx s r' O) as Hh.
  destruct (vi_len s R I) as (? & ? & ? & ? & ? & ? & ?).
  assert (a_h r' ≠ i0) as Hne. { intros Eh. apply (proj1 (submit_apart t' r' (a_h r') E ltac:(by left))). rewrite Eh. by left. }
  assert (b ≠ a_b r') as Hb.
  { destruct (want_request s R t b w false I Et) as (Er & _ & Ow). intros ->. destruct (request_buf s R I t' r' E) as [Ow' _].
    rewrite (vi_inj s R I t t' _ Ow Ow') in Er. congruence. }
  apply (req_ok_same s); try done.
  - intros x Hx. destruct (submit_apart t' r' x E Hx) as [Hni Hi]. rewrite submit_free by done. rewrite decide_False by done. split; [done|by apply submit_desc].
  - unfold ops_at. simpl. rewrite nth_update by (unfold NUM in *; lia). by rewrite (proj2 (Z.eqb_neq _ _)).
  - unfold info_at. simpl. rewrite nth_update by (unfold NUM in *; lia). by rewrite (proj2 (Z.eqb_neq _ _)).
  - simpl. by rewrite buf_at_upd_ne.
  - unfold status_at. simpl. rewrite nth_update by (unfold NUM in *; lia). by rewrite (proj2 (Z.eqb_neq _ _)).
  - simpl. by rewrite buf_at_upd_ne.
Qed.

Lemma submit_new : req_ok s' r.
Proof.
  destruct free3 as [(H0 & H1 & H2) _]. destruct distinct3 as (? & ? & ?). destruct (vi_len s R I) as (? & ? & ? & ? & ? & ? & ?).
  assert (∀ x, x ∈ chain r → idx x) as Hc by (intros; by apply busy_chain). split; simpl; try done.
  - by apply Forall_forall.
  - apply Forall_forall. intros x Hx. rewrite submit_free by (by apply Hc). by rewrite decide_True.
  - unfold desc_at. simpl. rewrite nth_update3 by done. by rewrite (proj2 (Z.eqb_neq _ _)), (proj2 (Z.eqb_neq _ _)), Z.eqb_refl.
  - unfold desc_at. simpl. rewrite nth_update3 by done. by rewrite (proj2 (Z.eqb_neq _ _)), Z.eqb_refl.
  - unfold desc_at. simpl. rewrite nth_update3 by done. by rewrite Z.eqb_refl.
  - unfold ops_at. simpl. rewrite nth_update by (unfold NUM in *; lia). by rewrite Z.eqb_refl, buf_at_upd_eq.
  - unfold info_at. simpl. rewrite nth_update by (unfold NUM in *; lia). by rewrite Z.eqb_refl.
  - unfold status_at. simpl. rewrite nth_update by (unfold NUM in *; lia). by rewrite Z.eqb_refl.
  - by rewrite buf_at_upd_eq.
Qed.

Lemma submit_avail : published s' = published s ∧ ring_at NUM (v_avail s') (v_avail_idx s') = i0.
Proof.
  split.
  - unfold published. simpl. apply queue_store; [apply I|]. destruct free3 as [(H0 & _) (F0 & _)].
    apply (ring_room s R I Queued _ _ _ i0 (vi_avail s R I) H0). intros Hin. apply (vi_avail s R I) in Hin as (t' & r' & E & Eh & _).
    destruct (submit_apart t' r' (a_h r') E ltac:(by left)) as [Hni _]. apply Hni. rewrite Eh. by left.
  - destruct (vi_len s R I) as (_ & L & _). unfold ring_at. simpl. pose proof (Z.mod_pos_bound (v_avail_idx s) NUM ltac:(done)).
    rewrite nth_update by (unfold NUM in *; lia). by rewrite Z.eqb_refl.
Qed.

Lemma submit_owners : owners s' = owners s.
Proof. unfold owners. simpl. rewrite fmap_insert. apply insert_id. by rewrite lookup_fmap, Et. Qed.

Lemma submit_bufs c : buf_ok s c → buf_ok s' c.
Proof. intros [Hs Hb]. split; [by apply is_Some_upd|]. simpl. rewrite buf_at_upd. by case_decide; subst. Qed.

Lemma submit_chains t1 t2 r1 r2 x : <[t := r]> R !! t1 = Some r1 → <[t := r]> R !! t2 = Some r2 → t1 ≠ t2 → x ∈ chain r1 → x ∉ chain r2.
Proof.
  intros E1 E2 Hne Hx. apply lookup_insert_Some in E1 as [[<- <-]|[N1 E1]], E2 as [[<- <-]|[N2 E2]]; [done| | |].
  - intros Hx'. by destruct (submit_apart t2 r2 x E2 Hx') as [? _].
  - by destruct (submit_apart t1 r1 x E1 Hx) as [? _].
  - by apply (vi_sep s R I t1 t2 r1 r2).
Qed.

Lemma submit_vinv : vinv s' (<[t := r]> R).
Proof.
  destruct (want_request s R t b w false I Et) as (Er & Bo & Ow). destruct (vi_len s R I) as (? & ? & ? & ? & ? & ? & ?). destruct (vi_idx s R I) as (? & ? & ? & ?).
  assert (∀ t' r', R !! t' = Some r' → a_h r' ≠ i0) as Hh.
  { intros t' r' E Eh. apply (proj1 (submit_apart t' r' (a_h r') E ltac:(by left))). rewrite Eh. by left. }
  split.
  - simpl. by rewrite !length_insert.
  - simpl. lia.
  - apply (vi_size s R I).
  - intros t'. simpl. destruct (decide (t' = t)) as [->|Hne]; [by rewrite !lookup_insert_eq|]. rewrite !lookup_insert_ne by done. apply (vi_thread s R I).
  - rewrite submit_owners. intros t' c E. by apply submit_bufs, (vi_buf s R I t').
  - rewrite submit_owners. apply (vi_inj s R I).
  - intros t' r' E. apply lookup_insert_Some in E as [[<- <-]|[_ E]]; [apply submit_new|by apply (submit_other t')].
  - apply submit_chains.
  - intros x Hx. rewrite submit_free by done. case_decide as Hc; [intros _; exists t, r; by rewrite lookup_insert_eq|].
    intros F. destruct (vi_free s R I x Hx F) as (t' & r' & E & Hin). exists t', r'. rewrite lookup_insert_ne; [done|congruence].
  - rewrite (proj1 submit_avail). by apply heads_fresh_other, (vi_avail s R I).
  - by apply heads_fresh_other, (vi_taken s R I).
  - by apply heads_fresh_other, (vi_used s R I).
  - simpl. intros t' c v E. apply lookup_insert_Some in E as [[_ ?]|[_ E]]; [done|]. intros (x & y & z & Hd & F).
    apply (vi_sleep s R I t' c v E). exists x, y, z. split; [done|]. eapply Forall_impl; [done|]. simpl. intros u [Hu Fu]. split; [done|].
    rewrite submit_free in Fu by done. by case_decide.
  - split; simpl.
    + intros t' r' E Ep. apply lookup_insert_Some in E as [[<- <-]|[_ E]]; [done|]. by destruct (at_none s R I (no_writer_publishing _ Hw) t' r' E).
    + split; [apply submit_avail|]. split; [by rewrite lookup_insert_eq|]. exists r. by rewrite lookup_insert_eq.
Qed.

Lemma submit_alpha : alpha s' = alpha s.
Proof.
  destruct (want_request s R t b w false I Et) as (Er & [[x Ex] _] & Ow). destruct free3 as [(H0 & _) _]. unfold alpha. f_equal; simpl.
  - rewrite fmap_insert. simpl. unfold status_at. simpl. rewrite nth_update by (destruct (vi_len s R I) as (? & ? & ? & ? & ? & ? & ?); unfold NUM in *; lia).
    rewrite Z.eqb_refl. simpl. apply map_eq. intros t'. destruct (decide (t' = t)) as [->|Hne]; [by rewrite lookup_insert_eq, lookup_fmap, Et|].
    rewrite lookup_insert_ne, !lookup_fmap by done. destruct (v_threads s !! t') as [[c v a|c v h a]|] eqn:E'; [done| |done]. simpl. do 2 f_equal.
    destruct (waiting_request s R I t' c v h a E') as (r' & E & _ & _ & <- & _). pose proof (submit_other t' r' E) as O'.
    by rewrite (ro_status _ _ O'), (ro_status _ _ (vi_req s R I t' r' E)).
  - unfold Bio.upd, buf_at. rewrite Ex, fmap_insert. simpl. apply insert_id. by rewrite lookup_fmap, Ex.
Qed.
End Submit.

Lemma format_spec s R t b w i0 i1 i2 f : vinv s R → buf_ok s b →
  wp (format b w i0 i1 i2 ;; set_thread t (Waiting b w i0 false) ;; goto (AtPublish t b w i0))
     (λ _ s', s' = set_vfree f (submitted t (mkA b w i0 i1 i2 Written) s)) (set_vfree f s).
Proof.
  intros I [_ Hb]. pose proof (vi_size s R I). unfold format. apply wp_bind, wp_bind, wp_gets. do 7 apply wp_bind, wp_modify. apply wp_modify, wp_bind, wp_modify, wp_modify.
  simpl. rewrite (wrap_small 32) by lia. done.
Qed.

Lemma rw_try_spec s R t b w : vinv s R → io_at (v_io s) = Unlocked → v_threads s !! t = Some (WantDesc b w false) →
  wp (rw_try t b w) (λ _ s', (∃ R', vinv s' R') ∧ alpha s' = alpha s ∧ same_signals s s') s.
Proof.
  intros I Hl Et. assert (no_writer (io_at (v_io s))) as Hw by (by rewrite Hl).
  destruct (want_request s R t b w false I Et) as (_ & Bo & _). destruct (vi_len s R I) as (? & ? & ? & ? & ? & ? & ?).
  unfold rw_try. eapply wp_step; [by apply alloc3_desc_spec|]. intros [[[i j] k]|] s1 Hs1.
  - destruct Hs1 as (Hn & Hf & ->). eapply wp_mono; [by apply (format_spec s R)|]. intros _ s' ->.
    pose proof (submit_vinv s R I t b w i j k Et Hn Hf Hw) as I'. split; [by eexists|]. split; [exact (submit_alpha s R I t b w i j k Et Hn Hf Hw)|done].
  - destruct Hs1 as [Hno G]. apply wp_modify. destruct (try_again s s1 R t b w I Hw Et Hno G) as [I' Ha]. split; [by exists R|]. split; [done|].
    unfold same_signals. simpl. by rewrite (gb_rest _ _ G).
Qed.

(** [avail->idx] takes the entry in. *)
Lemma rw_publish_spec s R t b w h : vinv s R → io_at (v_io s) = AtPublish t b w h →
  wp (rw_publish t b w h) (λ _ s', (∃ R', vinv s' R') ∧ alpha s' = alpha s) s.
Proof.
  intros I Hl. apply wp_bind, wp_modify, wp_modify. split; [|done]. destruct (vi_at s R I) as [A B]. rewrite Hl in B. destruct B as (Eh & Et & r & Hr & Hp).
  pose proof (A t r Hr Hp) as E. rewrite Hl in E. injection E as Eb Ew Ehr. pose proof (vi_req s R I t r Hr) as O.
  destruct (vi_idx s R I) as (Ha & Hu & Hs & Hn). destruct (vi_len s R I) as (_ & La & _). pose proof (request_inj s R I t) as Hinj.
  exists (<[t := advance Queued r]> R). apply (vinv_advance s _ R I); [done..| | | | | | | |].
  - pose proof (wrap_bound 16 (v_avail_idx s + 1)). simpl. lia.
  - exact (threads_advance s R t r Queued I Hr ltac:(done)).
  - intros t' r' _ E'. by apply (req_ok_same s); [apply (vi_req s R I t')|..].
  - apply (req_ok_frame s); try done.
    + pose proof (ro_status _ _ O) as S. unfold finished in S. by rewrite Hp in S.
    + pose proof (ro_disk _ _ O) as D. by rewrite Hp in D.
  - unfold published. simpl. rewrite queue_publish, Eh; [|done|].
    + apply (heads_join R t r Queued Hr ltac:(congruence) (λ t' r' E', Hinj t' r r' Hr E') (published s)); [by rewrite Ehr|apply (vi_avail s R I)].
    + apply (ring_room s R I Queued _ _ _ (a_h r) (vi_avail s R I) (head_idx s r O)). rewrite (proj2 (vi_avail s R I)). intros (t' & r' & E' & Er & Ep).
      pose proof (Hinj t' r r' Hr E' Er) as ->. congruence.
  - apply (heads_same R t r Queued Hr); [done|congruence|apply (vi_taken s R I)].
  - apply (heads_same R t r Queued Hr); [done|congruence|apply (vi_used s R I)].
  - split; simpl; [|done]. intros t' r' E' Ep. apply lookup_insert_Some in E' as [[<- <-]|[Hne E']]; [done|].
    pose proof (A t' r' E' Ep) as X. rewrite Hl in X. by injection X as ->.
Qed.

(** A process that is not done goes to sleep. *)
Lemma again_vinv s R t b w h : vinv s R → no_writer (io_at (v_io s)) → v_threads s !! t = Some (Waiting b w h false) → b_disk (buf_at (v_bufs s) b) = 1 →
  vinv (set_vthreads (<[t := Waiting b w h true]> (v_threads s)) s) R ∧ alpha (set_vthreads (<[t := Waiting b w h true]> (v_threads s)) s) = alpha s.
Proof.
  intros I Hw Et Hd. assert (strip <$> <[t := Waiting b w h true]> (v_threads s) = strip <$> v_threads s) as ES.
  { by apply (strip_insert _ t (Waiting b w h false)). }
  destruct (waiting_request s R I t b w h false Et) as (r & Hr & Eb & Ew & Eh & _).
  change (set_vthreads ?x s) with (set_vthreads x (set_vdesc (v_desc s) s)). split; [|by apply strip_alpha].
  apply vinv_threads; try done; [apply I| |].
  - intros t'. destruct (decide (t' = t)) as [->|Hne]; [|rewrite lookup_insert_ne by done; apply (vi_thread s R I)].
    rewrite lookup_insert_eq, Hr. do 3 (split; [done|]). intros Ep. pose proof (ro_disk _ _ (vi_req s R I t r Hr)) as D. rewrite Eb, Ep, Hd in D. done.
  - intros t' c v E. apply lookup_insert_Some in E as [[_ ?]|[_ E]]; [done|by apply (vi_sleep s R I t' c v)].
Qed.

Lemma rw_wait_spec s R t b w h : vinv s R → no_writer (io_at (v_io s)) → v_threads s !! t = Some (Waiting b w h false) →
  wp (rw_wait t b w h) (λ _ s', vinv s' R ∧ alpha s' = alpha s ∧ same_signals s s' ∧ v_io s' = v_io s) s.
Proof.
  intros I Hw Et. apply wp_bind, wp_gets. destruct (Z.eqb_spec (b_disk (buf_at (v_bufs s) b)) 1) as [Hd|_]; [|by apply wp_ret].
  apply wp_modify. by destruct (again_vinv s R t b w h I Hw Et Hd).
Qed.

Lemma rw_notify_spec s R t b w h : vinv s R → io_at (v_io s) = AtNotify t b w h →
  wp (rw_notify t b w h) (λ _ s', vinv s' R ∧ alpha s' = alpha s ∧ v_seen s' = v_seen s ∧ v_used_idx s' = v_used_idx s ∧
    v_io s' = mkIo (io_status (v_io s)) (io_owes (v_io s)) true Unlocked) s.
Proof.
  intros I Hl. destruct (vi_at s R I) as [_ Et]. rewrite Hl in Et. apply wp_bind, wp_modify. set (x := mkIo _ _ _ _).
  assert (vinv (set_vio (io_goto Unlocked x) s) R) as I' by (apply vinv_io; [done|right; by rewrite Hl]).
  pose proof (rw_wait_spec _ R t b w h I' ltac:(done) Et) as W. apply wp_bind. unfold wp, rw_wait, bind, gets, set_thread, modify, ret in *. simpl in *.
  destruct (_ =? 1); by destruct W as (? & ? & _).
Qed.

(** ** Returning *)

Definition released (t : Z) (r : areq) (s : vst) : vst :=
  set_vthreads (delete t (awake_desc <$> v_threads s))
    (set_vfree (<[Z.to_nat (a_2 r) := true]> (<[Z.to_nat (a_1 r) := true]> (<[Z.to_nat (a_h r) := true]> (v_free s))))
      (set_vdesc (<[Z.to_nat (a_2 r) := desc0]> (<[Z.to_nat (a_1 r) := desc0]> (<[Z.to_nat (a_h r) := desc0]> (v_desc s))))
        (set_vinfo (<[Z.to_nat (a_h r) := None]> (v_info s)) s))).

Definition freed (i : Z) (s : vst) : vst :=
  set_vthreads (awake_desc <$> v_threads s) (set_vfree (<[Z.to_nat i := true]> (v_free s)) (set_vdesc (<[Z.to_nat i := desc0]> (v_desc s)) s)).

Lemma free_chain_step fuel i s Q : idx i → is_free s i = false →
  (if truthy (Z.land (d_flags (desc_at s i)) VRING_DESC_F_NEXT) then wp (free_chain fuel (d_next (desc_at s i))) Q (freed i s) else Q tt (freed i s)) →
  wp (free_chain (S fuel) i) Q s.
Proof.
  intros Hi Hf HQ. simpl. apply wp_bind, wp_gets. eapply wp_step; [by apply free_desc_spec|]. intros _ ? ->. destruct (truthy _); [done|by apply wp_ret].
Qed.

Lemma freed_other i j s : length (v_free s) = 8%nat → length (v_desc s) = 8%nat → idx i → idx j → j ≠ i →
  is_free (freed i s) j = is_free s j ∧ desc_at (freed i s) j = desc_at s j.
Proof.
  intros Hf Hd Hi Hj Hne. unfold is_free, desc_at, freed. simpl. rewrite !nth_update by (unfold NUM in *; lia). by rewrite (proj2 (Z.eqb_neq _ _)).
Qed.

Section Release.
Context (s : vst) (R : gmap Z areq) (I : vinv s R) (t : Z) (r : areq).
Hypotheses (Hr : R !! t = Some r) (Hp : a_ph r = Acked) (Hw : no_writer (io_at (v_io s))).
Abbreviation s' := (released t r s).
Abbreviation O := (vi_req s R I t r Hr).

Lemma chain3 : (idx (a_h r) ∧ idx (a_1 r) ∧ idx (a_2 r)) ∧ (a_h r ≠ a_1 r ∧ a_h r ≠ a_2 r ∧ a_1 r ≠ a_2 r) ∧
  is_free s (a_h r) = false ∧ is_free s (a_1 r) = false ∧ is_free s (a_2 r) = false.
Proof.
  pose proof (ro_range _ _ O) as F. pose proof (ro_nodup _ _ O) as N. pose proof (ro_busy _ _ O) as B. unfold chain in *.
  rewrite !Forall_cons in F, B. apply NoDup_cons in N as [N1 N2]. apply NoDup_cons in N2 as [N2 _]. set_solver.
Qed.

Lemma free_chain_spec s0 : length (v_free s0) = 8%nat → length (v_desc s0) = 8%nat →
  (∀ i, is_free s0 i = is_free s i ∧ desc_at s0 i = desc_at s i) →
  wp (free_chain (Z.to_nat NUM) (a_h r)) (λ _ x, x = freed (a_2 r) (freed (a_1 r) (freed (a_h r) s0))) s0.
Proof.
  intros Lf Ld V0. destruct chain3 as ((H0 & H1 & H2) & (N0 & N1 & N2) & F0 & F1 & F2). change (Z.to_nat NUM) with 8%nat.
  apply free_chain_step; [done|by rewrite (proj1 (V0 _))|]. rewrite (proj2 (V0 _)), (ro_d0 _ _ O). cbn [truthy d_flags d_next].
  destruct (freed_other (a_h r) (a_1 r) s0) as [E1 D1]; [done..|]. destruct (freed_other (a_h r) (a_2 r) s0) as [E2 D2]; [done..|].
  apply free_chain_step; [done|by rewrite E1, (proj1 (V0 _))|]. rewrite D1, (proj2 (V0 _)), (ro_d1 _ _ O). cbn [d_flags d_next].
  replace (truthy _) with true by (by destruct (a_w r)).
  destruct (freed_other (a_1 r) (a_2 r) (freed (a_h r) s0)) as [E3 D3]; [(simpl; rewrite ?length_insert; done)..|].
  apply free_chain_step; [done|by rewrite E3, E2, (proj1 (V0 _))|]. by rewrite D3, D2, (proj2 (V0 _)), (ro_d2 _ _ O).
Qed.

Lemma rw_finish_eq : wp (rw_finish t (a_h r)) (λ _ x, x = s') s.
Proof.
  destruct (vi_len s R I) as (? & ? & ? & ? & ? & ? & ?). unfold rw_finish. apply wp_bind, wp_modify.
  eapply wp_step; [by apply free_chain_spec|]. intros _ ? ->. apply wp_modify. unfold freed, released. simpl. by rewrite !awake_twice.
Qed.

Lemma release_view x : idx x → is_free s' x = (if decide (x ∈ chain r) then true else is_free s x) ∧
  (x ∉ chain r → desc_at s' x = desc_at s x).
Proof.
  intros Hx. destruct chain3 as ((H0 & H1 & H2) & _). unfold is_free, desc_at. simpl. rewrite !nth_update3 by (done || apply I). unfold chain.
  destruct (Z.eqb_spec x (a_2 r)), (Z.eqb_spec x (a_1 r)), (Z.eqb_spec x (a_h r)), (decide (x ∈ [a_h r; a_1 r; a_2 r])); set_solver.
Qed.

Lemma release_other t' r' : t' ≠ t → R !! t' = Some r' → req_ok s' r'.
Proof.
  intros Hne E. pose proof (vi_req s R I t' r' E) as O'. destruct (vi_len s R I) as (? & ? & ? & ? & ? & ? & ?).
  pose proof (head_idx s r' O') as Hh'. pose proof (head_idx s r O) as Hh. apply (req_ok_same s); try done.
  - intros x Hx. destruct (release_view x) as [F D]; [by apply (proj1 (Forall_forall _ _) (ro_range _ _ O'))|].
    assert (x ∉ chain r) as Hni by (by apply (vi_sep s R I t' t r' r)). by rewrite decide_False in F; [split; [|apply D]|].
  - unfold info_at. simpl. rewrite nth_update by (unfold NUM in *; lia). rewrite (proj2 (Z.eqb_neq _ _)); [done|].
    intros Eh. by apply Hne, (request_inj s R I t t' r r').
Qed.

Lemma release_thread t' th : v_threads s' !! t' = Some th → t' ≠ t ∧ ∃ th0, v_threads s !! t' = Some th0 ∧ th = awake_desc th0.
Proof.
  simpl. intros E. apply lookup_delete_Some in E as [Hne E]. rewrite lookup_fmap in E. destruct (v_threads s !! t') as [th0|]; [|done].
  injection E as <-. split; [done|]. by exists th0.
Qed.

Lemma release_owners t' b : owners s' !! t' = Some b → owners s !! t' = Some b.
Proof.
  unfold owners. rewrite !lookup_fmap. destruct (v_threads s' !! t') as [th|] eqn:E; [|done]. apply release_thread in E as (_ & th0 & -> & ->).
  by destruct th0.
Qed.

Lemma release_vinv : vinv s' (delete t R).
Proof.
  destruct (vi_len s R I) as (? & ? & ? & ? & ? & ? & ?). split; try apply I.
  - simpl. by rewrite !length_insert.
  - intros t'. simpl. destruct (decide (t' = t)) as [->|Hne]; [by rewrite !lookup_delete_eq|]. rewrite !lookup_delete_ne, lookup_fmap by done.
    apply thread_ok_awake_desc, (vi_thread s R I).
  - intros t' b E. apply (vi_buf s R I t' b), release_owners, E.
  - intros t1 t2 b E1 E2. apply release_owners in E1, E2. by apply (vi_inj s R I t1 t2 b).
  - intros t' r' E. apply lookup_delete_Some in E as [Hne E]. by apply (release_other t').
  - intros t1 t2 r1 r2 x E1 E2. apply lookup_delete_Some in E1 as [_ E1], E2 as [_ E2]. by apply (vi_sep s R I t1 t2).
  - intros x Hx. rewrite (proj1 (release_view x Hx)). case_decide as Hc; [done|]. intros F. destruct (vi_free s R I x Hx F) as (t' & r' & E & Hin).
    exists t', r'. rewrite lookup_delete_ne; [done|]. intros <-. rewrite Hr in E. by injection E as <-.
  - apply (heads_delete R t r); [done|by rewrite Hp|apply (vi_avail s R I)].
  - apply (heads_delete R t r); [done|by rewrite Hp|apply (vi_taken s R I)].
  - apply (heads_delete R t r); [done|by rewrite Hp|apply (vi_used s R I)].
  - intros t' b w E. by apply release_thread in E as (_ & [] & _ & ?).
  - apply at_ok_none; [done|]. intros t' r' E. apply lookup_delete_Some in E as [_ E]. exact (at_none s R I (no_writer_publishing _ Hw) t' r' E).
Qed.

Lemma release_alpha : as_pc (alpha s) !! t = Some (ADone (a_b r)) ∧ alpha s' = mkAst (delete t (as_pc (alpha s))) (as_bufs (alpha s)) (as_disk (alpha s)).
Proof.
  split.
  - simpl. destruct (request_thread s R I t r Hr) as (a & E & _). rewrite lookup_fmap, E. simpl. rewrite (ro_status _ _ O). unfold finished. by rewrite Hp.
  - unfold alpha. f_equal. simpl. rewrite fmap_delete. f_equal. exact (strip_pc s _ _ (strip_awake _)).
Qed.
End Release.

Lemma rw_finish_spec s R t b w h : vinv s R → io_at (v_io s) = Unlocked → v_threads s !! t = Some (Waiting b w h false) → b_disk (buf_at (v_bufs s) b) ≠ 1 →
  wp (rw_finish t h) (λ _ s', (∃ R', vinv s' R') ∧ astep (alpha s) (alpha s') ∧ same_signals s s' ∧ v_io s' = v_io s) s.
Proof.
  intros I Hl Et Hd. assert (no_writer (io_at (v_io s))) as Hw by (by rewrite Hl).
  destruct (waiting_request s R I t b w h false Et) as (r & Hr & Eb & _ & <- & _).
  assert (a_ph r = Acked) as Hp. { pose proof (ro_disk _ _ (vi_req s R I t r Hr)) as D. rewrite Eb in D. case_decide; [done|congruence]. }
  eapply wp_mono; [by apply (rw_finish_eq s R I t r Hr)|]. intros _ ? ->. split; [eexists; by apply release_vinv|].
  destruct (release_alpha s R I t r Hr Hp) as [E ->]. split; [by eapply a_return|done].
Qed.

(** ** The device's transfers *)

(** The driver gives the device what it can serve. *)
Lemma vinv_queue s R : vinv s R → queue_wf s.
Proof.
  intros I h Hh. assert (∃ t r, R !! t = Some r ∧ a_h r = h) as (t & r & Hr & <-).
  { apply elem_of_app in Hh as [Hh|Hh]; [apply (vi_avail s R I) in Hh|apply (vi_taken s R I) in Hh]; naive_solver. }
  destruct (vi_req s R I t r Hr) as [_ _ _ H0 H1 H2 Ho _ _ _]. destruct (request_buf s R I t r Hr) as [_ [Hs Hb]].
  exists (a_h r), (a_b r), (a_h r). split; rewrite ?H0; simpl; rewrite ?H1; simpl; rewrite ?H2, ?Ho; simpl; try done.
  - by destruct (a_w r).
  - by destruct (a_w r).
  - destruct (a_w r); auto.
  - rewrite Z.mod_mul, Z.div_mul by lia. done.
Qed.

Lemma buf_at_erased (m : gmap Z buf) b : is_Some (m !! b) → buf_at (set_bdisk 0 <$> m) b = set_bdisk 0 (buf_at m b).
Proof. intros [x E]. unfold buf_at. by rewrite lookup_fmap, E. Qed.

Lemma transfer_rw s r l p : req_ok s r → buf_ok s (a_b r) →
  disk_rw (a_b r) (a_w r) (mkBst l p (set_bdisk 0 <$> v_bufs s) (v_disk s)) =
  Ok (tt, mkBst l p (set_bdisk 0 <$> v_bufs (transfer s (a_h r) (a_b r))) (v_disk (transfer s (a_h r) (a_b r)))).
Proof.
  intros O [Hs Hb]. unfold disk_rw, bind, getS. cbn [bufs bs_disk]. rewrite buf_at_erased by done. cbn [b_blockno b_data set_bdisk].
  rewrite (proj2 (Z.leb_le _ _)), (proj2 (Z.ltb_lt _ _)) by lia. cbn [andb]. unfold transfer. rewrite (ro_ops _ _ O). cbn [rq_type rq_sector].
  rewrite Z.div_mul by lia. destruct (a_w r); [done|]. simpl. unfold setb, modify, set_bufs. simpl. do 3 f_equal.
  unfold Bio.upd. rewrite fmap_insert, buf_at_erased by done. done.
Qed.

Lemma complete_alpha s R t r j : vinv s R → R !! t = Some r → a_ph r = Taken → vinv (complete s (a_h r) (a_h r) (a_b r) j) (<[t := advance Served r]> R) →
  astep (alpha s) (alpha (complete s (a_h r) (a_h r) (a_b r) j)).
Proof.
  intros I Hr Hp I'. set (s' := complete _ _ _ _ _) in *. pose proof (vi_req s R I t r Hr) as O.
  destruct (request_thread s R I t r Hr) as (a & Et & _). destruct (request_buf s R I t r Hr) as [_ Bo].
  assert (v_threads s' = v_threads s) as ET by apply (transfer_frame s (a_h r) (a_b r)).
  replace (alpha s') with (mkAst (<[t := ADone (a_b r)]> (as_pc (alpha s))) (set_bdisk 0 <$> v_bufs (transfer s (a_h r) (a_b r))) (v_disk (transfer s (a_h r) (a_b r)))).
  { eapply a_transfer; [|intros l p; by apply transfer_rw]. simpl. rewrite lookup_fmap, Et. simpl. rewrite (ro_status _ _ O). unfold finished. by rewrite Hp. }
  unfold alpha. f_equal. rewrite ET. apply map_eq. intros t'. destruct (decide (t' = t)) as [->|Hne].
  - rewrite lookup_insert_eq, lookup_fmap, Et. simpl. pose proof (vi_req _ _ I' t (advance Served r) ltac:(apply lookup_insert_eq)) as O'.
    pose proof (ro_status _ _ O') as ES. simpl in ES. by rewrite ES.
  - rewrite lookup_insert_ne by done. simpl. rewrite !lookup_fmap. destruct (v_threads s !! t') as [[c v x|c v h x]|] eqn:E'; [done| |done]. simpl. do 2 f_equal.
    destruct (waiting_request s R I t' c v h x E') as (r' & E & _ & _ & <- & _).
    pose proof (vi_req _ _ I' t' r' ltac:(by rewrite lookup_insert_ne)) as O'. by rewrite (ro_status _ _ O'), (ro_status _ _ (vi_req s R I t' r' E)).
Qed.

Lemma serves_spec s s' R : vinv s R → serves s s' → (∃ R', vinv s' R') ∧ (alpha s' = alpha s ∨ astep (alpha s) (alpha s')).
Proof.
  intros I H. destruct H as [s Hne|s h i b j Hin C|s Ho|s|s He].
  - split; [by apply (serve_take_spec s R)|by left].
  - destruct (serve_complete_spec s R h i b j I Hin C) as (t & r & Hr & Hp & <- & <- & -> & I'). split; [by eexists|]. right.
    by apply (complete_alpha s R t r).
  - split; [exists R; apply vinv_io; auto|by left].
  - split; [exists R; apply vinv_io; auto|by left].
  - split; [exists R; apply vinv_io; auto|by left].
Qed.
