(* ===== verification/VirtioProps.v ===== *)
(** * Theorems about the disk driver (kernel/virtio_disk.c)

    The processes inside [virtio_disk_rw], the interrupt handler and the device
    as one transition system, started by [virtio_disk_init]: it refines atomic
    block transfers, never panics and loses no wakeup, interrupt or notification. *)

From stdpp Require Import relations.
From S2P Require Import Prelude Spinlock Block Bio BioSpec Ring Virtio VirtioSpec.

Section System.
Variable device : vst → vst → Prop.
(** The device keeps to the virtio specification as long as the driver gives it
    chains it can serve, and reports no errors. *)
Hypothesis device_ok : ∀ s s', queue_wf s → device s s' → serves s s'.

(** A caller holds its buffer's sleep lock, so no two processes transfer the same
    buffer, and a buffer under transfer does not change.  The interrupt handler may also
    start without a reason. *)
Inductive vstep : vst → vst → Prop :=
  | step_call s t b w : v_threads s !! t = None → (∀ t', owners s !! t' ≠ Some b) → buf_ok s b →
      vstep s (set_vthreads (<[t := WantDesc b w false]> (v_threads s)) s)
  | step_try s s' t b w : io_at (v_io s) = Unlocked → v_threads s !! t = Some (WantDesc b w false) → rw_try t b w s = Ok (tt, s') → vstep s s'
  | step_publish s s' t b w h : io_at (v_io s) = AtPublish t b w h → rw_publish t b w h s = Ok (tt, s') → vstep s s'
  | step_notify s s' t b w h : io_at (v_io s) = AtNotify t b w h → rw_notify t b w h s = Ok (tt, s') → vstep s s'
  | step_again s s' t b w h : io_at (v_io s) = Unlocked → v_threads s !! t = Some (Waiting b w h false) → b_disk (buf_at (v_bufs s) b) = 1 →
      rw_wait t b w h s = Ok (tt, s') → vstep s s'
  | step_finish s s' t b w h : io_at (v_io s) = Unlocked → v_threads s !! t = Some (Waiting b w h false) → b_disk (buf_at (v_bufs s) b) ≠ 1 →
      rw_finish t h s = Ok (tt, s') → vstep s s'
  | step_intr s s' : io_at (v_io s) = Unlocked → goto AtStatus s = Ok (tt, s') → vstep s s'
  | step_status s s' v : io_at (v_io s) = AtStatus → intr_status s = Ok (v, s') → vstep s s'
  | step_ack s s' v : io_at (v_io s) = AtAck v → intr_ack v s = Ok (tt, s') → vstep s s'
  | step_turn s s' more : io_at (v_io s) = AtLoop → intr_turn s = Ok (more, s') → vstep s s'
  | step_device s s' : device s s' → vstep s s'
  | step_buffer s b x : (∀ t, owners s !! t ≠ Some b) → vstep s (set_vbufs (<[b := x]> (v_bufs s)) s).

Lemma wp_result {A} (m : V A) Q s a s' : wp m Q s → m s = Ok (a, s') → Q a s'.
Proof. unfold wp. intros H E. by rewrite E in H. Qed.

Lemma call_vinv s R t b w : vinv s R → v_threads s !! t = None → (∀ t', owners s !! t' ≠ Some b) → buf_ok s b →
  vinv (set_vthreads (<[t := WantDesc b w false]> (v_threads s)) s) R.
Proof.
  intros I Et Ho Hb. assert (owners (set_vthreads (<[t := WantDesc b w false]> (v_threads s)) s) = <[t := b]> (owners s)) as EO.
  { unfold owners. simpl. by rewrite fmap_insert. }
  split; try apply I.
  - intros t'. simpl. pose proof (vi_thread s R I t') as T. destruct (decide (t' = t)) as [->|Hne]; [|by rewrite lookup_insert_ne].
    rewrite lookup_insert_eq. rewrite Et in T. by destruct (R !! t).
  - rewrite EO. intros t' c E. apply lookup_insert_Some in E as [[<- <-]|[_ E]]; [done|by apply (vi_buf s R I t')].
  - rewrite EO. intros t1 t2 c E1 E2. apply lookup_insert_Some in E1 as [[? ?]|[_ E1]], E2 as [[? ?]|[_ E2]]; subst; [done| | |].
    + by destruct (Ho t2).
    + by destruct (Ho t1).
    + by apply (vi_inj s R I t1 t2 c).
  - intros t' r E. by apply (req_ok_same s); [apply (vi_req s R I t')|..].
  - simpl. intros t' c v E. apply lookup_insert_Some in E as [[_ ?]|[_ E]]; [done|by apply (vi_sleep s R I t' c v)].
  - destruct (vi_at s R I) as [A B]. split; [exact A|]. simpl. destruct (io_at (v_io s)) as [|t' c v h|t' c v h| | |]; try done.
    + destruct B as (? & E & ?). split_and!; try done. rewrite lookup_insert_ne; congruence.
    + rewrite lookup_insert_ne; congruence.
Qed.

Lemma call_alpha s t b w : v_threads s !! t = None → astep (alpha s) (alpha (set_vthreads (<[t := WantDesc b w false]> (v_threads s)) s)).
Proof.
  intros Et. replace (alpha (set_vthreads _ s)) with (mkAst (<[t := APend b w]> (as_pc (alpha s))) (as_bufs (alpha s)) (as_disk (alpha s))).
  - apply a_call. simpl. by rewrite lookup_fmap, Et.
  - unfold alpha. simpl. f_equal. by rewrite fmap_insert.
Qed.

Lemma buffer_vinv s R b x : vinv s R → (∀ t, owners s !! t ≠ Some b) → vinv (set_vbufs (<[b := x]> (v_bufs s)) s) R.
Proof.
  intros I Ho. assert (∀ t c, owners s !! t = Some c → (<[b := x]> (v_bufs s)) !! c = v_bufs s !! c) as EB.
  { intros t c E. apply lookup_insert_ne. intros ->. by apply (Ho t). }
  split; try apply I.
  - intros t c E. destruct (vi_buf s R I t c E) as [Hs Hb]. unfold buf_ok, buf_at. simpl. by rewrite (EB t c E).
  - intros t r E. destruct (request_buf s R I t r E) as [O _]. by apply (req_ok_same s); [apply (vi_req s R I t)|..]; try done; unfold buf_at; simpl; rewrite (EB t).
Qed.

Lemma thread_pc_buf s th c v : thread_pc s th = APend c v ∨ thread_pc s th = ADone c → buf_of th = c.
Proof. destruct th; simpl; [|destruct (_ =? 0)]; naive_solver. Qed.

Lemma buffer_alpha s b x : (∀ t, owners s !! t ≠ Some b) → astep (alpha s) (alpha (set_vbufs (<[b := x]> (v_bufs s)) s)).
Proof.
  intros Ho. replace (alpha (set_vbufs _ s)) with (mkAst (as_pc (alpha s)) (<[b := set_bdisk 0 x]> (as_bufs (alpha s))) (as_disk (alpha s))).
  - apply a_buffer. intros t w. simpl. rewrite lookup_fmap. specialize (Ho t). unfold owners in Ho. rewrite lookup_fmap in Ho.
    destruct (v_threads s !! t) as [th|]; [|done]. simpl in *. split; intros [= E]; apply Ho; f_equal; apply (thread_pc_buf s th b w); auto.
  - unfold alpha. simpl. f_equal. by rewrite fmap_insert.
Qed.

(** The interrupt handler is running. *)
Definition handling (l : stage) : Prop := match l with AtStatus | AtAck _ | AtLoop => True | _ => False end.

(** A used chain the driver has not seen has an interrupt coming, or the handler, which has
    not left its loop; a published chain the device has not taken has been notified, or
    will be next. *)
Record signal_ok (s : vst) : Prop := {
  so_irq : v_seen s ≠ v_used_idx s → Z.testbit (io_status (v_io s)) 0 = true ∨ io_owes (v_io s) = true ∨ handling (io_at (v_io s));
  so_notify : v_next s ≠ v_avail_idx s → io_notified (v_io s) = true ∨ ∃ t b w h, io_at (v_io s) = AtNotify t b w h
}.

Lemma signal_same s s' : signal_ok s → same_signals s s' → io_at (v_io s) = Unlocked ∨ io_at (v_io s') = io_at (v_io s) → signal_ok s'.
Proof.
  intros [SI SN] (E1 & E2 & E3 & E4 & E5 & E6 & E7) H. split; rewrite ?E1, ?E2, ?E3, ?E4, ?E5, ?E6, ?E7.
  - intros Hne. destruct H as [H|H]; [|rewrite H; by apply SI]. destruct (SI Hne) as [?|[?|Hh]]; [auto..|]. by rewrite H in Hh.
  - intros Hne. destruct H as [H|H]; [|rewrite H; by apply SN]. destruct (SN Hne) as [?|(? & ? & ? & ? & Hh)]; [auto|]. by rewrite H in Hh.
Qed.

Lemma serves_signal s s' : signal_ok s → serves s s' → signal_ok s'.
Proof.
  intros [SI SN] H. destruct H as [s Hne|s h i b j Hin C|s Ho|s|s He]; split; simpl; try exact SI; try exact SN.
  - intros _. by apply SN.
  - intros _. by right; left.
  - destruct (transfer_frame s i b) as (_ & _ & -> & _ & _ & _ & _ & _ & _ & _ & -> & _). exact SN.
  - intros _. left. change (Z.testbit (Z.lor (io_status (v_io s)) 1) 0 = true). by rewrite Z.lor_spec, orb_true_r.
  - intros Hne. destruct (SI Hne) as [E|?]; [|by right]. left. change (Z.testbit (Z.lor (io_status (v_io s)) 2) 0 = true). by rewrite Z.lor_spec, E.
  - by intros [].
Qed.

(** The handler's lines. *)
Lemma handler_step s s' R : vinv s R → signal_ok s → publishing (io_at (v_io s)) = false → (∀ t b w h, io_at (v_io s) ≠ AtNotify t b w h) →
  (∃ x, s' = set_vio x s ∧ handling (io_at x) ∧ io_notified x = io_notified (v_io s)) → vinv s' R ∧ alpha s' = alpha s ∧ signal_ok s'.
Proof.
  intros I [SI SN] Hp Hn (x & -> & Hx & En). split_and!; [|done|].
  - apply vinv_io; [done|]. right. split; [|done]. by destruct (io_at x).
  - split; simpl; [auto|]. rewrite En. intros Hne. destruct (SN Hne) as [?|(t & b & w & h & E)]; [by left|]. by destruct (Hn t b w h).
Qed.

Lemma turn_signal s s' R more : vinv s R → signal_ok s → io_at (v_io s) = AtLoop → intr_turn s = Ok (more, s') →
  (∃ R', vinv s' R') ∧ alpha s' = alpha s ∧ signal_ok s'.
Proof.
  intros I [SI SN] Hl E. destruct (wp_result _ _ _ _ _ (intr_turn_spec s R I Hl) E) as (HR & Ha & Eu & En & Ei & H).
  split_and!; [done..|]. destruct more.
  - destruct H as (Eio & _ & _). split; rewrite Eio, ?Hl; [by right; right|]. rewrite En, Ei. intros Hne. destruct (SN Hne) as [?|(? & ? & ? & ? & X)]; [by left|congruence].
  - destruct H as [-> Es]. split; simpl; [done|]. intros Hne. destruct (SN Hne) as [?|(? & ? & ? & ? & X)]; [by left|congruence].
Qed.

Lemma publish_signal s s' t b w h : signal_ok s → io_at (v_io s) = AtPublish t b w h → rw_publish t b w h s = Ok (tt, s') → signal_ok s'.
Proof.
  intros [SI SN] Hl [= <-]. split; simpl; [|intros _; right; by exists t, b, w, h].
  intros Hne. destruct (SI Hne) as [?|[?|X]]; [auto..|]. by rewrite Hl in X.
Qed.

Lemma notify_signal s s' t b w h : signal_ok s → io_at (v_io s) = AtNotify t b w h → v_seen s' = v_seen s → v_used_idx s' = v_used_idx s →
  v_io s' = mkIo (io_status (v_io s)) (io_owes (v_io s)) true Unlocked → signal_ok s'.
Proof.
  intros [SI SN] Hl E1 E2 E3. split; rewrite E3; simpl; [|by left]. rewrite E1, E2. intros Hne.
  destruct (SI Hne) as [?|[?|X]]; [auto..|]. by rewrite Hl in X.
Qed.

Lemma vstep_spec s s' R : vinv s R → signal_ok s → vstep s s' →
  (∃ R', vinv s' R') ∧ (alpha s' = alpha s ∨ astep (alpha s) (alpha s')) ∧ signal_ok s'.
Proof using device_ok.
  intros I S H. destruct H as [s t b w Et Ho Hb|s s' t b w Hl Et E|s s' t b w h Hl E|s s' t b w h Hl E|s s' t b w h Hl Et Hd E|s s' t b w h Hl Et Hd E|s s' Hl E|s s' v Hl E|s s' v Hl E|s s' more Hl E|s s' E|s b x Ho].
  - split; [exists R; by apply call_vinv|]. split; [right; by apply call_alpha|by apply (signal_same s); auto].
  - pose proof (wp_result _ _ _ _ _ (rw_try_spec s R t b w I Hl Et) E) as (? & ? & ?). split_and!; auto. apply (signal_same s); auto.
  - pose proof (wp_result _ _ _ _ _ (rw_publish_spec s R t b w h I Hl) E) as (? & ?). split_and!; auto. by apply (publish_signal s s' t b w h).
  - pose proof (wp_result _ _ _ _ _ (rw_notify_spec s R t b w h I Hl) E) as (? & ? & ? & ? & ?). split_and!; eauto. by apply (notify_signal s s' t b w h).
  - pose proof (wp_result _ _ _ _ _ (rw_wait_spec s R t b w h I ltac:(by rewrite Hl) Et) E) as (? & ? & ? & ?). split_and!; eauto. apply (signal_same s); auto.
  - pose proof (wp_result _ _ _ _ _ (rw_finish_spec s R t b w h I Hl Et Hd) E) as (? & ? & ? & ?). split_and!; auto. apply (signal_same s); auto.
  - destruct (handler_step s s' R I S) as (? & ? & ?); rewrite ?Hl; eauto. injection E as <-. by eexists.
  - destruct (handler_step s s' R I S) as (? & ? & ?); rewrite ?Hl; eauto. injection E as _ <-. by eexists.
  - destruct (handler_step s s' R I S) as (? & ? & ?); rewrite ?Hl; eauto. injection E as <-. by eexists.
  - destruct (turn_signal s s' R more I S Hl E) as (? & ? & ?). auto.
  - assert (serves s s') as Hs by (apply device_ok; [by apply (vinv_queue s R)|done]). destruct (serves_spec s s' R I Hs). split_and!; auto. by apply (serves_signal s).
  - split; [exists R; by apply buffer_vinv|]. split; [right; by apply buffer_alpha|by apply (signal_same s); auto].
Qed.

Lemma init_vinv d m : d_size d <= 2 ^ 31 → vinv (virtio_init d m) ∅.
Proof.
  intros Hd. assert (∀ p, heads ∅ p []) as HH by (intros p; split; [apply NoDup_nil_2|]; intros h; split; [by intros ?%elem_of_nil|naive_solver]).
  split; try done.
  intros i Hi. unfold is_free. simpl. assert (i = 0 ∨ i = 1 ∨ i = 2 ∨ i = 3 ∨ i = 4 ∨ i = 5 ∨ i = 6 ∨ i = 7) as X by (unfold NUM in Hi; lia).
  by destruct X as [->|[->|[->|[->|[->|[->|[->| ->]]]]]]].
Qed.

Lemma init_signal d m : signal_ok (virtio_init d m).
Proof. by split. Qed.

Lemma reach_spec s s' R : vinv s R → signal_ok s → rtc vstep s s' → (∃ R', vinv s' R') ∧ rtc astep (alpha s) (alpha s') ∧ signal_ok s'.
Proof using device_ok.
  intros I S H. revert R I S. induction H as [s|s s1 s2 H1 H2 IH]; intros R I S; [split; [by exists R|done]|].
  destruct (vstep_spec s s1 R I S H1) as ([R1 I1] & Ha & S1). destruct (IH R1 I1 S1) as (? & ? & ?). split; [done|]. split; [|done].
  destruct Ha as [<- |Ha]; [done|by eapply rtc_l].
Qed.
End System.

(** A process asleep on a finished request: its completion is still in the used
    ring. *)
Lemma sleeper_pending s R t b w h : vinv s R → v_threads s !! t = Some (Waiting b w h true) → status_at s h = 0 → v_seen s ≠ v_used_idx s.
Proof.
  intros I Et Hs. destruct (waiting_request s R I t b w h true Et) as (r & Hr & _ & _ & <- & Ha).
  rewrite (ro_status _ _ (vi_req s R I t r Hr)) in Hs. assert (a_ph r = Served) as Hp.
  { destruct (a_ph r) eqn:E; unfold finished in Hs; rewrite E in Hs; try done. by specialize (Ha eq_refl). }
  assert (a_h r ∈ served s) as Hin by (apply (vi_used s R I); by exists t, r). intros E. rewrite E, queue_empty in Hin. by apply elem_of_nil in Hin.
Qed.

(** [virtio_disk_rw] returns only when its transfer is done. *)
Lemma finisher_done s R t b w h : vinv s R → v_threads s !! t = Some (Waiting b w h false) → b_disk (buf_at (v_bufs s) b) ≠ 1 →
  as_pc (alpha s) !! t = Some (ADone b).
Proof.
  intros I Et Hd. destruct (waiting_request s R I t b w h false Et) as (r & Hr & <- & _ & _ & _). apply (release_alpha s R I t r Hr).
  pose proof (ro_disk _ _ (vi_req s R I t r Hr)) as D. case_decide; [done|congruence].
Qed.

(** C9 (refinement).  Whatever the interleaving of processes, interrupt handler and
    device, which acts also between the lines of a critical section, every behaviour of
    the driver from [virtio_disk_init] on is one of the system in which a call of
    [virtio_disk_rw] transfers its block in a single step, by [disk_rw], between its
    call and its return: descriptors and rings never mix up two requests.  The device
    finishes the requests it takes successfully. *)
Theorem virtio_refines device d m s : (∀ s s', queue_wf s → device s s' → serves s s') → d_size d <= 2 ^ 31 →
  rtc (vstep device) (virtio_init d m) s → rtc astep (mkAst ∅ (set_bdisk 0 <$> m) d) (alpha s).
Proof.
  intros HD Hd H. replace (mkAst ∅ _ d) with (alpha (virtio_init d m)) by (unfold alpha; simpl; by rewrite fmap_empty).
  by apply (reach_spec device HD _ _ ∅ (init_vinv d m Hd) (init_signal d m) H).
Qed.

(** The line the holder of the lock is at can be executed. *)
Lemma holder_runs s R : vinv s R →
  match io_at (v_io s) with
  | Unlocked => True
  | AtPublish t b w h => ∃ s', rw_publish t b w h s = Ok (tt, s')
  | AtNotify t b w h => ∃ s', rw_notify t b w h s = Ok (tt, s')
  | AtStatus => ∃ v s', intr_status s = Ok (v, s')
  | AtAck v => ∃ s', intr_ack v s = Ok (tt, s')
  | AtLoop => ∃ more s', intr_turn s = Ok (more, s')
  end.
Proof.
  intros I. destruct (io_at (v_io s)) as [|t b w h|t b w h| |v|] eqn:Hl; [done|by eexists| |by do 2 eexists|by eexists|].
  - pose proof (rw_notify_spec s R t b w h I Hl) as W. apply wp_run in W as ([] & s' & E & _). by exists s'.
  - pose proof (intr_turn_spec s R I Hl) as W. apply wp_run in W as (more & s' & E & _). by exists more, s'.
Qed.

(** C26 (safety).  With a device that finishes every request successfully, in every
    reachable state:
    - with the lock free, a process can do its part, and one that leaves has its
      transfer done; the interrupt handler, alone, runs to its end and catches up with
      the used ring;
    - a process or handler that holds the lock can execute the line it is at: no panic, no
      undefined buffer;
    - no wakeup is lost: a process asleep on a finished request has its completion in the
      used ring, and bit 0 of the interrupt status is set, or the device is about to set it,
      or the handler has not left its loop; so the acknowledgement loses no interrupt;
    - a published request the device has not taken has been notified, or is next;
    - while a process sleeps for descriptors there are fewer than three free. *)
Theorem virtio_progress device d m s : (∀ s s', queue_wf s → device s s' → serves s s') → d_size d <= 2 ^ 31 →
  rtc (vstep device) (virtio_init d m) s →
  (io_at (v_io s) = Unlocked →
    (∀ t b w, v_threads s !! t = Some (WantDesc b w false) → ∃ s', rw_try t b w s = Ok (tt, s')) ∧
    (∀ t b w h, v_threads s !! t = Some (Waiting b w h false) → b_disk (buf_at (v_bufs s) b) ≠ 1 →
       as_pc (alpha s) !! t = Some (ADone b) ∧ ∃ s', rw_finish t h s = Ok (tt, s')) ∧
    (∃ s', virtio_disk_intr s = Ok (tt, s') ∧ v_seen s' = v_used_idx s' ∧ io_at (v_io s') = Unlocked)) ∧
  match io_at (v_io s) with
  | Unlocked => True
  | AtPublish t b w h => ∃ s', rw_publish t b w h s = Ok (tt, s')
  | AtNotify t b w h => ∃ s', rw_notify t b w h s = Ok (tt, s')
  | AtStatus => ∃ v s', intr_status s = Ok (v, s')
  | AtAck v => ∃ s', intr_ack v s = Ok (tt, s')
  | AtLoop => ∃ more s', intr_turn s = Ok (more, s')
  end ∧
  (∀ t b w h, v_threads s !! t = Some (Waiting b w h true) → status_at s h = 0 → v_seen s ≠ v_used_idx s ∧
     (Z.testbit (io_status (v_io s)) 0 = true ∨ io_owes (v_io s) = true ∨ handling (io_at (v_io s)))) ∧
  (published s ≠ [] → io_notified (v_io s) = true ∨ ∃ t b w h, io_at (v_io s) = AtNotify t b w h) ∧
  (∀ t b w, v_threads s !! t = Some (WantDesc b w true) → ¬ three_free s).
Proof.
  intros HD Hd H. destruct (reach_spec device HD _ _ ∅ (init_vinv d m Hd) (init_signal d m) H) as ([R I] & _ & S).
  split; [|split; [by apply (holder_runs s R)|split; [|split]]].
  - intros Hl. split; [|split].
    + intros t b w Et. pose proof (rw_try_spec s R t b w I Hl Et) as W. apply wp_run in W as ([] & s' & E & _). by exists s'.
    + intros t b w h Et Hb. split; [by apply (finisher_done s R t b w h)|].
      pose proof (rw_finish_spec s R t b w h I Hl Et Hb) as W. apply wp_run in W as ([] & s' & E & _). by exists s'.
    + pose proof (virtio_disk_intr_spec s R I Hl) as W. apply wp_run in W as ([] & s' & E & _ & Es & El & _). by exists s'.
  - intros t b w h Et Es. pose proof (sleeper_pending s R t b w h I Et Es) as Hne. split; [done|by apply (so_irq s S)].
  - intros Hp. apply (so_notify s S). intros E. apply Hp. unfold published. by rewrite E, queue_empty.
  - apply (vi_sleep s R I).
Qed.

(** ** A run *)

(** Process 7 writes buffer 2 to block 5; the device serves it. *)
Definition demo_vdisk : disk := mkDisk 16 ∅ [].
Definition demo_vbufs : gmap Z buf := {[2 := mkBuf 1 0 1 5 (mkSleeplock 0 0) 1 0 0 [42; 43]]}.
Definition demo_v0 : vst := virtio_init demo_vdisk demo_vbufs.
Definition demo_v1 : vst := set_vthreads (<[7 := WantDesc 2 true false]> (v_threads demo_v0)) demo_v0.
Definition demo_v2 : vst := Eval vm_compute in after (rw_try 7 2 true) demo_v1.
Definition demo_v3 : vst := Eval vm_compute in after (rw_publish 7 2 true 0) demo_v2.
Definition demo_v4 : vst := Eval vm_compute in after (rw_notify 7 2 true 0) demo_v3.
Definition demo_v5 : vst := set_vdev (u16 (v_next demo_v4 + 1)) (v_taken demo_v4 ++ [ring_at NUM (v_avail demo_v4) (v_next demo_v4)]) demo_v4.
Definition demo_v6 : vst := complete demo_v5 0 0 2 0.
Definition demo_h0 : vst := Eval vm_compute in after (goto AtStatus) demo_v6.
Definition demo_h1 : vst := Eval vm_compute in after intr_status demo_h0.
Definition demo_h2 : vst := Eval vm_compute in after (intr_ack 0) demo_h1.
Definition demo_h3 : vst := Eval vm_compute in after intr_turn demo_h2.
Definition demo_v7 : vst := Eval vm_compute in after intr_turn demo_h3.
Definition demo_v8 : vst := Eval vm_compute in after (rw_finish 7 0) demo_v7.

Lemma demo_vrun : rtc (vstep serves) demo_v0 demo_v6.
Proof.
  apply (rtc_l _ _ demo_v1). { apply step_call; [done|done|]. split; [by eexists|done]. }
  apply (rtc_l _ _ demo_v2). { by apply (step_try _ _ _ 7 2 true). }
  apply (rtc_l _ _ demo_v3). { by apply (step_publish _ _ _ 7 2 true 0). }
  apply (rtc_l _ _ demo_v4). { by apply (step_notify _ _ _ 7 2 true 0). }
  apply (rtc_l _ _ demo_v5). { apply step_device, serve_take. done. }
  apply (rtc_l _ _ demo_v6); [|done]. apply step_device, serve_complete; [vm_compute; left|].
  split; try done; by right.
Qed.

Lemma demo_vreturn : rtc (vstep serves) demo_v0 demo_v8.
Proof.
  transitivity demo_v6; [exact demo_vrun|].
  apply (rtc_l _ _ demo_h0). { by apply step_intr. }
  apply (rtc_l _ _ demo_h1). { by apply (step_status _ _ _ 0). }
  apply (rtc_l _ _ demo_h2). { by apply (step_ack _ _ _ 0). }
  apply (rtc_l _ _ demo_h3). { by apply (step_turn _ _ _ true). }
  apply (rtc_l _ _ demo_v7). { by apply (step_turn _ _ _ false). }
  apply (rtc_l _ _ demo_v8); [|done]. by apply (step_finish _ _ _ 7 2 true 0).
Qed.

Lemma virtio_refines_witness : rtc astep (mkAst ∅ (set_bdisk 0 <$> demo_vbufs) demo_vdisk) (alpha demo_v8) ∧
  d_writes (v_disk demo_v8) = [(5, [42; 43])] ∧ as_pc (alpha demo_v8) = ∅.
Proof. split; [|done]. apply (virtio_refines serves demo_vdisk demo_vbufs demo_v8); [done|done|exact demo_vreturn]. Defined.

Lemma virtio_progress_witness : v_seen demo_v6 ≠ v_used_idx demo_v6 ∧ io_owes (v_io demo_v6) = true ∧
  ∃ s', virtio_disk_intr demo_v6 = Ok (tt, s') ∧ v_seen s' = v_used_idx s' ∧ io_at (v_io s') = Unlocked.
Proof.
  destruct (virtio_progress serves demo_vdisk demo_vbufs demo_v6) as (P & _ & Q & _); [done|done|exact demo_vrun|].
  destruct (P eq_refl) as (_ & _ & P3). destruct (Q 7 2 true 0 eq_refl eq_refl) as [Q1 _]. split; [exact Q1|]. split; [reflexivity|exact P3].
Defined.
