(* ===== verification/Grep.v ===== *)
(** * Searching text (user/grep.c)

    A C string is the list of its characters, without the NUL.  [matchhere] and
    [matchstar] are the matcher of Kernighan and Pike; [grep] reads a file in
    pieces, through a buffer of 1024 characters, and writes the lines that
    match. *)

From S2P Require Import Prelude.

(** ** The matcher *)

(** The loop of [matchstar]; [k] is [matchhere(re, .)]. *)
Fixpoint star_loop (k : list Z → bool) (c : Z) (text : list Z) : bool :=
  if k text then true
  else match text with
       | [] => false
       | x :: t => if (x =? c) || (c =? 46) then star_loop k c t else false
       end.

Definition is_nil {A} (l : list A) : bool := match l with [] => true | _ => false end.

Fixpoint matchhere (re text : list Z) {struct re} : bool :=
  match re with
  | [] => true
  | c :: re1 =>
      let single :=
        if (c =? 36) && is_nil re1 then is_nil text
        else match text with
             | x :: t => if (c =? 46) || (c =? x) then matchhere re1 t else false
             | [] => false
             end in
      match re1 with
      | d :: re2 => if d =? 42 then star_loop (matchhere re2) c text else single
      | [] => single
      end
  end.
Definition matchstar (c : Z) (re text : list Z) : bool := star_loop (matchhere re) c text.

(** Also at the end of the text. *)
Fixpoint match_loop (re text : list Z) : bool :=
  if matchhere re text then true else match text with [] => false | _ :: t => match_loop re t end.
Definition match_ (re text : list Z) : bool :=
  match re with
  | c :: re1 => if c =? 94 then matchhere re1 text else match_loop re text
  | [] => match_loop re text
  end.

(** ** Reading a file *)

(** What the program sees of an open file: [read] answers at most as many bytes
    as asked for, [None] for an error. *)
Class Reader (F : Type) := { read : F → Z → option (list Z) * F }.

(** [strchr(p, '\n')]: the characters before the newline and those after it.  The
    search ends at a NUL. *)
Fixpoint cut_line (text : list Z) : option (list Z * list Z) :=
  match text with
  | [] => None
  | x :: t =>
      if x =? 0 then None
      else if x =? 10 then Some ([], t)
      else match cut_line t with Some (l, r) => Some (x :: l, r) | None => None end
  end.

(** The inner loop: what is written, and the characters that are left. *)
Fixpoint scan (fuel : nat) (pattern text : list Z) : list Z * list Z :=
  match fuel with
  | O => ([], text)
  | S fuel' =>
      match cut_line text with
      | None => ([], text)
      | Some (l, r) =>
          let '(out, rest) := scan fuel' pattern r in
          ((if match_ pattern l then l ++ [10] else []) ++ out, rest)
      end
  end.

(** The outer loop with [m] characters [carry] in the buffer. *)
Fixpoint grep_loop {F} `{Reader F} (fuel : nat) (pattern carry : list Z) (f : F) : option (list Z * F) :=
  match fuel with
  | O => None
  | S fuel' =>
      match read f (1024 - Z.of_nat (length carry) - 1) with
      | (Some (x :: bs), f') =>
          let text := carry ++ x :: bs in
          let '(out, rest) := scan (S (length text)) pattern text in
          match grep_loop fuel' pattern rest f' with
          | Some (out', f'') => Some (out ++ out', f'')
          | None => None
          end
      | (_, f') => Some ([], f')
      end
  end.
Definition grep {F} `{Reader F} (fuel : nat) (pattern : list Z) (f : F) : option (list Z * F) := grep_loop fuel pattern [] f.
