(* ===== verification/GrepProps.v ===== *)
(** * The matcher and the line reader of grep (user/grep.c)

    A pattern denotes a language; [match_] answers whether a substring of the
    line, anchored as the pattern asks, belongs to it.  [grep] writes exactly the
    matching lines, however the file is delivered in pieces. *)

From S2P Require Import Prelude Grep.

(** ** Patterns *)

Inductive atom := One (c : Z) | Star (c : Z).

(** The characters of a pattern after [^]: its atoms, and whether it ends in [$]. *)
Fixpoint atoms (re : list Z) : list atom * bool :=
  match re with
  | [] => ([], false)
  | c :: re1 =>
      let single := if (c =? 36) && is_nil re1 then ([], true) else (One c :: (atoms re1).1, (atoms re1).2) in
      match re1 with
      | d :: re2 => if d =? 42 then (Star c :: (atoms re2).1, (atoms re2).2) else single
      | [] => single
      end
  end.

Definition fits (c x : Z) : Prop := c = 46 ∨ x = c.

Inductive lang : list atom → list Z → Prop :=
  | lang_nil : lang [] []
  | lang_one c a x t : fits c x → lang a t → lang (One c :: a) (x :: t)
  | lang_star c a s t : Forall (fits c) s → lang a t → lang (Star c :: a) (s ++ t).

Definition begins (re text : list Z) : Prop :=
  ∃ s t, text = s ++ t ∧ lang (atoms re).1 s ∧ ((atoms re).2 = true → t = []).

(** The meaning of a pattern. *)
Definition matches (re text : list Z) : Prop :=
  match re with
  | c :: re1 => if c =? 94 then begins re1 text else ∃ pre post, text = pre ++ post ∧ begins re post
  | [] => True
  end.

Lemma star_loop_spec k c text : star_loop k c text = true ↔ ∃ s t, text = s ++ t ∧ Forall (fits c) s ∧ k t = true.
Proof.
  induction text as [|x text IH]; simpl; destruct (k _) eqn:E.
  - split; [intros _|done]. by exists [], [].
  - split; [done|]. intros (s & t & Es & _ & Ek). symmetry in Es. apply app_nil in Es as [-> ->]. congruence.
  - split; [intros _|done]. by exists [], (x :: text).
  - destruct ((x =? c) || (c =? 46)) eqn:F.
    + rewrite IH. split; intros (s & t & Es & Fs & Ek).
      * exists (x :: s), t. split; [by rewrite Es|]. split; [|done]. constructor; [|done]. apply orb_true_iff in F as [F|F]; apply Z.eqb_eq in F; [by right|by left].
      * destruct s as [|y s]; [simpl in Es; congruence|]. injection Es as -> ->. apply Forall_cons in Fs as [_ Fs]. by exists s, t.
    + split; [done|]. intros (s & t & Es & Fs & Ek). destruct s as [|y s]; [simpl in Es; congruence|]. injection Es as -> ->.
      apply Forall_cons in Fs as [[Hf|Hf] _]; subst; rewrite Z.eqb_refl, ?orb_true_r in F; done.
Qed.

Lemma begins_nil text : begins [] text.
Proof. exists [], text. split; [done|]. split; [constructor|done]. Qed.

Lemma begins_star c re text : begins (c :: 42 :: re) text ↔ ∃ s t, text = s ++ t ∧ Forall (fits c) s ∧ begins re t.
Proof.
  unfold begins. simpl. split.
  - intros (s & t & -> & L & He). inversion L as [| |? ? s1 s2 Fs L2]; subst. exists s1, (s2 ++ t). rewrite <- app_assoc. eauto 10.
  - intros (s & t & -> & Fs & s2 & t2 & -> & L & He). exists (s ++ s2), t2. rewrite <- app_assoc. split; [done|]. split; [by constructor|done].
Qed.

(** A pattern is empty, starts with [c*], is the final [$], or starts with a
    character of its own. *)
Lemma begins_one c re text : head re ≠ Some 42 → (c = 36 → re ≠ []) →
  begins (c :: re) text ↔ ∃ x t, text = x :: t ∧ fits c x ∧ begins re t.
Proof.
  intros Hs He. assert (atoms (c :: re) = (One c :: (atoms re).1, (atoms re).2)) as E.
  { simpl. assert ((c =? 36) && is_nil re = false) as ->. { destruct (Z.eqb_spec c 36); [|done]. destruct re; [by destruct He|done]. }
    destruct re as [|y re']; [done|]. destruct (Z.eqb_spec y 42) as [->|]; done. }
  unfold begins. rewrite E. simpl. split.
  - intros (s & t & -> & L & H). inversion L as [|? ? x s' Fx L2|]; subst. exists x, (s' ++ t). eauto 10.
  - intros (x & t & -> & Fx & s & t' & -> & L & H). exists (x :: s), t'. split; [done|]. split; [by constructor|done].
Qed.

Lemma begins_end text : begins [36] text ↔ text = [].
Proof.
  unfold begins. simpl. split.
  - intros (s & t & -> & L & H). inversion L; subst. by apply H.
  - intros ->. exists [], []. repeat split; constructor.
Qed.

Lemma is_nil_spec {A} (l : list A) : is_nil l = true ↔ l = [].
Proof. by destruct l. Qed.

Lemma matchhere_spec re text : matchhere re text = true ↔ begins re text.
Proof.
  revert text. induction re as [re IH] using (induction_ltof1 _ length). intros text. unfold ltof in IH. destruct re as [|c re1]; [split; [intros _; apply begins_nil|done]|].
  assert (head re1 ≠ Some 42 → (if (c =? 36) && is_nil re1 then is_nil text
    else match text with x :: t => if (c =? 46) || (c =? x) then matchhere re1 t else false | [] => false end) = true ↔ begins (c :: re1) text) as S.
  { intros Hs. destruct ((c =? 36) && is_nil re1) eqn:E.
    - apply andb_true_iff in E as [Ec En]. apply Z.eqb_eq in Ec as ->. apply is_nil_spec in En as ->. by rewrite is_nil_spec, begins_end.
    - rewrite begins_one; [|done|intros -> ->; done]. destruct text as [|x t]; [split; [done|]; by intros (x & t & ? & _)|].
      destruct ((c =? 46) || (c =? x)) eqn:F.
      + rewrite IH by (simpl; lia). split; [intros H; exists x, t|intros (? & ? & [= <- <-] & _ & H)]; [|done]. split; [done|]. split; [|done].
        apply orb_true_iff in F as [F|F]; apply Z.eqb_eq in F; [by left|by right].
      + split; [done|]. intros (? & ? & [= <- <-] & [Hf|Hf] & _); subst; rewrite Z.eqb_refl, ?orb_true_r in F; done. }
  destruct re1 as [|d re2]; [by apply S|]. simpl. destruct (Z.eqb_spec d 42) as [->|Hd]; [|apply S; by intros [=]].
  rewrite star_loop_spec, begins_star. split; intros (s & t & Es & Fs & H); exists s, t; (do 2 (split; [done|])); apply IH in H; done || (simpl; lia).
Qed.

Lemma match_loop_spec re text : match_loop re text = true ↔ ∃ pre post, text = pre ++ post ∧ begins re post.
Proof.
  induction text as [|x text IH]; simpl; destruct (matchhere re _) eqn:E.
  - apply matchhere_spec in E. split; [intros _; by exists [], []|done].
  - split; [done|]. intros (pre & post & Es & B). symmetry in Es. apply app_nil in Es as [-> ->]. apply matchhere_spec in B. congruence.
  - apply matchhere_spec in E. split; [intros _; by exists [], (x :: text)|done].
  - rewrite IH. split; intros (pre & post & Es & B); [exists (x :: pre), post; by rewrite Es|].
    destruct pre as [|y pre]; [simpl in Es; subst; apply matchhere_spec in B; congruence|]. injection Es as -> ->. by exists pre, post.
Qed.

(** C25 (equivalence).  The matcher decides the language of the pattern: [match_]
    answers true exactly when the text contains a piece that the pattern denotes,
    at the start of the text if the pattern begins with [^] and reaching its end
    if it ends with [$]. *)
Theorem match_correct re text : match_ re text = true ↔ matches re text.
Proof.
  unfold match_, matches. destruct re as [|c re]; [split; [done|]; intros _; rewrite match_loop_spec; exists [], text; split; [done|apply begins_nil]|].
  destruct (c =? 94); [apply matchhere_spec|apply match_loop_spec].
Qed.

(** ** Lines *)

(** The complete lines of a text, and the characters after the last newline. *)
Fixpoint lines (text : list Z) : list (list Z) * list Z :=
  match text with
  | [] => ([], [])
  | x :: t =>
      let '(L, r) := lines t in
      if x =? 10 then ([] :: L, r)
      else match L with [] => ([], x :: r) | l :: L' => ((x :: l) :: L', r) end
  end.

(** What grep should write. *)
Definition found (pattern text : list Z) : list Z := concat ((λ l, l ++ [10]) <$> filter (λ l, match_ pattern l = true) (lines text).1).

Lemma found_step pattern l L r text : lines text = (l :: L, r) →
  found pattern text = (if match_ pattern l then l ++ [10] else []) ++ concat ((λ l, l ++ [10]) <$> filter (λ l, match_ pattern l = true) L).
Proof.
  intros E. unfold found. rewrite E. simpl. rewrite filter_cons. destruct (match_ pattern l) eqn:M.
  - by rewrite decide_True.
  - by rewrite decide_False.
Qed.

Lemma cut_line_spec text : 0 ∉ text →
  match cut_line text with
  | None => lines text = ([], text)
  | Some (l, r) => lines text = (l :: (lines r).1, (lines r).2) ∧ text = l ++ 10 :: r
  end.
Proof.
  induction text as [|x t IH]; intros H0; [done|]. apply not_elem_of_cons in H0 as [Hx H0]. specialize (IH H0). cbn [cut_line lines].
  rewrite (proj2 (Z.eqb_neq x 0)) by done. destruct (lines t) as [L r] eqn:E. destruct (Z.eqb_spec x 10) as [->|Hn].
  - by rewrite E.
  - destruct (cut_line t) as [[l r']|]; [destruct IH as [[= -> ->] ->]; done|]. by injection IH as -> ->.
Qed.

Lemma scan_spec fuel pattern text : 0 ∉ text → (length text < fuel)%nat → scan fuel pattern text = (found pattern text, (lines text).2).
Proof.
  revert text. induction fuel as [|fuel IH]; intros text H0 Hf; [lia|]. simpl. pose proof (cut_line_spec text H0) as C.
  destruct (cut_line text) as [[l r]|].
  - destruct C as [E ->]. apply not_elem_of_app in H0 as [_ H0]. apply not_elem_of_cons in H0 as [_ H0]. rewrite length_app in Hf. simpl in Hf.
    rewrite IH by (done || lia). rewrite (found_step pattern l _ _ _ E), E. done.
  - unfold found. by rewrite C.
Qed.

(** Text that arrives in two pieces. *)
Lemma lines_app a b : lines (a ++ b) = ((lines a).1 ++ (lines ((lines a).2 ++ b)).1, (lines ((lines a).2 ++ b)).2).
Proof.
  induction a as [|x a IH]; simpl; [by destruct (lines b)|]. rewrite IH. destruct (lines a) as [L r]. simpl. destruct (x =? 10) eqn:Ex; [done|].
  destruct L as [|l L]; [|done]. simpl. rewrite Ex. by destruct (lines (r ++ b)) as [[|l' L'] r'].
Qed.

Lemma found_app pattern a b : found pattern (a ++ b) = found pattern a ++ found pattern ((lines a).2 ++ b).
Proof. unfold found. rewrite lines_app. simpl. by rewrite filter_app, fmap_app, concat_app. Qed.

(** No line, complete or not, has more than [n] characters. *)
Definition short (n : nat) (text : list Z) : Prop := Forall (λ l, (length l <= n)%nat) (lines text).1 ∧ (length (lines text).2 <= n)%nat.

Lemma short_app n a b : short n (a ++ b) → short n ((lines a).2 ++ b).
Proof. unfold short. rewrite lines_app. simpl. by rewrite Forall_app; intros [[_ ?] ?]. Qed.

Lemma lines_first a b : (lines a).1 = [] → (length a <= length (match (lines (a ++ b)).1 with l :: _ => l | [] => (lines (a ++ b)).2 end))%nat.
Proof.
  induction a as [|x a IH]; simpl; [lia|]. intros E. destruct (lines a) as [L r]. destruct (x =? 10); [done|]. destruct L as [|l L]; [|done].
  specialize (IH eq_refl). destruct (lines (a ++ b)) as [[|l' L'] r']; simpl in *; lia.
Qed.

Lemma short_carry n a b : (lines a).1 = [] → short n (a ++ b) → (length a <= n)%nat.
Proof.
  intros E [S1 S2]. pose proof (lines_first a b E) as H. destruct (lines (a ++ b)).1 as [|l L]; [lia|]. apply Forall_cons in S1 as [S1 _]. lia.
Qed.

Lemma lines_rest a : (lines (lines a).2).1 = [] ∧ (lines (lines a).2).2 = (lines a).2.
Proof.
  induction a as [|x a IH]; [done|]. simpl. destruct (lines a) as [L r] eqn:E. destruct (x =? 10) eqn:Ex; [done|]. destruct L as [|l L]; [|done].
  simpl in *. destruct (lines r) as [L' r']. simpl in *. destruct IH as [-> ->]. by rewrite Ex.
Qed.

Lemma lines_sub a x : x ∈ (lines a).2 → x ∈ a.
Proof.
  induction a as [|y a IH]; [done|]. simpl. destruct (lines a) as [L r]. destruct (y =? 10); [intros H; right; by apply IH|].
  destruct L as [|l L]; simpl in *; [|intros H; right; by apply IH]. rewrite !elem_of_cons. naive_solver.
Qed.

(** ** Reading in pieces *)

(** What [read] promises: the bytes that are left, in order, at least one of them
    when asked for one and there are any. *)
Class ReaderLaws (F : Type) `{Reader F} := {
  rest : F → list Z;
  read_spec f n : 0 <= n → ∃ bs f', read f n = (Some bs, f') ∧ Z.of_nat (length bs) <= n ∧ rest f = bs ++ rest f' ∧ (bs = [] → 0 < n → rest f = [])
}.

Section Read.
Context {F : Type} `{!Reader F} `{!ReaderLaws F}.

Lemma grep_loop_spec fuel pattern carry f : (lines carry).1 = [] → 0 ∉ carry ++ rest f → short 1022 (carry ++ rest f) → (length (rest f) < fuel)%nat →
  ∃ f', grep_loop fuel pattern carry f = Some (found pattern (carry ++ rest f), f') ∧ rest f' = [].
Proof.
  revert carry f. induction fuel as [|fuel IH]; intros carry f Hc H0 Hs Hf; [lia|]. cbn [grep_loop]. pose proof (short_carry _ _ _ Hc Hs) as Hl.
  destruct (read_spec f (1024 - Z.of_nat (length carry) - 1)) as (bs & f1 & -> & Hb & Er & He); [lia|]. destruct bs as [|x bs].
  - specialize (He eq_refl ltac:(lia)). exists f1. rewrite He, app_nil_r in *. split; [|done]. unfold found. by rewrite Hc.
  - rewrite Er in *. rewrite (app_assoc carry (x :: bs)) in H0, Hs |- *. apply not_elem_of_app in H0 as [H0 H1].
    set (text := carry ++ x :: bs) in *. rewrite scan_spec by (done || lia).
    destruct (IH (lines text).2 f1) as (f2 & -> & Ef).
    + apply lines_rest.
    + apply not_elem_of_app. split; [|done]. intros Hin. by apply H0, lines_sub.
    + by apply short_app.
    + rewrite length_app in Hf. simpl in Hf. lia.
    + exists f2. split; [by rewrite (found_app pattern text)|done].
Qed.

(** C33 (functional).  However the file arrives in pieces, [grep] reads it to its end
    and writes exactly the complete lines that match, in order and with their
    newlines, provided that the text has no NUL and its lines fit the buffer. *)
Theorem grep_correct fuel pattern f : 0 ∉ rest f → short 1022 (rest f) → (length (rest f) < fuel)%nat →
  ∃ f', grep fuel pattern f = Some (found pattern (rest f), f') ∧ rest f' = [].
Proof. intros H0 Hs Hf. by apply (grep_loop_spec fuel pattern [] f). Qed.
End Read.

(** A line that does not fit ends the search: nothing after it is read. *)
Lemma grep_long_line {F} `{!Reader F} `{!ReaderLaws F} fuel pattern carry f : length carry = 1023%nat → (0 < fuel)%nat →
  ∃ f', grep_loop fuel pattern carry f = Some ([], f') ∧ rest f' = rest f.
Proof.
  intros Hl Hf. destruct fuel as [|fuel]; [lia|]. cbn [grep_loop]. rewrite Hl. destruct (read_spec f (1024 - Z.of_nat 1023 - 1)) as (bs & f1 & -> & Hb & Er & _); [lia|].
  destruct bs as [|x bs]; [by exists f1|]. simpl in Hb. lia.
Qed.

(** ** A file that arrives in pieces *)

(** Every [read] answers at most [n] bytes of what is left. *)
Record trickle (n : nat) := mkTrickle { left : list Z }.
Arguments left {n} _.
#[export] Instance trickle_reader n : Reader (trickle n) := {|
  read f k := (Some (take (Z.to_nat (Z.min k (Z.of_nat n))) (left f)), mkTrickle n (drop (Z.to_nat (Z.min k (Z.of_nat n))) (left f)))
|}.
#[export] Program Instance trickle_laws n : ReaderLaws (trickle (S n)) := {| rest := left |}.
Next Obligation.
  intros n f k Hk. do 2 eexists. split; [done|]. rewrite length_take. split; [lia|]. split; [symmetry; apply take_drop|].
  intros E H1. destruct (left f) as [|x l]; [done|]. by replace (Z.to_nat _) with (S (Z.to_nat (Z.min k (Z.of_nat (S n))) - 1)) in E by lia.
Qed.

(** The pattern [^a.*c$] on three lines, read four bytes at a time. *)
Definition demo_pattern : list Z := [94; 97; 46; 42; 99; 36].
Definition demo_text : list Z := [97; 98; 99; 10; 98; 99; 10; 97; 99; 10].

Lemma grep_correct_witness : ∃ f', grep 20 demo_pattern (mkTrickle 4 demo_text) = Some ([97; 98; 99; 10; 97; 99; 10], f') ∧ rest f' = [].
Proof.
  destruct (grep_correct 20 demo_pattern (mkTrickle 4 demo_text)) as (f' & E & Ef).
  - apply (bool_decide_unpack _). by vm_compute.
  - split; [apply (bool_decide_unpack _); by vm_compute|]. vm_compute. lia.
  - simpl. lia.
  - exists f'. split; [|done]. by rewrite E.
Defined.

