(* ===== verification/Ulib.v ===== *)
(** * The library of the user programs (user/ulib.c, user/printf.c)

    The functions on strings and memory, each the loop of the source on the memory of
    the program ([char] is unsigned on this machine), and formatted output as the
    characters written.  [gets] is with the shell, its only user. *)

From S2P Require Import Prelude Mem.

(** ** user/ulib.c *)

(** [while(( *s++ = *t++) != 0)]. *)
Fixpoint ustrcpy (fuel : nat) (m : mem) (s t : Z) : option mem :=
  match fuel with
  | O => None
  | S fuel' =>
      let c := ldb m t in
      let m' := stb m s c in
      if truthy c then ustrcpy fuel' m' (s + 1) (t + 1) else Some m'
  end.

(** [while( *p && *p == *q)]. *)
Fixpoint ustrcmp (fuel : nat) (m : mem) (p q : Z) : option Z :=
  match fuel with
  | O => None
  | S fuel' =>
      if truthy (ldb m p) && (ldb m p =? ldb m q) then ustrcmp fuel' m (p + 1) (q + 1)
      else Some (ldb m p - ldb m q)
  end.

Fixpoint ustrlen_loop (fuel : nat) (m : mem) (s n : Z) : option Z :=
  match fuel with
  | O => None
  | S fuel' => if truthy (ldb m (s + n)) then ustrlen_loop fuel' m s (n + 1) else Some n
  end.
Definition ustrlen (fuel : nat) (m : mem) (s : Z) : option Z := ustrlen_loop fuel m s 0.

Fixpoint umemset_loop (n : nat) (m : mem) (dst i c : Z) : mem :=
  match n with
  | O => m
  | S n' => umemset_loop n' (stb m (dst + i) c) dst (i + 1) c
  end.
Definition umemset (m : mem) (dst c n : Z) : mem := umemset_loop (Z.to_nat n) m dst 0 c.

(** Answers 0 when the character is not there. *)
Fixpoint ustrchr (fuel : nat) (m : mem) (s c : Z) : option Z :=
  match fuel with
  | O => None
  | S fuel' =>
      if truthy (ldb m s) then if ldb m s =? c then Some s else ustrchr fuel' m (s + 1) c
      else Some 0
  end.

(** [while('0' <= *s && *s <= '9') n = n*10 + *s++ - '0']; the additions are of
    [int]s and overflow is undefined. *)
Fixpoint atoi_loop (fuel : nat) (m : mem) (s n : Z) : outcome Z :=
  match fuel with
  | O => Hang
  | S fuel' =>
      let c := ldb m s in
      if (48 <=? c) && (c <=? 57) then
        if n * 10 + c <? 2 ^ 31 then atoi_loop fuel' m (s + 1) (n * 10 + c - 48) else Undef
      else Ok n
  end.
Definition atoi (fuel : nat) (m : mem) (s : Z) : outcome Z := atoi_loop fuel m s 0.

Definition umemmove (m : mem) (vdst vsrc n : Z) : mem :=
  if vdst <? vsrc then copy_up (Z.to_nat n) m vdst vsrc
  else copy_down (Z.to_nat n) m (vdst + n) (vsrc + n).

Fixpoint umemcmp (n : nat) (m : mem) (p1 p2 : Z) : Z :=
  match n with
  | O => 0
  | S n' => if negb (ldb m p1 =? ldb m p2) then ldb m p1 - ldb m p2 else umemcmp n' m (p1 + 1) (p2 + 1)
  end.

(** [n] is a [uint] here and an [int] there. *)
Definition umemcpy (m : mem) (dst src n : Z) : mem := umemmove m dst src (s32 n).

(** ** user/printf.c *)

(** [digits[]]. *)
Definition udigit (d : Z) : Z := if d <? 10 then 48 + d else 55 + d.

(** [do { buf[i++] = digits[x % base]; } while((x /= base) != 0)]. *)
Fixpoint udigits_rev (fuel : nat) (x base : Z) : list Z :=
  match fuel with
  | O => []
  | S fuel' => udigit (x mod base) :: (if x / base =? 0 then [] else udigits_rev fuel' (x / base) base)
  end.

(** What [printint] puts out, the characters of its buffer backwards; [xx] is an
    [int], and the least one, whose negation is undefined in C, is taken as the
    machine negates it. *)
Definition uprintint (xx base : Z) (sgn : bool) : list Z :=
  let neg := sgn && (xx <? 0) in
  let x := if neg then u32 (- xx) else u32 xx in
  rev (udigits_rev 32 x base ++ if neg then [45] else []).

Fixpoint printptr_loop (n : nat) (x : Z) : list Z :=
  match n with
  | O => []
  | S n' => udigit (Z.shiftr x 60) :: printptr_loop n' (u64 (Z.shiftl x 4))
  end.
Definition printptr (x : Z) : list Z := 48 :: 120 :: printptr_loop 16 x.

(** A variadic argument: a register, or a pointer to a string. *)
Inductive uarg := UNum (v : Z) | UStr (s : option (list Z)).

(** What the directive with the letter [c] puts out, and the arguments left; [None]
    when the arguments are not of the kinds the format names. *)
Definition directive (c : Z) (ap : list uarg) : option (list Z * list uarg) :=
  if c =? 100 then match ap with UNum v :: ap' => Some (uprintint (s32 v) 10 true, ap') | _ => None end
  else if c =? 108 then match ap with UNum v :: ap' => Some (uprintint (s32 v) 10 false, ap') | _ => None end
  else if c =? 120 then match ap with UNum v :: ap' => Some (uprintint (s32 v) 16 false, ap') | _ => None end
  else if c =? 112 then match ap with UNum v :: ap' => Some (printptr v, ap') | _ => None end
  else if c =? 115 then match ap with UStr s :: ap' => Some (default [40; 110; 117; 108; 108; 41] s, ap') | _ => None end
  else if c =? 99 then match ap with UNum v :: ap' => Some ([u8 v], ap') | _ => None end
  else if c =? 37 then Some ([c], ap)
  else Some ([37; c], ap).

(** The loop over the format; [state] is whether a percent sign came before. *)
Fixpoint vprintf (state : bool) (fmt : list Z) (ap : list uarg) : option (list Z) :=
  match fmt with
  | [] => Some []
  | c :: fmt' =>
      if (state : bool) then
        '(out, ap') ← directive c ap;
        rest ← vprintf false fmt' ap';
        Some (out ++ rest)
      else if c =? 37 then vprintf true fmt' ap
      else rest ← vprintf false fmt' ap; Some (c :: rest)
  end.
