(* ===== verification/UlibProps.v ===== *)
(** * The library of the user programs is correct (user/ulib.c, user/printf.c) *)

From S2P Require Import Prelude Mem Ulib.

(** ** Memory *)

(** However source and destination overlap, the destination gets the bytes that were
    at the source, and nothing else changes. *)
Theorem umemmove_correct m dst src n a : 0 <= n →
  ldb (umemmove m dst src n) a = if (dst <=? a) && (a <? dst + n) then ldb m (src + (a - dst)) else ldb m a.
Proof.
  intros Hn. unfold umemmove. case_test.
  - rewrite copy_up_ldb by lia. by rewrite Z2Nat.id by lia.
  - rewrite copy_down_ldb by lia. rewrite Z2Nat.id by lia. replace (dst + n - n) with dst by lia. by replace (src + n + (a - (dst + n))) with (src + (a - dst)) by lia.
Qed.

(** [memcpy] is [memmove] for the lengths an [int] can hold. *)
Theorem umemcpy_correct m dst src n a : 0 <= n < 2 ^ 31 →
  ldb (umemcpy m dst src n) a = if (dst <=? a) && (a <? dst + n) then ldb m (src + (a - dst)) else ldb m a.
Proof. intros Hn. unfold umemcpy. rewrite (swrap_small 32) by lia. apply umemmove_correct. lia. Qed.

Lemma umemset_loop_eq n m dst i c : umemset_loop n m dst i c = memset_loop n m dst i c.
Proof. revert m i. induction n as [|n IH]; intros m i; simpl; [done|]. apply IH. Qed.

Theorem umemset_correct m dst c n a : 0 <= n →
  ldb (umemset m dst c n) a = if (dst <=? a) && (a <? dst + n) then u8 c else ldb m a.
Proof. intros Hn. unfold umemset. rewrite umemset_loop_eq. by apply memset_ldb. Qed.

Theorem umemcmp_correct n m p q : umemcmp n m p q = 0 ↔ ∀ i, 0 <= i < Z.of_nat n → ldb m (p + i) = ldb m (q + i).
Proof.
  assert (umemcmp n m p q = memcmp_loop n m p q) as -> by (revert p q; induction n as [|n IH]; intros p q; simpl; [done|]; by rewrite IH).
  apply memcmp_loop_zero.
Qed.

(** ** Strings *)

Theorem ustrlen_correct fuel m s l : cstr m s l → (length l < fuel)%nat → ustrlen fuel m s = Some (Z.of_nat (length l)).
Proof.
  intros Hl Hf. unfold ustrlen. assert (∀ n, ustrlen_loop fuel m s n = strlen_loop fuel m s n) as ->.
  { clear. induction fuel as [|fuel IH]; intros n; simpl; [done|]. by rewrite IH. }
  apply (strlen_loop_cstr fuel m s 0); [by rewrite Z.add_0_r|done].
Qed.

(** Two strings compare equal exactly when they are. *)
Theorem ustrcmp_correct fuel m p q l l' : cstr m p l → cstr m q l' → (length l < fuel)%nat →
  ∃ r, ustrcmp fuel m p q = Some r ∧ (r = 0 ↔ l = l').
Proof.
  revert p q l l'. induction fuel as [|fuel IH]; intros p q l l' Hl Hl' Hf; [lia|]. cbn [ustrcmp]. destruct l as [|b l]; cbn [cstr] in Hl.
  - rewrite Hl. simpl. eexists. split; [done|]. destruct l' as [|b' l']; cbn [cstr] in Hl'; [by rewrite Hl'|]. split; [lia|done].
  - destruct Hl as (Hb & Eb & Hl). rewrite Eb. unfold truthy. rewrite (proj2 (Z.eqb_neq b 0)) by done. cbn [negb andb]. destruct l' as [|b' l']; cbn [cstr] in Hl'.
    + rewrite Hl', (proj2 (Z.eqb_neq b 0)) by done. eexists. split; [done|]. split; [lia|done].
    + destruct Hl' as (Hb' & Eb' & Hl'). rewrite Eb'. destruct (Z.eqb_spec b b') as [->|Hne].
      * destruct (IH (p + 1) (q + 1) l l' Hl Hl' ltac:(simpl in Hf; lia)) as (r & -> & Hr). exists r. split; [done|]. rewrite Hr. split; [by intros ->|by intros [= ->]].
      * eexists. split; [done|]. split; [lia|]. by intros [= ->].
Qed.

(** The first occurrence, or 0. *)
Theorem ustrchr_correct fuel m s l c : cstr m s l → (length l < fuel)%nat → c ≠ 0 →
  ustrchr fuel m s c = Some (match list_find (λ b, b = c) l with Some (i, _) => s + Z.of_nat i | None => 0 end).
Proof.
  revert s l. induction fuel as [|fuel IH]; intros s l Hl Hf Hc; [lia|]. cbn [ustrchr]. destruct l as [|b l]; cbn [cstr] in Hl; [by rewrite Hl|].
  destruct Hl as (Hb & Eb & Hl). rewrite Eb. unfold truthy. rewrite (proj2 (Z.eqb_neq b 0)) by done. cbn [negb list_find].
  destruct (Z.eqb_spec b c) as [->|Hne]; [by rewrite decide_True, Z.add_0_r by done|]. rewrite decide_False by done.
  rewrite (IH (s + 1) l Hl) by (done || (simpl in Hf; lia)). destruct (list_find _ l) as [[i x]|]; [|done]. cbn. f_equal. lia.
Qed.

(** A string is copied with its NUL to a place it does not overlap, and nothing else
    changes. *)
Theorem ustrcpy_correct fuel m s t l : cstr m t l → (length l < fuel)%nat →
  s + Z.of_nat (length l) < t ∨ t + Z.of_nat (length l) < s →
  ∃ m', ustrcpy fuel m s t = Some m' ∧ cstr m' s l ∧ ∀ a, ¬ s <= a <= s + Z.of_nat (length l) → ldb m' a = ldb m a.
Proof.
  revert m s t l. induction fuel as [|fuel IH]; intros m s t l Hl Hf Hd; [lia|]. cbn [ustrcpy]. destruct l as [|b l]; cbn [cstr] in Hl.
  - rewrite Hl. eexists. split; [done|]. split; [apply ldb_stb_eq|]. intros a Ha. apply ldb_stb_ne. simpl in Ha. lia.
  - destruct Hl as (Hb & Eb & Hl). rewrite Eb. unfold truthy. rewrite (proj2 (Z.eqb_neq b 0)) by done. cbn [negb]. cbn [length] in *.
    assert (cstr (stb m s b) (t + 1) l) as Hl2.
    { eapply cstr_ext; [|exact Hl]. intros a Ha. apply ldb_stb_ne. lia. }
    destruct (IH (stb m s b) (s + 1) (t + 1) l Hl2 ltac:(lia) ltac:(lia)) as (m' & -> & Hc & Ho). exists m'. split; [done|]. split.
    + split; [done|]. split; [|done]. rewrite Ho by lia. rewrite ldb_stb_eq. rewrite <- Eb. apply u8_ldb.
    + intros a Ha. rewrite Ho by lia. apply ldb_stb_ne. lia.
Qed.

(** ** Numbers *)

Definition uvalue (c : Z) : Z := if c <? 58 then c - 48 else c - 55.
Definition unumber (base : Z) (l : list Z) : Z := foldl (λ n c, n * base + uvalue c) 0 l.

Lemma udigit_value d : 0 <= d < 16 → uvalue (udigit d) = d.
Proof. intros Hd. unfold udigit, uvalue. case_tests. Qed.

Lemma udigits_spec base n fuel x : 1 < base <= 16 → (0 < n <= fuel)%nat → 0 <= x < base ^ Z.of_nat n →
  (0 < length (udigits_rev fuel x base) <= n)%nat ∧ unumber base (rev (udigits_rev fuel x base)) = x ∧
  Forall (λ c, ∃ d, 0 <= d < base ∧ c = udigit d) (udigits_rev fuel x base).
Proof.
  intros Hb. revert fuel x. induction n as [|n IH]; intros fuel x Hn Hx; [lia|]. destruct fuel as [|fuel]; [lia|].
  cbn [udigits_rev]. assert (0 <= x mod base < base) as Hm by (apply Z.mod_pos_bound; lia). pose proof (Z.div_mod x base ltac:(lia)) as Ed.
  destruct (Z.eqb_spec (x / base) 0) as [E|E].
  - split_and!; [simpl; lia|simpl; lia| |repeat constructor; eauto]. unfold unumber. cbn [rev app foldl]. rewrite udigit_value by lia. lia.
  - assert (n ≠ 0%nat) as Hn0. { intros ->. change (Z.of_nat 1) with 1 in Hx. rewrite Z.pow_1_r in Hx. apply E, Z.div_small. lia. }
    destruct (IH fuel (x / base)) as (Hlen & Hval & Hall); [lia| |].
    { split; [apply Z.div_pos; lia|]. apply Z.div_lt_upper_bound; [lia|]. rewrite <- Z.pow_succ_r by lia. replace (Z.succ (Z.of_nat n)) with (Z.of_nat (S n)) by lia. lia. }
    split_and!; [simpl; lia|simpl; lia| |constructor; eauto]. unfold unumber in *. cbn [rev]. rewrite foldl_app, Hval. cbn [foldl]. rewrite udigit_value by lia. lia.
Qed.

(** [printint] does not overrun its [buf[16]], and prints the number. *)
Theorem uprintint_correct xx base sgn : - 2 ^ 31 < xx < 2 ^ 31 → base = 10 ∨ base = 16 →
  (0 < length (uprintint xx base sgn) <= 11)%nat ∧
  ∃ ds, uprintint xx base sgn = (if sgn && (xx <? 0) then [45] else []) ++ ds ∧ unumber base ds = (if sgn then Z.abs xx else u32 xx) ∧
    Forall (λ c, ∃ d, 0 <= d < base ∧ c = udigit d) ds.
Proof.
  intros Hx Hb. unfold uprintint. set (neg := sgn && (xx <? 0)). set (x := if neg then u32 (- xx) else u32 xx).
  assert (1 < base <= 16 ∧ 2 ^ 32 <= base ^ Z.of_nat 10) as [Hb1 Hb2] by (destruct Hb as [-> | ->]; simpl; lia).
  assert (0 <= x < 2 ^ 32) as Hxr by (unfold x; destruct neg; by apply wrap_bound).
  destruct (udigits_spec base 10 32 x Hb1) as (Hl & Hv & Ha); [lia|lia|].
  revert Hl Hv Ha. generalize (udigits_rev 32 x base) as l. intros l Hl Hv Ha. rewrite rev_app_distr, length_app, !length_rev. split.
  { destruct neg; cbn [length]; lia. }
  exists (rev l). split_and!.
  - by destruct neg.
  - rewrite Hv. unfold x, neg. destruct sgn; [|done]. simpl. destruct (Z.ltb_spec xx 0); rewrite (wrap_small 32); lia.
  - apply Forall_rev. done.
Qed.

(** Decimal digits at [s], and something else behind them. *)
Fixpoint digits_at (m : mem) (s : Z) (ds : list Z) : Prop :=
  match ds with
  | [] => ldb m s < 48 ∨ 57 < ldb m s
  | d :: ds' => ldb m s = d ∧ 48 <= d <= 57 ∧ digits_at m (s + 1) ds'
  end.

Lemma atoi_loop_digits ds : ∀ fuel m s n, digits_at m s ds → (length ds < fuel)%nat → 0 <= n →
  foldl (λ n c, n * 10 + uvalue c) n ds < 2 ^ 31 - 48 → atoi_loop fuel m s n = Ok (foldl (λ n c, n * 10 + uvalue c) n ds).
Proof.
  assert (∀ ds n, 0 <= n → Forall (λ d, 48 <= d <= 57) ds → n <= foldl (λ n c, n * 10 + uvalue c) n ds) as Hmono.
  { clear. induction ds as [|d ds IH]; intros n Hn F; simpl; [lia|]. apply Forall_cons in F as [Hd F]. assert (uvalue d = d - 48) as Ev by (unfold uvalue; case_tests).
    specialize (IH (n * 10 + uvalue d) ltac:(lia) F). lia. }
  assert (∀ m s ds, digits_at m s ds → Forall (λ d, 48 <= d <= 57) ds) as Hall.
  { clear. intros m s ds. revert s. induction ds as [|d ds IH]; intros s; simpl; [done|]. intros (_ & Hd & H). constructor; [done|eauto]. }
  induction ds as [|d ds IH]; intros fuel m s n Hd Hf Hn Hv; (destruct fuel as [|fuel]; [simpl in Hf; lia|]); cbn [atoi_loop digits_at foldl] in *.
  - case_tests.
  - destruct Hd as (-> & Hd & Hds). rewrite (proj2 (Z.leb_le 48 d)), (proj2 (Z.leb_le d 57)) by lia. cbn [andb].
    assert (uvalue d = d - 48) as Ev by (unfold uvalue; case_tests). rewrite Ev in *. pose proof (Hmono ds (n * 10 + (d - 48)) ltac:(lia) (Hall _ _ _ Hds)).
    rewrite (proj2 (Z.ltb_lt _ _)) by lia. replace (n * 10 + d - 48) with (n * 10 + (d - 48)) by lia. apply IH; [done|simpl in Hf; lia|lia|done].
Qed.

(** [atoi] reads back what [%d] prints, short of the last numbers an [int] has. *)
Theorem atoi_printint fuel m s v : 0 <= v < 2 ^ 31 - 48 → digits_at m s (uprintint v 10 true) → (11 < fuel)%nat → atoi fuel m s = Ok v.
Proof.
  intros Hv Hd Hf. destruct (uprintint_correct v 10 true ltac:(lia) ltac:(by left)) as (Hl & ds & E & En & _).
  rewrite (proj2 (Z.ltb_ge v 0)) in E by lia. cbn [andb app] in E. rewrite E in Hd, Hl.
  unfold unumber in En. unfold atoi. rewrite (atoi_loop_digits ds); [|done|lia|lia|]; rewrite En; [f_equal|]; lia.
Qed.

(** ** [printf] *)

(** A format in pieces: text, and the directives with their arguments. *)
Inductive piece := Text (l : list Z) | Dir (c : Z) (a : uarg) | Percent.
Definition piece_ok (p : piece) : Prop :=
  match p with
  | Text l => 37 ∉ l
  | Dir c (UNum v) => c ∈ [100; 108; 120; 112; 99]
  | Dir c (UStr _) => c = 115
  | Percent => True
  end.
Definition piece_fmt (p : piece) : list Z := match p with Text l => l | Dir c _ => [37; c] | Percent => [37; 37] end.
Definition piece_args (p : piece) : list uarg := match p with Dir _ a => [a] | _ => [] end.
Definition piece_out (p : piece) : list Z :=
  match p with
  | Text l => l
  | Dir c (UNum v) =>
      if c =? 100 then uprintint (s32 v) 10 true
      else if c =? 108 then uprintint (s32 v) 10 false
      else if c =? 120 then uprintint (s32 v) 16 false
      else if c =? 112 then printptr v else [u8 v]
  | Dir _ (UStr s) => default [40; 110; 117; 108; 108; 41] s
  | Percent => [37]
  end.

Lemma vprintf_text l fmt ap : 37 ∉ l → vprintf false (l ++ fmt) ap = (λ r, l ++ r) <$> vprintf false fmt ap.
Proof.
  induction l as [|c l IH]; intros H; simpl; [by destruct (vprintf false fmt ap)|]. apply not_elem_of_cons in H as [Hc H].
  rewrite (proj2 (Z.eqb_neq _ _)) by done. rewrite IH by done. by destruct (vprintf false fmt ap).
Qed.

Lemma directive_piece c a ap : piece_ok (Dir c a) → directive c (a :: ap) = Some (piece_out (Dir c a), ap).
Proof.
  destruct a as [v|s]; simpl; [|by intros ->]. rewrite !elem_of_cons, elem_of_nil. intros [-> |[-> |[-> |[-> |[-> |[]]]]]]; done.
Qed.

(** The arguments go to the directives in their order, and everything is put out in
    the order of the format. *)
Theorem vprintf_correct ps : Forall piece_ok ps →
  vprintf false (concat (piece_fmt <$> ps)) (concat (piece_args <$> ps)) = Some (concat (piece_out <$> ps)).
Proof.
  induction 1 as [|p ps Hp _ IH]; [done|]. cbn [fmap list_fmap concat]. destruct p as [l|c a|]; cbn [piece_fmt piece_args app].
  - rewrite vprintf_text by done. cbn [app]. by rewrite IH.
  - cbn [vprintf Z.eqb Pos.eqb]. rewrite directive_piece by done. cbn [mbind option_bind]. by rewrite IH.
  - cbn [vprintf Z.eqb Pos.eqb]. change (directive 37 _) with (Some ([37], concat (piece_args <$> ps))). cbn [mbind option_bind]. by rewrite IH.
Qed.
