(* ===== verification/Utils.v ===== *)
(** * Two filters (user/wc.c, user/cat.c)

    [wc] counts the lines, words and characters of a file, [cat] copies files to the
    standard output; both read through a buffer of 512 characters.  An exit status is
    the answer of a function that ended the program. *)

From S2P Require Import Prelude Grep GrepProps Ulib UlibProps.

(** ** user/wc.c *)

(** [strchr(" \r\t\n\v", c)]. *)
Definition wc_space (c : Z) : bool := existsb (Z.eqb c) [32; 13; 9; 10; 11].

(** [l], [w], [c] and [inword]. *)
Record tally := mkCounts { wc_l : Z; wc_w : Z; wc_c : Z; wc_inword : bool }.

Definition wc_char (k : tally) (x : Z) : tally :=
  let l := if x =? 10 then wc_l k + 1 else wc_l k in
  if wc_space x then mkCounts l (wc_w k) (wc_c k + 1) false
  else if negb (wc_inword k) then mkCounts l (wc_w k + 1) (wc_c k + 1) true
  else mkCounts l (wc_w k) (wc_c k + 1) (wc_inword k).

Section Filters.
Context {F : Type} `{!Reader F}.

(** [None]: a read failed.  The counts are [int]s; the number of characters, the
    largest of them, overflows first. *)
Fixpoint wc_loop (fuel : nat) (k : tally) (f : F) : outcome (option tally * F) :=
  match fuel with
  | O => Hang
  | S fuel' =>
      match read f 512 with
      | (None, f') => Ok (None, f')
      | (Some [], f') => Ok (Some k, f')
      | (Some bs, f') =>
          let k' := foldl wc_char k bs in
          if wc_c k' <? 2 ^ 31 then wc_loop fuel' k' f' else Undef
      end
  end.

(** "%d %d %d %s\n". *)
Definition wc_fmt : list Z := [37; 100; 32; 37; 100; 32; 37; 100; 32; 37; 115; 10].
Definition wc_failed : list Z := [119; 99; 58; 32; 114; 101; 97; 100; 32; 101; 114; 114; 111; 114; 10].   (* wc: read error *)

(** The exit status, if the program ends, and what is written. *)
Definition wc (fuel : nat) (f : F) (name : list Z) : outcome (option Z * list Z * F) :=
  match wc_loop fuel (mkCounts 0 0 0 false) f with
  | Ok (None, f') => Ok (Some 1, wc_failed, f')
  | Ok (Some k, f') =>
      match vprintf false wc_fmt [UNum (wc_l k); UNum (wc_w k); UNum (wc_c k); UStr (Some name)] with
      | Some out => Ok (None, out, f')
      | None => Undef
      end
  | Panic s => Panic s
  | Hang => Hang
  | Undef => Undef
  end.

(** ** user/cat.c *)

(** [write(1, ..)]: how many bytes were taken, and the descriptor after it. *)
Context {O : Type} (write : O → list Z → Z * O).

(** The exit status, if the program ends, and which message was written to the
    standard error. *)
Inductive complaint := WriteError | ReadError.

Fixpoint cat (fuel : nat) (f : F) (o : O) : outcome (option complaint * F * O) :=
  match fuel with
  | 0%nat => Hang
  | S fuel' =>
      match read f 512 with
      | (None, f') => Ok (Some ReadError, f', o)
      | (Some [], f') => Ok (None, f', o)
      | (Some bs, f') =>
          let '(n, o') := write o bs in
          if n =? Z.of_nat (length bs) then cat fuel' f' o' else Ok (Some WriteError, f', o')
      end
  end.
End Filters.

(** ** What they compute *)

(** A word starts at a character that is not white space, after one that is or at the
    beginning. *)
Definition word_start (text : list Z) (i : nat) : bool :=
  match text !! i with
  | Some c => negb (wc_space c) && match i with O => true | S j => match text !! j with Some d => wc_space d | None => false end end
  | None => false
  end.
Definition word_count (text : list Z) : Z := Z.of_nat (length (List.filter (word_start text) (seq 0 (length text)))).
Definition line_count (text : list Z) : Z := Z.of_nat (length (List.filter (Z.eqb 10) text)).

Lemma word_count_snoc text c : word_count (text ++ [c]) = word_count text + b2z (word_start (text ++ [c]) (length text)).
Proof.
  unfold word_count. rewrite length_app. cbn [length]. rewrite Nat.add_1_r, seq_S, List.filter_app, length_app. cbn [List.filter Nat.add].
  rewrite (List.filter_ext_in _ (word_start text)).
  - destruct (word_start _ _); simpl; lia.
  - intros i Hi%in_seq. unfold word_start. rewrite lookup_app_l by lia. destruct i as [|j]; [done|]. by rewrite lookup_app_l by lia.
Qed.

Lemma foldl_counts text : foldl wc_char (mkCounts 0 0 0 false) text =
  mkCounts (line_count text) (word_count text) (Z.of_nat (length text))
    (match last text with Some c => negb (wc_space c) | None => false end).
Proof.
  induction text as [|c text IH] using rev_ind; [done|]. rewrite foldl_snoc, IH, word_count_snoc, last_snoc, length_app.
  unfold word_start. rewrite lookup_app_r, Nat.sub_diag by lia. cbn [lookup list_lookup length].
  assert (line_count (text ++ [c]) = if c =? 10 then line_count text + 1 else line_count text) as El.
  { unfold line_count. rewrite List.filter_app, length_app. cbn [List.filter]. rewrite Z.eqb_sym. destruct (c =? 10); simpl; lia. }
  rewrite El. unfold wc_char. cbn [wc_l wc_w wc_c wc_inword]. replace (Z.of_nat (length text + 1)) with (Z.of_nat (length text) + 1) by lia.
  destruct (wc_space c) eqn:Ec; cbn [negb andb b2z]; [f_equal; lia|].
  assert (match length text with O => true | S j => match (text ++ [c]) !! j with Some d => wc_space d | None => false end end =
          negb (match last text with Some d => negb (wc_space d) | None => false end)) as ->.
  { destruct text as [|x text _] using rev_ind; [done|]. rewrite last_snoc, length_app. cbn [length]. rewrite Nat.add_1_r, lookup_app_l by (rewrite length_app; simpl; lia).
    rewrite lookup_app_r, Nat.sub_diag by lia. cbn [lookup list_lookup]. by rewrite negb_involutive. }
  destruct (match last text with Some d => negb (wc_space d) | None => false end); cbn [negb b2z]; f_equal; lia.
Qed.

Section Laws.
Context {F : Type} `{!Reader F} `{!ReaderLaws F}.

Lemma wc_loop_spec fuel pre f : (length (rest f) < fuel)%nat → Z.of_nat (length (pre ++ rest f)) < 2 ^ 31 →
  ∃ f', wc_loop fuel (foldl wc_char (mkCounts 0 0 0 false) pre) f = Ok (Some (foldl wc_char (mkCounts 0 0 0 false) (pre ++ rest f)), f') ∧ rest f' = [].
Proof.
  revert pre f. induction fuel as [|fuel IH]; intros pre f Hf Hlen; [lia|]. cbn [wc_loop].
  destruct (read_spec f 512) as (bs & f1 & -> & _ & Er & He); [lia|]. destruct bs as [|x bs].
  - specialize (He eq_refl ltac:(lia)). exists f1. rewrite He in *. rewrite app_nil_r. split; [done|]. by rewrite Er in He.
  - rewrite <- foldl_app. rewrite Er, app_assoc in *. rewrite !length_app in *.
    rewrite (proj2 (Z.ltb_lt _ _)) by (rewrite foldl_counts; cbn [wc_c]; rewrite length_app; lia).
    apply IH; [simpl in Hf; lia|rewrite !length_app; lia].
Qed.

(** [wc] prints the number of lines, words and characters of the file, however it is
    delivered in pieces. *)
Theorem wc_correct fuel f name : (length (rest f) < fuel)%nat → Z.of_nat (length (rest f)) < 2 ^ 31 →
  ∃ f', wc fuel f name = Ok (None, uprintint (line_count (rest f)) 10 true ++ [32] ++ uprintint (word_count (rest f)) 10 true ++ [32] ++
                                uprintint (Z.of_nat (length (rest f))) 10 true ++ [32] ++ name ++ [10], f') ∧ rest f' = [].
Proof.
  intros Hf Hlen. destruct (wc_loop_spec fuel [] f Hf Hlen) as (f' & E & Er). exists f'. split; [|done]. unfold wc. cbn [foldl app] in E. rewrite E.
  rewrite foldl_counts. cbn [wc_l wc_w wc_c].
  pose proof (vprintf_correct [Dir 100 (UNum (line_count (rest f))); Text [32]; Dir 100 (UNum (word_count (rest f))); Text [32];
    Dir 100 (UNum (Z.of_nat (length (rest f)))); Text [32]; Dir 115 (UStr (Some name)); Text [10]]) as V.
  cbn [fmap list_fmap piece_fmt piece_args concat app] in V. unfold wc_fmt. rewrite V by (repeat constructor; cbn; set_solver).
  cbn [piece_out Z.eqb Pos.eqb default fmap list_fmap concat app].
  assert (0 <= line_count (rest f) <= Z.of_nat (length (rest f)) ∧ 0 <= word_count (rest f) <= Z.of_nat (length (rest f))) as [Hl Hw].
  { unfold line_count, word_count. pose proof (filter_length_le (Z.eqb 10) (rest f)). pose proof (filter_length_le (word_start (rest f)) (seq 0 (length (rest f)))) as Hs.
    rewrite length_seq in Hs. lia. }
  rewrite !(swrap_small 32) by lia. done.
Qed.

(** [cat] copies the file to an output that takes everything. *)
Theorem cat_correct {O} (write : O → list Z → Z * O) (written : O → list Z) fuel f o :
  (∀ o bs, (write o bs).1 = Z.of_nat (length bs) ∧ written (write o bs).2 = written o ++ bs) → (length (rest f) < fuel)%nat →
  ∃ f' o', cat write fuel f o = Ok (None, f', o') ∧ rest f' = [] ∧ written o' = written o ++ rest f.
Proof.
  intros Hw. revert f o. induction fuel as [|fuel IH]; intros f o Hf; [lia|]. cbn [cat].
  destruct (read_spec f 512) as (bs & f1 & -> & _ & Er & He); [lia|]. destruct bs as [|x bs].
  - specialize (He eq_refl ltac:(lia)). exists f1, o. rewrite He, app_nil_r. split_and!; [done|by rewrite Er in He|done].
  - destruct (Hw o (x :: bs)) as [En Eo]. destruct (write o (x :: bs)) as [n o1]. simpl in En, Eo. rewrite En. cbn [length]. rewrite Z.eqb_refl.
    rewrite Er, length_app in Hf. destruct (IH f1 o1) as (f' & o' & -> & E1 & E2); [simpl in Hf; lia|]. exists f', o'.
    split_and!; [done|done|]. by rewrite E2, Eo, Er, <- app_assoc.
Qed.
End Laws.
