(* ===== verification/Umalloc.v ===== *)
(** * The allocator of user programs (user/umalloc.c)

    The allocator of Kernighan and Ritchie: free blocks form a circular list in
    the order of their addresses, through the headers in front of them.  A
    [Header *] is an address of the program's memory, a header is 16 bytes: the
    pointer to the next free block, and the size of this block in headers.  The
    list goes through [base], a static header of size 0. *)

From S2P Require Import Prelude Mem.

(** What the program gets from outside: the address of [base], and the system call
    [sbrk], which answers an address or [(char* )-1]. *)
Class Sbrk (G : Type) := {
  base : Z;
  sbrk : Z → G → Z * G
}.

(** The memory of the program, [freep] (0 before the first call) and what is
    behind [sbrk]. *)
Record ust (G : Type) := mkU { u_mem : mem; u_freep : Z; u_os : G }.
Arguments mkU {G} _ _ _. Arguments u_mem {G} _. Arguments u_freep {G} _. Arguments u_os {G} _.

(** [p->s.ptr] and [p->s.size]. *)
Definition hptr (m : mem) (p : Z) : Z := ld64 m p.
Definition hsize (m : mem) (p : Z) : Z := ld32 m (p + 8).
(** [p + n] on headers. *)
Definition hadd (p n : Z) : Z := u64 (p + 16 * n).

Section Umalloc.
Context {G : Type} `{!Sbrk G}.
Abbreviation U := (M (ust G)).

Definition set_ptr (p v : Z) : U unit := modify (λ s, mkU (st64 (u_mem s) p v) (u_freep s) (u_os s)).
Definition set_size (p v : Z) : U unit := modify (λ s, mkU (st32 (u_mem s) (p + 8) v) (u_freep s) (u_os s)).
Definition set_freep (p : Z) : U unit := modify (λ s, mkU (u_mem s) p (u_os s)).
Definition get_ptr (p : Z) : U Z := gets (λ s, hptr (u_mem s) p).
Definition get_size (p : Z) : U Z := gets (λ s, hsize (u_mem s) p).

(** The [for] of [free]: the block after which [bp] belongs. *)
Fixpoint free_search (fuel : nat) (bp p : Z) : U Z :=
  match fuel with
  | O => hang
  | S fuel' =>
      let! q := get_ptr p in
      if (p <? bp) && (bp <? q) then ret p
      else if (q <=? p) && ((p <? bp) || (bp <? q)) then ret p
      else free_search fuel' bp q
  end.

Definition free (fuel : nat) (ap : Z) : U unit :=
  let bp := u64 (ap - 16) in
  let! freep := gets u_freep in
  let! p := free_search fuel bp freep in
  let! n := get_size bp in
  let! q := get_ptr p in
  (if hadd bp n =? q then
     let! k := get_size q in
     set_size bp (u32 (n + k)) ;;
     let! q' := get_ptr q in
     set_ptr bp q'
   else set_ptr bp q) ;;
  let! k := get_size p in
  (if hadd p k =? bp then
     let! n := get_size bp in
     set_size p (u32 (k + n)) ;;
     let! q := get_ptr bp in
     set_ptr p q
   else set_ptr p bp) ;;
  set_freep p.

Definition morecore (fuel : nat) (nu : Z) : U Z :=
  let nu := if nu <? 4096 then 4096 else nu in
  let! p := (λ s, let '(p, g) := sbrk (s32 (nu * 16)) (u_os s) in Ok (p, mkU (u_mem s) (u_freep s) g)) in
  if p =? u64 (-1) then ret 0
  else
    set_size p nu ;;
    free fuel (hadd p 1) ;;
    gets u_freep.

Fixpoint malloc_loop (fuel : nat) (nunits prevp p : Z) : U Z :=
  match fuel with
  | O => hang
  | S fuel' =>
      let! n := get_size p in
      if nunits <=? n then
        let! p' :=
          (if n =? nunits then
             let! q := get_ptr p in
             set_ptr prevp q ;;
             ret p
           else
             set_size p (u32 (n - nunits)) ;;
             let! n' := get_size p in
             set_size (hadd p n') nunits ;;
             ret (hadd p n')) in
        set_freep prevp ;;
        ret (hadd p' 1)
      else
        let! freep := gets u_freep in
        if p =? freep then
          let! p' := morecore fuel nunits in
          if p' =? 0 then ret 0
          else
            let! q := get_ptr p' in
            malloc_loop fuel' nunits p' q
        else
          let! q := get_ptr p in
          malloc_loop fuel' nunits p q
  end.

(** [(nbytes + sizeof(Header) - 1)/sizeof(Header) + 1]. *)
Definition units (nbytes : Z) : Z := u32 ((nbytes + 16 - 1) / 16 + 1).

Definition malloc (fuel : nat) (nbytes : Z) : U Z :=
  let nunits := units nbytes in
  let! freep := gets u_freep in
  let! prevp :=
    (if freep =? 0 then
       set_freep base ;;
       set_ptr base base ;;
       set_size base 0 ;;
       ret base
     else ret freep) in
  let! p := get_ptr prevp in
  malloc_loop fuel nunits prevp p.
End Umalloc.
