(* ===== verification/UmallocSpec.v ===== *)
(** * The allocator of user programs keeps its blocks apart (user/umalloc.c)

    The free list is described by the list [L] of its blocks in the order of their
    addresses, the blocks in use by [A].  Together they cover the memory that came
    from [sbrk], disjointly; no two free blocks touch each other. *)

From S2P Require Import Prelude Mem Umalloc.

(** A block: the address of its header, its size in headers. *)
Abbreviation block := (Z * Z)%type.
Definition inside (x : Z) (b : block) : Prop := b.1 <= x < b.1 + 16 * b.2.
Definition apart (b c : block) : Prop := b.1 + 16 * b.2 <= c.1 ∨ c.1 + 16 * c.2 <= b.1.

(** ** Memory *)

#[local] Arguments ld : simpl never.
#[local] Arguments st : simpl never.

(** Headers that do not overlap. *)
Definition far (p q : Z) : Prop := p + 16 <= q ∨ q + 16 <= p.

Lemma hptr_ptr m p v : 0 <= v < 2 ^ 64 → hptr (st64 m p v) p = v.
Proof. intros. unfold hptr. by apply ld64_st64. Qed.
Lemma hsize_size m p v : 0 <= v < 2 ^ 32 → hsize (st32 m (p + 8) v) p = v.
Proof. intros Hv. unfold hsize. rewrite ld_st. apply Z.mod_small. simpl. lia. Qed.
Lemma hptr_size m p v q : p = q ∨ far p q → hptr (st32 m (p + 8) v) q = hptr m q.
Proof. intros H. unfold hptr. apply ld_st_out. unfold far in H. lia. Qed.
Lemma hsize_ptr m p v q : p = q ∨ far p q → hsize (st64 m p v) q = hsize m q.
Proof. intros H. unfold hsize. apply ld_st_out. unfold far in H. lia. Qed.
Lemma hptr_ptr_ne m p v q : far p q → hptr (st64 m p v) q = hptr m q.
Proof. intros H. unfold hptr. apply ld_st_out. unfold far in H. lia. Qed.
Lemma hsize_size_ne m p v q : far p q → hsize (st32 m (p + 8) v) q = hsize m q.
Proof. intros H. unfold hsize. apply ld_st_out. unfold far in H. lia. Qed.

Lemma hptr_bound m p : 0 <= hptr m p < 2 ^ 64.
Proof. apply ld64_bound. Qed.
Lemma hsize_bound m p : 0 <= hsize m p < 2 ^ 32.
Proof. unfold hsize. pose proof (ld_bound 4 m (p + 8)). simpl in *. lia. Qed.

(** ** Lists of blocks *)

Fixpoint lst (p : Z) (L : list block) : Z := match L with [] => p | b :: L' => lst b.1 L' end.

(** From [p] through the blocks of [L], with their sizes, to [e]. *)
Fixpoint linked (m : mem) (p : Z) (L : list block) (e : Z) : Prop :=
  match L with
  | [] => hptr m p = e
  | b :: L' => hptr m p = b.1 ∧ hsize m b.1 = b.2 ∧ linked m b.1 L' e
  end.

Abbreviation addrs L := (fst <$> L).

Lemma lst_app p L1 L2 : lst p (L1 ++ L2) = lst (lst p L1) L2.
Proof. revert p. induction L1 as [|b L1 IH]; intros p; simpl; auto. Qed.

Lemma lst_in p L : lst p L ∈ p :: addrs L.
Proof.
  revert p. induction L as [|b L IH]; intros p; simpl; [by left|]. specialize (IH b.1). rewrite elem_of_cons in IH. rewrite !elem_of_cons. naive_solver.
Qed.

Lemma linked_app m p L1 b L2 e : linked m p (L1 ++ b :: L2) e ↔ linked m p L1 b.1 ∧ hsize m b.1 = b.2 ∧ linked m b.1 L2 e.
Proof. revert p. induction L1 as [|c L1 IH]; intros p; simpl; [done|]. rewrite IH. tauto. Qed.

Lemma linked_last m p L e : linked m p L e → hptr m (lst p L) = e.
Proof. revert p. induction L as [|b L IH]; intros p; simpl; [done|]. intros (_ & _ & H). by apply IH. Qed.

Lemma ring_ext m m' p L e : (∀ q, q ∈ p :: addrs L → hptr m' q = hptr m q) → (∀ q, q ∈ addrs L → hsize m' q = hsize m q) →
  linked m p L e → linked m' p L e.
Proof.
  revert p. induction L as [|b L IH]; intros p HP HS; simpl; [rewrite HP by (by left); done|]. intros (E & Es & H).
  rewrite HP by (by left). rewrite HS by (by left). split; [done|]. split; [done|].
  apply IH; [|intros q Hq; apply HS; by right|done]. intros q Hq. apply HP. by right.
Qed.

(** Headers that overlap are the same. *)
Definition spread (l : list Z) : Prop := ∀ p q, p ∈ l → q ∈ l → p = q ∨ far p q.

(** Redirecting the last pointer. *)
Lemma linked_set m p L e v : NoDup (p :: addrs L) → spread (p :: addrs L) → 0 <= v < 2 ^ 64 →
  linked m p L e → linked (st64 m (lst p L) v) p L v.
Proof.
  revert p. induction L as [|b L IH]; intros p Hn Hs Hv; simpl; [intros _; by apply hptr_ptr|]. intros (E & Es & H).
  apply NoDup_cons in Hn as [Hni Hn]. pose proof (lst_in b.1 L) as Hin.
  assert (far (lst b.1 L) p) as Hf. { destruct (Hs (lst b.1 L) p) as [E'|?]; [by right|by left|by rewrite E' in Hin|done]. }
  rewrite hptr_ptr_ne by done. rewrite hsize_ptr by (apply Hs; [by right|right; by left]). split; [done|]. split; [done|].
  apply IH; try done. intros q q' Hq Hq'. apply Hs; by right.
Qed.

(** Sorted from [lo] on, with gaps. *)
Fixpoint spaced (lo : Z) (L : list block) : Prop :=
  match L with [] => True | b :: L' => lo < b.1 ∧ 0 < b.2 ∧ spaced (b.1 + 16 * b.2) L' end.

Fixpoint end_of (lo : Z) (L : list block) : Z := match L with [] => lo | b :: L' => end_of (b.1 + 16 * b.2) L' end.

Lemma spaced_app lo L1 L2 : spaced lo (L1 ++ L2) ↔ spaced lo L1 ∧ spaced (end_of lo L1) L2.
Proof.
  revert lo. induction L1 as [|b L1 IH]; intros lo; simpl; [tauto|]. rewrite IH. tauto.
Qed.

Lemma end_of_app lo L1 L2 : end_of lo (L1 ++ L2) = end_of (end_of lo L1) L2.
Proof. revert lo. induction L1 as [|b L1 IH]; intros lo; simpl; auto. Qed.

Lemma spaced_mono lo lo' L : lo' <= lo → spaced lo L → spaced lo' L.
Proof. destruct L; simpl; [done|]. intros. intuition lia. Qed.

Lemma spaced_end lo L : spaced lo L → lo <= end_of lo L.
Proof. revert lo. induction L as [|b L IH]; intros lo; simpl; [done|]. intros (? & ? & H). specialize (IH _ H). lia. Qed.

Lemma spaced_lower lo L b : spaced lo L → b ∈ L → lo < b.1 ∧ 0 < b.2.
Proof.
  revert lo. induction L as [|c L IH]; intros lo; [by intros _ ?%elem_of_nil|]. simpl. intros (? & ? & H) [->|Hb]%elem_of_cons; [done|].
  destruct (IH _ H Hb). lia.
Qed.

Lemma spaced_upper lo L b : spaced lo L → b ∈ L → b.1 + 16 * b.2 <= end_of lo L.
Proof.
  revert lo. induction L as [|c L IH]; intros lo; [by intros _ ?%elem_of_nil|]. simpl.
  intros (? & ? & H) [->|Hb]%elem_of_cons; [by apply spaced_end|by apply IH].
Qed.

(** Blocks [L1] before [b], [L2] after it. *)
Lemma spaced_split lo L1 b L2 : spaced lo (L1 ++ b :: L2) → end_of lo L1 < b.1 ∧ 0 < b.2 ∧ spaced lo L1 ∧ spaced (b.1 + 16 * b.2) L2.
Proof. rewrite spaced_app. simpl. tauto. Qed.

(** ** Memory divided into blocks *)

Fixpoint disjoint_blocks (B : list block) : Prop :=
  match B with [] => True | b :: B' => Forall (apart b) B' ∧ disjoint_blocks B' end.

Lemma apart_sym b c : apart b c → apart c b.
Proof. unfold apart. tauto. Qed.

Lemma disjoint_perm B B' : B ≡ₚ B' → disjoint_blocks B → disjoint_blocks B'.
Proof.
  induction 1 as [|b B B' HP IH|b c B|]; simpl; auto.
  - intros [F D]. split; [by rewrite <- HP|auto].
  - rewrite !Forall_cons. intros [[H1 H2] [H3 H4]]. split_and!; auto using apart_sym.
Qed.

(** The memory [H] is divided into the blocks [B], all between [lo] and [hi]. *)
Record divided (lo hi : Z) (H : Z → Prop) (B : list block) : Prop := {
  dv_disjoint : disjoint_blocks B;
  dv_range : Forall (λ b, lo <= b.1 ∧ 0 < b.2 ∧ b.1 + 16 * b.2 <= hi) B;
  dv_cover : ∀ x, H x ↔ ∃ b, b ∈ B ∧ inside x b
}.

Lemma divided_perm lo hi H B B' : B ≡ₚ B' → divided lo hi H B → divided lo hi H B'.
Proof.
  intros HP [D R C]. split; [by eapply disjoint_perm|by rewrite <- HP|]. intros x. rewrite C. by setoid_rewrite HP.
Qed.

(** A block and its two parts. *)
Lemma divided_split lo hi H a n k B : 0 < k → 0 < n →
  divided lo hi H ((a, n + k) :: B) ↔ divided lo hi H ((a, n) :: (a + 16 * n, k) :: B).
Proof.
  intros Hk Hn. split; intros [D R C]; simpl in *; (split; simpl).
  - destruct D as [F D]. rewrite Forall_cons. split_and!; [unfold apart; simpl; lia| | |done]; (eapply Forall_impl; [exact F|]); unfold apart; simpl; intros [c l]; simpl; lia.
  - rewrite !Forall_cons in *. simpl in *. intuition lia.
  - intros x. rewrite C. split; intros (b & Hb & Hx).
    + apply elem_of_cons in Hb as [->|Hb]; [|exists b; set_solver]. unfold inside in *. simpl in *.
      destruct (decide (x < a + 16 * n)); [exists (a, n)|exists (a + 16 * n, k)]; (split; [set_solver|]); simpl; lia.
    + apply elem_of_cons in Hb as [->|[->|Hb]%elem_of_cons]; [exists (a, n + k)|exists (a, n + k)|exists b]; (split; [set_solver|]); unfold inside in *; simpl in *; lia.
  - rewrite Forall_cons in D. destruct D as [[Dx F] [G D]]. split; [|done]. rewrite !Forall_cons in R. destruct R as (_ & _ & R).
    rewrite Forall_forall in *. intros c Hc. specialize (F c Hc). specialize (G c Hc). specialize (R c Hc). unfold apart in *. simpl in *. lia.
  - rewrite !Forall_cons in *. simpl in *. intuition lia.
  - intros x. rewrite C. split; intros (b & Hb & Hx).
    + apply elem_of_cons in Hb as [->|[->|Hb]%elem_of_cons]; [exists (a, n + k)|exists (a, n + k)|exists b]; (split; [set_solver|]); unfold inside in *; simpl in *; lia.
    + apply elem_of_cons in Hb as [->|Hb]; [|exists b; set_solver]. unfold inside in *. simpl in *.
      destruct (decide (x < a + 16 * n)); [exists (a, n)|exists (a + 16 * n, k)]; (split; [set_solver|]); simpl; lia.
Qed.

(** ** The invariant *)

(** What [sbrk] promises: fresh memory above [base], or an error.  The heap stays
    below 64 GiB, so that sizes fit a [uint]. *)
Class SbrkLaws (G : Type) `{Sbrk G} := {
  heap : G → Z → Prop;
  top : Z;
  base_ok : 0 < base < 2 ^ 38;
  top_ok : top <= base + 2 ^ 36;
  sbrk_spec n g : 0 < n < 2 ^ 31 → ∃ a g', sbrk n g = (a, g') ∧
    ((a = 2 ^ 64 - 1 ∧ ∀ x, heap g' x ↔ heap g x) ∨
     (base + 16 <= a ∧ a + n <= top ∧ (∀ x, a <= x < a + n → ¬ heap g x) ∧ ∀ x, heap g' x ↔ heap g x ∨ a <= x < a + n))
}.

Section Spec.
Context {G : Type} `{!Sbrk G} `{!SbrkLaws G}.

(** [L]: the free blocks; [A]: the blocks in use. *)
Record inv (s : ust G) (L A : list block) : Prop := {
  iv_list : linked (u_mem s) base L base;
  iv_base : hsize (u_mem s) base = 0;
  iv_sorted : spaced base L;
  iv_freep : u_freep s ∈ base :: addrs L;
  iv_used : Forall (λ b, hsize (u_mem s) b.1 = b.2) A;
  iv_heap : divided (base + 16) top (heap (u_os s)) (L ++ A)
}.

(** The contents of the blocks in use. *)
Definition kept (A : list block) (m m' : mem) : Prop := ∀ b x, b ∈ A → inside x b → ldb m' x = ldb m x.

Lemma lst_end lo L : spaced lo L → lst lo L <= end_of lo L.
Proof.
  revert lo. induction L as [|b L IH]; intros lo; simpl; [lia|]. intros (? & ? & H).
  destruct L as [|c L]; [simpl; lia|]. specialize (IH _ H). done.
Qed.

Lemma lst_strict lo L : spaced lo L → L ≠ [] → lst lo L + 16 <= end_of lo L.
Proof.
  revert lo. induction L as [|b L IH]; intros lo; simpl; [done|]. intros (? & ? & H) _. destruct L as [|c L]; [simpl; lia|]. by apply (IH _ H).
Qed.

Lemma lst_between lo L c R : spaced lo (L ++ c :: R) → lst lo L < c.1 ∧ lo < c.1.
Proof. intros (H & _ & S & _)%spaced_split. pose proof (lst_end lo L S). pose proof (spaced_end lo L S). lia. Qed.

Lemma lst_lower lo L : spaced lo L → lo <= lst lo L.
Proof.
  intros S. pose proof (lst_in lo L) as Hin. apply elem_of_cons in Hin as [->|Hin]; [lia|]. apply list_elem_of_fmap in Hin as (b & -> & Hb).
  destruct (spaced_lower lo L b S Hb). lia.
Qed.

(** Where a block belongs. *)
Lemma place lo L b n : spaced lo L → (∀ c, c ∈ L → apart (b, n) c) → lo <= b → 0 < n →
  ∃ L1 L2, L = L1 ++ L2 ∧ end_of lo L1 <= b ∧ Forall (λ c, b + 16 * n <= c.1) L2.
Proof.
  revert lo. induction L as [|c L IH]; intros lo S D Hlo Hn; [exists [], []; simpl; split_and!; [done|done|constructor]|]. simpl in S. destruct S as (S1 & S2 & S3).
  destruct (D c ltac:(by left)) as [Hc|Hc]; simpl in Hc.
  - exists [], (c :: L). split; [done|]. split; [done|]. constructor; [done|]. apply Forall_forall. intros d Hd. destruct (spaced_lower _ _ d S3 Hd). lia.
  - destruct (IH _ S3) as (L1 & L2 & -> & E & F); [intros d Hd; apply D; by right|lia|done|]. by exists (c :: L1), L2.
Qed.

Lemma free_search_at fuel b (s : ust G) p q : hptr (u_mem s) p = q →
  (p < b ∧ b < q) ∨ (q <= p ∧ p < b) → wp (free_search (S fuel) b p) (λ r s', r = p ∧ s' = s) s.
Proof.
  intros E H. simpl. apply wp_bind, wp_gets. rewrite E. destruct (Z.ltb_spec p b), (Z.ltb_spec b q), (Z.leb_spec q p); simpl; try lia; by apply wp_ret.
Qed.

Lemma free_search_on fuel b (s : ust G) p q Q : hptr (u_mem s) p = q →
  (p < q ∧ q <= b) ∨ (b <= p ∧ p < q) ∨ (b <= p ∧ q <= b) → wp (free_search fuel b q) Q s → wp (free_search (S fuel) b p) Q s.
Proof.
  intros E H HQ. simpl. apply wp_bind, wp_gets. rewrite E. destruct (Z.ltb_spec p b), (Z.ltb_spec b q), (Z.leb_spec q p); simpl; try lia; done.
Qed.

Section Search.
Context (s : ust G) (L1 L2 : list block) (b : Z).
Hypotheses (Hl : linked (u_mem s) base (L1 ++ L2) base) (Hs : spaced base (L1 ++ L2)) (H1 : end_of base L1 <= b) (Hb : base < b)
  (H2 : Forall (λ c, b < c.1) L2).

Lemma place_lst : lst base L1 < b.
Proof using Hl Hs H1 Hb.
  apply spaced_app in Hs as [S1 _]. destruct L1 as [|c L]; [done|]. pose proof (lst_strict _ _ S1 ltac:(done)). lia.
Qed.

(** At most the nodes [Lm] before the place. *)
Lemma search_before Lm La fuel : L1 = La ++ Lm → (length Lm < fuel)%nat →
  wp (free_search fuel b (lst base La)) (λ r s', r = lst base L1 ∧ s' = s) s.
Proof using Hl Hs H1 Hb H2.
  pose proof place_lst as Hp. revert La fuel. induction Lm as [|c Lm IH]; intros La fuel E Hf; (destruct fuel as [|fuel]; [simpl in Hf; lia|]).
  - rewrite app_nil_r in E. subst La. pose proof Hs as [S1 S2]%spaced_app. pose proof (lst_lower _ _ S1) as Hlo.
    destruct L2 as [|c L]; [apply (free_search_at fuel b s _ base)|apply (free_search_at fuel b s _ c.1)].
    + rewrite app_nil_r in Hl. by apply linked_last in Hl.
    + lia.
    + apply linked_app in Hl as [Hl' _]. by apply linked_last in Hl'.
    + apply Forall_cons in H2 as [H2' _]. lia.
  - pose proof Hs as [S1 _]%spaced_app. rewrite E in S1. destruct (lst_between _ _ _ _ S1) as [Hc _].
    assert (c.1 <= b) as Hcb. { pose proof (spaced_upper _ _ c S1 ltac:(set_solver)). destruct (spaced_lower _ _ c S1 ltac:(set_solver)). rewrite E in H1. lia. }
    apply (free_search_on fuel b s _ c.1); [|lia|].
    + rewrite E, <- app_assoc in Hl. apply linked_app in Hl as [Hl' _]. by apply linked_last in Hl'.
    + replace c.1 with (lst base (La ++ [c])) by (by rewrite lst_app). apply IH; [by rewrite <- app_assoc|simpl in Hf; lia].
Qed.

(** Past the place: to the end of the list and from [base] on. *)
Lemma search_after Lb La fuel : L2 = La ++ Lb → La ≠ [] → (length Lb + length L1 + 1 < fuel)%nat →
  wp (free_search fuel b (lst (lst base L1) La)) (λ r s', r = lst base L1 ∧ s' = s) s.
Proof using Hl Hs H1 Hb H2.
  revert La fuel. induction Lb as [|c Lb IH]; intros La fuel E Hne Hf; (destruct fuel as [|fuel]; [simpl in Hf; lia|]).
  - rewrite app_nil_r in E. subst La. assert (b < lst (lst base L1) L2) as Hlt.
    { destruct L2 as [|d L]; [done|]. simpl. pose proof (lst_in d.1 L) as Hin. rewrite Forall_forall in H2. change (d.1 :: addrs L) with (addrs (d :: L)) in Hin.
      apply list_elem_of_fmap in Hin as (d' & -> & Hd). by apply H2. }
    apply (free_search_on fuel b s _ base); [|lia|].
    + rewrite <- lst_app. by apply linked_last in Hl.
    + apply (search_before L1 []); [done|lia].
  - assert (b < lst (lst base L1) La) as Hlt.
    { destruct La as [|d L]; [done|]. simpl. pose proof (lst_in d.1 L) as Hin. rewrite Forall_forall in H2. change (d.1 :: addrs L) with (addrs (d :: L)) in Hin.
      apply list_elem_of_fmap in Hin as (d' & -> & Hd). apply H2. rewrite E. set_solver. }
    pose proof Hs as S0. rewrite E, app_assoc in S0. destruct (lst_between _ _ _ _ S0) as [Hc _]. rewrite lst_app in Hc.
    apply (free_search_on fuel b s _ c.1); [|lia|].
    + rewrite E, app_assoc in Hl. apply linked_app in Hl as [Hl' _]. rewrite <- lst_app. by apply linked_last in Hl'.
    + replace c.1 with (lst (lst base L1) (La ++ [c])) by (by rewrite lst_app). apply IH; [by rewrite <- app_assoc|by destruct La|simpl in Hf; lia].
Qed.

Lemma free_search_spec fuel : u_freep s ∈ base :: addrs (L1 ++ L2) → (length (L1 ++ L2) + 2 <= fuel)%nat →
  wp (free_search fuel b (u_freep s)) (λ r s', r = lst base L1 ∧ s' = s) s.
Proof using Hl Hs H1 Hb H2.
  intros Hin Hf. rewrite length_app in Hf. apply elem_of_cons in Hin as [->|Hin]; [apply (search_before L1 []); [done|lia]|].
  rewrite fmap_app, elem_of_app in Hin. destruct Hin as [Hin|Hin]; apply list_elem_of_fmap in Hin as (c & -> & Hc); apply list_elem_of_split in Hc as (X & Y & E).
  - replace c.1 with (lst base (X ++ [c])) by (by rewrite lst_app). apply (search_before Y); [by rewrite <- app_assoc|]. rewrite E, length_app in Hf. simpl in Hf. lia.
  - replace c.1 with (lst (lst base L1) (X ++ [c])) by (by rewrite lst_app). apply (search_after Y); [by rewrite <- app_assoc|by destruct X|].
    rewrite E, length_app in Hf. simpl in Hf. lia.
Qed.
End Search.

(** ** Frames *)

(** Only the header at [p] changes. *)
Definition same_out (p : Z) (m m' : mem) : Prop := ∀ x, ¬ (p <= x < p + 16) → ldb m' x = ldb m x.

Lemma same_out_trans p m1 m2 m3 : same_out p m1 m2 → same_out p m2 m3 → same_out p m1 m3.
Proof. intros H1 H2 x Hx. rewrite H2 by done. by apply H1. Qed.

Lemma same_out_ptr p m v : same_out p m (st64 m p v).
Proof. intros x Hx. apply ldb_st_out. simpl. lia. Qed.
Lemma same_out_size p m v : same_out p m (st32 m (p + 8) v).
Proof. intros x Hx. apply ldb_st_out. simpl. lia. Qed.

Lemma same_out_hdr p m m' q : same_out p m m' → far p q → hptr m' q = hptr m q ∧ hsize m' q = hsize m q.
Proof.
  intros H F. unfold far in F. split; apply ld_ext; intros i Hi; apply H; simpl in *; lia.
Qed.

Lemma linked_frame p m m' q L e : same_out p m m' → Forall (far p) (q :: addrs L) → linked m q L e → linked m' q L e.
Proof.
  intros H F. rewrite Forall_forall in F. apply ring_ext; intros x Hx; eapply same_out_hdr; try done; apply F; [done|by right].
Qed.

(** [linked] without its first pointer. *)
Definition hd (e : Z) (L : list block) : Z := match L with [] => e | c :: _ => c.1 end.
Definition tail_ok (m : mem) (L : list block) (e : Z) : Prop := match L with [] => True | c :: L' => hsize m c.1 = c.2 ∧ linked m c.1 L' e end.

Lemma tail_frame p m m' L e : same_out p m m' → Forall (far p) (addrs L) → tail_ok m L e → tail_ok m' L e.
Proof.
  destruct L as [|c L]; [done|]. simpl. intros H F [Hs Hl]. pose proof F as [Fc _]%Forall_cons. destruct (same_out_hdr p m m' c.1 H Fc) as [_ ->].
  split; [done|]. by eapply linked_frame.
Qed.

Lemma linked_hd m p L e : linked m p L e ↔ hptr m p = hd e L ∧ tail_ok m L e.
Proof. destruct L; simpl; tauto. Qed.

Lemma linked_cut m p L1 L2 e : linked m p (L1 ++ L2) e ↔ linked m p L1 (hd e L2) ∧ tail_ok m L2 e.
Proof.
  destruct L2 as [|c L2]; [rewrite app_nil_r; simpl; tauto|]. rewrite linked_app. simpl. tauto.
Qed.

(** ** Joining blocks *)

(** [free] on the memory, once the place is known: first the block after [bp], then
    the block before it. *)
Definition join_next (m : mem) (b q : Z) : mem :=
  let n := hsize m b in
  if hadd b n =? q then
    let m1 := st32 m (b + 8) (u32 (n + hsize m q)) in st64 m1 b (hptr m1 q)
  else st64 m b q.
Definition join_prev (m : mem) (p b : Z) : mem :=
  let k := hsize m p in
  if hadd p k =? b then
    let m1 := st32 m (p + 8) (u32 (k + hsize m b)) in st64 m1 p (hptr m1 b)
  else st64 m p b.

Lemma free_wp fuel ap p s (Q : unit → ust G → Prop) :
  wp (free_search fuel (u64 (ap - 16)) (u_freep s)) (λ r s1, r = p ∧ s1 = s) s →
  Q tt (mkU (join_prev (join_next (u_mem s) (u64 (ap - 16)) (hptr (u_mem s) p)) p (u64 (ap - 16))) p (u_os s)) →
  wp (free fuel ap) Q s.
Proof.
  intros W HQ. unfold free. apply wp_bind, wp_gets. eapply wp_step; [exact W|]. intros r s1 [-> ->].
  apply wp_bind, wp_gets, wp_bind, wp_gets. unfold join_next in HQ.
  assert (∀ m (R : unit → ust G → Prop), R tt (mkU (join_prev m p (u64 (ap - 16))) p (u_os s)) →
    wp (let! k := get_size p in
        (if hadd p k =? u64 (ap - 16) then let! n := get_size (u64 (ap - 16)) in set_size p (u32 (k + n)) ;; let! q := get_ptr (u64 (ap - 16)) in set_ptr p q
         else set_ptr p (u64 (ap - 16))) ;; set_freep p) R (mkU m (u_freep s) (u_os s))) as W2.
  { intros m R HR. apply wp_bind, wp_gets. unfold join_prev in HR. simpl. destruct (hadd p (hsize m p) =? u64 (ap - 16)).
    - apply wp_bind, wp_bind, wp_gets, wp_bind, wp_modify, wp_bind, wp_gets, wp_modify, wp_modify. exact HR.
    - apply wp_bind, wp_modify, wp_modify. exact HR. }
  destruct (hadd (u64 (ap - 16)) (hsize (u_mem s) (u64 (ap - 16))) =? hptr (u_mem s) p).
  - apply wp_bind, wp_bind, wp_gets, wp_bind, wp_modify, wp_bind, wp_gets, wp_modify. by apply W2.
  - apply wp_bind, wp_modify. by apply W2.
Qed.

Lemma hadd_small p n : 0 <= p → 0 <= n → p + 16 * n < 2 ^ 64 → hadd p n = p + 16 * n.
Proof. intros. unfold hadd. apply wrap_small. lia. Qed.

(** The freed block [(b, n)] takes in the block after it if they touch. *)
Lemma join_next_spec m b n L2 : hsize m b = n → 0 < n → 0 <= b → tail_ok m L2 base →
  spaced (b + 16 * n - 1) L2 → end_of (b + 16 * n) L2 <= b + 2 ^ 36 - 16 → b + 2 ^ 36 < 2 ^ 64 → 0 <= base < b →
  ∃ n1 L2', hsize (join_next m b (hd base L2)) b = n1 ∧ linked (join_next m b (hd base L2)) b L2' base ∧
    same_out b m (join_next m b (hd base L2)) ∧ spaced (b + 16 * n1) L2' ∧
    ((n1 = n ∧ L2' = L2) ∨ ∃ k, 0 < k ∧ n1 = n + k ∧ L2 = (b + 16 * n, k) :: L2').
Proof.
  intros Hn H0 Hb HT HS He Hw Hba. unfold join_next. rewrite Hn.
  assert (end_of (b + 16 * n - 1) L2 <= b + 2 ^ 36 - 16) as He' by (destruct L2; simpl in *; lia).
  pose proof (spaced_end _ _ HS) as Hend. rewrite hadd_small by lia.
  destruct (Z.eqb_spec (b + 16 * n) (hd base L2)) as [E|Hne].
  - destruct L2 as [|[a k] L2]; simpl in *; [lia|]. destruct HT as [Hk HL]. destruct HS as (_ & Hk0 & HS). subst a.
    pose proof (spaced_end _ _ HS) as Hend2. rewrite Hk, wrap_small by lia.
    assert (Forall (far b) (b + 16 * n :: addrs L2)) as F.
    { apply Forall_cons. split; [unfold far; lia|]. apply Forall_forall. intros x Hx. apply list_elem_of_fmap in Hx as (c & -> & Hc).
      destruct (spaced_lower _ _ c HS Hc). unfold far. lia. }
    rewrite hptr_size by (right; by apply Forall_cons in F as [? _]).
    exists (n + k), L2. split_and!.
    + rewrite hsize_ptr by (by left). apply hsize_size. lia.
    + apply linked_hd. apply linked_hd in HL as [HLp HLt]. split; [rewrite hptr_ptr by apply hptr_bound; done|].
      apply Forall_cons in F as [_ F]. eapply tail_frame; [|exact F|done]. eapply same_out_trans; [apply same_out_size|apply same_out_ptr].
    + eapply same_out_trans; [apply same_out_size|apply same_out_ptr].
    + by replace (b + 16 * (n + k)) with (b + 16 * n + 16 * k) by lia.
    + right. by exists k.
  - exists n, L2. assert (Forall (far b) (addrs L2)) as F.
    { apply Forall_forall. intros x Hx. apply list_elem_of_fmap in Hx as (c & -> & Hc). destruct (spaced_lower _ _ c HS Hc). unfold far. lia. }
    assert (0 <= hd base L2 < 2 ^ 64) as Hq.
    { destruct L2 as [|c L2]; simpl in *; [lia|]. destruct HS as (? & ? & HS). pose proof (spaced_end _ _ HS). lia. }
    split_and!; [by rewrite hsize_ptr by (by left)| |apply same_out_ptr| |by left].
    + apply linked_hd. split; [by apply hptr_ptr|]. eapply tail_frame; [apply same_out_ptr|exact F|done].
    + destruct L2 as [|c L2]; [done|]. simpl in *. destruct HS as (? & ? & ?). split_and!; [lia|done|done].
Qed.

Lemma spaced_NoDup lo L : spaced lo L → NoDup (lo :: addrs L).
Proof.
  revert lo. induction L as [|b L IH]; intros lo S; [apply NoDup_singleton|]. simpl in S. destruct S as (S1 & S2 & S3). apply NoDup_cons. split.
  - intros Hin. change (addrs (b :: L)) with (b.1 :: addrs L) in Hin. apply elem_of_cons in Hin as [->|Hin]; [lia|].
    apply list_elem_of_fmap in Hin as (c & -> & Hc). destruct (spaced_lower _ _ c S3 Hc). lia.
  - simpl. specialize (IH _ S3). apply NoDup_cons in IH as [_ IH]. apply NoDup_cons. split; [|done]. intros Hin.
    apply list_elem_of_fmap in Hin as (c & E & Hc). destruct (spaced_lower _ _ c S3 Hc). lia.
Qed.

(** All headers at least 16 bytes from [lo]. *)
Abbreviation above lo L := (Forall (λ c : block, lo + 16 <= c.1) L).

Lemma spaced_spread lo L : spaced lo L → above lo L → spread (lo :: addrs L).
Proof.
  revert lo. induction L as [|b L IH]; intros lo S F; [intros p q [->| ?%elem_of_nil]%elem_of_cons [->| ?%elem_of_nil]%elem_of_cons; by left|].
  simpl in S. destruct S as (S1 & S2 & S3). assert (above b.1 L) as Fb.
  { apply Forall_forall. intros c Hc. destruct (spaced_lower _ _ c S3 Hc). lia. }
  assert (spread (b.1 :: addrs L)) as IH'. { apply IH; [apply (spaced_mono _ b.1) in S3; [done|lia]|done]. }
  assert (∀ q, q ∈ b.1 :: addrs L → far lo q) as Fl.
  { intros q Hq. change (b.1 :: addrs L) with (addrs (b :: L)) in Hq. apply list_elem_of_fmap in Hq as (c & -> & Hc). rewrite Forall_forall in F. specialize (F c Hc). unfold far. lia. }
  intros p q Hp Hq. apply elem_of_cons in Hp as [->|Hp], Hq as [->|Hq]; [by left|right; by apply Fl|right; specialize (Fl p Hp); unfold far in *; lia|by apply IH'].
Qed.

(** The block before [(b, n1)] takes it in if they touch. *)
Lemma join_prev_spec m b n1 L1 L2 q : linked m base L1 q → spaced base L1 → above base L1 → end_of base L1 <= b → base + 16 <= b →
  hsize m base = 0 → hsize m b = n1 → 0 < n1 → linked m b L2 base → spaced (b + 16 * n1) L2 → end_of (b + 16 * n1) L2 <= base + 2 ^ 36 →
  ∃ L', linked (join_prev m (lst base L1) b) base L' base ∧ spaced base L' ∧ lst base L1 ∈ base :: addrs L' ∧
    same_out (lst base L1) m (join_prev m (lst base L1) b) ∧ hsize (join_prev m (lst base L1) b) base = 0 ∧
    (L' = L1 ++ (b, n1) :: L2 ∨ ∃ L0 a k, L1 = L0 ++ [(a, k)] ∧ 0 < k ∧ b = a + 16 * k ∧ L' = L0 ++ (a, k + n1) :: L2).
Proof.
  intros HL HS HA He Hb H0 Hn Hn1 HL2 HS2 Hend. pose proof base_ok as [B1 B2]. pose proof (spaced_end _ _ HS2) as Hend2. pose proof (spaced_end _ _ HS) as Hend1.
  unfold join_prev. rewrite Hn. set (p := lst base L1) in *.
  assert (p + 16 <= b) as Hpb. { unfold p. destruct L1; [simpl; lia|]. pose proof (lst_strict _ _ HS ltac:(done)). lia. }
  assert (Forall (far p) (b :: addrs L2)) as F2.
  { apply Forall_cons. split; [unfold far; lia|]. apply Forall_forall. intros x Hx. apply list_elem_of_fmap in Hx as (c & -> & Hc).
    destruct (spaced_lower _ _ c HS2 Hc). unfold far. lia. }
  destruct L1 as [|[a k] L0 _] using rev_ind.
  - simpl in p. subst p. rewrite H0, hadd_small by lia. rewrite (proj2 (Z.eqb_neq _ _)) by lia.
    exists ((b, n1) :: L2). split_and!; [|simpl; split_and!; [lia|done|done]|by left|apply same_out_ptr|by rewrite hsize_ptr by (by left)|by left].
    simpl. rewrite hptr_ptr by lia. split; [done|]. split; [rewrite hsize_ptr by (right; by apply Forall_cons in F2 as [? _]); done|].
    eapply linked_frame; [apply same_out_ptr|done|done].
  - assert (p = a) as -> by (unfold p; by rewrite lst_app). pose proof (spaced_NoDup _ _ HS) as HN. pose proof (spaced_spread _ _ HS HA) as HP.
    assert (Forall (far a) (base :: addrs L0)) as F1.
    { apply Forall_forall. intros x Hx. assert (x ≠ a) as Hne.
      { intros ->. rewrite fmap_app, app_comm_cons in HN. apply NoDup_app in HN as (_ & HN & _). apply (HN a Hx). by left. }
      destruct (HP a x) as [->|?]; [| |done|done].
      - rewrite fmap_app. set_solver.
      - rewrite fmap_app. set_solver. }
    apply linked_app in HL as (HL0 & Hk & Hq). simpl in Hk, HL0. apply spaced_split in HS as (Ha & Hk0 & HS0 & _). simpl in Ha, Hk0.
    pose proof (spaced_end _ _ HS0). rewrite Hk. rewrite end_of_app in He, Hend1. simpl in He, Hend1. rewrite hadd_small by lia. pose proof F1 as [Fb _]%Forall_cons.
    destruct (Z.eqb_spec (a + 16 * k) b) as [E|Hne].
    + rewrite wrap_small by lia. set (m2 := st64 _ _ _). assert (same_out a m m2) as HO by (eapply same_out_trans; [apply same_out_size|apply same_out_ptr]).
      exists (L0 ++ (a, k + n1) :: L2). split_and!; [| |rewrite fmap_app; set_solver|done|by destruct (same_out_hdr a m m2 base HO Fb) as [_ ->]|right; by exists L0, a, k].
      * apply linked_app. simpl. split; [by apply (linked_frame a m)|]. split; [unfold m2; rewrite hsize_ptr by (by left); apply hsize_size; lia|].
        apply linked_hd. apply Forall_cons in F2 as [Fab F2]. unfold m2 at 1. rewrite hptr_size by (by right). apply linked_hd in HL2 as [HL2 HT2].
        rewrite hptr_ptr by apply hptr_bound. split; [done|]. by apply (tail_frame a m).
      * apply spaced_app. split; [done|]. simpl. split; [done|]. split; [lia|]. by replace (a + 16 * (k + n1)) with (b + 16 * n1) by lia.
    + assert (same_out a m (st64 m a b)) as HO by apply same_out_ptr.
      exists ((L0 ++ [(a, k)]) ++ (b, n1) :: L2). split_and!; [| |rewrite !fmap_app; set_solver|done|by destruct (same_out_hdr a m _ base HO Fb) as [_ ->]|by left].
      * rewrite <- app_assoc. apply linked_app. simpl. split; [by apply (linked_frame a m)|]. split; [by rewrite hsize_ptr by (by left)|].
        rewrite hptr_ptr by lia. split; [done|]. split; [|by apply (linked_frame a m)]. rewrite hsize_ptr by (right; by apply Forall_cons in F2 as [? _]). done.
      * rewrite <- app_assoc. apply spaced_app. split; [done|]. simpl. split_and!; try done. lia.
Qed.

(** ** What the division into blocks gives *)

Lemma divided_in lo hi H B c : divided lo hi H B → c ∈ B → lo <= c.1 ∧ 0 < c.2 ∧ c.1 + 16 * c.2 <= hi.
Proof. intros [_ R _] Hc. by apply (proj1 (Forall_forall _ _) R). Qed.

Lemma divided_apart lo hi H c B d : divided lo hi H (c :: B) → d ∈ B → apart c d.
Proof. intros [[F _] _ _] Hd. by apply (proj1 (Forall_forall _ _) F). Qed.

(** The header of a block is outside the others. *)
Definition clear_of (p : Z) (A : list block) : Prop := Forall (λ d, 0 < d.2 ∧ (p + 16 <= d.1 ∨ d.1 + 16 * d.2 <= p)) A.

Lemma clear_base hi H B A : divided (base + 16) hi H B → A ⊆ B → clear_of base A.
Proof. intros D HS. apply Forall_forall. intros d Hd. pose proof (divided_in _ _ _ _ d D (HS d Hd)). lia. Qed.

Lemma clear_block lo hi H c B A : divided lo hi H (c :: B) → A ⊆ B → clear_of c.1 A.
Proof.
  intros D HS. apply Forall_forall. intros d Hd. pose proof (divided_in _ _ _ _ d D ltac:(right; by apply HS)). pose proof (divided_in _ _ _ _ c D ltac:(by left)).
  pose proof (divided_apart _ _ _ _ _ d D (HS d Hd)) as P. unfold apart in P. lia.
Qed.

Lemma clear_far p A d : clear_of p A → d ∈ A → far p d.1.
Proof. intros F Hd. pose proof (proj1 (Forall_forall _ _) F d Hd) as P. simpl in P. unfold far. lia. Qed.

Lemma clear_kept p A m m' : clear_of p A → same_out p m m' → kept A m m' ∧ ∀ d, d ∈ A → hsize m' d.1 = hsize m d.1.
Proof.
  intros C H. split.
  - intros d x Hd Hx. apply H. pose proof (proj1 (Forall_forall _ _) C d Hd) as P. simpl in P. unfold inside in Hx. lia.
  - intros d Hd. by apply (same_out_hdr p m m' d.1 H), (clear_far p A).
Qed.

Lemma still_trans A m1 m2 m3 : kept A m1 m2 → kept A m2 m3 → kept A m1 m3.
Proof. intros H1 H2 d x Hd Hx. rewrite (H2 d x Hd Hx). by apply (H1 d). Qed.

Lemma spaced_raise lo lo' L : spaced lo L → Forall (λ c, lo' < c.1) L → spaced lo' L.
Proof. destruct L as [|c L]; [done|]. simpl. intros (? & ? & ?) [? _]%Forall_cons. done. Qed.

Lemma end_of_le lo hi L : lo <= hi → Forall (λ c, c.1 + 16 * c.2 <= hi) L → end_of lo L <= hi.
Proof. revert lo. induction L as [|c L IH]; intros lo Hlo F; [done|]. apply Forall_cons in F as [F1 F]. by apply IH. Qed.

Lemma inv_perm s L A A' : A ≡ₚ A' → inv s L A → inv s L A'.
Proof. intros HP [? ? ? ? ? ?]. split; try done; [by rewrite <- HP|]. eapply divided_perm; [|done]. by rewrite HP. Qed.

(** The division after the two joins. *)
Lemma join_divided lo hi H b n n1 L1 L2 L2' L' A : divided lo hi H (L1 ++ L2 ++ (b, n) :: A) →
  ((n1 = n ∧ L2' = L2) ∨ ∃ k, 0 < k ∧ n1 = n + k ∧ L2 = (b + 16 * n, k) :: L2') →
  (L' = L1 ++ (b, n1) :: L2' ∨ ∃ L0 a k, L1 = L0 ++ [(a, k)] ∧ 0 < k ∧ b = a + 16 * k ∧ L' = L0 ++ (a, k + n1) :: L2') →
  divided lo hi H (L' ++ A) ∧ (length L' <= S (length (L1 ++ L2)))%nat ∧ ∃ c, c ∈ L' ∧ n <= c.2.
Proof.
  intros D N P. pose proof (divided_in _ _ _ _ (b, n) D ltac:(set_solver)) as (_ & Hn & _). simpl in Hn.
  assert (divided lo hi H ((b, n1) :: L1 ++ L2' ++ A) ∧ n <= n1 ∧ (length L2' <= length L2)%nat) as (D1 & Hn1 & Hl).
  { destruct N as [[-> ->]|(k & Hk & -> & ->)].
    - split; [|split; [lia|done]]. eapply divided_perm; [|exact D]. solve_Permutation.
    - split; [|split; [lia|simpl; lia]]. apply divided_split; [done..|]. eapply divided_perm; [|exact D]. simpl. solve_Permutation. }
  destruct P as [->|(L0 & a & k & -> & Hk & -> & ->)].
  - split; [eapply divided_perm; [|exact D1]; solve_Permutation|]. split; [rewrite !length_app; simpl; lia|]. exists (b, n1). set_solver.
  - split; [|split; [rewrite !length_app; simpl; lia|exists (a, k + n1); split; [set_solver|simpl; lia]]].
    apply (divided_perm _ _ _ ((a, k + n1) :: L0 ++ L2' ++ A)); [solve_Permutation|]. apply divided_split; [lia|done|].
    eapply divided_perm; [|exact D1]. rewrite <- app_assoc. simpl. solve_Permutation.
Qed.

(** ** free *)

Section Free.
Context (s : ust G) (L1 L2 A : list block) (b n : Z).
Hypotheses (I : inv s (L1 ++ L2) ((b, n) :: A)) (E1 : end_of base L1 <= b) (F2 : Forall (λ c, b + 16 * n <= c.1) L2).

Lemma free_division : divided (base + 16) top (heap (u_os s)) ((b, n) :: L1 ++ L2 ++ A).
Proof using I. pose proof (iv_heap _ _ _ I) as D. eapply divided_perm; [|exact D]. solve_Permutation. Qed.

Lemma free_range : base + 16 <= b ∧ 0 < n ∧ b + 16 * n <= top.
Proof using I. exact (divided_in _ _ _ _ (b, n) free_division ltac:(by left)). Qed.

Lemma free_join : let m1 := join_next (u_mem s) b (hd base L2) in let m2 := join_prev m1 (lst base L1) b in
  ∃ L', inv (mkU m2 (lst base L1) (u_os s)) L' A ∧ kept A (u_mem s) m2 ∧ (length L' <= S (length (L1 ++ L2)))%nat ∧ ∃ c, c ∈ L' ∧ n <= c.2.
Proof using I E1 F2.
  intros m1 m2. pose proof free_division as D. destruct free_range as (R1 & R2 & R3). pose proof base_ok as [B1 B2]. pose proof top_ok as T.
  destruct I as [IL IB IS IF IU IH]. apply linked_cut in IL as [IL1 IL2]. pose proof IS as [IS1 IS2]%spaced_app. apply Forall_cons in IU as [Hn IU]. simpl in Hn.
  assert (Forall (λ c, c.1 + 16 * c.2 <= top) L2) as T2 by (apply Forall_forall; intros c Hc; apply (divided_in _ _ _ _ c D); set_solver).
  destruct (join_next_spec (u_mem s) b n L2) as (n1 & L2' & Hn1 & HL & HO & HS & HC); [done|done|lia|done| |pose proof (end_of_le (b + 16 * n) top L2 R3 T2); lia|lia|lia|].
  { eapply spaced_raise; [exact IS2|]. eapply Forall_impl; [exact F2|]. simpl. intros. lia. }
  fold m1 in Hn1, HL, HO. assert (clear_of b (L1 ++ A)) as CB by (apply (clear_block _ _ _ (b, n) _ _ D); set_solver).
  assert (above base L1) as HA by (apply Forall_forall; intros c Hc; pose proof (divided_in _ _ _ _ c D ltac:(set_solver)); lia).
  assert (far b base) as Fbb by (unfold far; lia).
  destruct (join_prev_spec m1 b n1 L1 L2' (hd base L2)) as (L' & HL' & HS' & Hf & HO' & HB & HC'); try done; try lia.
  { eapply linked_frame; [exact HO| |done]. apply Forall_cons. split; [done|]. apply Forall_forall. intros x Hx. apply list_elem_of_fmap in Hx as (c & -> & Hc).
    apply (clear_far _ _ _ CB). set_solver. }
  { by destruct (same_out_hdr b _ m1 base HO Fbb) as [_ ->]. }
  { destruct HC as [[-> ->]|(k & ? & -> & ->)]; lia. }
  { destruct HC as [[-> ->]|(k & ? & -> & E)]; [pose proof (end_of_le (b + 16 * n) top L2 R3 T2); lia|]. rewrite E in T2. apply Forall_cons in T2 as [T1 T2]. simpl in T1.
    assert (b + 16 * (n + k) <= top) as T3 by lia. pose proof (end_of_le _ _ L2' T3 T2). lia. }
  fold m2 in HL', HO', HB. assert (clear_of (lst base L1) A) as CP.
  { pose proof (lst_in base L1) as Hp. apply elem_of_cons in Hp as [->|Hp]; [by apply (clear_base _ _ _ _ D); set_solver|].
    apply list_elem_of_fmap in Hp as (c & -> & Hc). apply elem_of_Permutation in Hc as [L1' Hc].
    eapply (clear_block _ _ _ c (L1' ++ (b, n) :: L2 ++ A)); [|set_solver]. eapply divided_perm; [|exact D]. rewrite Hc. solve_Permutation. }
  apply Forall_app in CB as [_ CB]. destruct (clear_kept _ _ _ _ CB HO) as [K1 Z1]. destruct (clear_kept _ _ _ _ CP HO') as [K2 Z2].
  destruct (join_divided (base + 16) top (heap (u_os s)) b n n1 L1 L2 L2' L' A) as (D' & Hlen & Hbig); [by rewrite app_assoc|done|done|].
  exists L'. split; [|split; [by eapply still_trans|done]]. split; try done.
  apply Forall_forall. intros d Hd. simpl. rewrite (Z2 d Hd), (Z1 d Hd). by apply (proj1 (Forall_forall _ _) IU).
Qed.
End Free.

Lemma free_spec fuel s L A b n : inv s L ((b, n) :: A) → (length L + 2 <= fuel)%nat →
  wp (free fuel (b + 16)) (λ _ s', ∃ L', inv s' L' A ∧ kept A (u_mem s) (u_mem s') ∧ u_os s' = u_os s ∧ (length L' <= S (length L))%nat ∧ ∃ c, c ∈ L' ∧ n <= c.2) s.
Proof.
  intros I Hf. pose proof base_ok as [B1 B2]. pose proof top_ok as T. pose proof (iv_sorted _ _ _ I) as HS.
  pose proof (iv_heap _ _ _ I) as D. assert (divided (base + 16) top (heap (u_os s)) ((b, n) :: L ++ A)) as D' by (eapply divided_perm; [|exact D]; solve_Permutation).
  destruct (divided_in _ _ _ _ (b, n) D' ltac:(by left)) as (R1 & R2 & R3). simpl in R1, R2, R3.
  destruct (place base L b n) as (L1 & L2 & -> & E1 & F2); [done| |lia|done|].
  { intros c Hc. eapply divided_apart; [exact D'|set_solver]. }
  assert (u64 (b + 16 - 16) = b) as Eb by (rewrite wrap_small; lia). apply (free_wp fuel (b + 16) (lst base L1)); rewrite Eb.
  - apply (free_search_spec s L1 L2); try done; [apply I|lia| |apply I]. eapply Forall_impl; [exact F2|]. simpl. intros. lia.
  - pose proof (iv_list _ _ _ I) as [IL1 _]%linked_cut. rewrite (linked_last _ _ _ _ IL1).
    destruct (free_join s L1 L2 A b n I E1 F2) as (L' & I' & K & Hl & Hb). by exists L'.
Qed.

(** ** Taking a block *)

Lemma node_split L q : q ∈ base :: addrs L → ∃ X Y, L = X ++ Y ∧ q = lst base X.
Proof.
  intros [->|Hq]%elem_of_cons; [by exists [], L|]. apply list_elem_of_fmap in Hq as (c & -> & Hc). apply list_elem_of_split in Hc as (X & Y & ->).
  exists (X ++ [c]), Y. rewrite <- app_assoc, lst_app. done.
Qed.

(** The successor of a node is a node; if it has a size it is a free block. *)
Lemma next_node s L A q : inv s L A → q ∈ base :: addrs L → hptr (u_mem s) q ∈ base :: addrs L.
Proof.
  intros I Hq. apply node_split in Hq as (X & Y & -> & ->). pose proof (iv_list _ _ _ I) as [H _]%linked_cut. rewrite (linked_last _ _ _ _ H).
  destruct Y as [|c Y]; [by left|]. simpl. rewrite fmap_app. set_solver.
Qed.

Lemma find_at s L A q : inv s L A → q ∈ base :: addrs L → 0 < hsize (u_mem s) (hptr (u_mem s) q) →
  ∃ X Y, L = X ++ (hptr (u_mem s) q, hsize (u_mem s) (hptr (u_mem s) q)) :: Y ∧ q = lst base X.
Proof.
  intros I Hq Hs. apply node_split in Hq as (X & Y & -> & ->). pose proof (iv_list _ _ _ I) as [H HT]%linked_cut. rewrite (linked_last _ _ _ _ H) in *.
  destruct Y as [|[a n] Y]; simpl in *; [rewrite (iv_base _ _ _ I) in Hs; lia|]. destruct HT as [-> _]. by exists X, Y.
Qed.

Section Take.
Context (s : ust G) (X Y A : list block) (a n : Z) (I : inv s (X ++ (a, n) :: Y) A).

Lemma take_division : divided (base + 16) top (heap (u_os s)) ((a, n) :: X ++ Y ++ A).
Proof using I. eapply divided_perm; [|exact (iv_heap _ _ _ I)]. rewrite <- app_assoc. simpl. solve_Permutation. Qed.

Lemma take_facts : base + 16 <= a ∧ 0 < n ∧ a + 16 * n <= top ∧ hsize (u_mem s) a = n ∧ linked (u_mem s) base X a ∧ linked (u_mem s) a Y base ∧
  end_of base X < a ∧ spaced base X ∧ spaced (a + 16 * n) Y ∧ above base X.
Proof using I.
  destruct (divided_in _ _ _ _ (a, n) take_division ltac:(by left)) as (R1 & R2 & R3). pose proof (iv_list _ _ _ I) as (IL1 & Hn & IL2)%linked_app.
  pose proof (iv_sorted _ _ _ I) as (S1 & _ & S2 & S3)%spaced_split. simpl in *. do 9 (split; [done|]).
  apply Forall_forall. intros c Hc. pose proof (divided_in _ _ _ _ c take_division ltac:(set_solver)). lia.
Qed.

Lemma take_far : Forall (far a) (base :: addrs (X ++ Y)).
Proof using I.
  destruct take_facts as (R1 & _). apply Forall_cons. split; [unfold far; lia|]. apply Forall_forall. intros x Hx. apply list_elem_of_fmap in Hx as (c & -> & Hc).
  pose proof (clear_block _ _ _ (a, n) _ (X ++ Y) take_division ltac:(set_solver)) as C. exact (clear_far a _ c C Hc).
Qed.

(** The whole block: it leaves the list. *)
Lemma take_whole : let m' := st64 (u_mem s) (lst base X) (hptr (u_mem s) a) in
  inv (mkU m' (lst base X) (u_os s)) (X ++ Y) ((a, n) :: A) ∧ kept A (u_mem s) m'.
Proof using I.
  intros m'. destruct take_facts as (R1 & R2 & R3 & Hn & IL1 & IL2 & S1 & S2 & S3 & HA). pose proof take_division as D. pose proof base_ok as [B1 B2].
  assert (same_out (lst base X) (u_mem s) m') as HO by apply same_out_ptr. pose proof (spaced_spread _ _ S2 HA) as HP.
  pose proof (lst_in base X) as Hp. assert (clear_of (lst base X) ((a, n) :: Y ++ A)) as C.
  { apply elem_of_cons in Hp as [->|Hp]; [apply (clear_base _ _ _ _ D); set_solver|]. apply list_elem_of_fmap in Hp as (c & -> & Hc).
    apply elem_of_Permutation in Hc as [X' Hc]. eapply (clear_block _ _ _ c (X' ++ (a, n) :: Y ++ A)); [|set_solver].
    eapply divided_perm; [|exact D]. rewrite Hc. solve_Permutation. }
  assert (Forall (far (lst base X)) (addrs Y)) as FY.
  { apply Forall_forall. intros x Hx. apply list_elem_of_fmap in Hx as (c & -> & Hc). apply (clear_far _ _ c C). set_solver. }
  destruct (clear_kept _ _ _ _ C HO) as [K1 Z1]. apply linked_hd in IL2 as [Hq HT]. split.
  - split; simpl.
    + apply linked_cut. split; [|by apply (tail_frame _ _ _ _ _ HO)]. unfold m'. rewrite Hq. eapply linked_set; [by apply spaced_NoDup|done| |done].
      rewrite <- Hq. apply hptr_bound.
    + unfold m'. rewrite hsize_ptr; [apply I|]. apply HP; [done|by left].
    + apply spaced_app. split; [done|]. eapply spaced_mono; [|exact S3]. lia.
    + rewrite fmap_app. set_solver.
    + pose proof (Z1 (a, n) ltac:(by left)) as En. simpl in En. apply Forall_cons. split; [simpl; by rewrite En|]. apply Forall_forall. intros d Hd. rewrite (Z1 d) by set_solver.
      by apply (proj1 (Forall_forall _ _) (iv_used _ _ _ I)).
    + eapply divided_perm; [|exact D]. solve_Permutation.
  - intros d x Hd. apply K1. set_solver.
Qed.

(** Its upper part: the lower part stays in the list. *)
Lemma take_part u : 0 < u < n → let a' := a + 16 * (n - u) in let m1 := st32 (u_mem s) (a + 8) (n - u) in let m' := st32 m1 (a' + 8) u in
  inv (mkU m' (lst base X) (u_os s)) (X ++ (a, n - u) :: Y) ((a', u) :: A) ∧ kept A (u_mem s) m'.
Proof using I.
  intros Hu a' m1 m'. destruct take_facts as (R1 & R2 & R3 & Hn & IL1 & IL2 & S1 & S2 & S3 & HA). pose proof take_division as D. pose proof base_ok as [B1 B2]. pose proof top_ok as T.
  replace n with ((n - u) + u) in D by lia. apply divided_split in D; [|lia..]. fold a' in D.
  assert (divided (base + 16) top (heap (u_os s)) ((a', u) :: (a, n - u) :: X ++ Y ++ A)) as D2 by (eapply divided_perm; [|exact D]; solve_Permutation).
  pose proof take_far as F. assert (same_out a (u_mem s) m1) as HO1 by apply same_out_size. assert (same_out a' m1 m') as HO2 by apply same_out_size.
  pose proof (clear_block _ _ _ _ _ ((a, n - u) :: X ++ Y ++ A) D2 ltac:(set_solver)) as C2. simpl in C2.
  pose proof (clear_block _ _ _ _ _ (X ++ Y ++ A) D ltac:(set_solver)) as C1. simpl in C1.
  assert (Forall (far a') (a :: base :: addrs (X ++ Y))) as F'.
  { apply Forall_cons. split; [exact (clear_far _ _ (a, n - u) C2 ltac:(by left))|]. apply Forall_cons. split; [unfold far, a'; lia|].
    apply Forall_forall. intros x Hx. apply list_elem_of_fmap in Hx as (c & -> & Hc). apply (clear_far _ _ c C2). set_solver. }
  apply Forall_cons in F' as [Faa F']. pose proof F as [Fb _]%Forall_cons. pose proof F' as [Fb' _]%Forall_cons. rewrite fmap_app, app_comm_cons in F, F'. apply Forall_app in F as [FX FY], F' as [FX' FY'].
  destruct (clear_kept _ _ _ _ C1 HO1) as [K1 Z1]. destruct (clear_kept _ _ _ _ C2 HO2) as [K2 Z2]. split.
  - split; simpl.
    + apply linked_app. simpl. split; [apply (linked_frame a' m1); [done..|by apply (linked_frame a (u_mem s))]|]. split.
      * destruct (same_out_hdr a' m1 m' a HO2 Faa) as [_ ->]. apply hsize_size. lia.
      * apply linked_hd in IL2 as [Hq HT]. apply linked_hd. destruct (same_out_hdr a' m1 m' a HO2 Faa) as [-> _]. split; [unfold m1; by rewrite hptr_size by (by left)|].
        apply (tail_frame a' m1); [done..|]. by apply (tail_frame a (u_mem s)).
    + destruct (same_out_hdr a' m1 m' base HO2 Fb') as [_ ->]. destruct (same_out_hdr a _ m1 base HO1 Fb) as [_ ->]. apply I.
    + apply spaced_app. split; [done|]. simpl. split; [done|]. split; [lia|]. eapply spaced_mono; [|exact S3]. lia.
    + pose proof (lst_in base X). rewrite fmap_app. set_solver.
    + apply Forall_cons. split; [simpl; apply hsize_size; lia|]. apply Forall_forall. intros d Hd. rewrite (Z2 d), (Z1 d) by set_solver.
      by apply (proj1 (Forall_forall _ _) (iv_used _ _ _ I)).
    + eapply divided_perm; [|exact D]. rewrite <- app_assoc. simpl. solve_Permutation.
  - intros d x Hd Hx. rewrite (K2 d x) by (done || set_solver). apply (K1 d x); [set_solver|done].
Qed.
End Take.

(** ** malloc *)

(** What [malloc] leaves: a new block of [u] headers in front of the answer. *)
Definition taken (A : list block) (u : Z) (s : ust G) (r : Z) (s' : ust G) : Prop :=
  ∃ L', inv s' L' ((r - 16, u) :: A) ∧ kept A (u_mem s) (u_mem s').

(** Why [malloc] answers 0: no free block is large enough, and [sbrk], asked for the
    room [morecore] wants, answered [(char* )-1]. *)
Definition no_room (L : list block) (u : Z) (s s' : ust G) : Prop :=
  Forall (λ c, c.2 < u) L ∧ sbrk (16 * Z.max u 4096) (u_os s) = (2 ^ 64 - 1, u_os s').

Lemma malloc_found fuel u s L A q : inv s L A → q ∈ base :: addrs L → 0 < u <= hsize (u_mem s) (hptr (u_mem s) q) →
  wp (malloc_loop (S fuel) u q (hptr (u_mem s) q)) (λ r s', taken A u s r s' ∧ u_os s' = u_os s) s.
Proof.
  intros I Hq Hu. destruct (find_at s L A q I Hq ltac:(lia)) as (X & Y & -> & ->). set (a := hptr _ _) in *. set (n := hsize (u_mem s) a) in *.
  destruct (take_facts s X Y A a n I) as (R1 & R2 & R3 & Hn & _). pose proof base_ok as [B1 B2]. pose proof top_ok as T.
  simpl. apply wp_bind, wp_gets. fold n. rewrite (proj2 (Z.leb_le _ _)) by lia. apply wp_bind. destruct (Z.eqb_spec n u) as [E|Hne].
  - apply wp_bind, wp_gets, wp_bind, wp_modify, wp_ret, wp_bind, wp_modify, wp_ret. rewrite hadd_small by lia.
    destruct (take_whole s X Y A a n I) as [I' K]. split; [|done]. exists (X ++ Y). replace (a + 16 * 1 - 16) with a by lia. rewrite <- E. done.
  - apply wp_bind, wp_modify, wp_bind, wp_gets, wp_bind, wp_modify, wp_ret, wp_bind, wp_modify, wp_ret. simpl.
    rewrite (wrap_small 32) by (unfold n; pose proof (hsize_bound (u_mem s) a); lia). rewrite hsize_size by (unfold n; pose proof (hsize_bound (u_mem s) a); lia).
    rewrite (hadd_small a) by lia. rewrite hadd_small by lia.
    destruct (take_part s X Y A a n I u ltac:(lia)) as [I' K]. split; [|done]. exists (X ++ (a, n - u) :: Y). by replace (a + 16 * (n - u) + 16 * 1 - 16) with (a + 16 * (n - u)) by lia.
Qed.

(** Around the list once, from the block after [freep] to [freep] itself. *)
Section Round.
Context (u : Z) (s : ust G) (X Y A : list block) (Q : Z → ust G → Prop) (F : nat).
Hypotheses (I : inv s (X ++ Y) A) (Hu : 0 < u) (Ef : u_freep s = lst base X)
  (Hfound : ∀ f q, q ∈ base :: addrs (X ++ Y) → u <= hsize (u_mem s) (hptr (u_mem s) q) → wp (malloc_loop (S f) u q (hptr (u_mem s) q)) Q s)
  (Hmore : ∀ f q, (F <= f)%nat → Forall (λ c, c.2 < u) (X ++ Y) → hsize (u_mem s) (u_freep s) < u → wp (malloc_loop (S f) u q (u_freep s)) Q s).

Lemma round_step f q p : q ∈ base :: addrs (X ++ Y) → hptr (u_mem s) q = p → p ≠ u_freep s →
  (hsize (u_mem s) p < u → wp (malloc_loop f u p (hptr (u_mem s) p)) Q s) → wp (malloc_loop (S f) u q p) Q s.
Proof using Hfound.
  intros Hq <- Hne Hgo. destruct (decide (u <= hsize (u_mem s) (hptr (u_mem s) q))) as [Hle|Hlt]; [by apply Hfound|].
  simpl. apply wp_bind, wp_gets. rewrite (proj2 (Z.leb_gt _ _)) by lia. apply wp_bind, wp_gets. rewrite (proj2 (Z.eqb_neq _ _)) by done.
  apply wp_bind, wp_gets, Hgo. lia.
Qed.

Lemma round_nodup : NoDup (base :: addrs (X ++ Y)).
Proof using I. apply spaced_NoDup, I. Qed.

Lemma round_ends c Z1 Z2 : X ++ Y = Z1 ++ c :: Z2 → hptr (u_mem s) (lst base Z1) = c.1 ∧ hsize (u_mem s) c.1 = c.2 ∧ lst base Z1 ∈ base :: addrs (X ++ Y).
Proof using I.
  intros E. pose proof (iv_list _ _ _ I) as IL. rewrite E in IL |- *. apply linked_app in IL as (H1 & H2 & _). apply linked_last in H1. split; [done|]. split; [done|].
  rewrite fmap_app, app_comm_cons, elem_of_app. left. apply lst_in.
Qed.

Lemma round_second X2 X1 f : X = X1 ++ X2 → X2 ≠ [] → Forall (λ c, c.2 < u) (X1 ++ Y) → (length X2 + F <= f)%nat →
  wp (malloc_loop f u (lst base X1) (hptr (u_mem s) (lst base X1))) Q s.
Proof using I Ef Hfound Hmore.
  revert X1 f. induction X2 as [|c X2 IH]; intros X1 f E Hne HS Hf; [done|]. simpl in Hf. destruct f as [|f]; [lia|].
  destruct (round_ends c X1 (X2 ++ Y)) as (Hp & Hs & Hq); [by rewrite E, <- app_assoc|]. rewrite Hp. apply Forall_app in HS as [HS1 HS2].
  destruct (decide (u <= c.2)) as [Hle|Hlt]; [rewrite <- Hp; apply Hfound; [done|by rewrite Hp, Hs]|].
  destruct X2 as [|d X2].
  - assert (c.1 = u_freep s) as Ec by (by rewrite Ef, E, lst_app). rewrite Ec. apply Hmore; [lia| |by rewrite <- Ec, Hs; lia].
    rewrite E. apply Forall_app. split; [|done]. apply Forall_app. split; [done|]. constructor; [lia|constructor].
  - apply round_step; [done|done| |].
    + pose proof round_nodup as HN. rewrite Ef, E, lst_app. simpl. rewrite E in HN. rewrite !fmap_app in HN. apply NoDup_cons in HN as [_ HN].
      apply NoDup_app in HN as (HN & _ & _). apply NoDup_app in HN as (_ & _ & HN). simpl in HN. apply NoDup_cons in HN as [HN _]. intros Ec. apply HN. rewrite Ec. apply lst_in.
    + intros _. replace c.1 with (lst base (X1 ++ [c])) by (by rewrite lst_app). apply IH; [by rewrite <- app_assoc|done| |simpl in *; lia].
      rewrite <- app_assoc. apply Forall_app. split; [done|]. constructor; [lia|done].
Qed.

Lemma round_first Y2 Y1 f : Y = Y1 ++ Y2 → Forall (λ c, c.2 < u) Y1 → (length Y2 + length X + 1 + F <= f)%nat →
  wp (malloc_loop f u (lst base (X ++ Y1)) (hptr (u_mem s) (lst base (X ++ Y1)))) Q s.
Proof using I Hu Ef Hfound Hmore.
  revert Y1 f. induction Y2 as [|c Y2 IH]; intros Y1 f E HS Hf; (destruct f as [|f]; [simpl in Hf; lia|]).
  - rewrite app_nil_r in E. subst Y1. pose proof (iv_list _ _ _ I) as IL. apply linked_last in IL. rewrite IL.
    destruct (decide (X = [])) as [Ex|Hx].
    + rewrite Ex in Ef. simpl in Ef. rewrite <- Ef at 2. apply Hmore; [lia|by rewrite Ex|]. rewrite Ef, (iv_base _ _ _ I). lia.
    + apply round_step; [apply lst_in|done| |].
      * rewrite Ef. pose proof (iv_sorted _ _ _ I) as [S1 _]%spaced_app. destruct X as [|d X']; [done|]. simpl in *. destruct S1 as (S1 & S2 & S3).
        pose proof (lst_in d.1 X') as Hin. apply elem_of_cons in Hin as [->|Hin]; [lia|]. apply list_elem_of_fmap in Hin as (c & -> & Hc). destruct (spaced_lower _ _ c S3 Hc). lia.
      * intros _. apply (round_second X []); [done|done|done|simpl in Hf; lia].
  - destruct (round_ends c (X ++ Y1) Y2) as (Hp & Hs & Hq); [by rewrite E, app_assoc|]. rewrite Hp.
    apply round_step; [done|done| |].
    + rewrite Ef. intros Ec. pose proof (iv_sorted _ _ _ I) as S0. rewrite E, app_assoc in S0. apply spaced_split in S0 as (S1 & _ & S2 & _).
      apply spaced_app in S2 as [S2 S3]. rewrite end_of_app in S1. pose proof (lst_end _ _ S2). pose proof (spaced_end _ _ S3). lia.
    + intros Hlt. rewrite Hs in Hlt. replace c.1 with (lst base (X ++ Y1 ++ [c])) by (by rewrite app_assoc, lst_app). apply IH; [by rewrite <- app_assoc| |simpl in *; lia].
      apply Forall_app. split; [done|]. constructor; [done|constructor].
Qed.
End Round.

Lemma divided_grow lo hi (H H' : Z → Prop) B a n : divided lo hi H B → 0 < n → lo <= a → a + 16 * n <= hi →
  (∀ x, a <= x < a + 16 * n → ¬ H x) → (∀ x, H' x ↔ H x ∨ a <= x < a + 16 * n) → divided lo hi H' ((a, n) :: B).
Proof.
  intros [D R C] Hn Hlo Hhi Hf HH. split; simpl; [split; [|done]|by constructor|].
  - apply Forall_forall. intros c Hc. pose proof (proj1 (Forall_forall _ _) R c Hc) as Rc. simpl in Rc. unfold apart. simpl.
    destruct (decide (a + 16 * n <= c.1)); [by left|]. destruct (decide (c.1 + 16 * c.2 <= a)); [by right|]. exfalso.
    apply (Hf (Z.max a c.1)); [lia|]. apply C. exists c. split; [done|]. unfold inside. lia.
  - intros x. rewrite HH, C. split.
    + intros [(c & Hc & Hx)|Hx]; [exists c; set_solver|]. exists (a, n). split; [by left|done].
    + intros (c & [->|Hc]%elem_of_cons & Hx); [by right|left; by exists c].
Qed.

(** Fresh memory as a block in use. *)
Lemma grow_inv s L A a n g : inv s L A → 0 < n < 2 ^ 32 → base + 16 <= a → a + 16 * n <= top →
  (∀ x, a <= x < a + 16 * n → ¬ heap (u_os s) x) → (∀ x, heap g x ↔ heap (u_os s) x ∨ a <= x < a + 16 * n) →
  inv (mkU (st32 (u_mem s) (a + 8) n) (u_freep s) g) L ((a, n) :: A) ∧ kept A (u_mem s) (st32 (u_mem s) (a + 8) n).
Proof.
  intros [IL IB IS IF IU IH] Hn Ha Ht Hf HH. pose proof (divided_grow _ _ _ _ _ a n IH ltac:(lia) Ha Ht Hf HH) as D.
  pose proof (same_out_size a (u_mem s) n) as HO. pose proof (clear_block _ _ _ _ _ _ D ltac:(done)) as C. simpl in C.
  destruct (clear_kept _ _ _ _ C HO) as [K Z1]. assert (far a base) as Fb by (unfold far; lia). split; [|intros d x Hd; apply K; set_solver]. split; simpl; try done.
  - eapply linked_frame; [exact HO| |done]. apply Forall_cons. split; [done|]. apply Forall_forall. intros x Hx. apply list_elem_of_fmap in Hx as (c & -> & Hc).
    apply (clear_far _ _ c C). set_solver.
  - by destruct (same_out_hdr a _ _ base HO Fb) as [_ ->].
  - apply Forall_cons. split; [simpl; apply hsize_size; lia|]. apply Forall_forall. intros d Hd. rewrite (Z1 d) by set_solver. by apply (proj1 (Forall_forall _ _) IU).
  - eapply divided_perm; [|exact D]. solve_Permutation.
Qed.

Lemma morecore_spec fuel u s L A : inv s L A → 0 < u → 16 * u < 2 ^ 31 → (length L + 2 <= fuel)%nat →
  wp (morecore fuel u) (λ r s', (r = 0 ∧ inv s' L A ∧ u_mem s' = u_mem s ∧ sbrk (16 * Z.max u 4096) (u_os s) = (2 ^ 64 - 1, u_os s')) ∨
    (r = u_freep s' ∧ ∃ L', inv s' L' A ∧ kept A (u_mem s) (u_mem s') ∧ (length L' <= S (length L))%nat ∧ ∃ c, c ∈ L' ∧ u <= c.2)) s.
Proof.
  intros I Hu Hw Hf. pose proof base_ok as [B1 B2]. pose proof top_ok as T. unfold morecore. set (nu := if u <? 4096 then 4096 else u).
  assert (u <= nu ∧ 0 < nu * 16 < 2 ^ 31) as [Hnu Hb] by (unfold nu; destruct (Z.ltb_spec u 4096); lia).
  replace (s32 (nu * 16)) with (nu * 16) by (symmetry; apply swrap_small; lia).
  destruct (sbrk_spec (nu * 16) (u_os s) Hb) as (a & g & Es & [[-> Hg]|(Ha & Ht & Hfr & Hg)]); (eapply wp_bind, wp_eq; [by rewrite Es|]).
  - apply wp_ret. left. destruct I as [IL IB IS IF IU [D R C]]. split; [done|]. split; [|split; [done|]].
    + split; try done. split; try done. intros x. simpl. by rewrite Hg.
    + simpl. rewrite <- Es. f_equal. unfold nu. destruct (Z.ltb_spec u 4096); lia.
  - replace (16 * nu) with (nu * 16) in * by lia. destruct (grow_inv s L A a nu g I) as [I' K]; [lia|done|lia|intros x Hx; apply Hfr; lia|intros x; rewrite Hg; by replace (16 * nu) with (nu * 16) by lia|].
    rewrite (proj2 (Z.eqb_neq a _)) by (change (u64 (-1)) with (2 ^ 64 - 1); lia). apply wp_bind, wp_modify. rewrite hadd_small by lia.
    eapply wp_step; [apply (free_spec fuel _ L A a nu I' Hf)|]. intros _ s' (L' & I'' & K' & _ & Hl & c & Hc & Hcn). apply wp_gets. right. split; [done|].
    exists L'. split; [done|]. split; [by eapply still_trans|]. split; [done|]. exists c. split; [done|]. lia.
Qed.

Lemma freep_pos s L A : inv s L A → u_freep s ≠ 0.
Proof.
  intros I E. pose proof (iv_freep _ _ _ I) as Hin. pose proof base_ok. rewrite E in Hin. apply elem_of_cons in Hin as [Hin|Hin]; [lia|].
  apply list_elem_of_fmap in Hin as (c & Ec & Hc). pose proof (divided_in _ _ _ _ c (iv_heap _ _ _ I) ltac:(set_solver)). lia.
Qed.

Lemma taken_after A u s1 s r s' : kept A (u_mem s1) (u_mem s) → taken A u s r s' → taken A u s1 r s'.
Proof. intros K (L' & I' & K'). exists L'. split; [done|]. by eapply still_trans. Qed.

(** With a block that is large enough, one round finds it. *)
Lemma malloc_fits fuel u s L A c : inv s L A → 0 < u → c ∈ L → u <= c.2 → (length L + 2 <= fuel)%nat →
  wp (malloc_loop fuel u (u_freep s) (hptr (u_mem s) (u_freep s))) (taken A u s) s.
Proof.
  intros I Hu Hc Hcu Hf. destruct (node_split L (u_freep s) (iv_freep _ _ _ I)) as (X & Y & -> & Ef). rewrite Ef.
  pose proof (round_first u s X Y A (taken A u s) 0 I Hu Ef) as R. replace (lst base X) with (lst base (X ++ [])) by (by rewrite app_nil_r).
  apply R with (Y2 := Y); [| |done|constructor|rewrite length_app in Hf; lia].
  { intros f q Hq Hle. eapply wp_mono; [apply (malloc_found f u s (X ++ Y) A q I Hq (conj Hu Hle))|]. by intros ? ? [? _]. }
  intros f q _ HS. rewrite Forall_forall in HS. specialize (HS c Hc). lia.
Qed.

Lemma malloc_loop_spec fuel u s L A : inv s L A → 0 < u → 16 * u < 2 ^ 31 → (2 * length L + 5 <= fuel)%nat →
  wp (malloc_loop fuel u (u_freep s) (hptr (u_mem s) (u_freep s))) (λ r s', (r = 0 ∧ inv s' L A ∧ u_mem s' = u_mem s ∧ no_room L u s s') ∨
    (taken A u s r s' ∧ ((∃ c, c ∈ L ∧ u <= c.2) → u_os s' = u_os s))) s.
Proof.
  intros I Hu Hw Hf. destruct (node_split L (u_freep s) (iv_freep _ _ _ I)) as (X & Y & E & Ef). subst L. rewrite Ef.
  replace (lst base X) with (lst base (X ++ [])) by (by rewrite app_nil_r).
  eapply (round_first u s X Y A _ (length (X ++ Y) + 3) I Hu Ef) with (Y2 := Y); [| |done|constructor|rewrite length_app in *; lia].
  - intros f q Hq Hle. eapply wp_mono; [apply (malloc_found f u s (X ++ Y) A q I Hq (conj Hu Hle))|]. intros r s' []. by right.
  - intros f q HF HS Hsm. simpl. apply wp_bind, wp_gets. rewrite (proj2 (Z.leb_gt _ _)) by lia. apply wp_bind, wp_gets. rewrite Z.eqb_refl.
    eapply wp_step; [apply (morecore_spec (S f) u s (X ++ Y) A I Hu Hw); lia|]. intros r s1 [(-> & I1 & Em & Eo)|(-> & L' & I1 & K & Hl & c & Hc & Hcu)].
    + apply wp_ret. by left.
    + rewrite (proj2 (Z.eqb_neq _ _)) by (by apply (freep_pos s1 L' A)). apply wp_bind, wp_gets.
      eapply wp_mono; [apply (malloc_fits f u s1 L' A c I1 Hu Hc Hcu); lia|]. intros r s' Ht. right. split; [by eapply taken_after|].
      intros (d & Hd & Hdu). pose proof (proj1 (Forall_forall _ _) HS d Hd) as Hlt. simpl in Hlt. lia.
Qed.

(** The program before its first [malloc], or after it. *)
Definition ready (s : ust G) (L A : list block) : Prop :=
  inv s L A ∨ (u_freep s = 0 ∧ L = [] ∧ A = [] ∧ ∀ x, ¬ heap (u_os s) x).

Lemma init_inv s : (∀ x, ¬ heap (u_os s) x) → inv (mkU (st32 (st64 (u_mem s) base base) (base + 8) 0) base (u_os s)) [] [].
Proof.
  intros Hh. pose proof base_ok. split; simpl.
  - rewrite hptr_size by (by left). apply hptr_ptr. lia.
  - apply hsize_size. lia.
  - done.
  - by left.
  - constructor.
  - split; [done|constructor|]. intros x. split; [intros Hx; by destruct (Hh x)|]. by intros (b & ?%elem_of_nil & _).
Qed.

Lemma units_spec n : 0 <= n < 2 ^ 32 → 0 < units n ∧ n <= 16 * (units n - 1) < n + 16.
Proof. intros Hn. unfold units. pose proof (Z.div_mod (n + 16 - 1) 16). pose proof (Z.mod_pos_bound (n + 16 - 1) 16). rewrite wrap_small; lia. Qed.

Lemma malloc_spec fuel n s L A : ready s L A → 0 <= n < 2 ^ 31 - 48 → (2 * length L + 5 <= fuel)%nat →
  wp (malloc fuel n) (λ r s', (r = 0 ∧ inv s' L A ∧ kept A (u_mem s) (u_mem s') ∧ no_room L (units n) s s') ∨
    (taken A (units n) s r s' ∧ ((∃ c, c ∈ L ∧ units n <= c.2) → u_os s' = u_os s))) s.
Proof.
  intros HR Hn Hf. destruct (units_spec n) as [U1 U2]; [lia|]. unfold malloc. apply wp_bind, wp_gets. destruct HR as [I|(E & -> & -> & Hh)].
  - rewrite (proj2 (Z.eqb_neq _ _)) by (by apply (freep_pos s L A)). apply wp_bind, wp_ret, wp_bind, wp_gets.
    eapply wp_mono; [apply (malloc_loop_spec fuel (units n) s L A I); lia|]. intros r s' [(-> & I' & Em & Hno)|Ht]; [left|by right].
    split; [done|]. split; [done|]. split; [|done]. intros b x _ _. by rewrite Em.
  - rewrite E. apply wp_bind. apply wp_bind, wp_modify, wp_bind, wp_modify, wp_bind, wp_modify, wp_ret, wp_bind, wp_gets. pose proof (init_inv s Hh) as I.
    eapply wp_mono; [apply (malloc_loop_spec fuel (units n) _ [] [] I); simpl; lia|].
    intros r s' [(-> & I' & Em & Hno)|[Ht Ho]]; [left|right]; [split; [done|]; split; [done|]; split; [by intros b x ?%elem_of_nil|done]|].
    split; [|done]. eapply taken_after; [|exact Ht]. by intros b x ?%elem_of_nil.
Qed.
End Spec.
