(* ===== verification/UmallocProps.v ===== *)
(** * Theorems about the allocator of user programs (user/umalloc.c) *)

From S2P Require Import Prelude Mem Umalloc UmallocSpec.

Section Props.
Context {G : Type} `{!Sbrk G} `{!SbrkLaws G}.

(** C10 (safety).  [malloc] returns.  It answers 0 only when no free block is large enough
    and [sbrk], asked for the request rounded up to 4096 headers, has no more; the free
    list is then as before.  Otherwise it answers [n] bytes of the heap that overlap no block
    in use, and it asks for memory only if no free block was large enough.  In both
    cases the blocks in use keep their contents, and free and used blocks still divide
    the heap. *)
Theorem malloc_correct fuel n (s : ust G) L A : ready s L A → 0 <= n < 2 ^ 31 - 48 → (2 * length L + 5 <= fuel)%nat →
  wp (malloc fuel n) (λ r s', kept A (u_mem s) (u_mem s') ∧
    ((r = 0 ∧ inv s' L A ∧ (∀ c, c ∈ L → c.2 < units n) ∧ sbrk (16 * Z.max (units n) 4096) (u_os s) = (2 ^ 64 - 1, u_os s')) ∨
     (r ≠ 0 ∧ (∀ x, r <= x < r + n → heap (u_os s') x) ∧ (∀ d, d ∈ A → r + n <= d.1 ∨ d.1 + 16 * d.2 <= r) ∧
      ((∃ c, c ∈ L ∧ units n <= c.2) → u_os s' = u_os s) ∧ ∃ L', inv s' L' ((r - 16, units n) :: A)))) s.
Proof.
  intros HR Hn Hf. destruct (units_spec n ltac:(lia)) as [U1 U2]. eapply wp_mono; [by apply (malloc_spec fuel n s L A)|].
  intros r s' [(-> & I & K & HS & Ho)|((L' & I & K) & Ho)]; (split; [done|]).
  { left. split_and!; [done..| |done]. by apply Forall_forall. }
  right. pose proof (iv_heap _ _ _ I) as D. pose proof base_ok as [B1 B2]. split_and!; [| | |done|by exists L'].
  - pose proof (divided_in _ _ _ _ (r - 16, units n) D ltac:(set_solver)) as Hr. simpl in Hr. lia.
  - intros x Hx. apply (dv_cover _ _ _ _ D). exists (r - 16, units n). split; [set_solver|]. unfold inside. simpl. lia.
  - intros d Hd. assert (divided (base + 16) top (heap (u_os s')) ((r - 16, units n) :: L' ++ A)) as D' by (eapply divided_perm; [|exact D]; solve_Permutation).
    pose proof (divided_apart _ _ _ _ _ d D' ltac:(set_solver)) as P. pose proof (divided_in _ _ _ _ d D' ltac:(set_solver)). unfold apart in P. simpl in P. lia.
Qed.

(** C24 (invariant).  [free] of a block in use returns, gives exactly its memory back
    to the free list, which stays sorted and without two blocks that touch, and
    leaves the contents of all other blocks alone. *)
Theorem free_correct fuel (s : ust G) L A A' b n : inv s L A → A ≡ₚ (b, n) :: A' → (length L + 2 <= fuel)%nat →
  wp (free fuel (b + 16)) (λ _ s', kept A' (u_mem s) (u_mem s') ∧ ∃ L', inv s' L' A' ∧
    ∀ x, (∃ c, c ∈ L' ∧ inside x c) ↔ inside x (b, n) ∨ ∃ c, c ∈ L ∧ inside x c) s.
Proof.
  intros I HP Hf. pose proof (inv_perm _ _ _ _ HP I) as I1. eapply wp_mono; [by apply (free_spec fuel s L A' b n)|].
  intros _ s' (L' & I' & K & Eo & _ & _). split; [done|]. exists L'. split; [done|].
  pose proof (iv_heap _ _ _ I1) as D. pose proof (iv_heap _ _ _ I') as D'. rewrite Eo in D'.
  assert (∀ x B, (∃ c, c ∈ B ∧ inside x c) → ∀ C, divided (base + 16) top (heap (u_os s)) (B ++ C) → ¬ ∃ c, c ∈ C ∧ inside x c) as HX.
  { intros x B (c & Hc & Hx) C DB (d & Hd & Hx'). apply elem_of_Permutation in Hc as [B' HB]. assert (divided (base + 16) top (heap (u_os s)) (c :: B' ++ C)) as D1.
    { eapply divided_perm; [|exact DB]. by rewrite HB. }
    pose proof (divided_apart _ _ _ _ _ d D1 ltac:(set_solver)) as P. unfold apart, inside in *. lia. }
  assert (divided (base + 16) top (heap (u_os s)) (((b, n) :: L) ++ A')) as D2 by (eapply divided_perm; [|exact D]; solve_Permutation).
  intros x. split.
  - intros H. pose proof (HX x L' H A' D') as Hna. assert (heap (u_os s) x) as Hh by (apply (dv_cover _ _ _ _ D'); destruct H as (c & ? & ?); exists c; set_solver).
    apply (dv_cover _ _ _ _ D2) in Hh as (c & Hc & Hx). apply elem_of_app in Hc as [Hc|Hc]; [|by destruct Hna; exists c]. apply elem_of_cons in Hc as [->|Hc]; [by left|right; by exists c].
  - intros H. assert (∃ c, c ∈ (b, n) :: L ∧ inside x c) as H' by (destruct H as [?|(c & ? & ?)]; [exists (b, n)|exists c]; set_solver).
    pose proof (HX x _ H' A' D2) as Hna. assert (heap (u_os s) x) as Hh by (apply (dv_cover _ _ _ _ D2); destruct H' as (c & ? & ?); exists c; set_solver).
    apply (dv_cover _ _ _ _ D') in Hh as (c & Hc & Hx). apply elem_of_app in Hc as [Hc|Hc]; [by exists c|by destruct Hna; exists c].
Qed.
End Props.

(** ** A program *)

(** [base] at 0x1000, the heap from 0x2000 on up to 16 MiB; the state of [sbrk] is the
    end of the heap. *)
#[export] Instance demo_sbrk : Sbrk Z := {|
  base := 0x1000;
  sbrk n g := if Z.max g 0x2000 + n <=? 0x1000000 then (Z.max g 0x2000, Z.max g 0x2000 + n) else (2 ^ 64 - 1, g)
|}.
#[export] Program Instance demo_sbrk_laws : SbrkLaws Z := {| heap g x := 0x2000 <= x < g; top := 0x1000000 |}.
Next Obligation. simpl. lia. Qed.
Next Obligation. simpl. lia. Qed.
Next Obligation.
  intros n g Hn. simpl. destruct (Z.leb_spec (Z.max g 0x2000 + n) 0x1000000); do 2 eexists; (split; [done|]).
  - right. split_and!; [lia..| |]; intros x; simpl; lia.
  - left. done.
Qed.

Definition demo_u0 : ust Z := mkU ∅ 0 0.

Lemma demo_ready : ready demo_u0 [] [].
Proof. right. split_and!; [done..|]. intros x. simpl. lia. Qed.

Lemma demo_malloc : ∃ s L, inv s L [(73616 - 16, units 100)].
Proof.
  pose proof (malloc_spec 20 100 demo_u0 [] [] demo_ready ltac:(lia) ltac:(simpl; lia)) as W.
  assert (answer (malloc 20 100) demo_u0 = Some 73616) as E by (by vm_compute).
  destruct (wp_answer _ _ _ _ W E) as [(? & _)|((L & I & _) & _)]; [discriminate|]. exists (after (malloc 20 100) demo_u0), L. exact I.
Qed.

Lemma malloc_correct_witness : ∃ s', (∀ x, 73616 <= x < 73616 + 100 → heap (u_os s') x) ∧ ∃ L', inv s' L' [(73616 - 16, units 100)].
Proof.
  pose proof (malloc_correct 20 100 demo_u0 [] [] demo_ready ltac:(lia) ltac:(simpl; lia)) as W.
  assert (answer (malloc 20 100) demo_u0 = Some 73616) as E by (by vm_compute).
  destruct (wp_answer _ _ _ _ W E) as [_ [[? _]|(_ & H & _ & _ & I)]]; [discriminate|]. exists (after (malloc 20 100) demo_u0). split; [exact H|exact I].
Defined.

Lemma free_correct_witness : ∃ s L, inv s L [(73616 - 16, units 100)] ∧
  wp (free (length L + 2) (73616 - 16 + 16)) (λ _ s', ∃ L', inv s' L' []) s.
Proof.
  destruct demo_malloc as (s & L & I). exists s, L. split; [done|].
  pose proof (free_correct (length L + 2) s L [(73616 - 16, units 100)] [] (73616 - 16) (units 100) I ltac:(done) ltac:(lia)) as W.
  eapply wp_mono; [exact W|]. intros _ s' (_ & L' & I' & _). by exists L'.
Defined.
