(* ===== verification/Sh.v ===== *)
(** * The shell (user/sh.c)

    The line is a list of characters, without the NUL; a pointer into it is the rest
    of the line from there on, and a string of the parsed command a pair of offsets,
    [q] and [eq], until [nulterminate] cuts it off in place.  [panic] leaves the
    process.  The constructors take memory from [malloc], which is assumed to have
    it. *)

From S2P Require Import Prelude.

Definition MAXARGS : nat := 10.
Definition whitespace : list Z := [32; 9; 13; 10; 11].
Definition symbols : list Z := [60; 124; 62; 38; 59; 40; 41].
Definition O_READ : Z := 0.
Definition O_CREATE_WRITE : Z := Z.lor 0x001 0x200.
Definition O_CREATE_TRUNC_WRITE : Z := Z.lor (Z.lor 0x001 0x200) 0x400.

(** [struct cmd] and its kinds; a word is where it starts and where it ends. *)
Abbreviation word := (nat * nat)%type.
Inductive cmd (W : Type) :=
  | EXEC (argv : list W)
  | REDIR (c : cmd W) (file : W) (mode fd : Z)
  | PIPE (left right : cmd W)
  | LIST (left right : cmd W)
  | BACK (c : cmd W).
Arguments EXEC {W} argv.
Arguments REDIR {W} c file mode fd.
Arguments PIPE {W} left right.
Arguments LIST {W} left right.
Arguments BACK {W} c.

(** The constructors, with the type and the fields set in zeroed memory. *)
Definition execcmd : cmd word := EXEC [].
Definition redircmd (subcmd : cmd word) (file : word) (mode fd : Z) : cmd word := REDIR subcmd file mode fd.
Definition pipecmd (l r : cmd word) : cmd word := PIPE l r.
Definition listcmd (l r : cmd word) : cmd word := LIST l r.
Definition backcmd (subcmd : cmd word) : cmd word := BACK subcmd.

(** ** Tokens *)

(** [strchr(l, c)] for a character that is not NUL. *)
Definition strchr (l : list Z) (c : Z) : bool := bool_decide (c ∈ l).

Fixpoint skip_space (s : list Z) : list Z :=
  match s with c :: t => if strchr whitespace c then skip_space t else s | [] => [] end.
Fixpoint skip_word (s : list Z) : list Z :=
  match s with
  | c :: t => if negb (strchr whitespace c) && negb (strchr symbols c) then skip_word t else s
  | [] => []
  end.

(** The token, [q], [eq] and the new [*ps]. *)
Definition gettoken (s : list Z) : Z * list Z * list Z * list Z :=
  let q := skip_space s in
  let '(ret, eq) :=
    match q with
    | [] => (0, q)
    | c :: t =>
        if strchr [124; 40; 41; 59; 38; 60] c then (c, t)
        else if c =? 62 then
          match t with
          | d :: t' => if d =? 62 then (43, t') else (c, t)
          | [] => (c, t)
          end
        else (97, skip_word q)
    end in
  (ret, q, eq, skip_space eq).

(** The answer and the new [*ps]. *)
Definition peek (toks s : list Z) : bool * list Z :=
  let s' := skip_space s in
  (match s' with c :: _ => strchr toks c | [] => false end, s').

(** ** The parser *)

(** A parser of a line of [n] characters: the value and the rest, or a panic. *)
Abbreviation parser A := (outcome (A * list Z)).
Definition pbind {A B} (m : parser A) (k : A → list Z → parser B) : parser B :=
  match m with Ok (a, s) => k a s | Panic e => Panic e | Hang => Hang | Undef => Undef end.

Section Parse.
Variable n : nat.

Definition word_of (q eq : list Z) : word := ((n - length q)%nat, (n - length eq)%nat).

(** [while(peek(ps, es, "<>"))]. *)
Fixpoint parseredirs (fuel : nat) (c : cmd word) (s : list Z) : parser (cmd word) :=
  match fuel with
  | O => Hang
  | S fuel' =>
      let '(more, s) := peek [60; 62] s in
      if (more : bool) then
        let '(tok, _, _, s) := gettoken s in
        let '(a, q, eq, s) := gettoken s in
        if negb (a =? 97) then Panic "missing file for redirection"
        else
          let c :=
            if tok =? 60 then redircmd c (word_of q eq) O_READ 0
            else if tok =? 62 then redircmd c (word_of q eq) O_CREATE_TRUNC_WRITE 1
            else if tok =? 43 then redircmd c (word_of q eq) O_CREATE_WRITE 1
            else c in
          parseredirs fuel' c s
      else Ok (c, s)
  end.

(** The [execcmd] of [parseexec] sits inside the redirections that were read
    already: [set_argv] fills it in. *)
Fixpoint set_argv (argv : list word) (c : cmd word) : cmd word :=
  match c with
  | REDIR c' f m d => REDIR (set_argv argv c') f m d
  | _ => EXEC argv
  end.

Fixpoint exec_args (fuel : nat) (ret : cmd word) (argv : list word) (s : list Z) : parser (cmd word) :=
  match fuel with
  | O => Hang
  | S fuel' =>
      let '(stop, s) := peek [124; 41; 38; 59] s in
      if (stop : bool) then Ok (set_argv argv ret, s)
      else
        let '(tok, q, eq, s) := gettoken s in
        if tok =? 0 then Ok (set_argv argv ret, s)
        else if negb (tok =? 97) then Panic "syntax"
        else
          let argv := argv ++ [word_of q eq] in
          if (MAXARGS <=? length argv)%nat then Panic "too many args"
          else pbind (parseredirs fuel' ret s) (λ ret s, exec_args fuel' ret argv s)
  end.

(** [while(peek(ps, es, "&"))]. *)
Fixpoint back_loop (fuel : nat) (c : cmd word) (s : list Z) : parser (cmd word) :=
  match fuel with
  | O => Hang
  | S fuel' =>
      let '(more, s) := peek [38] s in
      if (more : bool) then let '(_, _, _, s) := gettoken s in back_loop fuel' (backcmd c) s
      else Ok (c, s)
  end.

(** The mutual recursion of [parseline], [parsepipe], [parseexec] and [parseblock]
    uses up [fuel] at every call. *)
Inductive nonterminal := Line | Pipe | Exec | Block.
Fixpoint parse (fuel : nat) (nt : nonterminal) (s : list Z) : parser (cmd word) :=
  match fuel with
  | O => Hang
  | S f =>
      match nt with
      | Line =>
          pbind (parse f Pipe s) (λ c s,
          pbind (back_loop f c s) (λ c s,
            let '(more, s) := peek [59] s in
            if (more : bool) then
              let '(_, _, _, s) := gettoken s in
              pbind (parse f Line s) (λ c' s, Ok (listcmd c c', s))
            else Ok (c, s)))
      | Pipe =>
          pbind (parse f Exec s) (λ c s,
            let '(more, s) := peek [124] s in
            if (more : bool) then
              let '(_, _, _, s) := gettoken s in
              pbind (parse f Pipe s) (λ c' s, Ok (pipecmd c c', s))
            else Ok (c, s))
      | Exec =>
          let '(block, s) := peek [40] s in
          if (block : bool) then parse f Block s
          else pbind (parseredirs f execcmd s) (λ ret s, exec_args f ret [] s)
      | Block =>
          let '(open, s) := peek [40] s in
          if negb open then Panic "parseblock"
          else
            let '(_, _, _, s) := gettoken s in
            pbind (parse f Line s) (λ c s,
              let '(close, s) := peek [41] s in
              if negb close then Panic "syntax - missing )"
              else
                let '(_, _, _, s) := gettoken s in
                parseredirs f c s)
      end
  end.
End Parse.

Definition parseline (fuel n : nat) (s : list Z) := parse n fuel Line s.

(** ** Cutting off the words *)

(** The buffer as [nulterminate] leaves it: the line with its NUL, with NULs at the
    ends of the words. *)
Fixpoint nulterminate (c : cmd word) (buf : list Z) : list Z :=
  match c with
  | EXEC argv => foldl (λ b w, <[w.2 := 0]> b) buf argv
  | REDIR c' f _ _ => <[f.2 := 0]> (nulterminate c' buf)
  | PIPE l r => nulterminate r (nulterminate l buf)
  | LIST l r => nulterminate r (nulterminate l buf)
  | BACK c' => nulterminate c' buf
  end.

Definition parsecmd (fuel : nat) (line : list Z) : outcome (cmd word * list Z) :=
  match parseline fuel (length line) line with
  | Ok (c, s) =>
      let '(_, s) := peek [] s in
      match s with
      | [] => Ok (c, nulterminate c (line ++ [0]))
      | _ => Panic "syntax"
      end
  | Panic e => Panic e
  | Hang => Hang
  | Undef => Undef
  end.

(** The string at offset [i] of the buffer. *)
Fixpoint cstring (b : list Z) : list Z :=
  match b with c :: t => if c =? 0 then [] else c :: cstring t | [] => [] end.
Definition string_at (buf : list Z) (i : nat) : list Z := cstring (drop i buf).

(** What [exec] and [open] get to see. *)
Fixpoint cmd_map {V W} (f : V → W) (c : cmd V) : cmd W :=
  match c with
  | EXEC argv => EXEC (f <$> argv)
  | REDIR c' w m d => REDIR (cmd_map f c') (f w) m d
  | PIPE l r => PIPE (cmd_map f l) (cmd_map f r)
  | LIST l r => LIST (cmd_map f l) (cmd_map f r)
  | BACK c' => BACK (cmd_map f c')
  end.
Definition texts (buf : list Z) (c : cmd word) : cmd (list Z) := cmd_map (λ w, string_at buf w.1) c.

(** A line of text as characters. *)
Definition chars (s : string) : list Z := (λ a, Z.of_nat (Ascii.nat_of_ascii a)) <$> String.list_ascii_of_string s.
