(* ===== verification/ShSpec.v ===== *)
(** * The parser of the shell (user/sh.c)

    The parser ends on every line; the words of the command it builds are the words
    of the line, also after [nulterminate] has cut them off in place. *)

From S2P Require Import Prelude Sh.

(** ** Tokens *)

Definition is_word (c : Z) : bool := negb (strchr whitespace c) && negb (strchr symbols c).

Lemma skip_space_suffix s : ∃ p, s = p ++ skip_space s.
Proof.
  induction s as [|c s [p IH]]; [by exists []|]. simpl. destruct (strchr whitespace c); [|by exists []]. exists (c :: p). simpl. by rewrite <- IH.
Qed.

Lemma skip_word_suffix s : ∃ p, s = p ++ skip_word s ∧ Forall (λ c, is_word c = true) p.
Proof.
  induction s as [|c s (p & E & F)]; [by exists []|]. simpl. fold (is_word c). destruct (is_word c) eqn:W; [|by exists []].
  exists (c :: p). split; [simpl; by rewrite <- E|by constructor].
Qed.

Lemma skip_word_stops s : match skip_word s with c :: _ => is_word c = false | [] => True end.
Proof. induction s as [|c s IH]; simpl; [done|]. fold (is_word c). by destruct (is_word c) eqn:W. Qed.

Lemma skip_space_length s : (length (skip_space s) <= length s)%nat.
Proof. destruct (skip_space_suffix s) as [p E]. rewrite E at 2. rewrite length_app. lia. Qed.

Lemma skip_space_idem s : skip_space (skip_space s) = skip_space s.
Proof. induction s as [|c s IH]; [done|]. simpl. destruct (strchr whitespace c) eqn:E; [done|]. simpl. by rewrite E. Qed.

(** The rest of the line shrinks. *)
Definition suffix_of (s' s : list Z) : Prop := ∃ p, s = p ++ s'.

Lemma suffix_refl s : suffix_of s s.
Proof. by exists []. Qed.
Lemma suffix_trans s1 s2 s3 : suffix_of s1 s2 → suffix_of s2 s3 → suffix_of s1 s3.
Proof. intros [p ->] [q ->]. exists (q ++ p). by rewrite app_assoc. Qed.
Lemma suffix_length s' s : suffix_of s' s → (length s' <= length s)%nat.
Proof. intros [p ->]. rewrite length_app. lia. Qed.

Lemma peek_suffix toks s : suffix_of (peek toks s).2 s.
Proof. apply skip_space_suffix. Qed.

Lemma skip_space_head s t c : skip_space s = c :: t → strchr whitespace c = false.
Proof. induction s as [|d s IH]; [done|]. simpl. destruct (strchr whitespace d) eqn:E; [done|]. intros [= -> _]. done. Qed.

Lemma word_head c : strchr whitespace c = false → strchr [124; 40; 41; 59; 38; 60] c = false → c ≠ 62 → is_word c = true.
Proof.
  unfold is_word, strchr. intros -> Hs Hc. apply bool_decide_eq_false in Hs. rewrite bool_decide_eq_false_2; [done|]. unfold symbols. set_solver.
Qed.

(** What [gettoken] answers: [q] and [eq] are rests of the line; a word is not empty,
    has no separators and ends at one. *)
Lemma gettoken_spec s : let '(tok, q, eq, s') := gettoken s in
  suffix_of q s ∧ suffix_of eq q ∧ suffix_of s' eq ∧ (tok ≠ 0 → (length s' < length s)%nat) ∧
  (tok = 97 → ∃ w, q = w ++ eq ∧ w ≠ [] ∧ Forall (λ c, is_word c = true) w ∧ match eq with c :: _ => is_word c = false | [] => True end).
Proof.
  unfold gettoken. pose proof (skip_space_suffix s) as Hq. set (q := skip_space s) in *.
  assert (∀ t, suffix_of (skip_space t) t) as HS by apply skip_space_suffix.
  assert (∀ c t eq, q = c :: t → suffix_of eq t → (length (skip_space eq) < length s)%nat) as HL.
  { intros c t eq E He. pose proof (suffix_length _ _ (HS eq)). pose proof (suffix_length _ _ He). pose proof (suffix_length _ _ Hq). rewrite E in *. simpl in *. lia. }
  destruct q as [|c t] eqn:Eq; [split_and!; [done|apply suffix_refl|apply HS|done|done]|]. rewrite <- Eq in *.
  destruct (strchr [124; 40; 41; 59; 38; 60] c) eqn:Es.
  - rewrite Eq. split_and!; [by rewrite <- Eq|by exists [c]|apply HS|intros _; eapply HL; [exact Eq|apply suffix_refl]|].
    intros ->. by vm_compute in Es.
  - destruct (Z.eqb_spec c 62) as [->|Hc].
    + assert (suffix_of t q) as Ht by (exists [62]; by rewrite Eq).
      destruct t as [|d t']; [|destruct (d =? 62)]; (split_and!; [done| |apply HS| |done]); try done.
      * intros _. eapply HL; [exact Eq|apply suffix_refl].
      * eapply suffix_trans; [|exact Ht]. by exists [d].
      * intros _. eapply HL; [exact Eq|by exists [d]].
      * intros _. eapply HL; [exact Eq|apply suffix_refl].
    + destruct (skip_word_suffix q) as (w & E & F). pose proof (skip_word_stops q) as St.
      assert (is_word c = true) as Wc by (apply word_head; [by apply (skip_space_head s t)|done|done]).
      set (e := skip_word q) in *. clearbody e. assert (w ≠ []) as Hw by (intros ->; simpl in E; rewrite <- E, Eq in St; congruence).
      split_and!; [done|by exists w|apply HS| |intros _; exists w; split_and!; try done].
      intros _. destruct w as [|x w]; [done|]. rewrite Eq in E. injection E as <- E. eapply HL; [exact Eq|]. by exists w.
Qed.

(** ** The parser *)

Fixpoint cmd_all {W} (P : W → Prop) (c : cmd W) : Prop :=
  match c with
  | EXEC argv => Forall P argv
  | REDIR c' f _ _ => cmd_all P c' ∧ P f
  | PIPE l r => cmd_all P l ∧ cmd_all P r
  | LIST l r => cmd_all P l ∧ cmd_all P r
  | BACK c' => cmd_all P c'
  end.

Section Line.
Variable line : list Z.
Abbreviation n := (length line).

(** A word of the line. *)
Definition word_ok (w : word) : Prop :=
  ∃ a x b, line = a ++ x ++ b ∧ w = (length a, (length a + length x)%nat) ∧ x ≠ [] ∧ Forall (λ c, is_word c = true) x ∧
    match b with c :: _ => is_word c = false | [] => True end.

Definition good (r : parser (cmd word)) (s : list Z) : Prop :=
  match r with Ok (c, s') => suffix_of s' s ∧ cmd_all word_ok c | Panic _ => True | _ => False end.

Lemma good_suffix r s s' : suffix_of s' s → good r s' → good r s.
Proof. intros H. destruct r as [[c t]| | |]; simpl; try done. intros [? ?]. split; [by eapply suffix_trans|done]. Qed.

Lemma good_bind r s k : good r s → (∀ c s', suffix_of s' s → cmd_all word_ok c → good (k c s') s) → good (pbind r k) s.
Proof. destruct r as [[c t]| | |]; simpl; try done. intros [Hs Hc] H. by apply H. Qed.

Lemma token_word s q eq s' : suffix_of s line → gettoken s = (97, q, eq, s') → word_ok (word_of n q eq).
Proof.
  intros Hs E. pose proof (gettoken_spec s) as G. rewrite E in G. destruct G as (Hq & _ & _ & _ & G). destruct (G eq_refl) as (w & -> & Hw & F & St).
  destruct (suffix_trans _ _ _ Hq Hs) as [p Ep]. exists p, w, eq. split; [done|]. split; [|done]. unfold word_of. rewrite Ep, !length_app. f_equal; lia.
Qed.

(** A token is consumed. *)
Lemma gettoken_next s tok q eq s' : gettoken s = (tok, q, eq, s') → suffix_of s' s ∧ (tok ≠ 0 → (length s' < length s)%nat).
Proof.
  intros E. pose proof (gettoken_spec s) as G. rewrite E in G. destruct G as (H1 & H2 & H3 & H4 & _). split; [|done].
  eapply suffix_trans; [exact H3|]. by eapply suffix_trans.
Qed.

Lemma peek_next toks s b s' : peek toks s = (b, s') → suffix_of s' s ∧ (b = true → ∃ c t, s' = c :: t ∧ c ∈ toks).
Proof.
  intros [= <- <-]. split; [apply skip_space_suffix|]. intros H. destruct (skip_space s) as [|c t]; [done|]. apply bool_decide_eq_true in H. by exists c, t.
Qed.

(** After [peek] has seen a symbol, [gettoken] takes it. *)
Lemma peek_token toks s s' tok q eq s'' : peek toks s = (true, s') → gettoken s' = (tok, q, eq, s'') → 0 ∉ toks →
  suffix_of s'' s ∧ (length s'' < length s)%nat.
Proof.
  intros Hp Hg H0. destruct (peek_next _ _ _ _ Hp) as [H1 H2]. destruct (H2 eq_refl) as (c & t & E & Hc). destruct (gettoken_next _ _ _ _ _ Hg) as [H3 H4].
  split; [by eapply suffix_trans|]. pose proof (suffix_length _ _ H1). enough (length s'' < length s')%nat by lia. apply H4. intros ->.
  injection Hp as _ <-. unfold gettoken in Hg. rewrite skip_space_idem, E in Hg. destruct (strchr [124; 40; 41; 59; 38; 60] c); [injection Hg as -> _; done|].
  destruct (Z.eqb_spec c 62) as [->|]; [|done]. by destruct t as [|d t']; [|destruct (d =? 62)].
Qed.

Lemma parseredirs_good fuel c s : suffix_of s line → cmd_all word_ok c → (length s < fuel)%nat → good (parseredirs n fuel c s) s.
Proof.
  revert c s. induction fuel as [|fuel IH]; intros c s Hs Hc Hf; [lia|]. cbn [parseredirs]. destruct (peek [60; 62] s) as [more s1] eqn:Ep. destruct more.
  - destruct (gettoken s1) as [[[tok q] eq] s2] eqn:Eg. destruct (gettoken s2) as [[[a q'] eq'] s3] eqn:Eg'.
    destruct (peek_token _ _ _ _ _ _ _ Ep Eg) as [H1 H2]; [set_solver|]. destruct (gettoken_next _ _ _ _ _ Eg') as [H3 _].
    destruct (Z.eqb_spec a 97) as [->|]; [|exact I]. cbn [negb]. assert (suffix_of s3 s) as H4 by (by eapply suffix_trans).
    apply (good_suffix _ _ _ H4). pose proof (suffix_length _ _ H3).
    pose proof (token_word s2 q' eq' s3 (suffix_trans _ _ _ H1 Hs) Eg') as W.
    apply IH; [by eapply suffix_trans| |lia]. destruct (tok =? 60); [done|]. destruct (tok =? 62); [done|]. by destruct (tok =? 43).
  - destruct (peek_next _ _ _ _ Ep). done.
Qed.

Lemma set_argv_good argv c : Forall word_ok argv → cmd_all word_ok c → cmd_all word_ok (set_argv argv c).
Proof. intros Ha. induction c; simpl; intros; try done. destruct_and!. auto. Qed.

Lemma exec_args_good fuel ret argv s : suffix_of s line → cmd_all word_ok ret → Forall word_ok argv → (length s + 1 < fuel)%nat →
  good (exec_args n fuel ret argv s) s.
Proof.
  revert ret argv s. induction fuel as [|fuel IH]; intros ret argv s Hs Hr Ha Hf; [lia|]. cbn [exec_args]. destruct (peek [124; 41; 38; 59] s) as [stop s1] eqn:Ep.
  destruct (peek_next _ _ _ _ Ep) as [H1 _]. pose proof (suffix_length _ _ H1). destruct stop; [split; [done|by apply set_argv_good]|].
  destruct (gettoken s1) as [[[tok q] eq] s2] eqn:Eg. destruct (gettoken_next _ _ _ _ _ Eg) as [H2 H3]. assert (suffix_of s2 s) as H4 by (by eapply suffix_trans).
  destruct (Z.eqb_spec tok 0) as [|Ht]; [split; [done|by apply set_argv_good]|]. specialize (H3 Ht). destruct (Z.eqb_spec tok 97) as [->|]; [|exact I]. cbn [negb].
  destruct (MAXARGS <=? _)%nat; [exact I|]. apply (good_suffix _ _ _ H4). assert (suffix_of s2 line) as H5 by (by eapply suffix_trans).
  apply good_bind; [apply parseredirs_good; [done|done|lia]|]. intros ret' s3 H6 Hr'. apply (good_suffix _ _ _ H6). pose proof (suffix_length _ _ H6).
  apply IH; [by eapply suffix_trans|done| |lia]. apply Forall_app. split; [done|]. constructor; [|constructor]. apply (token_word s1 q eq s2); [by eapply suffix_trans|done].
Qed.

Lemma back_loop_good fuel c s : cmd_all word_ok c → (length s < fuel)%nat → good (back_loop fuel c s) s.
Proof.
  revert c s. induction fuel as [|fuel IH]; intros c s Hc Hf; [lia|]. cbn [back_loop]. destruct (peek [38] s) as [more s1] eqn:Ep. destruct more.
  - destruct (gettoken s1) as [[[tok q] eq] s2] eqn:Eg. destruct (peek_token _ _ _ _ _ _ _ Ep Eg) as [H1 H2]; [set_solver|].
    apply (good_suffix _ _ _ H1). apply IH; [done|lia].
  - destruct (peek_next _ _ _ _ Ep). done.
Qed.

Definition enough (nt : nonterminal) (k : nat) : nat := match nt with Line => 4 * k + 5 | Pipe => 4 * k + 4 | Exec => 4 * k + 3 | Block => 4 * k + 2 end.

Lemma parse_good fuel nt s : suffix_of s line → (enough nt (length s) <= fuel)%nat → good (parse n fuel nt s) s.
Proof.
  revert nt s. induction fuel as [|f IH]; intros nt s Hs Hf; [destruct nt; simpl in Hf; lia|]. destruct nt; cbn [parse enough] in *.
  - apply good_bind; [apply IH; [done|simpl; lia]|]. intros c s1 H1 Hc. pose proof (suffix_length _ _ H1).
    apply good_bind; [apply (good_suffix _ _ _ H1), back_loop_good; [done|lia]|]. intros c1 s2 H2 Hc1. pose proof (suffix_length _ _ H2).
    destruct (peek [59] s2) as [more s3] eqn:Ep. destruct (peek_next _ _ _ _ Ep) as [H3 _]. destruct more; [|split; [by eapply suffix_trans|done]].
    destruct (gettoken s3) as [[[tok q] eq] s4] eqn:Eg. destruct (peek_token _ _ _ _ _ _ _ Ep Eg) as [H4 H5]; [set_solver|].
    assert (suffix_of s4 s) as H6 by (by eapply suffix_trans). apply (good_suffix _ _ _ H6).
    apply good_bind; [apply IH; [by eapply suffix_trans|simpl; lia]|]. done.
  - apply good_bind; [apply IH; [done|simpl; lia]|]. intros c s1 H1 Hc. pose proof (suffix_length _ _ H1).
    destruct (peek [124] s1) as [more s3] eqn:Ep. destruct (peek_next _ _ _ _ Ep) as [H3 _]. destruct more; [|split; [by eapply suffix_trans|done]].
    destruct (gettoken s3) as [[[tok q] eq] s4] eqn:Eg. destruct (peek_token _ _ _ _ _ _ _ Ep Eg) as [H4 H5]; [set_solver|].
    assert (suffix_of s4 s) as H6 by (by eapply suffix_trans). apply (good_suffix _ _ _ H6).
    apply good_bind; [apply IH; [by eapply suffix_trans|simpl; lia]|]. done.
  - destruct (peek [40] s) as [block s1] eqn:Ep. destruct (peek_next _ _ _ _ Ep) as [H1 _]. pose proof (suffix_length _ _ H1).
    assert (suffix_of s1 line) as H2 by (by eapply suffix_trans). apply (good_suffix _ _ _ H1). destruct block; [apply IH; [done|simpl; lia]|].
    apply good_bind; [apply parseredirs_good; [done|constructor|lia]|]. intros ret s2 H3 Hr. pose proof (suffix_length _ _ H3).
    apply (good_suffix _ _ _ H3), exec_args_good; [by eapply suffix_trans|done|constructor|lia].
  - destruct (peek [40] s) as [open s1] eqn:Ep. destruct open; [|exact I]. cbn [negb].
    destruct (gettoken s1) as [[[tok q] eq] s2] eqn:Eg. destruct (peek_token _ _ _ _ _ _ _ Ep Eg) as [H1 H2]; [set_solver|].
    apply (good_suffix _ _ _ H1). assert (suffix_of s2 line) as H3 by (by eapply suffix_trans). apply good_bind; [apply IH; [done|simpl; lia]|]. intros c s3 H4 Hc.
    destruct (peek [41] s3) as [close s4] eqn:Ep'. destruct close; [|exact I]. cbn [negb]. destruct (gettoken s4) as [[[tok' q'] eq'] s5] eqn:Eg'.
    destruct (peek_token _ _ _ _ _ _ _ Ep' Eg') as [H5 H6]; [set_solver|]. assert (suffix_of s5 s2) as H7 by (by eapply suffix_trans). pose proof (suffix_length _ _ H4).
    apply (good_suffix _ _ _ H7), parseredirs_good; [by eapply suffix_trans|done|lia].
Qed.
End Line.

(** ** Cutting off the words *)

Fixpoint cmd_words {W} (c : cmd W) : list W :=
  match c with
  | EXEC argv => argv
  | REDIR c' f _ _ => cmd_words c' ++ [f]
  | PIPE l r => cmd_words l ++ cmd_words r
  | LIST l r => cmd_words l ++ cmd_words r
  | BACK c' => cmd_words c'
  end.

Lemma cmd_all_words {W} (P : W → Prop) c : cmd_all P c ↔ Forall P (cmd_words c).
Proof. induction c; simpl; rewrite ?Forall_app, ?Forall_singleton; tauto. Qed.

Lemma cmd_map_ext {V W} (f g : V → W) c : (∀ w, w ∈ cmd_words c → f w = g w) → cmd_map f c = cmd_map g c.
Proof.
  induction c as [argv|c IH w m d|l IHl r IHr|l IHl r IHr|c IH]; simpl; intros H.
  - f_equal. apply list_fmap_ext. intros i w Hw. apply H. by eapply list_elem_of_lookup_2.
  - rewrite IH, (H w) by set_solver. done.
  - rewrite IHl, IHr by set_solver. done.
  - rewrite IHl, IHr by set_solver. done.
  - rewrite IH by done. done.
Qed.

Definition cut (b : list Z) (w : word) : list Z := <[w.2 := 0]> b.

Lemma nulterminate_cut c b : nulterminate c b = foldl cut b (cmd_words c).
Proof.
  revert b. induction c as [argv|c IH w m d|l IHl r IHr|l IHl r IHr|c IH]; intros b; simpl; [done| | | |done].
  - by rewrite IH, foldl_app.
  - by rewrite IHl, IHr, foldl_app.
  - by rewrite IHl, IHr, foldl_app.
Qed.

Lemma foldl_cut ws b i : foldl cut b ws !! i = if decide (i ∈ snd <$> ws) then (λ _, 0) <$> b !! i else b !! i.
Proof.
  revert b. induction ws as [|w ws IH]; intros b; [done|]. cbn [foldl fmap list_fmap]. rewrite IH. unfold cut. rewrite list_lookup_insert.
  destruct (decide (w.2 = i)) as [<-|Hne].
  - rewrite (decide_True (P := w.2 ∈ w.2 :: _)) by (by left). destruct (decide (w.2 < length b)%nat) as [Hl|Hl].
    + rewrite (decide_True (P := _ ∧ _)) by done. destruct (lookup_lt_is_Some_2 b w.2 Hl) as [x ->]. by case_decide.
    + rewrite (decide_False (P := _ ∧ _)) by tauto. rewrite (proj2 (lookup_ge_None b w.2)) by lia. by case_decide.
  - rewrite (decide_False (P := _ ∧ _)) by tauto. destruct (decide (i ∈ ws.*2)) as [Hi|Hi].
    + rewrite decide_True by (by right). done.
    + rewrite decide_False; [done|]. by intros [->|?]%elem_of_cons.
Qed.

Lemma cstring_spec x b : (∀ k c, x !! k = Some c → b !! k = Some c ∧ c ≠ 0) → b !! length x = Some 0 → cstring b = x.
Proof.
  revert b. induction x as [|c x IH]; intros b Hx H0; simpl in H0.
  - destruct b as [|d b]; [done|]. simpl in H0. by injection H0 as ->.
  - destruct (Hx 0%nat c eq_refl) as [Hb Hc]. destruct b as [|d b]; [done|]. injection Hb as ->. simpl. rewrite (proj2 (Z.eqb_neq _ _)) by done.
    f_equal. apply IH; [|done]. intros k e Hk. exact (Hx (S k) e Hk).
Qed.

(** The word between the offsets. *)
Definition slice (line : list Z) (w : word) : list Z := take (w.2 - w.1) (drop w.1 line).

Section Cut.
Context (line : list Z) (ws : list word) (H0 : 0 ∉ line) (Hws : Forall (word_ok line) ws).

Lemma word_slice a x b w : line = a ++ x ++ b → w = (length a, (length a + length x)%nat) → slice line w = x.
Proof using. intros E Ew. unfold slice. rewrite Ew, E. simpl. rewrite drop_app_length. replace (length a + length x - length a)%nat with (length x) by lia. by rewrite take_app_length. Qed.

(** Where a word ends there is no character of a word. *)
Lemma end_no_word w i c : w ∈ ws → line !! i = Some c → is_word c = true → i ≠ w.2.
Proof using Hws.
  intros Hw Hi Hc ->. apply (proj1 (Forall_forall _ _) Hws) in Hw as (a & x & b & E & -> & _ & _ & Hb). simpl in Hi.
  rewrite E, app_assoc, lookup_app_r in Hi by (rewrite length_app; lia). rewrite length_app, Nat.sub_diag in Hi. destruct b as [|d b]; [done|].
  simpl in Hi. injection Hi as ->. congruence.
Qed.

Lemma string_word w : w ∈ ws → string_at (foldl cut (line ++ [0]) ws) w.1 = slice line w.
Proof using Hws H0.
  intros Hw. pose proof (proj1 (Forall_forall _ _) Hws w Hw) as (a & x & b & E & Ew & Hx & F & Hb). rewrite (word_slice a x b w E Ew). unfold string_at.
  apply cstring_spec.
  - intros k c Hk. rewrite Ew. simpl. rewrite lookup_drop. assert (line !! (length a + k)%nat = Some c) as Hl.
    { rewrite E, lookup_app_r by lia. replace (length a + k - length a)%nat with k by lia. rewrite lookup_app_l; [done|by eapply lookup_lt_Some]. }
    assert (is_word c = true) as Wc by (by eapply (Forall_lookup_1 _ _ _ _ F)). split.
    + rewrite foldl_cut, decide_False; [rewrite lookup_app_l; [done|by eapply lookup_lt_Some]|]. intros (w' & Ew' & Hw')%list_elem_of_fmap.
      by apply (end_no_word w' _ c Hw' Hl Wc).
    + intros ->. apply H0. by eapply list_elem_of_lookup_2.
  - rewrite lookup_drop, foldl_cut. assert ((w.1 + length x)%nat = w.2) as -> by (by rewrite Ew). rewrite decide_True by (apply list_elem_of_fmap; by exists w).
    assert (w.2 < length (line ++ [0%Z]))%nat as Hl by (rewrite Ew, E, !length_app; simpl; lia). by destruct (lookup_lt_is_Some_2 _ _ Hl) as [d ->].
Qed.
End Cut.

Lemma texts_words line c : 0 ∉ line → cmd_all (word_ok line) c → texts (nulterminate c (line ++ [0])) c = cmd_map (slice line) c.
Proof.
  intros H0 HW. apply cmd_all_words in HW. unfold texts. apply cmd_map_ext. intros w Hw. rewrite nulterminate_cut. by apply string_word.
Qed.
