(* ===== verification/ShPrint.v ===== *)
(** * Printing and parsing commands of the shell (user/sh.c)

    Every command can be written down so that the parser reads it back. *)

From S2P Require Import Prelude Sh ShSpec.

(** ** Printing *)

Definition print_word (w : list Z) : list Z := 32 :: w.
Definition print_mode (m : Z) : list Z := if m =? O_READ then [60] else if m =? O_CREATE_WRITE then [62; 62] else [62].

(** How tightly a command binds; [(] and [)] make it bind tightest. *)
Definition level {W} (c : cmd W) : nat := match c with LIST _ _ => 0 | BACK _ => 1 | PIPE _ _ => 2 | _ => 3 end.
Definition paren {W} (k : nat) (c : cmd W) (t : list Z) : list Z := if (k <=? level c)%nat then t else 40 :: t ++ [41].

Fixpoint print (c : cmd (list Z)) : list Z :=
  match c with
  | EXEC ws => concat (print_word <$> ws)
  | REDIR c' f m _ => paren 3 c' (print c') ++ print_mode m ++ print_word f
  | PIPE l r => paren 3 l (print l) ++ 124 :: paren 2 r (print r)
  | BACK c' => paren 1 c' (print c') ++ [38]
  | LIST l r => paren 1 l (print l) ++ 59 :: print r
  end.

(** Commands that can be typed: words of word characters, at most nine of them to a
    command, and the three kinds of redirections. *)
Definition valid_word (w : list Z) : Prop := w ≠ [] ∧ Forall (λ c, is_word c = true ∧ c ≠ 0) w.
Definition valid_redir (m d : Z) : Prop := (m, d) ∈ [(O_READ, 0); (O_CREATE_TRUNC_WRITE, 1); (O_CREATE_WRITE, 1)].
Fixpoint valid (c : cmd (list Z)) : Prop :=
  match c with
  | EXEC ws => Forall valid_word ws ∧ (length ws < MAXARGS)%nat
  | REDIR c' f m d => valid c' ∧ valid_word f ∧ valid_redir m d
  | PIPE l r => valid l ∧ valid r
  | LIST l r => valid l ∧ valid r
  | BACK c' => valid c'
  end.

(** Redirections around a command, the innermost first. *)
Abbreviation redir W := (W * Z * Z)%type.
Definition wrap_redir {W} (c : cmd W) (r : redir W) : cmd W := REDIR c r.1.1 r.1.2 r.2.
Definition wrap_redirs {W} (rs : list (redir W)) (c : cmd W) : cmd W := foldl wrap_redir c rs.
Definition print_redir (r : redir (list Z)) : list Z := print_mode r.1.2 ++ print_word r.1.1.
Definition print_redirs (rs : list (redir (list Z))) : list Z := concat (print_redir <$> rs).
Definition redirs_valid (rs : list (redir (list Z))) : Prop := Forall (λ r, valid_word r.1.1 ∧ valid_redir r.1.2 r.2) rs.

(** ** Tokens of a printed command *)

Definition stops (s : list Z) : Prop := match s with c :: _ => is_word c = false | [] => True end.
(** The text that follows is blank or goes on with one of [l]. *)
Definition delim (l : list Z) (s : list Z) : Prop := match skip_space s with c :: _ => c ∈ l | [] => True end.

Lemma skip_space_solid c s : strchr whitespace c = false → skip_space (c :: s) = c :: s.
Proof. intros E. simpl. by rewrite E. Qed.

Lemma word_solid c : is_word c = true → strchr whitespace c = false ∧ strchr symbols c = false.
Proof. unfold is_word. destruct (strchr whitespace c), (strchr symbols c); done. Qed.

Lemma skip_word_app w s : Forall (λ c, is_word c = true ∧ c ≠ 0) w → stops s → skip_word (w ++ s) = s.
Proof.
  induction w as [|c w IH]; intros F St; simpl.
  - destruct s as [|c s]; [done|]. simpl. fold (is_word c). by rewrite St.
  - apply Forall_cons in F as [[Wc _] F]. fold (is_word c). rewrite Wc. by apply IH.
Qed.

(** [peek] and [gettoken] do not see leading white space. *)
Lemma peek_skip toks s : peek toks s = peek toks (skip_space s).
Proof. unfold peek. by rewrite skip_space_idem. Qed.
Lemma gettoken_skip s : gettoken s = gettoken (skip_space s).
Proof. unfold gettoken. by rewrite skip_space_idem. Qed.

Lemma gettoken_word s w t : skip_space s = w ++ t → valid_word w → stops t → gettoken s = (97, w ++ t, t, skip_space t).
Proof.
  intros E [Hw F] St. unfold gettoken. rewrite E. destruct w as [|c w]; [done|]. pose proof F as [[Wc _] _]%Forall_cons. destruct (word_solid c Wc) as [_ Hs].
  unfold strchr in Hs. apply bool_decide_eq_false in Hs. unfold symbols in Hs. cbn [app].
  assert (strchr [124; 40; 41; 59; 38; 60] c = false) as -> by (apply bool_decide_eq_false; set_solver).
  rewrite (proj2 (Z.eqb_neq _ _)) by set_solver. change (c :: w ++ t) with ((c :: w) ++ t). by rewrite (skip_word_app (c :: w)).
Qed.

Lemma gettoken_symbol s c t : skip_space s = c :: t → c ∈ [124; 40; 41; 59; 38; 60] → gettoken s = (c, c :: t, t, skip_space t).
Proof. intros E Hc. unfold gettoken. rewrite E. unfold strchr. by rewrite bool_decide_eq_true_2. Qed.

Lemma peek_head toks s c t : skip_space s = c :: t → peek toks s = (strchr toks c, c :: t).
Proof. intros E. unfold peek. by rewrite E. Qed.
Lemma peek_nil toks s : skip_space s = [] → peek toks s = (false, []).
Proof. intros E. unfold peek. by rewrite E. Qed.

(** What follows is none of [toks]. *)
Lemma peek_delim toks l s t : skip_space s = skip_space t → delim l t → (∀ c, c ∈ l → c ∉ toks) → peek toks s = (false, skip_space t).
Proof.
  unfold delim. intros E D H. destruct (skip_space t) as [|c t']; [by apply peek_nil|]. rewrite (peek_head toks s c t' E). unfold strchr. by rewrite bool_decide_eq_false_2 by (apply H, D).
Qed.

Lemma delim_symbol l c t : strchr whitespace c = false → c ∈ l → delim l (c :: t).
Proof. intros E H. unfold delim. by rewrite skip_space_solid. Qed.

Lemma delim_stops l s : delim l s → (∀ c, c ∈ l → c ∈ symbols) → stops s.
Proof.
  unfold delim. intros D H. destruct s as [|c s]; [done|]. unfold stops, is_word. simpl in D. destruct (strchr whitespace c) eqn:E; [done|].
  simpl. unfold strchr. by rewrite bool_decide_eq_true_2 by (by apply H).
Qed.

(** ** Reading back *)

Abbreviation ends_exec := [124; 41; 38; 59].
Abbreviation ends_pipe := [41; 38; 59].
Abbreviation ends_back := [41; 59].
Abbreviation ends_line := [41].

Section Read.
Variable line : list Z.
Abbreviation n := (length line).
Abbreviation seen := (cmd_map (slice line)).

Lemma slice_word w t : suffix_of (w ++ t) line → slice line (word_of n (w ++ t) t) = w.
Proof.
  intros [p E]. apply (word_slice line p w t); [done|]. unfold word_of. rewrite E, !length_app. f_equal; lia.
Qed.

(** Redirections do not depend on white space before them. *)
Lemma parseredirs_skip fuel c s : parseredirs n fuel c s = parseredirs n fuel c (skip_space s).
Proof. destruct fuel; [done|]. cbn [parseredirs]. by rewrite (peek_skip _ s). Qed.

Lemma mode_head m d t : valid_redir m d → ∃ c t', print_mode m ++ t = c :: t' ∧ c ∈ [60; 62].
Proof. unfold valid_redir. rewrite !elem_of_cons, elem_of_nil. intros [[= -> ->]|[[= -> ->]|[[= -> ->]|[]]]]; eexists _, _; split; try done; set_solver. Qed.

Lemma redirs_stop rs t : redirs_valid rs → stops t → stops (print_redirs rs ++ t).
Proof.
  intros F St. destruct rs as [|[[f m] d] rs]; [done|]. apply Forall_cons in F as [[_ V] _]. simpl in V. unfold print_redirs, print_redir. cbn [fmap list_fmap concat].
  destruct (mode_head m d (print_word f) V) as (c & t' & E & Hc). simpl in E |- *. rewrite E. simpl. rewrite !elem_of_cons, elem_of_nil in Hc. naive_solver.
Qed.

Lemma word_starts f t : valid_word f → skip_space (f ++ t) = f ++ t ∧ skip_space (32 :: f ++ t) = f ++ t.
Proof.
  intros [Hf F]. destruct f as [|c f]; [done|]. apply Forall_cons in F as [[Wc _] _]. destruct (word_solid c Wc) as [Hw _].
  assert (skip_space ((c :: f) ++ t) = (c :: f) ++ t) as E by (by apply skip_space_solid). split; [done|]. simpl. by rewrite Hw.
Qed.

Definition redir_of (tok : Z) (c : cmd word) (w : word) : cmd word :=
  if tok =? 60 then redircmd c w O_READ 0
  else if tok =? 62 then redircmd c w O_CREATE_TRUNC_WRITE 1
  else if tok =? 43 then redircmd c w O_CREATE_WRITE 1
  else c.

(** The token of a redirection, and what [parseredirs] makes of it. *)
Lemma mode_token s m d f t : skip_space s = print_mode m ++ print_word f ++ t → valid_redir m d → valid_word f →
  ∃ tok q e, peek [60; 62] s = (true, skip_space s) ∧ gettoken (skip_space s) = (tok, q, e, f ++ t) ∧ ∀ c w, redir_of tok c w = REDIR c w m d.
Proof.
  intros E V Vf. destruct (word_starts f t Vf) as [_ E2]. unfold valid_redir in V. rewrite !elem_of_cons, elem_of_nil in V.
  assert (∀ c t', skip_space s = c :: t' → c ∈ [60; 62] → peek [60; 62] s = (true, skip_space s)) as HP.
  { intros c t' Ec Hc. rewrite (peek_head _ _ _ _ Ec), Ec. unfold strchr. by rewrite bool_decide_eq_true_2. }
  destruct V as [[= -> ->]|[[= -> ->]|[[= -> ->]|[]]]].
  - change (print_mode O_READ) with [60] in E. cbn [app print_word] in E. eexists 60, _, _. split; [eapply HP; [exact E|set_solver]|]. split; [|done]. rewrite <- gettoken_skip, (gettoken_symbol s 60 _ E) by set_solver. by rewrite E2.
  - change (print_mode O_CREATE_TRUNC_WRITE) with [62] in E. cbn [app print_word] in E. eexists 62, _, _. split; [eapply HP; [exact E|set_solver]|]. split; [|done]. rewrite <- gettoken_skip. unfold gettoken. rewrite E.
    replace (strchr [124; 40; 41; 59; 38; 60] 62) with false by done. cbn [Z.eqb Pos.eqb]. by rewrite E2.
  - change (print_mode O_CREATE_WRITE) with [62; 62] in E. cbn [app print_word] in E. eexists 43, _, _. split; [eapply HP; [exact E|set_solver]|]. split; [|done]. rewrite <- gettoken_skip. unfold gettoken. rewrite E.
    replace (strchr [124; 40; 41; 59; 38; 60] 62) with false by done. cbn [Z.eqb Pos.eqb]. by rewrite E2.
Qed.

Lemma seen_redirs rs' c : seen (wrap_redirs rs' c) = wrap_redirs ((λ r, (slice line r.1.1, r.1.2, r.2)) <$> rs') (seen c).
Proof. revert c. induction rs' as [|r rs' IH]; intros c; [done|]. apply (IH (wrap_redir c r)). Qed.

Lemma redirs_read rs fuel c s rest : suffix_of s line → skip_space s = skip_space (print_redirs rs ++ rest) → redirs_valid rs → delim ends_exec rest →
  (length rs < fuel)%nat →
  ∃ rs', parseredirs n fuel c s = Ok (wrap_redirs rs' c, skip_space rest) ∧ (λ r, (slice line r.1.1, r.1.2, r.2)) <$> rs' = rs ∧ suffix_of (skip_space rest) s.
Proof.
  intros Hs E V D. pose proof (delim_stops _ _ D ltac:(set_solver)) as St. revert fuel c s Hs E V.
  induction rs as [|[[f m] d] rs IH]; intros fuel c s Hs E V Hf; (destruct fuel as [|fuel]; [simpl in Hf; lia|]); cbn [parseredirs].
  - simpl in E. rewrite (peek_delim [60; 62] ends_exec s rest E D) by set_solver.
    exists []. split; [done|]. split; [done|]. rewrite <- E. apply skip_space_suffix.
  - apply Forall_cons in V as [[Vf Vm] V]. simpl in Vf, Vm. set (t := print_redirs rs ++ rest). assert (stops t) as Stt by (by apply redirs_stop).
    assert (skip_space s = print_mode m ++ print_word f ++ t) as Es.
    { rewrite E. unfold print_redirs. cbn [fmap list_fmap concat]. fold (print_redirs rs). unfold print_redir at 1. simpl fst. simpl snd. rewrite <- !app_assoc. fold t.
      destruct (mode_head m d (print_word f ++ t) Vm) as (a & t' & -> & Ha). apply skip_space_solid. rewrite !elem_of_cons, elem_of_nil in Ha. naive_solver. }
    destruct (mode_token s m d f t Es Vm Vf) as (tok & q & e & -> & Eg & Hr). rewrite Eg. destruct (word_starts f t Vf) as [Ef _].
    rewrite (gettoken_word (f ++ t) f t Ef Vf Stt). cbn [Z.eqb negb Pos.eqb]. fold (redir_of tok c (word_of n (f ++ t) t)). rewrite Hr.
    assert (suffix_of (f ++ t) s) as Hft.
    { destruct (gettoken_next _ _ _ _ _ Eg) as [H1 _]. eapply suffix_trans; [exact H1|]. apply skip_space_suffix. }
    assert (suffix_of (skip_space t) s) as Hst by (eapply suffix_trans; [apply skip_space_suffix|]; eapply suffix_trans; [|exact Hft]; by exists f).
    destruct (IH fuel (REDIR c (word_of n (f ++ t) t) m d) (skip_space t)) as (rs' & Ep & Er' & Hsuf); [by eapply suffix_trans|by rewrite skip_space_idem|done|simpl in Hf; lia|].
    exists ((word_of n (f ++ t) t, m, d) :: rs'). split; [done|]. split; [|by eapply suffix_trans]. cbn [fmap list_fmap]. simpl fst. simpl snd.
    rewrite slice_word by (by eapply suffix_trans). by rewrite <- Er'.
Qed.

(** No redirection before a word. *)
Lemma redirs_none fuel c s w t : skip_space s = w ++ t → valid_word w → parseredirs n (S fuel) c s = Ok (c, w ++ t).
Proof.
  intros E [Hw F]. cbn [parseredirs]. destruct w as [|a w]; [done|]. apply Forall_cons in F as [[Wa _] _]. destruct (word_solid a Wa) as [_ Hs].
  rewrite (peek_head _ s a (w ++ t) E). unfold strchr in *. apply bool_decide_eq_false in Hs. unfold symbols in Hs. by rewrite bool_decide_eq_false_2 by set_solver.
Qed.

Lemma set_argv_redirs argv rs c : set_argv argv (wrap_redirs rs c) = wrap_redirs rs (set_argv argv c).
Proof. revert c. induction rs as [|r rs IH]; intros c; [done|]. apply (IH (wrap_redir c r)). Qed.

(** The end of a simple command. *)
Lemma exec_stop fuel ret argv s rest : skip_space s = skip_space rest → delim ends_exec rest →
  exec_args n (S fuel) ret argv s = Ok (set_argv argv ret, skip_space rest).
Proof.
  unfold delim. intros E D. cbn [exec_args]. destruct (skip_space rest) as [|c t].
  - by rewrite (peek_nil _ _ E).
  - rewrite (peek_head _ _ _ _ E). unfold strchr. by rewrite bool_decide_eq_true_2.
Qed.

Lemma words_head ws : Forall valid_word ws → stops (concat (print_word <$> ws)).
Proof. destruct ws as [|w ws]; done. Qed.

Lemma words_stop ws rs rest : redirs_valid rs → stops rest → stops (concat (print_word <$> ws) ++ print_redirs rs ++ rest).
Proof. intros V St. destruct ws as [|w ws]; [by apply redirs_stop|done]. Qed.

(** A word of a simple command is taken. *)
Lemma exec_step fuel ret argv s w t : suffix_of s line → skip_space s = w ++ t → valid_word w → stops t → (length argv + 1 < MAXARGS)%nat →
  exec_args n (S fuel) ret argv s =
  pbind (parseredirs n fuel ret (skip_space t)) (λ ret s, exec_args n fuel ret (argv ++ [word_of n (w ++ t) t]) s).
Proof.
  intros Hs E V St Hl. cbn [exec_args]. pose proof V as [Hw F]. destruct w as [|a w]; [done|]. apply Forall_cons in F as [[Wa _] _]. destruct (word_solid a Wa) as [_ Hsy].
  rewrite (peek_head _ s a (w ++ t) E). unfold strchr in *. apply bool_decide_eq_false in Hsy. unfold symbols in Hsy. rewrite bool_decide_eq_false_2 by set_solver.
  cbv beta iota. change (a :: w ++ t) with ((a :: w) ++ t). destruct (word_starts (a :: w) t V) as [Es _].
  rewrite (gettoken_word _ (a :: w) t Es V St). cbn [Z.eqb Pos.eqb negb]. rewrite (proj2 (Nat.leb_gt _ _)); [done|]. rewrite length_app. simpl. lia.
Qed.

Lemma exec_words ws fuel argv s rs rest : ws ≠ [] → suffix_of s line → skip_space s = skip_space (concat (print_word <$> ws) ++ print_redirs rs ++ rest) →
  Forall valid_word ws → redirs_valid rs → delim ends_exec rest → (length argv + length ws < MAXARGS)%nat → (length ws + length rs + 2 <= fuel)%nat →
  ∃ ws' rs', exec_args n fuel (EXEC []) argv s = Ok (wrap_redirs rs' (EXEC (argv ++ ws')), skip_space rest) ∧ slice line <$> ws' = ws ∧
    (λ r, (slice line r.1.1, r.1.2, r.2)) <$> rs' = rs.
Proof.
  intros Hne Hs E V Vr D. pose proof (delim_stops _ _ D ltac:(set_solver)) as St. revert fuel argv s Hne Hs E V.
  induction ws as [|w ws IH]; intros fuel argv s Hne Hs E V Hl Hf; [done|]. destruct fuel as [|fuel]; [simpl in Hf; lia|]. apply Forall_cons in V as [Vw V].
  set (t := concat (print_word <$> ws) ++ print_redirs rs ++ rest). assert (skip_space s = w ++ t) as Es.
  { rewrite E. cbn [fmap list_fmap concat]. rewrite <- app_assoc. fold t. by apply word_starts. }
  assert (stops t) as Stt by (by apply words_stop). assert (suffix_of (w ++ t) line) as Hwt by (rewrite <- Es; eapply suffix_trans; [apply skip_space_suffix|done]).
  assert (suffix_of (skip_space t) line) as Ht by (eapply suffix_trans; [apply skip_space_suffix|]; eapply suffix_trans; [|exact Hwt]; by exists w).
  rewrite (exec_step fuel (EXEC []) argv s w t) by (done || (simpl in Hl; lia)). simpl in Hl, Hf. destruct ws as [|w2 ws].
  - destruct (redirs_read rs fuel (EXEC []) (skip_space t) rest) as (rs' & -> & Er' & _); [done|by rewrite skip_space_idem|done|done|lia|]. simpl pbind.
    destruct fuel as [|fuel]; [lia|]. rewrite (exec_stop fuel _ _ (skip_space rest) rest (skip_space_idem _) D), set_argv_redirs. exists [word_of n (w ++ t) t], rs'. split; [done|]. split; [|done].
    cbn [fmap list_fmap]. by rewrite slice_word.
  - pose proof V as [Vw2 V2]%Forall_cons. destruct fuel as [|fuel]; [lia|]. set (t2 := concat (print_word <$> ws) ++ print_redirs rs ++ rest).
    assert (skip_space t = w2 ++ t2) as Et. { unfold t. cbn [fmap list_fmap concat]. rewrite <- app_assoc. fold t2. by apply word_starts. }
    rewrite (redirs_none fuel (EXEC []) (skip_space t) w2 t2) by (done || by rewrite skip_space_idem). cbn [pbind]. rewrite <- Et.
    destruct (IH (S fuel) (argv ++ [word_of n (w ++ t) t]) (skip_space t)) as (ws' & rs' & Ep & Ew & Er'); [done|done|by rewrite skip_space_idem|done|rewrite length_app; simpl in *; lia|simpl in *; lia|].
    exists (word_of n (w ++ t) t :: ws'), rs'. rewrite Ep. split; [by rewrite <- app_assoc|]. split; [|done]. cbn [fmap list_fmap]. by rewrite slice_word, Ew.
Qed.

(** ** The four levels *)

(** The parser for [nt], started at [s], reads [c] and stops at [rest], after the
    blanks there. *)
Definition reads (nt : nonterminal) (f : nat) (s : list Z) (c : cmd (list Z)) (rest : list Z) : Prop :=
  ∃ c', parse n f nt s = Ok (c', skip_space rest) ∧ seen c' = c.

Definition starts (s t : list Z) : Prop := suffix_of s line ∧ skip_space s = skip_space t.

Definition at_exec (c : cmd (list Z)) : Prop := ∀ rs rest s f, starts s (paren 3 c (print c) ++ print_redirs rs ++ rest) → redirs_valid rs →
  delim ends_exec rest → (enough Exec (length s) <= f)%nat → reads Exec f s (wrap_redirs rs c) rest.
Definition at_pipe (c : cmd (list Z)) : Prop := ∀ rest s f, starts s (paren 2 c (print c) ++ rest) → delim ends_pipe rest →
  (enough Pipe (length s) <= f)%nat → reads Pipe f s c rest.
(** With [k] more [&] to come. *)
Definition at_back (c : cmd (list Z)) : Prop := ∀ k rest s f, starts s (paren 1 c (print c) ++ replicate k 38 ++ rest) → delim ends_back rest →
  (enough Pipe (length s) <= f)%nat →
  ∃ c', pbind (parse n f Pipe s) (back_loop f) = Ok (c', skip_space rest) ∧ seen c' = Nat.iter k BACK c.
Definition at_line (c : cmd (list Z)) : Prop := ∀ rest s f, starts s (print c ++ rest) → delim ends_line rest →
  (enough Line (length s) <= f)%nat → reads Line f s c rest.

Lemma words_length ws rs rest : Forall valid_word ws → redirs_valid rs →
  (length ws + length rs <= length (skip_space (concat (print_word <$> ws) ++ print_redirs rs ++ rest)))%nat.
Proof.
  intros V Vr. assert (∀ t, length rs <= length (print_redirs rs ++ t))%nat as HR.
  { intros t. clear V. induction rs as [|[[f m] d] rs IH]; [simpl; lia|]. apply Forall_cons in Vr as [_ Vr]. unfold print_redirs, print_redir in *. cbn [fmap list_fmap concat].
    rewrite <- !app_assoc, !length_app. simpl. specialize (IH Vr). rewrite length_app in IH. lia. }
  assert (∀ us t, Forall valid_word us → length us + length t <= length (concat (print_word <$> us) ++ t))%nat as HW.
  { intros us t F. induction us as [|u us IH]; [done|]. apply Forall_cons in F as [_ F]. specialize (IH F). cbn [fmap list_fmap concat]. rewrite <- app_assoc, length_app. simpl. lia. }
  destruct ws as [|w ws].
  - simpl. destruct rs as [|[[f m] d] rs]; [simpl; lia|]. pose proof Vr as [[_ Vm] _]%Forall_cons. unfold print_redirs. cbn [fmap list_fmap concat]. unfold print_redir at 1.
    simpl fst. simpl snd. simpl in Vm. fold (print_redirs rs). specialize (HR rest). unfold print_redirs in HR. cbn [fmap list_fmap concat] in HR. unfold print_redir at 1 in HR. simpl fst in HR. simpl snd in HR. fold (print_redirs rs) in HR.
    rewrite <- !app_assoc in *. destruct (mode_head m d (print_word f ++ print_redirs rs ++ rest) Vm) as (a & t' & E & Ha). rewrite E in *.
    rewrite skip_space_solid; [done|]. rewrite !elem_of_cons, elem_of_nil in Ha. naive_solver.
  - pose proof V as [Vw V']%Forall_cons. cbn [fmap list_fmap concat]. rewrite <- app_assoc. unfold print_word at 1. cbn [app].
    rewrite (proj2 (word_starts w _ Vw)), length_app. specialize (HW ws (print_redirs rs ++ rest) V'). specialize (HR rest). destruct Vw as [Hw _]. destruct w; [done|]. simpl. lia.
Qed.

Lemma exec_head ws rs rest : Forall valid_word ws → redirs_valid rs → delim ends_exec rest →
  match skip_space (concat (print_word <$> ws) ++ print_redirs rs ++ rest) with c :: _ => c ≠ 40 | [] => True end.
Proof.
  intros V Vr D. destruct ws as [|w ws].
  - simpl. destruct rs as [|[[f m] d] rs].
    + simpl. unfold delim in D. destruct (skip_space rest) as [|c t]; [done|]. set_solver.
    + apply Forall_cons in Vr as [[_ Vm] _]. simpl in Vm. unfold print_redirs. cbn [fmap list_fmap concat]. unfold print_redir at 1. simpl fst. simpl snd. rewrite <- !app_assoc.
      match goal with |- context [print_mode m ++ ?t] => destruct (mode_head m d t Vm) as (a & t' & -> & Ha) end.
      rewrite skip_space_solid; rewrite !elem_of_cons, elem_of_nil in Ha; naive_solver.
  - apply Forall_cons in V as [Vw V]. cbn [fmap list_fmap concat]. rewrite <- app_assoc. unfold print_word at 1. cbn [app]. rewrite (proj2 (word_starts w _ Vw)).
    destruct Vw as [Hw F]. destruct w as [|a w]; [done|]. apply Forall_cons in F as [[Wa _] _]. simpl. intros ->. by vm_compute in Wa.
Qed.

Lemma peek_open s t : skip_space s = t → match t with c :: _ => c ≠ 40 | [] => True end → peek [40] s = (false, t).
Proof.
  intros E H. destruct t as [|c t]; [by apply peek_nil|]. rewrite (peek_head _ _ _ _ E). unfold strchr. by rewrite bool_decide_eq_false_2 by set_solver.
Qed.

Lemma exec_at_exec ws : valid (EXEC ws) → at_exec (EXEC ws).
Proof.
  intros [V Hl] rs rest s f [Hs E] Vr D Hf. destruct f as [|f]; [simpl in Hf; lia|]. simpl in Hf. cbn [parse]. unfold reads. cbn [parse]. change execcmd with (EXEC (W := word) []). change (paren 3 (EXEC ws) (print (EXEC ws))) with (concat (print_word <$> ws)) in E.
  pose proof (words_length ws rs rest V Vr) as HL. rewrite <- E in HL. pose proof (skip_space_length s).
  pose proof (exec_head ws rs rest V Vr D) as HO. rewrite <- E in HO. rewrite (peek_open s _ eq_refl HO).
  assert (suffix_of (skip_space s) line) as Hs' by (eapply suffix_trans; [apply skip_space_suffix|done]). destruct ws as [|w ws].
  - destruct (redirs_read rs f (EXEC []) (skip_space s) rest) as (rs' & -> & Er & _); [done|by rewrite skip_space_idem|done|done|simpl in *; lia|]. cbn [pbind].
    destruct f as [|f]; [lia|]. rewrite (exec_stop f _ [] (skip_space rest) rest (skip_space_idem _) D), set_argv_redirs.
    eexists. split; [done|]. rewrite seen_redirs. by rewrite Er.
  - pose proof V as [Vw V']%Forall_cons. destruct f as [|f]; [lia|]. set (t := concat (print_word <$> ws) ++ print_redirs rs ++ rest) in *.
    assert (skip_space s = w ++ t) as Es. { rewrite E. cbn [fmap list_fmap concat]. rewrite <- app_assoc. by apply word_starts. }
    rewrite (redirs_none f (EXEC []) (skip_space s) w t) by (done || by rewrite skip_space_idem). cbn [pbind]. rewrite <- Es.
    destruct (exec_words (w :: ws) (S f) [] (skip_space s) rs rest) as (ws' & rs' & -> & Ew & Er); [done|done|by rewrite skip_space_idem|done|done|done|done|simpl in *; lia|].
    eexists. split; [done|]. rewrite seen_redirs, Er. simpl. by rewrite Ew.
Qed.

Lemma redir_at_exec c f m d : valid (REDIR c f m d) → at_exec c → at_exec (REDIR c f m d).
Proof.
  intros (_ & Vf & Vm) IH rs rest s fu [Hs E] Vr D Hf. apply (IH ((f, m, d) :: rs)); [|by constructor|done|done]. split; [done|]. rewrite E. f_equal.
  unfold paren at 1. simpl. rewrite <- !app_assoc. f_equal. unfold print_redirs. cbn [fmap list_fmap concat]. unfold print_redir at 2. simpl. by rewrite <- !app_assoc.
Qed.

(** The next token is the symbol [c]. *)
Lemma symbol_next toks s c t : skip_space s = c :: t → c ∈ toks → c ∈ [124; 40; 41; 59; 38; 60] →
  peek toks s = (true, c :: t) ∧ gettoken (c :: t) = (c, c :: t, t, skip_space t) ∧ suffix_of (skip_space t) s ∧ (length (skip_space t) < length s)%nat.
Proof.
  intros E Ht Hc. rewrite (peek_head _ _ _ _ E). unfold strchr. rewrite bool_decide_eq_true_2 by done. split; [done|].
  assert (skip_space (c :: t) = c :: t) as Es by (rewrite <- E; apply skip_space_idem). split; [by apply gettoken_symbol|].
  destruct (skip_space_suffix s) as [p Ep]. destruct (skip_space_suffix t) as [q Eq]. split.
  - exists (p ++ c :: q). rewrite Ep, E. rewrite Eq at 1. by rewrite <- app_assoc.
  - pose proof (skip_space_length s). pose proof (skip_space_length t). rewrite E in *. simpl in *. lia.
Qed.

Lemma block_at_exec c : (level c < 3)%nat → at_line c → at_exec c.
Proof.
  intros Hl IH rs rest s f [Hs E] Vr D Hf. unfold paren in E. rewrite (proj2 (Nat.leb_gt _ _)) in E by done. cbn [app] in E. rewrite <- app_assoc in E. cbn [app] in E.
  set (r1 := print_redirs rs ++ rest) in *. rewrite (skip_space_solid 40) in E by done.
  destruct f as [|[|f]]; [simpl in Hf; lia..|]. simpl in Hf. unfold reads. cbn [parse].
  destruct (symbol_next [40] s 40 _ E) as (Ep & Eg & Hsuf & Hlen); [set_solver..|]. rewrite Ep. cbn iota.
  destruct (symbol_next [40] (40 :: print c ++ 41 :: r1) 40 (print c ++ 41 :: r1)) as (Ep' & _); [done|set_solver..|]. rewrite Ep'. cbn [negb]. rewrite Eg.
  assert (suffix_of (skip_space (print c ++ 41 :: r1)) line) as Hs2 by (by eapply suffix_trans).
  destruct (IH (41 :: r1) (skip_space (print c ++ 41 :: r1)) f) as (c' & Er & Ec); [split; [done|by rewrite skip_space_idem]|by apply delim_symbol; [|set_solver]|simpl; lia|]. rewrite (skip_space_solid 41) in Er by done. rewrite Er. cbn [pbind].
  destruct (symbol_next [41] (41 :: r1) 41 r1) as (-> & -> & Hsuf2 & _); [done|set_solver..|]. cbn [negb].
  pose proof (parse_good line f Line (skip_space (print c ++ 41 :: r1)) Hs2 ltac:(simpl; lia)) as Hg. rewrite Er in Hg. destruct Hg as [Hg _].
  assert (suffix_of (skip_space r1) line) as Hs3 by (eapply suffix_trans; [exact Hsuf2|]; by eapply suffix_trans).
  assert (length rs < f)%nat as Hrs.
  { pose proof (words_length [] rs rest ltac:(constructor) Vr) as HL. simpl in HL. fold r1 in HL. pose proof (suffix_length _ _ Hsuf2). pose proof (suffix_length _ _ Hg). lia. }
  destruct (redirs_read rs f c' (skip_space r1) rest) as (rs' & -> & Er' & _); [done|by rewrite skip_space_idem|done|done|done|].
  eexists. split; [done|]. by rewrite seen_redirs, Er', Ec.
Qed.

Lemma delim_weaken l l' s : delim l s → (∀ c, c ∈ l → c ∈ l') → delim l' s.
Proof. unfold delim. destruct (skip_space s); auto. Qed.

Lemma exec_at_pipe c : (level c ≠ 2)%nat → at_exec c → at_pipe c.
Proof.
  intros Hl IH rest s f [Hs E] D Hf. destruct f as [|f]; [simpl in Hf; lia|]. simpl in Hf. unfold reads. cbn [parse].
  assert (paren 2 c (print c) = paren 3 c (print c)) as Ep by (destruct c; simpl in *; done). rewrite Ep in E.
  destruct (IH [] rest s f) as (c' & -> & Ec); [done|constructor|eapply delim_weaken; [exact D|set_solver]|simpl; lia|]. cbn [pbind].
  rewrite (peek_delim [124] ends_pipe (skip_space rest) rest (skip_space_idem _) D) by set_solver. by exists c'.
Qed.

Lemma pipe_at_pipe l r : at_exec l → at_pipe r → at_pipe (PIPE l r).
Proof.
  intros IHl IHr rest s f [Hs E] D Hf. destruct f as [|f]; [simpl in Hf; lia|]. simpl in Hf. unfold reads. cbn [parse].
  unfold paren at 1 in E. simpl in E. rewrite <- app_assoc in E. cbn [app] in E. set (r1 := paren 2 r (print r) ++ rest) in *.
  destruct (IHl [] (124 :: r1) s f) as (c1 & Er & Ec1); [done|constructor|by apply delim_symbol; [|set_solver]|simpl; lia|]. rewrite (skip_space_solid 124) in Er by done. rewrite Er. cbn [pbind].
  destruct (symbol_next [124] (124 :: r1) 124 r1) as (-> & -> & Hsuf & Hlen); [done|set_solver..|].
  pose proof (parse_good line f Exec s Hs ltac:(simpl; lia)) as Hg. rewrite Er in Hg. destruct Hg as [Hg _]. pose proof (suffix_length _ _ Hg).
  assert (suffix_of (skip_space r1) line) as Hs2 by (eapply suffix_trans; [exact Hsuf|]; by eapply suffix_trans).
  destruct (IHr rest (skip_space r1) f) as (c2 & -> & Ec2); [split; [done|by rewrite skip_space_idem]|done|simpl in *; lia|]. cbn [pbind].
  eexists. split; [done|]. simpl. by rewrite Ec1, Ec2.
Qed.

Lemma back_read k fuel c rest : delim ends_back rest → (k < fuel)%nat → back_loop fuel c (skip_space (replicate k 38 ++ rest)) = Ok (Nat.iter k BACK c, skip_space rest).
Proof.
  intros D. revert fuel c. induction k as [|k IH]; intros fuel c Hf; (destruct fuel as [|fuel]; [lia|]); cbn [back_loop].
  - cbn [replicate app]. by rewrite (peek_delim [38] ends_back (skip_space rest) rest (skip_space_idem _) D) by set_solver.
  - cbn [replicate app]. rewrite (skip_space_solid 38) by done. destruct (symbol_next [38] (38 :: replicate k 38 ++ rest) 38 (replicate k 38 ++ rest)) as (-> & -> & _); [done|set_solver..|].
    rewrite IH by lia. by rewrite <- Nat.iter_succ_r.
Qed.

Lemma seen_back k c : seen (Nat.iter k BACK c) = Nat.iter k BACK (seen c).
Proof. induction k as [|k IH]; simpl; [done|by rewrite IH]. Qed.

Lemma pipe_at_back c : (level c ≠ 1)%nat → at_pipe c → at_back c.
Proof.
  intros Hl IH k rest s f [Hs E] D Hf. assert (paren 1 c (print c) = paren 2 c (print c)) as Ep by (destruct c; simpl in *; done). rewrite Ep in E.
  destruct (IH (replicate k 38 ++ rest) s f) as (c' & Er & Ec); [done|destruct k; [eapply delim_weaken; [exact D|set_solver]|by apply delim_symbol; [|set_solver]]|done|]. rewrite Er. cbn [pbind].
  pose proof (parse_good line f Pipe s Hs Hf) as Hg. rewrite Er in Hg. destruct Hg as [Hg _]. pose proof (suffix_length _ _ Hg) as HL.
  assert (k <= length (skip_space (replicate k 38%Z ++ rest)))%nat.
  { destruct k as [|k]; [lia|]. cbn [replicate app]. rewrite (skip_space_solid 38) by done. simpl. rewrite length_app, length_replicate. lia. }
  rewrite back_read by (done || (simpl in Hf; lia)). eexists. split; [done|]. by rewrite seen_back, Ec.
Qed.

Lemma back_at_back c : at_back c → at_back (BACK c).
Proof.
  intros IH k rest s f [Hs E] D Hf. destruct (IH (S k) rest s f) as (c' & Er & Ec); [|done|done|].
  - split; [done|]. rewrite E. f_equal. unfold paren at 1. simpl. by rewrite <- app_assoc.
  - exists c'. split; [done|]. rewrite Ec. by rewrite <- Nat.iter_succ_r.
Qed.

Lemma pbind_assoc {A B C} (m : parser A) (k : A → list Z → parser B) (l : B → list Z → parser C) :
  pbind m (λ a s, pbind (k a s) l) = pbind (pbind m k) l.
Proof. by destruct m as [[a s]| | |]. Qed.

Lemma back_at_line c : (level c ≠ 0)%nat → at_back c → at_line c.
Proof.
  intros Hl IH rest s f [Hs E] D Hf. destruct f as [|f]; [simpl in Hf; lia|]. simpl in Hf. unfold reads. cbn [parse].
  assert (paren 1 c (print c) = print c) as Ep by (destruct c; simpl in *; done).
  destruct (IH 0%nat rest s f) as (c' & Er & Ec); [split; [done|by rewrite Ep]|eapply delim_weaken; [exact D|set_solver]|simpl; lia|].
  rewrite (pbind_assoc (parse n f Pipe s) (back_loop f)), Er. cbn [pbind].
  rewrite (peek_delim [59] ends_line (skip_space rest) rest (skip_space_idem _) D) by set_solver. by exists c'.
Qed.

Lemma list_at_line l r : at_back l → at_line r → at_line (LIST l r).
Proof.
  intros IHl IHr rest s f [Hs E] D Hf. destruct f as [|f]; [simpl in Hf; lia|]. simpl in Hf. unfold reads. cbn [parse].
  simpl in E. rewrite <- app_assoc in E. cbn [app] in E. set (r1 := print r ++ rest) in *.
  destruct (IHl 0%nat (59 :: r1) s f) as (c1 & Er & Ec1); [done|by apply delim_symbol; [|set_solver]|simpl; lia|]. rewrite (skip_space_solid 59) in Er by done.
  rewrite (pbind_assoc (parse n f Pipe s) (back_loop f)), Er. cbn [pbind].
  destruct (symbol_next [59] (59 :: r1) 59 r1) as (-> & -> & Hsuf & Hlen); [done|set_solver..|].
  assert (good line (pbind (parse n f Pipe s) (back_loop f)) s) as Hg.
  { apply good_bind; [apply parse_good; [done|simpl; lia]|]. intros c s' Hs' Hc. apply (good_suffix _ _ _ _ Hs'), back_loop_good; [done|]. pose proof (suffix_length _ _ Hs'). lia. }
  rewrite Er in Hg. destruct Hg as [Hg _]. pose proof (suffix_length _ _ Hg).
  assert (suffix_of (skip_space r1) line) as Hs2 by (eapply suffix_trans; [exact Hsuf|]; by eapply suffix_trans).
  destruct (IHr rest (skip_space r1) f) as (c2 & -> & Ec2); [split; [done|by rewrite skip_space_idem]|done|simpl in *; lia|]. cbn [pbind].
  eexists. split; [done|]. simpl. by rewrite Ec1, Ec2.
Qed.

Lemma all_levels c : valid c → at_exec c ∧ at_pipe c ∧ at_back c ∧ at_line c.
Proof.
  induction c as [ws|c IH f m d|l IHl r IHr|l IHl r IHr|c IH]; intros V.
  - pose proof (exec_at_exec ws V) as HE. pose proof (exec_at_pipe (EXEC ws) ltac:(done) HE) as HP. pose proof (pipe_at_back (EXEC ws) ltac:(done) HP) as HB.
    split_and!; try done. by apply back_at_line.
  - pose proof (redir_at_exec c f m d V (proj1 (IH (proj1 V)))) as HE. pose proof (exec_at_pipe (REDIR c f m d) ltac:(done) HE) as HP.
    pose proof (pipe_at_back (REDIR c f m d) ltac:(done) HP) as HB. split_and!; try done. by apply back_at_line.
  - destruct V as [Vl Vr]. destruct (IHl Vl) as (El & _). destruct (IHr Vr) as (_ & Pr & _). pose proof (pipe_at_pipe l r El Pr) as HP.
    pose proof (pipe_at_back (PIPE l r) ltac:(done) HP) as HB. pose proof (back_at_line (PIPE l r) ltac:(done) HB) as HL. split_and!; try done. apply block_at_exec; [simpl; lia|done].
  - destruct V as [Vl Vr]. destruct (IHl Vl) as (_ & _ & Bl & _). destruct (IHr Vr) as (_ & _ & _ & Lr). pose proof (list_at_line l r Bl Lr) as HL.
    pose proof (block_at_exec (LIST l r) ltac:(simpl; lia) HL) as HE. pose proof (exec_at_pipe (LIST l r) ltac:(done) HE) as HP. split_and!; try done. by apply pipe_at_back.
  - destruct (IH V) as (_ & _ & HB & _). pose proof (back_at_back c HB) as HB'. pose proof (back_at_line (BACK c) ltac:(done) HB') as HL.
    pose proof (block_at_exec (BACK c) ltac:(simpl; lia) HL) as HE. split_and!; try done. by apply exec_at_pipe.
Qed.
End Read.
