(* ===== verification/ShProps.v ===== *)
(** * The shell reads its commands (user/sh.c)

    The parser answers on every line, with strings that are words of the line, and
    reads back every command that was written down. *)

From S2P Require Import Prelude Sh ShSpec ShPrint.

(** ** The characters of a printed command *)

Section Char.
Variable x : Z.
Hypothesis blank : is_word x = false ∨ x = 0.
Hypothesis odd : x ∉ 32 :: symbols.

Lemma print_word_no w : valid_word w → x ∉ print_word w.
Proof using blank odd.
  intros [_ F]. unfold print_word. rewrite not_elem_of_cons. split; [set_solver|]. intros H. rewrite Forall_forall in F. destruct (F x H) as [Wx Hx]. destruct blank; congruence.
Qed.

Lemma paren_no {W} k (c : cmd W) t : x ∉ t → x ∉ paren k c t.
Proof using odd. pose proof odd as Ho. clear blank. unfold symbols in Ho. intros H. unfold paren. destruct (k <=? level c)%nat; set_solver. Qed.

Lemma print_no c : valid c → x ∉ print c.
Proof using blank odd.
  pose proof odd as Ho. unfold symbols in Ho. induction c as [ws|c IH f m d|l IHl r IHr|l IHl r IHr|c IH]; simpl; intros V.
  - destruct V as [V _]. induction V as [|w ws Vw V IH]; [set_solver|]. cbn [fmap list_fmap concat]. rewrite elem_of_app. pose proof (print_word_no w Vw). tauto.
  - destruct V as (V & Vf & _). rewrite !elem_of_app. pose proof (paren_no 3 c _ (IH V)). pose proof (print_word_no f Vf).
    assert (x ∉ print_mode m) by (unfold print_mode; repeat case_match; set_solver). tauto.
  - destruct V as [Vl Vr]. rewrite elem_of_app, elem_of_cons. pose proof (paren_no 3 l _ (IHl Vl)). pose proof (paren_no 2 r _ (IHr Vr)). set_solver.
  - destruct V as [Vl Vr]. rewrite elem_of_app, elem_of_cons. pose proof (paren_no 1 l _ (IHl Vl)). pose proof (IHr Vr). set_solver.
  - rewrite elem_of_app. pose proof (paren_no 1 c _ (IH V)). set_solver.
Qed.
End Char.

Lemma print_nul c : valid c → 0 ∉ print c.
Proof. apply print_no; [by right|]. apply (bool_decide_unpack _); by vm_compute. Qed.

(** ** The theorems *)

(** C37 (termination).  On every line without a NUL, with four times its length of
    nested calls, the parser answers: it panics, or the command it returns has words
    of the line, none empty and none with a blank or a symbol in it, as its strings
    once they are cut off in place. *)
Theorem parsecmd_answers line fuel : 0 ∉ line → (4 * length line + 5 <= fuel)%nat →
  match parsecmd fuel line with
  | Ok (c, buf) => texts buf c = cmd_map (slice line) c ∧ cmd_all (word_ok line) c
  | Panic _ => True
  | Hang | Undef => False
  end.
Proof.
  intros H0 Hf. unfold parsecmd, parseline. pose proof (parse_good line fuel Line line (suffix_refl line) Hf) as Hg.
  destruct (parse (length line) fuel Line line) as [[c s]| | |]; try done. destruct Hg as [_ Hc]. destruct (peek [] s) as [b s']. destruct s'; [|done].
  split; [by apply texts_words|done].
Qed.

Definition some_line : list Z := chars "ls <x | (wc>y; echo a b&) >>z".

Lemma parsecmd_answers_witness : match parsecmd 200 some_line with
  | Ok (c, buf) => texts buf c = cmd_map (slice some_line) c ∧ cmd_all (word_ok some_line) c
  | Panic _ => True
  | Hang | Undef => False
  end.
Proof.
  apply (parsecmd_answers some_line 200).
  - apply (bool_decide_unpack _); by vm_compute.
  - apply (bool_decide_unpack _); by vm_compute.
Defined.

(** The line that writes a command down, with blanks after it. *)
Lemma parse_printed c e : valid c → Forall (λ a, strchr whitespace a = true) e →
  ∃ c' buf, parsecmd (4 * length (print c ++ e) + 5) (print c ++ e) = Ok (c', buf) ∧ texts buf c' = c.
Proof.
  intros V Ve. assert (skip_space e = []) as Ee by (induction Ve as [|a e Ha Ve IH]; simpl; [done|by rewrite Ha]).
  set (l := print c ++ e). destruct (all_levels l c V) as (_ & _ & _ & HL).
  destruct (HL e l (4 * length l + 5)%nat) as (c' & Er & Ec); [split; [apply suffix_refl|done]|unfold delim; by rewrite Ee|done|]. rewrite Ee in Er.
  exists c', (nulterminate c' (l ++ [0])). unfold parsecmd, parseline. rewrite Er. split; [done|].
  pose proof (parse_good l (4 * length l + 5) Line l (suffix_refl _) (le_n (enough Line (length l)))) as Hg. rewrite Er in Hg. destruct Hg as [_ Hc].
  rewrite texts_words; [done| |done]. unfold l. rewrite elem_of_app. intros [H|H]; [by apply (print_nul c)|]. rewrite Forall_forall in Ve. by specialize (Ve 0 H).
Qed.

(** C11 (roundtrip).  Every command whose words have word characters only, with at
    most nine of them to a simple command and the three kinds of redirections, is
    read back from the line that writes it down: whatever the nesting of lists,
    background commands, pipelines and redirections. *)
Theorem print_parse c : valid c →
  ∃ c' buf, parsecmd (4 * length (print c) + 5) (print c) = Ok (c', buf) ∧ texts buf c' = c.
Proof.
  intros V. pose proof (parse_printed c [] V ltac:(constructor)) as H. by rewrite app_nil_r in H.
Qed.

Definition some_cmd : cmd (list Z) :=
  LIST (BACK (PIPE (REDIR (EXEC [chars "cat"]) (chars "in") O_READ 0) (EXEC [chars "grep"; chars "a*b"])))
       (REDIR (LIST (EXEC [chars "echo"; chars "x"]) (EXEC [])) (chars "out") O_CREATE_WRITE 1).

Lemma print_parse_witness : print some_cmd = chars " cat< in| grep a*b&;( echo x;)>> out" ∧
  ∃ c' buf, parsecmd (4 * length (print some_cmd) + 5) (print some_cmd) = Ok (c', buf) ∧ texts buf c' = some_cmd.
Proof.
  split; [by vm_compute|]. apply (print_parse some_cmd). unfold valid, valid_word, valid_redir, some_cmd.
  split_and!; try (apply (bool_decide_unpack _); by vm_compute).
Defined.
