(* ===== verification/ShRun.v ===== *)
(** * Running commands (user/sh.c, user/ulib.c)

    A process of the shell is the tree of the system calls that it makes.  [run]
    follows it and the processes it forks, with the descriptors of each, down to the
    programs that are started.  A process that is forked gets the rest of the input as
    well; what it would take from it, the shell still reads. *)

From S2P Require Import Prelude Sh.

Abbreviation str := (list Z).

(** ** The calls *)

Inductive prog :=
  | Exit (status : Z)
  | Execs (path : str) (argv : list str) (k : prog)
  | Close (fd : Z) (k : prog)
  | Open (path : str) (mode : Z) (k : Z → prog)
  | Dup (fd : Z) (k : prog)
  | Pipes (k : option (Z * Z) → prog)
  | Fork (k : Z → prog)
  | Wait (k : prog)
  | Chdir (path : str) (k : Z → prog)
  | Getc (k : option Z → prog)
  | Fprintf (fd : Z) (msg : str) (k : prog)
  | Stuck.

(** ** The shell *)

Definition panic (s : string) : prog := Fprintf 2 (chars s ++ [10]) (Exit 1).

Definition fork1 (k : Z → prog) : prog := Fork (λ pid, if pid =? -1 then panic "fork" else k pid).

Fixpoint runcmd (c : cmd str) : prog :=
  match c with
  | EXEC argv =>
      match argv with
      | [] => Exit 1
      | path :: _ => Execs path argv (Fprintf 2 (chars "exec " ++ path ++ chars " failed" ++ [10]) (Exit 0))
      end
  | REDIR c' file mode fd =>
      Close fd (Open file mode (λ r,
        if r <? 0 then Fprintf 2 (chars "open " ++ file ++ chars " failed" ++ [10]) (Exit 1) else runcmd c'))
  | LIST lc rc => fork1 (λ pid, if pid =? 0 then runcmd lc else Wait (runcmd rc))
  | PIPE lc rc =>
      Pipes (λ p,
        match p with
        | None => panic "pipe"
        | Some (p0, p1) =>
            fork1 (λ pid,
              if pid =? 0 then Close 1 (Dup p1 (Close p0 (Close p1 (runcmd lc))))
              else fork1 (λ pid,
                if pid =? 0 then Close 0 (Dup p0 (Close p0 (Close p1 (runcmd rc))))
                else Close p0 (Close p1 (Wait (Wait (Exit 0))))))
        end)
  | BACK c' => fork1 (λ pid, if pid =? 0 then runcmd c' else Exit 0)
  end.

(** [gets], with [left] characters to go. *)
Fixpoint gets_loop (left : nat) (buf : str) (k : str → prog) : prog :=
  match left with
  | O => k buf
  | S left' =>
      Getc (λ c,
        match c with
        | None => k buf
        | Some c => if (c =? 10) || (c =? 13) then k (buf ++ [c]) else gets_loop left' (buf ++ [c]) k
        end)
  end.
Definition gets (max : nat) (k : str → prog) : prog := gets_loop (max - 1) [] k.

(** The string in the buffer, or the end of the input. *)
Definition getcmd (nbuf : nat) (k : option str → prog) : prog :=
  Fprintf 2 (chars "$ ") (gets nbuf (λ buf, match cstring buf with [] => k None | s => k (Some s) end)).

Definition O_RDWR : Z := 2.

(** [while((fd = open("console", O_RDWR)) >= 0)]. *)
Fixpoint open_console (fuel : nat) (k : prog) : prog :=
  match fuel with
  | O => Stuck
  | S fuel' =>
      Open (chars "console") O_RDWR (λ fd,
        if fd <? 0 then k else if 3 <=? fd then Close fd k else open_console fuel' k)
  end.

(** [runcmd(parsecmd(buf))]; the message with the leftovers is not modelled. *)
Definition run_line (s : str) : prog :=
  match parsecmd (4 * length s + 5) s with
  | Ok (c, buf) => runcmd (texts buf c)
  | Panic e => panic e
  | Hang | Undef => Stuck
  end.

Fixpoint main_loop (fuel : nat) : prog :=
  match fuel with
  | O => Stuck
  | S fuel' =>
      getcmd 100 (λ r,
        match r with
        | None => Exit 0
        | Some s =>
            if bool_decide (take 3 s = chars "cd ") then
              let path := drop 3 (take (length s - 1) s) in
              Chdir path (λ r,
                if r <? 0 then Fprintf 2 (chars "cannot cd " ++ path ++ [10]) (main_loop fuel')
                else main_loop fuel')
            else fork1 (λ pid, if pid =? 0 then run_line s else Wait (main_loop fuel'))
        end)
  end.
Definition main (fuel : nat) : prog := open_console 4 (main_loop fuel).

(** ** Descriptors *)

(** What a descriptor stands for; a pipe is named after the call that made it. *)
Inductive obj :=
  | Given (k : nat)
  | File (path : str) (mode : Z)
  | Rd (me : list nat) (n : nat)
  | Wr (me : list nat) (n : nat).
Abbreviation table := (list (option obj)).

(** The lowest free descriptor, as [fdalloc] of the kernel chooses it. *)
Fixpoint alloc (t : table) (o : obj) : option (nat * table) :=
  match t with
  | [] => None
  | None :: t' => Some (0%nat, Some o :: t')
  | Some x :: t' => match alloc t' o with Some (i, t'') => Some (S i, Some x :: t'') | None => None end
  end.
Definition close (fd : Z) (t : table) : table := if fd <? 0 then t else <[Z.to_nat fd := None]> t.
Definition dup (fd : Z) (t : table) : table :=
  match t !! Z.to_nat fd with
  | Some (Some o) => match alloc t o with Some (_, t') => t' | None => t end
  | _ => t
  end.

(** ** Running *)

(** What the other calls answer, by the process that makes them and how many it made
    before. *)
Record os := Os {
  os_open : list nat → nat → str → Z → bool;
  os_exec : list nat → nat → list str → bool;
  os_pipe : list nat → nat → bool;
  os_fork : list nat → nat → option positive;
  os_chdir : list nat → nat → str → bool }.

(** What a process did, and the processes that it forked, in order. *)
Inductive trace :=
  | Ran (argv : list str) (t : table)
  | Exited (status : Z)
  | Lost
  | Forked (child next : trace)
  | Waited (next : trace)
  | Went (path : str) (next : trace).

Section Run.
Variable sys : os.

(** The process [me], which made [n] calls, reads [input]. *)
Fixpoint run (p : prog) (me : list nat) (n : nat) (input : str) (t : table) : trace :=
  match p with
  | Exit status => Exited status
  | Execs _ argv k => if os_exec sys me n argv then Ran argv t else run k me (S n) input t
  | Close fd k => run k me n input (close fd t)
  | Open path mode k =>
      if os_open sys me n path mode then
        match alloc t (File path mode) with
        | Some (fd, t') => run (k (Z.of_nat fd)) me (S n) input t'
        | None => run (k (-1)) me (S n) input t
        end
      else run (k (-1)) me (S n) input t
  | Dup fd k => run k me n input (dup fd t)
  | Pipes k =>
      if os_pipe sys me n then
        match alloc t (Rd me n) with
        | Some (p0, t') =>
            match alloc t' (Wr me n) with
            | Some (p1, t'') => run (k (Some (Z.of_nat p0, Z.of_nat p1))) me (S n) input t''
            | None => run (k None) me (S n) input t
            end
        | None => run (k None) me (S n) input t
        end
      else run (k None) me (S n) input t
  | Fork k =>
      match os_fork sys me n with
      | Some pid => Forked (run (k 0) (n :: me) 0 input t) (run (k (Zpos pid)) me (S n) input t)
      | None => run (k (-1)) me (S n) input t
      end
  | Wait k => Waited (run k me n input t)
  | Chdir path k => Went path (run (k (if os_chdir sys me n path then 0 else -1)) me (S n) input t)
  | Getc k =>
      match input with
      | [] => run (k None) me n [] t
      | c :: input' => run (k (Some c)) me n input' t
      end
  | Fprintf _ _ k => run k me n input t
  | Stuck => Lost
  end.
End Run.
