(* ===== verification/ShRunProps.v ===== *)
(** * What the shell runs (user/sh.c)

    Every program gets the descriptors of the shell, with the files and pipes of its
    command in the place of the first two, and no end of a pipe besides. *)

From S2P Require Import Prelude Sh ShSpec ShPrint ShProps ShRun.

(** ** Descriptors *)

Fixpoint free (t : table) : nat :=
  match t with [] => 0 | None :: t' => S (free t') | Some _ :: t' => free t' end.

Lemma alloc_spec t o i t' : alloc t o = Some (i, t') → t !! i = Some None ∧ t' = <[i := Some o]> t ∧ free t = S (free t').
Proof.
  revert i t'. induction t as [|[x|] t IH]; intros i t'; simpl; [done| |naive_solver].
  destruct (alloc t o) as [[j t'']|]; [|done]. intros [= <- <-]. destruct (IH j t'' eq_refl) as (? & -> & ?). done.
Qed.

Lemma alloc_free t o : (0 < free t)%nat → ∃ i t', alloc t o = Some (i, t').
Proof.
  induction t as [|[x|] t IH]; simpl; [lia| |eauto]. intros H. destruct (IH H) as (i & t' & ->). eauto.
Qed.

Section Shell.
Variable sys : os.
Variable err : obj.
Variable rest : table.
Hypothesis room : (2 <= free rest)%nat.

(** The descriptors of a process: input, output, errors and the rest. *)
Definition std (i o : obj) : table := Some i :: Some o :: Some err :: rest.

(** Redirecting one of the first two. *)
Definition set_fd (fd : Z) (x i o : obj) : table := if fd =? 0 then std x o else std i x.

Lemma redirect fd x i o : fd = 0 ∨ fd = 1 → alloc (close fd (std i o)) x = Some (Z.to_nat fd, set_fd fd x i o).
Proof. intros [-> | ->]; done. Qed.

(** Two descriptors for a pipe, both past the first three. *)
Lemma pipe_alloc i o x y : ∃ a b t1, alloc (std i o) x = Some (3 + a, t1)%nat ∧
  alloc t1 y = Some (3 + b, Some i :: Some o :: Some err :: <[b := Some y]> (<[a := Some x]> rest))%nat ∧
  rest !! a = Some None ∧ rest !! b = Some None ∧ a ≠ b.
Proof using room.
  destruct (alloc_free rest x ltac:(lia)) as (a & r1 & E1). destruct (alloc_spec _ _ _ _ E1) as (Ha & Er1 & F1).
  destruct (alloc_free r1 y ltac:(lia)) as (b & r2 & E2). destruct (alloc_spec _ _ _ _ E2) as (Hb & Er2 & _).
  exists a, b, (Some i :: Some o :: Some err :: r1). unfold std. simpl. rewrite E1, E2. subst r2 r1. split; [done|]. split; [done|]. split; [done|].
  destruct (decide (a = b)) as [<-|Hab].
  - rewrite list_lookup_insert_eq in Hb; [done|]. by eapply lookup_lt_Some.
  - by rewrite list_lookup_insert_ne in Hb.
Qed.

(** The table with both ends of a pipe. *)
Definition piped (a b : nat) (x y i o : obj) : table := Some i :: Some o :: Some err :: <[b := Some y]> (<[a := Some x]> rest).

(** Giving both ends back. *)
Lemma pipe_close a b x y i o : rest !! a = Some None → rest !! b = Some None → a ≠ b →
  close (Z.of_nat (3 + b)) (close (Z.of_nat (3 + a)) (piped a b x y i o)) = std i o.
Proof.
  intros Ha Hb Hab. unfold close. rewrite !(proj2 (Z.ltb_ge _ _)), !Nat2Z.id by lia. unfold std, piped. simpl. do 3 f_equal.
  rewrite (list_insert_insert_ne _ a b) by done. rewrite !list_insert_insert_eq. rewrite (list_insert_id rest a) by done. by rewrite list_insert_id.
Qed.

(** One end takes the place of one of the first two. *)
Lemma pipe_dup a b x y i o : rest !! a = Some None → rest !! b = Some None → a ≠ b →
  dup (Z.of_nat (3 + b)) (close 1 (piped a b x y i o)) = piped a b x y i y ∧
  dup (Z.of_nat (3 + a)) (close 0 (piped a b x y i o)) = piped a b x y x o.
Proof.
  intros Ha Hb Hab. unfold dup, close, piped. rewrite !Nat2Z.id. simpl.
  rewrite list_lookup_insert_eq by (rewrite length_insert; by eapply lookup_lt_Some).
  rewrite list_lookup_insert_ne, list_lookup_insert_eq by (done || by eapply lookup_lt_Some). done.
Qed.

(** ** Running a command *)

(** What the processes of a command do, from the input [i] and the output [o] it has. *)
Fixpoint plan (c : cmd str) (me : list nat) (n : nat) (i o : obj) : trace :=
  match c with
  | EXEC ws => if bool_decide (ws = []) then Exited 1 else if os_exec sys me n ws then Ran ws (std i o) else Exited 0
  | REDIR c' f m d =>
      if os_open sys me n f m
      then if d =? 0 then plan c' me (S n) (File f m) o else plan c' me (S n) i (File f m)
      else Exited 1
  | LIST l r =>
      match os_fork sys me n with
      | Some _ => Forked (plan l (n :: me) 0 i o) (Waited (plan r me (S n) i o))
      | None => Exited 1
      end
  | PIPE l r =>
      if os_pipe sys me n then
        match os_fork sys me (S n) with
        | Some _ =>
            Forked (plan l (S n :: me) 0 i (Wr me n))
              match os_fork sys me (S (S n)) with
              | Some _ => Forked (plan r (S (S n) :: me) 0 (Rd me n) o) (Waited (Waited (Exited 0)))
              | None => Exited 1
              end
        | None => Exited 1
        end
      else Exited 1
  | BACK c' => match os_fork sys me n with Some _ => Forked (plan c' (n :: me) 0 i o) (Exited 0) | None => Exited 1 end
  end.

(** Redirections are of the input or of the output. *)
Fixpoint fds_ok (c : cmd str) : Prop :=
  match c with
  | EXEC _ => True
  | REDIR c' _ _ d => fds_ok c' ∧ (d = 0 ∨ d = 1)
  | PIPE l r | LIST l r => fds_ok l ∧ fds_ok r
  | BACK c' => fds_ok c'
  end.

Lemma run_fork k me n input t : run sys (fork1 k) me n input t =
  match os_fork sys me n with
  | Some pid => Forked (run sys (k 0) (n :: me) 0 input t) (run sys (k (Zpos pid)) me (S n) input t)
  | None => Exited 1
  end.
Proof. unfold fork1. simpl. by destruct (os_fork sys me n). Qed.

Lemma run_pipe l r me n input i o :
  (∀ i o me n, run sys (runcmd l) me n input (std i o) = plan l me n i o) →
  (∀ i o me n, run sys (runcmd r) me n input (std i o) = plan r me n i o) →
  run sys (runcmd (PIPE l r)) me n input (std i o) = plan (PIPE l r) me n i o.
Proof using room.
  intros IHl IHr. cbn [runcmd run plan]. destruct (os_pipe sys me n); [|done].
  destruct (pipe_alloc i o (Rd me n) (Wr me n)) as (a & b & t1 & -> & -> & Ha & Hb & Hab).
  fold (piped a b (Rd me n) (Wr me n) i o). destruct (pipe_dup a b (Rd me n) (Wr me n) i o Ha Hb Hab) as [D1 D0].
  rewrite run_fork. destruct (os_fork sys me (S n)); [|done]. cbn [Z.eqb run]. rewrite D1, (pipe_close a b), IHl by done. f_equal.
  rewrite run_fork. destruct (os_fork sys me (S (S n))); [|done]. cbn [Z.eqb run]. by rewrite D0, (pipe_close a b), IHr.
Qed.

Lemma run_plan c me n input i o : fds_ok c → run sys (runcmd c) me n input (std i o) = plan c me n i o.
Proof using room.
  revert me n i o. induction c as [ws|c IH f m d|l IHl r IHr|l IHl r IHr|c IH]; intros me n i o H.
  - destruct ws as [|w ws]; [done|]. simpl. by destruct (os_exec sys me n (w :: ws)).
  - destruct H as [Hc Hd]. cbn [runcmd run plan]. destruct (os_open sys me n f m); [|done]. rewrite redirect by done.
    rewrite (proj2 (Z.ltb_ge _ _)) by lia. unfold set_fd. destruct (d =? 0); by apply IH.
  - destruct H as [Hl Hr]. apply run_pipe; intros; auto.
  - destruct H as [Hl Hr]. cbn [runcmd plan]. rewrite run_fork. destruct (os_fork sys me n); [|done]. cbn [Z.eqb run]. by rewrite IHl, IHr.
  - cbn [runcmd plan]. rewrite run_fork. destruct (os_fork sys me n); [|done]. cbn [Z.eqb run]. by rewrite IH.
Qed.

(** ** The loop of the shell *)

Lemma valid_fds c : valid c → fds_ok c.
Proof.
  induction c as [ws|c IH f m d|l IHl r IHr|l IHl r IHr|c IH]; simpl; [done| |naive_solver..].
  intros (V & _ & Vm). split; [auto|]. unfold valid_redir in Vm. rewrite !elem_of_cons, elem_of_nil in Vm. naive_solver.
Qed.

Definition plain (l : str) : Prop := Forall (λ c, c ≠ 0 ∧ c ≠ 10 ∧ c ≠ 13) l.

Lemma run_gets l left buf k me n input t : plain l → (length l < left)%nat →
  run sys (gets_loop left buf k) me n (l ++ 10 :: input) t = run sys (k (buf ++ l ++ [10])) me n input t.
Proof.
  intros P. revert left buf. induction P as [|c l (_ & H10 & H13) P IH]; intros left buf Hl; (destruct left as [|left]; [simpl in Hl; lia|]); [done|].
  cbn [gets_loop run app]. rewrite !(proj2 (Z.eqb_neq _ _)) by done. cbn [orb]. simpl in Hl. rewrite IH by lia. by rewrite <- app_assoc.
Qed.

Lemma cstring_plain l : plain l → cstring (l ++ [10]) = l ++ [10].
Proof. intros P. induction P as [|c l (H0 & _) P IH]; simpl; [done|]. rewrite (proj2 (Z.eqb_neq _ _)) by done. by rewrite IH. Qed.

Lemma run_getcmd l k me n input t : plain l → (length l < 99)%nat →
  run sys (getcmd 100 k) me n (l ++ 10 :: input) t = run sys (k (Some (l ++ [10]))) me n input t.
Proof.
  intros P Hl. unfold getcmd, gets. cbn [run]. rewrite run_gets by done. cbn [app]. rewrite cstring_plain by done. by destruct l.
Qed.

Lemma print_plain c : valid c → plain (print c).
Proof.
  intros V. apply Forall_forall. intros x Hx. split_and!; intros ->.
  - by apply (print_nul c).
  - apply (print_no 10 ltac:(by left) ltac:(apply (bool_decide_unpack _); by vm_compute) c V Hx).
  - apply (print_no 13 ltac:(by left) ltac:(apply (bool_decide_unpack _); by vm_compute) c V Hx).
Qed.

(** A printed command does not start with a word character. *)
Lemma print_head c : match print c with a :: _ => a ≠ 99 | [] => True end.
Proof.
  assert (∀ k (c' : cmd str) t t', match t with a :: _ => a ≠ 99 | [] => True end → match t' with a :: _ => a ≠ 99 | [] => True end →
    match paren k c' t ++ t' with a :: _ => a ≠ 99 | [] => True end) as HP.
  { intros k c' t t' Ht Ht'. unfold paren. destruct (k <=? level c')%nat; [by destruct t|done]. }
  induction c as [ws|c IH f m d|l IHl r IHr|l IHl r IHr|c IH]; simpl; try (by apply HP).
  - by destruct ws.
  - apply HP; [done|]. unfold print_mode. by destruct (m =? O_READ), (m =? O_CREATE_WRITE).
Qed.

(** What is typed: commands, and changes of the directory. *)
Inductive item := Cmd (c : cmd str) | Cd (path : str).
Definition typed (it : item) : str := match it with Cmd c => print c ++ [10] | Cd path => chars "cd " ++ path ++ [10] end.
Definition item_ok (it : item) : Prop :=
  match it with
  | Cmd c => valid c ∧ (length (print c) < 99)%nat
  | Cd path => plain path ∧ (length path < 96)%nat
  end.

(** One after the other, each one waited for. *)
Fixpoint session (its : list item) (me : list nat) (n : nat) (i o : obj) : trace :=
  match its with
  | [] => Exited 0
  | Cmd c :: its' =>
      match os_fork sys me n with
      | Some _ => Forked (plan c (n :: me) 0 i o) (Waited (session its' me (S n) i o))
      | None => Exited 1
      end
  | Cd path :: its' => Went path (session its' me (S n) i o)
  end.

Lemma run_line_plan c me n input i o : valid c → run sys (run_line (print c ++ [10])) me n input (std i o) = plan c me n i o.
Proof using room.
  intros V. unfold run_line. destruct (parse_printed c [10] V ltac:(by repeat constructor)) as (c' & buf & -> & ->). by apply run_plan, valid_fds.
Qed.

Lemma run_cmd c its fuel me n i o : item_ok (Cmd c) →
  (∀ n, run sys (main_loop fuel) me n (concat (typed <$> its)) (std i o) = session its me n i o) →
  run sys (main_loop (S fuel)) me n (concat (typed <$> Cmd c :: its)) (std i o) = session (Cmd c :: its) me n i o.
Proof using room.
  intros [V Hl] IH. cbn [fmap list_fmap concat typed]. rewrite <- app_assoc. cbn [app main_loop]. rewrite run_getcmd by (done || by apply print_plain).
  rewrite bool_decide_eq_false_2.
  - rewrite run_fork. cbn [session]. destruct (os_fork sys me n); [|done]. cbn [Z.eqb run]. by rewrite run_line_plan, IH.
  - pose proof (print_head c) as Hh. destruct (print c) as [|a l]; [done|]. simpl. intros [= -> _]. done.
Qed.

Lemma run_cd path its fuel me n i o : item_ok (Cd path) →
  (∀ n, run sys (main_loop fuel) me n (concat (typed <$> its)) (std i o) = session its me n i o) →
  run sys (main_loop (S fuel)) me n (concat (typed <$> Cd path :: its)) (std i o) = session (Cd path :: its) me n i o.
Proof.
  intros [P Hl] IH. cbn [fmap list_fmap concat typed]. rewrite <- !app_assoc, (app_assoc (chars "cd ")). cbn [app main_loop].
  rewrite run_getcmd; [|apply Forall_app; split; [by repeat constructor|done]|rewrite length_app; simpl; lia].
  rewrite bool_decide_eq_true_2 by done. cbn [session].
  assert (drop 3 (take (length ((chars "cd " ++ path) ++ [10]) - 1) ((chars "cd " ++ path) ++ [10])) = path) as ->.
  { rewrite length_app, Nat.add_sub, take_app_length. done. }
  cbn [run]. f_equal. destruct (os_chdir sys me n path); cbn [Z.ltb Z.compare run]; apply IH.
Qed.

Lemma run_session its fuel me n i o : Forall item_ok its → (length its < fuel)%nat →
  run sys (main_loop fuel) me n (concat (typed <$> its)) (std i o) = session its me n i o.
Proof using room.
  intros F. revert fuel n. induction F as [|it its Hit F IH]; intros fuel n Hf; (destruct fuel as [|fuel]; [simpl in Hf; lia|]); [done|].
  simpl in Hf. destruct it as [c|path]; [apply run_cmd|apply run_cd]; auto with lia.
Qed.

Lemma run_console k me n input i o : run sys (open_console 4 k) me n input (std i o) = run sys k me (S n) input (std i o).
Proof using room.
  cbn [open_console run]. destruct (os_open sys me n (chars "console") O_RDWR); [|done].
  destruct (alloc_free rest (File (chars "console") O_RDWR) ltac:(lia)) as (a & r & E). destruct (alloc_spec _ _ _ _ E) as (Ha & Er & _).
  unfold std. cbn [alloc]. rewrite E. rewrite (proj2 (Z.ltb_ge _ _)), (proj2 (Z.leb_le _ _)) by lia. cbn [run]. f_equal.
  unfold close. rewrite (proj2 (Z.ltb_ge _ _)), Nat2Z.id by lia. simpl. rewrite Er, list_insert_insert_eq. by rewrite list_insert_id.
Qed.
End Shell.

(** ** The theorems *)

(** C32 (functional).  Running a command whose redirections are of the input or the
    output: the programs of its pipelines, lists and background commands are started
    by the processes, and waited for in the places, that [plan] gives, and each has
    exactly the descriptors of the shell, with the file or the end of the pipe that
    the command asks for as its input or output; no other end of a pipe stays open.
    When a file cannot be opened, a pipe or a process cannot be made, or a program
    cannot be started, that part of the command ends and the rest goes on. *)
Theorem runcmd_correct sys err rest c me n input i o : (2 <= free rest)%nat → fds_ok c →
  run sys (runcmd c) me n input (std err rest i o) = plan sys err rest c me n i o.
Proof. intros Hr Hc. by apply run_plan. Qed.

(** A kernel that grants everything. *)
Definition kind : os := Os (λ _ _ _ _, true) (λ _ _ _, true) (λ _ _, true) (λ _ _, Some 7%positive) (λ _ _ _, true).

Definition shell_rest : table := replicate 13 None.

Lemma runcmd_correct_witness :
  run kind (runcmd some_cmd) [] 0 [] (std (Given 2) shell_rest (Given 0) (Given 1)) = plan kind (Given 2) shell_rest some_cmd [] 0 (Given 0) (Given 1).
Proof.
  apply (runcmd_correct kind (Given 2) shell_rest some_cmd).
  - unfold shell_rest. simpl. lia.
  - simpl. auto.
Defined.

(** C23 (refinement).  The shell, started with its three descriptors and room for two
    more, on a text of commands, each written down on a line of its own of at most 99
    characters, and of changes of the directory: it runs the commands in that order,
    each in a process of its own that it waits for, with the programs and
    descriptors of [plan]; it changes its own directory; and it exits at the
    end of the text. *)
Theorem shell_session sys err rest its fuel me i o : (2 <= free rest)%nat → Forall item_ok its → (length its < fuel)%nat →
  run sys (main fuel) me 0 (concat (typed <$> its)) (std err rest i o) = session sys err rest its me 1 i o.
Proof. intros Hr F Hf. unfold main. rewrite run_console by done. by apply run_session. Qed.

Definition some_items : list item := [Cmd some_cmd; Cd (chars "/tmp"); Cmd (PIPE (EXEC [chars "ls"]) (EXEC [chars "wc"]))].

Lemma shell_session_witness :
  run kind (main 4) [] 0 (concat (typed <$> some_items)) (std (Given 2) shell_rest (Given 0) (Given 1)) =
  session kind (Given 2) shell_rest some_items [] 1 (Given 0) (Given 1) ∧
  plan kind (Given 2) shell_rest (PIPE (EXEC [chars "ls"]) (EXEC [chars "wc"])) [] 0 (Given 0) (Given 1) =
  Forked (Ran [chars "ls"] (std (Given 2) shell_rest (Given 0) (Wr [] 0)))
    (Forked (Ran [chars "wc"] (std (Given 2) shell_rest (Rd [] 0) (Given 1))) (Waited (Waited (Exited 0)))).
Proof.
  split; [|reflexivity]. apply (shell_session kind (Given 2) shell_rest some_items 4).
  - unfold shell_rest. simpl. lia.
  - unfold some_items, item_ok, some_cmd, valid, valid_word, valid_redir, plain.
    repeat (apply Forall_cons; split); [| | |apply Forall_nil; done]; split_and!; apply (bool_decide_unpack _); by vm_compute.
  - simpl. lia.
Defined.
