(* ===== verification/Mkfs.v ===== *)
(** * The image builder (mkfs/mkfs.c)

    The image is a file of sectors that the program reads and writes as a whole;
    reading past its end dies.  The host is little-endian.  A source file is what
    successive calls of [read] deliver of it, or [None] if it cannot be opened. *)

From S2P Require Import Prelude Spinlock Block Log Fs.

Definition NINODES : Z := 200.
Definition FSSIZE : Z := 1000.

Definition nbitmap : Z := FSSIZE / (BSIZE * 8) + 1.
Definition ninodeblocks : Z := NINODES / IPB + 1.
Definition nlog : Z := LOGSIZE.
Definition nmeta : Z := 2 + nlog + ninodeblocks + nbitmap.
Definition nblocks : Z := FSSIZE - nmeta.

(** The bytes of the number, read back by the host. *)
Definition xshort (x : Z) : Z := unle (le 2 x).
Definition xint (x : Z) : Z := unle (le 4 x).

Definition sb : superblock :=
  mkSb FSMAGIC (xint FSSIZE) (xint nblocks) (xint NINODES) (xint nlog) (xint 2) (xint (2 + nlog)) (xint (2 + nlog + ninodeblocks)).
Definition sb_bytes (b : superblock) : list Z :=
  mjoin (le 4 <$> [sb_magic b; sb_size b; sb_nblocks b; sb_ninodes b; sb_nlog b; sb_logstart b; sb_inodestart b; sb_bmapstart b]).

Definition zeroes : block := replicate (Z.to_nat BSIZE) 0.

Record image := mkImage { m_img : gmap Z block; m_freeinode : Z; m_freeblock : Z }.

(** ** Sectors *)

(** [lseek(fsfd, sec * BSIZE, 0)]. *)
Definition sector (sec : Z) : Z := u32 (sec * BSIZE) / BSIZE.

Definition wsect (sec : Z) (buf : block) : M image unit :=
  modify (λ s, mkImage (<[sector sec := buf]> (m_img s)) (m_freeinode s) (m_freeblock s)).
Definition rsect (sec : Z) : M image block :=
  let! b := gets (λ s, m_img s !! sector sec) in
  match b with Some b => ret b | None => panic "read" end.

(** ** Inodes *)

Definition winode (inum : Z) (ip : inode) : M image unit :=
  let bn := IBLOCK inum sb in
  let! buf := rsect bn in
  wsect bn (encode_dinode ip buf (DOFF inum)).

Definition rinode (inum : Z) : M image inode :=
  let bn := IBLOCK inum sb in
  let! buf := rsect bn in
  ret (decode_dinode buf (DOFF inum) inode0).

Definition ialloc (type : Z) : M image Z :=
  let! inum := gets m_freeinode in
  modify (λ s, mkImage (m_img s) (inum + 1) (m_freeblock s)) ;;
  winode inum (set_meta (xshort type) 0 0 (xshort 1) (xint 0) (replicate 13 0) inode0) ;;
  ret inum.

(** ** Blocks *)

Definition balloc (used : Z) : M image unit :=
  if negb (used <? BSIZE * 8) then panic "assert"
  else wsect (sb_bmapstart sb) (foldl set_bit zeroes (seqZ 0 used)).

(** [xint(freeblock++)]. *)
Definition new_block : M image Z :=
  let! b := gets m_freeblock in
  modify (λ s, mkImage (m_img s) (m_freeinode s) (b + 1)) ;;
  ret (xint b).

Definition addr (din : inode) (i : Z) : Z := nth (Z.to_nat i) (i_addrs din) 0.
Definition put_addr (i a : Z) (din : inode) : inode := set_iaddrs (<[Z.to_nat i := a]> (i_addrs din)) din.

(** The block [x] of the file block [fbn], allocated if need be: out of the indirect
    block, and in general. *)
Definition iappend_entry (din : inode) (fbn : Z) : M image (inode * Z) :=
  let! indirect := rsect (xint (addr din NDIRECT)) in
  if get_u32 indirect (4 * (fbn - NDIRECT)) =? 0 then
    let! b := new_block in
    let indirect := put_32 indirect (4 * (fbn - NDIRECT)) b in
    wsect (xint (addr din NDIRECT)) indirect ;;
    ret (din, xint (get_u32 indirect (4 * (fbn - NDIRECT))))
  else ret (din, xint (get_u32 indirect (4 * (fbn - NDIRECT)))).

Definition iappend_block (din : inode) (fbn : Z) : M image (inode * Z) :=
  if fbn <? NDIRECT then
    if xint (addr din fbn) =? 0 then
      let! b := new_block in
      ret (put_addr fbn b din, xint b)
    else ret (din, xint (addr din fbn))
  else
    let! din :=
      (if xint (addr din NDIRECT) =? 0 then let! b := new_block in ret (put_addr NDIRECT b din)
       else ret din) in
    iappend_entry din fbn.

(** [while(n > 0)], with what is left at [p]. *)
Fixpoint iappend_loop (fuel : nat) (din : inode) (off : Z) (p : list Z) : M image (inode * Z) :=
  match fuel with
  | O => hang
  | S fuel' =>
      if bool_decide (p = []) then ret (din, off)
      else
        let fbn := off / BSIZE in
        if negb (fbn <? MAXFILE) then panic "assert"
        else
          let! (din, x) := iappend_block din fbn in
          let n1 := Z.min (Z.of_nat (length p)) ((fbn + 1) * BSIZE - off) in
          let! buf := rsect x in
          wsect x (splice buf (off - fbn * BSIZE) (take (Z.to_nat n1) p)) ;;
          iappend_loop fuel' din (off + n1) (drop (Z.to_nat n1) p)
  end.

Definition iappend (inum : Z) (p : list Z) : M image unit :=
  let! din := rinode inum in
  let off := xint (i_size din) in
  let! (din, off) := iappend_loop (blocks_fuel (Z.of_nat (length p))) din off p in
  winode inum (set_isize (xint off) din).

(** ** The program *)

(** Without the directory of the programs, and without the underscore. *)
Definition USER : list Z := [117; 115; 101; 114; 47].
Definition shortname (name : list Z) : list Z := if bool_decide (take 5 name = USER) then drop 5 name else name.
Definition no_underscore (name : list Z) : list Z := match name with c :: t => if c =? 95 then t else name | [] => [] end.

Fixpoint append_all (inum : Z) (chunks : list (list Z)) : M image unit :=
  match chunks with
  | [] => ret tt
  | c :: chunks' => iappend inum c ;; append_all inum chunks'
  end.

Definition add_file (rootino : Z) (name : list Z) (file : option (list (list Z))) : M image unit :=
  let short := shortname name in
  if bool_decide (SLASH ∈ short) then panic "assert"
  else
    match file with
    | None => panic "open"
    | Some chunks =>
        let short := no_underscore short in
        let! inum := ialloc T_FILE in
        iappend rootino (mk_dirent (xshort inum) short) ;;
        append_all inum chunks
    end.

Fixpoint add_files (rootino : Z) (args : list (list Z * option (list (list Z)))) : M image unit :=
  match args with
  | [] => ret tt
  | (name, file) :: args' => add_file rootino name file ;; add_files rootino args'
  end.

Definition main (args : list (list Z * option (list (list Z)))) : M image unit :=
  modify (λ s, mkImage (m_img s) (m_freeinode s) nmeta) ;;
  let! _ := for_ (R := unit) (Z.to_nat FSSIZE) 0 1 (λ i, wsect i zeroes ;; ret None) in
  wsect 1 (splice zeroes 0 (sb_bytes sb)) ;;
  let! rootino := ialloc T_DIR in
  if negb (rootino =? ROOTINO) then panic "assert"
  else
    iappend rootino (mk_dirent (xshort rootino) [46]) ;;
    iappend rootino (mk_dirent (xshort rootino) [46; 46]) ;;
    add_files rootino args ;;
    let! din := rinode rootino in
    let off := xint (i_size din) in
    let off := (off / BSIZE + 1) * BSIZE in
    winode rootino (set_isize (xint off) din) ;;
    let! used := gets m_freeblock in
    balloc used.

(** [fsfd] was truncated. *)
Definition image0 : image := mkImage ∅ 1 0.
