(* ===== verification/MkfsSpec.v ===== *)
(** * Invariants of the image builder (mkfs/mkfs.c)

    Every block handed out belongs to one file, as one of its blocks or as its
    indirect block; files are kept apart by that. *)

From S2P Require Import Prelude Spinlock Block Fs FsSpec FsFile FsInode Mkfs.

#[local] Ltac Zify.zify_post_hook ::= Z.to_euclidean_division_equations.

(** ** Sectors and numbers *)

Definition blk (s : image) (n : Z) : block := default zeroes (m_img s !! n).

Lemma xint_id x : 0 <= x < 2 ^ 32 → xint x = x.
Proof. intros. unfold xint. rewrite unle_le. by apply Z.mod_small. Qed.
Lemma xshort_id x : 0 <= x < 2 ^ 16 → xshort x = x.
Proof. intros. unfold xshort. rewrite unle_le. by apply Z.mod_small. Qed.
Lemma xint_0 x : 0 <= x < 2 ^ 32 → (xint x =? 0) = (x =? 0).
Proof. intros. by rewrite xint_id. Qed.

Lemma sector_id n : 0 <= n < FSSIZE → sector n = n.
Proof. unfold FSSIZE. intros. unfold sector, BSIZE. rewrite (wrap_small 32) by lia. by apply Z.div_mul. Qed.

(** Blocks of the image, as many as it has. *)
Definition sized (s : image) : Prop :=
  (∀ n, 0 <= n < FSSIZE → ∃ b, m_img s !! n = Some b) ∧ ∀ n, length (blk s n) = 1024%nat.

Lemma sized_len s n : sized s → 0 <= n < FSSIZE → length (blk s n) = 1024%nat.
Proof. by intros [_ Hs] _. Qed.

Lemma wp_rsect n s (Q : block → image → Prop) : sized s → 0 <= n < FSSIZE → Q (blk s n) s → wp (rsect n) Q s.
Proof.
  intros [Hs _] Hn HQ. unfold rsect. rewrite sector_id by done. apply wp_bind, wp_gets. destruct (Hs n Hn) as (b & E).
  unfold blk in HQ. rewrite E in *. by apply wp_ret.
Qed.

Definition put_blk (n : Z) (b : block) (s : image) : image := mkImage (<[n := b]> (m_img s)) (m_freeinode s) (m_freeblock s).

Lemma wp_wsect n b s (Q : unit → image → Prop) : 0 <= n < FSSIZE → Q tt (put_blk n b s) → wp (wsect n b) Q s.
Proof. intros Hn HQ. unfold wsect. rewrite sector_id by done. by apply wp_modify. Qed.

Lemma blk_put n b s m : blk (put_blk n b s) m = if m =? n then b else blk s m.
Proof.
  unfold blk, put_blk. simpl. destruct (Z.eqb_spec m n) as [->|H]; [by rewrite lookup_insert_eq|by rewrite lookup_insert_ne].
Qed.

Lemma sized_put n b s : sized s → length b = 1024%nat → sized (put_blk n b s).
Proof.
  intros [Hs Hl] Hb. split.
  - intros m Hm. simpl. destruct (decide (m = n)) as [->|H]; [exists b; by rewrite lookup_insert_eq|]. rewrite lookup_insert_ne by done. by apply Hs.
  - intros m. rewrite blk_put. by destruct (m =? n).
Qed.

(** ** Owners *)

(** Which block of which file a block of the image is; [None] for the indirect one. *)
Abbreviation owners := (gmap Z (Z * option Z)).

Record disk_inv (s : image) (own : owners) : Prop := {
  dk_sized : sized s;
  dk_free : nmeta <= m_freeblock s <= FSSIZE;
  dk_zero : ∀ n, m_freeblock s <= n < FSSIZE → blk s n = zeroes;
  dk_own : ∀ a o, own !! a = Some o → nmeta <= a < m_freeblock s
}.
Arguments dk_sized {_ _}. Arguments dk_free {_ _}. Arguments dk_zero {_ _}. Arguments dk_own {_ _}.

Lemma nmeta_eq : nmeta = 46.
Proof. done. Qed.

Lemma own_range s own a o : disk_inv s own → own !! a = Some o → 46 <= a < FSSIZE.
Proof. intros D E. pose proof (dk_own D _ _ E). pose proof (dk_free D). rewrite nmeta_eq in *. lia. Qed.

(** The file [inum] with [nb] blocks, and an indirect block if [ind], holds [bs] and
    nothing past it. *)
Record file_at (f : Z → block) (own : owners) (inum : Z) (x : inode) (nb : Z) (ind : bool) (bs : list Z) : Prop := {
  fa_len : length (i_addrs x) = 13%nat;
  fa_nb : 0 <= nb <= MAXFILE;
  fa_map : ∀ bn, 0 <= bn < nb → own !! addr_of f x bn = Some (inum, Some bn);
  fa_unmap : ∀ bn, nb <= bn < MAXFILE → addr_of f x bn = 0;
  fa_ind : if ind then own !! indirect x = Some (inum, None) else indirect x = 0 ∧ nb <= NDIRECT;
  fa_size : Z.of_nat (length bs) <= nb * BSIZE;
  fa_byte : ∀ i, 0 <= i < MAXFILE * BSIZE → fbyte f x i = nth (Z.to_nat i) bs 0
}.
Arguments fa_len {_ _ _ _ _ _ _}. Arguments fa_nb {_ _ _ _ _ _ _}. Arguments fa_map {_ _ _ _ _ _ _}.
Arguments fa_unmap {_ _ _ _ _ _ _}. Arguments fa_ind {_ _ _ _ _ _ _}. Arguments fa_byte {_ _ _ _ _ _ _}.
Arguments fa_size {_ _ _ _ _ _ _}.

Lemma addr_of_meta f x y bn : i_addrs x = i_addrs y → addr_of f x bn = addr_of f y bn.
Proof. intros E. unfold addr_of, indirect. by rewrite E. Qed.

Lemma file_at_meta f own inum x y nb ind bs : i_addrs y = i_addrs x → file_at f own inum x nb ind bs → file_at f own inum y nb ind bs.
Proof.
  intros E [F1 F2 F3 F4 F5 F6 F7]. split; try done.
  - by rewrite E.
  - intros bn Hb. rewrite (addr_of_meta _ _ x) by done. auto.
  - intros bn Hb. rewrite (addr_of_meta _ _ x) by done. auto.
  - unfold indirect in *. by rewrite E.
  - intros i Hi. unfold fbyte. rewrite (addr_of_meta _ _ x) by done. by apply F7.
Qed.

Lemma addr_of_frame (f f' : Z → block) x bn : (indirect x ≠ 0 → f' (indirect x) = f (indirect x)) → addr_of f' x bn = addr_of f x bn.
Proof.
  intros H. unfold addr_of, ind_entry. destruct (bn <? NDIRECT); [done|]. destruct (Z.eqb_spec (indirect x) 0); [done|]. by rewrite H.
Qed.

(** The file keeps its map, with [b] for a new block behind the last, if any. *)
Lemma file_at_map (f f' : Z → block) (own own' : owners) inum x x' nb nb' (ind ind' : bool) bs : file_at f own inum x nb ind bs → length (i_addrs x') = 13%nat →
  (∀ a bn, own !! a = Some (inum, Some bn) → own' !! a = Some (inum, Some bn) ∧ f' a = f a) →
  nb <= nb' <= MAXFILE → (∀ bn, 0 <= bn < MAXFILE → bn < nb ∨ nb' <= bn → addr_of f' x' bn = addr_of f x bn) →
  (∀ bn, nb <= bn < nb' → own' !! addr_of f' x' bn = Some (inum, Some bn) ∧ f' (addr_of f' x' bn) = zeroes) →
  (if ind' then own' !! indirect x' = Some (inum, None) else indirect x' = 0 ∧ nb' <= NDIRECT) →
  file_at f' own' inum x' nb' ind' bs.
Proof.
  intros [F1 F2 F3 F4 F5 F6 F7] L Hk Hnb Ho Hn Hi. split; try done.
  - lia.
  - intros bn Hb. destruct (decide (bn < nb)); [|by apply Hn; lia]. rewrite Ho by lia. apply Hk, F3. lia.
  - intros bn Hb. rewrite Ho by lia. apply F4. lia.
  - unfold BSIZE in *. lia.
  - intros i Hr. rewrite <- F7 by done. unfold fbyte. assert (0 <= i / BSIZE < MAXFILE) by (unfold BSIZE, MAXFILE, NDIRECT, NINDIRECT in *; lia).
    destruct (decide (nb <= i / BSIZE < nb')) as [Hb|Hb].
    + rewrite (F4 (i / BSIZE)) by lia. destruct (Hn _ Hb) as [_ ->]. change zeroes with zeros. rewrite zeros_nth. by destruct (_ =? 0).
    + rewrite Ho by lia. destruct (Z.eqb_spec (addr_of f x (i / BSIZE)) 0) as [|Hne]; [done|].
      destruct (decide (i / BSIZE < nb)); [|by rewrite F4 in Hne by lia]. destruct (Hk _ _ (F3 (i / BSIZE) ltac:(lia))) as [_ ->]. done.
Qed.

(** Nothing of the file was touched. *)
Lemma file_at_frame (f f' : Z → block) (own own' : owners) inum x nb ind bs : (∀ a o, own !! a = Some (inum, o) → own' !! a = Some (inum, o) ∧ f' a = f a) →
  file_at f own inum x nb ind bs → file_at f' own' inum x nb ind bs.
Proof.
  intros H F. pose proof F as [F1 F2 F3 F4 F5 F6 F7]. apply (file_at_map f f' own own' inum x x nb nb ind ind bs); try done; [by auto|lia| |lia|].
  - intros bn _ _. apply addr_of_frame. intros Hi. destruct ind; [by apply (H _ _ F5)|by destruct F5].
  - destruct ind; [by apply H|done].
Qed.

(** ** New blocks *)

(** What happens to the file [inum] leaves the other files alone. *)
Record frame (inum : Z) (s : image) (own : owners) (s' : image) (own' : owners) : Prop := {
  fr_own : ∀ a o, own !! a = Some o → own' !! a = Some o;
  fr_blk : ∀ a j o, own !! a = Some (j, o) → j ≠ inum → blk s' a = blk s a;
  fr_meta : ∀ a, 0 <= a < nmeta → blk s' a = blk s a;
  fr_inode : m_freeinode s' = m_freeinode s
}.

Lemma frame_refl inum s own : frame inum s own s own.
Proof. done. Qed.

Lemma frame_trans inum s1 o1 s2 o2 s3 o3 : frame inum s1 o1 s2 o2 → frame inum s2 o2 s3 o3 → frame inum s1 o1 s3 o3.
Proof.
  intros [A1 A2 A3 A4] [B1 B2 B3 B4]. split; [auto| | |congruence].
  - intros a j o E Hj. rewrite (B2 a j o) by auto. by apply (A2 a j o).
  - intros a Ha. rewrite B3 by done. by apply A3.
Qed.

Definition bump (s : image) : image := mkImage (m_img s) (m_freeinode s) (m_freeblock s + 1).

Lemma wp_new_block s own (Q : Z → image → Prop) : disk_inv s own → m_freeblock s < FSSIZE → Q (m_freeblock s) (bump s) → wp new_block Q s.
Proof.
  intros D Hf HQ. pose proof (dk_free D) as Hr. rewrite nmeta_eq in Hr. unfold FSSIZE in *. unfold new_block. apply wp_bind, wp_gets, wp_bind, wp_modify, wp_ret.
  rewrite xint_id by lia. done.
Qed.

Lemma disk_bump s own o : disk_inv s own → m_freeblock s < FSSIZE →
  own !! m_freeblock s = None ∧ disk_inv (bump s) (<[m_freeblock s := o]> own) ∧ blk s (m_freeblock s) = zeroes.
Proof.
  intros [D1 D2 D3 D4] Hf. split_and!.
  - destruct (own !! m_freeblock s) eqn:E; [|done]. pose proof (D4 _ _ E). lia.
  - split; [done|simpl; lia|simpl; intros n Hn; apply D3; lia|]. intros a o'. rewrite lookup_insert_Some. simpl. intros [[<- _]|[_ E]]; [lia|]. pose proof (D4 _ _ E). lia.
  - apply D3. lia.
Qed.

Lemma frame_bump inum s own o : disk_inv s own → m_freeblock s < FSSIZE → frame inum s own (bump s) (<[m_freeblock s := (inum, o)]> own).
Proof.
  intros D Hf. destruct (disk_bump s own (inum, o) D Hf) as (E & _ & _). split; try done. intros a o' Ha. rewrite lookup_insert_ne by congruence. done.
Qed.

Lemma own_insert (own : owners) b o a o' : own !! b = None → own !! a = Some o' → <[b := o]> own !! a = Some o'.
Proof. intros E Ha. rewrite lookup_insert_ne by congruence. done. Qed.

Lemma put_addr_len i a x : length (i_addrs (put_addr i a x)) = length (i_addrs x).
Proof. apply length_insert. Qed.

Lemma put_addr_nth i a x j : length (i_addrs x) = 13%nat → 0 <= i <= 12 → 0 <= j →
  nth (Z.to_nat j) (i_addrs (put_addr i a x)) 0 = if j =? i then a else nth (Z.to_nat j) (i_addrs x) 0.
Proof.
  intros L Hi Hj. unfold put_addr. simpl. rewrite nth_insert by lia. case_decide as E.
  - rewrite (proj2 (Z.eqb_eq _ _)) by lia. done.
  - rewrite (proj2 (Z.eqb_neq _ _)) by lia. done.
Qed.

Lemma zeroes_get n o : 0 <= o → get n zeroes o = 0.
Proof.
  intros Ho. unfold get, sub. assert (Forall (λ b, b = 0) (take (Z.to_nat (Z.of_nat n)) (drop (Z.to_nat o) zeroes))) as F.
  { apply Forall_take, Forall_drop. apply Forall_replicate. done. }
  induction F as [|b l -> F IH]; [done|]. simpl. lia.
Qed.

Section Grow.
Variables (s : image) (own : owners) (inum : Z) (x : inode) (nb : Z) (bs : list Z).
Hypothesis D : disk_inv s own.
Hypothesis Hf : m_freeblock s < FSSIZE.
Abbreviation b := (m_freeblock s).

(** A direct block. *)
Lemma grow_direct : file_at (blk s) own inum x nb false bs → 0 <= nb < NDIRECT →
  file_at (blk (bump s)) (<[b := (inum, Some nb)]> own) inum (put_addr nb b x) (nb + 1) false bs ∧ addr_of (blk (bump s)) (put_addr nb b x) nb = b.
Proof using D Hf.
  intros F Hn. destruct (disk_bump s own (inum, Some nb) D Hf) as (E & _ & Hz). pose proof (fa_len F) as L. unfold NDIRECT in *.
  assert (∀ bn, 0 <= bn → addr_of (blk s) (put_addr nb b x) bn = if bn =? nb then b else addr_of (blk s) x bn) as A.
  { intros bn Hb. unfold addr_of, indirect, NDIRECT. rewrite !put_addr_nth by lia. rewrite (proj2 (Z.eqb_neq 12 nb)) by lia.
    destruct (Z.eqb_spec bn nb) as [->|]; [|done]. by rewrite (proj2 (Z.ltb_lt _ _)) by lia. }
  change (blk (bump s)) with (blk s). split; [|rewrite A, Z.eqb_refl by lia; done].
  eapply file_at_map; [exact F|by rewrite put_addr_len|intros a bn Ha; split; [by apply own_insert|done]|unfold MAXFILE, NDIRECT, NINDIRECT; lia| | |].
  - intros bn Hb Ho. rewrite A, (proj2 (Z.eqb_neq _ _)) by lia. done.
  - intros bn Hb. assert (bn = nb) as -> by lia. rewrite A, Z.eqb_refl, lookup_insert_eq by lia. done.
  - unfold indirect, NDIRECT. rewrite put_addr_nth by lia. rewrite (proj2 (Z.eqb_neq 12 nb)) by lia. split; [apply F|lia].
Qed.

(** The indirect block. *)
Lemma grow_indirect : file_at (blk s) own inum x nb false bs →
  file_at (blk (bump s)) (<[b := (inum, None)]> own) inum (put_addr NDIRECT b x) nb true bs ∧ indirect (put_addr NDIRECT b x) = b.
Proof using D Hf.
  intros F. destruct (disk_bump s own (inum, None) D Hf) as (E & _ & Hz). pose proof (fa_len F) as L. pose proof (fa_ind F) as [Hi Hnb]. pose proof (dk_free D) as Hb. rewrite nmeta_eq in Hb.
  assert (indirect (put_addr NDIRECT b x) = b) as Ei. { unfold indirect. rewrite put_addr_nth by (done || unfold NDIRECT; lia). by rewrite Z.eqb_refl. }
  change (blk (bump s)) with (blk s). split; [|done].
  eapply file_at_map; [exact F|by rewrite put_addr_len|intros a bn Ha; split; [by apply own_insert|done]|pose proof (fa_nb F); lia| |lia|].
  - intros bn Hb' _. unfold addr_of. rewrite Ei, Hi. rewrite (proj2 (Z.eqb_neq b 0)) by lia. cbn [Z.eqb].
    destruct (Z.ltb_spec bn NDIRECT); [rewrite put_addr_nth by (done || unfold NDIRECT in *; lia); by rewrite (proj2 (Z.eqb_neq _ _)) by lia|].
    unfold ind_entry. rewrite Hz. apply zeroes_get. lia.
  - by rewrite Ei, lookup_insert_eq.
Qed.

(** A block of the indirect block. *)
Definition with_entry : image := put_blk (indirect x) (put_32 (blk s (indirect x)) (4 * (nb - NDIRECT)) b) (bump s).

Lemma grow_entry : file_at (blk s) own inum x nb true bs → NDIRECT <= nb < MAXFILE →
  file_at (blk with_entry) (<[b := (inum, Some nb)]> own) inum x (nb + 1) true bs ∧ addr_of (blk with_entry) x nb = b ∧
  disk_inv with_entry (<[b := (inum, Some nb)]> own) ∧ frame inum s own with_entry (<[b := (inum, Some nb)]> own).
Proof using D Hf.
  intros F Hn. destruct (disk_bump s own (inum, Some nb) D Hf) as (E & Db & Hz). pose proof (fa_ind F) as Hi. cbn in Hi. pose proof (own_range _ _ _ _ D Hi) as Hr.
  pose proof (dk_own D _ _ Hi) as Hlt. pose proof (dk_free D) as Hb. rewrite nmeta_eq in *. set (d := blk s (indirect x)).
  assert (length d = 1024%nat) as Ld by (apply sized_len; [apply D|lia]). unfold MAXFILE, NDIRECT, NINDIRECT, FSSIZE in *.
  assert (∀ a, blk with_entry a = if a =? indirect x then put_32 d (4 * (nb - 12)) b else blk s a) as B by (intros a; unfold with_entry; by rewrite blk_put).
  assert (∀ bn, 0 <= bn < 268 → addr_of (blk with_entry) x bn = if bn =? nb then b else addr_of (blk s) x bn) as A.
  { intros bn Hbn. unfold addr_of, ind_entry, NDIRECT. rewrite (proj2 (Z.eqb_neq (indirect x) 0)) by lia. rewrite B, Z.eqb_refl.
    destruct (Z.ltb_spec bn 12); [by rewrite (proj2 (Z.eqb_neq bn nb)) by lia|]. destruct (Z.eqb_spec bn nb) as [->|Hne].
    - apply get_put_u32; lia.
    - apply get_put_out; fold d; lia. }
  split_and!.
  - eapply file_at_map; [exact F|apply F| |unfold MAXFILE, NDIRECT, NINDIRECT; lia| | |].
    + intros a bn Ha. split; [by apply own_insert|]. rewrite B, (proj2 (Z.eqb_neq _ _)) by congruence. done.
    + intros bn Hbn Ho. rewrite A, (proj2 (Z.eqb_neq _ _)) by (unfold MAXFILE, NDIRECT, NINDIRECT in *; lia). done.
    + intros bn Hbn. assert (bn = nb) as -> by lia. rewrite A, Z.eqb_refl, lookup_insert_eq by lia. split; [done|]. rewrite B, (proj2 (Z.eqb_neq _ _)) by lia. done.
    + by apply own_insert.
  - by rewrite A, Z.eqb_refl by lia.
  - destruct Db as [B1 B2 B3 B4]. split; [apply sized_put; [done|fold d; unfold NDIRECT; by rewrite length_put by lia]|done| |done].
    intros n Hnr. simpl in Hnr. rewrite B, (proj2 (Z.eqb_neq _ _)) by lia. apply (dk_zero D). unfold FSSIZE in *. lia.
  - split; [by intros a o Ha; apply own_insert| | |done].
    + intros a j o Ha Hj. rewrite B, (proj2 (Z.eqb_neq _ _)) by congruence. done.
    + intros a Ha. rewrite nmeta_eq in Ha. rewrite B, (proj2 (Z.eqb_neq _ _)) by lia. done.
Qed.
End Grow.

(** ** Appending to a file *)

(** The blocks that a file with [nb] blocks takes. *)
Definition cost (nb : Z) : Z := nb + if NDIRECT <? nb then 1 else 0.

(** The file [inum] went from [nb] to [nb'] blocks. *)
Record grown (inum : Z) (s : image) (own : owners) (x : inode) (nb : Z) (s' : image) (own' : owners) (x' : inode) (nb' : Z) : Prop := {
  gr_disk : disk_inv s' own';
  gr_frame : frame inum s own s' own';
  gr_meta : x' = set_iaddrs (i_addrs x') x;
  gr_free : m_freeblock s' = m_freeblock s + cost nb' - cost nb
}.

Lemma grown_refl inum s own x nb : disk_inv s own → grown inum s own x nb s own x nb.
Proof. intros D. split; [done|done|by destruct x|lia]. Qed.

Lemma grown_trans inum s1 o1 x1 n1 s2 o2 x2 n2 s3 o3 x3 n3 :
  grown inum s1 o1 x1 n1 s2 o2 x2 n2 → grown inum s2 o2 x2 n2 s3 o3 x3 n3 → grown inum s1 o1 x1 n1 s3 o3 x3 n3.
Proof.
  intros [A1 A2 A3 A4] [B1 B2 B3 B4]. split; [done|by eapply frame_trans| |lia]. rewrite B3, A3. done.
Qed.

Lemma file_addr s own inum x nb ind bs bn : disk_inv s own → file_at (blk s) own inum x nb ind bs → 0 <= bn < nb →
  46 <= addr_of (blk s) x bn < FSSIZE.
Proof. intros D F Hb. eapply own_range; [exact D|]. by apply (fa_map F). Qed.

Lemma indirect_addr s own inum x nb bs : disk_inv s own → file_at (blk s) own inum x nb true bs → 46 <= indirect x < FSSIZE.
Proof. intros D F. eapply own_range; [exact D|]. apply (fa_ind F). Qed.

Lemma addr_of_entry f x bn : NDIRECT <= bn → indirect x ≠ 0 → addr_of f x bn = get_u32 (f (indirect x)) (4 * (bn - NDIRECT)).
Proof. intros Hb Hi. unfold addr_of. rewrite (proj2 (Z.ltb_ge _ _)), (proj2 (Z.eqb_neq _ _)) by done. done. Qed.

(** The block that [iappend] goes on with. *)
Definition block_for inum s own x nb bs fbn (r : inode * Z) (s' : image) : Prop :=
  let nb' := Z.max nb (fbn + 1) in
  ∃ own', grown inum s own x nb s' own' r.1 nb' ∧ file_at (blk s') own' inum r.1 nb' (NDIRECT <? nb') bs ∧ r.2 = addr_of (blk s') r.1 fbn.

Lemma iappend_entry_old s own inum x nb bs fbn : disk_inv s own → file_at (blk s) own inum x nb true bs → NDIRECT <= fbn < nb →
  wp (iappend_entry x fbn) (block_for inum s own x nb bs fbn) s.
Proof.
  intros D F Hb. pose proof (indirect_addr _ _ _ _ _ _ D F) as Hi. pose proof (file_addr _ _ _ _ _ _ _ fbn D F ltac:(unfold NDIRECT in *; lia)) as Ha.
  unfold iappend_entry. change (addr x NDIRECT) with (indirect x). unfold FSSIZE in Hi. rewrite xint_id by lia. apply wp_bind, wp_rsect; [apply D|unfold FSSIZE; lia|].
  rewrite <- addr_of_entry by lia. unfold FSSIZE in Ha. rewrite (proj2 (Z.eqb_neq _ _)), xint_id by lia. apply wp_ret.
  exists own. cbn [fst snd]. rewrite Z.max_l by lia. rewrite (proj2 (Z.ltb_lt _ _)) by lia. split; [by apply grown_refl|done].
Qed.

Lemma iappend_entry_new s own inum x nb bs : disk_inv s own → m_freeblock s < FSSIZE → file_at (blk s) own inum x nb true bs → NDIRECT <= nb < MAXFILE →
  wp (iappend_entry x nb) (λ r s', ∃ own', r.1 = x ∧ disk_inv s' own' ∧ frame inum s own s' own' ∧ m_freeblock s' = m_freeblock s + 1 ∧
    file_at (blk s') own' inum x (nb + 1) true bs ∧ r.2 = addr_of (blk s') x nb) s.
Proof.
  intros D Hf F Hn. pose proof (indirect_addr _ _ _ _ _ _ D F) as Hi. destruct (grow_entry s own inum x nb bs D Hf F Hn) as (F' & A & D' & Fr).
  unfold iappend_entry. change (addr x NDIRECT) with (indirect x). pose proof Hi as Hi'. unfold FSSIZE in Hi'. rewrite xint_id by lia. apply wp_bind, wp_rsect; [apply D|lia|].
  rewrite <- addr_of_entry by lia. rewrite (fa_unmap F) by lia. cbn [Z.eqb]. apply wp_bind, (wp_new_block s own); [done|done|].
  apply wp_bind, wp_wsect; [lia|]. apply wp_ret. fold (with_entry s x nb). exists (<[m_freeblock s := (inum, Some nb)]> own). cbn [fst snd].
  split_and!; try done. rewrite A. pose proof (dk_free D) as Hb. rewrite nmeta_eq in Hb. unfold FSSIZE, MAXFILE, NDIRECT, NINDIRECT in *.
  rewrite get_put_u32; [apply xint_id; lia|lia| |lia]. rewrite sized_len; [lia|apply D|unfold FSSIZE; lia].
Qed.

Lemma block_for_new inum s own x nb bs s' own' x' : nb < MAXFILE → grown inum s own x nb s' own' x' (nb + 1) →
  file_at (blk s') own' inum x' (nb + 1) (NDIRECT <? nb + 1) bs → ∀ b, b = addr_of (blk s') x' nb → block_for inum s own x nb bs nb (x', b) s'.
Proof. intros Hn G F b Hb. exists own'. cbn [fst snd]. by rewrite Z.max_r by lia. Qed.

Lemma iappend_block_new s own inum x nb bs : disk_inv s own → file_at (blk s) own inum x nb (NDIRECT <? nb) bs → nb < MAXFILE →
  m_freeblock s + cost (nb + 1) - cost nb <= FSSIZE → wp (iappend_block x nb) (block_for inum s own x nb bs nb) s.
Proof.
  intros D F Hm Hc. pose proof (fa_nb F) as Hnb. pose proof (dk_free D) as Hb. unfold iappend_block. unfold cost in Hc.
  destruct (Z.ltb_spec nb NDIRECT) as [Hd|Hd].
  - rewrite !(proj2 (Z.ltb_ge NDIRECT _)) in * by lia. replace (addr x nb) with (addr_of (blk s) x nb) by (unfold addr_of; by rewrite (proj2 (Z.ltb_lt _ _))).
    rewrite (fa_unmap F) by lia. cbn [Z.eqb]. apply wp_bind, (wp_new_block s own); [done|lia|]. apply wp_ret.
    destruct (grow_direct s own inum x nb bs D ltac:(lia) F ltac:(lia)) as [F' A]. destruct (disk_bump s own (inum, Some nb) D ltac:(lia)) as (_ & D' & _).
    eapply block_for_new; [done| |by rewrite (proj2 (Z.ltb_ge NDIRECT _)) by lia|].
    + split; [done|apply frame_bump; [done|lia]|done|]. unfold cost. rewrite !(proj2 (Z.ltb_ge NDIRECT _)) by lia. simpl. lia.
    + rewrite A. unfold FSSIZE in *. rewrite nmeta_eq in *. apply xint_id. lia.
  - rewrite (proj2 (Z.ltb_lt NDIRECT (nb + 1))) in Hc by lia. change (addr x NDIRECT) with (indirect x). destruct (Z.ltb_spec NDIRECT nb) as [Hi|Hi].
    + pose proof (indirect_addr _ _ _ _ _ _ D F) as Hr. unfold FSSIZE in Hr. rewrite xint_0, (proj2 (Z.eqb_neq _ _)) by lia. apply wp_bind, wp_ret.
      eapply wp_mono; [apply (iappend_entry_new s own inum x nb bs); [done|lia|done|lia]|]. intros [x' b] s' (own' & Ex & D' & Fr & Hfr & F' & Eb). cbn [fst snd] in *. subst x'.
      eapply block_for_new; [done| |by rewrite (proj2 (Z.ltb_lt NDIRECT _)) by lia|done]. split; [done|done|by destruct x|]. unfold cost. rewrite !(proj2 (Z.ltb_lt NDIRECT _)) by lia. lia.
    + pose proof (fa_ind F) as [Ei _]. rewrite Ei. cbn [Z.eqb]. apply wp_bind, wp_bind, (wp_new_block s own); [done|lia|]. apply wp_ret.
      destruct (grow_indirect s own inum x nb bs D ltac:(lia) F) as [F1 E1]. destruct (disk_bump s own (inum, None) D ltac:(lia)) as (_ & D1 & _).
      pose proof (frame_bump inum s own None D ltac:(lia)) as Fr1. set (x1 := put_addr NDIRECT (m_freeblock s) x) in *. set (own1 := <[m_freeblock s := (inum, None)]> own) in *.
      eapply wp_mono; [apply (iappend_entry_new (bump s) own1 inum x1 nb bs); [done|simpl; lia|done|lia]|]. intros [x' b] s' (own' & Ex & D' & Fr & Hfr & F' & Eb). cbn [fst snd] in *. subst x'.
      eapply block_for_new; [done| |by rewrite (proj2 (Z.ltb_lt NDIRECT _)) by lia|done]. split; [done|by eapply frame_trans|done|]. unfold cost. rewrite (proj2 (Z.ltb_lt NDIRECT _)), (proj2 (Z.ltb_ge NDIRECT _)) by lia.
      simpl in Hfr. lia.
Qed.

Lemma iappend_block_spec s own inum x nb bs fbn : disk_inv s own → file_at (blk s) own inum x nb (NDIRECT <? nb) bs → 0 <= fbn < MAXFILE → fbn <= nb →
  m_freeblock s + cost (Z.max nb (fbn + 1)) - cost nb <= FSSIZE → wp (iappend_block x fbn) (block_for inum s own x nb bs fbn) s.
Proof.
  intros D F Hb Hn Hc. destruct (decide (fbn = nb)) as [->|Hne]; [rewrite Z.max_r in Hc by lia; by apply iappend_block_new; try lia|].
  pose proof (file_addr _ _ _ _ _ _ _ fbn D F ltac:(lia)) as Ha. unfold FSSIZE in Ha. unfold iappend_block. destruct (Z.ltb_spec fbn NDIRECT) as [Hd|Hd].
  - assert (addr x fbn = addr_of (blk s) x fbn) as -> by (unfold addr_of; by rewrite (proj2 (Z.ltb_lt _ _))). rewrite xint_id, (proj2 (Z.eqb_neq _ _)) by lia. apply wp_ret.
    exists own. cbn [fst snd]. rewrite Z.max_l by lia. split; [by apply grown_refl|done].
  - rewrite (proj2 (Z.ltb_lt NDIRECT nb)) in F by lia. pose proof (indirect_addr _ _ _ _ _ _ D F) as Hr. unfold FSSIZE in Hr. change (addr x NDIRECT) with (indirect x).
    rewrite xint_0, (proj2 (Z.eqb_neq _ _)) by lia. apply wp_bind, wp_ret. apply iappend_entry_old; [done|done|lia].
Qed.

(** ** Writing the bytes *)

Lemma nth_splice (d c : list Z) o i : fits_in d o c →
  nth i (splice d o c) 0 = if decide (o <= Z.of_nat i < o + Z.of_nat (length c)) then nth (i - Z.to_nat o) c 0 else nth i d 0.
Proof. intros Hf. rewrite !nth_lookup, lookup_splice by done. by case_decide. Qed.

Lemma file_at_write (f f' : Z → block) own inum x nb ind bs c : let off := Z.of_nat (length bs) in let fbn := off / BSIZE in
  file_at f own inum x nb ind bs → (∀ a o, own !! a = Some o → a ≠ 0 ∧ length (f a) = 1024%nat) → fbn < nb →
  off - fbn * BSIZE + Z.of_nat (length c) <= BSIZE →
  (∀ a, f' a = if a =? addr_of f x fbn then splice (f a) (off - fbn * BSIZE) c else f a) →
  file_at f' own inum x nb ind (bs ++ c).
Proof.
  intros off fbn F Ha Hn Hc Hf. pose proof F as [F1 F2 F3 F4 F5 F6 F7]. pose proof (F3 fbn ltac:(unfold BSIZE in *; lia)) as Hb. destruct (Ha _ _ Hb) as [Hb0 Hbl].
  assert (∀ bn, addr_of f' x bn = addr_of f x bn) as E.
  { intros bn. apply addr_of_frame. intros Hi. rewrite Hf, (proj2 (Z.eqb_neq _ _)); [done|]. destruct ind; [congruence|by destruct F5]. }
  split; try done.
  - intros bn Hbn. rewrite E. by apply F3.
  - intros bn Hbn. rewrite E. by apply F4.
  - rewrite length_app, Nat2Z.inj_add. fold off. unfold BSIZE in *. lia.
  - intros i Hi. specialize (F7 i Hi). unfold fbyte in *. rewrite E, Hf. destruct (Z.eqb_spec (addr_of f x (i / BSIZE)) 0) as [Hz|Hz].
    + assert (nb <= i / BSIZE) by (destruct (decide (i / BSIZE < nb)); [|lia]; unfold BSIZE in *; pose proof (F3 (i / 1024) ltac:(lia)) as Ho; by destruct (Ha _ _ Ho)).
      rewrite nth_overflow; [done|]. rewrite length_app. unfold BSIZE in *. lia.
    + destruct (decide (i / BSIZE = fbn)) as [Eb|Nb].
      * rewrite Eb, Z.eqb_refl, nth_splice by (split; unfold BSIZE in *; lia). rewrite Eb in F7. case_decide as Hin.
        -- rewrite app_nth2 by (unfold BSIZE in *; lia). f_equal. unfold BSIZE in *. lia.
        -- rewrite F7. destruct (decide (i < off)); [by rewrite app_nth1 by lia|]. rewrite !nth_overflow; [done|rewrite length_app|]; unfold BSIZE in *; lia.
      * rewrite (proj2 (Z.eqb_neq _ _)).
        -- rewrite F7. destruct (decide (i < off)); [by rewrite app_nth1 by lia|]. rewrite !nth_overflow; [done|rewrite length_app|]; unfold BSIZE in *; lia.
        -- intros Ea. destruct (decide (i / BSIZE < nb)); [|by rewrite F4 in Hz by (unfold BSIZE, MAXFILE, NDIRECT, NINDIRECT in *; lia)].
           assert (0 <= i / BSIZE) by (unfold BSIZE; lia). rewrite <- Ea, F3 in Hb by lia. congruence.
Qed.

(** Writing one of the blocks of the file. *)
Lemma disk_write s own inum a o d : disk_inv s own → own !! a = Some (inum, o) → length d = 1024%nat →
  disk_inv (put_blk a d s) own ∧ frame inum s own (put_blk a d s) own.
Proof.
  intros [D1 D2 D3 D4] Ha Hd. pose proof (D4 _ _ Ha) as Hr. split; split; try done.
  - by apply sized_put.
  - intros n Hn. simpl in Hn. rewrite blk_put, (proj2 (Z.eqb_neq _ _)) by lia. by apply D3.
  - intros a' j o' Ha' Hj. rewrite blk_put, (proj2 (Z.eqb_neq _ _)) by congruence. done.
  - intros a' Ha'. rewrite blk_put, (proj2 (Z.eqb_neq _ _)) by lia. done.
Qed.

(** The blocks of [n] bytes. *)
Definition blocks (n : Z) : Z := (n + BSIZE - 1) / BSIZE.

Lemma cost_mono n m : n <= m → cost n <= cost m.
Proof. intros. unfold cost. destruct (Z.ltb_spec NDIRECT n), (Z.ltb_spec NDIRECT m); lia. Qed.

(** The file [inum], as the image has it when nothing is being appended. *)
Abbreviation at_rest s own inum x bs :=
  (file_at (blk s) own inum x (blocks (Z.of_nat (length bs))) (NDIRECT <? blocks (Z.of_nat (length bs))) bs).
Abbreviation appended inum s own x bs s' own' x' bs' :=
  (grown inum s own x (blocks (Z.of_nat (length bs))) s' own' x' (blocks (Z.of_nat (length bs')))).

(** One block of it. *)
Lemma iappend_step s own inum x bs c : disk_inv s own → at_rest s own inum x bs → c ≠ [] →
  let off := Z.of_nat (length bs) in let fbn := off / BSIZE in
  off - fbn * BSIZE + Z.of_nat (length c) <= BSIZE → fbn < MAXFILE →
  m_freeblock s + cost (blocks (Z.of_nat (length (bs ++ c)))) - cost (blocks off) <= FSSIZE →
  ∀ A (k : inode → M image A) Q,
  (∀ x' s' own', appended inum s own x bs s' own' x' (bs ++ c) → at_rest s' own' inum x' (bs ++ c) → wp (k x') Q s') →
  wp (let! (din, a) := iappend_block x fbn in let! buf := rsect a in wsect a (splice buf (off - fbn * BSIZE) c) ;; k din) Q s.
Proof.
  intros D F Hc off fbn Hl Hm Hcost A k Q Hk. assert (0 < length c)%nat as Hc0 by (destruct c; [done|simpl; lia]). rewrite length_app, Nat2Z.inj_add in Hcost. fold off in Hcost.
  assert (Z.max (blocks off) (fbn + 1) = blocks (off + Z.of_nat (length c))) as En by (unfold blocks, BSIZE in *; lia).
  eapply wp_step; [apply (iappend_block_spec s own inum x (blocks off) bs fbn); [done|done|unfold BSIZE in *; lia|unfold blocks, BSIZE in *; lia|by rewrite En]|].
  intros [x' a] s1 (own' & G & F1 & Ea). cbn [fst snd] in *. rewrite En in *. set (nb := blocks (off + Z.of_nat (length c))) in *.
  assert (0 <= fbn < nb) as Hfb by (unfold nb, blocks, BSIZE in *; lia). pose proof (gr_disk _ _ _ _ _ _ _ _ _ G) as D1.
  pose proof (fa_map F1 fbn Hfb) as Ho. rewrite <- Ea in Ho. pose proof (own_range _ _ _ _ D1 Ho) as Hr.
  assert (∀ a o, own' !! a = Some o → a ≠ 0 ∧ length (blk s1 a) = 1024%nat) as Hown.
  { intros a' o' Ha'. pose proof (own_range _ _ _ _ D1 Ha'). split; [lia|]. apply sized_len; [apply D1|lia]. }
  apply wp_bind, wp_rsect; [apply D1|lia|]. apply wp_bind, wp_wsect; [lia|].
  destruct (disk_write s1 own' inum a (Some fbn) (splice (blk s1 a) (off - fbn * BSIZE) c)) as [D2 Fr2]; [done|done| |].
  { rewrite length_splice; [by eapply Hown|]. split; [unfold BSIZE in *; lia|]. rewrite (proj2 (Hown _ _ Ho)). unfold BSIZE in *. lia. }
  apply (Hk _ _ own'); rewrite length_app, Nat2Z.inj_add; fold off nb; destruct G as [_ G2 G3 G4]; [split; [done|by eapply frame_trans|done|done]|].
  eapply (file_at_write (blk s1)); [exact F1|exact Hown|unfold off in *; lia|done|]. intros a'. rewrite blk_put. fold off fbn. rewrite <- Ea. by destruct (Z.eqb_spec a' a) as [->|].
Qed.

Lemma iappend_loop_spec fuel : ∀ s own inum x bs p, disk_inv s own → at_rest s own inum x bs →
  let off := Z.of_nat (length bs) in
  Z.of_nat (length (bs ++ p)) <= MAXFILE * BSIZE → (p = [] ∧ (1 <= fuel)%nat) ∨ off mod BSIZE + Z.of_nat (length p) <= BSIZE * (Z.of_nat fuel - 1) →
  m_freeblock s + cost (blocks (Z.of_nat (length (bs ++ p)))) - cost (blocks off) <= FSSIZE →
  wp (iappend_loop fuel x off p) (λ r s', ∃ own', appended inum s own x bs s' own' r.1 (bs ++ p) ∧ at_rest s' own' inum r.1 (bs ++ p) ∧
    r.2 = Z.of_nat (length (bs ++ p))) s.
Proof.
  induction fuel as [|fuel IH]; intros s own inum x bs p D F off Hm Hf Hc; [destruct Hf as [[_ ?]|?]; unfold BSIZE in *; lia|]. cbn [iappend_loop].
  destruct (decide (p = [])) as [->|Hp].
  { rewrite bool_decide_eq_true_2 by done. apply wp_ret. exists own. rewrite app_nil_r. split_and!; [by apply grown_refl|done|done]. }
  rewrite bool_decide_eq_false_2 by done. set (fbn := off / BSIZE). rewrite length_app, Nat2Z.inj_add in Hm, Hc. fold off in Hm, Hc.
  assert (0 < length p)%nat as Hp0 by (destruct p; [done|simpl; lia]). destruct Hf as [[? _]|Hf]; [done|]. rewrite (proj2 (Z.ltb_lt _ _)) by (unfold fbn, MAXFILE, NDIRECT, NINDIRECT, BSIZE in *; lia). cbn [negb].
  set (n1 := Z.min (Z.of_nat (length p)) ((fbn + 1) * BSIZE - off)). assert (0 < n1 <= Z.of_nat (length p)) as Hn1 by (unfold n1, fbn, BSIZE; lia).
  assert (length (take (Z.to_nat n1) p) = Z.to_nat n1) as Lt by (rewrite length_take; lia).
  assert (length (drop (Z.to_nat n1) p) = length p - Z.to_nat n1)%nat as Ld by apply length_drop.
  assert (bs ++ p = (bs ++ take (Z.to_nat n1) p) ++ drop (Z.to_nat n1) p) as Ep by (by rewrite <- app_assoc, take_drop).
  assert (Z.of_nat (length (bs ++ take (Z.to_nat n1) p)) = off + n1) as Lb by (rewrite length_app, Lt; lia).
  assert (cost (blocks (off + n1)) <= cost (blocks (off + Z.of_nat (length p)))) as Hcm by (apply cost_mono; unfold blocks, BSIZE; lia).
  apply (iappend_step s own inum x bs (take (Z.to_nat n1) p)); fold off; [done|done|intros E; rewrite E in Lt; simpl in Lt; lia| | | |].
  - rewrite Lt. fold fbn. unfold n1. lia.
  - unfold MAXFILE, NDIRECT, NINDIRECT, BSIZE in *. lia.
  - rewrite Lb. lia.
  - intros x' s' own' G F'. pose proof (gr_free _ _ _ _ _ _ _ _ _ G) as Hfr. rewrite Lb in Hfr. fold off in Hfr.
    eapply wp_mono; [rewrite <- Lb; apply (IH s' own' inum x' (bs ++ take (Z.to_nat n1) p)); [apply G|done| | |]|].
    + rewrite <- Ep, length_app. lia.
    + destruct (decide (n1 = Z.of_nat (length p))) as [En|En]; [left; split; [apply nil_length_inv; lia|unfold BSIZE in *; lia]|right].
      rewrite Lb, Ld. unfold n1, fbn, BSIZE in *. lia.
    + rewrite <- Ep, Lb, length_app, Nat2Z.inj_add. fold off. lia.
    + rewrite <- Ep. intros r s2 (own2 & G2 & F2 & E2). exists own2. split; [by eapply grown_trans|done].
Qed.
