(* ===== verification/MkfsImage.v ===== *)
(** * The image as a list of files (mkfs/mkfs.c)

    What each function of the image builder does to the list of the files that the
    image stands for. *)

From S2P Require Import Prelude Spinlock Block Fs FsSpec FsFile FsInode Mkfs MkfsSpec.

#[local] Ltac Zify.zify_post_hook ::= Z.to_euclidean_division_equations.

(** ** Inodes *)

Definition dino (s : image) (inum : Z) : inode := decode_dinode (blk s (IBLOCK inum sb)) (DOFF inum) inode0.

Lemma IBLOCK_eq inum : 0 <= inum < NINODES → IBLOCK inum sb = inum / 16 + 32.
Proof. unfold NINODES. intros. unfold IBLOCK, IPB. change (sb_inodestart sb) with 32. apply (wrap_small 32). lia. Qed.

Lemma IBLOCK_range inum : 0 <= inum < NINODES → 32 <= IBLOCK inum sb < 45.
Proof. intros H. rewrite IBLOCK_eq by done. unfold NINODES in H. lia. Qed.

(** The inode [inum] was written, and nothing else changed. *)
Record iwritten (inum : Z) (x : inode) (s s' : image) : Prop := {
  iw_self : dino s' inum = meta x inode0;
  iw_other : ∀ j, 0 <= j < NINODES → j ≠ inum → dino s' j = dino s j;
  iw_blk : ∀ a, a < 32 ∨ 45 <= a → blk s' a = blk s a;
  iw_sized : sized s';
  iw_free : m_freeblock s' = m_freeblock s;
  iw_inode : m_freeinode s' = m_freeinode s
}.

Lemma winode_spec inum x s : sized s → 0 <= inum < NINODES → dinode_range x → wp (winode inum x) (λ _ s', iwritten inum x s s') s.
Proof.
  intros Hs Hi R. pose proof (IBLOCK_range inum Hi) as Hb. pose proof (DOFF_range inum) as Hd. set (n := IBLOCK inum sb) in *.
  assert (length (blk s n) = 1024%nat) as Hl by (apply sized_len; [done|unfold FSSIZE; lia]).
  unfold winode. fold n. apply wp_bind, wp_rsect; [done|unfold FSSIZE; lia|]. apply wp_wsect; [unfold FSSIZE; lia|].
  split; try done.
  - unfold dino. fold n. rewrite blk_put, Z.eqb_refl. apply decode_encode; [done|lia|lia].
  - intros j Hj Hne. unfold dino. rewrite blk_put. destruct (Z.eqb_spec (IBLOCK j sb) n) as [E|]; [|done]. rewrite E.
    pose proof (DOFF_range j). apply decode_encode_out; [by apply R|lia|lia|lia|]. apply (DOFF_inj sb j inum); [unfold NINODES in *; lia..|done|done].
  - intros a Ha. rewrite blk_put, (proj2 (Z.eqb_neq _ _)) by lia. done.
  - apply sized_put; [done|]. rewrite encode_splice; [|by apply R|lia|lia]. pose proof (length_dinode_bytes x (dr_len _ R)).
    rewrite length_splice; [done|]. split; lia.
Qed.

Lemma rinode_spec inum s (Q : inode → image → Prop) : sized s → 0 <= inum < NINODES → Q (dino s inum) s → wp (rinode inum) Q s.
Proof.
  intros Hs Hi HQ. pose proof (IBLOCK_range inum Hi). unfold rinode. apply wp_bind, wp_rsect; [done|unfold FSSIZE; lia|]. by apply wp_ret.
Qed.

(** ** Files *)

(** The file [inum] of the image, of type [t], holds [bs]. *)
Record file_is (s : image) (own : owners) (inum t : Z) (bs : list Z) : Prop := {
  fi_type : i_type (dino s inum) = t;
  fi_major : i_major (dino s inum) = 0;
  fi_minor : i_minor (dino s inum) = 0;
  fi_nlink : i_nlink (dino s inum) = 1;
  fi_size : i_size (dino s inum) = Z.of_nat (length bs);
  fi_file : at_rest s own inum (dino s inum) bs
}.

Abbreviation files := (list (Z * list Z)).
Definition total (fl : files) : Z := foldr Z.add 0 ((λ e, cost (blocks (Z.of_nat (length e.2)))) <$> fl).

Record image_ok (s : image) (own : owners) (fl : files) : Prop := {
  io_disk : disk_inv s own;
  io_inode : m_freeinode s = 1 + Z.of_nat (length fl);
  io_count : 1 + Z.of_nat (length fl) <= NINODES;
  io_file : ∀ k t bs, fl !! k = Some (t, bs) → 0 <= t < 2 ^ 15 ∧ file_is s own (1 + Z.of_nat k) t bs;
  io_ifree : ∀ j, 1 + Z.of_nat (length fl) <= j < NINODES → i_type (dino s j) = 0;
  io_free : m_freeblock s = nmeta + total fl;
  io_sb : blk s 1 = splice zeroes 0 (sb_bytes sb);
  io_log : ∀ a, 2 <= a < 32 → blk s a = zeroes
}.
Arguments io_disk {_ _ _}. Arguments io_inode {_ _ _}. Arguments io_count {_ _ _}. Arguments io_file {_ _ _}.
Arguments io_ifree {_ _ _}. Arguments io_free {_ _ _}. Arguments io_sb {_ _ _}. Arguments io_log {_ _ _}.

Lemma files_total_app fl gl : total (fl ++ gl) = total fl + total gl.
Proof. unfold total. induction fl as [|e fl IH]; [done|]. cbn [app fmap list_fmap foldr] in *. rewrite IH. lia. Qed.

Lemma total_insert fl k e e' : fl !! k = Some e →
  total (<[k := e']> fl) = total fl + cost (blocks (Z.of_nat (length e'.2))) - cost (blocks (Z.of_nat (length e.2))).
Proof.
  intros E. rewrite <- (take_drop_middle fl k e E) at 2. rewrite insert_take_drop by (by eapply lookup_lt_Some). rewrite !files_total_app. unfold total. simpl. lia.
Qed.

Lemma file_range s own inum x nb bs : disk_inv s own → file_at (blk s) own inum x nb (NDIRECT <? nb) bs → Forall (λ a, 0 <= a < 2 ^ 32) (i_addrs x).
Proof.
  intros D F. apply Forall_lookup. intros i a Ha. assert (i < 13)%nat as Hi by (rewrite <- (fa_len F); by eapply lookup_lt_Some).
  assert (nth i (i_addrs x) 0 = a) as En by (rewrite nth_lookup, Ha; done). destruct (decide (i = 12%nat)) as [->|Hne].
  - change (nth 12 (i_addrs x) 0) with (indirect x) in En. pose proof (fa_ind F) as Hi'. destruct (NDIRECT <? nb); [|lia].
    pose proof (own_range _ _ _ _ D Hi'). unfold FSSIZE in *. lia.
  - assert (addr_of (blk s) x (Z.of_nat i) = a) as Ea. { unfold addr_of. rewrite (proj2 (Z.ltb_lt _ _)) by (unfold NDIRECT; lia). by rewrite Nat2Z.id. }
    destruct (decide (Z.of_nat i < nb)); [|rewrite (fa_unmap F) in Ea by (unfold MAXFILE, NDIRECT, NINDIRECT; lia); lia].
    pose proof (file_addr _ _ _ _ _ _ _ (Z.of_nat i) D F ltac:(lia)) as Hr. unfold FSSIZE in Hr. lia.
Qed.

(** A disk that differs in the blocks of inodes only. *)
Lemma disk_iwritten s s' own inum x : iwritten inum x s s' → disk_inv s own → disk_inv s' own.
Proof.
  intros W [D1 D2 D3 D4]. split; [apply W| | |]; rewrite ?(iw_free _ _ _ _ W); try done. intros n Hn. rewrite nmeta_eq in D2. rewrite (iw_blk _ _ _ _ W) by lia. by apply D3.
Qed.

Lemma file_at_iwritten s s' own inum x j y nb ind bs : iwritten inum x s s' → disk_inv s own →
  file_at (blk s) own j y nb ind bs → file_at (blk s') own j y nb ind bs.
Proof.
  intros W D. apply file_at_frame. intros a o Ha. pose proof (own_range _ _ _ _ D Ha). split; [done|]. apply (iw_blk _ _ _ _ W). lia.
Qed.

(** ** Appending *)

Lemma dino_frame s s' own own' inum j : frame inum s own s' own' → 0 <= j < NINODES → dino s' j = dino s j.
Proof. intros F Hj. pose proof (IBLOCK_range j Hj). unfold dino. rewrite (fr_meta _ _ _ _ _ F); [done|]. rewrite nmeta_eq. lia. Qed.

Lemma file_at_other s s' own own' inum j x nb ind bs : frame inum s own s' own' → j ≠ inum →
  file_at (blk s) own j x nb ind bs → file_at (blk s') own' j x nb ind bs.
Proof. intros F Hj. apply file_at_frame. intros a o Ha. split; [by apply F|]. by apply (fr_blk _ _ _ _ _ F a j o). Qed.

(** The file [inum] has new contents and the inode [x], and the other files stay. *)
Lemma image_ok_write s own fl s1 own1 s2 inum k t bs bs' x : image_ok s own fl → fl !! k = Some (t, bs) → inum = 1 + Z.of_nat k →
  disk_inv s1 own1 → frame inum s own s1 own1 → m_freeblock s1 = m_freeblock s + cost (blocks (Z.of_nat (length bs'))) - cost (blocks (Z.of_nat (length bs))) →
  at_rest s1 own1 inum x bs' → iwritten inum x s1 s2 →
  i_type x = t → i_major x = 0 → i_minor x = 0 → i_nlink x = 1 → i_size x = Z.of_nat (length bs') → image_ok s2 own1 (<[k := (t, bs')]> fl).
Proof.
  intros [I1 I2 I3 I4 I5 I6 I7 I8] Hk -> D1 Fr Hfr F1 W Ht Hma Hmi Hn Hsz. pose proof (lookup_lt_Some _ _ _ Hk) as Hlt.
  split; rewrite ?length_insert; try done.
  - by eapply disk_iwritten.
  - by rewrite (iw_inode _ _ _ _ W), (fr_inode _ _ _ _ _ Fr).
  - intros j t' bs2 Hj. destruct (decide (j = k)) as [->|Hne].
    + rewrite list_lookup_insert_eq in Hj by done. injection Hj as <- <-. split; [by apply (I4 k t bs)|]. split; rewrite (iw_self _ _ _ _ W); try done.
      eapply file_at_meta; [|by eapply file_at_iwritten]. done.
    + rewrite list_lookup_insert_ne in Hj by done. destruct (I4 j t' bs2 Hj) as [Hr [J1 J2 J3 J4 J5 J6]]. pose proof (lookup_lt_Some _ _ _ Hj). split; [done|].
      assert (dino s2 (1 + Z.of_nat j) = dino s (1 + Z.of_nat j)) as Ed by (rewrite (iw_other _ _ _ _ W) by lia; eapply dino_frame; [done|lia]).
      split; rewrite ?Ed; try done. eapply file_at_iwritten; [done|done|]. eapply file_at_other; [done|lia|done].
  - intros j Hj. rewrite (iw_other _ _ _ _ W) by lia. rewrite (dino_frame s s1 own own1 (1 + Z.of_nat k)) by (done || lia). by apply I5.
  - rewrite (iw_free _ _ _ _ W), (total_insert _ _ _ _ Hk). simpl. lia.
  - rewrite (iw_blk _ _ _ _ W), (fr_meta _ _ _ _ _ Fr) by (rewrite ?nmeta_eq; lia). done.
  - intros a Ha. rewrite (iw_blk _ _ _ _ W), (fr_meta _ _ _ _ _ Fr) by (rewrite ?nmeta_eq; lia). by apply I8.
Qed.

Lemma iappend_spec inum k t bs p s own fl : image_ok s own fl → fl !! k = Some (t, bs) → inum = 1 + Z.of_nat k →
  Z.of_nat (length (bs ++ p)) <= MAXFILE * BSIZE → nmeta + total (<[k := (t, bs ++ p)]> fl) <= FSSIZE →
  wp (iappend inum p) (λ _ s', ∃ own', image_ok s' own' (<[k := (t, bs ++ p)]> fl)) s.
Proof.
  intros I Hk Ei Hm Hc. pose proof (lookup_lt_Some _ _ _ Hk) as Hlt. pose proof (io_count I) as Hcnt. destruct (io_file I k t bs Hk) as [Ht [J1 J2 J3 J4 J5 J6]].
  pose proof (io_free I) as Hfree. rewrite (total_insert _ _ _ _ Hk) in Hc. simpl in Hc. rewrite <- Ei in *. set (x := dino s inum) in *.
  unfold iappend. apply wp_bind, rinode_spec; [apply (io_disk I)|lia|]. fold x. unfold MAXFILE, NDIRECT, NINDIRECT, BSIZE in Hm. rewrite length_app in Hm.
  rewrite J5, xint_id by lia. eapply wp_step; [apply (iappend_loop_spec (blocks_fuel (Z.of_nat (length p))) s own inum x bs p)|].
  - apply I.
  - done.
  - rewrite length_app. unfold MAXFILE, NDIRECT, NINDIRECT, BSIZE. lia.
  - right. unfold blocks_fuel, BSIZE. lia.
  - lia.
  - intros [x1 off] s1 (own1 & G & F1 & Eoff). cbn [fst snd] in *. destruct G as [D1 Fr Em Hfr].
    assert (off < 2 ^ 32) by (rewrite Eoff, length_app; lia). rewrite xint_id by lia.
    assert (dinode_range (set_isize off x1)) as R.
    { rewrite Em. destruct x as [x1' x2 x3 x4 x5 x6 x7 x8 x9 x10 x11]. simpl in *. split; simpl; try lia; [apply (fa_len F1)|by eapply file_range]. }
    eapply wp_mono; [apply winode_spec; [apply D1|lia|done]|]. intros [] s2 W. exists own1.
    eapply (image_ok_write s own fl s1 own1 s2 inum k t bs (bs ++ p) (set_isize off x1)); try done.
    + by eapply file_at_meta; [|done].
    + by rewrite Em.
    + by rewrite Em.
    + by rewrite Em.
    + by rewrite Em.
Qed.

(** ** New inodes *)

Lemma file_at_empty f own inum x : i_addrs x = replicate 13 0 → file_at f own inum x 0 false [].
Proof.
  intros E. assert (∀ i, nth i (i_addrs x) 0 = 0) as N.
  { intros i. rewrite E, nth_lookup. destruct (replicate 13 0 !! i) eqn:L; [by apply lookup_replicate in L as [-> _]|done]. }
  assert (∀ bn, addr_of f x bn = 0) as A. { intros bn. unfold addr_of, indirect. rewrite !N. by destruct (bn <? NDIRECT). }
  split.
  - by rewrite E.
  - unfold MAXFILE, NDIRECT, NINDIRECT. lia.
  - lia.
  - done.
  - split; [apply N|unfold NDIRECT; lia].
  - simpl. lia.
  - intros i Hi. unfold fbyte. rewrite A. cbn. by destruct (Z.to_nat i).
Qed.

Lemma ialloc_spec t s own fl : image_ok s own fl → 0 <= t < 2 ^ 15 → 2 + Z.of_nat (length fl) <= NINODES →
  wp (ialloc t) (λ inum s', inum = 1 + Z.of_nat (length fl) ∧ image_ok s' own (fl ++ [(t, [])])) s.
Proof.
  intros [I1 I2 I3 I4 I5 I6 I7 I8] Ht Hc. set (inum := 1 + Z.of_nat (length fl)) in *. unfold ialloc. apply wp_bind, wp_gets. rewrite I2. apply wp_bind, wp_modify.
  set (s0 := mkImage (m_img s) (inum + 1) (m_freeblock s)).
  rewrite (xshort_id t) by lia. change (xshort 1) with 1. change (xint 0) with 0. set (x := set_meta t 0 0 1 0 (replicate 13 0) inode0). assert (disk_inv s0 own) as D0 by (by destruct I1; split).
  eapply wp_step; [apply (winode_spec inum x s0)|]; [apply I1|lia| |].
  { split; unfold x; simpl; try lia. by repeat constructor. }
  intros [] s' W. apply wp_ret. split; [done|]. split; rewrite ?length_app; cbn [length]; try done.
  - by eapply disk_iwritten.
  - rewrite (iw_inode _ _ _ _ W). simpl. lia.
  - lia.
  - intros k t' bs Hk. apply lookup_app_Some in Hk as [Hk|[Hl Hk]].
    + destruct (I4 k t' bs Hk) as [Hr [J1 J2 J3 J4 J5 J6]]. pose proof (lookup_lt_Some _ _ _ Hk). split; [done|].
      assert (dino s' (1 + Z.of_nat k) = dino s (1 + Z.of_nat k)) as Ed by (rewrite (iw_other _ _ _ _ W) by lia; done).
      split; rewrite ?Ed; try done. by eapply file_at_iwritten.
    + apply list_lookup_singleton_Some in Hk as [Hz [= <- <-]]. assert (k = length fl) as -> by lia. split; [done|]. fold inum.
      split; rewrite (iw_self _ _ _ _ W); try done. by apply file_at_empty.
  - intros j Hj. rewrite (iw_other _ _ _ _ W) by lia. apply I5. lia.
  - rewrite (iw_free _ _ _ _ W), files_total_app. change (total [(t, [])]) with 0. simpl. lia.
  - rewrite (iw_blk _ _ _ _ W) by lia. done.
  - intros a Ha. rewrite (iw_blk _ _ _ _ W) by lia. by apply I8.
Qed.
