(* ===== verification/MkfsBuild.v ===== *)
(** * The run of the image builder (mkfs/mkfs.c)

    From an empty image to the list of the files that were given. *)

From S2P Require Import Prelude Spinlock Block Fs FsSpec FsFile FsInode FsData FsDir Mkfs MkfsSpec MkfsImage.

#[local] Ltac Zify.zify_post_hook ::= Z.to_euclidean_division_equations.

(** ** What the image is to hold *)

Abbreviation arg := (list Z * option (list (list Z)))%type.

Definition short (a : arg) : list Z := no_underscore (shortname a.1).
Definition contents (a : arg) : list Z := mjoin (default [] a.2).

(** The entries of the root directory: an inode and a name each. *)
Definition dir_entries (args : list arg) : list (Z * list Z) :=
  (1, [46]) :: (1, [46; 46]) :: imap (λ k a, (2 + Z.of_nat k, short a)) args.
Definition root_bytes (args : list arg) : list Z := mjoin ((λ e, mk_dirent e.1 e.2) <$> dir_entries args).

Definition tree (args : list arg) : files := (T_DIR, root_bytes args) :: ((λ a, (T_FILE, contents a)) <$> args).

(** The files can be opened, have names without a slash and are not too large, and
    the image has inodes and blocks for all of them. *)
Record args_ok (args : list arg) : Prop := {
  ao_open : Forall (λ a, is_Some a.2) args;
  ao_name : Forall (λ a, SLASH ∉ shortname a.1) args;
  ao_size : Forall (λ a, Z.of_nat (length (contents a)) <= MAXFILE * BSIZE) args;
  ao_inodes : 2 + Z.of_nat (length args) <= NINODES;
  ao_blocks : nmeta + total (tree args) <= FSSIZE
}.

Lemma dir_entries_app args a : dir_entries (args ++ [a]) = dir_entries args ++ [(2 + Z.of_nat (length args), short a)].
Proof. unfold dir_entries. rewrite imap_app. simpl. unfold compose. by rewrite Nat.add_0_r. Qed.

Lemma root_bytes_app args a : root_bytes (args ++ [a]) = root_bytes args ++ mk_dirent (2 + Z.of_nat (length args)) (short a).
Proof. unfold root_bytes. rewrite dir_entries_app, fmap_app. rewrite join_app. simpl. by rewrite app_nil_r. Qed.

Lemma mjoin_cons {A} (x : list A) l : mjoin (x :: l) = x ++ mjoin l.
Proof. done. Qed.

Lemma dirents_length (l : list (Z * list Z)) : length (mjoin ((λ e, mk_dirent e.1 e.2) <$> l)) = (16 * length l)%nat.
Proof. induction l as [|e l IH]; [done|]. rewrite fmap_cons, mjoin_cons, length_app, mk_dirent_len, IH. simpl. lia. Qed.

Lemma root_bytes_length args : length (root_bytes args) = (16 * (2 + length args))%nat.
Proof. unfold root_bytes. rewrite dirents_length. unfold dir_entries. simpl. rewrite length_imap. lia. Qed.

#[local] Arguments root_bytes : simpl never.
#[local] Arguments mk_dirent : simpl never.

(** ** Room *)

Lemma cost_nonneg n : 0 <= n → 0 <= cost n.
Proof. intros. unfold cost. destruct (_ <? _); lia. Qed.

Lemma files_total_nonneg fl : 0 <= total fl.
Proof.
  induction fl as [|e fl IH]; [done|]. unfold total in *. cbn [fmap list_fmap foldr]. pose proof (cost_nonneg (blocks (Z.of_nat (length e.2))) ltac:(unfold blocks, BSIZE; lia)). lia.
Qed.

Lemma total_cons e fl : total (e :: fl) = cost (blocks (Z.of_nat (length e.2))) + total fl.
Proof. done. Qed.

Lemma cost_length (n m : nat) : (n <= m)%nat → cost (blocks (Z.of_nat n)) <= cost (blocks (Z.of_nat m)).
Proof. intros. apply cost_mono. unfold blocks, BSIZE. lia. Qed.

Lemma total_tree args args' : total (tree args) <= total (tree (args ++ args')).
Proof.
  unfold tree. rewrite fmap_app, !total_cons, files_total_app. cbn [snd]. pose proof (files_total_nonneg ((λ a, (T_FILE, contents a)) <$> args')).
  pose proof (cost_length (length (root_bytes args)) (length (root_bytes (args ++ args'))) ltac:(rewrite !root_bytes_length, length_app; lia)). lia.
Qed.

(** ** Adding files *)

Lemma append_all_spec chunks : ∀ inum k t bs s own fl, image_ok s own fl → fl !! k = Some (t, bs) → inum = 1 + Z.of_nat k →
  Z.of_nat (length (bs ++ mjoin chunks)) <= MAXFILE * BSIZE → nmeta + total (<[k := (t, bs ++ mjoin chunks)]> fl) <= FSSIZE →
  wp (append_all inum chunks) (λ _ s', ∃ own', image_ok s' own' (<[k := (t, bs ++ mjoin chunks)]> fl)) s.
Proof.
  induction chunks as [|c chunks IH]; intros inum k t bs s own fl I Hk Hi Hm Hc; cbn [append_all].
  { apply wp_ret. exists own. simpl. by rewrite app_nil_r, list_insert_id. }
  rewrite mjoin_cons in *. pose proof (lookup_lt_Some _ _ _ Hk) as Hlt. rewrite app_assoc in *.
  assert (length (bs ++ c) <= length ((bs ++ c) ++ mjoin chunks))%nat as Hl by (rewrite (length_app (bs ++ c)); lia).
  eapply wp_step; [apply (iappend_spec inum k t bs c s own fl); [done|done|done|lia|]|].
  { rewrite (total_insert _ _ _ _ Hk) in Hc. rewrite (total_insert _ _ _ _ Hk). cbn [snd] in *. pose proof (cost_length _ _ Hl). lia. }
  intros [] s1 (own1 & I1). eapply wp_mono; [eapply (IH inum k t (bs ++ c) s1 own1); [exact I1|by rewrite list_lookup_insert_eq|done|done|by rewrite list_insert_insert_eq]|].
  intros [] s2 (own2 & I2). exists own2. by rewrite list_insert_insert_eq in I2.
Qed.

Lemma add_file_spec done_ a s own : let args := done_ ++ [a] in
  is_Some a.2 → SLASH ∉ shortname a.1 → Z.of_nat (length (contents a)) <= MAXFILE * BSIZE → 2 + Z.of_nat (length args) <= NINODES →
  nmeta + total (tree args) <= FSSIZE → image_ok s own (tree done_) →
  wp (add_file ROOTINO a.1 a.2) (λ _ s', ∃ own', image_ok s' own' (tree args)) s.
Proof.
  intros args [chunks Ef] Hn Hm Hi Hb I. pose proof (io_count I) as Hcnt. unfold args in *. rewrite length_app in Hi. simpl in Hi.
  assert (contents a = mjoin chunks) as Ec by (unfold contents; by rewrite Ef). pose proof Hb as Hb0. unfold tree in Hb. rewrite fmap_app, total_cons, files_total_app in Hb. cbn [snd fmap list_fmap] in Hb.
  rewrite root_bytes_app in Hb. set (de := mk_dirent (2 + Z.of_nat (length done_)) (short a)) in *. unfold NINODES in *.
  assert (length (tree done_) = S (length done_)) as Lt by (unfold tree; simpl; by rewrite length_fmap).
  unfold add_file. rewrite bool_decide_eq_false_2 by done. rewrite Ef.
  eapply wp_step; [apply (ialloc_spec T_FILE s own (tree done_)); [done|unfold T_FILE; lia|rewrite Lt; unfold NINODES; lia]|].
  intros inum s1 [-> I1]. rewrite Lt in *. rewrite xshort_id by lia. replace (1 + Z.of_nat (S (length done_))) with (2 + Z.of_nat (length done_)) by lia. fold (short a). fold de.
  set (fs1 := (λ a, (T_FILE, contents a)) <$> done_) in *. change (tree done_ ++ [(T_FILE, [])]) with ((T_DIR, root_bytes done_) :: fs1 ++ [(T_FILE, [])]) in I1.
  assert (total [(T_FILE, [])] = 0) as T0 by done. assert (total [(T_FILE, contents a)] = cost (blocks (Z.of_nat (length (contents a))))) as T1 by (rewrite total_cons; unfold total; simpl; lia).
  pose proof (cost_nonneg (blocks (Z.of_nat (length (contents a)))) ltac:(unfold blocks, BSIZE; lia)) as Hc0.
  eapply wp_step; [eapply (iappend_spec ROOTINO 0 T_DIR (root_bytes done_) de); [exact I1|done|done| |]|].
  { rewrite length_app, root_bytes_length. unfold de. rewrite mk_dirent_len. unfold MAXFILE, NDIRECT, NINDIRECT, BSIZE. lia. }
  { cbn [insert list_insert]. rewrite total_cons, files_total_app, T0. cbn [snd]. lia. }
  intros [] s2 (own2 & I2). cbn [insert list_insert] in I2.
  assert ((fs1 ++ [(T_FILE, [])]) !! length done_ = Some (T_FILE, [])) as El by (rewrite lookup_app_r; unfold fs1; rewrite length_fmap; [by rewrite Nat.sub_diag|done]).
  assert (<[S (length done_) := (T_FILE, mjoin chunks)]> ((T_DIR, root_bytes done_ ++ de) :: fs1 ++ [(T_FILE, [])]) = tree (done_ ++ [a])) as Et.
  { unfold tree. rewrite fmap_app, root_bytes_app. fold fs1 de.
    assert (∀ n (x y : Z * list Z) l, <[S n := x]> (y :: l) = y :: <[n := x]> l) as -> by done. f_equal. rewrite insert_app_r_alt; unfold fs1; rewrite length_fmap; [|done]. rewrite Nat.sub_diag. cbn. by rewrite Ec. }
  eapply wp_mono; [eapply (append_all_spec chunks (2 + Z.of_nat (length done_)) (S (length done_)) T_FILE []); [exact I2|exact El|lia|by rewrite app_nil_l, <- Ec|by rewrite app_nil_l, Et]|].
  intros [] s3 (own3 & I3). exists own3. by rewrite app_nil_l, Et in I3.
Qed.

Lemma add_files_spec todo : ∀ done_ s own, args_ok (done_ ++ todo) → image_ok s own (tree done_) →
  wp (add_files ROOTINO todo) (λ _ s', ∃ own', image_ok s' own' (tree (done_ ++ todo))) s.
Proof.
  induction todo as [|a todo IH]; intros done_ s own A I; cbn [add_files].
  { apply wp_ret. exists own. by rewrite app_nil_r. }
  replace (done_ ++ a :: todo) with ((done_ ++ [a]) ++ todo) in * by (by rewrite <- app_assoc). pose proof A as [A1 A2 A3 A4 A5].
  rewrite !Forall_app, !Forall_singleton in *. destruct A1 as [[_ A1] _], A2 as [[_ A2] _], A3 as [[_ A3] _]. pose proof (total_tree (done_ ++ [a]) todo).
  rewrite (length_app (done_ ++ [a])) in A4. destruct a as [name file].
  eapply wp_step; [apply (add_file_spec done_ (name, file) s own); [done|done|done|lia|lia|done]|]. intros [] s1 (own1 & I1). by apply (IH _ s1 own1).
Qed.

(** ** The whole program *)

Lemma zero_image_spec s : (∀ n, blk s n = zeroes) → m_freeinode s = 1 → m_freeblock s = nmeta →
  wp (for_ (R := unit) (Z.to_nat FSSIZE) 0 1 (λ i, wsect i zeroes ;; ret None))
    (λ _ s', (∀ n, 0 <= n < FSSIZE → m_img s' !! n = Some zeroes) ∧ (∀ n, blk s' n = zeroes) ∧ m_freeinode s' = 1 ∧ m_freeblock s' = nmeta) s.
Proof.
  intros Hz Hi Hf. apply (wp_for (λ k s', (∀ n, 0 <= n < Z.of_nat k → m_img s' !! n = Some zeroes) ∧ (∀ n, blk s' n = zeroes) ∧ m_freeinode s' = 1 ∧ m_freeblock s' = nmeta)).
  - split; [lia|done].
  - intros k s1 Hk (H1 & H2 & H3 & H4). unfold FSSIZE in Hk. replace (0 + Z.of_nat k * 1) with (Z.of_nat k) by lia.
    apply wp_bind, wp_wsect; [unfold FSSIZE; lia|]. apply wp_ret. split; [|split; [|done]].
    + intros n Hn. simpl. destruct (decide (n = Z.of_nat k)) as [->|Hne]; [by rewrite lookup_insert_eq|]. rewrite lookup_insert_ne by done. apply H1. lia.
    + intros n. rewrite blk_put. by destruct (_ =? _).
  - intros s1 (H1 & H2 & H3 & H4). split; [|done]. intros n Hn. apply H1. unfold FSSIZE in *. lia.
Qed.

Lemma sb_bytes_length b : length (sb_bytes b) = 32%nat.
Proof. done. Qed.

Lemma image_ok_empty s : (∀ n, 0 <= n < FSSIZE → m_img s !! n = Some zeroes) → (∀ n, blk s n = zeroes) → m_freeinode s = 1 → m_freeblock s = nmeta →
  image_ok (put_blk 1 (splice zeroes 0 (sb_bytes sb)) s) ∅ [].
Proof.
  intros H Hb Hi Hf.
  assert (length zeroes = 1024%nat) as Lz by apply length_replicate. unfold FSSIZE in *.
  assert (fits_in zeroes 0 (sb_bytes sb)) as Hfit by (split; [lia|rewrite Lz, sb_bytes_length; lia]).
  split; simpl; try done.
  - split; simpl; try done.
    + apply sized_put; [|by rewrite length_splice]. split; [intros n Hn; exists zeroes; by apply H|intros n; by rewrite Hb].
    + rewrite Hf, nmeta_eq. unfold FSSIZE. lia.
    + intros n Hn. rewrite Hf, nmeta_eq in Hn. unfold FSSIZE in Hn. rewrite blk_put, (proj2 (Z.eqb_neq _ _)) by lia. apply Hb.
  - intros j Hj. unfold dino. pose proof (IBLOCK_range j ltac:(lia)) as Hr. rewrite blk_put, (proj2 (Z.eqb_neq _ _)), Hb by lia. simpl. unfold get_i16. rewrite zeroes_get; [done|]. apply DOFF_range.
  - by rewrite blk_put.
  - intros a Ha. rewrite blk_put, (proj2 (Z.eqb_neq _ _)) by lia. apply Hb.
Qed.

(** The two entries every directory has. *)
Lemma root_start : root_bytes [] = mk_dirent 1 [46] ++ mk_dirent 1 [46; 46].
Proof. by vm_compute. Qed.

Lemma root_cost (bs : list Z) args : (length bs <= 32)%nat → total [(T_DIR, bs)] <= total (tree args).
Proof.
  intros Hl. unfold tree. rewrite !total_cons. cbn [snd]. pose proof (files_total_nonneg ((λ a, (T_FILE, contents a)) <$> args)) as H0. change (total []) with 0.
  pose proof (cost_length (length bs) (length (root_bytes args)) ltac:(rewrite root_bytes_length; lia)). lia.
Qed.

(** The size that the root directory is given in the end. *)
Definition root_size (args : list arg) : Z := (16 * (2 + Z.of_nat (length args)) / BSIZE + 1) * BSIZE.

(** The image in the end: the list of files, with that size of the root and the map
    of the blocks. *)
Record finished (args : list arg) (own : owners) (s1 s : image) : Prop := {
  fn_ok : image_ok s1 own (tree args);
  fn_root : dino s ROOTINO = meta (set_isize (root_size args) (dino s1 ROOTINO)) inode0;
  fn_dino : ∀ j, 0 <= j < NINODES → j ≠ ROOTINO → dino s j = dino s1 j;
  fn_blk : ∀ a, a < 32 ∨ 46 <= a → blk s a = blk s1 a;
  fn_map : blk s 45 = foldl set_bit zeroes (seqZ 0 (nmeta + total (tree args)));
  fn_sized : sized s
}.

Lemma length_foldl_set_bit l d : length (foldl set_bit d l) = length d.
Proof. revert d. induction l as [|b l IH]; intros d; [done|]. simpl. rewrite IH. apply length_set_bit. Qed.

Lemma mkfs_finish_spec args s own : args_ok args → image_ok s own (tree args) →
  wp (let! din := rinode ROOTINO in
      winode ROOTINO (set_isize (xint ((xint (i_size din) / BSIZE + 1) * BSIZE)) din) ;;
      let! used := gets m_freeblock in balloc used) (λ _ s', finished args own s s') s.
Proof.
  intros A I. pose proof (ao_inodes _ A) as Hn. pose proof (ao_blocks _ A) as Hb. unfold NINODES, FSSIZE in *. destruct (io_file I 0 _ _ eq_refl) as [_ F].
  change (1 + Z.of_nat 0) with ROOTINO in F. pose proof (fi_size _ _ _ _ _ F) as Hsz. rewrite root_bytes_length in Hsz. pose proof (io_disk I) as D.
  assert (0 <= root_size args < 2 ^ 32) as Hrs by (unfold root_size, BSIZE; lia).
  apply wp_bind, rinode_spec; [apply D|unfold ROOTINO, NINODES; lia|]. rewrite Hsz. rewrite (xint_id (Z.of_nat _)) by lia.
  replace ((Z.of_nat (16 * (2 + length args)) / BSIZE + 1) * BSIZE) with (root_size args) by (unfold root_size, BSIZE; lia). rewrite xint_id by done.
  assert (dinode_range (set_isize (root_size args) (dino s ROOTINO))) as R.
  { destruct F as [F1 F2 F3 F4 F5 F6]. unfold T_DIR in *. set (x := dino s ROOTINO) in *. clearbody x.
    split; cbn [set_isize i_type i_major i_minor i_nlink i_size i_addrs]; try lia; [apply (fa_len F6)|by eapply file_range]. }
  eapply wp_step; [apply winode_spec; [apply D|unfold ROOTINO, NINODES; lia|exact R]|]. intros [] s2 W. apply wp_bind, wp_gets. rewrite (iw_free _ _ _ _ W), (io_free I).
  unfold balloc. rewrite (proj2 (Z.ltb_lt _ _)) by (unfold BSIZE; lia). cbn [negb]. change (sb_bmapstart sb) with 45. apply wp_wsect; [unfold FSSIZE; lia|].
  assert (∀ a, a ≠ 45 → blk (put_blk 45 (foldl set_bit zeroes (seqZ 0 (nmeta + total (tree args)))) s2) a = blk s2 a) as B.
  { intros a Ha. by rewrite blk_put, (proj2 (Z.eqb_neq _ _)). }
  assert (∀ j, 0 <= j < NINODES → dino (put_blk 45 (foldl set_bit zeroes (seqZ 0 (nmeta + total (tree args)))) s2) j = dino s2 j) as Dj.
  { intros j Hj. pose proof (IBLOCK_range j Hj). unfold dino. by rewrite B by lia. }
  split; try done.
  - rewrite Dj by (unfold ROOTINO, NINODES; lia). apply W.
  - intros j Hj Hne. rewrite Dj by done. by apply W.
  - intros a Ha. rewrite B by lia. apply W. lia.
  - by rewrite blk_put.
  - apply sized_put; [apply W|]. rewrite length_foldl_set_bit. apply length_replicate.
Qed.

Lemma main_spec args : args_ok args → wp (main args) (λ _ s', ∃ own s1, finished args own s1 s') image0.
Proof.
  intros A. pose proof (ao_blocks _ A) as Hb. pose proof (mk_dirent_len 1 [46]) as L1. pose proof (mk_dirent_len 1 [46; 46]) as L2.
  unfold main. apply wp_bind, wp_modify. eapply wp_step; [by apply zero_image_spec|]. intros _ s0 (H1 & H2 & H3 & H4).
  apply wp_bind, wp_wsect; [unfold FSSIZE; lia|]. pose proof (image_ok_empty s0 H1 H2 H3 H4) as I0.
  eapply wp_step; [eapply ialloc_spec; [exact I0|unfold T_DIR; lia|done]|]. intros inum s1 [-> I1]. change (1 + Z.of_nat (length (A := Z * list Z) [])) with ROOTINO.
  rewrite Z.eqb_refl. cbn [negb]. change (xshort ROOTINO) with 1. rewrite app_nil_l in I1.
  eapply wp_step; [eapply (iappend_spec ROOTINO 0 T_DIR [] (mk_dirent 1 [46])); [exact I1|done|done| |]|].
  { rewrite app_nil_l, L1. unfold MAXFILE, NDIRECT, NINDIRECT, BSIZE. lia. }
  { cbn [insert list_insert]. pose proof (root_cost (mk_dirent 1 [46]) args ltac:(lia)). rewrite app_nil_l. lia. }
  intros [] s2 (own2 & I2). cbn [insert list_insert] in I2. rewrite app_nil_l in I2.
  eapply wp_step; [eapply (iappend_spec ROOTINO 0 T_DIR (mk_dirent 1 [46]) (mk_dirent 1 [46; 46])); [exact I2|done|done| |]|].
  { rewrite length_app, L1, L2. unfold MAXFILE, NDIRECT, NINDIRECT, BSIZE. lia. }
  { cbn [insert list_insert]. pose proof (root_cost (mk_dirent 1 [46] ++ mk_dirent 1 [46; 46]) args ltac:(rewrite length_app; lia)). lia. }
  intros [] s3 (own3 & I3). cbn [insert list_insert] in I3. rewrite <- root_start in I3.
  eapply wp_step; [apply (add_files_spec args [] s3 own3 A I3)|]. intros [] s4 (own4 & I4). rewrite app_nil_l in I4.
  eapply wp_mono; [apply (mkfs_finish_spec args s4 own4 A I4)|]. intros [] s5 F. by exists own4, s4.
Qed.
