(* ===== verification/MkfsProps.v ===== *)
(** * The image that mkfs builds is one the kernel can use (mkfs/mkfs.c)

    The files and names given are on the image, it satisfies what the theorems about
    the file system ask for, and the kernel comes up on it. *)

From S2P Require Import Prelude Spinlock Block Bio BioSpec Cache Log LogSpec LogTrans Fs FsSpec FsFile FsInode FsData FsDir FsInst.
From S2P Require Import Mkfs MkfsSpec MkfsImage MkfsBuild.

#[local] Ltac Zify.zify_post_hook ::= Z.to_euclidean_division_equations.

(** ** Contents *)

Lemma fbytes_at f own inum x nb ind bs n : file_at f own inum x nb ind bs → 0 <= n <= MAXFILE * BSIZE →
  fbytes f x 0 n = (λ i, nth (Z.to_nat i) bs 0) <$> seqZ 0 n.
Proof.
  intros F Hn. apply list_fmap_ext. intros j i [Hi Hj]%lookup_seqZ. apply (fa_byte F). lia.
Qed.

Lemma nth_all (bs : list Z) : (λ i, nth (Z.to_nat i) bs 0) <$> seqZ 0 (Z.of_nat (length bs)) = bs.
Proof.
  apply list_eq. intros i. rewrite list_lookup_fmap. destruct (decide (i < length bs)%nat) as [Hi|Hi].
  - rewrite lookup_seqZ_lt by lia. cbn [fmap option_fmap option_map]. rewrite nth_lookup. replace (Z.to_nat _) with i by lia.
    destruct (lookup_lt_is_Some_2 bs i Hi) as [b E]. rewrite E. done.
  - rewrite lookup_seqZ_ge by lia. symmetry. apply lookup_ge_None. lia.
Qed.

Section Finished.
Variables (args : list arg) (own : owners) (s1 s : image).
Hypothesis A : args_ok args.
Hypothesis F : finished args own s1 s.

Lemma fn_file inum x nb ind bs : file_at (blk s1) own inum x nb ind bs → file_at (blk s) own inum x nb ind bs.
Proof using F.
  apply file_at_frame. intros a o Ha. pose proof (own_range _ _ _ _ (io_disk (fn_ok _ _ _ _ F)) Ha). split; [done|]. apply (fn_blk _ _ _ _ F). lia.
Qed.

(** The file of an argument. *)
Lemma fn_arg k a : args !! k = Some a → file_is s own (2 + Z.of_nat k) T_FILE (contents a).
Proof using A F.
  intros Hk. pose proof (lookup_lt_Some _ _ _ Hk) as Hlt. pose proof (ao_inodes _ A) as Hn. destruct (io_file (fn_ok _ _ _ _ F) (S k) T_FILE (contents a)) as [_ [J1 J2 J3 J4 J5 J6]].
  { unfold tree. simpl. rewrite list_lookup_fmap, Hk. done. }
  replace (1 + Z.of_nat (S k)) with (2 + Z.of_nat k) in * by lia.
  assert (dino s (2 + Z.of_nat k) = dino s1 (2 + Z.of_nat k)) as E by (apply (fn_dino _ _ _ _ F); unfold ROOTINO; lia).
  split; rewrite E; try done. by apply fn_file.
Qed.

(** The root directory. *)
Lemma fn_root_is : let x := dino s ROOTINO in
  i_type x = T_DIR ∧ i_nlink x = 1 ∧ i_size x = root_size args ∧
  file_at (blk s) own ROOTINO x (blocks (Z.of_nat (length (root_bytes args)))) (NDIRECT <? blocks (Z.of_nat (length (root_bytes args)))) (root_bytes args).
Proof using A F.
  intros x. destruct (io_file (fn_ok _ _ _ _ F) 0 T_DIR (root_bytes args) eq_refl) as [_ [J1 J2 J3 J4 J5 J6]]. change (1 + Z.of_nat 0) with ROOTINO in *.
  unfold x. rewrite (fn_root _ _ _ _ F). split_and!; [done|done|done|]. eapply file_at_meta; [|by apply fn_file]. done.
Qed.

Lemma root_size_range : 0 <= root_size args <= MAXFILE * BSIZE ∧ root_size args mod 16 = 0 ∧ Z.of_nat (length (root_bytes args)) <= root_size args.
Proof using A.
  pose proof (ao_inodes _ A). unfold NINODES in *. rewrite root_bytes_length. unfold root_size, MAXFILE, NDIRECT, NINDIRECT, BSIZE. lia.
Qed.
End Finished.

(** ** Names *)

(** The bytes of an entry, in the middle of the others. *)
Lemma nth_dirents (l : list (Z * list Z)) k e : l !! k = Some e →
  (λ i, nth (Z.to_nat i) (mjoin ((λ e, mk_dirent e.1 e.2) <$> l)) 0) <$> seqZ (16 * Z.of_nat k) 16 = mk_dirent e.1 e.2.
Proof.
  intros E. rewrite <- (take_drop_middle l k e E), fmap_app, fmap_cons, join_app, mjoin_cons. set (p := mjoin (_ <$> take k l)). set (q := mjoin _).
  assert (length p = 16 * k)%nat as Lp by (unfold p; rewrite dirents_length, length_take; pose proof (lookup_lt_Some _ _ _ E); lia).
  apply list_eq. intros i. rewrite list_lookup_fmap. pose proof (mk_dirent_len e.1 e.2) as Le. destruct (decide (i < 16)%nat) as [Hi|Hi].
  - rewrite lookup_seqZ_lt by lia. cbn [fmap option_fmap option_map]. rewrite app_nth2 by lia. rewrite app_nth1 by lia. rewrite nth_lookup. replace (Z.to_nat (16 * Z.of_nat k + Z.of_nat i) - length p)%nat with i by lia.
    destruct (lookup_lt_is_Some_2 (mk_dirent e.1 e.2) i ltac:(lia)) as [b Eb]. by rewrite Eb.
  - rewrite lookup_seqZ_ge by lia. symmetry. apply lookup_ge_None. lia.
Qed.

Lemma entries_range args k e : 2 + Z.of_nat (length args) <= NINODES → dir_entries args !! k = Some e → 0 < e.1 < 2 ^ 16.
Proof.
  unfold NINODES. intros Hn. unfold dir_entries. destruct k as [|[|k]]; simpl; [by intros [= <-]|by intros [= <-]|].
  rewrite list_lookup_imap. destruct (args !! k) eqn:E; [|done]. simpl. intros [= <-]. simpl. apply lookup_lt_Some in E. lia.
Qed.

Lemma matches_dirent name i n : 0 < i < 2 ^ 16 → matches name (mk_dirent i n) = bool_decide (name_of n = name_of name).
Proof.
  intros Hi. unfold matches. rewrite mk_dirent_inum, (proj2 (Z.eqb_neq _ _)) by lia. cbn [negb andb]. apply eq_bool_prop_intro. rewrite bool_decide_spec, Is_true_true, Z.eqb_eq, namecmp_spec, mk_dirent_name.
  done.
Qed.

Lemma matches_zeros name : matches name (replicate 16 0) = false.
Proof. done. Qed.

Section Lookup.
Variables (args : list arg) (own : owners) (s1 s : image).
Hypothesis A : args_ok args.
Hypothesis F : finished args own s1 s.
Abbreviation root := (dino s ROOTINO).

Lemma root_entries : entries root = Z.to_nat (root_size args / 16).
Proof using A F. destruct (fn_root_is args own s1 s A F) as (_ & _ & E & _). unfold entries. by rewrite E. Qed.

Lemma root_dirent (k : nat) : (k < entries root)%nat →
  dirent_at (blk s) root (Z.of_nat k) = match dir_entries args !! k with Some e => mk_dirent e.1 e.2 | None => replicate 16 0 end.
Proof using A F.
  rewrite root_entries. intros Hk. destruct (fn_root_is args own s1 s A F) as (_ & _ & _ & Fa). destruct (root_size_range args A) as (R1 & R2 & R3).
  transitivity ((λ i, nth (Z.to_nat i) (root_bytes args) 0) <$> seqZ (16 * Z.of_nat k) 16).
  { apply list_fmap_ext. intros j i [Hi Hj]%lookup_seqZ. apply (fa_byte Fa). lia. }
  destruct (dir_entries args !! k) as [e|] eqn:E; [by apply nth_dirents|]. apply lookup_ge_None in E.
  assert (length (root_bytes args) = 16 * length (dir_entries args))%nat as L by apply dirents_length.
  apply list_eq. intros i. rewrite list_lookup_fmap. destruct (decide (i < 16)%nat).
  - rewrite lookup_seqZ_lt by lia. cbn [fmap option_fmap option_map]. rewrite nth_overflow by lia. by rewrite lookup_replicate_2.
  - rewrite lookup_seqZ_ge by lia. symmetry. apply lookup_ge_None. rewrite length_replicate. lia.
Qed.

Lemma entries_le : (length (dir_entries args) <= entries root)%nat.
Proof using A F.
  rewrite root_entries. destruct (root_size_range args A) as (R1 & R2 & R3).
  assert (length (root_bytes args) = 16 * length (dir_entries args))%nat as L by apply dirents_length. lia.
Qed.

Lemma root_match name (k : nat) : (k < entries root)%nat →
  matches name (dirent_at (blk s) root (Z.of_nat k)) = match dir_entries args !! k with Some e => bool_decide (name_of e.2 = name_of name) | None => false end.
Proof using A F.
  intros Hk. rewrite root_dirent by done. destruct (dir_entries args !! k) as [e|] eqn:E; [|done]. apply matches_dirent. eapply entries_range; [apply A|exact E].
Qed.

(** Every name of the list of entries, and no other, is found. *)
Lemma root_find name : dir_find (blk s) root name =
  (λ p, (16 * Z.of_nat p.1, p.2.1)) <$> list_find (λ e, name_of e.2 = name_of name) (dir_entries args).
Proof using A F.
  pose proof entries_le as Hle. unfold dir_find. destruct (list_find _ _) as [[i e]|] eqn:E.
  - apply list_find_Some in E as (Hi & He & Hb). pose proof (lookup_lt_Some _ _ _ Hi) as Hlt.
    assert (first_entry (entries root) 0 (dirent_at (blk s) root) (matches name) = Some (Z.of_nat i)) as ->.
    { apply first_entry_Some. split_and!; [lia|lia| |].
      - rewrite root_match, Hi by lia. by apply bool_decide_eq_true_2.
      - intros j Hj. replace j with (Z.of_nat (Z.to_nat j)) by lia. rewrite root_match by lia.
        destruct (dir_entries args !! Z.to_nat j) as [e'|] eqn:E'; [|done]. apply bool_decide_eq_false_2. apply (Hb (Z.to_nat j)); [done|lia]. }
    cbn [fmap option_fmap option_map fst snd]. rewrite root_dirent, Hi by lia. rewrite mk_dirent_inum; [done|].
    pose proof (entries_range args i e ltac:(apply A) Hi). lia.
  - apply list_find_None in E. assert (first_entry (entries root) 0 (dirent_at (blk s) root) (matches name) = None) as ->; [|done].
    apply first_entry_None. intros j Hj. replace j with (Z.of_nat (Z.to_nat j)) by lia. rewrite root_match by lia.
    destruct (dir_entries args !! Z.to_nat j) as [e'|] eqn:E'; [|done]. apply bool_decide_eq_false_2. rewrite Forall_lookup in E. by apply (E _ _ E').
Qed.

(** ** The map of the blocks *)

Lemma bits_foldl n : 0 <= n <= 8192 → ∀ b, 0 <= b → bit (foldl set_bit zeroes (seqZ 0 n)) b = (b <? n).
Proof.
  intros Hn b Hb. replace n with (Z.of_nat (Z.to_nat n)) in * by lia. revert Hn. induction (Z.to_nat n) as [|m IH]; intros Hn.
  - cbn [Z.of_nat seqZ foldl]. rewrite (proj2 (Z.ltb_ge b (Z.of_nat 0))) by lia. rewrite bit_testbit. change zeroes with zeros. by rewrite zeros_nth, Z.bits_0.
  - rewrite Nat2Z.inj_succ, <- Z.add_1_r, seqZ_app, foldl_app by lia. cbn [seqZ foldl fmap list_fmap seq Z.to_nat Pos.to_nat].
    replace (seqZ (0 + Z.of_nat m) 1) with [Z.of_nat m] by done. cbn [foldl]. rewrite bit_set, IH by (rewrite ?length_foldl_set_bit; change (length zeroes) with (Z.to_nat 1024); lia). lia.
Qed.

Lemma map_bits b : 0 <= b → bit (blk s 45) b = (b <? nmeta + total (tree args)).
Proof using A F.
  intros Hb. rewrite (fn_map _ _ _ _ F). pose proof (ao_blocks _ A). pose proof (files_total_nonneg (tree args)). rewrite nmeta_eq in *. unfold FSSIZE in *. apply bits_foldl; lia.
Qed.
End Lookup.

Lemma sb_read : sb_decode (splice zeroes 0 (sb_bytes sb)) = sb.
Proof. by vm_compute. Qed.

(** What is on the image. *)
Record built (args : list arg) (s : image) : Prop := {
  bu_sb : sb_decode (blk s 1) = sb;
  bu_log : ∀ a, 2 <= a < 32 → blk s a = zeroes;
  bu_file : ∀ k a, args !! k = Some a → let x := dino s (2 + Z.of_nat k) in
    i_type x = T_FILE ∧ i_nlink x = 1 ∧ fbytes (blk s) x 0 (i_size x) = contents a;
  bu_root : i_type (dino s ROOTINO) = T_DIR ∧ i_nlink (dino s ROOTINO) = 1;
  bu_names : ∀ name, dir_find (blk s) (dino s ROOTINO) name =
    (λ p, (16 * Z.of_nat p.1, p.2.1)) <$> list_find (λ e, name_of e.2 = name_of name) (dir_entries args);
  bu_free : ∀ j, 2 + Z.of_nat (length args) <= j < NINODES → i_type (dino s j) = 0;
  bu_map : ∀ b, 0 <= b < FSSIZE → bit (blk s (BBLOCK b sb)) (b mod BPB) = (b <? nmeta + total (tree args))
}.

Lemma BBLOCK_sb b : 0 <= b < FSSIZE → BBLOCK b sb = 45 ∧ b mod BPB = b.
Proof. unfold FSSIZE, BBLOCK, BPB, BSIZE. intros. change (sb_bmapstart sb) with 45. rewrite (wrap_small 32); lia. Qed.

Lemma finished_built args own s1 s : args_ok args → finished args own s1 s → built args s.
Proof.
  intros A F. split.
  - rewrite (fn_blk _ _ _ _ F), (io_sb (fn_ok _ _ _ _ F)) by lia. apply sb_read.
  - intros a Ha. rewrite (fn_blk _ _ _ _ F) by lia. by apply (io_log (fn_ok _ _ _ _ F)).
  - intros k a Hk. destruct (fn_arg args own s1 s A F k a Hk) as [J1 J2 J3 J4 J5 J6]. split_and!; [done|done|]. rewrite J5.
    pose proof (ao_size _ A) as Hs. rewrite Forall_lookup in Hs. specialize (Hs _ _ Hk). rewrite (fbytes_at _ _ _ _ _ _ _ _ J6) by lia. apply nth_all.
  - destruct (fn_root_is args own s1 s A F) as (R1 & R2 & _). done.
  - apply (root_find args own s1 s A F).
  - intros j Hj. rewrite (fn_dino _ _ _ _ F) by (unfold ROOTINO; lia). apply (io_ifree (fn_ok _ _ _ _ F)). unfold tree. simpl. rewrite length_fmap. lia.
  - intros b Hb. destruct (BBLOCK_sb b Hb) as [-> ->]. apply (map_bits args own s1 s A F). lia.
Qed.

(** ** In the eyes of the kernel *)

Section Kernel.
Context {B : Type} `{!BlockOps B} `{!BlockLaws B}.
Variables (args : list arg) (own : owners) (s1 s : image) (k : fsys B).
Hypothesis A : args_ok args.
Hypothesis F : finished args own s1 s.
Hypothesis Ksb : f_sb k = sb.
Hypothesis Kblk : ∀ n, 0 <= n < FSSIZE → ¬ 2 <= n < 32 → lb (f_b k) n = blk s n ∧ data_blk (f_b k) n.
Abbreviation flb := (lb (f_b k)).

Lemma k_bmap n : is_bmap sb n → n = 45.
Proof. intros (b & Hb & ->). change (sb_size sb) with FSSIZE in Hb. by apply BBLOCK_sb. Qed.

Lemma k_iblock n : is_iblock sb n → 32 <= n < 45.
Proof. intros (i & Hi & ->). by apply IBLOCK_range. Qed.

Lemma k_used b : 0 <= b < FSSIZE → used k b = (b <? nmeta + total (tree args)).
Proof using A F Ksb Kblk.
  intros Hb. unfold used. rewrite Ksb. destruct (BBLOCK_sb b Hb) as [-> ->]. destruct (Kblk 45) as [-> _]; [unfold FSSIZE; lia|lia|]. apply (map_bits args own s1 s A F). lia.
Qed.

(** The image has the layout that the file system relies on. *)
Lemma k_layout : layout k.
Proof using A F Ksb Kblk.
  pose proof (files_total_nonneg (tree args)) as H0. split; rewrite ?Ksb; try done.
  - intros n ->%k_bmap. apply Kblk; [unfold FSSIZE|]; lia.
  - intros n Hn%k_iblock. apply Kblk; [unfold FSSIZE|]; lia.
  - intros n ->%k_bmap Hi%k_iblock. lia.
  - change (sb_size sb) with FSSIZE. intros b Hb Hu. rewrite k_used, nmeta_eq in Hu by done. split_and!; [lia|apply Kblk; lia| |].
    + intros Hn%k_bmap. lia.
    + intros Hn%k_iblock. lia.
Qed.

Lemma k_owned a o : own !! a = Some o → owned k a.
Proof using A F Ksb Kblk.
  intros Ha. pose proof (io_disk (fn_ok _ _ _ _ F)) as D. pose proof (own_range _ _ _ _ D Ha) as Hr. pose proof (dk_own D _ _ Ha) as Hu. rewrite (io_free (fn_ok _ _ _ _ F)) in Hu.
  unfold owned. rewrite Ksb. change (sb_size sb) with FSSIZE. split_and!; [lia|lia|lia| |apply Kblk; lia| |].
  - rewrite k_used by lia. lia.
  - intros Hn%k_bmap. lia.
  - intros Hn%k_iblock. lia.
Qed.

Lemma k_file inum x nb ind bs : file_at (blk s) own inum x nb ind bs → file_at flb own inum x nb ind bs.
Proof using F Kblk.
  apply file_at_frame. intros a o Ha. pose proof (own_range _ _ _ _ (io_disk (fn_ok _ _ _ _ F)) Ha). split; [done|]. apply Kblk; lia.
Qed.

Lemma k_file_ok inum x nb ind bs : file_at (blk s) own inum x nb ind bs → i_dev x = ROOTDEV → i_inum x = inum → 0 <= inum < NINODES →
  0 <= i_size x <= MAXFILE * BSIZE → file_ok k x.
Proof using A F Ksb Kblk.
  intros Fa%k_file Hd Hi Hr Hs.
  assert (∀ bn, 0 <= bn < MAXFILE → addr_of flb x bn ≠ 0 → own !! addr_of flb x bn = Some (inum, Some bn)) as Ho.
  { intros bn Hb Hz. destruct (decide (bn < nb)); [apply (fa_map Fa); lia|]. by rewrite (fa_unmap Fa) in Hz by lia. }
  assert (indirect x ≠ 0 → own !! indirect x = Some (inum, None)) as Hind by (intros Hz; pose proof (fa_ind Fa); destruct ind; [done|lia]).
  split; try done; rewrite ?Ksb.
  - apply (fa_len Fa).
  - by rewrite Hi.
  - intros bn Hb Hz. by eapply k_owned, Ho.
  - intros Hz. by eapply k_owned, Hind.
  - intros bn bn' Hb Hb' Hz E. pose proof (Ho bn Hb Hz) as E1. rewrite E in Hz, E1. rewrite (Ho bn' Hb' Hz) in E1. congruence.
  - intros bn Hb Hz E. pose proof (Hind Hz) as E1. assert (addr_of flb x bn ≠ 0) as Hz' by congruence. rewrite <- E, (Ho bn Hb Hz') in E1. congruence.
Qed.

Lemma k_solid inum x nb ind bs : file_at (blk s) own inum x nb ind bs → i_size x <= nb * BSIZE → solid flb x.
Proof using F Kblk.
  intros Fa%k_file Hs i Hi E. assert (0 <= i / BSIZE < nb) as Hb by (unfold BSIZE in *; lia). pose proof (fa_map Fa _ Hb) as Ho. rewrite E in Ho.
  pose proof (own_range _ _ _ _ (io_disk (fn_ok _ _ _ _ F)) Ho). lia.
Qed.

Lemma k_on_disk inum y : 0 <= inum < NINODES → on_disk k inum y = meta (dino s inum) y.
Proof using Ksb Kblk.
  intros Hi. pose proof (IBLOCK_range inum Hi). unfold on_disk, dino. rewrite Ksb. destruct (Kblk (IBLOCK inum sb)) as [-> _]; [unfold FSSIZE; lia|lia|done].
Qed.
End Kernel.

(** When the entries fill their blocks exactly, the size that the root directory is
    given takes in a block that it does not have. *)
Lemma root_hole args own s1 s : args_ok args → finished args own s1 s → (2 + Z.of_nat (length args)) mod 64 = 0 →
  addr_of (blk s) (dino s ROOTINO) (root_size args / BSIZE - 1) = 0.
Proof.
  intros A F Hm. destruct (fn_root_is args own s1 s A F) as (_ & _ & _ & Fa). pose proof (ao_inodes _ A) as Hn. unfold NINODES in Hn.
  apply (fa_unmap Fa). rewrite root_bytes_length. unfold root_size, blocks, MAXFILE, NDIRECT, NINDIRECT, BSIZE. lia.
Qed.

(** ** The theorem about the program *)

(** C12 (functional).  Given files that can be opened, with names without a slash and
    sizes that fit, no more than there are inodes and blocks for, mkfs finishes, and on
    the image that it leaves: the super block is the one of the layout and the log is
    empty; every file is a regular file with exactly the bytes that were read; looking
    up a name in the root directory gives the first entry of that name (cut to 14
    bytes), among "." and ".." for the root and one for each file; the other inodes are
    free; and exactly the blocks up to the last one handed out are marked in use. *)
Theorem mkfs_correct args : args_ok args → wp (main args) (λ _ s, built args s) image0.
Proof. intros A. eapply wp_mono; [by apply main_spec|]. intros [] s (own & s1 & F). by eapply finished_built. Qed.

(** Two files, the first read in two pieces. *)
Definition demo_args : list arg :=
  [([117; 115; 101; 114; 47; 95; 108; 115], Some [replicate 1024 7; [8; 9]]); ([82; 69; 65; 68; 77; 69], Some [[65; 10]])].

Lemma demo_args_ok : args_ok demo_args.
Proof. split; apply (bool_decide_unpack _); by vm_compute. Qed.

Lemma mkfs_correct_witness : dir_entries demo_args !! 2%nat = Some (2, [108; 115]) ∧ wp (main demo_args) (λ _ s, built demo_args s) image0.
Proof. split; [reflexivity|]. apply (mkfs_correct demo_args). exact demo_args_ok. Defined.
