(* ===== verification/MkfsBoot.v ===== *)
(** * The kernel on the image of mkfs (mkfs/mkfs.c, kernel/fs.c)

    [fsinit], over the buffer cache and the log, on a disk with the image. *)

From S2P Require Import Prelude Spinlock Block Bio BioSpec Cache Log LogSpec LogTrans Fs FsSpec FsFile FsInode FsData FsDir FsInst.
From S2P Require Import Kalloc LogProps Mkfs MkfsSpec MkfsImage MkfsBuild MkfsProps.

#[local] Ltac Zify.zify_post_hook ::= Z.to_euclidean_division_equations.

(** ** Reading the super block through a cold cache *)

Lemma readsb_spec (k : fsys lst) : cache (l_b (f_b k)) [] [] [] → 1 < d_size (ldisk (f_b k)) →
  wp (readsb ROOTDEV) (λ r k', r = sb_decode (dread (ldisk (f_b k)) 1) ∧ cache (l_b (f_b k')) [] [] [] ∧
    keeps (f_b k) (lblk (l_b (f_b k))) (f_b k')) k.
Proof.
  intros Hc Hd. unfold readsb. apply wp_bind, wp_zoom, wp_zoom.
  eapply wp_mono; [apply (bread_cache 1 _ [] [] []); [exact Hc|set_solver|simpl; lia|right; unfold NBUF; simpl; lia]|].
  intros b t (C1 & (E1 & E2 & E3) & L1). apply wp_bind, wp_zoom, wp_zoom. eapply (bdata_cache b 1); [exact C1|by left|].
  apply wp_bind, wp_zoom, wp_zoom. eapply wp_mono; [apply (brelse_cache b 1 _ [] [] [] []); [exact C1|set_solver]|].
  intros [] t2 (C2 & (G1 & G2 & G3) & L2). apply wp_ret. split_and!.
  - simpl in *. rewrite L1. f_equal. by apply (clean_lblk _ [] [] []); [exact Hc|set_solver..].
  - done.
  - split_and!; simpl in *; [split; simpl; [by rewrite G1, E1|by rewrite G2, E2]|done|by rewrite G3, E3|]. intros m. by rewrite L2, L1.
Qed.

(** ** Coming up *)

(** The disk with the image in it, and the machine before it has read anything. *)
Definition disk_of (s : image) : disk := mkDisk FSSIZE (m_img s) [].
Definition sb0 : superblock := mkSb 0 0 0 0 0 0 0 0.
Definition cold (lk : lockst) (pid : Z) (s : image) : fsys lst := mkFs (booted lk pid (disk_of s)) sb0 ∅ 0.

(** [binit()] and the file system of the first process. *)
Definition mount : M (fsys lst) unit := zoom (zoom (S := lst) binit) ;; fsinit ROOTDEV.

Lemma disk_of_blk s n : dread (disk_of s) n = blk s n.
Proof. done. Qed.

Lemma sb_is_ok s : sb_log_ok sb (disk_of s).
Proof. split; vm_compute; split_and?; try done; discriminate. Qed.

Lemma image_log_disk s : sized s → (∀ a, 2 <= a < 32 → blk s a = zeroes) → log_disk 2 30 (disk_of s) (disk_of s) (blk s).
Proof.
  intros [_ Hl] Hz. apply log_disk_empty; [lia|done| |done|done]. rewrite disk_of_blk, Hz by lia. by vm_compute.
Qed.

Lemma mount_spec lk pid s : hart_ok lk → sized s → sb_decode (blk s 1) = sb → (∀ a, 2 <= a < 32 → blk s a = zeroes) →
  wp mount (λ _ k, quiet (f_b k) ∧ f_sb k = sb ∧ ∀ n, 0 <= n < FSSIZE → ¬ 2 <= n < 32 → dread (ldisk (f_b k)) n = blk s n ∧ lb (f_b k) n = blk s n ∧ data_blk (f_b k) n) (cold lk pid s).
Proof.
  intros Hh Hs Hsb Hz. unfold mount. apply wp_bind, wp_zoom, wp_zoom. eapply wp_mono; [apply binit_spec; split_and!; [done|done|apply Hs]|].
  intros [] t (Hc & Ht & Hp & Hdk). unfold fsinit. match goal with |- wp _ _ ?k => set (k1 := k) end.
  assert (ldisk (f_b k1) = disk_of s) as Ed by exact Hdk. eapply wp_step; [apply (readsb_spec k1 Hc); rewrite Ed; by vm_compute|].
  intros r k2 (-> & C2 & (E1 & E2) & E3 & E4 & L2). rewrite Ed, disk_of_blk, Hsb. rewrite Ed in E4. apply wp_bind, wp_modify.
  change (sb_magic sb =? FSMAGIC) with true. cbn [negb]. apply wp_zoom. cbn [view set f_b].
  change (sb_logstart sb) with 2. assert (length (lh_block (l_log (f_b k2))) = 30%nat) as Hl by (rewrite E3; done).
  eapply wp_mono; [apply (initlog_spec sb (f_b k2) (blk s)); rewrite ?E3, ?E4; try done; [by rewrite E1|by apply image_log_disk]|].
  intros [] b' (Q & St & Sz & T & D). split; [done|]. split; [done|]. cbn [f_b]. intros n Hn Hr. apply throughout_end in T as (_ & _ & Ds). rewrite E4 in *.
  assert (is_data 2 30 (disk_of s) n) as Hd by (unfold is_data, region; simpl; lia). destruct (D n Hd) as [D1 D2]. split; [exact D2|]. split; [exact D1|].
  change (place b' n). unfold place, is_data, region. rewrite Ds, St, Sz. change (d_size (disk_of s)) with FSSIZE. change (sb_logstart sb) with 2. change (sb_nlog sb) with 30. lia.
Qed.

(** ** The theorem about both *)

(** The files of the image, for the running kernel. *)
Record usable (args : list arg) (k : fsys lst) : Prop := {
  us_layout : layout k;
  us_file : ∀ j a y, args !! j = Some a → i_dev y = ROOTDEV → i_inum y = 2 + Z.of_nat j →
    let x := on_disk k (2 + Z.of_nat j) y in
    file_ok k x ∧ solid (lb (f_b k)) x ∧ i_type x = T_FILE ∧ fbytes (lb (f_b k)) x 0 (i_size x) = contents a;
  us_root : ∀ y, i_dev y = ROOTDEV → i_inum y = ROOTINO →
    let x := on_disk k ROOTINO y in
    file_ok k x ∧ i_type x = T_DIR ∧ i_size x mod 16 = 0 ∧ ((2 + Z.of_nat (length args)) mod 64 ≠ 0 → solid (lb (f_b k)) x) ∧
    ∀ name, dir_find (lb (f_b k)) x name =
      (λ p, (16 * Z.of_nat p.1, p.2.1)) <$> list_find (λ e, name_of e.2 = name_of name) (dir_entries args)
}.

(** The contents are in blocks that the kernel sees as they are on the image. *)
Lemma fbytes_same f f' own inum x y nb ind bs off n : file_at f own inum x nb ind bs → file_at f' own inum x nb ind bs → i_addrs y = i_addrs x →
  0 <= off → off + n <= MAXFILE * BSIZE → fbytes f' y off n = fbytes f x off n.
Proof.
  intros F F' E Ho Hn. apply list_fmap_ext. intros j i [Hi Hj]%lookup_seqZ. unfold fbyte. rewrite (addr_of_meta _ y x) by done.
  change (fbyte f' x i = fbyte f x i). rewrite (fa_byte F), (fa_byte F') by lia. done.
Qed.

Lemma dir_find_same f f' own inum x y nb ind bs name : file_at f own inum x nb ind bs → file_at f' own inum x nb ind bs → i_addrs y = i_addrs x →
  i_size y = i_size x → 0 <= i_size x <= MAXFILE * BSIZE → dir_find f' y name = dir_find f x name.
Proof.
  intros F F' E Es Hs. assert (∀ k, 0 <= k < Z.of_nat (entries x) → dirent_at f' y k = dirent_at f x k) as Ed.
  { intros k Hk. unfold entries in Hk. eapply fbytes_same; [done|done|done|lia|]. lia. }
  unfold dir_find. replace (entries y) with (entries x) by (unfold entries; by rewrite Es).
  assert (first_entry (entries x) 0 (dirent_at f' y) (matches name) = first_entry (entries x) 0 (dirent_at f x) (matches name)) as ->.
  { destruct (first_entry _ _ (dirent_at f x) _) as [j|] eqn:Ej.
    - apply first_entry_Some in Ej as (H1 & H2 & H3). apply first_entry_Some. split_and!; [lia|lia|by rewrite Ed by lia|]. intros i Hi. rewrite Ed by lia. by apply H3.
    - rewrite first_entry_None in Ej. apply first_entry_None. intros i Hi. rewrite Ed by lia. by apply Ej. }
  destruct (first_entry _ _ (dirent_at f x) _) as [j|] eqn:Ej; [|done]. apply first_entry_Some in Ej as (H1 & _). simpl. by rewrite Ed by lia.
Qed.

Lemma finished_usable args own s1 s k : args_ok args → finished args own s1 s → f_sb k = sb →
  (∀ n, 0 <= n < FSSIZE → ¬ 2 <= n < 32 → lb (f_b k) n = blk s n ∧ data_blk (f_b k) n) → usable args k.
Proof.
  intros A F Ksb Kb. pose proof (ao_inodes _ A) as Hn. split; [by eapply k_layout| |].
  - intros j a y Hj Hd Hi x. pose proof (lookup_lt_Some _ _ _ Hj) as Hlt. destruct (fn_arg args own s1 s A F j a Hj) as [J1 J2 J3 J4 J5 J6].
    pose proof (ao_size _ A) as Hs. rewrite Forall_lookup in Hs. specialize (Hs _ _ Hj). unfold x. rewrite (k_on_disk s k) by (done || lia).
    set (z := dino s (2 + Z.of_nat j)) in *. assert (file_at (blk s) own (2 + Z.of_nat j) (meta z y) _ _ _) as J7 by (by eapply file_at_meta; [|exact J6]).
    split_and!; [|eapply (k_solid args own s1 s k); [done|done|exact J7|]|done|].
    + eapply (k_file_ok args own s1 s k A F); [done|done|exact J7|done|done|lia|change (i_size (meta z y)) with (i_size z); lia].
    + change (i_size (meta z y)) with (i_size z). rewrite J5. unfold blocks, BSIZE. lia.
    + transitivity (fbytes (blk s) z 0 (i_size z)); [eapply fbytes_same; [exact J6|by eapply k_file|done|lia|change (i_size (meta z y)) with (i_size z); lia]|].
      rewrite J5, (fbytes_at _ _ _ _ _ _ _ _ J6) by lia. apply nth_all.
  - intros y Hd Hi x. destruct (fn_root_is args own s1 s A F) as (R1 & R2 & R3 & J6). destruct (root_size_range args A) as (S1 & S2 & S3).
    assert (0 <= ROOTINO < NINODES) as Hr by (unfold ROOTINO, NINODES; lia). unfold x. rewrite (k_on_disk s k) by done. set (z := dino s ROOTINO) in *.
    assert (file_at (blk s) own ROOTINO (meta z y) _ _ _) as J7 by (by eapply file_at_meta; [|exact J6]). split_and!; [|done|change (i_size (meta z y)) with (i_size z); by rewrite R3| |].
    + eapply (k_file_ok args own s1 s k A F); [done|done|exact J7|done|done|done|change (i_size (meta z y)) with (i_size z); lia].
    + intros Hm. eapply (k_solid args own s1 s k); [done|done|exact J7|]. change (i_size (meta z y)) with (i_size z). rewrite R3, root_bytes_length. unfold root_size, blocks, BSIZE. lia.
    + intros name. rewrite <- (root_find args own s1 s A F). eapply dir_find_same; [exact J6|by eapply k_file|done|done|fold z; lia].
Qed.

(** C7 (safety).  The kernel comes up on the image that mkfs leaves: with the image on
    its disk and nothing in its cache, [binit] and [fsinit] return without a panic.  The
    image's log is empty and no block outside the log changes, so nothing is recovered.
    The file system satisfies what its theorems ask for: the layout of the free map,
    well-formed files with the contents that were given, and a well-formed root directory
    in which every name is found.  Every block below the size of the root directory is
    there, as reading it needs, only if its entries (two, and one per file) are not a
    multiple of 64; if they are, mkfs counts one block too many. *)
Theorem mkfs_boots args lk pid : args_ok args → hart_ok lk →
  wp (main args) (λ _ s, hdr_n (blk s 2) = 0 ∧
    wp mount (λ _ k, quiet (f_b k) ∧ (∀ n, 0 <= n < FSSIZE → ¬ 2 <= n < 32 → dread (ldisk (f_b k)) n = blk s n) ∧ usable args k) (cold lk pid s)) image0.
Proof.
  intros A Hh. eapply wp_mono; [by apply main_spec|]. intros [] s (own & s1 & F). pose proof (finished_built args own s1 s A F) as Hb.
  assert (∀ a, 2 <= a < 32 → blk s a = zeroes) as Hz by apply Hb. split; [rewrite Hz by lia; by vm_compute|].
  eapply wp_mono; [apply mount_spec; [done|apply F|apply Hb|done]|]. intros [] k (Q & Ks & Kb). split; [done|].
  split; [intros n Hn Hl; by apply Kb|]. eapply finished_usable; [done..|]. intros n Hn Hl. by apply Kb.
Qed.

Lemma mkfs_boots_witness : wp (main demo_args) (λ _ s, hdr_n (blk s 2) = 0 ∧
  wp mount (λ _ k, quiet (f_b k) ∧ (∀ n, 0 <= n < FSSIZE → ¬ 2 <= n < 32 → dread (ldisk (f_b k)) n = blk s n) ∧ usable demo_args k) (cold demo_lk 1 s)) image0.
Proof. apply (mkfs_boots demo_args demo_lk 1); [exact demo_args_ok|exact demo_hart]. Defined.
